(* ===== verification/_CoqProject ===== *)
-Q . S2P
Prelude.v
Crypto.v
Merkle.v
Log.v
Tenants.v
Monitor.v
Builder.v
Verifiers.v
Delivery.v
Client.v
Framing.v
Relay.v
Overlay.v
Text.v
Stores.v
Access.v
Tables.v
Groups.v
Dms.v
Civil.v
Messages.v
Accounts.v
Frames.v
Service.v
EmailChange.v
Router.v
Release.v
Fetch.v
Wire.v
Layout.v
Remote.v
Site.v
Server.v
Live.v
Transparency.v
Socks.v
Pool.v
Vault.v
Capture.v
Enroll.v
Safety.v
Ingest.v
Storage.v
Device.v
Outbox.v
Broker.v
Reconcile.v
