(* ===== verification/Prelude.v ===== *)
(** * Pollis verification library

    Pollis is an end-to-end encrypted messenger.  Its Rust code falls into four groups
    with logic of their own, and this library models their cores:

    - the transparency log: [verifiable-log] (a Merkle log with signed heads and the
      monitor), [verifiable-log-builder] (bundles built from the database) and
      [verifiable-log-serve] (verdicts on one conversation, account or release, the static
      site, its servers and the audit of a site over HTTP);
    - the delivery service [pollis-delivery]: it orders the commits of a group, keeps the
      accounts, devices, groups, DMs and stored envelopes, and authenticates every write;
      with it the parts of [pollis-core] that replay commits, decide joining and adoption,
      frame plaintexts, ingest messages and move the watermark;
    - the relay overlay: [pollis-device-cert], [pollis-relay] and the client side of it in
      [pollis-core] (relay pool, directory, SOCKS5 shim, overlay mode);
    - the trust and secrets of one client in [pollis-core]: the PIN vault, the account index,
      the account identity and its transfer to new devices, safety numbers, and the audits of
      the transparency log; and the wire protocol of the capture helpers.

    ** Files

    - [Prelude.v]: machine data (bytes, integers with their wrap-around, UTF-8), results
      with their [let?] notation, generic list lemmas, sorting, the development's tactics.
    - [Crypto.v]: the crates [sha2], [hex], [ed25519-dalek] and [serde_json] as type
      classes with their laws as separate classes, and executable instances (SHA-256 after
      FIPS 180-4, lowercase hex, transparent stand-ins for signatures and JSON) used by
      witnesses and evaluation tests only.
    - [Merkle.v]: [hash.rs], [merkle.rs].  [Log.v]: [log.rs], [sth.rs], [proof.rs].
    - [Tenants.v]: [commit_log.rs], [account_key.rs], [binaries.rs] of the builder, one
      Module each, behind the class [TenantRule] that says which rule on a tenant's
      entries an append check enforces; the builder and the verifiers are proved against it.
    - [Monitor.v]: [bin/monitor.rs].  [Builder.v]: [builder.rs], [source.rs], [error.rs].
    - [Verifiers.v]: [group.rs] and [account.rs] of the server, Modules [Group], [Account].
    - [Delivery.v]: [commit.rs], the commit handlers of [lib.rs] and the MLS statements of
      [writes.rs] over records for the tables of the log database ([LogDb]) and the
      membership tables of the main one ([MainDb]).
    - [Client.v]: [mls/invariants.rs], the replay loop of [mls/group_state.rs], the commit
      resolution of [mls/reconcile.rs], [messages/watermark.rs].  [Framing.v]:
      [messages/framing.rs].
    - [Relay.v]: [pollis-device-cert] and [proto.rs], Modules [DeviceCert], [Proto].
    - [Overlay.v]: Modules [Hosts] and [Server] ([server.rs]), [Policy] ([policy.rs] and
      the upstream half of [shim.rs]), [Limiter] and [LimiterRun] ([ratelimit.rs], alone and
      interleaved).
    - [Text.v]: what the service uses of Rust's and SQLite's strings (trimming, splitting,
      integer parsing, byte order).
    - [Stores.v]: the in-memory stores of the service, Modules [Session], [Otp] and
      [RateLimit] ([session.rs], [otp.rs], [ratelimit.rs]).
    - [Access.v]: [auth.rs] and the gates and Welcome handlers of [writes.rs], the commit
      routes of [lib.rs], and the client's [ds_post].
    - [Tables.v]: the main database, its tables as maps, and a statement monad in which any
      statement may fail and a transaction rolls back, with its weakest-precondition rules.
    - [Groups.v], [Dms.v], [Messages.v], [Accounts.v]: the routes of [groups.rs],
      [profile.rs], [messages.rs], and of [account.rs], [devices.rs], [bootstrap.rs] and
      [cert.rs].  [Civil.v]: the calendar arithmetic of [messages.rs].  [Frames.v]: which tables
      each of these operations writes, and the scope of the account operations in the shared ones.
    - [Service.v]: the handlers of these routes over one state.  [EmailChange.v]:
      [email_change.rs].  [Router.v]: every write route behind the rate limiter.
    - [Release.v]: [release.rs] of the log server.  [Fetch.v]: [bundle.rs], [error.rs] and the
      verifiers that fetch over HTTP, in a monad that records each request and its answer;
      the host is an arbitrary function of that record.  [Wire.v]: an executable JSON codec
      for the documents, for witnesses.  [Layout.v]: [layout.rs].  [Remote.v]: [remote.rs].
      [Site.v]: an honest site under the audit.  [Server.v]: [server.rs].  [Live.v]:
      [live.rs], its worker threads as interleaved steps.
    - [Transparency.v]: [commands/transparency.rs], the client's audits, on top of [Fetch.v].
    - [Socks.v]: the SOCKS5 exchange, the shim's server ([shim.rs]) and the client
      ([socks5_connect]) run against each other.  [Pool.v]: [net/directory.rs],
      [net/overlay.rs], [commands/overlay.rs] and the overlay part of [config.rs].
    - [Vault.v]: [commands/pin.rs], the trait of [keystore.rs], [accounts.rs], over a keystore
      and a disk of which any call may fail.  [Enroll.v]: [commands/account_identity.rs] and
      [commands/device_enrollment.rs], over the vault's client state and the service's routes
      of [Accounts.v].  [Safety.v]: [commands/safety.rs].
    - [Capture.v]: [pollis-capture-proto].
    - [Ingest.v]: [messages/ingest.rs] and what it uses of [mls/group_state.rs] and
      [mls/provider.rs], over [Client.v], [Framing.v] and the routes of [Messages.v].
    - [Storage.v]: [signal/mls_storage.rs], the MLS library's store over one local table.
      [Device.v]: [mls/device.rs], the device's signing key and certificates, over [Storage.v],
      [Enroll.v] and the routes of [Accounts.v].
    - [Outbox.v]: [messages/send.rs], [messages/edit_delete.rs], over [Ingest.v] and the routes
      of [Messages.v].
    - [Broker.v]: [broker.rs] of the service, behind the gate of [Access.v].
    - [Reconcile.v]: [mls/reconcile.rs], the backstop of [mls/sweep.rs] and [revoke_device] of
      [auth.rs], over [Client.v], [Device.v], [Delivery.v] and the routes of [Accounts.v].

    ** Correspondence

    A Rust function is a Rocq function of the same name.  A method that mutates its
    receiver returns the new state.  [Result] and [Option] keep their branches; errors
    carry the source's variants.  A SQL statement is a function on the table records that
    the statement reads and writes, with the rows it affects; any statement may fail
    ([Faults]), and a transaction that fails leaves the tables as they were.  Unsigned
    integers are [N], signed ones [Z], reduced at their width where the code can overflow
    (release build: wrap-around); lengths are [nat].  [f64] is IEEE binary64
    ([SpecFloat]).  A [HashMap] whose order is never observed is a [gmap].

    ** What the theorems show

    - Merkle and Log: the executable root hash satisfies RFC 6962; an inclusion proof verifies
      exactly for the entry at its index with the generated path; an accepted consistency proof
      shows a prefix; generated proofs verify; appends keep the log invariant.  SHA-256 is not
      assumed injective: soundness is relative to [collision_free] on the finite list of strings
      that were hashed.
    - Tenants, Builder, Monitor, Verifiers: each append rule is exactly an order on the decoded
      leaves; the builders succeed exactly on lists that obey it; the monitor accepts what the
      commit builder produces, and what it accepts has the promised properties, of the roots and
      entries if it carries entries; a group or account verdict is sound against the signed log
      and complete on built bundles; heads of different tenants are never confused.
    - Delivery: [submit_commit] is atomic and serialises epochs; retention keeps what the
      reports of the current members' devices ask for; over every run with honest reports the
      history of a conversation is one line of epochs; the catch-up read is gapless; GroupInfo
      and Welcome writes are monotone and scoped.  One theorem shows what an unchecked report
      does to the log.
    - Client and Framing: the replay applies consecutive epochs only and reaches the head or
      rejoins; adoption agrees with the log whatever happens to the response; the watermark
      drops nothing; padding round-trips within its bounds.
    - Relay and Overlay: the handshake codec is exact; minted and signed handshakes are
      admitted; the message binds its fields; the skew test is characterised with its overflow;
      the allowlist, the routing policy and the stream handler let nothing through that they
      should not; the limiter's counters are right under every interleaving of its critical
      sections, and [admit] refines into that semantics.
    - Stores: the session store implements the map from tokens to sessions it stands for; the
      service's limiter bounds each client by its own hits; guesses of a code are bounded;
      verifying a code is all or nothing.
    - Access: who a request is from, exactly; what the client signs passes; with authentication
      on, every commit-log write is within the scope of a credential.
    - Groups, Dms, Messages, Accounts: whatever a signed request does and whichever statement
      fails, only what its signer may change has changed, table by table ([group_scope],
      [dm_scope], [message_scope], [account_scope]); key rotations cannot fork the account-key
      log; key packages are handed out once; deletions leave no group without an admin;
      collection of envelopes is exact; dates are Gregorian.
    - Service: the same over whole requests through the router, where a request changes only the
      tables of its own path and within the permission of that path ([permitted]); over every
      sequence of requests, an accepted request is signed by a device certified under the user's
      logged account key, and the account-key log builds into a bundle that verifies for every
      user, which ties the service to [Builder.v] and [Verifiers.v].
    - Release, Fetch, Layout, Remote, Site: release verdicts are sound and complete; a fetching
      verifier reaches the verdict of the bundle that was published, and dials only through its
      proxy; the audit of a site is sound against a host that answers as it likes (signatures
      and every advertised proof; roots where entries are served), and whatever the builders and
      generators publish passes it.  Two evaluations show what the audit does not notice.
    - Server, Live: decoded ids are well-formed; both servers serve the generated documents;
      rebuilds are single-flight and bounded, and every answer comes from a signed cache.
    - Transparency: a clean self-audit means the device's own key is in the signed log, and a
      client against an honest log raises no alarm.
    - Socks and Pool: client and shim agree on every exchange, which ends; a dial takes the
      first relay that answers and leaves the health it should; the pool in use is that of the
      last directory received that verified, fetched at most every fifteen seconds; changing the
      mode leaves both databases on one side or reports an error.
    - Vault, Enroll, Safety: what a PIN seals it opens, and ten wrong ones wipe it; the account
      key reaches a new device unchanged, through an enrolled one or with the Secret Key in any
      spelling, also when an answer is lost; an approval needs all it says and changes its row
      only; a contact shown as verified rests on the user's mark and an unchanged key; both
      users see one safety number; the batch check is the single check. 
      [exchange_unauthenticated] and [change_forgotten] state what the enrolment codes and the
      pins do not give.
    - Capture: every stream of messages is read back.
    - Ingest: a message changes only by its author's hand or a tombstone of the service; a
      message whose epoch is reached is stored exactly if it reads to a text in the device's own
      store at its turn and the write works; what lies past the epochs reached is fetched again,
      whatever fails on either side, while the device is waited for; [late_envelope_lost] states
      what is never fetched.
    - Storage and Device: the table is a store of independent cells, whichever statements fail
      and going on after them, for one leaf per group; the proposal queue stays readable but for
      an interrupted clear; the device's signing key is stable, its certificate is published
      under it and verifies everywhere, stale ones are re-signed, and a commit's added devices
      pass exactly if certified.  [epoch_keys_collide] and [resign_poisons] state what goes
      wrong.
    - Outbox: what one member sends, edits or deletes another member's ingest stores, changes or
      redacts, from the command over the service's table to the reader; what a failed send
      leaves where; blocked sends are silent; which attachments a deletion releases.
    - Broker: without a device signature no secret is used; a token is for the signer's own
      identity, which no other user shares, and a room the signer may join; a host that honours
      the documented signature scheme takes a presigned URL for exactly its object.
    - Reconcile: a reconcile makes the tree the roster's and announces exactly the difference,
      and the local group moves on only with the log, whatever fails and also if a staged commit
      could not be serialised; [leftover_commit_merged], [revoked_leaf_stays] and
      [mixed_add_wedges] state where the commands fall short.

    ** Fuel and bounds

    [Merkle.root_hash], [inclusion_path] and [subproof] recurse on halves of the leaf list
    with its length as fuel: a half is strictly shorter, and the split equations of
    [Merkle.v] hold without mention of fuel.  The bit loops of the verifiers take their
    argument as fuel, which halves in every round.  Every other recursion is structural.
    Hypotheses such as [head < 2^63] state that a counter has not reached the end of its
    machine type; [run_no_fork] derives them from the length of the run.

    ** Not modelled

    Network and file I/O, process start-up and printing; the database engine beyond the
    statements modelled; [openmls] (a parameter: what processing a commit or a message
    yields); TLS and QUIC; the platform keystores; mail sending; the JWT library and the hosts the
    broker calls; voice, camera and screen capture; user interface code.  Of the logic of
    [pollis-core], the healing of a published GroupInfo, the external join and the sign-in
    commands remain; where a modelled command calls them they are functions of the store. *)

From stdpp Require Import base list strings option numbers countable.
From Stdlib Require Import NArith ZArith Lia.
From Stdlib Require Import Strings.Byte.

#[global] Open Scope nat_scope.

(** ** Machine data

    Bytes are the kernel's [Byte.byte]; a Rust [Vec<u8>], [&[u8]] or [[u8; n]] is a
    list of them.  A Rust [String] is a Rocq [string], whose characters are its
    UTF-8 bytes.  Unsigned machine integers ([u8 .. u64], [usize] where it is a
    number on the wire) are [N], signed ones are [Z], and slice lengths and indices
    are [nat]. *)

Abbreviation byte := Byte.byte.
Abbreviation bytes := (list Byte.byte).

#[global] Instance byte_eq_decision : EqDecision byte := Byte.byte_eq_dec.

#[global] Instance byte_countable : Countable byte := inj_countable Byte.to_N Byte.of_N Byte.of_to_N.

Definition byte_of_N (n : N) : byte :=
  match Byte.of_N (n mod 256) with Some b => b | None => Byte.x00 end.

Definition N_of_byte (b : byte) : N := Byte.to_N b.

(** [str.as_bytes()] and its inverse on bytes already known to be text. *)
Definition as_bytes (s : string) : bytes := String.list_byte_of_string s.

Definition of_bytes (b : bytes) : string := String.string_of_list_byte b.

(** Truncating casts, [x as u8], [x as u32] and [x as u64]. *)
Definition as_u8 (n : N) : N := (n mod 2 ^ 8)%N.

Definition as_u16 (n : N) : N := (n mod 2 ^ 16)%N.

Definition as_u32 (n : N) : N := (n mod 2 ^ 32)%N.

Definition as_u64 (n : N) : N := (n mod 2 ^ 64)%N.

(** Two's complement of an [i64]: the bit pattern of [z], and back. *)
Definition i64_to_u64 (z : Z) : N := Z.to_N (z mod 2 ^ 64).

Definition u64_to_i64 (n : N) : Z :=
  let z := (Z.of_N n mod 2 ^ 64)%Z in
  if (z <? 2 ^ 63)%Z then z else (z - 2 ^ 64)%Z.

(** [i64] arithmetic in a release build: the result modulo [2^64]. *)
Definition wrap_i64 (z : Z) : Z := u64_to_i64 (i64_to_u64 z).

Definition i64_range (z : Z) : Prop := (- 2 ^ 63 <= z < 2 ^ 63)%Z.

(** [to_le_bytes] / [to_be_bytes] of a [w]-byte integer, and the readers. *)
Fixpoint le_bytes (w : nat) (n : N) : bytes :=
  match w with
  | O => []
  | S w' => byte_of_N n :: le_bytes w' (n / 256)
  end.

Definition be_bytes (w : nat) (n : N) : bytes := rev (le_bytes w n).

Fixpoint le_value (b : bytes) : N :=
  match b with
  | [] => 0
  | x :: b' => N_of_byte x + 256 * le_value b'
  end%N.

Definition be_value (b : bytes) : N := le_value (rev b).

(** ** std::str::from_utf8

    The well-formed byte sequences: a lead byte fixes the number of continuation bytes
    and the range of the first of them. *)
Definition in_range (b : byte) (lo hi : N) : bool := (lo <=? N_of_byte b)%N && (N_of_byte b <=? hi)%N.

Definition cont (b : byte) : bool := in_range b 0x80 0xBF.

Fixpoint utf8_valid (l : bytes) : bool :=
  match l with
  | [] => true
  | b :: l1 =>
      if (N_of_byte b <=? 0x7F)%N then utf8_valid l1
      else if in_range b 0xC2 0xDF then
        match l1 with c1 :: l2 => cont c1 && utf8_valid l2 | _ => false end
      else if in_range b 0xE0 0xEF then
        match l1 with
        | c1 :: c2 :: l3 =>
            in_range c1 (if (N_of_byte b =? 0xE0)%N then 0xA0 else 0x80)
                        (if (N_of_byte b =? 0xED)%N then 0x9F else 0xBF) && cont c2 && utf8_valid l3
        | _ => false
        end
      else if in_range b 0xF0 0xF4 then
        match l1 with
        | c1 :: c2 :: c3 :: l4 =>
            in_range c1 (if (N_of_byte b =? 0xF0)%N then 0x90 else 0x80)
                        (if (N_of_byte b =? 0xF4)%N then 0x8F else 0xBF) && cont c2 && cont c3 && utf8_valid l4
        | _ => false
        end
      else false
  end.

Definition from_utf8 (l : bytes) : option string := if utf8_valid l then Some (of_bytes l) else None.

(** ** Rust's [Result] and the [?] operator *)

Inductive Result (A E : Type) : Type :=
| Ok (a : A)
| Err (e : E).
Arguments Ok {A E} a.
Arguments Err {A E} e.

Definition rbind {A B E} (r : Result A E) (k : A -> Result B E) : Result B E :=
  match r with Ok a => k a | Err e => Err e end.

Definition map_err {A E F} (f : E -> F) (r : Result A E) : Result A F :=
  match r with Ok a => Ok a | Err e => Err (f e) end.

Definition ok {A E} (r : Result A E) : option A :=
  match r with Ok a => Some a | Err _ => None end.

Definition ok_or {A E} (o : option A) (e : E) : Result A E :=
  match o with Some a => Ok a | None => Err e end.

Definition is_ok {A E} (r : Result A E) : bool :=
  match r with Ok _ => true | Err _ => false end.

Declare Scope rust_scope.
Delimit Scope rust_scope with rust.

Notation "'let?' x := e 'in' k" := (rbind e (fun x => k))
  (at level 10, x name, e at level 100, k at level 200) : rust_scope.
#[global] Open Scope rust_scope.

(** [iter.map(f).collect::<Result<Vec<_>, _>>()]: stops at the first error. *)
Fixpoint collect_results {A B E} (f : A -> Result B E) (l : list A) : Result (list B) E :=
  match l with
  | [] => Ok []
  | a :: l' => let? b := f a in let? bs := collect_results f l' in Ok (b :: bs)
  end.

(** ** Tactics of the development *)

(** Case analysis on every [match] scrutinee in sight, closing the absurd cases. *)
Ltac cases :=
  repeat (match goal with
          | H : context [match ?x with _ => _ end] |- _ => destruct x eqn:?
          | |- context [match ?x with _ => _ end] => destruct x eqn:?
          end; simplify_eq/=; try done).

(** Split a successful [let?] chain in hypothesis [H] into its steps. *)
Ltac rinv H :=
  repeat match type of H with
         | rbind ?e _ = Ok _ =>
             let E := fresh "E" in
             destruct e eqn:E; simpl in H; [|discriminate H]
         end.

(** Turn boolean tests in the context into propositions. *)
Ltac breflect :=
  repeat match goal with
         | H : (_ && _)%bool = true |- _ => apply andb_true_iff in H as [? ?]
         | H : (_ || _)%bool = false |- _ => apply orb_false_iff in H as [? ?]
         | H : negb _ = true |- _ => apply negb_true_iff in H
         | H : negb _ = false |- _ => apply negb_false_iff in H
         | H : bool_decide _ = true |- _ => apply bool_decide_eq_true in H
         | H : bool_decide _ = false |- _ => apply bool_decide_eq_false in H
         | H : (_ =? _)%nat = true |- _ => apply Nat.eqb_eq in H
         | H : (_ =? _)%nat = false |- _ => apply Nat.eqb_neq in H
         | H : (_ <? _)%nat = true |- _ => apply Nat.ltb_lt in H
         | H : (_ <? _)%nat = false |- _ => apply Nat.ltb_ge in H
         | H : (_ <=? _)%nat = true |- _ => apply Nat.leb_le in H
         | H : (_ <=? _)%nat = false |- _ => apply Nat.leb_gt in H
         | H : (_ =? _)%N = true |- _ => apply N.eqb_eq in H
         | H : (_ =? _)%N = false |- _ => apply N.eqb_neq in H
         | H : (_ <? _)%N = true |- _ => apply N.ltb_lt in H
         | H : (_ <? _)%N = false |- _ => apply N.ltb_ge in H
         | H : (_ <=? _)%N = true |- _ => apply N.leb_le in H
         | H : (_ <=? _)%N = false |- _ => apply N.leb_gt in H
         | H : (_ =? _)%Z = true |- _ => apply Z.eqb_eq in H
         | H : (_ =? _)%Z = false |- _ => apply Z.eqb_neq in H
         | H : (_ <? _)%Z = true |- _ => apply Z.ltb_lt in H
         | H : (_ <? _)%Z = false |- _ => apply Z.ltb_ge in H
         | H : (_ <=? _)%Z = true |- _ => apply Z.leb_le in H
         | H : (_ <=? _)%Z = false |- _ => apply Z.leb_gt in H
         end.

Create HintDb pollis.
Create Rewrite HintDb pollis.

(** [injection] without looking into the values. *)
Lemma Ok_inj {A E} (a b : A) : @Ok A E a = Ok b -> a = b.
Proof. by intros [= ->]. Qed.

(** ** Byte and integer encodings *)

Lemma N_of_byte_of_N n : N_of_byte (byte_of_N n) = (n mod 256)%N.
Proof.
  unfold byte_of_N, N_of_byte. destruct (Byte.of_N (n mod 256)) eqn:E.
  - by apply Byte.to_of_N.
  - apply Byte.of_N_None_iff in E. pose proof (N.mod_upper_bound n 256). lia.
Qed.

Lemma N_of_byte_bound b : (N_of_byte b < 256)%N.
Proof. pose proof (Byte.to_N_bounded b). unfold N_of_byte. lia. Qed.

Lemma byte_of_N_of_byte b : byte_of_N (N_of_byte b) = b.
Proof.
  unfold byte_of_N. rewrite N.mod_small by apply N_of_byte_bound.
  unfold N_of_byte. by rewrite Byte.of_to_N.
Qed.

Lemma length_le_bytes w n : length (le_bytes w n) = w.
Proof. revert n; induction w as [|w IH]; intros n; simpl; [done|]. by rewrite IH. Qed.

Lemma length_be_bytes w n : length (be_bytes w n) = w.
Proof. unfold be_bytes. by rewrite length_rev, length_le_bytes. Qed.

Lemma le_value_bytes w n : le_value (le_bytes w n) = (n mod 2 ^ (8 * N.of_nat w))%N.
Proof.
  revert n; induction w as [|w IH]; intros n.
  { simpl. by rewrite N.mod_1_r. }
  cbn [le_bytes le_value]. rewrite IH, N_of_byte_of_N.
  replace (8 * N.of_nat (S w))%N with (8 + 8 * N.of_nat w)%N by lia.
  rewrite N.pow_add_r. change (2 ^ 8)%N with 256%N.
  by rewrite N.Div0.mod_mul_r.
Qed.

Lemma be_value_bytes w n : be_value (be_bytes w n) = (n mod 2 ^ (8 * N.of_nat w))%N.
Proof. unfold be_value, be_bytes. rewrite rev_involutive. apply le_value_bytes. Qed.

Lemma le_value_bound b : (le_value b < 2 ^ (8 * N.of_nat (length b)))%N.
Proof.
  induction b as [|x b IH]; [simpl; lia|]. cbn [le_value length].
  replace (8 * N.of_nat (S (length b)))%N with (8 + 8 * N.of_nat (length b))%N by lia.
  rewrite N.pow_add_r. pose proof (N_of_byte_bound x). nia.
Qed.

Lemma le_bytes_value b : le_bytes (length b) (le_value b) = b.
Proof.
  induction b as [|x b IH]; [done|]. cbn [le_value length le_bytes]. f_equal.
  - unfold byte_of_N. rewrite (N.mul_comm 256), N.Div0.mod_add.
    apply byte_of_N_of_byte.
  - rewrite (N.mul_comm 256), N.div_add, N.div_small by (lia || apply N_of_byte_bound).
    by rewrite N.add_0_l.
Qed.

(** Encoding at a width is injective on the integers of that width. *)
Lemma le_bytes_inj w n m :
  (n < 2 ^ (8 * N.of_nat w))%N -> (m < 2 ^ (8 * N.of_nat w))%N ->
  le_bytes w n = le_bytes w m -> n = m.
Proof.
  intros Hn Hm E. apply (f_equal le_value) in E.
  rewrite !le_value_bytes, !N.mod_small in E by done. done.
Qed.

Lemma be_bytes_inj w n m :
  (n < 2 ^ (8 * N.of_nat w))%N -> (m < 2 ^ (8 * N.of_nat w))%N ->
  be_bytes w n = be_bytes w m -> n = m.
Proof.
  intros Hn Hm E. apply (f_equal (@rev byte)) in E.
  unfold be_bytes in E. rewrite !rev_involutive in E. by eapply le_bytes_inj.
Qed.

Lemma be_bytes_value b : be_bytes (length b) (be_value b) = b.
Proof.
  unfold be_bytes, be_value. rewrite <- (length_rev b), le_bytes_value.
  apply rev_involutive.
Qed.

Lemma i64_roundtrip z : i64_range z -> u64_to_i64 (i64_to_u64 z) = z.
Proof.
  unfold i64_range, u64_to_i64, i64_to_u64. intros Hz.
  rewrite Z2N.id by (apply Z.mod_pos_bound; lia). rewrite Z.mod_mod by lia.
  destruct (Z.ltb_spec (z mod 2 ^ 64) (2 ^ 63)) as [Hl|Hl];
    destruct (decide (0 <= z)%Z) as [Hp|Hp];
    try (rewrite (Z.mod_small z) in * by lia; lia);
    rewrite <- (Z.mod_add z 1), (Z.mod_small (z + _)) in * by lia; lia.
Qed.

Lemma wrap_i64_id z : i64_range z -> wrap_i64 z = z.
Proof. apply i64_roundtrip. Qed.

Lemma i64_to_u64_bound z : (i64_to_u64 z < 2 ^ 64)%N.
Proof. unfold i64_to_u64. pose proof (Z.mod_pos_bound z (2 ^ 64)). lia. Qed.

Lemma u64_i64_roundtrip n : (n < 2 ^ 64)%N -> i64_to_u64 (u64_to_i64 n) = n /\ i64_range (u64_to_i64 n).
Proof.
  intros Hn. unfold u64_to_i64, i64_to_u64, i64_range. rewrite (Z.mod_small (Z.of_N n)) by lia.
  destruct (Z.ltb_spec (Z.of_N n) (2 ^ 63)) as [Hl|Hl]; [rewrite Z.mod_small by lia; lia|].
  rewrite <- (Z.mod_add _ 1), Z.mod_small by lia. lia.
Qed.

Lemma as_bytes_of_bytes b : as_bytes (of_bytes b) = b.
Proof. apply String.list_byte_of_string_of_list_byte. Qed.

Lemma of_bytes_as_bytes s : of_bytes (as_bytes s) = s.
Proof. apply String.string_of_list_byte_of_string. Qed.

Lemma as_bytes_inj s t : as_bytes s = as_bytes t -> s = t.
Proof. intros E. by rewrite <- (of_bytes_as_bytes s), <- (of_bytes_as_bytes t), E. Qed.

Lemma as_bytes_append s t : as_bytes (String.append s t) = as_bytes s ++ as_bytes t.
Proof. induction s as [|c s IH]; [reflexivity|]. exact (f_equal (cons (Ascii.byte_of_ascii c)) IH). Qed.

#[global] Arguments le_bytes : simpl never.
#[global] Arguments be_bytes : simpl never.
#[global] Arguments as_bytes : simpl never.

(** ** Lists *)

(** Concatenations with equally long heads are equal piecewise. *)
Lemma app_inj_len {A} (a b c d : list A) :
  length a = length c -> a ++ b = c ++ d -> a = c /\ b = d.
Proof. intros Hl E. by apply app_inj_1. Qed.

Lemma app_inj_len_r {A} (a b c d : list A) :
  length b = length d -> a ++ b = c ++ d -> a = c /\ b = d.
Proof. intros Hl E. by apply app_inj_2. Qed.

Lemma collect_results_length {A B E} (f : A -> Result B E) l bs :
  collect_results f l = Ok bs -> length bs = length l.
Proof.
  revert bs; induction l as [|a l IH]; simpl; intros bs H; [by simplify_eq|].
  rinv H. simplify_eq. simpl. f_equal. by apply IH.
Qed.

Lemma collect_results_map {A B C E} (f : A -> Result B E) (g : C -> A) (h : C -> B) l :
  (forall c, In c l -> f (g c) = Ok (h c)) ->
  collect_results f (map g l) = Ok (map h l).
Proof.
  induction l as [|c l IH]; simpl; intros H; [done|].
  rewrite H by auto. simpl. by rewrite IH by auto.
Qed.

Lemma collect_results_Forall {A B E} (P : B -> Prop) (f : A -> Result B E) l bs :
  (forall a b, f a = Ok b -> P b) -> collect_results f l = Ok bs -> Forall P bs.
Proof.
  intros HP. revert bs; induction l as [|a l IH]; simpl; intros bs H; [by simplify_eq|].
  rinv H. simplify_eq. constructor; eauto.
Qed.

#[export] Hint Resolve length_le_bytes length_be_bytes N_of_byte_bound : pollis.
#[export] Hint Rewrite length_le_bytes length_be_bytes : pollis.

(** Collecting over a snoc: the list first, then the new element. *)
Lemma collect_results_snoc {A B E} (f : A -> Result B E) l a bs :
  collect_results f (l ++ [a]) = Ok bs <->
  exists bs' b, collect_results f l = Ok bs' /\ f a = Ok b /\ bs = bs' ++ [b].
Proof.
  revert bs; induction l as [|x l IH]; simpl; intros bs.
  - split.
    + intros H. rinv H. simplify_eq. eauto.
    + intros (bs' & b & ? & -> & ->). by simplify_eq/=.
  - destruct (f x) as [y|]; simpl.
    2: { split; [done|]. by intros (? & ? & ? & _). }
    split.
    + intros H. destruct (collect_results f (l ++ [a])) as [bs0|] eqn:El; [|done]. simplify_eq/=.
      destruct (proj1 (IH bs0) eq_refl) as (bs' & b & -> & -> & ->). simpl. eauto.
    + intros (bs' & b & H & Ha & ->). rinv H. simplify_eq.
      by rewrite (proj2 (IH (a0 ++ [b]))) by eauto.
Qed.

Lemma collect_results_lookup {A B E} (f : A -> Result B E) l bs i b :
  collect_results f l = Ok bs -> bs !! i = Some b -> exists a, l !! i = Some a /\ f a = Ok b.
Proof.
  revert bs i; induction l as [|x l IH]; simpl; intros bs i H; [by simplify_eq|].
  rinv H. simplify_eq. destruct i as [|i]; simpl; intros; simplify_eq; eauto.
Qed.

Lemma collect_results_lookup_inv {A B E} (f : A -> Result B E) l bs i a :
  collect_results f l = Ok bs -> l !! i = Some a -> exists b, bs !! i = Some b /\ f a = Ok b.
Proof.
  intros H Ha. pose proof (collect_results_length _ _ _ H) as Hl.
  destruct (bs !! i) as [b|] eqn:Eb.
  - destruct (collect_results_lookup _ _ _ _ _ H Eb) as (a' & ? & ?). simplify_eq. eauto.
  - apply lookup_ge_None in Eb. apply lookup_lt_Some in Ha. lia.
Qed.

(** A relation between every earlier and every later element of a list. *)
Definition ordered {A} (R : A -> A -> Prop) (l : list A) : Prop :=
  forall i j x y, i < j -> l !! i = Some x -> l !! j = Some y -> R x y.

Lemma ordered_nil {A} (R : A -> A -> Prop) : ordered R [].
Proof. intros i j x y _. by rewrite lookup_nil. Qed.

Lemma ordered_cons {A} (R : A -> A -> Prop) x l :
  ordered R (x :: l) <-> Forall (R x) l /\ ordered R l.
Proof.
  split.
  - intros Ho. split.
    + apply Forall_lookup_2. intros i y Hy. apply (Ho 0 (S i)); [lia|done|done].
    + intros i j y z Hij Hy Hz. apply (Ho (S i) (S j)); [lia|done|done].
  - intros [Hf Ho] [|i] [|j] y z Hij Hy Hz; simpl in *; try lia; [|by apply (Ho i j); [lia|..]].
    simplify_eq. by eapply Forall_lookup_1.
Qed.

Lemma ordered_snoc {A} (R : A -> A -> Prop) l y :
  ordered R (l ++ [y]) <-> ordered R l /\ Forall (fun x => R x y) l.
Proof.
  split.
  - intros H. split.
    + intros i j x z Hij Hx Hz. apply (H i j); [done| |]; by apply lookup_app_l_Some.
    + apply Forall_lookup_2. intros i x Hx. eapply (H i (length l)).
      * by eapply lookup_lt_Some.
      * by apply lookup_app_l_Some.
      * by apply list_lookup_middle.
  - intros [Ho Hf] i j x z Hij Hx Hz.
    apply lookup_app_Some in Hz as [Hz|[Hl Hz]].
    + rewrite lookup_app_l in Hx by (apply lookup_lt_Some in Hz; lia). by eapply Ho.
    + apply list_lookup_singleton_Some in Hz as [Hz ->].
      rewrite lookup_app_l in Hx by lia. exact (Forall_lookup_1 _ _ _ _ Hf Hx).
Qed.

Lemma ordered_filter {A} (Q : A -> A -> Prop) (p : A -> bool) l : ordered Q l -> ordered Q (List.filter p l).
Proof.
  induction l as [|x l IH] using rev_ind; intros Ho; [done|].
  apply ordered_snoc in Ho as [Ho Hf]. rewrite List.filter_app. simpl.
  destruct (p x); [|rewrite app_nil_r; auto]. apply ordered_snoc. split; [auto|].
  apply List.Forall_forall. intros y [Hy _]%filter_In. by eapply List.Forall_forall in Hf.
Qed.

Lemma ordered_map {A B} (Q : B -> B -> Prop) (h : A -> B) l :
  ordered Q (map h l) <-> ordered (fun x y => Q (h x) (h y)) l.
Proof.
  split; intros Ho i j x y Hij Hx Hy.
  - eapply (Ho i j); [done|..]; apply list_lookup_fmap_Some_2; eauto.
  - apply list_lookup_fmap_Some in Hx as (x' & -> & Hx), Hy as (y' & -> & Hy). by eapply (Ho i j).
Qed.

Lemma exists_elem_cons {A} (P : A -> Prop) x l :
  (exists y, y ∈ x :: l /\ P y) <-> P x \/ exists y, y ∈ l /\ P y.
Proof.
  split.
  - intros (y & [->|Hy]%elem_of_cons & Hp); eauto.
  - intros [Hp|(y & Hy & Hp)]; eexists; (split; [|done]); [by left|by right].
Qed.

Lemma collect_results_total {A B E} (f : A -> Result B E) l :
  (forall a, a ∈ l -> exists b, f a = Ok b) -> exists bs, collect_results f l = Ok bs.
Proof.
  induction l as [|a l IH]; simpl; intros H; [eauto|].
  destruct (H a) as [b ->]; [by left|]. destruct IH as [bs ->]; [intros; apply H; by right|]. simpl. eauto.
Qed.

(** ** Stable sorting *)

(** [sort_by_key], a stable sort. *)
Fixpoint insert_by_key {A} (key : A -> Z) (x : A) (l : list A) : list A :=
  match l with
  | [] => [x]
  | y :: l' => if (key x <=? key y)%Z then x :: y :: l' else y :: insert_by_key key x l'
  end.

Definition sort_by_key {A} (key : A -> Z) (l : list A) : list A :=
  foldr (insert_by_key key) [] l.

Section Sort.
Context {A : Type} (key : A -> Z).

Definition key_le (x y : A) : Prop := (key x <= key y)%Z.

Lemma insert_by_key_perm x l : insert_by_key key x l ≡ₚ x :: l.
Proof.
  induction l as [|y l IH]; simpl; [done|]. destruct (_ <=? _)%Z; [done|]. rewrite IH. apply Permutation_swap.
Qed.

Lemma sort_by_key_perm l : sort_by_key key l ≡ₚ l.
Proof.
  unfold sort_by_key. induction l as [|x l IH]; simpl; [done|]. by rewrite insert_by_key_perm, IH.
Qed.

(** A list already in key order is left as it is: the sort is stable. *)
Lemma sort_by_key_id l : ordered key_le l -> sort_by_key key l = l.
Proof.
  unfold sort_by_key. induction l as [|x l IH]; simpl; intros Ho; [done|].
  rewrite IH. 2: { intros i j a b Hij Ha Hb. apply (Ho (S i) (S j)); [lia|done..]. }
  destruct l as [|y l]; [done|]. simpl.
  assert (key x <= key y)%Z by (apply (Ho 0 1 x y); [lia|done..]).
  by rewrite (proj2 (Z.leb_le _ _)).
Qed.
End Sort.
