(* ===== verification/Crypto.v ===== *)
(** * The cryptographic crates as interfaces

    The program calls three crates whose code is not part of the repository:
    [sha2] (SHA-256), [hex], and [ed25519-dalek]; and [serde_json] for the bodies of
    log leaves.  Each is a type class holding the operations the sources call, with a
    second, propositional class holding the documented laws the theorems rely on.
    Collision resistance is never assumed as injectivity (no function from byte
    strings to 32 bytes is injective): the soundness theorems of [Merkle] are stated
    relative to the finite list of preimages the code actually hashes.

    The last part instantiates the interfaces with executable functions: SHA-256 as
    published in FIPS 180-4, lowercase hex, and a transparent stand-in for Ed25519.
    Only the evaluation tests and the witnesses use these instances. *)

From stdpp Require Import base list strings countable.
From Stdlib Require Import NArith ZArith Lia.
From Stdlib Require Import Strings.Byte.
From S2P Require Import Prelude.

(** ** Interfaces *)

Class Sha256 := { sha256 : bytes -> bytes }.

Class Sha256Laws `{Sha256} : Prop := { sha256_length : forall m, length (sha256 m) = 32 }.

(** [hex::FromHexError]. *)
Inductive FromHexError : Type :=
| InvalidHexCharacter (index : nat)
| OddLength
| InvalidStringLength.

Class Hex := {
  hex_encode : bytes -> string;
  hex_decode : string -> Result bytes FromHexError
}.

Class HexLaws `{Hex} : Prop := {
  hex_decode_encode : forall b, hex_decode (hex_encode b) = Ok b
}.

(** [ed25519_dalek]: keys, 64-byte signatures, deterministic signing. *)
Class Ed25519 := {
  SigningKey : Type;
  VerifyingKey : Type;
  verifying_key : SigningKey -> VerifyingKey;
  vk_to_bytes : VerifyingKey -> bytes;
  vk_from_bytes : bytes -> option VerifyingKey;
  ed_sign : SigningKey -> bytes -> bytes;
  ed_verify : VerifyingKey -> bytes -> bytes -> bool
}.

Class Ed25519Laws `{Ed25519} : Prop := {
  ed_sign_length : forall sk m, length (ed_sign sk m) = 64;
  vk_to_bytes_length : forall vk, length (vk_to_bytes vk) = 32;
  vk_from_to_bytes : forall vk, vk_from_bytes (vk_to_bytes vk) = Some vk;
  ed_verify_sign : forall sk m, ed_verify (verifying_key sk) m (ed_sign sk m) = true
}.

(** [serde_json::to_vec] / [from_slice] at a type with derived (de)serialisers. *)
Class SerdeJson (A : Type) := {
  JsonError : Type;
  json_error_display : JsonError -> string;
  to_vec : A -> Result bytes JsonError;
  from_slice : bytes -> Result A JsonError
}.

Class SerdeJsonLaws (A : Type) `{SerdeJson A} : Prop := {
  from_slice_to_vec : forall (a : A) b, to_vec a = Ok b -> from_slice b = Ok a;
  to_vec_total : forall a : A, exists b, to_vec a = Ok b
}.

(** ** Collision freedom on what was hashed

    [collision_free qs]: among the byte strings [qs] handed to SHA-256, equal digests
    come from equal strings. *)
Definition collision_free `{Sha256} (qs : list bytes) : Prop :=
  forall x y, In x qs -> In y qs -> sha256 x = sha256 y -> x = y.

Definition collision_freeb `{Sha256} (qs : list bytes) : bool :=
  forallb (fun x => forallb (fun y =>
    implb (bool_decide (sha256 x = sha256 y)) (bool_decide (x = y))) qs) qs.

Section CollisionFree.
Context `{Sha256}.

Lemma collision_freeb_spec qs : collision_freeb qs = true -> collision_free qs.
Proof.
  unfold collision_freeb, collision_free. intros Hb x y Hx Hy E.
  rewrite forallb_forall in Hb. specialize (Hb x Hx).
  rewrite forallb_forall in Hb. specialize (Hb y Hy).
  rewrite bool_decide_eq_true_2 in Hb by done. simpl in Hb. by breflect.
Qed.

Lemma collision_free_incl qs qs' :
  (forall x, In x qs -> In x qs') -> collision_free qs' -> collision_free qs.
Proof. unfold collision_free. eauto. Qed.

End CollisionFree.

(** ** Executable SHA-256 (FIPS 180-4) *)

Module Fips180.
#[local] Open Scope N_scope.

Definition mask32 : N := 0xffffffff.

Definition add32 (x y : N) : N := N.land (x + y) mask32.

Definition rotr (n x : N) : N :=
  N.lor (N.shiftr x n) (N.land (N.shiftl x (32 - n)) mask32).

Definition ch (x y z : N) : N := N.lxor (N.land x y) (N.land (N.lxor x mask32) z).

Definition maj (x y z : N) : N :=
  N.lxor (N.lxor (N.land x y) (N.land x z)) (N.land y z).

Definition big_sigma0 x := N.lxor (N.lxor (rotr 2 x) (rotr 13 x)) (rotr 22 x).

Definition big_sigma1 x := N.lxor (N.lxor (rotr 6 x) (rotr 11 x)) (rotr 25 x).

Definition small_sigma0 x := N.lxor (N.lxor (rotr 7 x) (rotr 18 x)) (N.shiftr x 3).

Definition small_sigma1 x := N.lxor (N.lxor (rotr 17 x) (rotr 19 x)) (N.shiftr x 10).

(** The constants are computed from their definition in the standard: the first 32 bits of
    the fractional parts of the cube roots of the first 64 primes, and of the square roots
    of the first eight. *)
Definition is_prime (n : nat) : bool :=
  forallb (fun d => negb (n mod d =? 0)%nat) (seq 2 (n - 2)).

Definition primes : list N := map N.of_nat (List.filter is_prime (seq 2 310)).

(** The largest [r] below [2^bits] added to [r0] with [r^3 <= n], bit by bit. *)
Fixpoint cube_root (bits : nat) (r n : N) : N :=
  match bits with
  | O => r
  | S b =>
      let r' := r + N.shiftl 1 (N.of_nat b) in
      cube_root b (if r' * r' * r' <=? n then r' else r) n
  end.

Definition round_constants : list N :=
  Eval vm_compute in map (fun p => N.land (cube_root 36 0 (N.shiftl p 96)) mask32) primes.

Definition state : Type := (N * N * N * N * N * N * N * N).

Definition initial_word (i : nat) : N := N.land (N.sqrt (N.shiftl (nth i primes 0) 64)) mask32.

Definition initial : state :=
  Eval vm_compute in
  (initial_word 0, initial_word 1, initial_word 2, initial_word 3,
   initial_word 4, initial_word 5, initial_word 6, initial_word 7).

(** The message schedule, kept newest first: [w] starts as the reversed block. *)
Definition next_word (w : list N) : N :=
  let at_ i := nth i w 0 in
  add32 (add32 (small_sigma1 (at_ 1%nat)) (at_ 6%nat))
        (add32 (small_sigma0 (at_ 14%nat)) (at_ 15%nat)).

Fixpoint schedule (n : nat) (w : list N) : list N :=
  match n with O => w | S n' => schedule n' (next_word w :: w) end.

Definition round (s : state) (kw : N * N) : state :=
  let '(a, b, c, d, e, f, g, h) := s in
  let t1 := add32 (add32 h (big_sigma1 e)) (add32 (ch e f g) (add32 (fst kw) (snd kw))) in
  let t2 := add32 (big_sigma0 a) (maj a b c) in
  (add32 t1 t2, a, b, c, add32 d t1, e, f, g).

Definition add_state (s t : state) : state :=
  let '(a, b, c, d, e, f, g, h) := s in
  let '(a', b', c', d', e', f', g', h') := t in
  (add32 a a', add32 b b', add32 c c', add32 d d',
   add32 e e', add32 f f', add32 g g', add32 h h').

Fixpoint words (n : nat) (b : bytes) : list N :=
  match n with O => [] | S n' => be_value (take 4 b) :: words n' (drop 4 b) end.

Definition compress (s : state) (block : bytes) : state :=
  let w := rev (schedule 48 (rev (words 16 block))) in
  add_state s (fold_left round (combine round_constants w) s).

Fixpoint blocks (n : nat) (s : state) (b : bytes) : state :=
  match n with O => s | S n' => blocks n' (compress s (take 64 b)) (drop 64 b) end.

Definition pad_message (m : bytes) : bytes :=
  let l := length m in
  let zeros := ((119 - l mod 64) mod 64)%nat in
  m ++ [Byte.x80] ++ repeat Byte.x00 zeros ++ be_bytes 8 (8 * N.of_nat l).

Definition digest (m : bytes) : bytes :=
  let p := pad_message m in
  let '(a, b, c, d, e, f, g, h) := blocks (length p / 64) initial p in
  be_bytes 4 a ++ be_bytes 4 b ++ be_bytes 4 c ++ be_bytes 4 d ++
  be_bytes 4 e ++ be_bytes 4 f ++ be_bytes 4 g ++ be_bytes 4 h.

Lemma digest_length m : length (digest m) = 32%nat.
Proof.
  unfold digest. destruct (blocks _ _ _) as [[[[[[[a b] c] d] e] f] g] h].
  by rewrite !length_app, !length_be_bytes.
Qed.
End Fips180.

(** The standard's test vector. *)
Example sha256_abc :
  Fips180.digest (as_bytes "abc") =
  be_bytes 32 0xba7816bf8f01cfea414140de5dae2223b00361a396177a9cb410ff61f20015ad.
Proof. vm_compute. reflexivity. Qed.

#[export] Instance fips_sha256 : Sha256 := {| sha256 := Fips180.digest |}.

#[export] Instance fips_sha256_laws : Sha256Laws.
Proof. constructor. exact Fips180.digest_length. Qed.

(** ** Executable lowercase hex *)

Module LowerHex.

Definition hex_digit (n : N) : byte :=
  byte_of_N (if (n <? 10)%N then 48 + n else 87 + n).

Definition digit_value (b : byte) : option N :=
  let n := N_of_byte b in
  if ((48 <=? n) && (n <=? 57))%N then Some (n - 48)%N
  else if ((97 <=? n) && (n <=? 102))%N then Some (n - 87)%N
  else if ((65 <=? n) && (n <=? 70))%N then Some (n - 55)%N
  else None.

Fixpoint encode_bytes (b : bytes) : bytes :=
  match b with
  | [] => []
  | x :: b' => hex_digit (N.shiftr (N_of_byte x) 4) ::
               hex_digit (N.land (N_of_byte x) 15) :: encode_bytes b'
  end.

Fixpoint decode_bytes (i : nat) (b : bytes) : Result bytes FromHexError :=
  match b with
  | [] => Ok []
  | [_] => Err OddLength
  | h :: l :: b' =>
      match digit_value h, digit_value l with
      | Some x, Some y =>
          let? r := decode_bytes (S (S i)) b' in Ok (byte_of_N (16 * x + y) :: r)
      | None, _ => Err (InvalidHexCharacter i)
      | _, None => Err (InvalidHexCharacter (S i))
      end
  end.

Lemma byte_digits (x : byte) :
  digit_value (hex_digit (N.shiftr (N_of_byte x) 4)) = Some (N.shiftr (N_of_byte x) 4) /\
  digit_value (hex_digit (N.land (N_of_byte x) 15)) = Some (N.land (N_of_byte x) 15) /\
  byte_of_N (16 * N.shiftr (N_of_byte x) 4 + N.land (N_of_byte x) 15) = x.
Proof. destruct x; vm_compute; done. Qed.

Lemma decode_encode_bytes b i : decode_bytes i (encode_bytes b) = Ok b.
Proof.
  revert i; induction b as [|x b IH]; intros i; [done|]. cbn [encode_bytes decode_bytes].
  destruct (byte_digits x) as (-> & -> & E). rewrite IH. simpl. by rewrite E.
Qed.
End LowerHex.

#[export] Instance lower_hex : Hex := {|
  hex_encode b := of_bytes (LowerHex.encode_bytes b);
  hex_decode s := LowerHex.decode_bytes 0 (as_bytes s)
|}.

#[export] Instance lower_hex_laws : HexLaws.
Proof.
  constructor. intros b. simpl. rewrite as_bytes_of_bytes. apply LowerHex.decode_encode_bytes.
Qed.

(** ** A transparent stand-in for Ed25519

    A signature is the SHA-256 digest of key and message, twice; the verifying key is
    the seed.  It satisfies the laws (and nothing is concluded from its weakness). *)

Module ClearSig.

Record seed := Seed { seed_bytes : bytes; seed_ok : (length seed_bytes =? 32) = true }.

Lemma seed_length (s : seed) : length (seed_bytes s) = 32.
Proof. destruct s as [b Hb]. simpl. by apply Nat.eqb_eq. Qed.

Definition of_seed_bytes (b : bytes) : option seed :=
  match decide ((length b =? 32) = true) with left H => Some (Seed b H) | right _ => None end.

Definition signature (s : seed) (m : bytes) : bytes :=
  Fips180.digest (seed_bytes s ++ m) ++ Fips180.digest (m ++ seed_bytes s).

Definition repeat_seed (b : byte) : seed := Seed (repeat b 32) eq_refl.
End ClearSig.

#[export] Instance clear_ed25519 : Ed25519 := {|
  SigningKey := ClearSig.seed;
  VerifyingKey := ClearSig.seed;
  verifying_key s := s;
  vk_to_bytes := ClearSig.seed_bytes;
  vk_from_bytes := ClearSig.of_seed_bytes;
  ed_sign := ClearSig.signature;
  ed_verify vk m sig := bool_decide (sig = ClearSig.signature vk m)
|}.

#[export] Instance clear_ed25519_laws : Ed25519Laws.
Proof.
  constructor; simpl.
  - intros sk m. unfold ClearSig.signature. by rewrite length_app, !Fips180.digest_length.
  - apply ClearSig.seed_length.
  - intros [b Hb]. unfold ClearSig.of_seed_bytes. simpl.
    destruct (decide ((length b =? 32) = true)) as [H|H]; [|done].
    do 2 f_equal. apply proof_irrel.
  - intros sk m. by apply bool_decide_eq_true.
Qed.

(** ** An executable stand-in for [serde_json], for any countable type *)

Module ClearJson.

Fixpoint pos_bits (p : positive) : bytes :=
  match p with
  | xH => []
  | xO p' => Byte.x00 :: pos_bits p'
  | xI p' => Byte.x01 :: pos_bits p'
  end.

Fixpoint bits_pos (b : bytes) : option positive :=
  match b with
  | [] => Some xH
  | x :: b' =>
      p ← bits_pos b';
      if bool_decide (x = Byte.x00) then Some (xO p)
      else if bool_decide (x = Byte.x01) then Some (xI p) else None
  end.

Lemma bits_pos_bits p : bits_pos (pos_bits p) = Some p.
Proof. induction p as [p IH|p IH|]; simpl; rewrite ?IH; done. Qed.

Section Codec.
Context {A : Type} `{Countable A}.

Definition instance : SerdeJson A := {|
  JsonError := unit;
  json_error_display _ := "invalid leaf";
  to_vec a := Ok (pos_bits (countable.encode a));
  from_slice b := match bits_pos b ≫= countable.decode with Some a => Ok a | None => Err tt end
|}.

Lemma laws : @SerdeJsonLaws A instance.
Proof.
  constructor; simpl.
  - intros a b [= <-]. by rewrite bits_pos_bits; simpl; rewrite decode_encode.
  - eauto.
Qed.
End Codec.
End ClearJson.
