(* ===== verification/Merkle.v ===== *)
(** * verifiable-log: hashing and the RFC 6962 Merkle tree

    Models [verifiable-log/src/hash.rs] and [verifiable-log/src/merkle.rs].  The slice
    recursions are fuelled by the slice length and the bit-twiddling verifier walks are
    transcribed with [Nat.land]/[Nat.shiftr]; their inner [while] loops are fuelled by
    the counter they halve, which always suffices ([skip_zeros_spec]).

    The proofs relate the top-down generators and the bottom-up verifiers through one
    notion, the next tree level [pair_up]: hashing adjacent nodes and promoting an odd
    last node changes neither the root nor (up to the first sibling) the audit path. *)

From stdpp Require Import base list strings numbers.
From Stdlib Require Import NArith ZArith Lia ZifyNat ZifyN.
From Stdlib Require Import Strings.Byte.
From S2P Require Import Prelude Crypto.

(** ** hash.rs *)

(** [crate::error::Error]. *)
Inductive Error : Type :=
| IndexOutOfRange (index size : nat)
| InvalidTreeSizes (first second : nat)
| Invariant (tenant message : string)
| HexError (e : FromHexError)
| BadHashLength (n : nat)
| BadSignatureLength (n : nat)
| BadPublicKeyLength (n : nat)
| BadPublicKey.

Definition LEAF_PREFIX : byte := Byte.x00.

Definition NODE_PREFIX : byte := Byte.x01.

Section Hashing.
Context `{Sha256} `{Hex}.

Definition empty_root : bytes := sha256 [].

Definition leaf_hash (entry_bytes : bytes) : bytes := sha256 ([LEAF_PREFIX] ++ entry_bytes).

Definition node_hash (left right : bytes) : bytes := sha256 ([NODE_PREFIX] ++ left ++ right).

Definition to_hex (hash : bytes) : string := hex_encode hash.

Definition from_hex (s : string) : Result bytes Error :=
  let? b := map_err HexError (hex_decode s) in
  if negb (length b =? 32) then Err (BadHashLength (length b)) else Ok b.
End Hashing.

(** ** merkle.rs: splitting point *)

Fixpoint lpb_loop (fuel k n : nat) : nat :=
  match fuel with
  | O => k
  | S fuel' => if Nat.shiftl k 1 <? n then lpb_loop fuel' (Nat.shiftl k 1) n else k
  end.

Definition largest_power_of_two_below (n : nat) : nat := lpb_loop n 1 n.

(** [usize::is_power_of_two]. *)
Definition is_power_of_two (n : nat) : bool := (0 <? n) && (2 ^ Nat.log2 n =? n).

(** ** merkle.rs: generators *)

Section Generators.
Context `{Sha256}.

Fixpoint root_hash_fuel (fuel : nat) (leaves : list bytes) : bytes :=
  match fuel with
  | O => empty_root
  | S fuel' =>
      match leaves with
      | [] => empty_root
      | [h] => h
      | _ => let k := largest_power_of_two_below (length leaves) in
             node_hash (root_hash_fuel fuel' (take k leaves))
                       (root_hash_fuel fuel' (drop k leaves))
      end
  end.

Definition root_hash (leaves : list bytes) : bytes := root_hash_fuel (length leaves) leaves.

Fixpoint inclusion_path_fuel (fuel index : nat) (leaves : list bytes) : list bytes :=
  match fuel with
  | O => []
  | S fuel' =>
      let n := length leaves in
      if n <=? 1 then []
      else
        let k := largest_power_of_two_below n in
        if index <? k
        then inclusion_path_fuel fuel' index (take k leaves) ++ [root_hash (drop k leaves)]
        else inclusion_path_fuel fuel' (index - k) (drop k leaves) ++ [root_hash (take k leaves)]
  end.

Definition inclusion_path (index : nat) (leaves : list bytes) : list bytes :=
  inclusion_path_fuel (length leaves) index leaves.

Fixpoint subproof_fuel (fuel m : nat) (leaves : list bytes) (b : bool) : list bytes :=
  match fuel with
  | O => []
  | S fuel' =>
      let n := length leaves in
      if m =? n then (if b then [] else [root_hash leaves])
      else
        let k := largest_power_of_two_below n in
        if m <=? k
        then subproof_fuel fuel' m (take k leaves) b ++ [root_hash (drop k leaves)]
        else subproof_fuel fuel' (m - k) (drop k leaves) false ++ [root_hash (take k leaves)]
  end.

Definition subproof (m : nat) (leaves : list bytes) (b : bool) : list bytes :=
  subproof_fuel (length leaves) m leaves b.

Definition consistency_path (first : nat) (leaves : list bytes) : list bytes :=
  subproof first leaves true.
End Generators.

(** ** merkle.rs: verifiers *)

(** [while fln & 1 == 0 && fln != 0 { fln >>= 1; sn >>= 1; }] *)
Fixpoint skip_zeros (fuel fln sn : nat) : nat * nat :=
  match fuel with
  | O => (fln, sn)
  | S fuel' =>
      if (Nat.land fln 1 =? 0) && negb (fln =? 0)
      then skip_zeros fuel' (Nat.shiftr fln 1) (Nat.shiftr sn 1)
      else (fln, sn)
  end.

(** [while fln & 1 == 1 { fln >>= 1; sn >>= 1; }] *)
Fixpoint skip_ones (fuel fln sn : nat) : nat * nat :=
  match fuel with
  | O => (fln, sn)
  | S fuel' =>
      if Nat.land fln 1 =? 1
      then skip_ones fuel' (Nat.shiftr fln 1) (Nat.shiftr sn 1)
      else (fln, sn)
  end.

Section Verifiers.
Context `{Sha256}.

(** The [for p in path] loop; [None] is the early [return false]. *)
Fixpoint inclusion_loop (fln sn : nat) (r : bytes) (path : list bytes) : option (nat * bytes) :=
  match path with
  | [] => Some (sn, r)
  | p :: path' =>
      if sn =? 0 then None
      else if (Nat.land fln 1 =? 1) || (fln =? sn) then
        let '(fln', sn') := if Nat.land fln 1 =? 0 then skip_zeros fln fln sn else (fln, sn) in
        inclusion_loop (Nat.shiftr fln' 1) (Nat.shiftr sn' 1) (node_hash p r) path'
      else inclusion_loop (Nat.shiftr fln 1) (Nat.shiftr sn 1) (node_hash r p) path'
  end.

Definition verify_inclusion (leaf : bytes) (leaf_index tree_size : nat)
    (path : list bytes) (root : bytes) : bool :=
  if tree_size <=? leaf_index then false
  else match inclusion_loop leaf_index (tree_size - 1) leaf path with
       | None => false
       | Some (sn, r) => (sn =? 0) && bool_decide (r = root)
       end.

Fixpoint consistency_loop (fln sn : nat) (fr sr : bytes) (path : list bytes)
    : option (nat * bytes * bytes) :=
  match path with
  | [] => Some (sn, fr, sr)
  | c :: path' =>
      if sn =? 0 then None
      else if (Nat.land fln 1 =? 1) || (fln =? sn) then
        let '(fln', sn') := if Nat.land fln 1 =? 0 then skip_zeros fln fln sn else (fln, sn) in
        consistency_loop (Nat.shiftr fln' 1) (Nat.shiftr sn' 1)
                         (node_hash c fr) (node_hash c sr) path'
      else consistency_loop (Nat.shiftr fln 1) (Nat.shiftr sn 1) fr (node_hash sr c) path'
  end.

Definition verify_consistency (first second : nat) (path : list bytes)
    (first_hash second_hash : bytes) : bool :=
  if (first =? 0) || (second <? first) then false
  else if first =? second then bool_decide (path = []) && bool_decide (first_hash = second_hash)
  else
    let work := (if is_power_of_two first then [first_hash] else []) ++ path in
    match work with
    | [] => false
    | w :: work' =>
        let '(fln, sn) := skip_ones (first - 1) (first - 1) (second - 1) in
        match consistency_loop fln sn w w work' with
        | None => false
        | Some (sn', fr, sr) =>
            bool_decide (fr = first_hash) && bool_decide (sr = second_hash) && (sn' =? 0)
        end
    end.
End Verifiers.

(** ** What gets hashed

    The preimages handed to SHA-256 by the root computation and by the two verifier
    loops.  Soundness is stated relative to [collision_free] on these lists. *)

Definition node_query (left right : bytes) : bytes := [NODE_PREFIX] ++ left ++ right.

Section Queries.
Context `{Sha256}.

Fixpoint root_queries_fuel (fuel : nat) (leaves : list bytes) : list bytes :=
  match fuel with
  | O => []
  | S fuel' =>
      match leaves with
      | [] => []
      | [_] => []
      | _ => let k := largest_power_of_two_below (length leaves) in
             node_query (root_hash (take k leaves)) (root_hash (drop k leaves))
             :: root_queries_fuel fuel' (take k leaves)
             ++ root_queries_fuel fuel' (drop k leaves)
      end
  end.

Definition root_queries (leaves : list bytes) : list bytes :=
  root_queries_fuel (length leaves) leaves.

Fixpoint inclusion_queries (fln sn : nat) (r : bytes) (path : list bytes) : list bytes :=
  match path with
  | [] => []
  | p :: path' =>
      if sn =? 0 then []
      else if (Nat.land fln 1 =? 1) || (fln =? sn) then
        let '(fln', sn') := if Nat.land fln 1 =? 0 then skip_zeros fln fln sn else (fln, sn) in
        node_query p r :: inclusion_queries (Nat.shiftr fln' 1) (Nat.shiftr sn' 1) (node_hash p r) path'
      else node_query r p :: inclusion_queries (Nat.shiftr fln 1) (Nat.shiftr sn 1) (node_hash r p) path'
  end.

Fixpoint consistency_queries (fln sn : nat) (fr sr : bytes) (path : list bytes) : list bytes :=
  match path with
  | [] => []
  | c :: path' =>
      if sn =? 0 then []
      else if (Nat.land fln 1 =? 1) || (fln =? sn) then
        let '(fln', sn') := if Nat.land fln 1 =? 0 then skip_zeros fln fln sn else (fln, sn) in
        node_query c fr :: node_query c sr ::
        consistency_queries (Nat.shiftr fln' 1) (Nat.shiftr sn' 1)
                            (node_hash c fr) (node_hash c sr) path'
      else node_query sr c ::
           consistency_queries (Nat.shiftr fln 1) (Nat.shiftr sn 1) fr (node_hash sr c) path'
  end.

(** All preimages of one [verify_consistency] run on a proof of the proper shape. *)
Definition verify_consistency_queries (first second : nat) (path : list bytes)
    (first_hash : bytes) : list bytes :=
  match (if is_power_of_two first then [first_hash] else []) ++ path with
  | [] => []
  | w :: work' =>
      let '(fln, sn) := skip_ones (first - 1) (first - 1) (second - 1) in
      consistency_queries fln sn w w work'
  end.
End Queries.

(** ** Arithmetic of the split point and of the bit walks *)

(** [lia] after unfolding [/ 2] and [mod 2] on [nat]. *)
Ltac div_lia := zify; Z.to_euclidean_division_equations; lia.

Lemma shiftr1 n : Nat.shiftr n 1 = n / 2.
Proof. by rewrite Nat.shiftr_div_pow2. Qed.

Lemma shiftl1 n : Nat.shiftl n 1 = 2 * n.
Proof. rewrite Nat.shiftl_mul_pow2. simpl. lia. Qed.

Lemma land1 n : Nat.land n 1 = n mod 2.
Proof. change 1 with (Nat.ones 1). by rewrite Nat.land_ones. Qed.

Lemma lpb_loop_spec fuel k n t :
  k = 2 ^ t -> k < n -> n <= fuel + k ->
  exists t', lpb_loop fuel k n = 2 ^ t' /\ 2 ^ t' < n <= 2 * 2 ^ t'.
Proof.
  revert k t; induction fuel as [|fuel IH]; intros k t -> Hk Hf; [lia|].
  cbn [lpb_loop]. rewrite shiftl1. destruct (Nat.ltb_spec (2 * 2 ^ t) n).
  - apply (IH _ (S t)); [by rewrite Nat.pow_succ_r'|lia|].
    pose proof (Nat.pow_nonzero 2 t). lia.
  - exists t. lia.
Qed.

Lemma lpb_spec n : 2 <= n ->
  exists t, largest_power_of_two_below n = 2 ^ t /\ 2 ^ t < n <= 2 * 2 ^ t.
Proof. intros Hn. apply (lpb_loop_spec n 1 n 0); [done|lia|lia]. Qed.

Lemma lpb_unique n t : 2 ^ t < n <= 2 * 2 ^ t -> largest_power_of_two_below n = 2 ^ t.
Proof.
  intros Hn. assert (2 <= n) by (pose proof (Nat.pow_nonzero 2 t); lia).
  destruct (lpb_spec n) as (u & -> & Hu); [done|]. f_equal.
  destruct (Nat.lt_trichotomy u t) as [Hl|[Hl|Hl]]; [|done|].
  - pose proof (Nat.pow_le_mono_r 2 (S u) t). rewrite Nat.pow_succ_r' in *. lia.
  - pose proof (Nat.pow_le_mono_r 2 (S t) u). rewrite Nat.pow_succ_r' in *. lia.
Qed.

Lemma lpb_bounds n : 2 <= n ->
  0 < largest_power_of_two_below n < n /\ n <= 2 * largest_power_of_two_below n.
Proof.
  intros Hn. destruct (lpb_spec n Hn) as (t & -> & Ht).
  pose proof (Nat.pow_nonzero 2 t). lia.
Qed.

Lemma is_power_of_two_spec n : is_power_of_two n = true <-> exists t, n = 2 ^ t.
Proof.
  unfold is_power_of_two. split.
  - intros Hb. breflect. exists (Nat.log2 n). done.
  - intros [t ->]. rewrite Nat.log2_pow2 by lia.
    pose proof (Nat.pow_nonzero 2 t). rewrite Nat.eqb_refl.
    destruct (Nat.ltb_spec 0 (2 ^ t)); [done|lia].
Qed.

(** The inner loop that strips trailing zeros: any relation kept by halving two equal
    positive even counters holds when the loop stops, at an odd counter. *)
Lemma skip_zeros_spec (P : nat -> Prop) fuel i :
  0 < i <= fuel -> P i ->
  (forall j, 0 < j -> j mod 2 = 0 -> P j -> P (j / 2)) ->
  exists i', skip_zeros fuel i i = (i', i') /\ i' mod 2 = 1 /\ P i'.
Proof.
  intros Hi HP Hstep. revert i Hi HP. induction fuel as [|fuel IH]; intros i Hi HP; [lia|].
  cbn [skip_zeros]. rewrite land1, !shiftr1.
  destruct (Nat.eqb_spec (i mod 2) 0) as [He|Ho]; cbn [andb].
  - destruct (Nat.eqb_spec i 0); [lia|]. apply IH; [div_lia|]. apply Hstep; [lia|done|done].
  - exists i. split; [done|]. split; [div_lia|done].
Qed.

Lemma skip_ones_even fuel i s : i mod 2 <> 1 -> skip_ones fuel i s = (i, s).
Proof.
  intros Ho. destruct fuel; [done|]. cbn [skip_ones]. rewrite land1.
  by destruct (Nat.eqb_spec (i mod 2) 1).
Qed.

(** ** Splits: the recursive structure of the tree

    [is_split A B]: [A ++ B] has at least two leaves and is cut at the RFC 6962 split
    point.  Every generator satisfies a recursion equation along such splits. *)

Definition is_split (A B : list bytes) : Prop :=
  2 <= length A + length B /\
  length A = largest_power_of_two_below (length A + length B).

Lemma is_split_pos A B : is_split A B -> 0 < length A /\ 0 < length B /\ length B <= length A.
Proof. intros [H2 HA]. pose proof (lpb_bounds _ H2). lia. Qed.

Lemma is_split_pow A B : is_split A B -> exists t, length A = 2 ^ t.
Proof. intros [H2 HA]. destruct (lpb_spec _ H2) as (t & E & _). exists t. lia. Qed.

(** A left part of one leaf has a right part of one leaf. *)
Lemma is_split_small A B : is_split A B -> length A = 1 -> length B = 1.
Proof. intros Hs HA. apply is_split_pos in Hs. lia. Qed.

(** Otherwise the left part has even length. *)
Lemma is_split_even A B : is_split A B -> length A <> 1 -> length A mod 2 = 0.
Proof.
  intros Hs HA. destruct (is_split_pow _ _ Hs) as ([|t] & E); [simpl in E; lia|].
  rewrite E, Nat.pow_succ_r', Nat.mul_comm. apply Nat.Div0.mod_mul.
Qed.

Lemma split_at_lpb (L : list bytes) : 2 <= length L ->
  exists A B, L = A ++ B /\ is_split A B /\
    A = take (largest_power_of_two_below (length L)) L /\
    B = drop (largest_power_of_two_below (length L)) L.
Proof.
  intros HL. set (k := largest_power_of_two_below (length L)).
  pose proof (lpb_bounds _ HL) as Hk. fold k in Hk.
  exists (take k L), (drop k L). split; [by rewrite take_drop|]. split; [|done].
  unfold is_split. rewrite length_take, length_drop.
  replace (k `min` length L + (length L - k)) with (length L) by lia. fold k. lia.
Qed.

(** Induction over the tree structure. *)
Lemma tree_ind (P : list bytes -> Prop) :
  P [] -> (forall x, P [x]) ->
  (forall A B, is_split A B -> P A -> P B -> P (A ++ B)) -> forall L, P L.
Proof.
  intros H0 H1 H2 L. remember (length L) as n eqn:En. revert L En.
  induction n as [n IH] using lt_wf_ind. intros L En.
  destruct L as [|x [|y L']]; [done|apply H1|].
  destruct (split_at_lpb (x :: y :: L')) as (A & B & E & Hs & _); [simpl; lia|].
  pose proof (is_split_pos _ _ Hs). rewrite E in En |- *. rewrite length_app in En.
  apply H2; [done| |]; eapply IH; eauto; lia.
Qed.

Section SplitEquations.
Context `{Sha256}.

Lemma root_hash_fuel_irrel f g L :
  length L <= f -> length L <= g -> root_hash_fuel f L = root_hash_fuel g L.
Proof.
  revert g L; induction f as [|f IH]; intros g L Hf Hg.
  { destruct L; [|simpl in Hf; lia]. by destruct g. }
  destruct g as [|g]; [by destruct L; [|simpl in Hg; lia]|].
  cbn [root_hash_fuel]. destruct L as [|x [|y L']]; [done|done|].
  set (L := x :: y :: L') in *.
  pose proof (lpb_bounds (length L)) as Hk. simpl in Hk.
  assert (0 < largest_power_of_two_below (length L) < length L) by (simpl; lia).
  f_equal; apply IH; rewrite ?length_take, ?length_drop; lia.
Qed.

Lemma root_hash_nil : root_hash [] = empty_root.
Proof. done. Qed.

Lemma root_hash_single h : root_hash [h] = h.
Proof. done. Qed.

Lemma split_cons A B : is_split A B -> exists x y L', A ++ B = x :: y :: L'.
Proof.
  intros [Hs _]. rewrite <- length_app in Hs.
  destruct (A ++ B) as [|x [|y L']]; simpl in Hs; [lia|lia|eauto].
Qed.

Lemma take_split A B : is_split A B ->
  take (largest_power_of_two_below (length (A ++ B))) (A ++ B) = A.
Proof. intros [_ Hs]. rewrite length_app, <- Hs. by apply take_app_length. Qed.

Lemma drop_split A B : is_split A B ->
  drop (largest_power_of_two_below (length (A ++ B))) (A ++ B) = B.
Proof. intros [_ Hs]. rewrite length_app, <- Hs. by apply drop_app_length. Qed.

Lemma root_hash_fuel_step f x y L' :
  let L := x :: y :: L' in let k := largest_power_of_two_below (length L) in
  root_hash_fuel (S f) L =
  node_hash (root_hash_fuel f (take k L)) (root_hash_fuel f (drop k L)).
Proof. done. Qed.

Lemma root_hash_split A B : is_split A B ->
  root_hash (A ++ B) = node_hash (root_hash A) (root_hash B).
Proof.
  intros Hs. pose proof (is_split_pos _ _ Hs) as Hp.
  pose proof (take_split A B Hs) as ET. pose proof (drop_split A B Hs) as ED.
  destruct (split_cons A B Hs) as (x & y & L' & E).
  unfold root_hash at 1. rewrite E in *. cbn [length]. rewrite root_hash_fuel_step.
  rewrite ET, ED. apply (f_equal length) in E. rewrite length_app in E. simpl in E.
  f_equal; apply root_hash_fuel_irrel; lia.
Qed.

Lemma inclusion_path_fuel_irrel f g i L :
  length L <= f -> length L <= g -> inclusion_path_fuel f i L = inclusion_path_fuel g i L.
Proof.
  revert g i L; induction f as [|f IH]; intros g i L Hf Hg.
  { destruct L; [|simpl in Hf; lia]. by destruct g. }
  destruct g as [|g]; [by destruct L; [|simpl in Hg; lia]|].
  cbn [inclusion_path_fuel]. destruct (Nat.leb_spec (length L) 1); [done|].
  pose proof (lpb_bounds (length L)) as Hk.
  case_match; f_equal; apply IH; rewrite ?length_take, ?length_drop; lia.
Qed.

Lemma inclusion_path_small i L : length L <= 1 -> inclusion_path i L = [].
Proof. by destruct L as [|x [|y L']]; simpl; intros; try lia. Qed.

Lemma inclusion_path_split i A B : is_split A B ->
  inclusion_path i (A ++ B) =
  if i <? length A then inclusion_path i A ++ [root_hash B]
  else inclusion_path (i - length A) B ++ [root_hash A].
Proof.
  intros Hs. pose proof (is_split_pos _ _ Hs) as Hp.
  unfold inclusion_path at 1. destruct (length (A ++ B)) as [|f] eqn:Ef.
  { rewrite length_app in Ef. lia. }
  cbn [inclusion_path_fuel]. destruct (Nat.leb_spec (length (A ++ B)) 1) as [Hl|Hl].
  { rewrite length_app in Hl. lia. }
  rewrite take_split, drop_split by done. destruct Hs as [_ Hs].
  rewrite length_app in *. rewrite <- Hs.
  destruct (Nat.ltb_spec i (length A)); f_equal; apply inclusion_path_fuel_irrel; lia.
Qed.

Lemma subproof_fuel_irrel f g m L b :
  0 < m <= length L -> length L <= f -> length L <= g ->
  subproof_fuel f m L b = subproof_fuel g m L b.
Proof.
  revert g m L b; induction f as [|f IH]; intros g m L b Hm Hf Hg; [lia|].
  destruct g as [|g]; [lia|].
  cbn [subproof_fuel]. destruct (Nat.eqb_spec m (length L)); [done|].
  pose proof (lpb_bounds (length L)) as Hk.
  destruct (Nat.leb_spec m (largest_power_of_two_below (length L))); f_equal;
    apply IH; rewrite ?length_take, ?length_drop; lia.
Qed.

Lemma subproof_whole m L b : 0 < m -> m = length L ->
  subproof m L b = if b then [] else [root_hash L].
Proof.
  intros Hm ->. unfold subproof. destruct (length L) as [|f] eqn:E; [lia|].
  cbn [subproof_fuel]. rewrite E. by rewrite Nat.eqb_refl.
Qed.

Lemma subproof_split m A B b : is_split A B -> 0 < m < length A + length B ->
  subproof m (A ++ B) b =
  if m <=? length A then subproof m A b ++ [root_hash B]
  else subproof (m - length A) B false ++ [root_hash A].
Proof.
  intros Hs Hm. pose proof (is_split_pos _ _ Hs) as Hp.
  unfold subproof at 1. destruct (length (A ++ B)) as [|f] eqn:Ef.
  { rewrite length_app in Ef. lia. }
  cbn [subproof_fuel]. destruct (Nat.eqb_spec m (length (A ++ B))) as [Hl|Hl].
  { rewrite length_app in Hl. lia. }
  rewrite take_split, drop_split by done. destruct Hs as [_ Hs].
  rewrite length_app in *. rewrite <- Hs.
  destruct (Nat.leb_spec m (length A)); f_equal; apply subproof_fuel_irrel; lia.
Qed.

Lemma root_queries_fuel_irrel f g L :
  length L <= f -> length L <= g -> root_queries_fuel f L = root_queries_fuel g L.
Proof.
  revert g L; induction f as [|f IH]; intros g L Hf Hg.
  { destruct L; [|simpl in Hf; lia]. by destruct g. }
  destruct g as [|g]; [by destruct L; [|simpl in Hg; lia]|].
  cbn [root_queries_fuel]. destruct L as [|x [|y L']]; [done|done|].
  set (L := x :: y :: L') in *.
  pose proof (lpb_bounds (length L)) as Hk. simpl in Hk.
  assert (0 < largest_power_of_two_below (length L) < length L) by (simpl; lia).
  do 2 f_equal; apply IH; rewrite ?length_take, ?length_drop; lia.
Qed.

Lemma root_queries_fuel_step f x y L' :
  let L := x :: y :: L' in let k := largest_power_of_two_below (length L) in
  root_queries_fuel (S f) L =
  node_query (root_hash (take k L)) (root_hash (drop k L)) ::
  root_queries_fuel f (take k L) ++ root_queries_fuel f (drop k L).
Proof. done. Qed.

Lemma root_queries_split A B : is_split A B ->
  root_queries (A ++ B) =
  node_query (root_hash A) (root_hash B) :: root_queries A ++ root_queries B.
Proof.
  intros Hs. pose proof (is_split_pos _ _ Hs) as Hp.
  pose proof (take_split A B Hs) as ET. pose proof (drop_split A B Hs) as ED.
  destruct (split_cons A B Hs) as (x & y & L' & E).
  unfold root_queries at 1. rewrite E in *. cbn [length]. rewrite root_queries_fuel_step.
  rewrite ET, ED. apply (f_equal length) in E. rewrite length_app in E. simpl in E.
  do 2 f_equal; apply root_queries_fuel_irrel; lia.
Qed.
End SplitEquations.

(** ** The next tree level *)

Section Levels.
Context `{Sha256}.

Fixpoint pair_up (l : list bytes) : list bytes :=
  match l with
  | a :: b :: l' => node_hash a b :: pair_up l'
  | _ => l
  end.

Fixpoint pair_queries (l : list bytes) : list bytes :=
  match l with
  | a :: b :: l' => node_query a b :: pair_queries l'
  | _ => []
  end.

(** The sibling of node [i] on its level: one node, or none for a promoted last node. *)
Definition sibling (i : nat) (l : list bytes) : list bytes :=
  if i mod 2 =? 1 then take 1 (drop (i - 1) l) else take 1 (drop (i + 1) l).

Lemma pair_ind (P : list bytes -> Prop) :
  P [] -> (forall x, P [x]) -> (forall a b l, P l -> P (a :: b :: l)) -> forall l, P l.
Proof.
  intros H0 H1 H2. fix IH 1. intros [|x [|y l]]; [apply H0|apply H1|]. apply H2, IH.
Qed.

Lemma length_pair_up l : length (pair_up l) = (length l + 1) / 2.
Proof. induction l as [|x|a b l IH] using pair_ind; [done|done|]. cbn [pair_up length]. rewrite IH. div_lia. Qed.

Lemma pair_up_app A B : length A mod 2 = 0 -> pair_up (A ++ B) = pair_up A ++ pair_up B.
Proof.
  induction A as [|x|a b A IH] using pair_ind; intros HA; [done|done|].
  cbn [pair_up pair_queries app]. f_equal. apply IH. cbn [length] in HA. div_lia.
Qed.

Lemma pair_queries_app A B :
  length A mod 2 = 0 -> pair_queries (A ++ B) = pair_queries A ++ pair_queries B.
Proof.
  induction A as [|x|a b A IH] using pair_ind; intros HA; [done|done|].
  cbn [pair_up pair_queries app]. f_equal. apply IH. cbn [length] in HA. div_lia.
Qed.

(** Node [j] of the next level: the hash of its two children, or the promoted node. *)
Lemma pair_up_lookup l j :
  pair_up l !! j =
  match l !! (2 * j), l !! (2 * j + 1) with
  | Some a, Some b => Some (node_hash a b)
  | o, _ => o
  end.
Proof.
  revert j; induction l as [|x|a b l IH] using pair_ind; intros j; [done| |].
  - destruct j; [done|]. by replace (2 * S j) with (S (S (2 * j))) by lia.
  - destruct j as [|j]; [done|]. cbn [pair_up lookup list_lookup].
    replace (2 * S j) with (S (S (2 * j))) by lia. cbn [Nat.add]. apply IH.
Qed.

Lemma pair_queries_in l j a b :
  l !! (2 * j) = Some a -> l !! (2 * j + 1) = Some b -> In (node_query a b) (pair_queries l).
Proof.
  revert j; induction l as [|x|c d l IH] using pair_ind; intros j Ha Hb; [done| |].
  - destruct j; [done|]. by replace (2 * S j) with (S (S (2 * j))) in Ha by lia.
  - destruct j as [|j]; [by simpl in *; simplify_eq; left|].
    replace (2 * S j) with (S (S (2 * j))) in * by lia. right. by apply (IH j).
Qed.

Lemma is_split_pair_up A B : is_split A B -> length A <> 1 -> is_split (pair_up A) (pair_up B).
Proof.
  intros Hs HA. pose proof (is_split_even _ _ Hs HA) as He.
  destruct (is_split_pow _ _ Hs) as (t & Ht). destruct t as [|t]; [simpl in Ht; lia|].
  rewrite Nat.pow_succ_r' in Ht. destruct Hs as [H2 HA'].
  pose proof (lpb_bounds _ H2) as Hb. unfold is_split. rewrite !length_pair_up.
  split; [div_lia|]. rewrite (lpb_unique _ t); div_lia.
Qed.

Lemma root_hash_pair_up L : root_hash L = root_hash (pair_up L).
Proof.
  induction L as [|x|A B Hs IHA IHB] using tree_ind; [done|done|].
  destruct (Nat.eq_dec (length A) 1) as [HA|HA].
  - pose proof (is_split_small _ _ Hs HA) as HB.
    destruct A as [|a [|]], B as [|b [|]]; simplify_eq/=. done.
  - rewrite root_hash_split, pair_up_app, root_hash_split, IHA, IHB
      by eauto using is_split_pair_up, is_split_even. done.
Qed.

Lemma root_queries_pair_up L q :
  In q (pair_queries L) \/ In q (root_queries (pair_up L)) -> In q (root_queries L).
Proof.
  induction L as [|x|A B Hs IHA IHB] using tree_ind; [simpl; tauto|simpl; tauto|].
  rewrite root_queries_split by done. destruct (Nat.eq_dec (length A) 1) as [HA|HA].
  - pose proof (is_split_small _ _ Hs HA) as HB.
    destruct A as [|a [|]], B as [|b [|]]; simplify_eq/=. cbn. tauto.
  - rewrite pair_up_app, pair_queries_app, root_queries_split
      by eauto using is_split_pair_up, is_split_even.
    rewrite <- !root_hash_pair_up. cbn [In]. rewrite !in_app_iff. tauto.
Qed.

Lemma sibling_app_l i A B : i < length A -> length A mod 2 = 0 -> sibling i (A ++ B) = sibling i A.
Proof.
  intros Hi He. unfold sibling. destruct (Nat.eqb_spec (i mod 2) 1).
  - rewrite drop_app_le, take_app_le; [done|rewrite length_drop; lia|lia].
  - rewrite drop_app_le, take_app_le; [done|rewrite length_drop; div_lia|div_lia].
Qed.

Lemma sibling_app_r i A B : length A <= i -> length A mod 2 = 0 ->
  sibling i (A ++ B) = sibling (i - length A) B.
Proof.
  intros Hi He. unfold sibling.
  replace ((i - length A) mod 2) with (i mod 2) by div_lia.
  destruct (Nat.eqb_spec (i mod 2) 1); rewrite drop_app_ge by div_lia; do 2 f_equal; lia.
Qed.

(** The audit path is the sibling followed by the audit path one level up. *)
Lemma inclusion_path_level i L : i < length L ->
  inclusion_path i L = sibling i L ++ inclusion_path (i / 2) (pair_up L).
Proof.
  revert i. induction L as [|x|A B Hs IHA IHB] using tree_ind; intros i Hi; [simpl in Hi; lia| |].
  { assert (i = 0) as -> by (simpl in Hi; lia). done. }
  rewrite length_app in Hi. rewrite inclusion_path_split by done.
  destruct (Nat.eq_dec (length A) 1) as [HA|HA].
  - pose proof (is_split_small _ _ Hs HA) as HB.
    destruct A as [|a [|]], B as [|b [|]]; simplify_eq/=.
    by destruct i as [|[|i]]; [| |lia].
  - pose proof (is_split_even _ _ Hs HA) as He.
    rewrite pair_up_app, inclusion_path_split by eauto using is_split_pair_up.
    rewrite !length_pair_up, <- !root_hash_pair_up.
    destruct (Nat.ltb_spec i (length A)), (Nat.ltb_spec (i / 2) ((length A + 1) / 2)); try div_lia.
    + rewrite IHA, sibling_app_l, app_assoc by done. done.
    + rewrite IHB, sibling_app_r by (done || lia). rewrite app_assoc. do 3 f_equal. div_lia.
Qed.

(** [SUBPROOF] for an even old size is [SUBPROOF] one level up. *)
Lemma subproof_even m L b : 0 < m <= length L -> m mod 2 = 0 ->
  subproof m L b = subproof (m / 2) (pair_up L) b.
Proof.
  revert m b. induction L as [|x|A B Hs IHA IHB] using tree_ind; intros m b Hm He;
    [simpl in Hm; lia|simpl in Hm; div_lia|].
  rewrite length_app in Hm.
  destruct (Nat.eq_dec m (length A + length B)) as [Hn|Hn].
  { rewrite !subproof_whole, <- root_hash_pair_up; rewrite ?length_pair_up, ?length_app; div_lia || done. }
  pose proof (is_split_pos _ _ Hs) as Hp.
  assert (length A <> 1) as HA by (intros HA; pose proof (is_split_small _ _ Hs HA); div_lia).
  pose proof (is_split_even _ _ Hs HA) as HE.
  rewrite pair_up_app, !subproof_split; rewrite ?length_pair_up;
    eauto using is_split_pair_up; try div_lia.
  rewrite <- !root_hash_pair_up.
  destruct (Nat.leb_spec m (length A)), (Nat.leb_spec (m / 2) ((length A + 1) / 2)); try div_lia.
  - by rewrite IHA by lia.
  - rewrite IHB by div_lia. do 2 f_equal. div_lia.
Qed.

(** [SUBPROOF] for an odd old size is the last old leaf and its audit path. *)
Lemma subproof_odd m L : m <= length L -> m mod 2 = 1 -> m < length L \/ m = 1 ->
  subproof m L false = take 1 (drop (m - 1) L) ++ inclusion_path (m - 1) L.
Proof.
  revert m. induction L as [|x|A B Hs IHA IHB] using tree_ind; intros m Hm Ho Hc;
    [simpl in Hm; div_lia| |].
  { assert (m = 1) as -> by (simpl in Hm; div_lia). done. }
  rewrite length_app in Hm, Hc. pose proof (is_split_pos _ _ Hs) as Hp.
  rewrite subproof_split, inclusion_path_split by (done || div_lia).
  destruct (Nat.leb_spec m (length A)), (Nat.ltb_spec (m - 1) (length A)); try div_lia.
  - destruct (is_split_pow _ _ Hs) as (t & Ht).
    rewrite IHA; [|lia|done|].
    { rewrite drop_app_le, take_app_le, app_assoc; [done|rewrite length_drop; div_lia|lia]. }
    destruct t as [|t]; [simpl in Ht; lia|]. rewrite Nat.pow_succ_r' in Ht. left. div_lia.
  - assert (length A <> 1) as HA by (intros HA; pose proof (is_split_small _ _ Hs HA); div_lia).
    pose proof (is_split_even _ _ Hs HA) as HE.
    rewrite IHB by div_lia. rewrite drop_app_ge, app_assoc by lia.
    replace (m - 1 - length A) with (m - length A - 1) by lia. done.
Qed.

(** The verifier's [work] list: prepending the old root when the old size is a power of
    two gives exactly [SUBPROOF] without the omission. *)
Lemma subproof_work m L : 0 < m <= length L -> m < length L \/ (exists t, m = 2 ^ t) ->
  (if is_power_of_two m then [root_hash (take m L)] else []) ++ subproof m L true =
  subproof m L false.
Proof.
  revert m. induction L as [|x|A B Hs IHA IHB] using tree_ind; intros m Hm Hc;
    [simpl in Hm; lia| |].
  { assert (m = 1) as -> by (simpl in Hm; lia). done. }
  rewrite length_app in Hm, Hc. pose proof (is_split_pos _ _ Hs) as Hp.
  destruct (is_split_pow _ _ Hs) as (t & Ht).
  destruct (Nat.eq_dec m (length A + length B)) as [Hn|Hn].
  { assert (is_power_of_two m = true) as -> by (apply is_power_of_two_spec; destruct Hc; [lia|done]).
    rewrite !subproof_whole by (rewrite ?length_app; lia).
    by rewrite take_ge by (rewrite length_app; lia). }
  rewrite !subproof_split by (done || lia).
  destruct (Nat.leb_spec m (length A)).
  - rewrite app_assoc, take_app_le, IHA by (lia || (destruct (Nat.eq_dec m (length A)); [right; exists t; lia|lia])).
    done.
  - destruct (is_power_of_two m) eqn:E; [|done].
    apply is_power_of_two_spec in E as [u ->]. exfalso.
    destruct Hs as [H2 Hk]. pose proof (lpb_bounds _ H2). rewrite Ht in *.
    destruct (Nat.le_gt_cases u t) as [Hu|Hu].
    + pose proof (Nat.pow_le_mono_r 2 u t). lia.
    + pose proof (Nat.pow_le_mono_r 2 (S t) u). rewrite Nat.pow_succ_r' in *. lia.
Qed.
End Levels.

(** ** Completeness: generated proofs verify *)

Section Completeness.
Context `{Sha256}.

Lemma lookup_take1_drop (l : list bytes) i x : l !! i = Some x -> take 1 (drop i l) = [x].
Proof. intros E. rewrite (drop_S _ x) by done. done. Qed.

Lemma take1_drop_lookup (l : list bytes) i x : take 1 (drop i l) = [x] -> l !! i = Some x.
Proof.
  intros E. rewrite <- (Nat.add_0_r i), <- lookup_drop. destruct (drop i l); simpl in E; by simplify_eq.
Qed.

Lemma pair_up_promote i (l : list bytes) : length l = S i -> i mod 2 = 0 -> pair_up l !! (i / 2) = l !! i.
Proof.
  intros Hl He. rewrite pair_up_lookup. replace (2 * (i / 2)) with i by div_lia.
  destruct (l !! i) eqn:E; [|done]. by rewrite (lookup_ge_None_2 l (i + 1)) by lia.
Qed.

Lemma pair_up_odd i (l : list bytes) a b :
  i mod 2 = 1 -> l !! (i - 1) = Some a -> l !! i = Some b -> pair_up l !! (i / 2) = Some (node_hash a b).
Proof.
  intros Ho Ha Hb. rewrite pair_up_lookup.
  replace (2 * (i / 2)) with (i - 1) by div_lia. replace (i - 1 + 1) with i by div_lia.
  by rewrite Ha, Hb.
Qed.

Lemma pair_up_even i (l : list bytes) a b :
  i mod 2 = 0 -> l !! i = Some a -> l !! (i + 1) = Some b -> pair_up l !! (i / 2) = Some (node_hash a b).
Proof.
  intros He Ha Hb. rewrite pair_up_lookup. replace (2 * (i / 2)) with i by div_lia. by rewrite Ha, Hb.
Qed.

Lemma take_pair_up m (l : list bytes) : 2 * m <= length l -> take m (pair_up l) = pair_up (take (2 * m) l).
Proof.
  revert m; induction l as [|x|a b l IH] using pair_ind; intros m Hm.
  - by destruct m.
  - assert (m = 0) as -> by (simpl in Hm; lia). done.
  - destruct m as [|m]; [done|]. replace (2 * S m) with (S (S (2 * m))) by lia.
    cbn [pair_up take length] in *. f_equal. apply IH. lia.
Qed.

(** One level up, a common prefix stays a common prefix. *)
Lemma take_half i (A B : list bytes) : i <= length A -> i <= length B -> take i A = take i B ->
  take (i / 2) (pair_up A) = take (i / 2) (pair_up B).
Proof.
  intros HA HB E. rewrite !take_pair_up by div_lia. f_equal.
  assert (forall l : list bytes, take (2 * (i / 2)) l = take (2 * (i / 2)) (take i l)) as HT.
  { intros l. rewrite take_take. f_equal. div_lia. }
  by rewrite (HT A), (HT B), E.
Qed.

(** Two trees that agree strictly below node [i], where the old one ends; [path] is the
    audit path of node [i] in the new one.  The loop invariant of both verifiers. *)
Definition walk_at (i s : nat) (fr sr : bytes) (path : list bytes) (A B : list bytes) : Prop :=
  length A = S i /\ length B = S s /\ i <= s /\ take i A = take i B /\
  A !! i = Some fr /\ B !! i = Some sr /\ path = inclusion_path i B.

Lemma walk_odd i s fr sr c path A B : i mod 2 = 1 -> walk_at i s fr sr (c :: path) A B ->
  walk_at (i / 2) (s / 2) (node_hash c fr) (node_hash c sr) path (pair_up A) (pair_up B).
Proof.
  intros Ho (HA & HB & His & HT & Hf & Hs & HP). assert (i - 1 < i) as Hj by div_lia.
  rewrite inclusion_path_level in HP by lia. unfold sibling in HP. rewrite Ho in HP. cbn [Nat.eqb] in HP.
  destruct (lookup_lt_is_Some_2 B (i - 1)) as [d Hd]; [lia|].
  rewrite (lookup_take1_drop _ _ _ Hd) in HP. cbn [app] in HP. simplify_eq.
  assert (A !! (i - 1) = Some d) as HdA.
  { rewrite <- Hd, <- (lookup_take_lt A i _ Hj), <- (lookup_take_lt B i _ Hj). by rewrite HT. }
  unfold walk_at. rewrite !length_pair_up. repeat split; try div_lia; eauto using pair_up_odd.
  apply take_half; (lia || done).
Qed.

Lemma walk_even i s fr sr c path A B : i mod 2 = 0 -> i < s -> walk_at i s fr sr (c :: path) A B ->
  walk_at (i / 2) (s / 2) fr (node_hash sr c) path (pair_up A) (pair_up B).
Proof.
  intros He Hlt (HA & HB & His & HT & Hf & Hs & HP).
  rewrite inclusion_path_level in HP by lia. unfold sibling in HP. rewrite He in HP. cbn [Nat.eqb] in HP.
  destruct (lookup_lt_is_Some_2 B (i + 1)) as [d Hd]; [lia|].
  rewrite (lookup_take1_drop _ _ _ Hd) in HP. cbn [app] in HP. simplify_eq.
  unfold walk_at. rewrite !length_pair_up. repeat split; try div_lia; eauto using pair_up_even.
  - apply take_half; (lia || done).
  - by rewrite pair_up_promote.
Qed.

Lemma walk_promote i fr sr path A B : 0 < i -> i mod 2 = 0 -> walk_at i i fr sr path A B ->
  walk_at (i / 2) (i / 2) fr sr path (pair_up A) (pair_up B).
Proof.
  intros Hi He (HA & HB & His & HT & Hf & Hs & HP).
  rewrite inclusion_path_level in HP by lia. unfold sibling in HP. rewrite He in HP. cbn [Nat.eqb] in HP.
  rewrite (drop_ge B (i + 1)) in HP by lia. simpl in HP.
  unfold walk_at. rewrite !length_pair_up, !pair_up_promote by done.
  repeat split; try done; try div_lia. apply take_half; (lia || done).
Qed.

Lemma walk_nil i s fr sr A B : walk_at i s fr sr [] A B ->
  s = 0 /\ root_hash A = fr /\ root_hash B = sr.
Proof.
  intros (HA & HB & His & HT & Hf & Hs & HP). destruct s as [|s].
  - destruct i; [|lia]. destruct A as [|x []], B as [|y []]; by simplify_eq/=.
  - exfalso. apply (f_equal length) in HP.
    destruct (split_at_lpb B) as (X & Y & -> & HS & _); [lia|].
    rewrite inclusion_path_split in HP by done.
    destruct (i <? length X); rewrite length_app in HP; simpl in HP; lia.
Qed.

Lemma consistency_loop_complete path : forall i s fr sr A B,
  walk_at i s fr sr path A B ->
  consistency_loop i s fr sr path = Some (0, root_hash A, root_hash B).
Proof.
  induction path as [|c path IH]; intros i s fr sr A B HW.
  { by destruct (walk_nil _ _ _ _ _ _ HW) as (-> & -> & ->). }
  assert (s <> 0) as Hs0.
  { intros ->. destruct HW as (_ & HB & _ & _ & _ & _ & HP). by rewrite inclusion_path_small in HP by lia. }
  assert (forall j u A' B', j mod 2 = 1 -> walk_at j u fr sr (c :: path) A' B' ->
            consistency_loop (j / 2) (u / 2) (node_hash c fr) (node_hash c sr) path =
            Some (0, root_hash A', root_hash B')) as Hodd.
  { intros j u A' B' Ho HW'. rewrite (root_hash_pair_up A'), (root_hash_pair_up B').
    apply IH, walk_odd; done. }
  cbn [consistency_loop]. destruct (Nat.eqb_spec s 0); [done|]. rewrite land1, !shiftr1.
  destruct (Nat.eqb_spec (i mod 2) 1) as [Ho|Ho]; cbn [orb].
  { destruct (Nat.eqb_spec (i mod 2) 0); [lia|]. rewrite !shiftr1. by apply Hodd. }
  assert (i mod 2 = 0) as He by div_lia.
  destruct (Nat.eqb_spec i s) as [<-|Hlt].
  - rewrite He. cbn [Nat.eqb].
    destruct (skip_zeros_spec (fun j => exists A' B', walk_at j j fr sr (c :: path) A' B' /\
        root_hash A' = root_hash A /\ root_hash B' = root_hash B) i i)
      as (j & -> & Hj & A' & B' & HW' & <- & <-); [lia|by exists A, B| |].
    { intros j Hj Hje (A' & B' & HW' & <- & <-). exists (pair_up A'), (pair_up B').
      rewrite <- !root_hash_pair_up. eauto using walk_promote. }
    rewrite !shiftr1. by apply (Hodd j j).
  - rewrite (root_hash_pair_up A), (root_hash_pair_up B). apply IH, walk_even; [done| |done].
    destruct HW as (_ & _ & ? & _). lia.
Qed.

(** The [sr] half of the consistency loop is the inclusion loop. *)
Lemma consistency_loop_inclusion path : forall i s fr sr,
  inclusion_loop i s sr path =
  match consistency_loop i s fr sr path with Some (sn, _, r) => Some (sn, r) | None => None end.
Proof.
  induction path as [|c path IH]; intros i s fr sr; [done|].
  cbn [inclusion_loop consistency_loop]. destruct (s =? 0); [done|].
  destruct ((Nat.land i 1 =? 1) || (i =? s)); [|apply IH].
  destruct (if Nat.land i 1 =? 0 then _ else _). apply IH.
Qed.

Lemma inclusion_complete i L r : L !! i = Some r ->
  verify_inclusion r i (length L) (inclusion_path i L) (root_hash L) = true.
Proof.
  intros Hr. pose proof (lookup_lt_Some _ _ _ Hr) as Hi. unfold verify_inclusion.
  destruct (Nat.leb_spec (length L) i); [lia|].
  rewrite (consistency_loop_inclusion _ _ _ r r).
  rewrite (consistency_loop_complete _ _ _ _ _ (take (S i) L) L).
  - simpl. by apply bool_decide_eq_true.
  - unfold walk_at. rewrite length_take, take_take, lookup_take_lt by lia.
    repeat split; try done; try lia. f_equal. lia.
Qed.

Lemma odd_size_complete fuel i s A B : i mod 2 <> 1 ->
  length A = S i -> length B = S s -> i < s -> A = take (S i) B ->
  exists i' s' w work, skip_ones fuel i s = (i', s') /\ subproof (S i) B false = w :: work /\
    consistency_loop i' s' w w work = Some (0, root_hash A, root_hash B).
Proof.
  intros Ho HA HB His ->. destruct (lookup_lt_is_Some_2 B i) as [w Hw]; [lia|].
  exists i, s, w, (inclusion_path i B). rewrite skip_ones_even by done.
  rewrite subproof_odd by div_lia. replace (S i - 1) with i by lia.
  rewrite (lookup_take1_drop _ _ _ Hw). split_and!; [done|done|].
  apply consistency_loop_complete. unfold walk_at. rewrite take_take, lookup_take_lt by lia.
  split_and!; try done; try lia. f_equal. lia.
Qed.

(** Stripping the trailing ones of the old size: the walk starts at the largest complete
    subtree on the old tree's right border. *)
Lemma skip_ones_complete fuel : forall i s A B,
  i <= fuel -> length A = S i -> length B = S s -> i < s -> A = take (S i) B ->
  exists i' s' w work, skip_ones fuel i s = (i', s') /\ subproof (S i) B false = w :: work /\
    consistency_loop i' s' w w work = Some (0, root_hash A, root_hash B).
Proof.
  induction fuel as [|fuel IH]; intros i s A B Hf HA HB His E;
    destruct (Nat.eq_dec (i mod 2) 1) as [Ho|Ho];
    try (by apply odd_size_complete).
  { by assert (i = 0) as -> by lia. }
  cbn [skip_ones]. rewrite land1, Ho, !shiftr1. cbn [Nat.eqb].
  destruct (IH (i / 2) (s / 2) (pair_up A) (pair_up B)) as (i' & s' & w & work & Es & Ew & El);
    rewrite ?length_pair_up; try div_lia.
  { rewrite E, take_pair_up by div_lia. do 2 f_equal. div_lia. }
  exists i', s', w, work. rewrite (root_hash_pair_up A), (root_hash_pair_up B), Es.
  rewrite subproof_even by div_lia. replace (S i / 2) with (S (i / 2)) by div_lia. done.
Qed.

Lemma consistency_complete m L : 0 < m <= length L ->
  verify_consistency m (length L) (consistency_path m L) (root_hash (take m L)) (root_hash L) = true.
Proof.
  intros Hm. unfold verify_consistency, consistency_path.
  destruct (Nat.eqb_spec m 0); [lia|]. destruct (Nat.ltb_spec (length L) m); [lia|]. cbn [orb].
  destruct (Nat.eqb_spec m (length L)) as [->|Hn].
  { rewrite subproof_whole, take_ge by lia. by rewrite !bool_decide_eq_true_2 by done. }
  rewrite subproof_work by lia.
  destruct (skip_ones_complete (m - 1) (m - 1) (length L - 1) (take m L) L)
    as (i' & s' & w & work & Es & Ew & El); rewrite ?length_take; try lia.
  { f_equal. lia. }
  replace (S (m - 1)) with m in Ew by lia.
  by rewrite Ew, Es, El, !bool_decide_eq_true_2 by done.
Qed.
End Completeness.

(** ** Soundness: accepted proofs are the generated ones

    Relative to [collision_free Q], for a list [Q] holding every preimage hashed by the
    honest tree(s) and by the verifier. *)

Definition hash32 (h : bytes) : Prop := length h = 32.

Section Soundness.
Context `{Sha256, !Sha256Laws}.
Variable Q : list bytes.
Hypothesis no_collision : collision_free Q.

Lemma node_hash_inj a b c d : hash32 a -> hash32 c ->
  In (node_query a b) Q -> In (node_query c d) Q ->
  node_hash a b = node_hash c d -> a = c /\ b = d.
Proof.
  unfold hash32. intros Ha Hc Hx Hy E. apply no_collision in E; [|done|done].
  simplify_eq/=. by apply app_inj_len in E; [|congruence].
Qed.

Lemma hash32_node a b : hash32 (node_hash a b).
Proof. apply sha256_length. Qed.

Lemma hash32_pair_up l : Forall hash32 l -> Forall hash32 (pair_up l).
Proof.
  induction l as [|x|a b l IH] using pair_ind; intros Hl; [done|done|].
  inversion Hl as [|? ? ? Hl']. inversion Hl'. constructor; [apply hash32_node|auto].
Qed.

Lemma Forall_root_hash L : 0 < length L -> Forall hash32 L -> hash32 (root_hash L).
Proof.
  induction L as [|x|A B Hs IHA IHB] using tree_ind; intros Hp HL; [simpl in Hp; lia| |].
  - by apply Forall_cons_1 in HL as [? _].
  - rewrite root_hash_split by done. apply hash32_node.
Qed.

Lemma inclusion_path_hash32 L i : Forall hash32 L -> Forall hash32 (inclusion_path i L).
Proof.
  revert i. induction L as [|x|A B Hs IHA IHB] using tree_ind; intros i HL; [done|done|].
  pose proof (is_split_pos _ _ Hs). apply Forall_app in HL as [HA HB].
  rewrite inclusion_path_split by done. case_match; apply Forall_app; split; auto;
    constructor; auto; apply Forall_root_hash; (lia || done).
Qed.

Lemma subproof_hash32 L m b : Forall hash32 L -> 0 < m <= length L -> Forall hash32 (subproof m L b).
Proof.
  revert m b. induction L as [|x|A B Hs IHA IHB] using tree_ind; intros m b HL Hm; [simpl in Hm; lia| |].
  { assert (m = 1) as -> by (simpl in Hm; lia). by destruct b; [constructor|]. }
  pose proof (is_split_pos _ _ Hs). pose proof HL as HAB.
  apply Forall_app in HL as [HA HB]. rewrite length_app in Hm.
  destruct (Nat.eq_dec m (length A + length B)) as [->|Hn].
  { rewrite subproof_whole by (rewrite ?length_app; lia). destruct b; [done|].
    constructor; [|done]. apply Forall_root_hash; [rewrite length_app; lia|done]. }
  rewrite subproof_split by (done || lia).
  destruct (Nat.leb_spec m (length A)); apply Forall_app; split;
    try (constructor; auto; apply Forall_root_hash; (lia || done)); [apply IHA|apply IHB]; (lia || done).
Qed.

Lemma queries_pair_up L : incl (root_queries L) Q -> incl (root_queries (pair_up L)) Q.
Proof. intros HI q Hq. apply HI, root_queries_pair_up. auto. Qed.

(** A parent on the next level determines its two children. *)
Lemma pair_up_children j L a b : 2 * j + 1 < length L ->
  Forall hash32 L -> hash32 a -> incl (root_queries L) Q -> In (node_query a b) Q ->
  pair_up L !! j = Some (node_hash a b) -> L !! (2 * j) = Some a /\ L !! (2 * j + 1) = Some b.
Proof.
  intros Hj HL Ha HI Hq E. rewrite pair_up_lookup in E.
  destruct (lookup_lt_is_Some_2 L (2 * j)) as [x Hx]; [lia|].
  destruct (lookup_lt_is_Some_2 L (2 * j + 1)) as [y Hy]; [lia|].
  rewrite Hx, Hy in E. simplify_eq. rewrite Forall_lookup in HL.
  assert (In (node_query x y) Q) by (apply HI, root_queries_pair_up; left; by eapply pair_queries_in).
  destruct (node_hash_inj x y a b) as [-> ->]; eauto.
Qed.

(** Equal prefixes one level up come from equal prefixes. *)
Lemma take_double m A B : 2 * m <= length A -> 2 * m <= length B ->
  Forall hash32 A -> Forall hash32 B -> incl (pair_queries A) Q -> incl (pair_queries B) Q ->
  take m (pair_up A) = take m (pair_up B) -> take (2 * m) A = take (2 * m) B.
Proof.
  revert m B; induction A as [|x|a b A IH] using pair_ind; intros m B HmA HmB HA HB QA QB E;
    [by assert (m = 0) as -> by (simpl in HmA; lia)|by assert (m = 0) as -> by (simpl in HmA; lia)|].
  destruct m as [|m]; [done|]. replace (2 * S m) with (S (S (2 * m))) in * by lia.
  destruct B as [|c [|d B]]; [simpl in HmB; lia|simpl in HmB; lia|].
  cbn [pair_up take pair_queries length] in *. apply Forall_cons_1 in HA as [? HA], HB as [? HB].
  apply Forall_cons_1 in HA as [? HA], HB as [? HB]. injection E as E1 E2.
  destruct (node_hash_inj a b c d) as [-> ->];
    [done|done|by apply QA; left|by apply QB; left|done|].
  do 2 f_equal. apply IH; try done; try lia; intros q Hq; [apply QA|apply QB]; by right.
Qed.

Lemma incl_pair_queries L : incl (root_queries L) Q -> incl (pair_queries L) Q.
Proof. intros HI q Hq. apply HI, root_queries_pair_up. auto. Qed.

(** What the consistency walk establishes about the two trees. *)
Definition agree_at (i : nat) (fr sr : bytes) (A B : list bytes) : Prop :=
  A !! i = Some fr /\ B !! i = Some sr /\ take i A = take i B.

(** The standing facts about the two trees at one level of the walk. *)
Definition levels (i s : nat) (A B : list bytes) : Prop :=
  length A = S i /\ length B = S s /\ i <= s /\ Forall hash32 A /\ Forall hash32 B /\
  incl (root_queries A) Q /\ incl (root_queries B) Q.

Lemma levels_up i s A B : levels i s A B -> levels (i / 2) (s / 2) (pair_up A) (pair_up B).
Proof.
  intros (HA & HB & His & FA & FB & QA & QB). unfold levels. rewrite !length_pair_up.
  repeat split; try div_lia; auto using hash32_pair_up, queries_pair_up.
Qed.

Lemma take_snoc_eq i (A B : list bytes) x :
  0 < i -> take (i - 1) A = take (i - 1) B -> A !! (i - 1) = Some x -> B !! (i - 1) = Some x ->
  take i A = take i B.
Proof.
  intros Hi E HA HB. replace i with (S (i - 1)) by lia.
  by rewrite (take_S_r _ _ _ HA), (take_S_r _ _ _ HB), E.
Qed.

Lemma agree_odd i s fr sr c A B : i mod 2 = 1 -> levels i s A B -> hash32 c ->
  In (node_query c fr) Q -> In (node_query c sr) Q ->
  agree_at (i / 2) (node_hash c fr) (node_hash c sr) (pair_up A) (pair_up B) ->
  agree_at i fr sr A B.
Proof.
  intros Ho (HA & HB & His & FA & FB & QA & QB) Hc Qf Qs (Ef & Es & ET).
  apply pair_up_children in Ef as [Ec1 Ef]; [|div_lia|done..].
  apply pair_up_children in Es as [Ec2 Es]; [|div_lia|done..].
  apply take_double in ET; [|div_lia|div_lia|done|done|by apply incl_pair_queries..].
  replace (2 * (i / 2) + 1) with i in * by div_lia.
  replace (2 * (i / 2)) with (i - 1) in * by div_lia.
  repeat split; [done|done|]. eapply take_snoc_eq; eauto. div_lia.
Qed.

Lemma agree_even i s fr sr c A B : i mod 2 = 0 -> i < s -> levels i s A B ->
  hash32 sr -> In (node_query sr c) Q ->
  agree_at (i / 2) fr (node_hash sr c) (pair_up A) (pair_up B) -> agree_at i fr sr A B.
Proof.
  intros He Hlt (HA & HB & His & FA & FB & QA & QB) Hr Qs (Ef & Es & ET).
  apply pair_up_children in Es as [Es _]; [|div_lia|done..].
  apply take_double in ET; [|div_lia|div_lia|done|done|by apply incl_pair_queries..].
  rewrite pair_up_promote in Ef by done. replace (2 * (i / 2)) with i in * by div_lia. done.
Qed.

Lemma agree_promote i fr sr A B : i mod 2 = 0 -> levels i i A B ->
  agree_at (i / 2) fr sr (pair_up A) (pair_up B) -> agree_at i fr sr A B.
Proof.
  intros He (HA & HB & His & FA & FB & QA & QB) (Ef & Es & ET).
  apply take_double in ET; [|div_lia|div_lia|done|done|by apply incl_pair_queries..].
  rewrite pair_up_promote in Ef, Es by done. replace (2 * (i / 2)) with i in * by div_lia. done.
Qed.

Lemma consistency_loop_sound path : forall i s fr sr A B,
  levels i s A B -> hash32 fr -> hash32 sr -> Forall hash32 path ->
  incl (consistency_queries i s fr sr path) Q ->
  consistency_loop i s fr sr path = Some (0, root_hash A, root_hash B) -> agree_at i fr sr A B.
Proof.
  induction path as [|c path IH]; intros i s fr sr A B HL Hf Hs HP HQ E.
  { destruct HL as (HA & HB & His & _). cbn [consistency_loop] in E.
    injection E as -> -> ->. destruct i; [|lia]. by destruct A as [|x []], B as [|y []]; simplify_eq/=. }
  apply Forall_cons_1 in HP as [Hc HP]. cbn [consistency_loop consistency_queries] in E, HQ.
  destruct (Nat.eqb_spec s 0); [done|]. rewrite land1 in E, HQ.
  assert (forall j u A' B', j mod 2 = 1 -> levels j u A' B' ->
            root_hash A' = root_hash A -> root_hash B' = root_hash B ->
            incl (node_query c fr :: node_query c sr ::
              consistency_queries (j / 2) (u / 2) (node_hash c fr) (node_hash c sr) path) Q ->
            consistency_loop (j / 2) (u / 2) (node_hash c fr) (node_hash c sr) path =
              Some (0, root_hash A, root_hash B) -> agree_at j fr sr A' B') as Hodd.
  { intros j u A' B' Ho HL' ErA ErB HQ' E'.
    eapply agree_odd; eauto; try (apply HQ'; simpl; tauto).
    eapply IH; eauto using levels_up, hash32_node; [intros q Hq; apply HQ'; simpl; tauto|].
    by rewrite <- !root_hash_pair_up, ErA, ErB. }
  destruct (Nat.eqb_spec (i mod 2) 1) as [Ho|Ho]; cbn [orb] in E, HQ.
  { destruct (Nat.eqb_spec (i mod 2) 0); [lia|]. rewrite !shiftr1 in E, HQ. eauto. }
  assert (i mod 2 = 0) as He by div_lia.
  destruct (Nat.eqb_spec i s) as [<-|Hlt].
  - rewrite He in E, HQ. cbn [Nat.eqb] in E, HQ.
    destruct (skip_zeros_spec (fun j => exists A' B', levels j j A' B' /\
        root_hash A' = root_hash A /\ root_hash B' = root_hash B /\
        (agree_at j fr sr A' B' -> agree_at i fr sr A B)) i i)
      as (j & Ej & Hj & A' & B' & HL' & ErA & ErB & Hag); [lia|by exists A, B; split_and!| |].
    { intros j Hj Hje (A' & B' & HL' & <- & <- & Hag). exists (pair_up A'), (pair_up B').
      rewrite <- !root_hash_pair_up. split_and!; eauto using levels_up, agree_promote. }
    rewrite Ej, !shiftr1 in E, HQ. eauto.
  - rewrite !shiftr1 in E, HQ. eapply (agree_even i s); eauto; [destruct HL as (_ & _ & ? & _); lia|apply HQ; simpl; tauto|].
    eapply IH; eauto using levels_up, hash32_node; [intros q Hq; apply HQ; simpl; tauto|].
    by rewrite <- !root_hash_pair_up.
Qed.

Definition level (s : nat) (L : list bytes) : Prop :=
  length L = S s /\ Forall hash32 L /\ incl (root_queries L) Q.

Lemma level_up s L : level s L -> level (s / 2) (pair_up L).
Proof.
  intros (HL & FL & QL). unfold level. rewrite length_pair_up.
  repeat split; try div_lia; auto using hash32_pair_up, queries_pair_up.
Qed.

Lemma included_odd i s r p path L : i mod 2 = 1 -> i <= s -> level s L -> hash32 p ->
  In (node_query p r) Q ->
  pair_up L !! (i / 2) = Some (node_hash p r) /\ path = inclusion_path (i / 2) (pair_up L) ->
  L !! i = Some r /\ p :: path = inclusion_path i L.
Proof.
  intros Ho His (HL & FL & QL) Hp Hq [E ->].
  apply pair_up_children in E as [E1 E2]; [|div_lia|done..].
  replace (2 * (i / 2) + 1) with i in E2 by div_lia.
  replace (2 * (i / 2)) with (i - 1) in E1 by div_lia. split; [done|].
  rewrite (inclusion_path_level i L) by lia. unfold sibling. rewrite Ho. cbn [Nat.eqb].
  by rewrite (lookup_take1_drop _ _ _ E1).
Qed.

Lemma included_even i s r p path L : i mod 2 = 0 -> i < s -> level s L -> hash32 r ->
  In (node_query r p) Q ->
  pair_up L !! (i / 2) = Some (node_hash r p) /\ path = inclusion_path (i / 2) (pair_up L) ->
  L !! i = Some r /\ p :: path = inclusion_path i L.
Proof.
  intros He His (HL & FL & QL) Hr Hq [E ->].
  apply pair_up_children in E as [E1 E2]; [|div_lia|done..].
  replace (2 * (i / 2)) with i in * by div_lia. split; [done|].
  rewrite (inclusion_path_level i L) by lia. unfold sibling. rewrite He. cbn [Nat.eqb].
  by rewrite (lookup_take1_drop _ _ _ E2).
Qed.

Lemma included_promote i r path L : i mod 2 = 0 -> level i L ->
  pair_up L !! (i / 2) = Some r /\ path = inclusion_path (i / 2) (pair_up L) ->
  L !! i = Some r /\ path = inclusion_path i L.
Proof.
  intros He (HL & FL & QL) [E ->]. rewrite pair_up_promote in E by done. split; [done|].
  rewrite (inclusion_path_level i L) by lia. unfold sibling. rewrite He. cbn [Nat.eqb].
  by rewrite (drop_ge L) by lia.
Qed.

Lemma inclusion_loop_sound path : forall i s r L,
  i <= s -> level s L -> hash32 r -> Forall hash32 path ->
  incl (inclusion_queries i s r path) Q ->
  inclusion_loop i s r path = Some (0, root_hash L) ->
  L !! i = Some r /\ path = inclusion_path i L.
Proof.
  induction path as [|p path IH]; intros i s r L His HL Hr HP HQ E.
  { destruct HL as (HL & _). cbn [inclusion_loop] in E. injection E as -> ->.
    destruct i; [|lia]. by destruct L as [|x []]; simplify_eq/=. }
  apply Forall_cons_1 in HP as [Hp HP]. cbn [inclusion_loop inclusion_queries] in E, HQ.
  destruct (Nat.eqb_spec s 0); [done|]. rewrite land1 in E, HQ.
  assert (forall j u L', j mod 2 = 1 -> j <= u -> level u L' -> root_hash L' = root_hash L ->
            incl (node_query p r :: inclusion_queries (j / 2) (u / 2) (node_hash p r) path) Q ->
            inclusion_loop (j / 2) (u / 2) (node_hash p r) path = Some (0, root_hash L) ->
            L' !! j = Some r /\ p :: path = inclusion_path j L') as Hodd.
  { intros j u L' Ho Hju HL' Er HQ' E'. apply (included_odd j u); eauto; [apply HQ'; simpl; tauto|].
    apply (IH _ (u / 2)); eauto using level_up, hash32_node; [div_lia|intros q Hq; apply HQ'; simpl; tauto|].
    by rewrite <- root_hash_pair_up, Er. }
  destruct (Nat.eqb_spec (i mod 2) 1) as [Ho|Ho]; cbn [orb] in E, HQ.
  { destruct (Nat.eqb_spec (i mod 2) 0); [lia|]. rewrite !shiftr1 in E, HQ. eauto. }
  assert (i mod 2 = 0) as He by div_lia.
  destruct (Nat.eqb_spec i s) as [<-|Hlt].
  - rewrite He in E, HQ. cbn [Nat.eqb] in E, HQ.
    destruct (skip_zeros_spec (fun j => exists L', level j L' /\ root_hash L' = root_hash L /\
        (L' !! j = Some r /\ p :: path = inclusion_path j L' ->
         L !! i = Some r /\ p :: path = inclusion_path i L)) i i)
      as (j & Ej & Hj & L' & HL' & Er & Hag); [lia|by exists L; split_and!| |].
    { intros j Hj Hje (L' & HL' & <- & Hag). exists (pair_up L').
      rewrite <- root_hash_pair_up. split_and!; eauto using level_up, included_promote. }
    rewrite Ej, !shiftr1 in E, HQ. eauto.
  - rewrite !shiftr1 in E, HQ. eapply (included_even i s); eauto; [lia|apply HQ; simpl; tauto|].
    apply (IH _ (s / 2)); eauto using level_up, hash32_node; [div_lia|intros q Hq; apply HQ; simpl; tauto|].
    by rewrite <- root_hash_pair_up.
Qed.

(** The start of the consistency walk: from the largest complete subtree on the old
    border back down to the leaves. *)
Lemma skip_ones_sound fuel : forall i s w work A B, levels i s A B -> hash32 w -> Forall hash32 work ->
  i <= fuel ->
  let '(i', s') := skip_ones fuel i s in
  incl (consistency_queries i' s' w w work) Q ->
  consistency_loop i' s' w w work = Some (0, root_hash A, root_hash B) -> A = take (S i) B.
Proof.
  induction fuel as [|fuel IH]; intros i s w work A B HL Hw HW Hf;
    destruct (Nat.eq_dec (i mod 2) 1) as [Ho|Ho];
    try (rewrite skip_ones_even by done; intros HQ E; apply consistency_loop_sound in E as (EA & EB & ET);
         auto; rewrite (take_S_r _ _ _ EB), <- ET, <- (take_S_r _ _ _ EA), take_ge;
         [done|destruct HL; lia]).
  { by assert (i = 0) as -> by lia. }
  cbn [skip_ones]. rewrite land1, Ho, !shiftr1. cbn [Nat.eqb].
  specialize (IH (i / 2) (s / 2) w work (pair_up A) (pair_up B) (levels_up _ _ _ _ HL) Hw HW).
  destruct (skip_ones fuel (i / 2) (s / 2)) as [i' s']. intros HQ E.
  rewrite (root_hash_pair_up A), (root_hash_pair_up B) in E.
  specialize (IH ltac:(div_lia) HQ E). destruct HL as (HA & HB & His & FA & FB & QA & QB).
  rewrite <- (take_ge (pair_up A) (S (i / 2))) in IH by (rewrite length_pair_up; div_lia).
  apply take_double in IH; [|div_lia|div_lia|done|done|by apply incl_pair_queries..].
  replace (2 * S (i / 2)) with (S i) in IH by div_lia. by rewrite take_ge in IH by lia.
Qed.

(** Two leaf lists of one size with one root are equal. *)
Lemma root_hash_inj A : forall B, length A = length B -> Forall hash32 A -> Forall hash32 B ->
  incl (root_queries A) Q -> incl (root_queries B) Q -> root_hash A = root_hash B -> A = B.
Proof.
  induction A as [|x|A1 A2 Hs IH1 IH2] using tree_ind; intros B Hl FA FB QA QB E.
  - by destruct B.
  - destruct B as [|y [|]]; [done| |done]. rewrite !root_hash_single in E. by subst.
  - rewrite length_app in Hl. destruct (split_at_lpb B) as (B1 & B2 & -> & HsB & _); [destruct Hs; lia|].
    rewrite length_app in Hl. rewrite !root_queries_split in QA, QB by done.
    rewrite !root_hash_split in E by done. apply Forall_app in FA as [FA1 FA2], FB as [FB1 FB2].
    assert (length A1 = length B1) by (destruct Hs, HsB; congruence).
    assert (hash32 (root_hash A1) /\ hash32 (root_hash B1)) as [].
    { split; apply Forall_root_hash; try done; pose proof (is_split_pos _ _ Hs); lia. }
    apply node_hash_inj in E as [E1 E2]; try done; [|by apply QA; left|by apply QB; left].
    f_equal; [apply IH1|apply IH2]; try done; try lia; intros q Hq;
      first [apply QA; right; apply in_app_iff; tauto|apply QB; right; apply in_app_iff; tauto].
Qed.
End Soundness.

(** ** Theorems *)

Section Theorems.
Context `{Sha256}.

(** The slice recursions never run out of fuel: more fuel never changes a result. *)
Lemma root_hash_total fuel L : length L <= fuel -> root_hash_fuel fuel L = root_hash L.
Proof. intros HL. by apply root_hash_fuel_irrel. Qed.

(** [root_hash] is the RFC 6962 Merkle tree hash: the empty-string hash on no
    leaves, the leaf itself on one, and on [n >= 2] leaves the node hash of the roots
    of the first [k] and the remaining leaves, [k] the largest power of two below [n]. *)
Theorem root_hash_rfc6962 (L : list bytes) :
  root_hash [] = empty_root /\
  (forall h, root_hash [h] = h) /\
  (2 <= length L -> exists t, let k := 2 ^ t in
     k < length L <= 2 * k /\
     root_hash L = node_hash (root_hash (take k L)) (root_hash (drop k L))).
Proof.
  split_and!; [done|done|]. intros HL.
  destruct (lpb_spec _ HL) as (t & Et & Ht). exists t. split; [done|]. rewrite <- Et.
  destruct (split_at_lpb L HL) as (A & B & E & Hs & <- & <-).
  rewrite E at 1. by apply root_hash_split.
Qed.

Section Sound.
Context `{!Sha256Laws}.

Lemma inclusion_exact (L : list bytes) (leaf : bytes) (i : nat) (path : list bytes) :
  Forall hash32 L -> hash32 leaf -> Forall hash32 path ->
  collision_free (root_queries L ++ inclusion_queries i (length L - 1) leaf path) ->
  verify_inclusion leaf i (length L) path (root_hash L) = true <->
  L !! i = Some leaf /\ path = inclusion_path i L.
Proof.
  intros FL Hl HP HQ. split.
  - unfold verify_inclusion. destruct (Nat.leb_spec (length L) i); [done|].
    destruct (inclusion_loop _ _ _ _) as [[sn r]|] eqn:E; [|done]. intros Hb. breflect. subst.
    eapply inclusion_loop_sound in E; eauto; try lia.
    + split_and!; [lia|done|]. intros q Hq. apply in_app_iff. auto.
    + intros q Hq. apply in_app_iff. auto.
  - intros [HL ->]. by apply inclusion_complete.
Qed.

(** C2: Exactness of inclusion verification.  Relative to collision freedom of SHA-256
    on the preimages hashed by the tree and by the verifier, [verify_inclusion] accepts
    a leaf, an index and a path against the root of [L] if and only if the leaf is the
    one [L] holds at that index and the path is the generated audit path. *)
Theorem verify_inclusion_exact (L : list bytes) (leaf : bytes) (i : nat) (path : list bytes) :
  Forall hash32 L -> hash32 leaf -> Forall hash32 path ->
  collision_free (root_queries L ++ inclusion_queries i (length L - 1) leaf path) ->
  verify_inclusion leaf i (length L) path (root_hash L) = true <->
  L !! i = Some leaf /\ path = inclusion_path i L.
Proof. apply inclusion_exact. Qed.

Lemma consistency_sound (A B : list bytes) (path : list bytes) :
  Forall hash32 A -> Forall hash32 B -> Forall hash32 path ->
  collision_free (root_queries A ++ root_queries B ++
    verify_consistency_queries (length A) (length B) path (root_hash A)) ->
  verify_consistency (length A) (length B) path (root_hash A) (root_hash B) = true ->
  A `prefix_of` B.
Proof.
  intros FA FB HP HQ. set (Q := root_queries A ++ _) in HQ.
  assert (incl (root_queries A) Q) as QA by (intros q Hq; apply in_app_iff; auto).
  assert (incl (root_queries B) Q) as QB by (intros q Hq; apply in_app_iff; right; apply in_app_iff; auto).
  unfold verify_consistency. destruct (Nat.eqb_spec (length A) 0); [done|].
  destruct (Nat.ltb_spec (length B) (length A)); [done|]. cbn [orb].
  destruct (Nat.eqb_spec (length A) (length B)).
  { intros Hb. apply andb_true_iff in Hb as [_ E]. breflect.
    by apply (root_hash_inj Q HQ) in E as ->. }
  destruct ((if is_power_of_two _ then _ else _) ++ path) as [|w work] eqn:Ew; [done|].
  assert (Forall hash32 (w :: work)) as HW.
  { rewrite <- Ew. apply Forall_app. split; [|done]. destruct (is_power_of_two _); constructor; [|constructor].
    apply Forall_root_hash; [lia|done]. }
  apply Forall_cons_1 in HW as [Hw HW].
  assert (incl (verify_consistency_queries (length A) (length B) path (root_hash A)) Q) as QC
    by (intros q Hq; apply in_app_iff; right; apply in_app_iff; auto).
  unfold verify_consistency_queries in QC. rewrite Ew in QC.
  pose proof (skip_ones_sound Q HQ (length A - 1) (length A - 1) (length B - 1) w work A B) as HS.
  destruct (skip_ones _ _ _) as [i' s'].
  destruct (consistency_loop _ _ _ _ _) as [[[sn fr] sr]|] eqn:E; [|done].
  intros Hb. breflect. subst. exists (drop (length A) B).
  rewrite HS at 1; try done; [|split_and!; try done; lia].
  replace (S (length A - 1)) with (length A) by lia. by rewrite take_drop.
Qed.

(** C3: Soundness of consistency verification.  Relative to collision freedom on the
    preimages hashed by both trees and by the verifier, a consistency proof accepted
    between the roots of [A] and [B] shows that [A] is a prefix of [B]: history was
    only appended to, never rewritten. *)
Theorem verify_consistency_sound (A B : list bytes) (path : list bytes) :
  Forall hash32 A -> Forall hash32 B -> Forall hash32 path ->
  collision_free (root_queries A ++ root_queries B ++
    verify_consistency_queries (length A) (length B) path (root_hash A)) ->
  verify_consistency (length A) (length B) path (root_hash A) (root_hash B) = true ->
  A `prefix_of` B.
Proof. apply consistency_sound. Qed.
End Sound.

(** Completeness.  Every consistency proof the log generates for sizes
    [0 < m <= n] verifies against the two roots. *)
Theorem consistency_path_verifies (L : list bytes) (m : nat) :
  0 < m <= length L ->
  verify_consistency m (length L) (consistency_path m L) (root_hash (take m L)) (root_hash L) = true.
Proof. apply consistency_complete. Qed.
End Theorems.

(** ** Evaluation on concrete trees *)

Section Concrete.

#[local] Definition leaves3 : list bytes := map leaf_hash [as_bytes "a"; as_bytes "b"; as_bytes "c"].

#[local] Definition leaves2 : list bytes := take 2 leaves3.

Lemma leaves3_hash32 : Forall hash32 leaves3.
Proof. repeat constructor; vm_compute; reflexivity. Qed.

Lemma verify_inclusion_exact_witness :
  verify_inclusion (leaf_hash (as_bytes "b")) 1 3 (inclusion_path 1 leaves3) (root_hash leaves3) = true <->
  leaves3 !! 1 = Some (leaf_hash (as_bytes "b")) /\ inclusion_path 1 leaves3 = inclusion_path 1 leaves3.
Proof.
  apply (verify_inclusion_exact leaves3 (leaf_hash (as_bytes "b")) 1 (inclusion_path 1 leaves3)).
  - apply leaves3_hash32.
  - vm_compute; reflexivity.
  - vm_compute. repeat constructor.
  - apply collision_freeb_spec. vm_compute. reflexivity.
Defined.

Lemma verify_consistency_sound_witness : leaves2 `prefix_of` leaves3.
Proof.
  apply (verify_consistency_sound leaves2 leaves3 (consistency_path 2 leaves3)).
  - apply Forall_take, leaves3_hash32.
  - apply leaves3_hash32.
  - vm_compute. repeat constructor.
  - apply collision_freeb_spec. vm_compute. reflexivity.
  - vm_compute. reflexivity.
Defined.
End Concrete.
