(* ===== verification/Log.v ===== *)
(** * verifiable-log: entries, the append-only log, signed tree heads and wire proofs

    Models [verifiable-log/src/log.rs], [sth.rs] and [proof.rs].  The log is a record
    updated by state passing; a tenant's invariant hook (the [TenantInvariant] trait) is
    a record with its [check] function, kept in a map from tenant ids as in the source.
    [verify_*] functions are boolean and total, as the source promises. *)

From stdpp Require Import base list strings gmap pretty.
From Stdlib Require Import NArith ZArith Lia ZifyNat ZifyN.
From Stdlib Require Import Strings.Byte.
From S2P Require Import Prelude Crypto Merkle.

(** ** log.rs *)

Record Entry := mkEntry { tenant : string; data : bytes }.

#[global] Instance Entry_eq_dec : EqDecision Entry.
Proof. solve_decision. Defined.

Definition Entry_encode (e : Entry) : bytes :=
  be_bytes 4 (as_u32 (N.of_nat (length (as_bytes (tenant e))))) ++ as_bytes (tenant e) ++ data e.

Definition Entry_leaf_hash `{Sha256} (e : Entry) : bytes := leaf_hash (Entry_encode e).

Record InvariantViolation := mkViolation { iv_tenant : string; iv_message : string }.

Definition invariant_error (v : InvariantViolation) : Error :=
  Invariant (iv_tenant v) (iv_message v).

(** The [TenantInvariant] trait object. *)
Record TenantInvariant := {
  check : list Entry -> Entry -> Result unit InvariantViolation
}.

Definition UniqueDataInvariant : TenantInvariant := {|
  check existing candidate :=
    if existsb (fun e => bool_decide (data e = data candidate)) existing
    then Err (mkViolation (tenant candidate)
           (String.append "duplicate entry for tenant `"
              (String.append (tenant candidate) "` (payload already committed)")))
    else Ok tt
|}.

Record VerifiableLog := mkLog {
  entries : list Entry;
  leaves : list bytes;
  invariants : gmap string TenantInvariant
}.

Definition VerifiableLog_new : VerifiableLog := mkLog [] [] ∅.

Definition register_invariant (log : VerifiableLog) (t : string) (inv : TenantInvariant)
    : VerifiableLog :=
  mkLog (entries log) (leaves log) (<[t := inv]> (invariants log)).

(** The entries already committed for a tenant, in order. *)
Definition tenant_entries (log : VerifiableLog) (t : string) : list Entry :=
  List.filter (fun e => bool_decide (tenant e = t)) (entries log).

Section Log.
Context `{Sha256}.

(** [append]: the new log (the old one on an error) and the leaf index or the error. *)
Definition append (log : VerifiableLog) (e : Entry) : VerifiableLog * Result nat Error :=
  let push :=
    (mkLog (entries log ++ [e]) (leaves log ++ [Entry_leaf_hash e]) (invariants log),
     Ok (length (entries log))) in
  match invariants log !! tenant e with
  | Some inv =>
      match check inv (tenant_entries log (tenant e)) e with
      | Err v => (log, Err (invariant_error v))
      | Ok _ => push
      end
  | None => push
  end.

Definition log_size (log : VerifiableLog) : nat := length (entries log).

Definition is_empty (log : VerifiableLog) : bool := bool_decide (entries log = []).

Definition log_root (log : VerifiableLog) : bytes := root_hash (leaves log).

Definition root_at (log : VerifiableLog) (size : nat) : Result bytes Error :=
  if length (leaves log) <? size then Err (IndexOutOfRange size (length (leaves log)))
  else Ok (root_hash (take size (leaves log))).

Definition log_entry (log : VerifiableLog) (index : nat) : option Entry := entries log !! index.
End Log.

(** ** sth.rs *)

Definition STH_DOMAIN : bytes := as_bytes "pollis-verifiable-log:sth:v1".

Record Sth := mkSth {
  tree_size : N;
  sth_root_hash : string;
  timestamp : N;
  signature : string
}.

#[global] Instance Sth_eq_dec : EqDecision Sth.
Proof. solve_decision. Defined.

Definition signing_message_with_context (context : bytes) (size : N) (root : bytes) (ts : N) : bytes :=
  context ++ be_bytes 8 size ++ root ++ be_bytes 8 ts.

Section SthOps.
Context `{Hex} `{Ed25519}.

Definition to_hex_sig (sig : bytes) : string := hex_encode sig.

Definition sig_from_hex (s : string) : Result bytes Error :=
  let? b := map_err HexError (hex_decode s) in
  if length b =? 64 then Ok b else Err (BadSignatureLength (length b)).

Definition Sth_create_with_context (sk : SigningKey) (size : N) (root : bytes) (ts : N)
    (context : bytes) : Sth :=
  let message := signing_message_with_context context size root ts in
  mkSth size (to_hex root) ts (to_hex_sig (ed_sign sk message)).

Definition Sth_create (sk : SigningKey) (size : N) (root : bytes) (ts : N) : Sth :=
  Sth_create_with_context sk size root ts STH_DOMAIN.

Definition root_bytes (s : Sth) : Result bytes Error := from_hex (sth_root_hash s).

Definition verify_with_context (s : Sth) (vk : VerifyingKey) (context : bytes) : bool :=
  match root_bytes s with
  | Err _ => false
  | Ok root =>
      match sig_from_hex (signature s) with
      | Err _ => false
      | Ok sig =>
          ed_verify vk (signing_message_with_context context (tree_size s) root (timestamp s)) sig
      end
  end.

Definition Sth_verify (s : Sth) (vk : VerifyingKey) : bool := verify_with_context s vk STH_DOMAIN.

Definition verifying_key_from_hex (s : string) : Result VerifyingKey Error :=
  let? b := map_err HexError (hex_decode s) in
  if length b =? 32
  then match vk_from_bytes b with Some vk => Ok vk | None => Err BadPublicKey end
  else Err (BadPublicKeyLength (length b)).
End SthOps.

Definition is_equivocation (a b : Sth) : bool :=
  (tree_size a =? tree_size b)%N && negb (bool_decide (sth_root_hash a = sth_root_hash b)).

(** ** proof.rs *)

Record InclusionProof := mkInclusionProof {
  leaf_index : N;
  ip_tree_size : N;
  audit_path : list string
}.

Record ConsistencyProof := mkConsistencyProof {
  first_size : N;
  second_size : N;
  cp_path : list string
}.

#[global] Instance InclusionProof_eq_dec : EqDecision InclusionProof.
Proof. solve_decision. Defined.

#[global] Instance ConsistencyProof_eq_dec : EqDecision ConsistencyProof.
Proof. solve_decision. Defined.

Section Proofs.
Context `{Sha256} `{Hex}.

Definition decode_path (hexes : list string) : Result (list bytes) Error :=
  collect_results from_hex hexes.

Definition verify_inclusion_proof (e : Entry) (p : InclusionProof) (s : Sth) : bool :=
  if negb (ip_tree_size p =? tree_size s)%N then false
  else match root_bytes s with
       | Err _ => false
       | Ok root =>
           match decode_path (audit_path p) with
           | Err _ => false
           | Ok path =>
               verify_inclusion (Entry_leaf_hash e) (N.to_nat (leaf_index p))
                                (N.to_nat (ip_tree_size p)) path root
           end
       end.

Definition verify_consistency_proof (old new : Sth) (p : ConsistencyProof) : bool :=
  if negb (first_size p =? tree_size old)%N || negb (second_size p =? tree_size new)%N then false
  else match root_bytes old with
       | Err _ => false
       | Ok old_root =>
           match root_bytes new with
           | Err _ => false
           | Ok new_root =>
               match decode_path (cp_path p) with
               | Err _ => false
               | Ok path =>
                   verify_consistency (N.to_nat (first_size p)) (N.to_nat (second_size p))
                                      path old_root new_root
               end
           end
       end.

(** ** log.rs: heads and proofs *)

Definition signed_tree_head `{Ed25519} (log : VerifiableLog) (sk : SigningKey) (ts : N) : Sth :=
  Sth_create sk (N.of_nat (log_size log)) (log_root log) ts.

Definition inclusion_proof (log : VerifiableLog) (index : nat) : Result InclusionProof Error :=
  if length (leaves log) <=? index then Err (IndexOutOfRange index (length (leaves log)))
  else Ok (mkInclusionProof (N.of_nat index) (N.of_nat (length (leaves log)))
             (map to_hex (inclusion_path index (leaves log)))).

Definition consistency_proof (log : VerifiableLog) (first second : nat) : Result ConsistencyProof Error :=
  if (first =? 0) || (second <? first) || (length (leaves log) <? second)
  then Err (InvalidTreeSizes first second)
  else Ok (mkConsistencyProof (N.of_nat first) (N.of_nat second)
             (map to_hex (consistency_path first (take second (leaves log))))).
End Proofs.

(** ** The log invariant *)

Section LogInvariant.
Context `{Sha256}.

(** Leaves are the leaf hashes of the entries. *)
Definition log_wf (log : VerifiableLog) : Prop := leaves log = map Entry_leaf_hash (entries log).

Lemma log_wf_new : log_wf VerifiableLog_new.
Proof. done. Qed.

Lemma log_wf_register log t inv : log_wf log -> log_wf (register_invariant log t inv).
Proof. done. Qed.

Lemma append_ok log e i log' :
  append log e = (log', Ok i) ->
  i = length (entries log) /\ entries log' = entries log ++ [e] /\
  leaves log' = leaves log ++ [Entry_leaf_hash e] /\ invariants log' = invariants log /\
  (forall inv, invariants log !! tenant e = Some inv ->
     check inv (tenant_entries log (tenant e)) e = Ok tt).
Proof.
  unfold append. intros E. destruct (invariants log !! tenant e) as [inv|] eqn:Ei.
  - destruct (check inv _ e) as [[]|v] eqn:Ec; simplify_eq. by split_and!; [..|intros ? [= <-]].
  - simplify_eq. by split_and!.
Qed.

Lemma append_err log e er log' :
  append log e = (log', Err er) ->
  log' = log /\ exists inv v, invariants log !! tenant e = Some inv /\
    check inv (tenant_entries log (tenant e)) e = Err v /\ er = invariant_error v.
Proof.
  unfold append. intros E. destruct (invariants log !! tenant e) as [inv|] eqn:Ei; [|done].
  destruct (check inv _ e) as [[]|v] eqn:Ec; simplify_eq. eauto 6.
Qed.

Lemma append_wf log e : log_wf log -> log_wf (append log e).1.
Proof.
  unfold log_wf. intros Hw. destruct (append log e) as [log' [i|er]] eqn:E.
  - apply append_ok in E as (_ & E1 & E2 & _). simpl. by rewrite E1, E2, map_app, Hw.
  - by apply append_err in E as (-> & _).
Qed.

Lemma log_wf_length log : log_wf log -> length (leaves log) = length (entries log).
Proof. intros ->. by rewrite length_map. Qed.

Lemma log_wf_lookup log i e : log_wf log -> entries log !! i = Some e ->
  leaves log !! i = Some (Entry_leaf_hash e).
Proof. intros ->. intros E. apply list_lookup_fmap_Some_2. eauto. Qed.

Lemma log_wf_hash32 `{!Sha256Laws} log : log_wf log -> Forall hash32 (leaves log).
Proof. intros ->. apply Forall_map, Forall_true. intros e. apply sha256_length. Qed.
End LogInvariant.

(** ** Wire encodings *)

Section Wire.
Context `{Sha256, !Sha256Laws} `{Hex, !HexLaws}.

Lemma from_to_hex h : hash32 h -> from_hex (to_hex h) = Ok h.
Proof.
  intros Hh. unfold from_hex, to_hex. rewrite hex_decode_encode. simpl.
  unfold hash32 in Hh. by rewrite Hh.
Qed.

Lemma from_hex_hash32 s h : from_hex s = Ok h -> hash32 h.
Proof.
  unfold from_hex. intros E. rinv E. destruct (Nat.eqb_spec (length a) 32); by simplify_eq/=.
Qed.

Lemma decode_path_to_hex p : Forall hash32 p -> decode_path (map to_hex p) = Ok p.
Proof.
  intros Hp. unfold decode_path. rewrite (collect_results_map _ _ id).
  - by rewrite map_id.
  - intros c Hc. rewrite Forall_forall in Hp. apply from_to_hex, Hp. by apply list_elem_of_In.
Qed.

Lemma decode_path_hash32 hs p : decode_path hs = Ok p -> Forall hash32 p.
Proof. apply collect_results_Forall, from_hex_hash32. Qed.

Lemma hash32_log_root log : log_wf log -> hash32 (log_root log).
Proof.
  intros Hw. unfold log_root. destruct (decide (length (leaves log) = 0)) as [Hz|Hz].
  - apply nil_length_inv in Hz as ->. apply sha256_length.
  - apply Forall_root_hash; [lia|by apply log_wf_hash32].
Qed.

(** A tenant id short enough for its 32-bit length prefix. *)
Definition tenant_fits (e : Entry) : Prop :=
  (N.of_nat (length (as_bytes (tenant e))) < 2 ^ 32)%N.

Lemma Entry_encode_inj e1 e2 : tenant_fits e1 -> tenant_fits e2 ->
  Entry_encode e1 = Entry_encode e2 -> e1 = e2.
Proof.
  unfold tenant_fits, Entry_encode, as_u32. intros Hf1 Hf2 E.
  rewrite !N.mod_small in E by done.
  apply app_inj_len in E as [El E]; [|by rewrite !length_be_bytes].
  apply be_bytes_inj in El; [|done..]. apply app_inj_len in E as [Et Ed]; [|lia].
  destruct e1, e2. simpl in *. f_equal; [by apply as_bytes_inj|done].
Qed.
End Wire.

(** ** Theorems *)

Section LogTheorems.
Context `{Sha256, !Sha256Laws} `{Hex, !HexLaws}.

(** Entries as the log received them, [append] by [append]. *)
Fixpoint append_all (log : VerifiableLog) (es : list Entry) : VerifiableLog :=
  match es with [] => log | e :: es' => append_all (append log e).1 es' end.

(** [append] is all-or-nothing and append-only.  It either pushes the entry and its
    leaf hash at the end and returns the entry's index, or, exactly when the tenant's
    registered hook rejects the entry, returns that violation and leaves the log
    unchanged; the invariant tying leaves to entries is preserved either way. *)
Theorem append_spec (log : VerifiableLog) (e : Entry) :
  log_wf log ->
  log_wf (append log e).1 /\
  match append log e with
  | (log', Ok i) =>
      i = log_size log /\ entries log' = entries log ++ [e] /\
      log_entry log' i = Some e /\
      forall inv, invariants log !! tenant e = Some inv ->
        check inv (tenant_entries log (tenant e)) e = Ok tt
  | (log', Err er) =>
      log' = log /\ exists inv v, invariants log !! tenant e = Some inv /\
        check inv (tenant_entries log (tenant e)) e = Err v /\ er = invariant_error v
  end.
Proof.
  intros Hw. split; [by apply append_wf|]. destruct (append log e) as [log' [i|er]] eqn:E.
  - apply append_ok in E as (-> & E1 & _ & _ & Hc). split_and!; [done|done| |done].
    unfold log_entry. rewrite E1. by apply list_lookup_middle.
  - by apply append_err in E.
Qed.

(** The canonical leaf encoding is unambiguous: for tenant ids below 4 GiB, entries
    with the same encoding are equal. *)
Theorem entry_encoding_injective (e1 e2 : Entry) :
  tenant_fits e1 -> tenant_fits e2 -> Entry_encode e1 = Entry_encode e2 -> e1 = e2.
Proof. apply Entry_encode_inj. Qed.

(** The proof the log emits for an entry verifies against any head that carries the
    log's size and root. *)
Lemma inclusion_emitted log i e s :
  log_wf log -> log_entry log i = Some e ->
  tree_size s = N.of_nat (log_size log) -> sth_root_hash s = to_hex (log_root log) ->
  exists p, inclusion_proof log i = Ok p /\ leaf_index p = N.of_nat i /\
    verify_inclusion_proof e p s = true.
Proof.
  intros Hw He Hs Hr. pose proof (log_wf_lookup _ _ _ Hw He) as Hl.
  pose proof (lookup_lt_Some _ _ _ Hl) as Hi. unfold inclusion_proof.
  destruct (Nat.leb_spec (length (leaves log)) i); [lia|]. eexists. split_and!; [done..|].
  unfold verify_inclusion_proof, root_bytes. simpl. rewrite Hs, Hr. unfold log_size.
  rewrite <- log_wf_length by done.
  rewrite N.eqb_refl. simpl. rewrite from_to_hex by by apply hash32_log_root.
  rewrite decode_path_to_hex by (by apply inclusion_path_hash32, log_wf_hash32).
  rewrite !Nat2N.id. by apply inclusion_complete.
Qed.

Lemma root_at_ok log n : n <= length (leaves log) -> root_at log n = Ok (root_hash (take n (leaves log))).
Proof. intros Hn. unfold root_at. destruct (Nat.ltb_spec (length (leaves log)) n); [lia|done]. Qed.

Lemma hash32_root_at log n r : log_wf log -> root_at log n = Ok r -> hash32 r.
Proof.
  intros Hw. unfold root_at. destruct (Nat.ltb_spec (length (leaves log)) n); [done|]. intros [= <-].
  destruct (decide (length (take n (leaves log)) = 0)) as [Hz|Hz].
  - apply nil_length_inv in Hz as ->. apply sha256_length.
  - apply Forall_root_hash; [lia|]. by apply Forall_take, log_wf_hash32.
Qed.

(** The consistency proof the log emits between two sizes verifies between any heads
    that carry those sizes and roots. *)
Lemma consistency_emitted log m n s1 s2 r1 r2 :
  log_wf log -> 0 < m <= n -> n <= log_size log ->
  root_at log m = Ok r1 -> root_at log n = Ok r2 ->
  tree_size s1 = N.of_nat m -> sth_root_hash s1 = to_hex r1 ->
  tree_size s2 = N.of_nat n -> sth_root_hash s2 = to_hex r2 ->
  exists p, consistency_proof log m n = Ok p /\ verify_consistency_proof s1 s2 p = true.
Proof.
  intros Hw Hm Hn E1 E2 Hs1 Hr1 Hs2 Hr2.
  pose proof (hash32_root_at _ _ _ Hw E1) as Hh1. pose proof (hash32_root_at _ _ _ Hw E2) as Hh2.
  unfold log_size in Hn. rewrite <- log_wf_length in Hn by done.
  rewrite root_at_ok in E1, E2 by lia. injection E1 as <-. injection E2 as <-.
  unfold consistency_proof. destruct (Nat.eqb_spec m 0); [lia|]. destruct (Nat.ltb_spec n m); [lia|].
  destruct (Nat.ltb_spec (length (leaves log)) n); [lia|]. cbn [orb].
  eexists. split; [done|]. unfold verify_consistency_proof, root_bytes. simpl.
  rewrite Hs1, Hs2, Hr1, Hr2, !N.eqb_refl. simpl. rewrite !from_to_hex by done.
  assert (length (take n (leaves log)) = n) as E by (rewrite length_take; lia).
  rewrite decode_path_to_hex
    by (apply subproof_hash32; [by apply Forall_take, log_wf_hash32|lia]).
  rewrite !Nat2N.id.
  replace (take m (leaves log)) with (take m (take n (leaves log))) by (rewrite take_take; f_equal; lia).
  pose proof (consistency_complete m (take n (leaves log))) as HC. rewrite E in HC. apply HC. lia.
Qed.

(** End-to-end inclusion completeness.  For every entry of the log, the proof the
    log emits verifies against the head the log signs, after the trip through the hex
    wire format. *)
Theorem log_inclusion_verifies `{Ed25519} (log : VerifiableLog) (sk : SigningKey) (ts : N) (i : nat) (e : Entry) :
  log_wf log -> log_entry log i = Some e ->
  exists p, inclusion_proof log i = Ok p /\
    verify_inclusion_proof e p (signed_tree_head log sk ts) = true.
Proof.
  intros Hw He.
  destruct (inclusion_emitted log i e (signed_tree_head log sk ts)) as (p & ? & _ & ?); eauto.
Qed.

(** End-to-end consistency completeness.  For sizes [0 < m <= n <= size] the log
    emits a consistency proof, and it verifies between any two heads over those sizes
    and roots. *)
Theorem log_consistency_verifies `{Ed25519} (log : VerifiableLog) (sk : SigningKey) (ts1 ts2 : N) (ctx : bytes) (m n : nat) :
  log_wf log -> 0 < m <= n -> n <= log_size log ->
  exists p, consistency_proof log m n = Ok p /\
    exists r1 r2, root_at log m = Ok r1 /\ root_at log n = Ok r2 /\
      verify_consistency_proof (Sth_create_with_context sk (N.of_nat m) r1 ts1 ctx)
                               (Sth_create_with_context sk (N.of_nat n) r2 ts2 ctx) p = true.
Proof.
  intros Hw Hm Hn. pose proof Hn as Hn'. unfold log_size in Hn'. rewrite <- log_wf_length in Hn' by done.
  destruct (consistency_emitted log m n
    (Sth_create_with_context sk (N.of_nat m) (root_hash (take m (leaves log))) ts1 ctx)
    (Sth_create_with_context sk (N.of_nat n) (root_hash (take n (leaves log))) ts2 ctx)
    (root_hash (take m (leaves log))) (root_hash (take n (leaves log)))) as (p & ? & ?);
    try apply root_at_ok; try done; try lia.
  exists p. split; [done|]. do 2 eexists. split_and!; [apply root_at_ok; lia..|done].
Qed.

(** The preimages hashed when an entry's inclusion is checked against a log: the leaf
    preimages of the log and of the entry, the tree's nodes and the verifier's nodes. *)
Definition leaf_query (e : Entry) : bytes := [LEAF_PREFIX] ++ Entry_encode e.

Definition inclusion_check_queries (es : list Entry) (e : Entry) (p : InclusionProof) : list bytes :=
  (leaf_query e :: map leaf_query es) ++
  root_queries (map Entry_leaf_hash es) ++
  match decode_path (audit_path p) with
  | Ok path => inclusion_queries (N.to_nat (leaf_index p)) (length es - 1)
                 (Entry_leaf_hash e) path
  | Err _ => []
  end.

(** The root over a sequence of entries. *)
Definition entries_root (es : list Entry) : bytes := root_hash (map Entry_leaf_hash es).

Lemma log_root_entries log : log_wf log -> log_root log = entries_root (entries log).
Proof. unfold log_root, entries_root. by intros ->. Qed.

Lemma root_at_entries log n : log_wf log -> n <= log_size log ->
  root_at log n = Ok (entries_root (take n (entries log))).
Proof.
  intros Hw Hn. unfold log_size in Hn. rewrite <- log_wf_length in Hn by done.
  rewrite root_at_ok by done. unfold entries_root. rewrite Hw. do 2 f_equal.
  symmetry. apply fmap_take.
Qed.

(** An accepted inclusion proof against the root over [es] shows the entry in [es]. *)
Lemma inclusion_sound_entries es e p s :
  tenant_fits e -> Forall tenant_fits es ->
  root_bytes s = Ok (entries_root es) -> tree_size s = N.of_nat (length es) ->
  collision_free (inclusion_check_queries es e p) ->
  verify_inclusion_proof e p s = true ->
  es !! N.to_nat (leaf_index p) = Some e.
Proof.
  intros He Hes Hr Hs HQ. unfold verify_inclusion_proof.
  destruct (N.eqb_spec (ip_tree_size p) (tree_size s)) as [Et|]; [|done]. simpl. rewrite Hr.
  unfold inclusion_check_queries in HQ. destruct (decode_path (audit_path p)) as [path|] eqn:Ep; [|done].
  rewrite Et, Hs, Nat2N.id. intros HV. unfold entries_root in HV.
  rewrite <- (length_map Entry_leaf_hash es) in HV, HQ.
  apply inclusion_exact in HV as [HV _].
  2: { apply Forall_map, Forall_true. intros. apply sha256_length. }
  2: { apply sha256_length. }
  2: { by eapply decode_path_hash32. }
  2: { eapply collision_free_incl, HQ. intros q Hq. apply in_app_iff. auto. }
  apply list_lookup_fmap_Some in HV as (e' & E & He'). rewrite He'. f_equal. symmetry.
  apply Entry_encode_inj; [done|by eapply Forall_lookup_1 in Hes|].
  apply (app_inv_head [LEAF_PREFIX]). fold (leaf_query e) (leaf_query e').
  apply HQ; [by left| |exact E].
  right. apply in_app_iff. left. apply in_map, list_elem_of_In. by eapply list_elem_of_lookup_2.
Qed.

(** End-to-end inclusion soundness.  If an inclusion proof for [e] is accepted
    against a head that carries the root and size of an honest log, then, SHA-256 being
    collision free on the preimages involved, the log really holds [e] at the claimed
    index: a forged or relocated entry is rejected. *)
Theorem inclusion_proof_sound (log : VerifiableLog) (e : Entry) (p : InclusionProof) (s : Sth) :
  log_wf log -> tenant_fits e -> Forall tenant_fits (entries log) ->
  sth_root_hash s = to_hex (log_root log) -> tree_size s = N.of_nat (log_size log) ->
  collision_free (inclusion_check_queries (entries log) e p) ->
  verify_inclusion_proof e p s = true ->
  log_entry log (N.to_nat (leaf_index p)) = Some e.
Proof.
  intros Hw He Hes Hr Hs HQ. apply inclusion_sound_entries; try done.
  unfold root_bytes. rewrite Hr, from_to_hex by by apply hash32_log_root. by rewrite log_root_entries.
Qed.
End LogTheorems.

(** ** Signed tree heads *)

Section SthTheorems.
Context `{Hex, !HexLaws} `{Ed25519, !Ed25519Laws}.

Lemma sig_from_to_hex sk m : sig_from_hex (to_hex_sig (ed_sign sk m)) = Ok (ed_sign sk m).
Proof. unfold sig_from_hex, to_hex_sig. rewrite hex_decode_encode. simpl. by rewrite ed_sign_length. Qed.

Lemma verify_created sk size root ts ctx ctx' : hash32 root ->
  verify_with_context (Sth_create_with_context sk size root ts ctx) (verifying_key sk) ctx' =
  ed_verify (verifying_key sk) (signing_message_with_context ctx' size root ts)
    (ed_sign sk (signing_message_with_context ctx size root ts)).
Proof.
  intros Hr. unfold verify_with_context, root_bytes. simpl.
  by rewrite from_to_hex, sig_from_to_hex.
Qed.

(** A head signed under a context verifies under that context and the signer's key,
    and the public key survives its hex encoding. *)
Theorem sth_sign_verify (sk : SigningKey) (size : N) (root : bytes) (ts : N) (ctx : bytes) :
  hash32 root ->
  verify_with_context (Sth_create_with_context sk size root ts ctx) (verifying_key sk) ctx = true /\
  Sth_verify (Sth_create sk size root ts) (verifying_key sk) = true /\
  verifying_key_from_hex (hex_encode (vk_to_bytes (verifying_key sk))) = Ok (verifying_key sk).
Proof.
  intros Hr. unfold Sth_verify, Sth_create. rewrite !verify_created, !ed_verify_sign by done.
  split_and!; [done|done|]. unfold verifying_key_from_hex. rewrite hex_decode_encode. simpl.
  by rewrite vk_to_bytes_length, vk_from_to_bytes.
Qed.
End SthTheorems.

(** ** Evaluation on a concrete log *)

Section Concrete.

#[local] Definition sample_log : VerifiableLog :=
  let log := register_invariant VerifiableLog_new "commits" UniqueDataInvariant in
  let log := (append log (mkEntry "commits" (as_bytes "c0"))).1 in
  let log := (append log (mkEntry "keys" (as_bytes "k0"))).1 in
  (append log (mkEntry "commits" (as_bytes "c1"))).1.

#[local] Definition sample_key : SigningKey := ClearSig.repeat_seed x07.

Lemma sample_log_wf : log_wf sample_log.
Proof. vm_compute. reflexivity. Qed.

Lemma append_spec_witness :
  log_wf (append sample_log (mkEntry "commits" (as_bytes "c0"))).1 /\
  is_ok (append sample_log (mkEntry "commits" (as_bytes "c0"))).2 = false /\
  is_ok (append sample_log (mkEntry "commits" (as_bytes "c2"))).2 = true.
Proof.
  split; [|split; vm_compute; reflexivity].
  exact (proj1 (append_spec sample_log (mkEntry "commits" (as_bytes "c0")) sample_log_wf)).
Defined.

Lemma log_consistency_verifies_witness :
  exists p r1 r2, consistency_proof sample_log 2 3 = Ok p /\
    root_at sample_log 2 = Ok r1 /\ root_at sample_log 3 = Ok r2 /\
    verify_consistency_proof (Sth_create_with_context sample_key 2 r1 10 STH_DOMAIN)
      (Sth_create_with_context sample_key 3 r2 11 STH_DOMAIN) p = true.
Proof.
  destruct (log_consistency_verifies sample_log sample_key 10 11 STH_DOMAIN 2 3 sample_log_wf)
    as (p & Hp & r1 & r2 & H1 & H2 & Hv); [lia|vm_compute; lia|].
  exists p, r1, r2. exact (conj Hp (conj H1 (conj H2 Hv))).
Defined.

Lemma inclusion_proof_sound_witness :
  exists p, inclusion_proof sample_log 1 = Ok p /\
    log_entry sample_log (N.to_nat (leaf_index p)) = Some (mkEntry "keys" (as_bytes "k0")).
Proof.
  destruct (inclusion_proof sample_log 1) as [p|] eqn:E; [|vm_compute in E; discriminate E].
  exists p. split; [reflexivity|]. vm_compute in E. injection E as <-.
  apply (inclusion_proof_sound sample_log (mkEntry "keys" (as_bytes "k0")) _
    (signed_tree_head sample_log sample_key 12) sample_log_wf).
  - vm_compute. reflexivity.
  - repeat constructor; vm_compute; reflexivity.
  - vm_compute. reflexivity.
  - vm_compute. reflexivity.
  - apply collision_freeb_spec. vm_compute. reflexivity.
  - vm_compute. reflexivity.
Defined.
End Concrete.
