(* ===== verification/Tenants.v ===== *)
(** * verifiable-log-builder: the three tenants

    Models [commit_log.rs], [account_key.rs] and [binaries.rs]: the leaf records, their
    [encode]/[decode]/[to_entry] (over [serde_json], a parameter), the per-tenant STH
    contexts and the three [TenantInvariant] implementations with their error messages.

    [TenantRule] is the interface between a tenant and the log: a rule on the tenant's
    entry sequence that every append accepted by the hook preserves.  [log_rule] gives
    every log grown by [append] the rules of its registered tenants. *)

From stdpp Require Import base list strings gmap pretty.
From Stdlib Require Import NArith ZArith Lia ZifyNat ZifyN.
From Stdlib Require Import Strings.Byte.
From S2P Require Import Prelude Crypto Merkle Log.

(** [format!] with already formatted pieces. *)
Definition fmt (parts : list string) : string := String.concat "" parts.

(** ** commit_log.rs *)

Module CommitLog.

Definition TENANT : string := "mls-commit-log".

Record CommitLeaf := mkCommitLeaf {
  conversation_id : string;
  epoch : N;
  sender_id : string;
  seq : Z;
  commit_sha256 : string
}.

#[global] Instance CommitLeaf_eq_dec : EqDecision CommitLeaf.
Proof. solve_decision. Defined.

Section Ops.
Context `{!SerdeJson CommitLeaf}.

Definition encode (l : CommitLeaf) : Result bytes JsonError := to_vec l.

Definition decode (b : bytes) : Result CommitLeaf JsonError := from_slice b.

Definition to_entry (l : CommitLeaf) : Result Entry JsonError :=
  let? b := encode l in Ok (mkEntry TENANT b).

Definition parse (e : Entry) : Result CommitLeaf InvariantViolation :=
  map_err (fun er => mkViolation TENANT (fmt ["malformed commit-log leaf: "; json_error_display er]))
          (decode (data e)).

Fixpoint check_loop (cand : CommitLeaf) (existing : list Entry) : Result unit InvariantViolation :=
  match existing with
  | [] => Ok tt
  | prev_entry :: rest =>
      let? prev := parse prev_entry in
      if negb (bool_decide (conversation_id prev = conversation_id cand)) then check_loop cand rest
      else if (epoch prev =? epoch cand)%N then
        Err (mkViolation TENANT
          (fmt ["fork in conversation `"; conversation_id cand; "` at epoch "; pretty (epoch cand);
                ": seq "; pretty (seq cand); " conflicts with seq "; pretty (seq prev)]))
      else if (epoch cand <? epoch prev)%N then
        Err (mkViolation TENANT
          (fmt ["epoch regression in conversation `"; conversation_id cand; "`: seq ";
                pretty (seq cand); " is epoch "; pretty (epoch cand); " but seq ";
                pretty (seq prev); " already reached epoch "; pretty (epoch prev)]))
      else check_loop cand rest
  end.

Definition CommitLogInvariant : TenantInvariant := {|
  check existing candidate := let? cand := parse candidate in check_loop cand existing
|}.
End Ops.
End CommitLog.

(** ** account_key.rs *)

Module AccountKey.

Definition TENANT : string := "account-key".

Definition STH_CONTEXT : bytes := as_bytes "pollis-verifiable-log:sth:v1:account-keys".

Record AccountKeyLeaf := mkAccountKeyLeaf {
  user_id : string;
  identity_version : N;
  account_id_pub : string;
  seq : Z
}.

#[global] Instance AccountKeyLeaf_eq_dec : EqDecision AccountKeyLeaf.
Proof. solve_decision. Defined.

Section Ops.
Context `{!SerdeJson AccountKeyLeaf}.

Definition encode (l : AccountKeyLeaf) : Result bytes JsonError := to_vec l.

Definition decode (b : bytes) : Result AccountKeyLeaf JsonError := from_slice b.

Definition to_entry (l : AccountKeyLeaf) : Result Entry JsonError :=
  let? b := encode l in Ok (mkEntry TENANT b).

Definition parse (e : Entry) : Result AccountKeyLeaf InvariantViolation :=
  map_err (fun er => mkViolation TENANT (fmt ["malformed account-key leaf: "; json_error_display er]))
          (decode (data e)).

Fixpoint check_loop (cand : AccountKeyLeaf) (existing : list Entry) : Result unit InvariantViolation :=
  match existing with
  | [] => Ok tt
  | prev_entry :: rest =>
      let? prev := parse prev_entry in
      if negb (bool_decide (user_id prev = user_id cand)) then check_loop cand rest
      else if (identity_version prev =? identity_version cand)%N then
        Err (mkViolation TENANT
          (fmt ["duplicate identity_version for user `"; user_id cand; "`: version ";
                pretty (identity_version cand); " at seq "; pretty (seq cand);
                " conflicts with seq "; pretty (seq prev)]))
      else if (identity_version cand <? identity_version prev)%N then
        Err (mkViolation TENANT
          (fmt ["identity_version regression for user `"; user_id cand; "`: seq ";
                pretty (seq cand); " is version "; pretty (identity_version cand);
                " but seq "; pretty (seq prev); " already reached version ";
                pretty (identity_version prev)]))
      else check_loop cand rest
  end.

Definition AccountKeyInvariant : TenantInvariant := {|
  check existing candidate := let? cand := parse candidate in check_loop cand existing
|}.
End Ops.
End AccountKey.

(** ** binaries.rs *)

Module Binaries.

Definition TENANT : string := "binaries".

Definition STH_CONTEXT : bytes := as_bytes "pollis-verifiable-log:sth:v1:binaries".

Inductive Layer : Type := Payload | Signed | Exe.

#[global] Instance Layer_eq_dec : EqDecision Layer.
Proof. solve_decision. Defined.

(** [{:?}] of a layer. *)
Definition Layer_debug (l : Layer) : string :=
  match l with Payload => "Payload" | Signed => "Signed" | Exe => "Exe" end.

Record Toolchain := mkToolchain {
  rustc : string;
  node : string;
  pnpm : string;
  runner_image : string;
  source_date_epoch : N
}.

Record BinaryRecord := mkBinaryRecord {
  release_tag : string;
  commit : string;
  platform : string;
  arch : string;
  bundle : string;
  artifact_name : string;
  layer : Layer;
  payload_sha256 : string;
  artifact_sha256 : string;
  toolchain : Toolchain;
  provenance_uri : string
}.

#[global] Instance Toolchain_eq_dec : EqDecision Toolchain.
Proof. solve_decision. Defined.

#[global] Instance BinaryRecord_eq_dec : EqDecision BinaryRecord.
Proof. solve_decision. Defined.

Definition fork_key (r : BinaryRecord) : string * string * string * string * Layer :=
  (release_tag r, platform r, arch r, bundle r, layer r).

Section Ops.
Context `{!SerdeJson BinaryRecord}.

Definition encode (l : BinaryRecord) : Result bytes JsonError := to_vec l.

Definition decode (b : bytes) : Result BinaryRecord JsonError := from_slice b.

Definition to_entry (l : BinaryRecord) : Result Entry JsonError :=
  let? b := encode l in Ok (mkEntry TENANT b).

Definition parse (e : Entry) : Result BinaryRecord InvariantViolation :=
  map_err (fun er => mkViolation TENANT (fmt ["malformed binary leaf: "; json_error_display er]))
          (decode (data e)).

(** The walk over prior leaves: [cand_tag_seen], [last_tag] and [payload_seen]. *)
Fixpoint walk (cand : BinaryRecord) (existing : list Entry)
    (cand_tag_seen : bool) (last_tag : option string) (payload_seen : bool)
    : Result (bool * option string * bool) InvariantViolation :=
  match existing with
  | [] => Ok (cand_tag_seen, last_tag, payload_seen)
  | prev_entry :: rest =>
      let? prev := parse prev_entry in
      if bool_decide (fork_key prev = fork_key cand) &&
         negb (bool_decide (artifact_sha256 prev = artifact_sha256 cand))
      then Err (mkViolation TENANT
        (fmt ["fork for "; release_tag cand; "/"; platform cand; "/"; arch cand; "/"; bundle cand;
              " ("; Layer_debug (layer cand); "): artifact_sha256 "; artifact_sha256 cand;
              " conflicts with earlier "; artifact_sha256 prev]))
      else
        walk cand rest
          (cand_tag_seen || bool_decide (release_tag prev = release_tag cand))
          (Some (release_tag prev))
          (payload_seen || (bool_decide (layer prev = Payload) &&
                            bool_decide (payload_sha256 prev = payload_sha256 cand)))
  end.

Definition check_records (existing : list Entry) (candidate : Entry) : Result unit InvariantViolation :=
  let? cand := parse candidate in
  let? w := walk cand existing false None false in
  let '(cand_tag_seen, last_tag, payload_seen) := w in
  let moved_on :=
    match last_tag with Some t => negb (bool_decide (t = release_tag cand)) | None => false end in
  if cand_tag_seen && moved_on then
    Err (mkViolation TENANT
      (fmt ["release_tag `"; release_tag cand; "` reappears out of publish order (current tag is `";
            default "" last_tag; "`)"]))
  else if negb (bool_decide (layer cand = Payload)) && negb payload_seen then
    Err (mkViolation TENANT
      (fmt [Layer_debug (layer cand); " artifact `"; artifact_name cand; "` ("; release_tag cand;
            ") has no matching payload leaf with payload_sha256 "; payload_sha256 cand]))
  else Ok tt.

Definition BinaryInvariant : TenantInvariant := {| check := check_records |}.
End Ops.
End Binaries.

(** ** The interface between a tenant and the log

    A tenant hook enforces a rule on the tenant's entry sequence when, on a sequence that
    keeps the rule, it accepts exactly the entries that keep it. *)

Class TenantRule (inv : TenantInvariant) (Rule : list Entry -> Prop) : Prop := {
  rule_nil : Rule [];
  rule_prefix es e : Rule (es ++ [e]) -> Rule es;
  rule_snoc es e : Rule es -> check inv es e = Ok tt <-> Rule (es ++ [e])
}.

Lemma tenant_entries_snoc log e l i t :
  tenant_entries (mkLog (entries log ++ [e]) l i) t =
  tenant_entries log t ++ (if bool_decide (tenant e = t) then [e] else []).
Proof.
  unfold tenant_entries. simpl. rewrite List.filter_app. simpl. by case_bool_decide.
Qed.

Lemma tenant_entries_ext log log' t : entries log = entries log' ->
  tenant_entries log t = tenant_entries log' t.
Proof. unfold tenant_entries. by intros ->. Qed.

Section Rules.
Context `{Sha256}.

Lemma append_rule log e t inv Rule `{!TenantRule inv Rule} :
  invariants log !! t = Some inv -> Rule (tenant_entries log t) ->
  Rule (tenant_entries (append log e).1 t).
Proof.
  intros Hi HR. destruct (append log e) as [log' [i|er]] eqn:E; simpl.
  - apply append_ok in E as (_ & E1 & E2 & _ & Hc).
    erewrite (tenant_entries_ext log' (mkLog (entries log ++ [e]) [] ∅)) by done.
    rewrite tenant_entries_snoc. case_bool_decide as Ht; [|by rewrite app_nil_r].
    subst t. apply rule_snoc; [done|]. by apply Hc.
  - by apply append_err in E as [-> _].
Qed.

Lemma append_invariants log e : invariants (append log e).1 = invariants log.
Proof.
  destruct (append log e) as [log' [i|er]] eqn:E; simpl.
  - by apply append_ok in E as (_ & _ & _ & E & _).
  - by apply append_err in E as [-> _].
Qed.

(** Every log grown by [append] keeps the rules of its registered tenants. *)
Lemma log_rule es log t inv Rule `{!TenantRule inv Rule} :
  invariants log !! t = Some inv -> Rule (tenant_entries log t) ->
  Rule (tenant_entries (append_all log es) t).
Proof.
  revert log; induction es as [|e es IH]; intros log Hi HR; [done|]. cbn [append_all].
  apply IH; [by rewrite append_invariants|]. by eapply append_rule.
Qed.
End Rules.

(** [log.append(entry)?] over a list of entries stops at the first rejection. *)
Fixpoint append_each `{Sha256} (log : VerifiableLog) (es : list Entry) : Result VerifiableLog Error :=
  match es with
  | [] => Ok log
  | e :: es' =>
      match append log e with
      | (log', Ok _) => append_each log' es'
      | (_, Err er) => Err er
      end
  end.

Section AppendEach.
Context `{Sha256}.

Lemma append_each_ok log es log' : append_each log es = Ok log' ->
  entries log' = entries log ++ es /\ invariants log' = invariants log /\
  (log_wf log -> log_wf log') /\ append_all log es = log'.
Proof.
  revert log; induction es as [|e es IH]; simpl; intros log E.
  { simplify_eq. by rewrite app_nil_r. }
  pose proof (append_wf log e) as Hw. destruct (append log e) as [log1 [i|er]] eqn:Ea; [|done].
  apply append_ok in Ea as (_ & E1 & E2 & E3 & _). apply IH in E as (Ee & Ei & Hwf & Hall).
  split_and!; [|congruence|auto|done]. by rewrite Ee, E1, <- app_assoc.
Qed.

Lemma rule_app_prefix inv Rule `{!TenantRule inv Rule} es es' : Rule (es ++ es') -> Rule es.
Proof.
  induction es' as [|e es' IH] using rev_ind; [by rewrite app_nil_r|].
  rewrite app_assoc. intros Hr%rule_prefix. auto.
Qed.

(** Entries of one tenant can all be appended exactly when they keep its rule. *)
Lemma append_each_rule inv Rule `{!TenantRule inv Rule} t es log :
  invariants log !! t = Some inv -> Rule (tenant_entries log t) -> Forall (fun e => tenant e = t) es ->
  (exists log', append_each log es = Ok log') <-> Rule (tenant_entries log t ++ es).
Proof.
  intros Hi. revert log Hi; induction es as [|e es IH]; intros log Hi HR Ht.
  { rewrite app_nil_r. split; [done|]. intros _. by exists log. }
  apply Forall_cons_1 in Ht as [Hte Ht]. cbn [append_each].
  assert (Rule (tenant_entries log t ++ e :: es) -> check inv (tenant_entries log t) e = Ok tt) as Hk.
  { intros Hr. apply rule_snoc; [done|]. apply (rule_app_prefix inv Rule _ es). by rewrite <- app_assoc. }
  destruct (append log e) as [log1 [i|er]] eqn:Ea.
  - pose proof (append_rule log e t inv Rule Hi HR) as HR1. rewrite Ea in HR1. simpl in HR1.
    apply append_ok in Ea as (_ & E1 & _ & E2 & _).
    assert (tenant_entries log1 t = tenant_entries log t ++ [e]) as Et.
    { erewrite (tenant_entries_ext log1 (mkLog (entries log ++ [e]) [] ∅)) by done.
      by rewrite tenant_entries_snoc, bool_decide_eq_true_2. }
    rewrite IH by (try done; congruence). rewrite Et. by rewrite <- app_assoc.
  - split; [by intros [? ?]|]. intros Hr%Hk.
    apply append_err in Ea as (_ & inv' & v & Hi' & Hc & _). rewrite Hte in Hi', Hc. congruence.
Qed.
End AppendEach.

(** The example hook of the log crate: payloads are unique. *)
#[global] Instance unique_rule : TenantRule UniqueDataInvariant (fun es => NoDup (map data es)).
Proof.
  split; [constructor|intros es e; rewrite map_app, NoDup_app; tauto|].
  intros es e Hn. simpl. rewrite map_app, NoDup_app. simpl.
  destruct (existsb _ es) eqn:Ee.
  - split; [done|]. intros (_ & Hd & _). apply existsb_exists in Ee as (e' & Hin & Hb). breflect.
    exfalso. apply (Hd (data e')); [|rewrite Hb; by left].
    by apply list_elem_of_In, in_map.
  - split; [|done]. intros _. split_and!; [done| |by apply NoDup_singleton].
    intros x (e' & E' & Hin%list_elem_of_In)%list_elem_of_fmap E%list_elem_of_singleton.
    assert (existsb (fun e0 => bool_decide (data e0 = data e)) es = true) as Hx; [|congruence].
    apply existsb_exists. exists e'. split; [done|]. apply bool_decide_eq_true. congruence.
Qed.

(** ** The commit-log rule: one linear chain of epochs per conversation *)

Section CommitLogRule.
Context `{!SerdeJson CommitLog.CommitLeaf}.
Import CommitLog.

Definition commit_before (a b : CommitLeaf) : Prop :=
  conversation_id a = conversation_id b -> (epoch a < epoch b)%N.

Definition CommitRule (es : list Entry) : Prop :=
  exists ls, collect_results parse es = Ok ls /\ ordered commit_before ls.

Lemma commit_check_loop cand es ls : collect_results parse es = Ok ls ->
  check_loop cand es = Ok tt <-> Forall (fun p => commit_before p cand) ls.
Proof.
  unfold commit_before. revert ls; induction es as [|e es IH]; simpl; intros ls Hp.
  { simplify_eq. by split. }
  rinv Hp. simplify_eq. simpl. rewrite Forall_cons, <- (IH _ eq_refl).
  destruct (decide (conversation_id a = conversation_id cand)) as [Hc|Hc].
  - rewrite bool_decide_eq_true_2 by done. simpl.
    destruct (N.eqb_spec (epoch a) (epoch cand)); [split; [done|]; intros [Hl _]; specialize (Hl Hc); lia|].
    destruct (N.ltb_spec (epoch cand) (epoch a)); [split; [done|]; intros [Hl _]; specialize (Hl Hc); lia|].
    split; [intros ?; split; [lia|done]|by intros [_ ?]].
  - rewrite bool_decide_eq_false_2 by done. simpl. split; [intros ?; split; [done|done]|by intros [_ ?]].
Qed.

#[global] Instance commit_rule : TenantRule CommitLogInvariant CommitRule.
Proof.
  split; [exists []; split; [done|apply ordered_nil]| |].
  { intros es e (ls & (ls0 & c & Hp & _ & ->)%collect_results_snoc & [Ho _]%ordered_snoc). by exists ls0. }
  intros es e (ls & Hp & Ho). unfold CommitRule. simpl. split.
  - intros H. rinv H. apply (commit_check_loop _ _ _ Hp) in H.
    exists (ls ++ [a]). split; [apply collect_results_snoc; eauto|by apply ordered_snoc].
  - intros (ls' & Hp' & Ho'). apply collect_results_snoc in Hp' as (ls0 & a & Hp' & Ha & ->).
    rewrite Hp' in Hp. simplify_eq. rewrite Ha. simpl.
    apply ordered_snoc in Ho' as [_ Hf]. by eapply commit_check_loop.
Qed.
End CommitLogRule.

(** ** The account-key rule: strictly increasing versions per user *)

Section AccountKeyRule.
Context `{!SerdeJson AccountKey.AccountKeyLeaf}.
Import AccountKey.

Definition key_before (a b : AccountKeyLeaf) : Prop :=
  user_id a = user_id b -> (identity_version a < identity_version b)%N.

Definition AccountRule (es : list Entry) : Prop :=
  exists ls, collect_results parse es = Ok ls /\ ordered key_before ls.

Lemma account_check_loop cand es ls : collect_results parse es = Ok ls ->
  check_loop cand es = Ok tt <-> Forall (fun p => key_before p cand) ls.
Proof.
  unfold key_before. revert ls; induction es as [|e es IH]; simpl; intros ls Hp.
  { simplify_eq. by split. }
  rinv Hp. simplify_eq. simpl. rewrite Forall_cons, <- (IH _ eq_refl).
  destruct (decide (user_id a = user_id cand)) as [Hc|Hc].
  - rewrite bool_decide_eq_true_2 by done. simpl.
    destruct (N.eqb_spec (identity_version a) (identity_version cand));
      [split; [done|]; intros [Hl _]; specialize (Hl Hc); lia|].
    destruct (N.ltb_spec (identity_version cand) (identity_version a));
      [split; [done|]; intros [Hl _]; specialize (Hl Hc); lia|].
    split; [intros ?; split; [lia|done]|by intros [_ ?]].
  - rewrite bool_decide_eq_false_2 by done. simpl. split; [intros ?; split; [done|done]|by intros [_ ?]].
Qed.

#[global] Instance account_rule : TenantRule AccountKeyInvariant AccountRule.
Proof.
  split; [exists []; split; [done|apply ordered_nil]| |].
  { intros es e (ls & (ls0 & c & Hp & _ & ->)%collect_results_snoc & [Ho _]%ordered_snoc). by exists ls0. }
  intros es e (ls & Hp & Ho). unfold AccountRule. simpl. split.
  - intros H. rinv H. apply (account_check_loop _ _ _ Hp) in H.
    exists (ls ++ [a]). split; [apply collect_results_snoc; eauto|by apply ordered_snoc].
  - intros (ls' & Hp' & Ho'). apply collect_results_snoc in Hp' as (ls0 & a & Hp' & Ha & ->).
    rewrite Hp' in Hp. simplify_eq. rewrite Ha. simpl.
    apply ordered_snoc in Ho' as [_ Hf]. by eapply account_check_loop.
Qed.
End AccountKeyRule.

(** ** The binaries rule: no fork, contiguous tags, a payload before each artifact *)

Section BinariesRule.
Context `{!SerdeJson Binaries.BinaryRecord}.
Import Binaries.

Definition no_fork (a b : BinaryRecord) : Prop :=
  fork_key a = fork_key b -> artifact_sha256 a = artifact_sha256 b.

(** A release tag that comes back never left. *)
Definition tags_contiguous (ls : list BinaryRecord) : Prop :=
  forall i j k x y z, i <= j <= k ->
    ls !! i = Some x -> ls !! j = Some y -> ls !! k = Some z ->
    release_tag x = release_tag z -> release_tag y = release_tag z.

Definition is_payload_for (r p : BinaryRecord) : Prop :=
  layer p = Payload /\ payload_sha256 p = payload_sha256 r.

Definition payloads_paired (ls : list BinaryRecord) : Prop :=
  forall j r, ls !! j = Some r -> layer r <> Payload ->
    exists i p, i < j /\ ls !! i = Some p /\ is_payload_for r p.

Definition BinaryRule (es : list Entry) : Prop :=
  exists ls, collect_results parse es = Ok ls /\
    ordered no_fork ls /\ tags_contiguous ls /\ payloads_paired ls.

(** What the walk computes over the parsed records. *)
Lemma walk_spec cand es ls c t p : collect_results parse es = Ok ls ->
  match walk cand es c t p with
  | Ok (c', t', p') =>
      Forall (fun r => no_fork r cand) ls /\
      (c' = true <-> c = true \/ exists r, r ∈ ls /\ release_tag r = release_tag cand) /\
      t' = match last ls with Some r => Some (release_tag r) | None => t end /\
      (p' = true <-> p = true \/ exists r, r ∈ ls /\ is_payload_for cand r)
  | Err _ => ~ Forall (fun r => no_fork r cand) ls
  end.
Proof.
  unfold no_fork, is_payload_for. revert ls c t p; induction es as [|e es IH]; simpl; intros ls c t p Hp.
  { simplify_eq. split_and!; [done| |done|]; (split; [by left|]); (intros [?|(r & Hr & _)]; [done|by apply elem_of_nil in Hr]). }
  rinv Hp. simplify_eq. simpl. destruct (decide (fork_key a = fork_key cand)) as [Hf|Hf];
    destruct (decide (artifact_sha256 a = artifact_sha256 cand)) as [Hs|Hs];
    rewrite ?(bool_decide_eq_true_2 (fork_key _ = _)), ?(bool_decide_eq_false_2 (fork_key _ = _)),
      ?(bool_decide_eq_true_2 (artifact_sha256 _ = _)), ?(bool_decide_eq_false_2 (artifact_sha256 _ = _)) by done;
    cbn [andb negb].
  2: { rewrite Forall_cons. tauto. }
  all: match goal with |- context [walk ?r ?es ?c ?t ?p] =>
         specialize (IH _ c t p eq_refl); destruct (walk r es c t p) as [[[c' t'] p']|] end;
       [destruct IH as (Hn & Hc & Ht & Hpp)|rewrite Forall_cons; tauto].
  all: split_and!; [by constructor| | |].
  all: try (rewrite Hc, exists_elem_cons, orb_true_iff, bool_decide_eq_true; tauto).
  all: try (rewrite Hpp, exists_elem_cons, orb_true_iff, andb_true_iff, !bool_decide_eq_true; tauto).
  all: rewrite Ht, last_cons; by destruct (last _).
Qed.

Lemma tags_snoc ls c : tags_contiguous ls ->
  tags_contiguous (ls ++ [c]) <->
  ((exists r, r ∈ ls /\ release_tag r = release_tag c) ->
   exists r, last ls = Some r /\ release_tag r = release_tag c).
Proof.
  intros Hc. split.
  - intros Hc' (r & [i Hi]%list_elem_of_lookup & Ht). pose proof (lookup_lt_Some _ _ _ Hi) as Hl.
    destruct (last ls) as [q|] eqn:Eq; [|apply last_None in Eq as ->; done].
    exists q. split; [done|]. rewrite last_lookup in Eq.
    eapply (Hc' i (pred (length ls)) (length ls)); [lia|..|done].
    + by apply lookup_app_l_Some.
    + by apply lookup_app_l_Some.
    + by apply list_lookup_middle.
  - intros Hs i j k x y z Hijk Hx Hy Hz Ht.
    apply lookup_app_Some in Hz as [Hz|[Hl Hz]].
    + pose proof (lookup_lt_Some _ _ _ Hz). rewrite lookup_app_l in Hx, Hy by lia.
      by apply (Hc i j k x y z).
    + apply list_lookup_singleton_Some in Hz as [Hz ->].
      apply lookup_app_Some in Hy as [Hy|[_ [_ ->]%list_lookup_singleton_Some]]; [|done].
      pose proof (lookup_lt_Some _ _ _ Hy). rewrite lookup_app_l in Hx by lia.
      destruct Hs as (q & Hq & Htq); [exists x; split; [by eapply list_elem_of_lookup_2|done]|].
      rewrite last_lookup in Hq. rewrite <- Htq.
      apply (Hc i j (pred (length ls)) x y q); [lia|done..|congruence].
Qed.

Lemma payloads_snoc ls c :
  payloads_paired (ls ++ [c]) <->
  payloads_paired ls /\ (layer c <> Payload -> exists r, r ∈ ls /\ is_payload_for c r).
Proof.
  split.
  - intros Hp. split.
    + intros j r Hr Hl. destruct (Hp j r) as (i & p & Hi & Hip & Hpp); [by apply lookup_app_l_Some|done|].
      rewrite lookup_app_l in Hip by (apply lookup_lt_Some in Hr; lia). eauto.
    + intros Hl. destruct (Hp (length ls) c) as (i & p & Hi & Hip & Hpp); [by apply list_lookup_middle|done|].
      rewrite lookup_app_l in Hip by lia. exists p. split; [by eapply list_elem_of_lookup_2|done].
  - intros [Hp Hc] j r [Hr|[Hj [_ <-]%list_lookup_singleton_Some]]%lookup_app_Some Hl.
    + destruct (Hp j r) as (i & p & ? & ? & ?); [done..|]. exists i, p. split_and!; [done| |done].
      by apply lookup_app_l_Some.
    + destruct (Hc Hl) as (p & [i Hi]%list_elem_of_lookup & Hpp). exists i, p.
      split_and!; [apply lookup_lt_Some in Hi; lia|by apply lookup_app_l_Some|done].
Qed.

(** The out-of-order test of [check_records], on the parsed records. *)
Lemma reappears_spec ls c ct :
  (ct = true <-> exists r, r ∈ ls /\ release_tag r = release_tag c) ->
  ct && match (match last ls with Some r => Some (release_tag r) | None => None end) with
        | Some t => negb (bool_decide (t = release_tag c)) | None => false end = false <->
  ((exists r, r ∈ ls /\ release_tag r = release_tag c) ->
   exists r, last ls = Some r /\ release_tag r = release_tag c).
Proof.
  intros Hct. rewrite <- not_true_iff_false, andb_true_iff, Hct.
  destruct (last ls) as [q|] eqn:El.
  - rewrite negb_true_iff, bool_decide_eq_false. split.
    + intros Hn Hx. destruct (decide (release_tag q = release_tag c)); [eauto|]. exfalso. by apply Hn.
    + intros Hx [(r & Hr & Ht)%Hx Hn]. by simplify_eq.
  - apply last_None in El as ->. split; [|by intros _ [_ ?]].
    by intros _ (? & ?%elem_of_nil & _).
Qed.

Lemma check_records_spec es e ls c :
  collect_results parse es = Ok ls -> parse e = Ok c -> tags_contiguous ls -> payloads_paired ls ->
  ordered no_fork ls ->
  check_records es e = Ok tt <->
  ordered no_fork (ls ++ [c]) /\ tags_contiguous (ls ++ [c]) /\ payloads_paired (ls ++ [c]).
Proof.
  intros Hp Epe Hc Hq Hf. unfold check_records. rewrite Epe. simpl.
  rewrite ordered_snoc, tags_snoc, payloads_snoc by done.
  pose proof (walk_spec c es ls false None false Hp) as Hw.
  destruct (walk c es false None false) as [[[ct lt] ps]|]; simpl; [|split; [done|tauto]].
  destruct Hw as (Hnf & Hct & -> & Hps).
  rewrite <- (reappears_spec ls c ct) by (rewrite Hct; naive_solver).
  destruct (ct && _); [split; [done|]; by intros (_ & ? & _)|].
  destruct (decide (layer c = Payload)) as [Hl|Hl].
  - rewrite bool_decide_eq_true_2 by done. simpl. tauto.
  - rewrite bool_decide_eq_false_2 by done. simpl. destruct ps; simpl.
    + split; [|done]. intros _. split_and!; [done..|]. intros _. destruct (proj1 Hps eq_refl) as [?|?]; [done|assumption].
    + split; [done|]. intros (_ & _ & _ & Hx). discriminate (proj2 Hps (or_intror (Hx Hl))).
Qed.

#[global] Instance binary_rule : TenantRule BinaryInvariant BinaryRule.
Proof.
  split.
  { exists []. split_and!; [done|apply ordered_nil|by intros ????????|by intros ??]. }
  { intros es e (ls & (ls0 & c & Hp & _ & ->)%collect_results_snoc & [Ho _]%ordered_snoc & Ht & [Hq _]%payloads_snoc).
    exists ls0. split_and!; try done. intros i j k x y z Hijk Hx Hy Hz.
    apply (Ht i j k); try done; by apply lookup_app_l_Some. }
  intros es e (ls & Hp & Hf & Hc & Hq). unfold BinaryRule. simpl. split.
  - intros Hk. assert (exists c, parse e = Ok c) as [c Ec].
    { unfold check_records in Hk. rinv Hk. eauto. }
    exists (ls ++ [c]). split; [apply collect_results_snoc; eauto|]. by eapply check_records_spec.
  - intros (ls' & Hp' & Hr). apply collect_results_snoc in Hp' as (ls0 & c & Hp' & Ec & ->).
    rewrite Hp in Hp'. simplify_eq. by eapply check_records_spec.
Qed.
End BinariesRule.

(** ** Theorems *)

(** A log that starts empty with one hook registered. *)
Abbreviation fresh_log t inv := (register_invariant VerifiableLog_new t inv).

Section Theorems.
Context `{Sha256}.

(** [append] accepts an entry of a registered tenant exactly when it keeps the rule. *)
Lemma append_accepts inv Rule `{!TenantRule inv Rule} log e :
  invariants log !! tenant e = Some inv -> Rule (tenant_entries log (tenant e)) ->
  is_ok (append log e).2 = true <-> Rule (tenant_entries log (tenant e) ++ [e]).
Proof.
  intros Hi HR. rewrite <- rule_snoc by done. unfold append. rewrite Hi.
  by destruct (check inv _ e) as [[]|v].
Qed.

Lemma fresh_log_rule t inv Rule `{!TenantRule inv Rule} es :
  Rule (tenant_entries (append_all (fresh_log t inv) es) t).
Proof. apply (log_rule _ _ _ inv Rule); [by apply lookup_insert_eq|apply rule_nil]. Qed.

Lemma fresh_log_invariants t inv es :
  invariants (append_all (fresh_log t inv) es) !! t = Some inv.
Proof.
  enough (forall log, invariants (append_all log es) = invariants log) as -> by by apply lookup_insert_eq.
  induction es as [|e es IH]; simpl; intros log; [done|]. by rewrite IH, append_invariants.
Qed.

(** What [append] has let into a fresh log, and what it lets in next. *)
Lemma fresh_log_accepts t inv Rule `{!TenantRule inv Rule} es e : tenant e = t ->
  let log := append_all (fresh_log t inv) es in
  is_ok (append log e).2 = true <-> Rule (tenant_entries log t ++ [e]).
Proof.
  intros <-. simpl. apply (append_accepts inv Rule); [apply fresh_log_invariants|by apply fresh_log_rule].
Qed.

(** Whatever is appended to a log that enforces [CommitLogInvariant] (other tenants'
    entries included), its commit leaves parse and form one linear chain per
    conversation: epochs strictly increase in log order, so there is no fork and no
    regression.  The hook is exact: a further commit leaf is accepted if and only if it
    parses and its epoch is above every earlier epoch of its conversation. *)
Theorem commit_log_linear `{!SerdeJson CommitLog.CommitLeaf} (es : list Entry) :
  let log := append_all (fresh_log CommitLog.TENANT CommitLog.CommitLogInvariant) es in
  exists ls, collect_results CommitLog.parse (tenant_entries log CommitLog.TENANT) = Ok ls /\
    (forall i j a b, i < j -> ls !! i = Some a -> ls !! j = Some b ->
       CommitLog.conversation_id a = CommitLog.conversation_id b ->
       (CommitLog.epoch a < CommitLog.epoch b)%N) /\
    (forall e, tenant e = CommitLog.TENANT ->
       is_ok (append log e).2 = true <->
       exists c, CommitLog.parse e = Ok c /\
         forall a, a ∈ ls -> CommitLog.conversation_id a = CommitLog.conversation_id c ->
           (CommitLog.epoch a < CommitLog.epoch c)%N).
Proof.
  simpl. pose proof (fresh_log_rule CommitLog.TENANT CommitLog.CommitLogInvariant CommitRule es) as Hr.
  destruct Hr as (ls & Hp & Ho). exists ls. split_and!; [done|exact Ho|].
  intros e He. rewrite (fresh_log_accepts _ _ CommitRule) by done. split.
  - intros (ls' & (ls0 & c & Hp' & Hc & ->)%collect_results_snoc & [_ Hf]%ordered_snoc).
    rewrite Hp in Hp'. simplify_eq. exists c. split; [done|]. by rewrite Forall_forall in Hf.
  - intros (c & Hc & Hf). exists (ls ++ [c]). split; [apply collect_results_snoc; eauto|].
    apply ordered_snoc. split; [done|]. by apply Forall_forall.
Qed.

(** Whatever is appended to a log that enforces [AccountKeyInvariant], each user's
    identity versions strictly increase in log order (no duplicate, no rollback), and a
    further leaf is accepted if and only if it parses and its version is above every
    earlier version of its user. *)
Theorem account_key_monotone `{!SerdeJson AccountKey.AccountKeyLeaf} (es : list Entry) :
  let log := append_all (fresh_log AccountKey.TENANT AccountKey.AccountKeyInvariant) es in
  exists ls, collect_results AccountKey.parse (tenant_entries log AccountKey.TENANT) = Ok ls /\
    (forall i j a b, i < j -> ls !! i = Some a -> ls !! j = Some b ->
       AccountKey.user_id a = AccountKey.user_id b ->
       (AccountKey.identity_version a < AccountKey.identity_version b)%N) /\
    (forall e, tenant e = AccountKey.TENANT ->
       is_ok (append log e).2 = true <->
       exists c, AccountKey.parse e = Ok c /\
         forall a, a ∈ ls -> AccountKey.user_id a = AccountKey.user_id c ->
           (AccountKey.identity_version a < AccountKey.identity_version c)%N).
Proof.
  simpl. pose proof (fresh_log_rule AccountKey.TENANT AccountKey.AccountKeyInvariant AccountRule es) as Hr.
  destruct Hr as (ls & Hp & Ho). exists ls. split_and!; [done|exact Ho|].
  intros e He. rewrite (fresh_log_accepts _ _ AccountRule) by done. split.
  - intros (ls' & (ls0 & c & Hp' & Hc & ->)%collect_results_snoc & [_ Hf]%ordered_snoc).
    rewrite Hp in Hp'. simplify_eq. exists c. split; [done|]. by rewrite Forall_forall in Hf.
  - intros (c & Hc & Hf). exists (ls ++ [c]). split; [apply collect_results_snoc; eauto|].
    apply ordered_snoc. split; [done|]. by apply Forall_forall.
Qed.

(** Whatever is appended to a log that enforces [BinaryInvariant], the records of the
    binaries tenant never disagree on the hash of one released unit, a release tag that
    was left never comes back, and every signed or executable record follows a payload
    record with its payload hash; and [append] rejects every record that would break one
    of these rules. *)
Theorem binaries_rules `{!SerdeJson Binaries.BinaryRecord} (es : list Entry) :
  let log := append_all (fresh_log Binaries.TENANT Binaries.BinaryInvariant) es in
  exists ls, collect_results Binaries.parse (tenant_entries log Binaries.TENANT) = Ok ls /\
    (forall i j a b, i < j -> ls !! i = Some a -> ls !! j = Some b ->
       Binaries.fork_key a = Binaries.fork_key b ->
       Binaries.artifact_sha256 a = Binaries.artifact_sha256 b) /\
    tags_contiguous ls /\ payloads_paired ls /\
    (forall e, tenant e = Binaries.TENANT ->
       is_ok (append log e).2 = true <->
       exists c, Binaries.parse e = Ok c /\
         ordered no_fork (ls ++ [c]) /\ tags_contiguous (ls ++ [c]) /\ payloads_paired (ls ++ [c])).
Proof.
  simpl. pose proof (fresh_log_rule Binaries.TENANT Binaries.BinaryInvariant BinaryRule es) as Hr.
  destruct Hr as (ls & Hp & Ho & Ht & Hq). exists ls. split_and!; [done|exact Ho|done|done|].
  intros e He. rewrite (fresh_log_accepts _ _ BinaryRule) by done. split.
  - intros (ls' & (ls0 & c & Hp' & Hc & ->)%collect_results_snoc & Hr).
    rewrite Hp in Hp'. simplify_eq. eauto.
  - intros (c & Hc & Hf). exists (ls ++ [c]). split; [apply collect_results_snoc; eauto|done].
Qed.
End Theorems.

(** ** Domain separation of the three trees *)

Section Contexts.
Context `{Hex, !HexLaws} `{Ed25519, !Ed25519Laws}.

Definition tenant_contexts : list bytes := [STH_DOMAIN; AccountKey.STH_CONTEXT; Binaries.STH_CONTEXT].

(** Distinct contexts have distinct lengths, so the messages signed under them differ. *)
Lemma contexts_inj c c' size size' root root' ts ts' :
  In c tenant_contexts -> In c' tenant_contexts -> hash32 root -> hash32 root' ->
  signing_message_with_context c size root ts = signing_message_with_context c' size' root' ts' ->
  c = c'.
Proof.
  intros Hc Hc' Hr Hr' E. apply (f_equal length) in E.
  unfold signing_message_with_context in E. rewrite !length_app, !length_be_bytes, Hr, Hr' in E.
  assert (length c = length c') as El by lia. clear - Hc Hc' El.
  destruct Hc as [<-|[<-|[<-|[]]]], Hc' as [<-|[<-|[<-|[]]]]; by vm_compute in El.
Qed.

(** The signed message determines what is signed.  Over the three head contexts in
    use, 32-byte roots and 64-bit sizes and timestamps, equal signing messages come from
    the same tree, size, root and time. *)
Theorem signing_message_injective (c c' : bytes) (size size' : N) (root root' : bytes) (ts ts' : N) :
  In c tenant_contexts -> In c' tenant_contexts -> hash32 root -> hash32 root' ->
  (size < 2 ^ 64)%N -> (size' < 2 ^ 64)%N -> (ts < 2 ^ 64)%N -> (ts' < 2 ^ 64)%N ->
  signing_message_with_context c size root ts = signing_message_with_context c' size' root' ts' ->
  c = c' /\ size = size' /\ root = root' /\ ts = ts'.
Proof.
  intros Hc Hc' Hr Hr' Hs Hs' Ht Ht' E.
  pose proof (contexts_inj _ _ _ _ _ _ _ _ Hc Hc' Hr Hr' E) as <-. split; [done|].
  unfold signing_message_with_context in E. apply app_inv_head in E.
  apply app_inj_len in E as [Es E]; [|by rewrite !length_be_bytes].
  apply app_inj_len in E as [-> Et]; [|unfold hash32 in *; congruence].
  split_and!; [by apply be_bytes_inj in Es|done|by apply be_bytes_inj in Et].
Qed.

(** Heads are bound to their tree.  For a head signed for one of the three trees,
    verifying as a head of another tree means exactly an Ed25519 forgery: its signature
    accepted on a message different from the one that was signed. *)
Theorem heads_domain_separated (sk : SigningKey) (size : N) (root : bytes) (ts : N) (c c' : bytes) :
  In c tenant_contexts -> In c' tenant_contexts -> c <> c' -> hash32 root ->
  let m := signing_message_with_context c size root ts in
  let m' := signing_message_with_context c' size root ts in
  m <> m' /\
  verify_with_context (Sth_create_with_context sk size root ts c) (verifying_key sk) c' =
  ed_verify (verifying_key sk) m' (ed_sign sk m).
Proof.
  intros Hc Hc' Hne Hr. simpl. split; [|by apply verify_created].
  intros E. by apply Hne, (contexts_inj c c' size size root root ts ts).
Qed.
End Contexts.

(** ** Evaluation: leaf types are countable, hence have an executable codec *)

#[global] Instance CommitLeaf_countable : Countable CommitLog.CommitLeaf :=
  inj_countable' (fun l => (CommitLog.commit_sha256 l, (CommitLog.conversation_id l,
      (CommitLog.epoch l, (CommitLog.sender_id l, CommitLog.seq l)))))
    (fun '(h, (c, (e, (s, n)))) => CommitLog.mkCommitLeaf c e s n h)
    (fun l => match l with CommitLog.mkCommitLeaf _ _ _ _ _ => eq_refl end).

#[global] Instance AccountKeyLeaf_countable : Countable AccountKey.AccountKeyLeaf :=
  inj_countable' (fun l => (AccountKey.account_id_pub l, (AccountKey.user_id l,
      (AccountKey.identity_version l, AccountKey.seq l))))
    (fun '(k, (u, (v, n))) => AccountKey.mkAccountKeyLeaf u v k n)
    (fun l => match l with AccountKey.mkAccountKeyLeaf _ _ _ _ => eq_refl end).

#[global] Instance Layer_countable : Countable Binaries.Layer :=
  inj_countable' (fun l => match l with Binaries.Payload => 0 | Binaries.Signed => 1 | Binaries.Exe => 2 end)
    (fun n => match n with 0 => Binaries.Payload | 1 => Binaries.Signed | _ => Binaries.Exe end)
    (fun l => match l with Binaries.Payload => eq_refl | Binaries.Signed => eq_refl | Binaries.Exe => eq_refl end).

(** The text fields as one list: their codes then grow with their sum. *)
#[global] Instance BinaryRecord_countable : Countable Binaries.BinaryRecord :=
  inj_countable
    (fun r => ([Binaries.release_tag r; Binaries.commit r; Binaries.platform r; Binaries.arch r;
                Binaries.bundle r; Binaries.artifact_name r; Binaries.payload_sha256 r;
                Binaries.artifact_sha256 r; Binaries.rustc (Binaries.toolchain r);
                Binaries.node (Binaries.toolchain r); Binaries.pnpm (Binaries.toolchain r);
                Binaries.runner_image (Binaries.toolchain r); Binaries.provenance_uri r],
               (Binaries.layer r, Binaries.source_date_epoch (Binaries.toolchain r))))
    (fun '(fs, (l, e)) =>
       match fs with
       | [t; c; p; a; b; n; ps; xs; rc; nd; pn; ri; uri] =>
           Some (Binaries.mkBinaryRecord t c p a b n l ps xs (Binaries.mkToolchain rc nd pn ri e) uri)
       | _ => None
       end)
    (fun r => match r with
              | Binaries.mkBinaryRecord _ _ _ _ _ _ _ _ _ (Binaries.mkToolchain _ _ _ _ _) _ => eq_refl
              end).

Lemma signing_message_injective_witness :
  STH_DOMAIN = STH_DOMAIN /\ 3%N = 3%N /\ repeat x00 32 = repeat x00 32 /\ 9%N = 9%N.
Proof.
  exact (signing_message_injective STH_DOMAIN STH_DOMAIN 3 3 (repeat x00 32) (repeat x00 32) 9 9
    (or_introl eq_refl) (or_introl eq_refl) eq_refl eq_refl
    ltac:(lia) ltac:(lia) ltac:(lia) ltac:(lia) eq_refl).
Defined.
