(* ===== verification/Monitor.v ===== *)
(** * verifiable-log: the offline monitor

    Models [verifiable-log/src/bin/monitor.rs]: the wire [Bundle], the five checks of
    [run_verify] with the [Report] they accumulate, and [gen_example].  Reading the
    fixture file and printing the report lines are I/O and left out; the parsed text is
    the input and the verdict the output.

    [accepts_spec] characterises acceptance; [monitor_accepts_sound] turns it into what an
    accepted bundle guarantees about the entries, heads and proofs it carries. *)

From stdpp Require Import base list strings gmap pretty.
From Stdlib Require Import NArith ZArith Lia ZifyNat ZifyN.
From Stdlib Require Import Strings.Byte.
From S2P Require Import Prelude Crypto Merkle Log Tenants.

Record InclusionCheck := mkInclusionCheck {
  ic_entry : Entry;
  ic_proof : InclusionProof;
  sth_index : nat
}.

Record ConsistencyCheck := mkConsistencyCheck {
  old_index : nat;
  new_index : nat;
  cc_proof : ConsistencyProof
}.

Record Bundle := mkBundle {
  public_key : string;
  sths : list Sth;
  bundle_entries : list Entry;
  enforce_unique : list string;
  inclusion : list InclusionCheck;
  consistency : list ConsistencyCheck
}.

(** [Report]: the overall verdict, [check] folds one more result into it. *)
Record Report := mkReport { report_ok : bool }.

Definition Report_new : Report := mkReport true.

Definition report_check (r : Report) (passed : bool) : Report :=
  if passed then r else mkReport false.

Section Ops.
Context `{Sha256} `{Hex} `{Ed25519}.

Definition check_signatures (vk : VerifyingKey) (ss : list Sth) (r : Report) : Report :=
  fold_left (fun r s => report_check r (Sth_verify s vk)) ss r.

(** The pairs [i < j]: each head against every later one. *)
Fixpoint check_equivocation (ss : list Sth) (r : Report) : Report :=
  match ss with
  | [] => r
  | a :: rest =>
      check_equivocation rest
        (fold_left (fun r b => report_check r (negb (is_equivocation a b))) rest r)
  end.

Definition register_all (log : VerifiableLog) (ts : list string) : VerifiableLog :=
  fold_left (fun log t => register_invariant log t UniqueDataInvariant) ts log.

(** The replay loop goes on after a rejected entry. *)
Fixpoint replay (log : VerifiableLog) (es : list Entry) (replay_ok : bool) : VerifiableLog * bool :=
  match es with
  | [] => (log, replay_ok)
  | e :: es' =>
      match append log e with
      | (log', Ok _) => replay log' es' replay_ok
      | (log', Err _) => replay log' es' false
      end
  end.

Definition root_matches (log : VerifiableLog) (s : Sth) : bool :=
  match root_at log (N.to_nat (tree_size s)) with
  | Ok root => match root_bytes s with Ok r => bool_decide (r = root) | Err _ => false end
  | Err _ => false
  end.

Definition check_entries (b : Bundle) (r : Report) : Report :=
  if bool_decide (bundle_entries b = []) then r
  else
    let log0 := register_all VerifiableLog_new (enforce_unique b) in
    let '(log, replay_ok) := replay log0 (bundle_entries b) true in
    let r := report_check (if replay_ok then r else mkReport false) replay_ok in
    if replay_ok
    then fold_left (fun r s => report_check r (root_matches log s)) (sths b) r
    else r.

Definition inclusion_passed (b : Bundle) (c : InclusionCheck) : bool :=
  match sths b !! sth_index c with
  | Some s => verify_inclusion_proof (ic_entry c) (ic_proof c) s
  | None => false
  end.

Definition consistency_passed (b : Bundle) (c : ConsistencyCheck) : bool :=
  match sths b !! old_index c, sths b !! new_index c with
  | Some o, Some n => verify_consistency_proof o n (cc_proof c)
  | _, _ => false
  end.

Definition verify_bundle (b : Bundle) : Result bool Error :=
  let? vk := verifying_key_from_hex (public_key b) in
  let r := Report_new in
  let r := check_signatures vk (sths b) r in
  let r := check_equivocation (sths b) r in
  let r := check_entries b r in
  let r := fold_left (fun r c => report_check r (inclusion_passed b c)) (inclusion b) r in
  let r := fold_left (fun r c => report_check r (consistency_passed b c)) (consistency b) r in
  Ok (report_ok r).

(** [run_verify] on the fixture's text; the error is boxed from either source. *)
Definition run_verify `{!SerdeJson Bundle} (raw : bytes) : Result bool (JsonError + Error) :=
  let? b := map_err inl (from_slice raw) in
  map_err inr (verify_bundle b).

Definition example_entries : list Entry := [
  mkEntry "commits" (as_bytes "group-a/epoch-0");
  mkEntry "accounts" (as_bytes "alice/key-v1");
  mkEntry "commits" (as_bytes "group-a/epoch-1");
  mkEntry "accounts" (as_bytes "bob/key-v1");
  mkEntry "commits" (as_bytes "group-b/epoch-0")].

(** [gen_example] for a signing key (the source fixes the key of 32 bytes [7]). *)
Definition gen_example (signing_key : SigningKey) : Result Bundle Error :=
  let pk := hex_encode (vk_to_bytes (verifying_key signing_key)) in
  let log0 := register_invariant VerifiableLog_new "commits" UniqueDataInvariant in
  let? log := append_each log0 example_entries in
  let first_size := 3 in
  let? root := root_at log first_size in
  let sth_mid := Sth_create signing_key (N.of_nat first_size) root 1700000000000 in
  let sth_full := signed_tree_head log signing_key 1700000500000 in
  let? ip := inclusion_proof log 1 in
  let? cp := consistency_proof log first_size (log_size log) in
  Ok (mkBundle pk [sth_mid; sth_full] example_entries ["commits"]
        [mkInclusionCheck (nth 1 example_entries (mkEntry "" [])) ip 1]
        [mkConsistencyCheck 0 1 cp]).
End Ops.

(** ** Characterisation of acceptance *)

Lemma forallb_Forall {A} (f : A -> bool) l : forallb f l = true <-> Forall (fun a => f a = true) l.
Proof. rewrite forallb_forall, Forall_forall. by setoid_rewrite list_elem_of_In. Qed.

Lemma report_fold {A} (f : A -> bool) l r :
  report_ok (fold_left (fun r a => report_check r (f a)) l r) = report_ok r && forallb f l.
Proof.
  revert r; induction l as [|a l IH]; simpl; intros r; [by rewrite andb_true_r|].
  rewrite IH. destruct (f a); simpl; [done|]. by rewrite andb_false_r.
Qed.

Section Spec.
Context `{Sha256} `{Hex} `{Ed25519}.

Definition no_equivocation (ss : list Sth) : Prop := ordered (fun a b => is_equivocation a b = false) ss.

Lemma check_equivocation_spec ss r :
  report_ok (check_equivocation ss r) = true <-> report_ok r = true /\ no_equivocation ss.
Proof.
  revert r; induction ss as [|a ss IH]; simpl; intros r.
  { split; [|tauto]. intros; split; [done|apply ordered_nil]. }
  rewrite IH, report_fold, andb_true_iff, forallb_forall. unfold no_equivocation.
  etransitivity; [apply Logic.and_assoc|]. apply and_iff_compat_l. split.
  - intros [Hn Ho] i j x y Hij Hx Hy. destruct j as [|j]; [lia|]. simpl in Hy.
    destruct i as [|i]; simpl in Hx.
    + injection Hx as <-. apply list_elem_of_lookup_2, list_elem_of_In, Hn in Hy. by breflect.
    + eapply (Ho i j); [lia|done..].
  - intros Ho. split.
    + intros b [j Hj]%list_elem_of_In%list_elem_of_lookup.
      rewrite (Ho 0 (S j) a b); [done|lia|done..].
    + intros i j x y Hij Hx Hy. apply (Ho (S i) (S j)); [lia|done..].
Qed.

(** A replay succeeds when every append does. *)
Lemma replay_true log es log' ok : replay log es ok = (log', true) ->
  ok = true /\ append_each log es = Ok log'.
Proof.
  revert log ok; induction es as [|e es IH]; simpl; intros log ok E; [by simplify_eq|].
  destruct (append log e) as [log1 [i|er]]; apply IH in E as [Hk E]; [by split|done].
Qed.

Lemma append_each_replay log es log' :
  append_each log es = Ok log' -> replay log es true = (log', true).
Proof.
  revert log; induction es as [|e es IH]; simpl; intros log E; [by simplify_eq|].
  destruct (append log e) as [log1 [i|er]]; [by apply IH|done].
Qed.

(** What the monitor checks, as a proposition. *)
Record accepts (b : Bundle) (vk : VerifyingKey) : Prop := {
  acc_sigs : Forall (fun s => Sth_verify s vk = true) (sths b);
  acc_no_equivocation : no_equivocation (sths b);
  acc_entries : bundle_entries b <> [] -> exists log,
    append_each (register_all VerifiableLog_new (enforce_unique b)) (bundle_entries b) = Ok log /\
    Forall (fun s => root_matches log s = true) (sths b);
  acc_inclusion : Forall (fun c => inclusion_passed b c = true) (inclusion b);
  acc_consistency : Forall (fun c => consistency_passed b c = true) (consistency b)
}.

Lemma check_entries_spec b r :
  report_ok (check_entries b r) = true <-> report_ok r = true /\
  (bundle_entries b <> [] -> exists log,
    append_each (register_all VerifiableLog_new (enforce_unique b)) (bundle_entries b) = Ok log /\
    Forall (fun s => root_matches log s = true) (sths b)).
Proof.
  unfold check_entries. case_bool_decide as Hb; [naive_solver|].
  destruct (replay _ _ true) as [log []] eqn:Er.
  - simpl. rewrite report_fold, andb_true_iff. apply and_iff_compat_l.
    apply replay_true in Er as [_ Er]. rewrite Er. split.
    + intros Hf _. exists log. split; [done|]. by apply forallb_Forall.
    + intros Hx. destruct (Hx Hb) as (log' & [= <-] & Hf). by apply forallb_Forall.
  - simpl. split; [done|]. intros [_ Hx]. destruct (Hx Hb) as (log' & E & _).
    apply append_each_replay in E. congruence.
Qed.

Lemma accepts_spec b :
  verify_bundle b = Ok true <->
  exists vk, verifying_key_from_hex (public_key b) = Ok vk /\ accepts b vk.
Proof.
  unfold verify_bundle. destruct (verifying_key_from_hex (public_key b)) as [vk|]; simpl.
  2: { split; [done|]. by intros (? & ? & _). }
  transitivity (accepts b vk); [|split; [by exists vk|by intros (? & [= <-] & ?)]].
  transitivity (report_ok (fold_left (fun r c => report_check r (consistency_passed b c)) (consistency b)
    (fold_left (fun r c => report_check r (inclusion_passed b c)) (inclusion b)
      (check_entries b (check_equivocation (sths b) (check_signatures vk (sths b) Report_new))))) = true);
    [split; [by intros [= ?]|by intros ->]|].
  unfold check_signatures.
  rewrite !report_fold, !andb_true_iff, check_entries_spec, check_equivocation_spec, report_fold.
  rewrite !forallb_Forall. simpl. rewrite forallb_Forall.
  split; [intros [[[[? ?] ?] ?] ?]; by split|intros [? ? ? ? ?]; tauto].
Qed.
End Spec.

(** ** What acceptance guarantees *)

Section Sound.
Context `{Sha256, !Sha256Laws} `{Hex, !HexLaws} `{Ed25519}.

Lemma register_all_lookup ts log t : t ∈ ts ->
  invariants (register_all log ts) !! t = Some UniqueDataInvariant.
Proof.
  unfold register_all. revert log. induction ts as [|t' ts IH] using rev_ind; [by intros ? ?%elem_of_nil|].
  intros log Ht. rewrite fold_left_app. simpl. destruct (decide (t = t')) as [->|Hne].
  - by rewrite lookup_insert_eq.
  - rewrite lookup_insert_ne by done. apply IH. apply elem_of_app in Ht as [?|?%list_elem_of_singleton]; done.
Qed.

Lemma register_all_entries ts log :
  entries (register_all log ts) = entries log /\ leaves (register_all log ts) = leaves log.
Proof. unfold register_all. revert log. induction ts as [|t ts IH]; simpl; intros log; [done|]. apply (IH (register_invariant log t _)). Qed.

(** The log an accepted bundle replays to. *)
Lemma accepted_log b vk : accepts b vk -> bundle_entries b <> [] ->
  exists log, log_wf log /\ entries log = bundle_entries b /\
    (forall t, t ∈ enforce_unique b -> NoDup (map data (tenant_entries log t))) /\
    Forall (fun s => root_matches log s = true) (sths b).
Proof.
  intros Ha Hne. destruct (acc_entries _ _ Ha Hne) as (log & E & Hf). exists log.
  destruct (register_all_entries (enforce_unique b) VerifiableLog_new) as [Ee El].
  apply append_each_ok in E as (E1 & _ & Hw & E2). rewrite Ee in E1. split_and!; [|done| |done].
  - apply Hw. unfold log_wf. by rewrite Ee, El.
  - intros t Ht. rewrite <- E2. eapply (log_rule _ _ _ _ (fun es => NoDup (map data es))).
    + by apply register_all_lookup.
    + unfold tenant_entries. rewrite Ee. constructor.
Qed.

Lemma root_matches_spec log s : log_wf log -> root_matches log s = true ->
  N.to_nat (tree_size s) <= log_size log /\
  root_bytes s = Ok (entries_root (take (N.to_nat (tree_size s)) (entries log))).
Proof.
  intros Hw. unfold root_matches. destruct (decide (N.to_nat (tree_size s) <= log_size log)) as [Hs|Hs].
  - rewrite root_at_entries by done. destruct (root_bytes s); [|done]. intros Hb. by breflect; subst.
  - unfold root_at. rewrite log_wf_length by done. unfold log_size in Hs.
    by rewrite (proj2 (Nat.ltb_lt _ _)) by lia.
Qed.

(** C6: Soundness of the monitor.  An accepted bundle has, under its key, only well-signed
    heads, no two of them equivocating, and only consistency checks that verify between two
    of its heads.  If it also carries entries (the root check is skipped when it carries
    none, and then a head may have any root), each head's root is the Merkle root over the
    prefix of the entries it claims; tenants under the uniqueness rule have no duplicate
    payload; and every inclusion check proves an entry that really is in the bundle, at the
    claimed index and below its head's size. *)
Theorem monitor_accepts_sound (b : Bundle) : verify_bundle b = Ok true ->
  exists vk, verifying_key_from_hex (public_key b) = Ok vk /\
    (forall s, s ∈ sths b -> Sth_verify s vk = true) /\
    no_equivocation (sths b) /\
    (forall c, c ∈ consistency b -> exists o n, sths b !! old_index c = Some o /\ sths b !! new_index c = Some n /\
       verify_consistency_proof o n (cc_proof c) = true) /\
    (bundle_entries b <> [] -> Forall tenant_fits (bundle_entries b) ->
     (forall s, s ∈ sths b ->
        N.to_nat (tree_size s) <= length (bundle_entries b) /\
        root_bytes s = Ok (entries_root (take (N.to_nat (tree_size s)) (bundle_entries b)))) /\
     (forall t, t ∈ enforce_unique b ->
        NoDup (map data (List.filter (fun e => bool_decide (tenant e = t)) (bundle_entries b)))) /\
     (forall c s, c ∈ inclusion b -> sths b !! sth_index c = Some s -> tenant_fits (ic_entry c) ->
        collision_free (inclusion_check_queries (take (N.to_nat (tree_size s)) (bundle_entries b))
                          (ic_entry c) (ic_proof c)) ->
        (leaf_index (ic_proof c) < tree_size s)%N /\
        bundle_entries b !! N.to_nat (leaf_index (ic_proof c)) = Some (ic_entry c))).
Proof.
  intros Hv. apply accepts_spec in Hv as (vk & Hk & Ha). exists vk. split_and!; [done|..|intros Hne Hfit].
  - pose proof (acc_sigs _ _ Ha) as Hs. by rewrite Forall_forall in Hs.
  - apply Ha.
  - intros c Hc. pose proof (acc_consistency _ _ Ha) as Hs. rewrite Forall_forall in Hs. specialize (Hs c Hc).
    unfold consistency_passed in Hs. destruct (sths b !! old_index c) as [o|], (sths b !! new_index c) as [n|]; try done. by exists o, n.
  - destruct (accepted_log _ _ Ha Hne) as (log & Hw & Ee & Hu & Hr). rewrite <- Ee in *.
    assert (forall s, s ∈ sths b -> N.to_nat (tree_size s) <= length (entries log) /\
      root_bytes s = Ok (entries_root (take (N.to_nat (tree_size s)) (entries log)))) as Hroot.
    { intros s Hs. rewrite Forall_forall in Hr. by apply root_matches_spec, Hr. }
    split_and!; [done|apply Hu|].
    intros c s Hc Hs Hf HQ. destruct (Hroot s) as [Hle Hrt]; [by eapply list_elem_of_lookup_2|].
    pose proof (acc_inclusion _ _ Ha) as Hi. rewrite Forall_forall in Hi. specialize (Hi c Hc).
    unfold inclusion_passed in Hi. rewrite Hs in Hi.
    apply (inclusion_sound_entries (take (N.to_nat (tree_size s)) (entries log))) in Hi; try done;
      [|by apply Forall_take|by rewrite length_take_le, N2Nat.id].
    apply lookup_take_Some in Hi as [Hi Hlt]. split; [lia|done].
Qed.
End Sound.

(** ** The repository's own example

    [gen_example] on SHA-256: the two roots are those of
    [verifiable-log/fixtures/example.json], and the monitor accepts the bundle. *)

Section Concrete.

#[local] Definition example_key : SigningKey := ClearSig.repeat_seed x07.

#[local] Definition example_bundle : Bundle :=
  match gen_example example_key with Ok b => b | Err _ => mkBundle "" [] [] [] [] [] end.

Example example_roots :
  map sth_root_hash (sths example_bundle) =
  ["91b146a159d14871367e8669574170dccf5c4290ca5ceac52e1bf5f954471c25";
   "3fb8111cffc1ee36d10d11414d7bf90ad83bb162e62522b4db96fcdeb47c4803"].
Proof. vm_compute. reflexivity. Qed.

Lemma example_fits : Forall tenant_fits (bundle_entries example_bundle).
Proof.
  assert (bundle_entries example_bundle = example_entries) as -> by (vm_compute; reflexivity).
  repeat (apply Forall_cons_2; [vm_compute; reflexivity|]). apply Forall_nil_2.
Qed.

(** Without entries a signed head of any root passes. *)
Example no_entries_any_root :
  verify_bundle (mkBundle (hex_encode (vk_to_bytes (verifying_key example_key)))
    [Sth_create example_key 3 (repeat x00 32) 1] [] [] [] []) = Ok true.
Proof. vm_compute. reflexivity. Qed.

Lemma monitor_accepts_sound_witness :
  exists vk, verifying_key_from_hex (public_key example_bundle) = Ok vk /\
    (forall s, s ∈ sths example_bundle -> Sth_verify s vk = true) /\
    (forall c, c ∈ consistency example_bundle -> exists o n, sths example_bundle !! old_index c = Some o /\
       sths example_bundle !! new_index c = Some n /\ verify_consistency_proof o n (cc_proof c) = true) /\
    forall s, s ∈ sths example_bundle ->
      N.to_nat (tree_size s) <= length (bundle_entries example_bundle) /\
      root_bytes s = Ok (entries_root (take (N.to_nat (tree_size s)) (bundle_entries example_bundle))).
Proof.
  destruct (monitor_accepts_sound example_bundle) as (vk & Hk & Hs & _ & Hc & He).
  - vm_compute. reflexivity.
  - destruct He as (Hr & _); [vm_compute; discriminate|exact example_fits|].
    exists vk. exact (conj Hk (conj Hs (conj Hc Hr))).
Defined.
End Concrete.
