(* ===== verification/Builder.v ===== *)
(** * verifiable-log-builder: from database rows to a signed bundle

    Models the row projections of [source.rs], [builder.rs] ([build_bundle],
    [build_account_bundle], [build_binaries_bundle] and the shared [seal]) and the error
    type of [error.rs].  The three builders are the append loop over their rows followed
    by [seal] under the tenant's head context.  Reading the rows from the database is
    [libsql] I/O; the row lists are the input.

    [seal_spec] is the lemma the builders' theorems share: whatever well-formed log it is
    given, [seal] never fails and its heads and proofs all check. *)

From stdpp Require Import base list strings gmap pretty.
From Stdlib Require Import NArith ZArith Lia ZifyNat ZifyN.
From Stdlib Require Import Strings.Byte.
From S2P Require Import Prelude Crypto Merkle Log Tenants Monitor.

(** ** error.rs *)

(** [J] is the serializer's error type; database and I/O errors carry their message.
    [Panic] stands for an out-of-range slice index, which [seal_spec] shows unreachable. *)
Inductive BuilderError (J : Type) : Type :=
| Db (msg : string)
| LogError (e : Error)
| InvariantError (v : InvariantViolation)
| Encode (e : J)
| Io (msg : string)
| SigningKeyError (msg : string)
| NoDbSource
| EmptyCommitLog
| EmptyAccountKeyLog
| NoSigningKey (env : string)
| Panic.
Arguments Db {J} msg.
Arguments LogError {J} e.
Arguments InvariantError {J} v.
Arguments Encode {J} e.
Arguments Io {J} msg.
Arguments SigningKeyError {J} msg.
Arguments NoDbSource {J}.
Arguments EmptyCommitLog {J}.
Arguments EmptyAccountKeyLog {J}.
Arguments NoSigningKey {J} env.
Arguments Panic {J}.

(** ** source.rs *)

Record CommitRow := mkCommitRow {
  cr_seq : Z;
  cr_conversation_id : string;
  cr_epoch : Z;
  cr_sender_id : string;
  cr_commit_sha256 : string
}.

Definition CommitRow_to_leaf (r : CommitRow) : CommitLog.CommitLeaf :=
  CommitLog.mkCommitLeaf (cr_conversation_id r) (Z.to_N (Z.max (cr_epoch r) 0))
    (cr_sender_id r) (cr_seq r) (cr_commit_sha256 r).

Record AccountKeyRow := mkAccountKeyRow {
  ar_seq : Z;
  ar_user_id : string;
  ar_identity_version : Z;
  ar_account_id_pub : string
}.

Definition AccountKeyRow_to_leaf (r : AccountKeyRow) : AccountKey.AccountKeyLeaf :=
  AccountKey.mkAccountKeyLeaf (ar_user_id r) (Z.to_N (Z.max (ar_identity_version r) 0))
    (ar_account_id_pub r) (ar_seq r).

Definition sha256_hex `{Sha256} `{Hex} (b : bytes) : string := hex_encode (sha256 b).

(** The loop bodies of [read_commit_log] and [read_account_key_log]: a fetched row
    (its columns) to the structural row. *)
Definition read_commit_row `{Sha256} `{Hex}
    (row : Z * string * Z * string * bytes) : CommitRow :=
  let '(sq, conv, ep, sender, commit_data) := row in
  mkCommitRow sq conv ep sender (sha256_hex commit_data).

Definition read_account_row `{Hex} (row : Z * string * Z * bytes) : AccountKeyRow :=
  let '(sq, user, ver, pub) := row in mkAccountKeyRow sq user ver (hex_encode pub).

Definition ensure_non_empty {J} (rows : list CommitRow) : Result unit (BuilderError J) :=
  match rows with [] => Err EmptyCommitLog | _ => Ok tt end.

Definition ensure_account_non_empty {J} (rows : list AccountKeyRow) : Result unit (BuilderError J) :=
  match rows with [] => Err EmptyAccountKeyLog | _ => Ok tt end.

(** ** builder.rs *)

Section Ops.
Context `{Sha256} `{Hex} `{Ed25519}.

(** [for row in rows { let entry = ..to_entry()?; log.append(entry.clone())?; entries.push(entry) }] *)
Fixpoint append_rows {R J} (to_entry : R -> Result Entry J) (log : VerifiableLog)
    (es : list Entry) (rows : list R) : Result (VerifiableLog * list Entry) (BuilderError J) :=
  match rows with
  | [] => Ok (log, es)
  | row :: rows' =>
      let? e := map_err Encode (to_entry row) in
      match append log e with
      | (log', Ok _) => append_rows to_entry log' (es ++ [e]) rows'
      | (_, Err er) => Err (LogError er)
      end
  end.

Definition make_sth (signing_key : SigningKey) (ts : N) (sth_context : option bytes)
    (size : N) (root : bytes) : Sth :=
  match sth_context with
  | Some ctx => Sth_create_with_context signing_key size root ts ctx
  | None => Sth_create signing_key size root ts
  end.

Definition seal {J} (log : VerifiableLog) (es : list Entry) (enforce : list string)
    (signing_key : SigningKey) (ts : N) (sth_context : option bytes) : Result Bundle (BuilderError J) :=
  let n := log_size log in
  let make_sth := make_sth signing_key ts sth_context in
  let? mid :=
    (if 2 <=? n then
       let m := n / 2 in
       let? mid_root := map_err LogError (root_at log m) in
       Ok ([make_sth (N.of_nat m) mid_root], Some m)
     else Ok ([], None)) in
  let '(sths0, midpoint) := mid in
  let sths := sths0 ++ [make_sth (N.of_nat n) (log_root log)] in
  let final_index := length sths - 1 in
  let? incl := collect_results
    (fun i => let? e := ok_or (es !! i) Panic in
              let? p := map_err LogError (inclusion_proof log i) in
              Ok (mkInclusionCheck e p final_index)) (seq 0 n) in
  let? cons :=
    match midpoint with
    | Some m =>
        let? p := map_err LogError (consistency_proof log m n) in
        Ok [mkConsistencyCheck 0 final_index p]
    | None => Ok []
    end in
  Ok (mkBundle (hex_encode (vk_to_bytes (verifying_key signing_key))) sths es enforce incl cons).

Definition build_bundle `{J : !SerdeJson CommitLog.CommitLeaf} (rows : list CommitRow)
    (signing_key : SigningKey) (ts : N) : Result Bundle (BuilderError JsonError) :=
  let log := register_invariant VerifiableLog_new CommitLog.TENANT CommitLog.CommitLogInvariant in
  let? le := append_rows (fun row => CommitLog.to_entry (CommitRow_to_leaf row)) log [] rows in
  seal (fst le) (snd le) [CommitLog.TENANT] signing_key ts None.

Definition build_account_bundle `{J : !SerdeJson AccountKey.AccountKeyLeaf} (rows : list AccountKeyRow)
    (signing_key : SigningKey) (ts : N) : Result Bundle (BuilderError JsonError) :=
  let log := register_invariant VerifiableLog_new AccountKey.TENANT AccountKey.AccountKeyInvariant in
  let? le := append_rows (fun row => AccountKey.to_entry (AccountKeyRow_to_leaf row)) log [] rows in
  seal (fst le) (snd le) [AccountKey.TENANT] signing_key ts (Some AccountKey.STH_CONTEXT).

Definition build_binaries_bundle `{J : !SerdeJson Binaries.BinaryRecord}
    (records : list Binaries.BinaryRecord)
    (signing_key : SigningKey) (ts : N) : Result Bundle (BuilderError JsonError) :=
  let log := register_invariant VerifiableLog_new Binaries.TENANT Binaries.BinaryInvariant in
  let? le := append_rows Binaries.to_entry log [] records in
  seal (fst le) (snd le) [Binaries.TENANT] signing_key ts (Some Binaries.STH_CONTEXT).
End Ops.

(** ** [seal] on a well-formed log *)

Section Seal.
Context `{Sha256, !Sha256Laws} `{Hex, !HexLaws} `{Ed25519, !Ed25519Laws}.

Definition the_context (sth_context : option bytes) : bytes := default STH_DOMAIN sth_context.

(** What a sealed bundle promises its verifiers. *)
Record sealed (b : Bundle) (log : VerifiableLog) (enforce : list string) (sk : SigningKey)
    (ctx : bytes) : Prop := {
  sealed_key : public_key b = hex_encode (vk_to_bytes (verifying_key sk));
  sealed_entries : bundle_entries b = entries log;
  sealed_enforce : enforce_unique b = enforce;
  sealed_sigs : Forall (fun s => verify_with_context s (verifying_key sk) ctx = true) (sths b);
  sealed_roots : Forall (fun s => root_matches log s = true) (sths b);
  sealed_head : exists ss s, sths b = ss ++ [s] /\ tree_size s = N.of_nat (log_size log) /\
    Forall (fun s' => (tree_size s' < tree_size s)%N) ss /\ length ss <= 1;
  sealed_inclusion : length (inclusion b) = log_size log /\
    forall i c, inclusion b !! i = Some c ->
      entries log !! i = Some (ic_entry c) /\ leaf_index (ic_proof c) = N.of_nat i /\
      ip_tree_size (ic_proof c) = N.of_nat (log_size log) /\
      sth_index c = length (sths b) - 1 /\ inclusion_passed b c = true;
  sealed_consistency : Forall (fun c => consistency_passed b c = true) (consistency b)
}.

Lemma make_sth_spec sk ts c size root :
  make_sth sk ts c size root = Sth_create_with_context sk size root ts (the_context c).
Proof. by destruct c. Qed.

Lemma make_sth_root_matches log sk ts c n r : log_wf log -> root_at log n = Ok r ->
  root_matches log (make_sth sk ts c (N.of_nat n) r) = true /\
  verify_with_context (make_sth sk ts c (N.of_nat n) r) (verifying_key sk) (the_context c) = true.
Proof.
  intros Hw Hr. rewrite make_sth_spec. pose proof (hash32_root_at _ _ _ Hw Hr) as Hh. split.
  - unfold root_matches, root_bytes. simpl. rewrite Nat2N.id, Hr, from_to_hex by done.
    by rewrite bool_decide_eq_true.
  - by rewrite verify_created, ed_verify_sign.
Qed.

Lemma root_at_size log : log_wf log -> root_at log (log_size log) = Ok (log_root log).
Proof. intros Hw. rewrite root_at_entries by done. unfold log_size. by rewrite firstn_all, log_root_entries. Qed.

Lemma inclusion_proof_fields log i p : log_wf log -> inclusion_proof log i = Ok p ->
  leaf_index p = N.of_nat i /\ ip_tree_size p = N.of_nat (log_size log).
Proof.
  intros Hw. unfold inclusion_proof. destruct (_ <=? _); [done|]. intros [= <-]. simpl.
  by rewrite log_wf_length.
Qed.

(** The inclusion loop of [seal] never fails, and its proofs check against the head. *)
Lemma seal_inclusion {J} log fin s : log_wf log ->
  tree_size s = N.of_nat (log_size log) -> sth_root_hash s = to_hex (log_root log) ->
  exists incl, collect_results
    (fun i => let? e := @ok_or _ (BuilderError J) (entries log !! i) Panic in
              let? p := map_err LogError (inclusion_proof log i) in
              Ok (mkInclusionCheck e p fin)) (seq 0 (log_size log)) = Ok incl /\
    length incl = log_size log /\
    forall i c, incl !! i = Some c ->
      entries log !! i = Some (ic_entry c) /\ leaf_index (ic_proof c) = N.of_nat i /\
      ip_tree_size (ic_proof c) = N.of_nat (log_size log) /\ sth_index c = fin /\
      verify_inclusion_proof (ic_entry c) (ic_proof c) s = true.
Proof.
  intros Hw Hs Hr. set (f := fun i : nat => rbind _ _).
  assert (forall i, i < log_size log -> exists c, f i = Ok c /\ entries log !! i = Some (ic_entry c) /\
    leaf_index (ic_proof c) = N.of_nat i /\ ip_tree_size (ic_proof c) = N.of_nat (log_size log) /\
    sth_index c = fin /\ verify_inclusion_proof (ic_entry c) (ic_proof c) s = true) as Hf.
  { intros i Hi. destruct (entries log !! i) as [e|] eqn:Ee; [|by apply lookup_ge_None in Ee; unfold log_size in Hi; lia].
    destruct (inclusion_emitted log i e s Hw Ee Hs Hr) as (p & Ep & Hl & Hv).
    destruct (inclusion_proof_fields _ _ _ Hw Ep) as [_ Ht].
    exists (mkInclusionCheck e p fin). unfold f. rewrite Ee, Ep. simpl. by split_and!. }
  assert (exists incl, collect_results f (seq 0 (log_size log)) = Ok incl) as [incl Ei].
  { apply collect_results_total. intros i Hi%list_elem_of_In%in_seq.
    destruct (Hf i) as (c & -> & _); [lia|eauto]. }
  exists incl. split; [done|]. split; [by rewrite (collect_results_length _ _ _ Ei), length_seq|].
  intros i c Hc. destruct (collect_results_lookup _ _ _ _ _ Ei Hc) as (j & Hj & Ej).
  apply lookup_seq in Hj as [-> Hi]. destruct (Hf i) as (c' & Ec & Hrest); [done|].
  simpl in Ej. rewrite Ec in Ej. by simplify_eq.
Qed.

Lemma no_equivocation_pair a b : (tree_size a < tree_size b)%N -> no_equivocation [a; b].
Proof.
  intros Hlt i j x y Hij Hx Hy. destruct i as [|[|i]], j as [|[|j]]; simplify_eq/=; try lia.
  unfold is_equivocation. by rewrite (proj2 (N.eqb_neq _ _)) by lia.
Qed.

Lemma no_equivocation_single a : no_equivocation [a].
Proof. intros i j x y Hij Hx Hy. destruct i, j; simplify_eq/=; lia. Qed.

Lemma seal_spec {J} log enforce sk ts c : log_wf log ->
  exists b, seal (J:=J) log (entries log) enforce sk ts c = Ok b /\
    sealed b log enforce sk (the_context c).
Proof.
  intros Hw. unfold seal. set (n := log_size log). pose proof (root_at_size log Hw) as Hn.
  set (s := make_sth sk ts c (N.of_nat n) (log_root log)).
  assert (tree_size s = N.of_nat n /\ sth_root_hash s = to_hex (log_root log)) as [Hs Hr]
    by (unfold s; by rewrite make_sth_spec).
  pose proof (make_sth_root_matches log sk ts c _ _ Hw Hn) as [Hrm Hsig]. fold n s in Hrm, Hsig.
  destruct (Nat.leb_spec 2 n) as [H2n|H2n].
  - assert (0 < n / 2 < n) as Hm by (split; [apply Nat.div_str_pos; lia|apply Nat.div_lt; lia]).
    assert (exists r, root_at log (n / 2) = Ok r) as [r Hmr].
    { eexists. apply root_at_entries; [done|]. fold n. lia. }
    rewrite Hmr. cbn [map_err rbind app length]. set (s0 := make_sth sk ts c (N.of_nat (n / 2)) r).
    pose proof (make_sth_root_matches log sk ts c _ _ Hw Hmr) as [Hrm0 Hsig0]. fold s0 in Hrm0, Hsig0.
    assert (tree_size s0 = N.of_nat (n / 2) /\ sth_root_hash s0 = to_hex r) as [Hs0 Hr0]
      by (unfold s0; by rewrite make_sth_spec).
    destruct (seal_inclusion (J:=J) log (2 - 1) s Hw Hs Hr) as (incl & Ei & Hil & Hi). fold n in Ei.
    rewrite Ei. cbn [rbind].
    destruct (consistency_emitted log (n / 2) n s0 s r (log_root log)) as (p & Ep & Hp); try done; [lia|].
    rewrite Ep. cbn [map_err rbind]. eexists. split; [done|]. split; cbn; try done.
    + by repeat constructor.
    + by repeat constructor.
    + exists [s0], s. split_and!; [done|done| |done]. constructor; [lia|done].
    + split; [done|]. intros i ic Hc. destruct (Hi i ic Hc) as (? & ? & ? & Hx & ?). split_and!; try done.
      unfold inclusion_passed. by rewrite Hx.
    + by repeat constructor.
  - cbn [map_err rbind app length].
    destruct (seal_inclusion (J:=J) log (1 - 1) s Hw Hs Hr) as (incl & Ei & Hil & Hi). fold n in Ei.
    rewrite Ei. cbn [rbind]. eexists. split; [done|]. split; cbn; try done.
    + by repeat constructor.
    + by repeat constructor.
    + exists [], s. split_and!; [done|done|constructor|simpl; lia].
    + split; [done|]. intros i ic Hc. destruct (Hi i ic Hc) as (? & ? & ? & Hx & ?). split_and!; try done.
      unfold inclusion_passed. by rewrite Hx.
Qed.

Lemma sealed_no_equivocation b log enforce sk ctx : sealed b log enforce sk ctx -> no_equivocation (sths b).
Proof.
  intros Hb. destruct (sealed_head _ _ _ _ _ Hb) as (ss & s & -> & _ & Hf & Hl).
  destruct ss as [|s0 [|]]; simpl in *; [apply no_equivocation_single| |lia].
  apply no_equivocation_pair. by apply Forall_cons_1 in Hf as [? _].
Qed.
End Seal.

(** ** The append loop *)

Section Rows.
Context `{Sha256}.

Lemma append_rows_spec {R J} (to_entry : R -> Result Entry J) rows log es log' es' :
  append_rows to_entry log es rows = Ok (log', es') <->
  exists new, collect_results to_entry rows = Ok new /\ es' = es ++ new /\
    append_each log new = Ok log'.
Proof.
  revert log es; induction rows as [|r rows IH]; simpl; intros log es.
  { split.
    - intros [= -> ->]. exists []. by rewrite app_nil_r.
    - intros (new & [= <-] & -> & [= ->]). by rewrite app_nil_r. }
  destruct (to_entry r) as [e|er]; simpl.
  2: { split; [done|]. by intros (? & ? & _). }
  destruct (append log e) as [log1 [i|er]] eqn:Ea.
  - rewrite IH. split.
    + intros (new & -> & -> & E). exists (e :: new). simpl. rewrite Ea. by rewrite <- app_assoc.
    + intros (new & Hn & -> & E). rinv Hn. simplify_eq/=. rewrite Ea in E.
      eexists. split; [done|]. by rewrite <- app_assoc.
  - split; [done|]. intros (new & Hn & _ & E). rinv Hn. simplify_eq/=. by rewrite Ea in E.
Qed.

(** The append loop of a builder succeeds exactly when the rows' entries keep the rule. *)
Lemma append_rows_fresh {R J} (to_entry : R -> Result Entry J) t inv Rule `{!TenantRule inv Rule} rows es :
  collect_results to_entry rows = Ok es -> Forall (fun e => tenant e = t) es ->
  (exists log, append_rows to_entry (fresh_log t inv) [] rows = Ok (log, es)) <-> Rule es.
Proof.
  intros Hc Ht.
  rewrite <- (append_each_rule inv Rule t es (fresh_log t inv));
    [|by apply lookup_insert_eq|apply rule_nil|done].
  split; intros [log E]; exists log.
  - apply append_rows_spec in E as (new & Hn & -> & E). by simplify_eq/=.
  - apply append_rows_spec. exists es. done.
Qed.

Lemma append_rows_log {R J} (to_entry : R -> Result Entry J) t inv rows log es :
  append_rows to_entry (fresh_log t inv) [] rows = Ok (log, es) ->
  log_wf log /\ entries log = es /\ collect_results to_entry rows = Ok es.
Proof.
  intros (new & Hn & -> & E)%append_rows_spec. apply append_each_ok in E as (E1 & _ & Hw & _).
  by split_and!; [apply Hw| |].
Qed.
End Rows.

Section Leaves.
Context `{!SerdeJson L, !SerdeJsonLaws L} (tn : string).

(** [to_entry] and [decode] of the tenants, over the same serializer. *)
Definition leaf_entry (l : L) : Result Entry JsonError := let? b := to_vec l in Ok (mkEntry tn b).

Lemma leaf_entry_total l : exists e, leaf_entry l = Ok e.
Proof. unfold leaf_entry. destruct (to_vec_total l) as [b ->]. simpl. eauto. Qed.

Lemma leaf_entry_ok l e : leaf_entry l = Ok e -> tenant e = tn /\ from_slice (data e) = Ok l.
Proof. unfold leaf_entry. intros E. rinv E. simplify_eq. simpl. eauto using from_slice_to_vec. Qed.

(** The entries of a list of leaves exist, carry the tenant and parse back. *)
Lemma leaf_entries {R E} (f : R -> L) (g : JsonError -> E) rows :
  exists es, collect_results (fun r => leaf_entry (f r)) rows = Ok es /\
    Forall (fun e => tenant e = tn) es /\
    collect_results (fun e => map_err g (from_slice (data e))) es = Ok (map f rows).
Proof.
  induction rows as [|r rows (es & E1 & E2 & E3)]; simpl; [eauto|].
  destruct (leaf_entry_total (f r)) as [e He]. rewrite He, E1. simpl.
  eexists. split; [done|]. destruct (leaf_entry_ok _ _ He) as [Ht Hd].
  split; [by constructor|]. simpl. by rewrite Hd, E3.
Qed.
End Leaves.

(** ** Sealed bundles and the monitor *)

Section Accepted.
Context `{Sha256, !Sha256Laws} `{Hex, !HexLaws} `{Ed25519, !Ed25519Laws}.

Lemma sealed_public_key b log enforce sk ctx : sealed b log enforce sk ctx ->
  verifying_key_from_hex (public_key b) = Ok (verifying_key sk).
Proof.
  intros Hb. rewrite (sealed_key _ _ _ _ _ Hb). unfold verifying_key_from_hex.
  rewrite hex_decode_encode. simpl. by rewrite vk_to_bytes_length, vk_from_to_bytes.
Qed.

Lemma root_matches_ext log log' s : log_wf log -> log_wf log' -> entries log' = entries log ->
  root_matches log' s = root_matches log s.
Proof.
  intros Hw Hw' E. unfold root_matches, root_at. unfold log_wf in *. by rewrite Hw, Hw', E.
Qed.

(** A bundle sealed under the default context, for one tenant with distinct payloads,
    passes every check of the monitor. *)
Lemma sealed_accepted b log t sk : log_wf log -> sealed b log [t] sk STH_DOMAIN ->
  Forall (fun e => tenant e = t) (entries log) -> NoDup (map data (entries log)) ->
  verify_bundle b = Ok true.
Proof.
  intros Hw Hb Ht Hn. apply accepts_spec. exists (verifying_key sk).
  split; [by eapply sealed_public_key|]. destruct (sealed_inclusion _ _ _ _ _ Hb) as [_ Hi]. split.
  - exact (sealed_sigs _ _ _ _ _ Hb).
  - by eapply sealed_no_equivocation.
  - intros _. rewrite (sealed_enforce _ _ _ _ _ Hb), (sealed_entries _ _ _ _ _ Hb). simpl.
    destruct (proj2 (append_each_rule UniqueDataInvariant (fun es => NoDup (map data es)) t
      (entries log) (fresh_log t UniqueDataInvariant) (lookup_insert_eq _ _ _) (NoDup_nil_2) Ht) Hn) as [log' E].
    exists log'. split; [done|]. apply append_each_ok in E as (E & _ & Hw' & _).
    eapply Forall_impl; [exact (sealed_roots _ _ _ _ _ Hb)|]. simpl. intros s Hs.
    rewrite (root_matches_ext log); [done|done|by apply Hw'|done].
  - apply Forall_lookup_2. intros i c Hc. by destruct (Hi i c Hc) as (_ & _ & _ & _ & ?).
  - exact (sealed_consistency _ _ _ _ _ Hb).
Qed.

(** A builder's run: the append loop, then [seal]. *)
Lemma build_sealed {R J} (to_entry : R -> Result Entry J) t inv rows log es enforce sk ts c :
  append_rows to_entry (fresh_log t inv) [] rows = Ok (log, es) ->
  log_wf log /\ entries log = es /\ collect_results to_entry rows = Ok es /\
  exists b, seal (J:=J) log es enforce sk ts c = Ok b /\ sealed b log enforce sk (the_context c).
Proof.
  intros E. destruct (append_rows_log _ _ _ _ _ _ E) as (Hw & He & Hc).
  split_and!; [done..|]. rewrite <- He. by apply seal_spec.
Qed.
End Accepted.

(** ** Building a tenant's bundle

    The three builders share this shape: rows are projected to leaves, serialized to
    entries of the tenant and appended under the tenant's hook, whose rule is a property
    [P] of the leaf sequence. *)

Section TenantBundles.
Context `{Sha256, !Sha256Laws} `{Hex, !HexLaws} `{Ed25519, !Ed25519Laws}.
Context `{!SerdeJson L, !SerdeJsonLaws L}.
Context (tn : string) (inv : TenantInvariant) (g : JsonError -> InvariantViolation) (P : list L -> Prop).

Definition leaf_parse (e : Entry) : Result L InvariantViolation := map_err g (from_slice (data e)).

Definition leaf_rule (es : list Entry) : Prop :=
  exists ls, collect_results leaf_parse es = Ok ls /\ P ls.

Context `{!TenantRule inv leaf_rule}.
Context {R : Type} (f : R -> L).

Definition row_entry (r : R) : Result Entry JsonError := leaf_entry tn (f r).

(** The builder's run on [rows]. *)
Definition build_rows (enforce : list string) (sk : SigningKey) (ts : N) (c : option bytes)
    (rows : list R) : Result Bundle (BuilderError JsonError) :=
  let? le := append_rows row_entry (fresh_log tn inv) [] rows in
  seal (fst le) (snd le) enforce sk ts c.

(** What a successful run leaves behind. *)
Record built (b : Bundle) (enforce : list string) (sk : SigningKey) (ctx : bytes) (rows : list R)
    (log : VerifiableLog) : Prop := {
  built_wf : log_wf log;
  built_sealed : sealed b log enforce sk ctx;
  built_entries : collect_results row_entry rows = Ok (entries log);
  built_tenant : Forall (fun e => tenant e = tn) (entries log);
  built_parse : collect_results leaf_parse (entries log) = Ok (map f rows);
  built_rule : P (map f rows)
}.

Lemma row_entries rows es : collect_results row_entry rows = Ok es ->
  Forall (fun e => tenant e = tn) es /\ collect_results leaf_parse es = Ok (map f rows).
Proof. destruct (leaf_entries tn f g rows) as (es' & E & Hes). unfold row_entry. rewrite E. by intros [= <-]. Qed.

Lemma leaf_rule_rows rows es : collect_results row_entry rows = Ok es -> leaf_rule es <-> P (map f rows).
Proof.
  intros [_ Hp]%row_entries. unfold leaf_rule. rewrite Hp.
  split; [by intros (ls & [= <-] & Ho)|]. intros Ho. eexists. by split; [reflexivity|].
Qed.

Lemma build_rows_built enforce sk ts c rows b : build_rows enforce sk ts c rows = Ok b ->
  exists log, built b enforce sk (the_context c) rows log.
Proof.
  unfold build_rows. destruct (append_rows _ _ _ _) as [[log es]|] eqn:E; simpl; [|done]. intros Es.
  destruct (build_sealed row_entry tn inv rows log es enforce sk ts c E) as (Hw & He & Hc & b' & Es' & Hs).
  rewrite Es in Es'. injection Es' as <-. exists log. subst es.
  destruct (row_entries _ _ Hc) as [Ht Hp]. split; try done.
  apply (leaf_rule_rows _ _ Hc), (append_rows_fresh row_entry tn inv leaf_rule rows _ Hc Ht). eauto.
Qed.

Lemma built_entries_length b enforce sk ctx rows log : built b enforce sk ctx rows log ->
  log_size log = length rows.
Proof. intros Hb. exact (collect_results_length _ _ _ (built_entries _ _ _ _ _ _ Hb)). Qed.

Lemma build_rows_iff enforce sk ts c rows :
  (exists b, build_rows enforce sk ts c rows = Ok b) <-> P (map f rows).
Proof.
  split; [intros [b (log & Hb)%build_rows_built]; apply Hb|].
  destruct (leaf_entries tn f g rows) as (es & Hc & Ht & _). intros Hr.
  apply (leaf_rule_rows rows es Hc), (append_rows_fresh row_entry tn inv leaf_rule rows es Hc Ht) in Hr as [log E].
  destruct (build_sealed _ _ _ _ _ _ enforce sk ts c E) as (_ & _ & _ & b & Es & _).
  exists b. unfold build_rows. rewrite E. exact Es.
Qed.

(** Payloads that parse to distinct leaves are distinct. *)
Lemma leaves_unique es (before : L -> L -> Prop) ls :
  (forall l, ~ before l l) -> collect_results leaf_parse es = Ok ls -> ordered before ls ->
  NoDup (map data es).
Proof.
  intros Hirr Hp Ho. apply NoDup_alt. intros i j d Hi Hj.
  destruct (decide (i = j)) as [|Hne]; [done|exfalso].
  apply list_lookup_fmap_Some in Hi as (e1 & E1 & He1), Hj as (e2 & E2 & He2).
  destruct (collect_results_lookup_inv _ _ _ _ _ Hp He1) as (a & Ha & Pa).
  destruct (collect_results_lookup_inv _ _ _ _ _ Hp He2) as (b & Hb & Pb).
  assert (a = b) as -> by (unfold leaf_parse in Pa, Pb; rewrite <- E1 in Pa; rewrite <- E2 in Pb; congruence).
  destruct (Nat.lt_total i j) as [Hij|[Hij|Hij]]; [|done|];
    [by eapply Hirr, (Ho i j)|by eapply Hirr, (Ho j i)].
Qed.
End TenantBundles.

(** ** Theorems *)

Section Theorems.
Context `{Sha256, !Sha256Laws} `{Hex, !HexLaws} `{Ed25519, !Ed25519Laws}.

Definition commit_parse_error `{!SerdeJson CommitLog.CommitLeaf} (er : JsonError) : InvariantViolation :=
  mkViolation CommitLog.TENANT (fmt ["malformed commit-log leaf: "; json_error_display er]).

Definition account_parse_error `{!SerdeJson AccountKey.AccountKeyLeaf} (er : JsonError) : InvariantViolation :=
  mkViolation AccountKey.TENANT (fmt ["malformed account-key leaf: "; json_error_display er]).

Definition binary_parse_error `{!SerdeJson Binaries.BinaryRecord} (er : JsonError) : InvariantViolation :=
  mkViolation Binaries.TENANT (fmt ["malformed binary leaf: "; json_error_display er]).

Definition BinaryRecordsRule (ls : list Binaries.BinaryRecord) : Prop :=
  ordered no_fork ls /\ tags_contiguous ls /\ payloads_paired ls.

Section Commit.
Context `{!SerdeJson CommitLog.CommitLeaf, !SerdeJsonLaws CommitLog.CommitLeaf}.

Lemma build_bundle_built rows sk ts b : build_bundle rows sk ts = Ok b ->
  exists log, built CommitLog.TENANT commit_parse_error (ordered commit_before) CommitRow_to_leaf
    b [CommitLog.TENANT] sk STH_DOMAIN rows log.
Proof.
  intros E. exact (build_rows_built CommitLog.TENANT CommitLog.CommitLogInvariant commit_parse_error
    (ordered commit_before) (TenantRule0:=commit_rule) CommitRow_to_leaf [CommitLog.TENANT] sk ts None rows b E).
Qed.

(** [build_bundle] is total on honest data and refuses the rest.  It returns a
    bundle exactly when the rows' leaves form one strictly increasing epoch chain per
    conversation; a fork or an epoch regression aborts the build. *)
Theorem build_bundle_iff (rows : list CommitRow) (sk : SigningKey) (ts : N) :
  (exists b, build_bundle rows sk ts = Ok b) <->
  ordered commit_before (map CommitRow_to_leaf rows).
Proof.
  exact (build_rows_iff CommitLog.TENANT CommitLog.CommitLogInvariant commit_parse_error
    (ordered commit_before) (TenantRule0:=commit_rule) CommitRow_to_leaf [CommitLog.TENANT] sk ts None rows).
Qed.

Lemma commit_before_irrefl l : ~ commit_before l l.
Proof. intros Hl. specialize (Hl eq_refl). lia. Qed.

(** End to end, the monitor accepts what the builder produces.  Every bundle
    [build_bundle] returns, for any rows, key and timestamp, passes all five checks of
    the offline monitor: signatures, equivocation, replay and roots, every inclusion
    proof and the consistency proof. *)
Theorem build_bundle_monitor_accepts (rows : list CommitRow) (sk : SigningKey) (ts : N) (b : Bundle) :
  build_bundle rows sk ts = Ok b -> verify_bundle b = Ok true.
Proof.
  intros (log & Hb)%build_bundle_built. destruct Hb as [Hw Hs _ Ht Hp Ho].
  eapply sealed_accepted; [done..|]. eapply leaves_unique; [apply commit_before_irrefl|done..].
Qed.
End Commit.

Section Account.
Context `{!SerdeJson AccountKey.AccountKeyLeaf, !SerdeJsonLaws AccountKey.AccountKeyLeaf}.

Lemma build_account_bundle_built rows sk ts b : build_account_bundle rows sk ts = Ok b ->
  exists log, built AccountKey.TENANT account_parse_error (ordered key_before) AccountKeyRow_to_leaf
    b [AccountKey.TENANT] sk AccountKey.STH_CONTEXT rows log.
Proof.
  intros E. exact (build_rows_built AccountKey.TENANT AccountKey.AccountKeyInvariant account_parse_error
    (ordered key_before) (TenantRule0:=account_rule) AccountKeyRow_to_leaf [AccountKey.TENANT] sk ts
    (Some AccountKey.STH_CONTEXT) rows b E).
Qed.

(** [build_account_bundle] returns a bundle exactly when every user's identity
    versions strictly increase along the rows. *)
Theorem build_account_bundle_iff (rows : list AccountKeyRow) (sk : SigningKey) (ts : N) :
  (exists b, build_account_bundle rows sk ts = Ok b) <->
  ordered key_before (map AccountKeyRow_to_leaf rows).
Proof.
  exact (build_rows_iff AccountKey.TENANT AccountKey.AccountKeyInvariant account_parse_error
    (ordered key_before) (TenantRule0:=account_rule) AccountKeyRow_to_leaf [AccountKey.TENANT] sk ts
    (Some AccountKey.STH_CONTEXT) rows).
Qed.
End Account.

Section Binaries.
Context `{!SerdeJson Binaries.BinaryRecord, !SerdeJsonLaws Binaries.BinaryRecord}.

Lemma build_binaries_bundle_built records sk ts b : build_binaries_bundle records sk ts = Ok b ->
  exists log, built Binaries.TENANT binary_parse_error BinaryRecordsRule id
    b [Binaries.TENANT] sk Binaries.STH_CONTEXT records log.
Proof.
  intros E. exact (build_rows_built Binaries.TENANT Binaries.BinaryInvariant binary_parse_error
    BinaryRecordsRule (TenantRule0:=binary_rule) id [Binaries.TENANT] sk ts
    (Some Binaries.STH_CONTEXT) records b E).
Qed.

(** [build_binaries_bundle] returns a bundle exactly when the records have no fork,
    contiguous release tags and a payload before each signed or executable record; and
    every head of the bundle verifies under the binaries context, every root is the root
    of the records' prefix and every inclusion proof checks. *)
Theorem build_binaries_bundle_spec (records : list Binaries.BinaryRecord) (sk : SigningKey) (ts : N) :
  ((exists b, build_binaries_bundle records sk ts = Ok b) <->
   ordered no_fork records /\ tags_contiguous records /\ payloads_paired records) /\
  forall b, build_binaries_bundle records sk ts = Ok b ->
    Forall (fun s => verify_with_context s (verifying_key sk) Binaries.STH_CONTEXT = true /\
      root_bytes s = Ok (entries_root (take (N.to_nat (tree_size s)) (bundle_entries b)))) (sths b) /\
    length (inclusion b) = length records /\
    Forall (fun c => inclusion_passed b c = true) (inclusion b) /\
    collect_results Binaries.decode (map data (bundle_entries b)) = Ok records.
Proof.
  split.
  - pose proof (build_rows_iff Binaries.TENANT Binaries.BinaryInvariant binary_parse_error
      BinaryRecordsRule (TenantRule0:=binary_rule) id [Binaries.TENANT] sk ts
      (Some Binaries.STH_CONTEXT) records) as Hi. rewrite map_id in Hi. exact Hi.
  - intros b (log & Hb)%build_binaries_bundle_built. destruct Hb as [Hw Hs Hc Ht Hp Ho].
    destruct (sealed_inclusion _ _ _ _ _ Hs) as [Hl Hi]. rewrite (sealed_entries _ _ _ _ _ Hs). split_and!.
    + apply Forall_and. split; [exact (sealed_sigs _ _ _ _ _ Hs)|].
      eapply Forall_impl; [exact (sealed_roots _ _ _ _ _ Hs)|]. simpl. intros s Hm.
      by destruct (root_matches_spec log s Hw Hm).
    + rewrite Hl. unfold log_size. by rewrite (collect_results_length _ _ _ Hc).
    + apply Forall_lookup_2. intros i c Hic. by destruct (Hi i c Hic) as (_ & _ & _ & _ & ?).
    + rewrite map_id in Hp. clear - Hp. revert records Hp.
      induction (entries log) as [|e es IH]; simpl; intros rs Hp; [by simplify_eq|].
      unfold Binaries.decode at 1. unfold leaf_parse in Hp at 1.
      destruct (from_slice (data e)); simpl in *; [|done].
      destruct (collect_results _ es) as [rs'|]; simpl in *; [|done]. simplify_eq.
      by rewrite (IH rs' eq_refl).
Qed.
End Binaries.
End Theorems.

(** ** Evaluation on concrete rows *)

Section Concrete.

#[local] Instance commit_json : SerdeJson CommitLog.CommitLeaf := ClearJson.instance.
#[local] Instance commit_json_laws : SerdeJsonLaws CommitLog.CommitLeaf := ClearJson.laws.
#[local] Instance binary_json : SerdeJson Binaries.BinaryRecord := ClearJson.instance.
#[local] Instance binary_json_laws : SerdeJsonLaws Binaries.BinaryRecord := ClearJson.laws.

#[local] Definition builder_key : SigningKey := ClearSig.repeat_seed x03.

#[local] Definition sample_rows : list CommitRow :=
  [mkCommitRow 1 "dm" 0 "al" "00"; mkCommitRow 2 "gr" 0 "bo" "01"; mkCommitRow 4 "dm" 1 "bo" "02"].

#[local] Definition sample_record (layer : Binaries.Layer) (sum : string) : Binaries.BinaryRecord :=
  Binaries.mkBinaryRecord "v1" "c" "mac" "arm" "dmg" "a" layer "ps" sum
    (Binaries.mkToolchain "1" "2" "3" "4" 5) "u".

Lemma build_bundle_iff_witness :
  (exists b, build_bundle sample_rows builder_key 9 = Ok b) <->
  ordered commit_before (map CommitRow_to_leaf sample_rows).
Proof. exact (build_bundle_iff sample_rows builder_key 9). Defined.

Lemma build_bundle_monitor_accepts_witness :
  exists b, build_bundle sample_rows builder_key 9 = Ok b /\ verify_bundle b = Ok true.
Proof.
  destruct (build_bundle sample_rows builder_key 9) as [b|] eqn:E.
  - exists b. exact (conj eq_refl (build_bundle_monitor_accepts sample_rows builder_key 9 b E)).
  - vm_compute in E. discriminate E.
Defined.

Lemma build_binaries_bundle_spec_witness :
  (exists b, build_binaries_bundle [sample_record Binaries.Payload "x"; sample_record Binaries.Signed "y"]
     builder_key 9 = Ok b) <->
  ordered no_fork [sample_record Binaries.Payload "x"; sample_record Binaries.Signed "y"] /\
  tags_contiguous [sample_record Binaries.Payload "x"; sample_record Binaries.Signed "y"] /\
  payloads_paired [sample_record Binaries.Payload "x"; sample_record Binaries.Signed "y"].
Proof.
  exact (proj1 (build_binaries_bundle_spec
    [sample_record Binaries.Payload "x"; sample_record Binaries.Signed "y"] builder_key 9)).
Defined.

(** Both accepted and refused inputs exist. *)
Example builders_decide :
  is_ok (build_bundle sample_rows builder_key 9) = true /\
  is_ok (build_bundle (sample_rows ++ [mkCommitRow 5 "dm" 1 "ev" "03"]) builder_key 9) = false /\
  is_ok (build_binaries_bundle [sample_record Binaries.Payload "x"; sample_record Binaries.Signed "y"]
           builder_key 9) = true /\
  is_ok (build_binaries_bundle [sample_record Binaries.Payload "x"; sample_record Binaries.Payload "y"]
           builder_key 9) = false.
Proof. split_and!; vm_compute; reflexivity. Qed.

#[local] Instance account_json : SerdeJson AccountKey.AccountKeyLeaf := ClearJson.instance.

(** The monitor checks heads under the default context only: an account bundle, whose heads
    are signed under the account-keys context, does not pass it. *)
Example monitor_refuses_account_bundle :
  exists b, build_account_bundle [mkAccountKeyRow 1 "al" 1 "k1"] builder_key 9 = Ok b /\
    verify_bundle b = Ok false.
Proof.
  destruct (build_account_bundle [mkAccountKeyRow 1 "al" 1 "k1"] builder_key 9) as [b|] eqn:E.
  - exists b. split; [reflexivity|]. vm_compute in E. injection E as <-. vm_compute. reflexivity.
  - vm_compute in E. discriminate E.
Qed.
End Concrete.
