(* ===== verification/Verifiers.v ===== *)
(** * verifiable-log-serve: per-group and per-account verdicts

    Models [group.rs] and [account.rs]: [verify_group_in_bundle] and
    [verify_account_in_bundle], the one place either verdict is computed, with the reports
    they return.  A message of [violations] is a constructor of [Violation] carrying the
    values its format string prints.

    The theorems relate a valid verdict to the log the signed head commits to
    ([group_report_sound]) and show that an honestly built bundle gets one
    ([group_report_complete], [account_report_complete]). *)

From stdpp Require Import base list strings gmap pretty sorting.
From Stdlib Require Import NArith ZArith Lia ZifyNat ZifyN.
From Stdlib Require Import Strings.Byte.
From S2P Require Import Prelude Crypto Merkle Log Tenants Monitor Builder.

(** ** Shared steps *)

(** [iter().max_by_key(|s| s.tree_size)]: the last of the largest heads. *)
Definition latest_sth (ss : list Sth) : option Sth :=
  fold_left (fun acc s =>
    match acc with
    | Some m => if (tree_size m <=? tree_size s)%N then Some s else Some m
    | None => Some s
    end) ss None.

(** The bundle's proofs against the newest head, by leaf index; a later one replaces an
    earlier one with the same index. *)
Definition inclusion_by_index (latest : option Sth) (cs : list InclusionCheck) : gmap nat InclusionProof :=
  fold_left (fun m c =>
    if match latest with
       | Some s => (ip_tree_size (ic_proof c) =? tree_size s)%N
       | None => false
       end
    then <[N.to_nat (leaf_index (ic_proof c)) := ic_proof c]> m
    else m) cs ∅.

Inductive Violation (J : Type) : Type :=
| BadSthSignature
| NotIncluded (sq : Z) (version : N)
| RejectedAppend (e : Error)
| ReencodeFailed (sq : Z) (version : N) (e : J).
Arguments BadSthSignature {J}.
Arguments NotIncluded {J} sq version.
Arguments RejectedAppend {J} e.
Arguments ReencodeFailed {J} sq version e.

Section Shared.
Context `{Sha256} `{Hex} `{Ed25519}.

(** The newest head's size, root and whether it verifies under [context]. *)
Definition trust_anchor (context : bytes) (b : Bundle) : N * string * bool :=
  match latest_sth (sths b), ok (verifying_key_from_hex (public_key b)) with
  | Some s, Some vk => (tree_size s, sth_root_hash s, verify_with_context s vk context)
  | Some s, None => (tree_size s, sth_root_hash s, false)
  | None, _ => (0%N, "", false)
  end.

Definition entry_included (b : Bundle) (i : nat) : bool :=
  let latest := latest_sth (sths b) in
  match inclusion_by_index latest (inclusion b) !! i, latest, bundle_entries b !! i with
  | Some proof, Some s, Some e => verify_inclusion_proof e proof s
  | _, _, _ => false
  end.

(** The steps both verifiers take over the leaves [L] of their tenant: the same code at
    [CommitLeaf] and at [AccountKeyLeaf]. *)
Section Leaf.
Context {L J : Type} (tn : string) (decode : bytes -> Result L J) (to_entry : L -> Result Entry J).
Context (sq : L -> Z) (version : L -> N) (mine : L -> bool).

(** Membership: the tenant's entries that decode and match, with their leaf index, in
    [seq] order. *)
Definition select_leaves (b : Bundle) : list (nat * L) :=
  sort_by_key (fun il => sq il.2)
    (omap (fun ie : nat * Entry =>
       if negb (bool_decide (tenant ie.2 = tn)) then None
       else match decode (data ie.2) with
            | Ok leaf => if mine leaf then Some (ie.1, leaf) else None
            | Err _ => None
            end) (imap pair (bundle_entries b))).

(** The inclusion loop: [all_included] and its violations. *)
Fixpoint include_all (b : Bundle) (sel : list (nat * L)) : bool * list (Violation J) :=
  match sel with
  | [] => (true, [])
  | il :: sel' =>
      let '(all, vs) := include_all b sel' in
      if entry_included b il.1 then (all, vs)
      else (false, NotIncluded (sq il.2) (version il.2) :: vs)
  end.

(** The invariant replay: [invariant_ok] and its violations. *)
Fixpoint replay_all (log : VerifiableLog) (sel : list (nat * L)) : bool * list (Violation J) :=
  match sel with
  | [] => (true, [])
  | il :: sel' =>
      match to_entry il.2 with
      | Ok e =>
          let '(log', res) := append log e in
          let '(rest, vs) := replay_all log' sel' in
          match res with
          | Ok _ => (rest, vs)
          | Err er => (false, RejectedAppend er :: vs)
          end
      | Err er =>
          let '(_, vs) := replay_all log sel' in
          (false, ReencodeFailed (sq il.2) (version il.2) er :: vs)
      end
  end.
End Leaf.
End Shared.

(** ** group.rs *)

Module Group.
Import CommitLog.

Record GroupCommit := mkGroupCommit {
  gc_epoch : N;
  gc_seq : Z;
  gc_sender_id : string;
  gc_commit_sha256 : string;
  included : bool
}.

Record GroupReport {J : Type} := mkGroupReport {
  group_id : string;
  found : bool;
  sth_tree_size : N;
  root_hex : string;
  commits : list GroupCommit;
  chain_valid : bool;
  violations : list (Violation J)
}.
Arguments GroupReport J : clear implicits.

Section Ops.
Context `{Sha256} `{Hex} `{Ed25519} `{!SerdeJson CommitLeaf}.

Definition selected (b : Bundle) (id : string) : list (nat * CommitLeaf) :=
  select_leaves TENANT decode seq (fun leaf => bool_decide (conversation_id leaf = id)) b.

Definition commit_of (b : Bundle) (il : nat * CommitLeaf) : GroupCommit :=
  mkGroupCommit (epoch il.2) (seq il.2) (sender_id il.2) (commit_sha256 il.2) (entry_included b il.1).

Definition verify_group_in_bundle (b : Bundle) (id : string) : GroupReport JsonError :=
  let '(size, root, sth_sig_ok) := trust_anchor STH_DOMAIN b in
  let sel := selected b id in
  let '(all_included, vs1) := include_all seq epoch b sel in
  let log := register_invariant VerifiableLog_new TENANT CommitLogInvariant in
  let '(invariant_ok, vs2) := replay_all to_entry seq epoch log sel in
  mkGroupReport _ id (negb (bool_decide (sel = []))) size root (map (commit_of b) sel)
    (sth_sig_ok && all_included && invariant_ok)
    ((if sth_sig_ok then [] else [BadSthSignature]) ++ vs1 ++ vs2).
End Ops.
End Group.

(** ** account.rs *)

Module Account.
Import AccountKey.

Record AccountKeyVersion := mkAccountKeyVersion {
  kv_identity_version : N;
  kv_seq : Z;
  kv_account_id_pub : string;
  kv_included : bool
}.

Record AccountReport {J : Type} := mkAccountReport {
  ar_user : string;
  ar_found : bool;
  ar_sth_tree_size : N;
  ar_root_hex : string;
  ar_keys : list AccountKeyVersion;
  ar_chain_valid : bool;
  ar_violations : list (Violation J)
}.
Arguments AccountReport J : clear implicits.

Section Ops.
Context `{Sha256} `{Hex} `{Ed25519} `{!SerdeJson AccountKeyLeaf}.

Definition selected (b : Bundle) (id : string) : list (nat * AccountKeyLeaf) :=
  select_leaves TENANT decode seq (fun leaf => bool_decide (user_id leaf = id)) b.

Definition key_of (b : Bundle) (il : nat * AccountKeyLeaf) : AccountKeyVersion :=
  mkAccountKeyVersion (identity_version il.2) (seq il.2) (account_id_pub il.2) (entry_included b il.1).

Definition verify_account_in_bundle (b : Bundle) (id : string) : AccountReport JsonError :=
  let '(size, root, sth_sig_ok) := trust_anchor STH_CONTEXT b in
  let sel := selected b id in
  let '(all_included, vs1) := include_all seq identity_version b sel in
  let log := register_invariant VerifiableLog_new TENANT AccountKeyInvariant in
  let '(invariant_ok, vs2) := replay_all to_entry seq identity_version log sel in
  mkAccountReport _ id (negb (bool_decide (sel = []))) size root (map (key_of b) sel)
    (sth_sig_ok && all_included && invariant_ok)
    ((if sth_sig_ok then [] else [BadSthSignature]) ++ vs1 ++ vs2).
End Ops.
End Account.

(** ** Lemmas on the shared steps *)

Lemma latest_sth_snoc ss s : latest_sth (ss ++ [s]) =
  match latest_sth ss with
  | Some m => if (tree_size m <=? tree_size s)%N then Some s else Some m
  | None => Some s
  end.
Proof. unfold latest_sth. by rewrite fold_left_app. Qed.

Lemma latest_sth_elem ss s : latest_sth ss = Some s ->
  s ∈ ss /\ Forall (fun s' => (tree_size s' <= tree_size s)%N) ss.
Proof.
  revert s; induction ss as [|a ss IH] using rev_ind; intros s; [done|].
  rewrite latest_sth_snoc, elem_of_app, Forall_app, list_elem_of_singleton, Forall_singleton.
  destruct (latest_sth ss) as [m|] eqn:E.
  - destruct (IH m eq_refl) as [Hm Hf]. destruct (N.leb_spec (tree_size m) (tree_size a)); intros [= <-].
    + split_and!; [by right| |lia]. eapply Forall_impl; [exact Hf|]. simpl. lia.
    + split_and!; [by left|done|lia].
  - intros [= <-]. split_and!; [by right| |lia]. destruct ss as [|x ss _] using rev_ind; [constructor|].
    rewrite latest_sth_snoc in E. by destruct (latest_sth ss); [destruct (_ <=? _)%N|].
Qed.

Lemma latest_sth_last ss s : Forall (fun s' => (tree_size s' < tree_size s)%N) ss ->
  latest_sth (ss ++ [s]) = Some s.
Proof.
  intros Hf. rewrite latest_sth_snoc. destruct (latest_sth ss) as [m|] eqn:E; [|done].
  apply latest_sth_elem in E as [Hm _]. rewrite Forall_forall in Hf. specialize (Hf m Hm).
  by rewrite (proj2 (N.leb_le _ _)) by lia.
Qed.

Lemma inclusion_by_index_elem latest cs i p :
  inclusion_by_index latest cs !! i = Some p ->
  exists c s, c ∈ cs /\ ic_proof c = p /\ N.to_nat (leaf_index p) = i /\
    latest = Some s /\ ip_tree_size p = tree_size s.
Proof.
  unfold inclusion_by_index. induction cs as [|c cs IH] using rev_ind; [done|].
  rewrite fold_left_app. simpl. destruct latest as [s|]; [destruct (N.eqb_spec (ip_tree_size (ic_proof c)) (tree_size s))|].
  - intros [[<- <-]|[Hne Hl]]%lookup_insert_Some.
    + exists c, s. split_and!; try done. apply elem_of_app. right. by apply list_elem_of_singleton.
    + destruct (IH Hl) as (c' & s' & ? & ?). exists c', s'. split; [apply elem_of_app; by left|done].
  - intros Hl. destruct (IH Hl) as (c' & s' & ? & ?). exists c', s'. split; [apply elem_of_app; by left|done].
  - intros Hl. destruct (IH Hl) as (c' & s' & ? & ? & ? & ? & ?). done.
Qed.

(** When each proof sits at its own index, it is the one found there. *)
Lemma inclusion_by_index_lookup s cs i c :
  (forall j d, cs !! j = Some d -> leaf_index (ic_proof d) = N.of_nat j /\ ip_tree_size (ic_proof d) = tree_size s) ->
  cs !! i = Some c -> inclusion_by_index (Some s) cs !! i = Some (ic_proof c).
Proof.
  unfold inclusion_by_index. induction cs as [|d cs IH] using rev_ind; [done|]. intros Hd Hc.
  rewrite fold_left_app. simpl.
  destruct (Hd (length cs) d) as [Hl Ht]; [by apply list_lookup_middle|].
  rewrite Ht, N.eqb_refl, Hl, Nat2N.id. apply lookup_app_Some in Hc as [Hc|[Hle Hc]].
  - rewrite lookup_insert_ne by (apply lookup_lt_Some in Hc; lia). apply IH; [|done].
    intros j d' Hj. apply Hd. by apply lookup_app_l_Some.
  - apply list_lookup_singleton_Some in Hc as [Hz <-]. replace i with (length cs) by lia.
    by rewrite lookup_insert_eq.
Qed.

Section LeafLemmas.
Context `{Sha256} `{Hex} `{Ed25519}.
Context {L J : Type} (tn : string) (decode : bytes -> Result L J) (to_entry : L -> Result Entry J).
Context (sq : L -> Z) (version : L -> N) (mine : L -> bool).

Lemma select_leaves_elem b i l :
  (i, l) ∈ select_leaves tn decode sq mine b <->
  exists e, bundle_entries b !! i = Some e /\ tenant e = tn /\ decode (data e) = Ok l /\ mine l = true.
Proof.
  unfold select_leaves. rewrite sort_by_key_perm, list_elem_of_omap. split.
  - intros ([j e] & Hin & E). simpl in E. apply elem_of_lookup_imap in Hin as (j' & e' & [= <- <-] & Hj).
    exists e. destruct (decide (tenant e = tn)) as [Ht|Ht];
      [rewrite bool_decide_eq_true_2 in E by done|by rewrite bool_decide_eq_false_2 in E].
    simpl in E. destruct (decode (data e)) as [l'|]; [|done].
    destruct (mine l') eqn:Em; simplify_eq. by split_and!.
  - intros (e & He & Ht & Hd & Hm). exists (i, e). split.
    + apply elem_of_lookup_imap. by exists i, e.
    + simpl. rewrite bool_decide_eq_true_2 by done. simpl. by rewrite Hd, Hm.
Qed.

Lemma include_all_true b sel :
  (include_all sq version b sel (J:=J)).1 = true <-> Forall (fun il => entry_included b il.1 = true) sel.
Proof.
  induction sel as [|il sel IH]; simpl; [by split|].
  rewrite Forall_cons. destruct (include_all _ _ b sel) as [all vs]. simpl in IH.
  destruct (entry_included b il.1); simpl; naive_solver.
Qed.

Lemma include_all_violations b sel :
  (include_all sq version b sel (J:=J)).1 = true <-> (include_all sq version b sel (J:=J)).2 = [].
Proof.
  induction sel as [|il sel IH]; simpl; [by split|].
  destruct (include_all _ _ b sel) as [all vs]. simpl in IH. by destruct (entry_included b il.1).
Qed.

Lemma replay_all_true log sel :
  (replay_all to_entry sq version log sel).1 = true <->
  exists es log', collect_results (fun il : nat * L => to_entry il.2) sel = Ok es /\ append_each log es = Ok log'.
Proof.
  revert log; induction sel as [|il sel IH]; simpl; intros log.
  { split; [|done]. intros _. by exists [], log. }
  destruct (to_entry il.2) as [e|er]; simpl.
  2: { destruct (replay_all _ _ _ log sel). split; [done|]. by intros (? & ? & ? & _). }
  destruct (append log e) as [log1 [i|er]] eqn:Ea; specialize (IH log1);
    destruct (replay_all _ _ _ log1 sel) as [rest vs]; simpl in *.
  - rewrite IH. split.
    + intros (es & log' & -> & E). exists (e :: es), log'. simpl. by rewrite Ea.
    + intros (es & log' & Hc & E). rinv Hc. simplify_eq. simpl in E. rewrite Ea in E. eauto.
  - split; [done|]. intros (es & log' & Hc & E). rinv Hc. simplify_eq. simpl in E. by rewrite Ea in E.
Qed.

Lemma replay_all_violations log sel :
  (replay_all to_entry sq version log sel).1 = true <-> (replay_all to_entry sq version log sel).2 = [].
Proof.
  revert log; induction sel as [|il sel IH]; simpl; intros log; [by split|].
  destruct (to_entry il.2) as [e|er]; simpl.
  2: { by destruct (replay_all _ _ _ log sel). }
  destruct (append log e) as [log1 [i|er]]; specialize (IH log1);
    by destruct (replay_all _ _ _ log1 sel) as [rest vs].
Qed.
End LeafLemmas.

(** ** Verdicts *)

Section Verdicts.
Context `{Sha256, !Sha256Laws} `{Hex, !HexLaws} `{Ed25519, !Ed25519Laws}.

Lemma trust_anchor_true ctx b size root : trust_anchor ctx b = (size, root, true) ->
  exists s vk, latest_sth (sths b) = Some s /\ verifying_key_from_hex (public_key b) = Ok vk /\
    verify_with_context s vk ctx = true /\ size = tree_size s /\ root = sth_root_hash s.
Proof.
  unfold trust_anchor. destruct (latest_sth (sths b)) as [s|]; [|done].
  destruct (verifying_key_from_hex (public_key b)) as [vk|]; simpl; [|done].
  intros E. simplify_eq. by exists s, vk.
Qed.

(** The preimages of checking the bundle's proofs against the entries [es]. *)
Definition bundle_collision_free (es : list Entry) (b : Bundle) : Prop :=
  forall e c, e ∈ bundle_entries b -> c ∈ inclusion b ->
    collision_free (inclusion_check_queries es e (ic_proof c)).

Lemma entry_included_sound b i s es :
  latest_sth (sths b) = Some s -> root_bytes s = Ok (entries_root es) ->
  tree_size s = N.of_nat (length es) -> Forall tenant_fits es -> Forall tenant_fits (bundle_entries b) ->
  bundle_collision_free es b -> entry_included b i = true ->
  exists e, bundle_entries b !! i = Some e /\ es !! i = Some e.
Proof.
  intros Hl Hr Hs Hf Hfb HQ. unfold entry_included. rewrite Hl.
  destruct (inclusion_by_index _ _ !! i) as [p|] eqn:Ep; [|done].
  destruct (bundle_entries b !! i) as [e|] eqn:Ee; [|done]. intros Hv.
  apply inclusion_by_index_elem in Ep as (c & s' & Hc & <- & <- & _ & _).
  exists e. split; [done|]. pose proof (list_elem_of_lookup_2 _ _ _ Ee) as Hin.
  eapply inclusion_sound_entries; try done; [|by apply HQ]. rewrite Forall_forall in Hfb. auto.
Qed.

Lemma sealed_latest b log enforce sk ctx : sealed b log enforce sk ctx ->
  exists s, latest_sth (sths b) = Some s /\ tree_size s = N.of_nat (log_size log) /\
    sths b !! (length (sths b) - 1) = Some s.
Proof.
  intros Hb. destruct (sealed_head _ _ _ _ _ Hb) as (ss & s & -> & Hs & Hf & _). exists s.
  rewrite latest_sth_last by done. split_and!; [done..|].
  rewrite length_app. simpl. replace (length ss + 1 - 1) with (length ss) by lia. by apply list_lookup_middle.
Qed.

Lemma sealed_trust_anchor b log enforce sk ctx : sealed b log enforce sk ctx ->
  exists root, trust_anchor ctx b = (N.of_nat (log_size log), root, true).
Proof.
  intros Hb. destruct (sealed_latest _ _ _ _ _ Hb) as (s & Hl & Hs & Hlast). unfold trust_anchor.
  rewrite Hl, (sealed_public_key _ _ _ _ _ Hb). simpl. exists (sth_root_hash s). rewrite Hs.
  pose proof (sealed_sigs _ _ _ _ _ Hb) as Hf. rewrite Forall_forall in Hf.
  by rewrite Hf by by eapply list_elem_of_lookup_2.
Qed.

Context `{!SerdeJson L, !SerdeJsonLaws L} (tn : string) (inv : TenantInvariant).
Context (g : JsonError -> InvariantViolation) (P : list L -> Prop) `{!TenantRule inv (leaf_rule g P)}.
Context (sq : L -> Z) (version : L -> N) (mine : L -> bool).

(** The replay accepts exactly the leaf sequences that keep the tenant's rule. *)
Lemma replay_all_rule sel :
  (replay_all (leaf_entry tn) sq version (fresh_log tn inv) sel).1 = true <-> P (map snd sel).
Proof.
  rewrite replay_all_true. destruct (leaf_entries tn (R:=nat * L) snd g sel) as (es & Hc & Ht & _).
  rewrite <- (leaf_rule_rows tn g P snd sel es) by exact Hc.
  rewrite <- (append_each_rule inv (leaf_rule g P) tn es (fresh_log tn inv) (lookup_insert_eq _ _ _) rule_nil Ht).
  split; [intros (es' & log' & Hc' & E)|intros [log' E]; eauto]. rewrite Hc in Hc'. simplify_eq. eauto.
Qed.

Lemma replay_all_pass sel : P (map snd sel) ->
  replay_all (leaf_entry tn) sq version (fresh_log tn inv) sel = (true, []).
Proof.
  intros Hp%replay_all_rule. pose proof (proj1 (replay_all_violations _ _ _ _ _) Hp) as Hv.
  destruct (replay_all _ _ _ _ _) as [ok vs]. by simplify_eq/=.
Qed.

Lemma include_all_pass b sel : Forall (fun il : nat * L => entry_included b il.1 = true) sel ->
  include_all sq version b sel = (true, @nil (Violation JsonError)).
Proof.
  intros Hi%(include_all_true (J:=JsonError) sq version). pose proof (proj1 (include_all_violations _ _ _ _) Hi) as Hv.
  destruct (include_all _ _ _ _) as [ok vs]. by simplify_eq/=.
Qed.

(** The leaves of a one-tenant bundle, in entry order. *)
Lemma omap_leaves (k : nat -> nat) es ls : Forall (fun e => tenant e = tn) es ->
  collect_results (leaf_parse g) es = Ok ls ->
  map snd (omap (fun ie : nat * Entry =>
       if negb (bool_decide (tenant ie.2 = tn)) then None
       else match from_slice (data ie.2) with
            | Ok leaf => if mine leaf then Some (ie.1, leaf) else None
            | Err _ => None
            end) (imap (fun i e => (k i, e)) es)) = List.filter mine ls.
Proof.
  revert k ls; induction es as [|e es IH]; intros k ls Ht Hc; simpl in *; [by simplify_eq|].
  apply Forall_cons_1 in Ht as [He Ht]. rewrite bool_decide_eq_true_2 by done. simpl.
  unfold leaf_parse at 1 in Hc. destruct (from_slice (data e)) as [l|]; simpl in Hc; [|done].
  destruct (collect_results _ es) as [ls'|] eqn:Ec; simplify_eq/=.
  specialize (IH (k ∘ S) ls' Ht eq_refl). destruct (mine l); simpl; [f_equal|]; exact IH.
Qed.

Context {R : Type} (f : R -> L).

(** On a bundle built from rows in [seq] order, the selection is the matching rows. *)
Lemma built_selected b enforce sk ctx rows log : built tn g P f b enforce sk ctx rows log ->
  ordered (key_le sq) (map f rows) ->
  map snd (select_leaves tn from_slice sq mine b) = List.filter mine (map f rows).
Proof.
  intros Hb Ho. unfold select_leaves.
  rewrite (sealed_entries _ _ _ _ _ (built_sealed _ _ _ _ _ _ _ _ _ _ Hb)).
  pose proof (omap_leaves id _ _ (built_tenant _ _ _ _ _ _ _ _ _ _ Hb) (built_parse _ _ _ _ _ _ _ _ _ _ Hb)) as E.
  change (imap (fun i e => (id i, e)) (entries log)) with (imap pair (entries log)) in E.
  rewrite sort_by_key_id; [exact E|].
  apply (ordered_map (key_le sq) snd). rewrite E. by apply ordered_filter.
Qed.

Lemma built_included b enforce sk ctx rows log i : built tn g P f b enforce sk ctx rows log ->
  i < log_size log -> entry_included b i = true.
Proof.
  intros Hb Hi. pose proof (built_sealed _ _ _ _ _ _ _ _ _ _ Hb) as Hs.
  destruct (sealed_latest _ _ _ _ _ Hs) as (s & Hl & Hsz & Hlast).
  destruct (sealed_inclusion _ _ _ _ _ Hs) as [Hlen Hin].
  destruct (lookup_lt_is_Some_2 (inclusion b) i) as [c Hc]; [lia|].
  destruct (Hin i c Hc) as (He & _ & _ & Hx & Hp). unfold entry_included.
  rewrite Hl, (inclusion_by_index_lookup s (inclusion b) i c), (sealed_entries _ _ _ _ _ Hs), He; [|intros j d Hd|done].
  2: { destruct (Hin j d Hd) as (_ & ? & ? & _). by rewrite Hsz. }
  unfold inclusion_passed in Hp. by rewrite Hx, Hlast in Hp.
Qed.
End Verdicts.

(** ** Theorems *)

Section GroupTheorems.
Context `{Sha256, !Sha256Laws} `{Hex, !HexLaws} `{Ed25519, !Ed25519Laws}.
Context `{!SerdeJson CommitLog.CommitLeaf, !SerdeJsonLaws CommitLog.CommitLeaf}.
Import Group.

(** The report, with its loops named. *)
Lemma group_report_eq b id size root ok all vs1 inv vs2 :
  trust_anchor STH_DOMAIN b = (size, root, ok) ->
  include_all CommitLog.seq CommitLog.epoch b (selected b id) = (all, vs1) ->
  replay_all CommitLog.to_entry CommitLog.seq CommitLog.epoch
    (fresh_log CommitLog.TENANT CommitLog.CommitLogInvariant) (selected b id) = (inv, vs2) ->
  verify_group_in_bundle b id =
    mkGroupReport _ id (negb (bool_decide (selected b id = []))) size root
      (map (commit_of b) (selected b id)) (ok && all && inv)
      ((if ok then [] else [BadSthSignature]) ++ vs1 ++ vs2).
Proof. unfold verify_group_in_bundle. by intros -> -> ->. Qed.

Lemma group_replay_rule sel :
  (replay_all CommitLog.to_entry CommitLog.seq CommitLog.epoch
    (fresh_log CommitLog.TENANT CommitLog.CommitLogInvariant) sel).1 = true <->
  ordered commit_before (map snd sel).
Proof.
  exact (replay_all_rule CommitLog.TENANT CommitLog.CommitLogInvariant commit_parse_error
    (ordered commit_before) (TenantRule0:=commit_rule) CommitLog.seq CommitLog.epoch sel).
Qed.

(** A valid group verdict, unfolded into its three checks. *)
Lemma group_chain_valid b id : chain_valid (verify_group_in_bundle b id) = true ->
  (exists s vk, latest_sth (sths b) = Some s /\ verifying_key_from_hex (public_key b) = Ok vk /\
     Sth_verify s vk = true) /\
  Forall (fun il => entry_included b il.1 = true) (selected b id) /\
  ordered commit_before (map snd (selected b id)) /\
  commits (verify_group_in_bundle b id) = map (commit_of b) (selected b id) /\
  violations (verify_group_in_bundle b id) = [].
Proof.
  destruct (trust_anchor STH_DOMAIN b) as [[size root] ok] eqn:Ea.
  destruct (include_all CommitLog.seq CommitLog.epoch b (selected b id) (J:=JsonError)) as [all vs1] eqn:Ei.
  destruct (replay_all CommitLog.to_entry CommitLog.seq CommitLog.epoch
    (fresh_log CommitLog.TENANT CommitLog.CommitLogInvariant) (selected b id)) as [inv vs2] eqn:Er.
  rewrite (group_report_eq _ _ _ _ _ _ _ _ _ Ea Ei Er). simpl. intros Hv.
  apply andb_true_iff in Hv as [[-> ->]%andb_true_iff ->].
  destruct (trust_anchor_true _ _ _ _ Ea) as (s & vk & ? & ? & ? & _ & _).
  pose proof (include_all_true (J:=JsonError) CommitLog.seq CommitLog.epoch b (selected b id)) as Hi.
  pose proof (include_all_violations (J:=JsonError) CommitLog.seq CommitLog.epoch b (selected b id)) as Hvi.
  pose proof (group_replay_rule (selected b id)) as Hr.
  pose proof (replay_all_violations CommitLog.to_entry CommitLog.seq CommitLog.epoch
    (fresh_log CommitLog.TENANT CommitLog.CommitLogInvariant) (selected b id)) as Hvr.
  rewrite Ei in Hi, Hvi. rewrite Er in Hr, Hvr. simpl in *.
  split_and!; [by exists s, vk|tauto|tauto|done|].
  by rewrite (proj1 Hvi eq_refl), (proj1 Hvr eq_refl).
Qed.

Lemma selected_elem b id i leaf : (i, leaf) ∈ selected b id <->
  exists e, bundle_entries b !! i = Some e /\ tenant e = CommitLog.TENANT /\
    CommitLog.decode (data e) = Ok leaf /\ CommitLog.conversation_id leaf = id.
Proof.
  unfold selected. rewrite select_leaves_elem. by setoid_rewrite bool_decide_eq_true.
Qed.

(** C7: Soundness of a group verdict.  Let [chain_valid] be reported for a conversation
    and let the newest head commit to a log of entries [es].  Then the head is signed by
    the published key, every commit the report lists is the commit leaf that log holds
    at its index, the listed epochs strictly increase, and no violation is listed; so a
    fork, a regression or a commit outside the signed log cannot get a valid verdict. *)
Theorem group_report_sound (b : Bundle) (id : string) (s : Sth) (es : list Entry) :
  chain_valid (verify_group_in_bundle b id) = true ->
  latest_sth (sths b) = Some s -> root_bytes s = Ok (entries_root es) ->
  tree_size s = N.of_nat (length es) -> Forall tenant_fits es -> Forall tenant_fits (bundle_entries b) ->
  bundle_collision_free es b ->
  (exists vk, verifying_key_from_hex (public_key b) = Ok vk /\ Sth_verify s vk = true) /\
  Forall (fun c => exists i e leaf, es !! i = Some e /\ tenant e = CommitLog.TENANT /\
      CommitLog.decode (data e) = Ok leaf /\ CommitLog.conversation_id leaf = id /\
      c = mkGroupCommit (CommitLog.epoch leaf) (CommitLog.seq leaf) (CommitLog.sender_id leaf)
            (CommitLog.commit_sha256 leaf) true)
    (commits (verify_group_in_bundle b id)) /\
  ordered (fun x y => (gc_epoch x < gc_epoch y)%N) (commits (verify_group_in_bundle b id)) /\
  violations (verify_group_in_bundle b id) = [].
Proof.
  intros Hv Hl Hr Hs Hf Hfb HQ.
  destruct (group_chain_valid _ _ Hv) as ((s' & vk & Hl' & Hk & Hsig) & Hinc & Ho & -> & Hvs).
  rewrite Hl in Hl'. injection Hl' as <-. split_and!; [by exists vk| | |done].
  - apply Forall_map, Forall_forall. intros [i leaf] Hin.
    rewrite Forall_forall in Hinc. pose proof (Hinc _ Hin) as Hi. simpl in Hi.
    destruct (entry_included_sound _ _ _ _ Hl Hr Hs Hf Hfb HQ Hi) as (e & He & Hes).
    apply selected_elem in Hin as (e' & He' & Ht & Hd & Hc). simplify_eq.
    exists i, e', leaf. split_and!; try done. unfold commit_of. simpl. by rewrite Hi.
  - apply ordered_map. intros x y [i il] [j jl] Hij Hx Hy. simpl.
    apply list_elem_of_lookup_2 in Hx as Hix. apply list_elem_of_lookup_2 in Hy as Hiy.
    apply selected_elem in Hix as (_ & _ & _ & _ & Ex). apply selected_elem in Hiy as (_ & _ & _ & _ & Ey).
    apply (proj1 (ordered_map _ _ _)) in Ho. apply (Ho x y _ _ Hij Hx Hy). simpl. congruence.
Qed.

(** Completeness of a group verdict.  On a bundle built from rows in [seq] order,
    every conversation gets a valid verdict with no violation, and the report lists
    exactly the rows of that conversation, in order, each one included. *)
Theorem group_report_complete (rows : list CommitRow) (sk : SigningKey) (ts : N) (b : Bundle) (id : string) :
  build_bundle rows sk ts = Ok b -> ordered (fun x y => (cr_seq x <= cr_seq y)%Z) rows ->
  let r := verify_group_in_bundle b id in
  let leaves := List.filter (fun l => bool_decide (CommitLog.conversation_id l = id))
                  (map CommitRow_to_leaf rows) in
  chain_valid r = true /\ violations r = [] /\ sth_tree_size r = N.of_nat (length rows) /\
  found r = negb (bool_decide (leaves = [])) /\
  commits r = map (fun l => mkGroupCommit (CommitLog.epoch l) (CommitLog.seq l)
    (CommitLog.sender_id l) (CommitLog.commit_sha256 l) true) leaves.
Proof.
  intros Hb Hseq. simpl. destruct (build_bundle_built _ _ _ _ Hb) as [log Hlog].
  destruct (sealed_trust_anchor _ _ _ _ _ (built_sealed _ _ _ _ _ _ _ _ _ _ Hlog)) as [root Ea].
  assert (map snd (selected b id) = List.filter (fun l => bool_decide (CommitLog.conversation_id l = id))
    (map CommitRow_to_leaf rows)) as Hsel.
  { eapply (built_selected CommitLog.TENANT commit_parse_error); [exact Hlog|]. by apply ordered_map. }
  rewrite <- Hsel.
  assert (Forall (fun il => entry_included b il.1 = true) (selected b id)) as Hinc.
  { apply Forall_forall. intros [i l] Hin. apply selected_elem in Hin as (e & He & _). simpl.
    apply (built_included _ _ _ _ _ _ _ _ _ _ _ Hlog). unfold log_size. apply lookup_lt_Some in He.
    by rewrite (sealed_entries _ _ _ _ _ (built_sealed _ _ _ _ _ _ _ _ _ _ Hlog)) in He. }
  assert (ordered commit_before (map snd (selected b id))) as Ho.
  { rewrite Hsel. apply ordered_filter, (built_rule _ _ _ _ _ _ _ _ _ _ Hlog). }
  rewrite (group_report_eq b id _ _ _ true [] true [] Ea); simpl.
  - split_and!; try done.
    + rewrite (built_entries_length _ _ _ _ _ _ _ _ _ _ Hlog). done.
    + by destruct (selected b id).
    + rewrite map_map. apply map_ext_in. intros [i l] Hin%list_elem_of_In. simpl.
      rewrite Forall_forall in Hinc. unfold commit_of. by rewrite (Hinc _ Hin).
  - by apply include_all_pass.
  - by apply (replay_all_pass CommitLog.TENANT CommitLog.CommitLogInvariant commit_parse_error
      (ordered commit_before) (TenantRule0:=commit_rule)).
Qed.
End GroupTheorems.

Section AccountTheorems.
Context `{Sha256, !Sha256Laws} `{Hex, !HexLaws} `{Ed25519, !Ed25519Laws}.
Context `{!SerdeJson AccountKey.AccountKeyLeaf, !SerdeJsonLaws AccountKey.AccountKeyLeaf}.
Import Account.

(** The report, with its loops named. *)
Lemma account_report_eq b id size root ok all vs1 inv vs2 :
  trust_anchor AccountKey.STH_CONTEXT b = (size, root, ok) ->
  include_all AccountKey.seq AccountKey.identity_version b (selected b id) = (all, vs1) ->
  replay_all AccountKey.to_entry AccountKey.seq AccountKey.identity_version
    (fresh_log AccountKey.TENANT AccountKey.AccountKeyInvariant) (selected b id) = (inv, vs2) ->
  verify_account_in_bundle b id =
    mkAccountReport _ id (negb (bool_decide (selected b id = []))) size root
      (map (key_of b) (selected b id)) (ok && all && inv)
      ((if ok then [] else [BadSthSignature]) ++ vs1 ++ vs2).
Proof. unfold verify_account_in_bundle. by intros -> -> ->. Qed.

Lemma account_replay_rule sel :
  (replay_all AccountKey.to_entry AccountKey.seq AccountKey.identity_version
    (fresh_log AccountKey.TENANT AccountKey.AccountKeyInvariant) sel).1 = true <->
  ordered key_before (map snd sel).
Proof.
  exact (replay_all_rule AccountKey.TENANT AccountKey.AccountKeyInvariant account_parse_error
    (ordered key_before) (TenantRule0:=account_rule) AccountKey.seq AccountKey.identity_version sel).
Qed.

(** A valid account verdict, unfolded into its three checks. *)
Lemma account_chain_valid b id : ar_chain_valid (verify_account_in_bundle b id) = true ->
  (exists s vk, latest_sth (sths b) = Some s /\ verifying_key_from_hex (public_key b) = Ok vk /\
     verify_with_context s vk AccountKey.STH_CONTEXT = true) /\
  Forall (fun il => entry_included b il.1 = true) (selected b id) /\
  ordered key_before (map snd (selected b id)) /\
  ar_keys (verify_account_in_bundle b id) = map (key_of b) (selected b id) /\
  ar_violations (verify_account_in_bundle b id) = [].
Proof.
  destruct (trust_anchor AccountKey.STH_CONTEXT b) as [[size root] ok] eqn:Ea.
  destruct (include_all AccountKey.seq AccountKey.identity_version b (selected b id) (J:=JsonError)) as [all vs1] eqn:Ei.
  destruct (replay_all AccountKey.to_entry AccountKey.seq AccountKey.identity_version
    (fresh_log AccountKey.TENANT AccountKey.AccountKeyInvariant) (selected b id)) as [inv vs2] eqn:Er.
  rewrite (account_report_eq _ _ _ _ _ _ _ _ _ Ea Ei Er). simpl. intros Hv.
  apply andb_true_iff in Hv as [[-> ->]%andb_true_iff ->].
  destruct (trust_anchor_true _ _ _ _ Ea) as (s & vk & ? & ? & ? & _ & _).
  pose proof (include_all_true (J:=JsonError) AccountKey.seq AccountKey.identity_version b (selected b id)) as Hi.
  pose proof (include_all_violations (J:=JsonError) AccountKey.seq AccountKey.identity_version b (selected b id)) as Hvi.
  pose proof (account_replay_rule (selected b id)) as Hr.
  pose proof (replay_all_violations AccountKey.to_entry AccountKey.seq AccountKey.identity_version
    (fresh_log AccountKey.TENANT AccountKey.AccountKeyInvariant) (selected b id)) as Hvr.
  rewrite Ei in Hi, Hvi. rewrite Er in Hr, Hvr. simpl in *.
  split_and!; [by exists s, vk|tauto|tauto|done|].
  by rewrite (proj1 Hvi eq_refl), (proj1 Hvr eq_refl).
Qed.

Lemma account_selected_elem b id i leaf : (i, leaf) ∈ selected b id <->
  exists e, bundle_entries b !! i = Some e /\ tenant e = AccountKey.TENANT /\
    AccountKey.decode (data e) = Ok leaf /\ AccountKey.user_id leaf = id.
Proof.
  unfold selected. rewrite select_leaves_elem. by setoid_rewrite bool_decide_eq_true.
Qed.

(** Soundness of an account verdict.  If [chain_valid] is reported for a user and the
    newest account head commits to a log of entries [es], then the head verifies under
    the account-keys context, every key version listed is the leaf that log holds at its
    index, and the listed versions strictly increase: no key outside the signed directory
    and no rollback gets a valid verdict. *)
Theorem account_report_sound (b : Bundle) (id : string) (s : Sth) (es : list Entry) :
  ar_chain_valid (verify_account_in_bundle b id) = true ->
  latest_sth (sths b) = Some s -> root_bytes s = Ok (entries_root es) ->
  tree_size s = N.of_nat (length es) -> Forall tenant_fits es -> Forall tenant_fits (bundle_entries b) ->
  bundle_collision_free es b ->
  (exists vk, verifying_key_from_hex (public_key b) = Ok vk /\ verify_with_context s vk AccountKey.STH_CONTEXT = true) /\
  Forall (fun c => exists i e leaf, es !! i = Some e /\ tenant e = AccountKey.TENANT /\
      AccountKey.decode (data e) = Ok leaf /\ AccountKey.user_id leaf = id /\
      c = mkAccountKeyVersion (AccountKey.identity_version leaf) (AccountKey.seq leaf)
            (AccountKey.account_id_pub leaf) true)
    (ar_keys (verify_account_in_bundle b id)) /\
  ordered (fun x y => (kv_identity_version x < kv_identity_version y)%N) (ar_keys (verify_account_in_bundle b id)) /\
  ar_violations (verify_account_in_bundle b id) = [].
Proof.
  intros Hv Hl Hr Hs Hf Hfb HQ.
  destruct (account_chain_valid _ _ Hv) as ((s' & vk & Hl' & Hk & Hsig) & Hinc & Ho & -> & Hvs).
  rewrite Hl in Hl'. injection Hl' as <-. split_and!; [by exists vk| | |done].
  - apply Forall_map, Forall_forall. intros [i leaf] Hin.
    rewrite Forall_forall in Hinc. pose proof (Hinc _ Hin) as Hi. simpl in Hi.
    destruct (entry_included_sound _ _ _ _ Hl Hr Hs Hf Hfb HQ Hi) as (e & He & Hes).
    apply account_selected_elem in Hin as (e' & He' & Ht & Hd & Hc). simplify_eq.
    exists i, e', leaf. split_and!; try done. unfold key_of. simpl. by rewrite Hi.
  - apply ordered_map. intros x y [i il] [j jl] Hij Hx Hy. simpl.
    apply list_elem_of_lookup_2 in Hx as Hix. apply list_elem_of_lookup_2 in Hy as Hiy.
    apply account_selected_elem in Hix as (_ & _ & _ & _ & Ex). apply account_selected_elem in Hiy as (_ & _ & _ & _ & Ey).
    apply (proj1 (ordered_map _ _ _)) in Ho. apply (Ho x y _ _ Hij Hx Hy). simpl. congruence.
Qed.

(** Completeness of an account verdict.  On an account bundle built from rows in
    [seq] order, every user gets a valid verdict with no violation, and the report lists
    exactly that user's key versions, in order, each one included. *)
Theorem account_report_complete (rows : list AccountKeyRow) (sk : SigningKey) (ts : N) (b : Bundle) (id : string) :
  build_account_bundle rows sk ts = Ok b -> ordered (fun x y => (ar_seq x <= ar_seq y)%Z) rows ->
  let r := verify_account_in_bundle b id in
  let leaves := List.filter (fun l => bool_decide (AccountKey.user_id l = id))
                  (map AccountKeyRow_to_leaf rows) in
  ar_chain_valid r = true /\ ar_violations r = [] /\ ar_sth_tree_size r = N.of_nat (length rows) /\
  ar_found r = negb (bool_decide (leaves = [])) /\
  ar_keys r = map (fun l => mkAccountKeyVersion (AccountKey.identity_version l) (AccountKey.seq l)
    (AccountKey.account_id_pub l) true) leaves.
Proof.
  intros Hb Hseq. simpl. destruct (build_account_bundle_built _ _ _ _ Hb) as [log Hlog].
  destruct (sealed_trust_anchor _ _ _ _ _ (built_sealed _ _ _ _ _ _ _ _ _ _ Hlog)) as [root Ea].
  assert (map snd (selected b id) = List.filter (fun l => bool_decide (AccountKey.user_id l = id))
    (map AccountKeyRow_to_leaf rows)) as Hsel.
  { eapply (built_selected AccountKey.TENANT account_parse_error); [exact Hlog|]. by apply ordered_map. }
  rewrite <- Hsel.
  assert (Forall (fun il => entry_included b il.1 = true) (selected b id)) as Hinc.
  { apply Forall_forall. intros [i l] Hin. apply account_selected_elem in Hin as (e & He & _). simpl.
    apply (built_included _ _ _ _ _ _ _ _ _ _ _ Hlog). unfold log_size. apply lookup_lt_Some in He.
    by rewrite (sealed_entries _ _ _ _ _ (built_sealed _ _ _ _ _ _ _ _ _ _ Hlog)) in He. }
  assert (ordered key_before (map snd (selected b id))) as Ho.
  { rewrite Hsel. apply ordered_filter, (built_rule _ _ _ _ _ _ _ _ _ _ Hlog). }
  rewrite (account_report_eq b id _ _ _ true [] true [] Ea); simpl.
  - split_and!; try done.
    + rewrite (built_entries_length _ _ _ _ _ _ _ _ _ _ Hlog). done.
    + by destruct (selected b id).
    + rewrite map_map. apply map_ext_in. intros [i l] Hin%list_elem_of_In. simpl.
      rewrite Forall_forall in Hinc. unfold key_of. by rewrite (Hinc _ Hin).
  - by apply include_all_pass.
  - by apply (replay_all_pass AccountKey.TENANT AccountKey.AccountKeyInvariant account_parse_error
      (ordered key_before) (TenantRule0:=account_rule)).
Qed.
End AccountTheorems.

(** ** Evaluation on built bundles *)

Section Concrete.
Import Group Account.

#[local] Instance commit_json' : SerdeJson CommitLog.CommitLeaf := ClearJson.instance.
#[local] Instance commit_json_laws' : SerdeJsonLaws CommitLog.CommitLeaf := ClearJson.laws.
#[local] Instance account_json' : SerdeJson AccountKey.AccountKeyLeaf := ClearJson.instance.
#[local] Instance account_json_laws' : SerdeJsonLaws AccountKey.AccountKeyLeaf := ClearJson.laws.

#[local] Definition log_key : SigningKey := ClearSig.repeat_seed x03.

#[local] Definition no_bundle : Bundle := mkBundle "" [] [] [] [] [].

#[local] Definition group_rows : list CommitRow := [mkCommitRow 1 "dm" 0 "al" "0"; mkCommitRow 2 "dm" 1 "bo" "1"].

#[local] Definition group_bundle : Bundle :=
  match build_bundle group_rows log_key 9 with Ok b => b | Err _ => no_bundle end.

#[local] Definition group_head : Sth := default (mkSth 0 "" 0 "") (latest_sth (sths group_bundle)).

#[local] Definition account_bundle : Bundle :=
  match build_account_bundle [mkAccountKeyRow 1 "al" 1 "0"; mkAccountKeyRow 2 "al" 2 "1"] log_key 9
  with Ok b => b | Err _ => no_bundle end.

#[local] Definition account_head : Sth := default (mkSth 0 "" 0 "") (latest_sth (sths account_bundle)).

(** Decides [bundle_collision_free]. *)
Definition bundle_collision_freeb (es : list Entry) (b : Bundle) : bool :=
  forallb (fun e => forallb (fun c => collision_freeb (inclusion_check_queries es e (ic_proof c))) (inclusion b))
    (bundle_entries b).

Lemma bundle_collision_freeb_spec es b : bundle_collision_freeb es b = true -> bundle_collision_free es b.
Proof.
  unfold bundle_collision_freeb. intros Hb e c He%list_elem_of_In Hc%list_elem_of_In.
  rewrite forallb_forall in Hb. specialize (Hb e He). rewrite forallb_forall in Hb.
  apply collision_freeb_spec, (Hb c Hc).
Qed.

Definition tenants_fitb (es : list Entry) : bool :=
  forallb (fun e => (N.of_nat (length (as_bytes (tenant e))) <? 2 ^ 32)%N) es.

Lemma tenants_fitb_spec es : tenants_fitb es = true -> Forall tenant_fits es.
Proof.
  unfold tenants_fitb. rewrite forallb_forall. intros Hb. apply List.Forall_forall. intros e He.
  apply N.ltb_lt, (Hb e He).
Qed.

Lemma group_report_sound_witness :
  (exists vk, verifying_key_from_hex (public_key group_bundle) = Ok vk /\ Sth_verify group_head vk = true) /\
  ordered (fun x y => (gc_epoch x < gc_epoch y)%N) (commits (verify_group_in_bundle group_bundle "dm")) /\
  length (commits (verify_group_in_bundle group_bundle "dm")) = 2.
Proof.
  destruct (group_report_sound group_bundle "dm" group_head (bundle_entries group_bundle)) as (Hk & _ & Ho & _).
  - vm_compute. reflexivity.
  - vm_compute. reflexivity.
  - vm_compute. reflexivity.
  - vm_compute. reflexivity.
  - apply tenants_fitb_spec. vm_compute. reflexivity.
  - apply tenants_fitb_spec. vm_compute. reflexivity.
  - apply bundle_collision_freeb_spec. vm_compute. reflexivity.
  - split; [exact Hk|]. split; [exact Ho|]. vm_compute. reflexivity.
Defined.

Lemma account_report_sound_witness :
  (exists vk, verifying_key_from_hex (public_key account_bundle) = Ok vk /\
     verify_with_context account_head vk AccountKey.STH_CONTEXT = true) /\
  length (ar_keys (verify_account_in_bundle account_bundle "al")) = 2.
Proof.
  destruct (account_report_sound account_bundle "al" account_head (bundle_entries account_bundle)) as (Hk & _).
  - vm_compute. reflexivity.
  - vm_compute. reflexivity.
  - vm_compute. reflexivity.
  - vm_compute. reflexivity.
  - apply tenants_fitb_spec. vm_compute. reflexivity.
  - apply tenants_fitb_spec. vm_compute. reflexivity.
  - apply bundle_collision_freeb_spec. vm_compute. reflexivity.
  - split; [exact Hk|]. vm_compute. reflexivity.
Defined.

Lemma group_rows_ordered : ordered (fun x y => (cr_seq x <= cr_seq y)%Z) group_rows.
Proof.
  intros [|[|i]] [|[|j]] x y Hij Hx Hy; try lia; try discriminate.
  injection Hx as <-. injection Hy as <-. vm_compute. discriminate.
Qed.

Lemma group_report_complete_witness :
  build_bundle group_rows log_key 9 = Ok group_bundle /\
  chain_valid (verify_group_in_bundle group_bundle "dm") = true.
Proof.
  assert (build_bundle group_rows log_key 9 = Ok group_bundle) as E by (vm_compute; reflexivity).
  exact (conj E (proj1 (group_report_complete group_rows log_key 9 group_bundle "dm" E group_rows_ordered))).
Defined.
End Concrete.
