(* ===== verification/Delivery.v ===== *)
(** * pollis-delivery: commit serialization and the retention floor

    Models [pollis-delivery/src/commit.rs], the [submit] and [commits] handlers of
    [lib.rs] and the MLS control-plane writes of [writes.rs].  The commit-log database is
    a record of its four tables ([pollis-core/src/db/migrations-log]), the main database
    the four tables the membership queries read.  A SQL statement is the function it
    computes on the tables; [fault] says which statement of a request the database fails,
    so that every error path is a value.  A transaction works on a copy that replaces the
    database when [commit] succeeds and is dropped otherwise.

    Not modelled: the [created_at]/[updated_at] clock (its text is an input), HTTP
    parsing, connection pooling and tracing. *)

From stdpp Require Import base list strings gmap pretty.
From Stdlib Require Import NArith ZArith Lia ZifyNat ZifyN.
From Stdlib Require Import Strings.Byte.
From S2P Require Import Prelude Crypto.

(** ** Tables *)

Record CommitRec := mkCommitRec {
  rec_seq : Z;
  rec_conversation_id : string;
  rec_epoch : Z;
  rec_sender_id : string;
  rec_commit_data : bytes;
  rec_created_at : string;
  rec_added_user_id : option string;
  rec_added_device_ids : option string
}.

Record GroupInfoRec := mkGroupInfoRec {
  gi_epoch : Z;
  gi_blob : bytes;
  gi_updated_by : string
}.

Record WelcomeRec := mkWelcomeRec {
  wel_id : string;
  wel_conversation_id : string;
  wel_recipient_id : string;
  wel_data : bytes;
  wel_delivered : bool;
  wel_device_id : option string
}.

Record SinceRec := mkSinceRec {
  sin_conversation_id : string;
  sin_user_id : string;
  sin_device_id : string;
  since_epoch : Z
}.

(** The commit-log database.  [next_seq] is the [AUTOINCREMENT] counter. *)
Record LogDb := mkLogDb {
  mls_commit_log : list CommitRec;
  next_seq : Z;
  mls_group_info : gmap string GroupInfoRec;
  mls_welcome : list WelcomeRec;
  mls_commit_since : list SinceRec
}.

(** The membership and device tables of the main database. *)
Record DeviceRec := mkDeviceRec {
  dev_id : string;
  dev_user : string;
  revoked_at : option string;
  mls_signature_pub : option bytes
}.

Record MainDb := mkMainDb {
  user_device : list DeviceRec;
  dm_channel_member : list (string * string);
  group_member : list (string * string);
  channels : list (string * string)
}.

Definition set_commits (db : LogDb) (l : list CommitRec) : LogDb :=
  mkLogDb l (next_seq db) (mls_group_info db) (mls_welcome db) (mls_commit_since db).

(** Statements, and connections, the databases may fail. *)
Inductive Stmt : Type :=
| StBegin | StInsertCommit | StMaxEpoch | StFetch | StRollback
| StGroupInfo | StWelcome (i : nat) | StCommit
| StSince | StMembers | StRecorded | StDelete
| StLogConn | StAuthConn | StMemberConn | StPruneConn
| StDevice | StMember | StWrite.

Inductive DsError : Type :=
| DecodeError
| DbFault (s : Stmt)
| UniqueViolation.

Definition Faults := Stmt -> bool.

Definition exec {A} (fault : Faults) (s : Stmt) (a : A) : Result A DsError :=
  if fault s then Err (DbFault s) else Ok a.

(** base64, the STANDARD engine. *)
Class Base64 := {
  b64_decode_opt : string -> option bytes;
  b64_encode : bytes -> string
}.

Class Base64Laws `{Base64} : Prop := {
  b64_decode_encode : forall b, b64_decode_opt (b64_encode b) = Some b
}.

Definition b64_decode `{Base64} (s : string) : Result bytes DsError := ok_or (b64_decode_opt s) DecodeError.

(** ** Wire types *)

Record WelcomeBody := mkWelcomeBody {
  recipient_id : string;
  recipient_device_id : string;
  welcome : string
}.

Record SubmitBody := mkSubmitBody {
  conversation_id : string;
  based_on_epoch : Z;
  sender_id : string;
  commit : string;
  added_user_id : option string;
  added_device_ids : option string;
  group_info : option string;
  welcomes : list WelcomeBody
}.

Record CommitWire := mkCommitWire {
  cw_epoch : Z;
  cw_seq : Z;
  cw_sender_id : string;
  cw_commit : string;
  cw_added_user_id : option string;
  cw_added_device_ids : option string;
  cw_created_at : string
}.

Inductive SubmitResponse : Type :=
| Accepted (epoch : Z)
| Rejected (head : Z) (missing : list CommitWire).

Record CommitsResponse := mkCommitsResponse { cs_head : Z; cs_commits : list CommitWire }.

(** ** commit.rs: head, accept, fetch *)

Definition head_epoch_of (max_epoch : option N) : N :=
  match max_epoch with None => 0%N | Some m => as_u64 (m + 1) end.

Definition accepts (based_on head : N) : bool := (based_on =? head)%N.

(** The rows of a conversation, in insertion order. *)
Definition conv_rows (db : LogDb) (c : string) : list CommitRec :=
  List.filter (fun r => bool_decide (rec_conversation_id r = c)) (mls_commit_log db).

(** [SELECT MAX(epoch) ... WHERE conversation_id = c]. *)
Definition max_epoch (db : LogDb) (c : string) : option Z :=
  fold_left (fun acc r => Some (match acc with Some m => Z.max m (rec_epoch r) | None => rec_epoch r end))
    (conv_rows db c) None.

Definition head_epoch (fault : Faults) (db : LogDb) (c : string) : Result Z DsError :=
  let? m := exec fault StMaxEpoch (max_epoch db c) in
  Ok (u64_to_i64 (head_epoch_of (i64_to_u64 <$> m))).

Section Commit.
Context `{Base64}.

Definition wire_of (r : CommitRec) : CommitWire :=
  mkCommitWire (rec_epoch r) (rec_seq r) (rec_sender_id r) (b64_encode (rec_commit_data r))
    (rec_added_user_id r) (rec_added_device_ids r) (rec_created_at r).

(** [ORDER BY epoch ASC, seq ASC] is the stable sort by [seq], then by [epoch]. *)
Definition fetch_commits (fault : Faults) (db : LogDb) (c : string) (since : Z)
    : Result (list CommitWire) DsError :=
  exec fault StFetch
    (map wire_of (sort_by_key rec_epoch (sort_by_key rec_seq
      (List.filter (fun r => (since <=? rec_epoch r)%Z) (conv_rows db c))))).

(** The conditional [INSERT ... SELECT ... WHERE ... ON CONFLICT DO NOTHING]: the number
    of affected rows and the table after it. *)
Definition insert_commit (db : LogDb) (body : SubmitBody) (data : bytes) (now : string) : nat * LogDb :=
  let head := (match max_epoch db (conversation_id body) with Some m => m | None => -1 end + 1)%Z in
  if (based_on_epoch body =? head)%Z &&
     negb (existsb (fun r => (rec_epoch r =? based_on_epoch body)%Z) (conv_rows db (conversation_id body)))
  then
    (1, mkLogDb
          (mls_commit_log db ++
           [mkCommitRec (next_seq db) (conversation_id body) (based_on_epoch body) (sender_id body) data now
              (added_user_id body) (added_device_ids body)])
          (next_seq db + 1) (mls_group_info db) (mls_welcome db) (mls_commit_since db))
  else (0, db).

(** The epoch-monotone GroupInfo upsert, shared by [submit_commit] and
    [writes::upsert_group_info]. *)
Definition upsert_group_info (db : LogDb) (c : string) (epoch : Z) (gi : bytes) (by_device : string)
    : nat * LogDb :=
  let put := (1, mkLogDb (mls_commit_log db) (next_seq db)
                   (<[c := mkGroupInfoRec epoch gi by_device]> (mls_group_info db))
                   (mls_welcome db) (mls_commit_since db)) in
  match mls_group_info db !! c with
  | None => put
  | Some old => if (gi_epoch old <? epoch)%Z then put else (0, db)
  end.

Definition same_target (c u d : string) (w : WelcomeRec) : bool :=
  bool_decide (wel_conversation_id w = c) && bool_decide (wel_recipient_id w = u) &&
  bool_decide (wel_device_id w = Some d).

(** The Welcome upsert: refresh and re-arm the row of the recipient device, or insert. *)
Definition upsert_welcome (db : LogDb) (id c u d : string) (blob : bytes) : Result LogDb DsError :=
  let put l := mkLogDb (mls_commit_log db) (next_seq db) (mls_group_info db) l (mls_commit_since db) in
  if existsb (same_target c u d) (mls_welcome db)
  then Ok (put (map (fun w =>
         if same_target c u d w
         then mkWelcomeRec (wel_id w) c u blob false (Some d) else w) (mls_welcome db)))
  else if existsb (fun w => bool_decide (wel_id w = id)) (mls_welcome db)
  then Err UniqueViolation
  else Ok (put (mls_welcome db ++ [mkWelcomeRec id c u blob false (Some d)])).

(** The Welcome loop of [submit_commit]; [ulid i] is the id generated for the [i]-th. *)
Fixpoint insert_welcomes (fault : Faults) (ulid : nat -> string) (c : string) (i : nat)
    (ws : list (WelcomeBody * bytes)) (tx : LogDb) : Result LogDb DsError :=
  match ws with
  | [] => Ok tx
  | (w, blob) :: ws' =>
      let? _ := exec fault (StWelcome i) tt in
      let? tx' := upsert_welcome tx (ulid i) c (recipient_id w) (recipient_device_id w) blob in
      insert_welcomes fault ulid c (S i) ws' tx'
  end.

(** [submit_commit]: the database afterwards and the response or error. *)
Definition submit_commit (fault : Faults) (now : string) (ulid : nat -> string) (db : LogDb)
    (body : SubmitBody) : LogDb * Result SubmitResponse DsError :=
  let run :=
    let? data := b64_decode (commit body) in
    let? gi := match group_info body with
               | None => Ok None
               | Some g => let? b := b64_decode g in Ok (Some b)
               end in
    let? ws := collect_results (fun w => let? b := b64_decode (welcome w) in Ok (w, b)) (welcomes body) in
    let? _ := exec fault StBegin tt in
    let? at_ := exec fault StInsertCommit (insert_commit db body data now) in
    let '(affected, tx) := at_ in
    if affected =? 0 then
      let? head := head_epoch fault tx (conversation_id body) in
      let? missing := fetch_commits fault tx (conversation_id body) (based_on_epoch body) in
      let? _ := exec fault StRollback tt in
      Ok (db, Rejected head missing)
    else
      let? tx := match gi with
                 | None => Ok tx
                 | Some g => exec fault StGroupInfo
                     (snd (upsert_group_info tx (conversation_id body) (wrap_i64 (based_on_epoch body + 1)) g (sender_id body)))
                 end in
      let? tx := insert_welcomes fault ulid (conversation_id body) 0 ws tx in
      let? _ := exec fault StCommit tt in
      Ok (tx, Accepted (based_on_epoch body)) in
  match run with
  | Ok (db', r) => (db', Ok r)
  | Err e => (db, Err e)
  end.
End Commit.

(** ** commit.rs: the retention floor *)

Definition PRUNE_SLACK_EPOCHS : Z := 8.

Definition PRUNE_MAX_BEHIND_HEAD : Z := 512.

Definition prune_floor (min_since : option Z) (all_reported : bool) (head : Z) : Z :=
  let tier1 := match all_reported, min_since with
               | true, Some m => Z.max (wrap_i64 (m - PRUNE_SLACK_EPOCHS)) 0
               | _, _ => 0%Z
               end in
  let tier2 := Z.max (wrap_i64 (head - PRUNE_MAX_BEHIND_HEAD)) 0 in
  Z.max tier1 tier2.

Definition same_reporter (c u d : string) (r : SinceRec) : bool :=
  bool_decide (sin_conversation_id r = c) && bool_decide (sin_user_id r = u) &&
  bool_decide (sin_device_id r = d).

Definition record_commit_since (fault : Faults) (db : LogDb) (c u d : string) (since : Z)
    : Result LogDb DsError :=
  let put l := mkLogDb (mls_commit_log db) (next_seq db) (mls_group_info db) (mls_welcome db) l in
  exec fault StSince
    (if existsb (same_reporter c u d) (mls_commit_since db)
     then put (map (fun r => if same_reporter c u d r
                             then mkSinceRec c u d (Z.max (since_epoch r) since) else r) (mls_commit_since db))
     else put (mls_commit_since db ++ [mkSinceRec c u d since])).

(** The user ids of a conversation: DM members, group members, the owning group's members. *)
Definition conversation_users (main : MainDb) (c : string) : list string :=
  omap (fun m : string * string => if bool_decide (m.1 = c) then Some m.2 else None) (dm_channel_member main) ++
  omap (fun m : string * string => if bool_decide (m.1 = c) then Some m.2 else None) (group_member main) ++
  flat_map (fun ch : string * string =>
    if bool_decide (ch.1 = c)
    then omap (fun m : string * string => if bool_decide (m.1 = ch.2) then Some m.2 else None) (group_member main)
    else []) (channels main).

Definition current_member_devices (fault : Faults) (main : MainDb) (c : string)
    : Result (list string) DsError :=
  exec fault StMembers
    (remove_dups (omap (fun d =>
       if bool_decide (revoked_at d = None) && bool_decide (dev_user d ∈ conversation_users main c)
       then Some (dev_id d) else None) (user_device main))).

Definition recorded_since (fault : Faults) (db : LogDb) (c : string) : Result (gmap string Z) DsError :=
  exec fault StRecorded
    (fold_left (fun m r => <[sin_device_id r := since_epoch r]> m)
       (List.filter (fun r => bool_decide (sin_conversation_id r = c)) (mls_commit_since db)) ∅).

Definition delete_commits_below (fault : Faults) (db : LogDb) (c : string) (floor : Z)
    : Result (LogDb * nat) DsError :=
  if (floor <=? 0)%Z then Ok (db, 0)
  else
    let doomed r := bool_decide (rec_conversation_id r = c) && (rec_epoch r <? floor)%Z in
    exec fault StDelete
      (set_commits db (List.filter (fun r => negb (doomed r)) (mls_commit_log db)),
       length (List.filter doomed (mls_commit_log db))).

Record PruneReport := mkPruneReport { floor : Z; deleted : nat }.

(** The member loop: the least reported epoch, and whether every device has reported. *)
Definition scan_members (recorded : gmap string Z) (members : list string) : option Z * bool :=
  fold_left (fun acc d =>
    match recorded !! d with
    | Some s => (Some (match acc.1 with Some m => Z.min m s | None => s end), acc.2)
    | None => (acc.1, false)
    end) members (None, true).

Definition prune_commit_log (fault : Faults) (main : MainDb) (db : LogDb) (c : string)
    : LogDb * Result PruneReport DsError :=
  let run :=
    let? head := head_epoch fault db c in
    let? members := current_member_devices fault main c in
    let? recorded := recorded_since fault db c in
    let '(min_since, all_reported) :=
      match members with [] => (None, false) | _ => scan_members recorded members end in
    let fl := prune_floor min_since all_reported head in
    let? dd := delete_commits_below fault db c fl in
    Ok (dd.1, mkPruneReport fl dd.2) in
  match run with
  | Ok (db', r) => (db', Ok r)
  | Err e => (db, Err e)
  end.

(** ** writes.rs *)

(** [is_member]: a DM member, a group member or a member of the channel's group. *)
Definition is_member (main : MainDb) (c u : string) : bool :=
  existsb (fun m : string * string => bool_decide (m.1 = c) && bool_decide (m.2 = u)) (dm_channel_member main) ||
  existsb (fun m : string * string => bool_decide (m.1 = c) && bool_decide (m.2 = u)) (group_member main) ||
  existsb (fun ch : string * string => bool_decide (ch.1 = c) &&
    existsb (fun m : string * string => bool_decide (m.1 = ch.2) && bool_decide (m.2 = u)) (group_member main))
    (channels main).

Definition set_welcomes (db : LogDb) (l : list WelcomeRec) : LogDb :=
  mkLogDb (mls_commit_log db) (next_seq db) (mls_group_info db) l (mls_commit_since db).

Definition set_delivered (w : WelcomeRec) (b : bool) : WelcomeRec :=
  mkWelcomeRec (wel_id w) (wel_conversation_id w) (wel_recipient_id w) (wel_data w) b (wel_device_id w).

(** An [UPDATE ... SET delivered] over the rows [p] selects, with the affected count. *)
Definition update_delivered (p : WelcomeRec -> bool) (b : bool) (db : LogDb) : LogDb * nat :=
  (set_welcomes db (map (fun w => if p w then set_delivered w b else w) (mls_welcome db)),
   length (List.filter p (mls_welcome db))).

Definition ack_welcomes (db : LogDb) (recipient : string) (ids : list string) : LogDb * nat :=
  match ids with
  | [] => (db, 0)
  | _ => update_delivered (fun w => bool_decide (wel_recipient_id w = recipient) &&
                                    bool_decide (wel_id w ∈ ids)) true db
  end.

Definition reset_welcomes (db : LogDb) (recipient : string) (device_id : option string) : LogDb * nat :=
  update_delivered (fun w => bool_decide (wel_recipient_id w = recipient) &&
    match device_id with
    | None => true
    | Some d => bool_decide (wel_device_id w = Some d) || bool_decide (wel_device_id w = None)
    end) false db.

Definition purge_welcomes (db : LogDb) (recipient : string) : LogDb * nat :=
  let mine w := bool_decide (wel_recipient_id w = recipient) in
  (set_welcomes db (List.filter (fun w => negb (mine w)) (mls_welcome db)),
   length (List.filter mine (mls_welcome db))).

Inductive RecipientError : Type := RecipientForbidden | RecipientMissing.

Definition resolve_recipient (authed body_user_id : option string) : Result string RecipientError :=
  match authed with
  | Some user =>
      match body_user_id with
      | Some b => if negb (bool_decide (b = user)) then Err RecipientForbidden else Ok user
      | None => Ok user
      end
  | None =>
      match body_user_id with
      | Some b => if negb (bool_decide (b = "")) then Ok b else Err RecipientMissing
      | None => Err RecipientMissing
      end
  end.

Definition resolve_actor (authed body_actor : option string) : option string :=
  match authed with
  | Some u =>
      match body_actor with
      | Some b => if negb (bool_decide (b = u)) then None else Some u
      | None => Some u
      end
  | None =>
      match body_actor with
      | Some b => if negb (bool_decide (b = "")) then Some b else None
      | None => None
      end
  end.

(** ** lib.rs: the commit handlers *)

Inductive Response : Type :=
| Unauthorized
| Forbidden
| BadRequest
| ServerError (e : DsError)
| SubmitReply (r : SubmitResponse)
| CommitsReply (r : CommitsResponse).

(** The membership check of a signed request: a connection, then the query. *)
Definition query_member (fault : Faults) (main : MainDb) (c u : string) : Result bool DsError :=
  let? _ := exec fault StMemberConn tt in exec fault StMember (is_member main c u).

(** The event-driven prune, whose failure is only logged. *)
Definition best_effort_prune (fault : Faults) (main : MainDb) (db : LogDb) (c : string) : LogDb :=
  if fault StPruneConn then db else (prune_commit_log fault main db c).1.

Section Handlers.
Context `{Base64}.

(** [submit] once the signature gate has run ([authed]: the verified user when auth is
    enforced) and the body has been parsed. *)
Definition submit (fault : Faults) (now : string) (ulid : nat -> string) (main : MainDb) (db : LogDb)
    (authed : option string) (body : option SubmitBody) : LogDb * Response :=
  match body with
  | None => (db, BadRequest)
  | Some parsed =>
      let allowed :=
        match authed with
        | Some u =>
            if negb (bool_decide (sender_id parsed = u)) then Ok false
            else query_member fault main (conversation_id parsed) u
        | None => Ok true
        end in
      match allowed with
      | Err e => (db, ServerError e)
      | Ok false => (db, Forbidden)
      | Ok true =>
          match exec fault StLogConn tt with
          | Err e => (db, ServerError e)
          | Ok _ =>
              let '(db1, outcome) := submit_commit fault now ulid db parsed in
              match outcome with
              | Err e => (db1, ServerError e)
              | Ok (Accepted e) =>
                  (best_effort_prune fault main db1 (conversation_id parsed), SubmitReply (Accepted e))
              | Ok (Rejected h m) => (db1, SubmitReply (Rejected h m))
              end
          end
      end
  end.

(** [commits]: the catch-up read, which also records the reported epoch and prunes.  The
    route is open: nothing ties the reported ids to the caller. *)
Definition commits (fault : Faults) (main : MainDb) (db : LogDb) (c : string) (since : Z)
    (user_id device_id : option string) : LogDb * Response :=
  if fault StLogConn then (db, ServerError (DbFault StLogConn)) else
  let db1 :=
    match user_id, device_id with
    | Some u, Some d =>
        if negb (bool_decide (u = "")) && negb (bool_decide (d = "")) then
          match record_commit_since fault db c u d since with
          | Err _ => db
          | Ok db' => best_effort_prune fault main db' c
          end
        else db
    | _, _ => db
    end in
  match head_epoch fault db1 c with
  | Err e => (db1, ServerError e)
  | Ok head =>
      match fetch_commits fault db1 c since with
      | Err e => (db1, ServerError e)
      | Ok cs => (db1, CommitsReply (mkCommitsResponse head cs))
      end
  end.
End Handlers.

(** ** The log invariant: contiguous epochs per conversation *)

Definition head (db : LogDb) (c : string) : Z :=
  match max_epoch db c with Some m => (m + 1)%Z | None => 0%Z end.

Definition epochs (db : LogDb) (c : string) : list Z := map rec_epoch (conv_rows db c).

(** One commit per epoch and no gap: a conversation's epochs, in insertion order, are
    [lo, lo + 1, .., lo + n - 1]. *)
Definition gapless (db : LogDb) : Prop :=
  forall c, exists lo n, (0 <= lo)%Z /\ (0 <= n)%Z /\ (lo + n <= 2 ^ 63)%Z /\ epochs db c = seqZ lo n.

Lemma max_fold l acc :
  fold_left (fun acc r => Some (match acc with Some m => Z.max m (rec_epoch r) | None => rec_epoch r end)) l acc =
  fold_left (fun acc e => Some (match acc with Some m => Z.max m e | None => e end)) (map rec_epoch l) acc.
Proof. revert acc; induction l as [|r l IH]; simpl; intros acc; [done|]. apply IH. Qed.

Lemma max_seqZ lo n : (0 < n)%Z ->
  fold_left (fun acc e => Some (match acc with Some m => Z.max m e | None => e end)) (seqZ lo n) None =
  Some (lo + n - 1)%Z.
Proof.
  intros Hn. replace n with (Z.of_nat (S (Z.to_nat (n - 1)))) by lia.
  induction (Z.to_nat (n - 1)) as [|k IH].
  - simpl. f_equal. lia.
  - replace (Z.of_nat (S (S k))) with (Z.of_nat (S k) + 1)%Z by lia.
    rewrite seqZ_app, fold_left_app by lia. rewrite IH. simpl. f_equal. lia.
Qed.

Lemma max_epoch_seqZ db c lo n : (0 <= n)%Z -> epochs db c = seqZ lo n ->
  max_epoch db c = if (n =? 0)%Z then None else Some (lo + n - 1)%Z.
Proof.
  intros Hn E. unfold max_epoch. rewrite max_fold. fold (epochs db c). rewrite E.
  destruct (Z.eqb_spec n 0) as [->|]; [done|]. rewrite max_seqZ by lia. done.
Qed.

Lemma head_seqZ db c lo n : (0 <= n)%Z -> epochs db c = seqZ lo n ->
  head db c = if (n =? 0)%Z then 0%Z else (lo + n)%Z.
Proof.
  intros Hn E. unfold head. rewrite (max_epoch_seqZ _ _ _ _ Hn E). destruct (_ =? _)%Z; [done|lia].
Qed.

Lemma head_nonneg db c : gapless db -> (0 <= head db c)%Z.
Proof.
  intros Hg. destruct (Hg c) as (lo & n & Hlo & Hn & Hb & E). rewrite (head_seqZ _ _ _ _ Hn E).
  destruct (_ =? _)%Z; lia.
Qed.

(** A row's epoch is below the head. *)
Lemma epoch_below_head db c r : gapless db -> r ∈ conv_rows db c -> (0 <= rec_epoch r < head db c)%Z.
Proof.
  intros Hg Hr. destruct (Hg c) as (lo & n & Hlo & Hn & Hb & E).
  assert (rec_epoch r ∈ epochs db c) as He by (by apply list_elem_of_fmap_2).
  rewrite E, elem_of_seqZ in He. rewrite (head_seqZ _ _ _ _ Hn E).
  destruct (Z.eqb_spec n 0); lia.
Qed.

Lemma elem_conv_rows db c r : r ∈ conv_rows db c <-> r ∈ mls_commit_log db /\ rec_conversation_id r = c.
Proof. unfold conv_rows. rewrite !list_elem_of_In, filter_In, bool_decide_eq_true. done. Qed.

Lemma head_epoch_ok fault db c : gapless db -> (head db c < 2 ^ 63)%Z -> fault StMaxEpoch = false ->
  head_epoch fault db c = Ok (head db c).
Proof.
  intros Hg Hlt Hf. unfold head_epoch, exec. rewrite Hf. simpl. f_equal.
  destruct (Hg c) as (lo & n & Hlo & Hn & Hb & E). pose proof (max_epoch_seqZ _ _ _ _ Hn E) as Hm.
  unfold head in *. destruct (max_epoch db c) as [m|]; simpl; [|done].
  assert (0 <= m)%Z by (destruct (Z.eqb_spec n 0); simplify_eq; lia).
  unfold as_u64, i64_to_u64. rewrite Z.mod_small by lia. rewrite N.mod_small by lia.
  unfold u64_to_i64. rewrite Z.mod_small by lia. destruct (Z.ltb_spec (Z.of_N (Z.to_N m + 1)) (2 ^ 63)); lia.
Qed.

(** *** Inserting at the head *)

Lemma conv_rows_app db l r c n g w s :
  conv_rows (mkLogDb (l ++ [r]) n g w s) c =
  conv_rows (mkLogDb l (next_seq db) g w s) c ++ (if bool_decide (rec_conversation_id r = c) then [r] else []).
Proof. unfold conv_rows. simpl. rewrite List.filter_app. simpl. by case_bool_decide. Qed.

Definition same_log (db db' : LogDb) : Prop :=
  mls_commit_log db' = mls_commit_log db /\ mls_commit_since db' = mls_commit_since db /\
  next_seq db' = next_seq db.

#[global] Instance same_log_preorder : PreOrder same_log.
Proof. split; unfold same_log; [done|]. by intros x y z (-> & -> & ->) (-> & -> & ->). Qed.

Lemma same_log_conv_rows db db' c : same_log db db' -> conv_rows db' c = conv_rows db c.
Proof. intros [E _]. unfold conv_rows. by rewrite E. Qed.

Lemma conv_rows_head db db' c : conv_rows db' c = conv_rows db c -> head db' c = head db c.
Proof. unfold head, max_epoch. by intros ->. Qed.

Lemma gapless_ext db db' : (forall c, conv_rows db' c = conv_rows db c) -> gapless db -> gapless db'.
Proof. intros E Hg c. destruct (Hg c) as (lo & n & H). exists lo, n. unfold epochs. by rewrite E. Qed.

Definition new_row (db : LogDb) (body : SubmitBody) (data : bytes) (now : string) : CommitRec :=
  mkCommitRec (next_seq db) (conversation_id body) (based_on_epoch body) (sender_id body) data now
    (added_user_id body) (added_device_ids body).

(** The conditional insert under the invariant: the conflict clause never fires. *)
Lemma insert_commit_spec db body data now : gapless db ->
  insert_commit db body data now =
  if (based_on_epoch body =? head db (conversation_id body))%Z
  then (1, mkLogDb (mls_commit_log db ++ [new_row db body data now]) (next_seq db + 1)
             (mls_group_info db) (mls_welcome db) (mls_commit_since db))
  else (0, db).
Proof.
  intros Hg. unfold insert_commit.
  replace (match max_epoch db (conversation_id body) with Some m => m | None => -1 end + 1)%Z
    with (head db (conversation_id body)) by (unfold head; destruct (max_epoch _ _); lia).
  destruct (Z.eqb_spec (based_on_epoch body) (head db (conversation_id body))) as [Eh|]; [|done]. simpl.
  destruct (existsb _ _) eqn:Ex; [|done].
  apply existsb_exists in Ex as (r & Hr%list_elem_of_In & He). breflect.
  pose proof (epoch_below_head _ _ _ Hg Hr). lia.
Qed.

Lemma seqZ_snoc lo n : (0 <= n)%Z -> seqZ lo n ++ [(lo + n)%Z] = seqZ lo (n + 1).
Proof. intros Hn. by rewrite seqZ_app by lia. Qed.

Lemma gapless_insert db body data now :
  gapless db -> based_on_epoch body = head db (conversation_id body) -> (based_on_epoch body < 2 ^ 63)%Z ->
  let db' := mkLogDb (mls_commit_log db ++ [new_row db body data now]) (next_seq db + 1)
               (mls_group_info db) (mls_welcome db) (mls_commit_since db) in
  gapless db' /\ head db' (conversation_id body) = (head db (conversation_id body) + 1)%Z /\
  conv_rows db' (conversation_id body) = conv_rows db (conversation_id body) ++ [new_row db body data now] /\
  forall c, c <> conversation_id body -> conv_rows db' c = conv_rows db c.
Proof.
  intros Hg Hh Hb. set (c0 := conversation_id body) in *. simpl.
  assert (forall c, conv_rows (mkLogDb (mls_commit_log db ++ [new_row db body data now]) (next_seq db + 1)
    (mls_group_info db) (mls_welcome db) (mls_commit_since db)) c =
    conv_rows db c ++ (if bool_decide (c0 = c) then [new_row db body data now] else [])) as Er.
  { intros c. rewrite (conv_rows_app db). done. }
  destruct (Hg c0) as (lo & n & Hlo & Hn & Hbd & E). pose proof (head_seqZ _ _ _ _ Hn E) as Hhd.
  set (db' := mkLogDb _ _ _ _ _) in *.
  assert (exists lo', (0 <= lo')%Z /\ (lo' + (n + 1) <= 2 ^ 63)%Z /\ epochs db' c0 = seqZ lo' (n + 1) /\
    (lo' + n = head db c0)%Z) as (lo' & Hlo' & Hb' & E' & Hl').
  { exists (if (n =? 0)%Z then 0%Z else lo). unfold epochs in *. rewrite Er, bool_decide_eq_true_2 by done.
    rewrite map_app, E. simpl. rewrite Hh, Hhd, <- seqZ_snoc by done.
    destruct (Z.eqb_spec n 0) as [->|]; split_and!; try done; try lia. }
  split_and!.
  - intros c. destruct (decide (c0 = c)) as [<-|Hne].
    + exists lo', (n + 1)%Z. split_and!; [lia|lia|lia|done].
    + destruct (Hg c) as (lo2 & n2 & H2). exists lo2, n2. unfold epochs.
      by rewrite Er, bool_decide_eq_false_2, app_nil_r.
  - rewrite (head_seqZ db' c0 lo' (n + 1)) by (done || lia). destruct (Z.eqb_spec (n + 1) 0); lia.
  - by rewrite Er, bool_decide_eq_true_2.
  - intros c Hne. by rewrite Er, bool_decide_eq_false_2, app_nil_r.
Qed.

(** The statements after the insert leave the commit log and the reports alone. *)
Lemma upsert_group_info_log db c e g by_ : same_log db (snd (upsert_group_info db c e g by_)).
Proof. unfold upsert_group_info. by destruct (_ !! c); [destruct (_ <? _)%Z|]. Qed.

Lemma upsert_welcome_log db id c u d b db' : upsert_welcome db id c u d b = Ok db' -> same_log db db'.
Proof. unfold upsert_welcome. destruct (existsb _ _); [|destruct (existsb _ _)]; intros; by simplify_eq. Qed.

Lemma insert_welcomes_log fault ulid c ws i tx tx' :
  insert_welcomes fault ulid c i ws tx = Ok tx' -> same_log tx tx'.
Proof.
  revert i tx; induction ws as [|[w b] ws IH]; simpl; intros i tx E; [by simplify_eq|].
  rinv E. etransitivity; [by eapply upsert_welcome_log|by eapply IH].
Qed.

(** The full invariant: contiguous epochs and [seq] numbers in insertion order. *)
Record log_inv (db : LogDb) : Prop := {
  inv_gapless : gapless db;
  inv_seq : ordered (fun r r' => (rec_seq r < rec_seq r')%Z) (mls_commit_log db);
  inv_next : Forall (fun r => (rec_seq r < next_seq db)%Z) (mls_commit_log db)
}.

Lemma ordered_seqZ lo n : ordered Z.lt (seqZ lo n).
Proof. intros i j x y Hij [Hx _]%lookup_seqZ [Hy _]%lookup_seqZ. lia. Qed.

Lemma conv_rows_ordered db c : gapless db ->
  ordered (fun r r' => (rec_epoch r < rec_epoch r')%Z) (conv_rows db c).
Proof.
  intros Hg. destruct (Hg c) as (lo & n & _ & _ & _ & E).
  apply (ordered_map Z.lt rec_epoch). unfold epochs in E. rewrite E. apply ordered_seqZ.
Qed.

Lemma ordered_impl {A} (Q Q' : A -> A -> Prop) l : (forall x y, Q x y -> Q' x y) -> ordered Q l -> ordered Q' l.
Proof. intros HQ Ho i j x y Hij Hx Hy. eapply HQ, (Ho i j); done. Qed.

Section Submit.
Context `{Base64}.

(** Under the invariant the fetched rows come in insertion order. *)
Lemma fetch_commits_ok fault db c since : log_inv db -> fault StFetch = false ->
  fetch_commits fault db c since =
  Ok (map wire_of (List.filter (fun r => (since <=? rec_epoch r)%Z) (conv_rows db c))).
Proof.
  intros [Hg Hs _] Hf. unfold fetch_commits, exec. rewrite Hf. do 2 f_equal.
  assert (ordered (key_le rec_seq) (List.filter (fun r => (since <=? rec_epoch r)%Z) (conv_rows db c))) as H1.
  { eapply ordered_impl, ordered_filter, ordered_filter, Hs. unfold key_le. lia. }
  rewrite (sort_by_key_id rec_seq) by done. apply sort_by_key_id.
  eapply ordered_impl, ordered_filter, conv_rows_ordered, Hg. unfold key_le. lia.
Qed.

(** A transaction that ran to [COMMIT] kept the inserted row and the reports. *)
Lemma submit_commit_cases fault now ulid db body : log_inv db ->
  match submit_commit fault now ulid db body with
  | (db', Ok (Accepted e)) =>
      exists data tx, b64_decode (commit body) = Ok data /\ e = based_on_epoch body /\
        e = head db (conversation_id body) /\
        tx = mkLogDb (mls_commit_log db ++ [new_row db body data now]) (next_seq db + 1)
               (mls_group_info db) (mls_welcome db) (mls_commit_since db) /\
        same_log tx db'
  | (db', Ok (Rejected h m)) =>
      db' = db /\ based_on_epoch body <> head db (conversation_id body) /\
      head_epoch fault db (conversation_id body) = Ok h /\
      fetch_commits fault db (conversation_id body) (based_on_epoch body) = Ok m
  | (db', Err _) => db' = db
  end.
Proof.
  intros Hi. unfold submit_commit.
  destruct (b64_decode (commit body)) as [data|] eqn:Ed; simpl; [|done].
  destruct (match group_info body with None => Ok None | Some g => _ end) as [gi|]; simpl; [|done].
  destruct (collect_results _ (welcomes body)) as [ws|]; simpl; [|done].
  unfold exec at 1. destruct (fault StBegin); simpl; [done|].
  unfold exec at 1. destruct (fault StInsertCommit); simpl; [done|].
  rewrite insert_commit_spec by apply Hi.
  destruct (Z.eqb_spec (based_on_epoch body) (head db (conversation_id body))) as [Eh|Eh]; simpl.
  - set (tx := mkLogDb _ _ _ _ _).
    destruct (match gi with None => Ok tx | Some g => _ end) as [tx1|] eqn:E1; simpl; [|done].
    destruct (insert_welcomes _ _ _ _ _ tx1) as [tx2|] eqn:E2; simpl; [|done].
    unfold exec. destruct (fault StCommit); simpl; [done|]. exists data, tx.
    assert (same_log tx tx1) as Hl1.
    { destruct gi as [g|]; [|by simplify_eq]. unfold exec in E1. destruct (fault StGroupInfo); simplify_eq.
      apply upsert_group_info_log. }
    split_and!; try done. etransitivity; [exact Hl1|by eapply insert_welcomes_log].
  - destruct (head_epoch fault db _) as [h|]; simpl; [|done].
    destruct (fetch_commits fault db _ _) as [m|]; simpl; [|done].
    unfold exec. by destruct (fault StRollback).
Qed.

Lemma log_inv_same db db' : same_log db db' -> log_inv db -> log_inv db'.
Proof.
  intros Hs [Hg Ho Hn]. split.
  - eapply gapless_ext, Hg. intros c. by apply same_log_conv_rows.
  - by destruct Hs as (-> & _ & _).
  - by destruct Hs as (-> & _ & ->).
Qed.

Lemma log_inv_insert db body data now : log_inv db ->
  based_on_epoch body = head db (conversation_id body) -> (based_on_epoch body < 2 ^ 63)%Z ->
  log_inv (mkLogDb (mls_commit_log db ++ [new_row db body data now]) (next_seq db + 1)
             (mls_group_info db) (mls_welcome db) (mls_commit_since db)).
Proof.
  intros [Hg Ho Hn] Hh Hb. split; simpl.
  - by apply gapless_insert.
  - by apply ordered_snoc.
  - apply Forall_app. split; [|constructor; [simpl; lia|constructor]].
    eapply Forall_impl; [exact Hn|]. simpl. lia.
Qed.

(** C4: [submit_commit] is atomic and serializes the epochs of a conversation.  From any
    state that satisfies the log invariant: a commit is accepted only at the head epoch,
    its row is then the conversation's new last row, the head advances by one and no
    other conversation changes; a rejection leaves the database as it was and returns
    the current head with exactly the rows from the client's epoch on, in epoch order; an
    error at any statement, decoding or database, leaves the database as it was. *)
Theorem submit_commit_spec (fault : Faults) (now : string) (ulid : nat -> string) (db : LogDb) (body : SubmitBody) :
  log_inv db -> (head db (conversation_id body) < 2 ^ 63)%Z ->
  let c := conversation_id body in
  log_inv (submit_commit fault now ulid db body).1 /\
  match submit_commit fault now ulid db body with
  | (db', Ok (Accepted e)) =>
      e = based_on_epoch body /\ e = head db c /\ head db' c = (head db c + 1)%Z /\
      (exists r, conv_rows db' c = conv_rows db c ++ [r] /\ rec_epoch r = e /\
         rec_sender_id r = sender_id body /\ b64_decode (commit body) = Ok (rec_commit_data r)) /\
      (forall c', c' <> c -> conv_rows db' c' = conv_rows db c')
  | (db', Ok (Rejected h m)) =>
      db' = db /\ based_on_epoch body <> head db c /\ h = head db c /\
      m = map wire_of (List.filter (fun r => (based_on_epoch body <=? rec_epoch r)%Z) (conv_rows db c))
  | (db', Err _) => db' = db
  end.
Proof.
  intros Hi Hlt. simpl. pose proof (submit_commit_cases fault now ulid db body Hi) as Hs.
  destruct (submit_commit fault now ulid db body) as [db' [[e|h m]|er]]; simpl.
  - destruct Hs as (data & tx & Hd & -> & Hh & -> & Hsl).
    assert (based_on_epoch body < 2 ^ 63)%Z as Hb by lia.
    split; [eapply log_inv_same, log_inv_insert; done|].
    destruct (gapless_insert db body data now (inv_gapless _ Hi) Hh Hb) as (_ & Hhd & Hr & Hro).
    split_and!; [done|done| | |].
    + rewrite <- Hhd. by apply conv_rows_head, same_log_conv_rows.
    + exists (new_row db body data now). by rewrite (same_log_conv_rows _ _ _ Hsl).
    + intros c' Hc'. rewrite (same_log_conv_rows _ _ _ Hsl). by apply Hro.
  - destruct Hs as (-> & Hne & Hh & Hm). split; [done|]. split_and!; [done|done| |].
    + unfold head_epoch, exec in Hh. destruct (fault StMaxEpoch) eqn:Ef; [done|].
      pose proof (head_epoch_ok fault db _ (inv_gapless _ Hi) Hlt Ef) as Hh'.
      unfold head_epoch, exec in Hh'. rewrite Ef in Hh'. congruence.
    + unfold fetch_commits, exec in Hm. destruct (fault StFetch) eqn:Ef; [done|].
      pose proof (fetch_commits_ok fault db (conversation_id body) (based_on_epoch body) Hi Ef) as Hm'.
      unfold fetch_commits, exec in Hm'. rewrite Ef in Hm'. congruence.
  - by subst.
Qed.
End Submit.

(** ** Pruning *)

Lemma filter_seqZ f lo n : (0 <= n)%Z ->
  List.filter (fun e => negb (e <? f)%Z) (seqZ lo n) =
  seqZ (Z.max lo (Z.min f (lo + n))) (lo + n - Z.max lo (Z.min f (lo + n))).
Proof.
  intros Hn. pattern n. apply natlike_ind; [| |done].
  - rewrite (seqZ_nil lo 0) by lia. simpl. by rewrite seqZ_nil by lia.
  - intros k Hk IH. unfold Z.succ. rewrite <- seqZ_snoc, List.filter_app, IH by done. simpl.
    destruct (Z.ltb_spec (lo + k) f); simpl.
    + rewrite app_nil_r. rewrite !seqZ_nil by lia. done.
    + replace (Z.max lo (Z.min f (lo + (k + 1)))) with (Z.max lo (Z.min f (lo + k))) by lia.
      replace (lo + k)%Z with (Z.max lo (Z.min f (lo + k)) + (lo + k - Z.max lo (Z.min f (lo + k))))%Z at 4 by lia.
      rewrite seqZ_snoc by lia. f_equal. lia.
Qed.

Lemma map_filter_epoch (p : Z -> bool) l :
  map rec_epoch (List.filter (fun r => p (rec_epoch r)) l) = List.filter p (map rec_epoch l).
Proof. induction l as [|r l IH]; simpl; [done|]. destruct (p (rec_epoch r)); simpl; by rewrite IH. Qed.

(** The rows left by a delete below [f]. *)
Definition pruned (db : LogDb) (c : string) (f : Z) : LogDb :=
  set_commits db (List.filter
    (fun r => negb (bool_decide (rec_conversation_id r = c) && (rec_epoch r <? f)%Z)) (mls_commit_log db)).

Lemma filter_filter {A} (p q : A -> bool) l :
  List.filter p (List.filter q l) = List.filter (fun x => q x && p x) l.
Proof. induction l as [|x l IH]; simpl; [done|]. destruct (q x); simpl; [destruct (p x)|]; by rewrite ?IH. Qed.

Lemma pruned_rows db c f c' :
  conv_rows (pruned db c f) c' =
  if bool_decide (c' = c) then List.filter (fun r => negb (rec_epoch r <? f)%Z) (conv_rows db c')
  else conv_rows db c'.
Proof.
  unfold conv_rows, pruned. simpl. rewrite filter_filter. case_bool_decide as Hc.
  - subst c'. rewrite filter_filter. apply List.filter_ext. intros r. by destruct (bool_decide _), (_ <? _)%Z.
  - apply List.filter_ext. intros r. case_bool_decide as Hr; case_bool_decide as Hr'; simpl; by rewrite ?andb_true_r, ?andb_false_r; congruence.
Qed.

Lemma pruned_epochs db c f lo n : (0 <= n)%Z -> epochs db c = seqZ lo n ->
  epochs (pruned db c f) c = seqZ (Z.max lo (Z.min f (lo + n))) (lo + n - Z.max lo (Z.min f (lo + n))).
Proof.
  intros Hn E. unfold epochs in *. rewrite pruned_rows, bool_decide_eq_true_2 by done.
  rewrite (map_filter_epoch (fun e => negb (e <? f)%Z)), E. by apply filter_seqZ.
Qed.

Lemma gapless_pruned db c f : gapless db -> gapless (pruned db c f).
Proof.
  intros Hg c'. destruct (Hg c') as (lo & n & Hlo & Hn & Hb & E). destruct (decide (c' = c)) as [->|Hne].
  - rewrite (pruned_epochs _ _ _ _ _ Hn E). do 2 eexists. split_and!; [| | |done]; lia.
  - exists lo, n. unfold epochs in *. by rewrite pruned_rows, bool_decide_eq_false_2.
Qed.

(** A prune below the head keeps the head. *)
Lemma pruned_head db c f : gapless db -> (f < head db c)%Z \/ head db c = 0%Z ->
  forall c', head (pruned db c f) c' = head db c'.
Proof.
  intros Hg Hf c'. destruct (decide (c' = c)) as [->|Hne].
  - destruct (Hg c) as (lo & n & Hlo & Hn & Hb & E). pose proof (head_seqZ _ _ _ _ Hn E) as Hh.
    rewrite (head_seqZ (pruned db c f) c (Z.max lo (Z.min f (lo + n))) (lo + n - Z.max lo (Z.min f (lo + n))))
      by (lia || by apply pruned_epochs). rewrite Hh in Hf |- *. clear Hh.
    destruct (Z.eqb_spec n 0) as [Hn0|Hn0];
      destruct (Z.eqb_spec (lo + n - Z.max lo (Z.min f (lo + n))) 0); lia.
  - apply conv_rows_head. by rewrite pruned_rows, bool_decide_eq_false_2.
Qed.

Lemma log_inv_pruned db c f : log_inv db -> log_inv (pruned db c f).
Proof.
  intros [Hg Ho Hn]. split.
  - by apply gapless_pruned.
  - by apply ordered_filter.
  - apply List.Forall_forall. intros r [Hr _]%filter_In. by eapply List.Forall_forall in Hn.
Qed.

Lemma pruned_zero db c f : log_inv db -> (f <= 0)%Z -> pruned db c f = db.
Proof.
  intros Hi Hf. unfold pruned, set_commits. destruct db as [l ns g w s]. simpl. f_equal.
  apply forallb_filter_id, forallb_forall. intros r Hr. case_bool_decide as Hc; [|done]. simpl.
  destruct (Z.ltb_spec (rec_epoch r) f); [|done].
  pose proof (epoch_below_head _ c r (inv_gapless _ Hi)) as Hb. rewrite elem_conv_rows, list_elem_of_In in Hb.
  specialize (Hb (conj Hr Hc)). lia.
Qed.

(** The floor a prune uses: the least report of the roster and the head. *)
Definition roster_scan (main : MainDb) (db : LogDb) (c : string) : option Z * bool :=
  match current_member_devices (fun _ => false) main c, recorded_since (fun _ => false) db c with
  | Ok [], _ => (None, false)
  | Ok members, Ok recorded => scan_members recorded members
  | _, _ => (None, false)
  end.

Definition log_floor (main : MainDb) (db : LogDb) (c : string) : Z :=
  prune_floor (roster_scan main db c).1 (roster_scan main db c).2 (head db c).

(** A prune either fails and changes nothing or deletes below the floor. *)
Lemma prune_commit_log_spec fault main db c : log_inv db -> (head db c < 2 ^ 63)%Z ->
  match prune_commit_log fault main db c with
  | (db', Ok r) => db' = pruned db c (log_floor main db c) /\ floor r = log_floor main db c
  | (db', Err _) => db' = db
  end.
Proof.
  intros Hi Hlt. unfold prune_commit_log, log_floor, roster_scan.
  destruct (fault StMaxEpoch) eqn:E1.
  { unfold head_epoch, exec. by rewrite E1. }
  rewrite head_epoch_ok by (done || apply Hi). simpl.
  unfold current_member_devices, recorded_since, exec. simpl.
  destruct (fault StMembers); simpl; [done|]. destruct (fault StRecorded); simpl; [done|].
  set (members := remove_dups _). set (recorded := fold_left _ _ _).
  assert (forall ms al, match (match (let? dd := delete_commits_below fault db c (prune_floor ms al (head db c)) in
      Ok (dd.1, mkPruneReport (prune_floor ms al (head db c)) dd.2)) with
      | Ok (db', r) => (db', Ok r) | Err e => (db, Err e) end) with
    | (db', Ok r) => db' = pruned db c (prune_floor ms al (head db c)) /\ floor r = prune_floor ms al (head db c)
    | (db', Err _) => db' = db end) as Hd.
  { intros ms al. unfold delete_commits_below. destruct (Z.leb_spec (prune_floor ms al (head db c)) 0).
    - simpl. by rewrite pruned_zero.
    - unfold exec. by destruct (fault StDelete). }
  destruct members as [|d ds]; [apply Hd|]. destruct (scan_members recorded (d :: ds)) as [ms al]. apply Hd.
Qed.

Lemma recorded_lookup l (m0 : gmap string Z) d s :
  fold_left (fun m r => <[sin_device_id r := since_epoch r]> m) l m0 !! d = Some s ->
  m0 !! d = Some s \/ exists r, r ∈ l /\ sin_device_id r = d /\ since_epoch r = s.
Proof.
  revert m0; induction l as [|r l IH]; simpl; intros m0 E; [by left|].
  apply IH in E as [[[Hd Hs]|[_ E]]%lookup_insert_Some|(r' & Hr' & ?)]; [right|by left|right].
  - exists r. split; [by left|done].
  - exists r'. split; [by right|done].
Qed.

(** The recorded epochs come from the conversation's reports. *)
Lemma recorded_since_elem db c recorded d s : recorded_since (fun _ => false) db c = Ok recorded ->
  recorded !! d = Some s ->
  exists r, r ∈ mls_commit_since db /\ sin_conversation_id r = c /\ sin_device_id r = d /\ since_epoch r = s.
Proof.
  unfold recorded_since, exec. simpl. intros [= <-] E.
  apply recorded_lookup in E as [?|(r & Hr & Hd & Hs)]; [by rewrite lookup_empty in *|].
  rewrite list_elem_of_In, filter_In, bool_decide_eq_true in Hr. exists r.
  rewrite list_elem_of_In. tauto.
Qed.

(** What the member loop computes. *)
Lemma scan_members_spec recorded ms mn al : scan_members recorded ms = (mn, al) ->
  (al = true <-> forall d, d ∈ ms -> is_Some (recorded !! d)) /\
  match mn with
  | Some m => (forall d s, d ∈ ms -> recorded !! d = Some s -> (m <= s)%Z) /\
              exists d, d ∈ ms /\ recorded !! d = Some m
  | None => forall d, d ∈ ms -> recorded !! d = None
  end.
Proof.
  unfold scan_members. revert mn al. induction ms as [|d ms IH] using rev_ind; intros mn al E; simpl in E.
  { simplify_eq. split; [split; [intros _ d Hd; by apply elem_of_nil in Hd|done]|].
    intros d Hd; by apply elem_of_nil in Hd. }
  rewrite fold_left_app in E. destruct (fold_left _ ms _) as [mn0 al0] eqn:E0. simpl in E.
  destruct (IH _ _ eq_refl) as [Hal Hmn].
  assert (forall d', d' ∈ ms ++ [d] <-> d' ∈ ms \/ d' = d) as Hin.
  { intros d'. by rewrite elem_of_app, list_elem_of_singleton. }
  destruct (recorded !! d) as [s|] eqn:Ed; simplify_eq.
  - split.
    + rewrite Hal. split; [intros Hx d' [?| ->]%Hin; eauto|intros Hx d' Hd'; apply Hx, Hin; auto].
    + destruct mn0 as [m|]; split.
      * intros d' s' [Hd'| ->]%Hin Hs'; [destruct Hmn as [Hle _]; specialize (Hle _ _ Hd' Hs'); lia|].
        simplify_eq. lia.
      * destruct Hmn as [_ (d0 & Hd0 & E1)].
        destruct (Z.min_spec m s) as [[_ ->]|[_ ->]]; [exists d0|exists d]; (split; [apply Hin; auto|done]).
      * intros d' s' [Hd'| ->]%Hin Hs'; [|by simplify_eq]. by rewrite Hmn in Hs' by done.
      * exists d. split; [apply Hin; auto|done].
  - split.
    + split; [done|]. intros Hx. destruct (Hx d) as [? ?]; [apply Hin; by right|congruence].
    + destruct mn as [m|].
      * destruct Hmn as [Hle (d0 & Hd0 & E1)]. split; [|exists d0; split; [apply Hin; auto|done]].
        intros d' s' [Hd'| ->]%Hin Hs'; [eauto|congruence].
      * intros d' [Hd'| ->]%Hin; eauto.
Qed.

(** The floor without wrap-around. *)
Lemma prune_floor_eq ms al h : (0 <= h < 2 ^ 63)%Z ->
  (forall m, ms = Some m -> (- 2 ^ 63 + 8 <= m < 2 ^ 63)%Z) ->
  prune_floor ms al h =
  Z.max (match al, ms with true, Some m => Z.max (m - 8) 0 | _, _ => 0 end) (Z.max (h - 512) 0).
Proof.
  intros Hh Hm. unfold prune_floor, PRUNE_SLACK_EPOCHS, PRUNE_MAX_BEHIND_HEAD.
  rewrite (wrap_i64_id (h - 512)) by (unfold i64_range; lia).
  destruct al, ms as [m|]; try done. by rewrite wrap_i64_id by (specialize (Hm m eq_refl); unfold i64_range; lia).
Qed.

(** The two-tier retention floor.  Away from the bottom of the [i64] range, the floor
    is never negative, exceeds the slowest reported epoch only where the hard cap of 512
    epochs behind the head binds, never goes above both bounds, and with an unreported
    device only the hard cap applies. *)
Theorem prune_floor_bounds (min_since : option Z) (all_reported : bool) (h : Z) :
  (0 <= h < 2 ^ 63)%Z -> (forall m, min_since = Some m -> (- 2 ^ 63 + PRUNE_SLACK_EPOCHS <= m < 2 ^ 63)%Z) ->
  let f := prune_floor min_since all_reported h in
  (0 <= f)%Z /\
  (forall m, min_since = Some m -> (0 <= m)%Z -> (m < f)%Z -> f = (h - PRUNE_MAX_BEHIND_HEAD)%Z) /\
  (all_reported = false \/ min_since = None -> f = Z.max (h - PRUNE_MAX_BEHIND_HEAD) 0) /\
  (h - f <= PRUNE_MAX_BEHIND_HEAD)%Z.
Proof.
  intros Hh Hm. simpl. rewrite prune_floor_eq by done. unfold PRUNE_MAX_BEHIND_HEAD.
  destruct all_reported, min_since as [m|]; split_and!; intros; simplify_eq; try lia; by destruct_or?.
Qed.

(** C5: A prune keeps what the reports ask for.  Of the reports in range (no lower than the
    slack above the least [i64]), a prune, whatever statement fails, keeps every row of the
    last 512 epochs at or above the epoch the device of a current member last reported, and
    every row of those epochs while some such device has not reported.  Other conversations
    are untouched and the log invariant is preserved.  The reports themselves are taken as
    they stand: the open catch-up route accepts any, and a report above what the device has
    seen can lose it rows ([unchecked_report_forks]). *)
Theorem prune_keeps_needed (fault : Faults) (main : MainDb) (db : LogDb) (c : string)
    (members : list string) (recorded : gmap string Z) :
  log_inv db -> (head db c < 2 ^ 63)%Z ->
  current_member_devices (fun _ => false) main c = Ok members ->
  recorded_since (fun _ => false) db c = Ok recorded ->
  (forall d s, recorded !! d = Some s -> (- 2 ^ 63 + PRUNE_SLACK_EPOCHS <= s < 2 ^ 63)%Z) ->
  let db' := (prune_commit_log fault main db c).1 in
  log_inv db' /\
  (forall c', c' <> c -> conv_rows db' c' = conv_rows db c') /\
  (forall d r, d ∈ members -> r ∈ conv_rows db c ->
     (head db c - PRUNE_MAX_BEHIND_HEAD <= rec_epoch r)%Z ->
     match recorded !! d with Some s => (s <= rec_epoch r)%Z | None => True end ->
     r ∈ conv_rows db' c).
Proof.
  intros Hi Hlt Hm Hrec Hrange. simpl.
  pose proof (prune_commit_log_spec fault main db c Hi Hlt) as Hp.
  destruct (prune_commit_log fault main db c) as [db' [r|e]]; simpl; [|by subst].
  destruct Hp as [-> _]. split_and!; [by apply log_inv_pruned| |].
  { intros c' Hne. by rewrite pruned_rows, bool_decide_eq_false_2. }
  intros d row Hd Hrow Hcap Hs. rewrite pruned_rows, bool_decide_eq_true_2 by done.
  rewrite list_elem_of_In, filter_In, <- list_elem_of_In. split; [done|].
  pose proof (epoch_below_head _ _ _ (inv_gapless _ Hi) Hrow) as Hb.
  enough (log_floor main db c <= rec_epoch row)%Z by (destruct (Z.ltb_spec (rec_epoch row) (log_floor main db c)); [lia|done]).
  unfold log_floor, roster_scan. rewrite Hm, Hrec. destruct members as [|d0 ds]; [by apply elem_of_nil in Hd|].
  destruct (scan_members recorded (d0 :: ds)) as [mn al] eqn:Es. simpl.
  destruct (scan_members_spec _ _ _ _ Es) as [Hal Hmn]. unfold PRUNE_SLACK_EPOCHS, PRUNE_MAX_BEHIND_HEAD in *.
  rewrite prune_floor_eq; [|split; [apply head_nonneg, Hi|done]|].
  - destruct al, mn as [m|]; try lia. destruct (proj1 Hal eq_refl d Hd) as [s Ed]. rewrite Ed in Hs.
    destruct Hmn as [Hle _]. specialize (Hle _ _ Hd Ed). lia.
  - intros m ->. destruct Hmn as [_ (d' & _ & Ed)]. by apply (Hrange d').
Qed.

(** ** Runs of the service *)

(** What can happen to the databases: requests in some order, and changes of membership. *)
Inductive Event : Type :=
| ESubmit (fault : Faults) (now : string) (ulid : nat -> string) (authed : option string) (body : option SubmitBody)
| ECatchup (fault : Faults) (c : string) (since : Z) (user_id device_id : option string)
| EGroupInfo (c : string) (epoch : Z) (gi : bytes) (by_device : string)
| EAck (recipient : string) (ids : list string)
| EReset (recipient : string) (device_id : option string)
| EPurge (recipient : string)
| EResubmit (id c u d : string) (blob : bytes)
| EMembership (main' : MainDb).

(** [history] is a ghost: every commit the service ever accepted, in order. *)
Record World := mkWorld {
  w_main : MainDb;
  w_log : LogDb;
  history : list (string * (Z * bytes))
}.

Section Runs.
Context `{Base64}.

Definition accepted_entry (body : option SubmitBody) (r : Response) : list (string * (Z * bytes)) :=
  match body, r with
  | Some b, SubmitReply (Accepted e) =>
      match b64_decode (commit b) with Ok data => [(conversation_id b, (e, data))] | Err _ => [] end
  | _, _ => []
  end.

Definition step (w : World) (ev : Event) : World :=
  match ev with
  | ESubmit fault now ulid authed body =>
      let '(db', r) := submit fault now ulid (w_main w) (w_log w) authed body in
      mkWorld (w_main w) db' (history w ++ accepted_entry body r)
  | ECatchup fault c since u d =>
      mkWorld (w_main w) (commits fault (w_main w) (w_log w) c since u d).1 (history w)
  | EGroupInfo c e gi by_ => mkWorld (w_main w) (upsert_group_info (w_log w) c e gi by_).2 (history w)
  | EAck u ids => mkWorld (w_main w) (ack_welcomes (w_log w) u ids).1 (history w)
  | EReset u d => mkWorld (w_main w) (reset_welcomes (w_log w) u d).1 (history w)
  | EPurge u => mkWorld (w_main w) (purge_welcomes (w_log w) u).1 (history w)
  | EResubmit id c u d blob =>
      match upsert_welcome (w_log w) id c u d blob with
      | Ok db' => mkWorld (w_main w) db' (history w)
      | Err _ => w
      end
  | EMembership main' => mkWorld main' (w_log w) (history w)
  end.

Definition run (w : World) (evs : list Event) : World := fold_left step evs w.

Definition empty_log : LogDb := mkLogDb [] 1 ∅ [] [].

Definition initial (main : MainDb) : World := mkWorld main empty_log [].

(** The epochs in a request are [i64]s. *)
Definition event_typed (ev : Event) : Prop :=
  match ev with
  | ESubmit _ _ _ _ (Some b) => i64_range (based_on_epoch b)
  | ECatchup _ _ since _ _ => i64_range since
  | _ => True
  end.

Lemma log_inv_empty : log_inv empty_log.
Proof. split; [|apply ordered_nil|constructor]. intros c. by exists 0%Z, 0%Z. Qed.

Lemma prune_shape fault main db c : log_inv db ->
  exists f, best_effort_prune fault main db c = pruned db c f.
Proof.
  intros Hi. unfold best_effort_prune. destruct (fault StPruneConn); [exists 0%Z; by rewrite pruned_zero|].
  unfold prune_commit_log, delete_commits_below, exec.
  destruct (let? head := _ in _) as [[db' r]|e] eqn:E; simpl; [|exists 0%Z; by rewrite pruned_zero].
  rinv E. destruct (match a0 with [] => _ | _ => _ end) as [ms al] in E. rinv E. simplify_eq.
  destruct (Z.leb_spec (prune_floor ms al a) 0); [|destruct (fault StDelete)]; simplify_eq; simpl.
  - exists 0%Z. by rewrite pruned_zero.
  - by eexists.
Qed.

Lemma log_inv_prune fault main db c : log_inv db -> log_inv (best_effort_prune fault main db c).
Proof. intros Hi. destruct (prune_shape fault main db c Hi) as [f ->]. by apply log_inv_pruned. Qed.

Lemma record_since_log fault db c u d since db' : record_commit_since fault db c u d since = Ok db' ->
  mls_commit_log db' = mls_commit_log db /\ next_seq db' = next_seq db.
Proof. unfold record_commit_since, exec. destruct (fault StSince); [done|]. by destruct (existsb _ _); intros [= <-]. Qed.

Lemma log_inv_ext db db' : mls_commit_log db' = mls_commit_log db -> next_seq db' = next_seq db ->
  log_inv db -> log_inv db'.
Proof.
  intros E1 E2 [Hg Ho Hn]. split; rewrite ?E1, ?E2; try done.
  eapply gapless_ext, Hg. intros c. unfold conv_rows. by rewrite E1.
Qed.

Lemma submit_inv fault now ulid main db authed body : log_inv db ->
  (forall b, body = Some b -> i64_range (based_on_epoch b)) -> log_inv (submit fault now ulid main db authed body).1.
Proof.
  intros Hi Ht. unfold submit. destruct body as [b|]; [|done].
  destruct (match authed with Some _ => _ | None => _ end) as [[]|]; [|done..].
  unfold exec. destruct (fault StLogConn); [done|].
  pose proof (submit_commit_cases fault now ulid db b Hi) as Hs.
  destruct (submit_commit fault now ulid db b) as [db1 [[e|h m]|er]]; simpl.
  - destruct Hs as (data & tx & _ & -> & Hh & -> & Hsl). apply log_inv_prune.
    eapply log_inv_same, log_inv_insert; try done. specialize (Ht b eq_refl). unfold i64_range in Ht. lia.
  - by destruct Hs as [-> _].
  - by subst.
Qed.

Lemma commits_db fault main db c since u d :
  (commits fault main db c since u d).1 = db \/
  exists u' d' db', u = Some u' /\ d = Some d' /\ record_commit_since fault db c u' d' since = Ok db' /\
    (commits fault main db c since u d).1 = best_effort_prune fault main db' c.
Proof.
  unfold commits. destruct (fault StLogConn); [by left|]. destruct u as [u'|], d as [d'|].
  1: destruct (negb _ && negb _); [destruct (record_commit_since _ _ _ _ _ _) as [db'|] eqn:E|].
  1: right; exists u', d', db'; split_and!; try done.
  all: try left; destruct (head_epoch _ _ _); try done; by destruct (fetch_commits _ _ _ _).
Qed.

Lemma step_inv w ev : event_typed ev -> log_inv (w_log w) -> log_inv (w_log (step w ev)).
Proof.
  intros Ht Hi. destruct ev; simpl.
  - pose proof (submit_inv fault now ulid (w_main w) (w_log w) authed body Hi) as Hs.
    destruct (submit _ _ _ _ _ _ _) as [db' r]. apply Hs. by intros b ->.
  - destruct (commits_db fault (w_main w) (w_log w) c since user_id device_id) as [->|(u & d & db' & _ & _ & E & ->)];
      [done|]. apply log_inv_prune. destruct (record_since_log _ _ _ _ _ _ _ E). by apply (log_inv_ext (w_log w)).
  - eapply log_inv_same, Hi. apply upsert_group_info_log.
  - unfold ack_welcomes. destruct ids; [done|]. by apply (log_inv_ext (w_log w)).
  - by apply (log_inv_ext (w_log w)).
  - by apply (log_inv_ext (w_log w)).
  - destruct (upsert_welcome _ _ _ _ _ _) as [db'|] eqn:E; [|done]. eapply log_inv_same, Hi. by eapply upsert_welcome_log.
  - done.
Qed.

(** One commit per epoch and no gap, always.  After any sequence of requests and
    membership changes, from the empty log and with any statement failing at any time,
    each conversation's epochs are one contiguous range held once each, in insertion and
    in [seq] order. *)
Theorem run_gapless (main : MainDb) (evs : list Event) :
  Forall event_typed evs ->
  let db := w_log (run (initial main) evs) in
  (forall c, exists lo n, (0 <= lo)%Z /\ (0 <= n)%Z /\ map rec_epoch (conv_rows db c) = seqZ lo n) /\
  ordered (fun r r' => (rec_seq r < rec_seq r')%Z) (mls_commit_log db).
Proof.
  intros Ht. simpl. enough (log_inv (w_log (run (initial main) evs))) as [Hg Ho _].
  { split; [|done]. intros c. destruct (Hg c) as (lo & n & ? & ? & _ & ?). eauto. }
  assert (log_inv (w_log (initial main))) as Hi by apply log_inv_empty. revert Hi.
  generalize (initial main) as w. induction Ht as [|ev evs Hev _ IH]; intros w Hi; [done|].
  simpl. apply IH. by apply step_inv.
Qed.

(** *** Honest reports *)

(** A device reports an epoch the group has reached. *)
Definition honest (w : World) (ev : Event) : Prop :=
  match ev with
  | ECatchup _ c since _ _ => (0 <= since <= head (w_log w) c)%Z
  | _ => True
  end.

Fixpoint honest_run (w : World) (evs : list Event) : Prop :=
  match evs with
  | [] => True
  | ev :: evs' => event_typed ev /\ honest w ev /\ honest_run (step w ev) evs'
  end.

(** The commits ever accepted for a conversation. *)
Definition conv_history (w : World) (c : string) : list (Z * bytes) :=
  omap (fun h : string * (Z * bytes) => if bool_decide (h.1 = c) then Some h.2 else None) (history w).

Definition row_entry (r : CommitRec) : Z * bytes := (rec_epoch r, rec_commit_data r).

Definition reports_ok (db : LogDb) : Prop :=
  Forall (fun r => (0 <= since_epoch r <= head db (sin_conversation_id r))%Z) (mls_commit_since db).

(** The retained rows are a suffix of an unforked history that reaches the head. *)
Record hist_inv (db : LogDb) (h : string -> list (Z * bytes)) : Prop := {
  hist_log : log_inv db;
  hist_epochs : forall c, map fst (h c) = seqZ 0 (head db c);
  hist_rows : forall c, exists k, map row_entry (conv_rows db c) = drop k (h c);
  hist_reports : reports_ok db
}.

Lemma filter_suffix {A} (key : A -> Z) f l : ordered (fun x y => (key x < key y)%Z) l ->
  exists k, List.filter (fun x => negb (key x <? f)%Z) l = drop k l.
Proof.
  induction l as [|x l IH]; intros Ho; [by exists 0|].
  assert (ordered (fun x y => (key x < key y)%Z) l) as Ho'.
  { intros i j a b Hij Ha Hb. apply (Ho (S i) (S j)); [lia|done..]. }
  simpl. destruct (Z.ltb_spec (key x) f); simpl.
  - destruct (IH Ho') as [k ->]. by exists (S k).
  - exists 0. cbn [drop]. f_equal. apply forallb_filter_id, forallb_forall. intros y [j Hj]%list_elem_of_In%list_elem_of_lookup.
    assert (key x < key y)%Z by (apply (Ho 0 (S j)); [lia|done..]).
    destruct (Z.ltb_spec (key y) f); [lia|done].
Qed.

Lemma hist_inv_pruned db h c f : hist_inv db h -> (f < head db c)%Z \/ head db c = 0%Z ->
  hist_inv (pruned db c f) h.
Proof.
  intros [Hi He Hr Hrep] Hf. pose proof (pruned_head db c f (inv_gapless _ Hi) Hf) as Hh. split.
  - by apply log_inv_pruned.
  - intros c'. by rewrite Hh.
  - intros c'. rewrite pruned_rows. case_bool_decide; [|done].
    destruct (filter_suffix rec_epoch f (conv_rows db c') (conv_rows_ordered _ _ (inv_gapless _ Hi))) as [k ->].
    destruct (Hr c') as [k' E]. rewrite <- skipn_map, E, skipn_skipn. eauto.
  - eapply Forall_impl; [exact Hrep|]. simpl. intros r. by rewrite Hh.
Qed.

(** With honest reports the floor stays below the head. *)
Lemma honest_floor main db c : log_inv db -> (head db c < 2 ^ 63)%Z -> reports_ok db ->
  (log_floor main db c < head db c)%Z \/ head db c = 0%Z.
Proof.
  intros Hi Hlt Hrep. pose proof (head_nonneg db c (inv_gapless _ Hi)) as Hn.
  destruct (decide (head db c = 0%Z)) as [|Hne]; [by right|left]. unfold log_floor.
  destruct (roster_scan main db c) as [ms al] eqn:Es. simpl.
  assert (forall m, ms = Some m -> (0 <= m <= head db c)%Z) as Hm.
  { intros m ->. unfold roster_scan in Es.
    destruct (current_member_devices _ main c) as [members|]; [|done].
    destruct (recorded_since _ db c) as [recorded|] eqn:Er; [|by destruct members].
    destruct members as [|d ds]; [done|]. apply scan_members_spec in Es as [_ [_ (d' & _ & Ed)]].
    destruct (recorded_since_elem _ _ _ _ _ Er Ed) as (r & Hr & Hc & _ & <-).
    unfold reports_ok in Hrep. rewrite Forall_forall in Hrep. specialize (Hrep r Hr). by rewrite Hc in Hrep. }
  rewrite prune_floor_eq by (lia || (intros m Hmm; specialize (Hm m Hmm); lia)).
  destruct al, ms as [m|]; try lia. specialize (Hm m eq_refl). lia.
Qed.

Lemma hist_inv_prune fault main db h c : hist_inv db h -> (head db c < 2 ^ 63)%Z ->
  hist_inv (best_effort_prune fault main db c) h /\
  (forall c', head (best_effort_prune fault main db c) c' = head db c').
Proof.
  intros Hh Hlt. unfold best_effort_prune. destruct (fault StPruneConn); [done|]. pose proof (hist_log _ _ Hh) as Hi.
  pose proof (prune_commit_log_spec fault main db c Hi Hlt) as Hp.
  pose proof (honest_floor main db c Hi Hlt (hist_reports _ _ Hh)) as Hf.
  destruct (prune_commit_log fault main db c) as [db' [r|e]]; simpl; [|by subst].
  destruct Hp as [-> _]. split; [by apply hist_inv_pruned|]. by apply pruned_head; [apply Hi|].
Qed.

Lemma hist_inv_ext db db' h : mls_commit_log db' = mls_commit_log db -> next_seq db' = next_seq db ->
  reports_ok db' -> hist_inv db h -> hist_inv db' h.
Proof.
  intros E1 E2 Hrep [Hi He Hr _].
  assert (forall c, conv_rows db' c = conv_rows db c) as Ec by (intros c; unfold conv_rows; by rewrite E1).
  split; [by eapply log_inv_ext|..|done]; intros c.
  - by rewrite (conv_rows_head _ _ _ (Ec c)).
  - by rewrite Ec.
Qed.

Lemma reports_ok_ext db db' : mls_commit_log db' = mls_commit_log db ->
  mls_commit_since db' = mls_commit_since db -> reports_ok db -> reports_ok db'.
Proof.
  unfold reports_ok. intros E1 -> Hr. eapply Forall_impl; [exact Hr|]. simpl. intros r.
  rewrite (conv_rows_head db db'); [done|]. unfold conv_rows. by rewrite E1.
Qed.

Lemma hist_inv_same db db' h : same_log db db' -> hist_inv db h -> hist_inv db' h.
Proof.
  intros (E1 & E2 & E3) Hh. eapply hist_inv_ext; [done..| |done]. eapply reports_ok_ext; [done..|apply Hh].
Qed.

Lemma hist_inv_record fault db h c u d since db' : record_commit_since fault db c u d since = Ok db' ->
  (0 <= since <= head db c)%Z -> hist_inv db h -> hist_inv db' h /\ forall c', head db' c' = head db c'.
Proof.
  intros E Hs Hh. destruct (record_since_log _ _ _ _ _ _ _ E) as [E1 E2].
  assert (forall c', head db' c' = head db c') as Ehd.
  { intros c'. apply conv_rows_head. unfold conv_rows. by rewrite E1. }
  split; [|done]. eapply hist_inv_ext; [done..| |done]. unfold reports_ok.
  pose proof (hist_reports _ _ Hh) as Hr. unfold reports_ok in Hr.
  unfold record_commit_since, exec in E. destruct (fault StSince); [done|].
  destruct (existsb _ _); injection E as <-; simpl in *.
  - apply Forall_map. eapply Forall_impl; [exact Hr|]. simpl. intros r Hb.
    destruct (same_reporter c u d r) eqn:Es; simpl; rewrite Ehd; [|done].
    unfold same_reporter in Es. breflect. subst. lia.
  - apply Forall_app. split; [eapply Forall_impl; [exact Hr|]; simpl; intros r; by rewrite Ehd|].
    apply Forall_singleton. simpl. rewrite Ehd. lia.
Qed.

(** Accepting a commit extends the history of its conversation at the head. *)
Lemma hist_inv_insert db h body data now :
  hist_inv db h -> based_on_epoch body = head db (conversation_id body) -> (based_on_epoch body < 2 ^ 63)%Z ->
  hist_inv (mkLogDb (mls_commit_log db ++ [new_row db body data now]) (next_seq db + 1)
              (mls_group_info db) (mls_welcome db) (mls_commit_since db))
    (fun c => h c ++ (if bool_decide (conversation_id body = c) then [(based_on_epoch body, data)] else [])).
Proof.
  intros [Hi He Hr Hrep] Hh Hb. pose proof (log_inv_insert db body data now Hi Hh Hb) as Hi'.
  destruct (gapless_insert db body data now (inv_gapless _ Hi) Hh Hb) as (_ & Hhd & Hrow & Hro).
  set (db' := mkLogDb _ _ _ _ _) in *. pose proof (head_nonneg db (conversation_id body) (inv_gapless _ Hi)) as Hn.
  split; [done|intros c; case_bool_decide as Hc..|].
  - subst c. rewrite map_app, He, Hhd, <- seqZ_snoc by done. simpl. by rewrite Hh.
  - rewrite app_nil_r, (conv_rows_head db db'); [done|]. by apply Hro.
  - subst c. rewrite Hrow, map_app. destruct (Hr (conversation_id body)) as [k ->].
    exists (min k (length (h (conversation_id body)))).
    rewrite drop_app_le by lia. f_equal. destruct (Nat.min_spec k (length (h (conversation_id body)))) as [[? ->]|[? ->]]; [done|].
    by rewrite !drop_ge by lia.
  - rewrite app_nil_r, (Hro c) by done. apply Hr.
  - eapply Forall_impl; [exact Hrep|]. simpl. intros r Hb'.
    destruct (decide (sin_conversation_id r = conversation_id body)) as [Ec|Hne].
    + rewrite Ec in *. rewrite Hhd. lia.
    + rewrite (conv_rows_head db db'); [done|]. by apply Hro.
Qed.

Definition world_inv (w : World) : Prop := hist_inv (w_log w) (conv_history w).

Lemma hist_inv_fun db h h' : (forall c, h c = h' c) -> hist_inv db h -> hist_inv db h'.
Proof. intros E [Hi He Hr Hrep]. split; try done; intros c; rewrite <- E; auto. Qed.

Lemma conv_history_app m db l1 l2 c :
  conv_history (mkWorld m db (l1 ++ l2)) c =
  conv_history (mkWorld m db l1) c ++ omap (fun h : string * (Z * bytes) => if bool_decide (h.1 = c) then Some h.2 else None) l2.
Proof. unfold conv_history. simpl. apply omap_app. Qed.

(** A head below [2^63] is what an [i64] epoch column holds. *)
Definition heads_fit (w : World) : Prop := forall c, (head (w_log w) c < 2 ^ 63 - 1)%Z.

Lemma submit_world fault now ulid authed body w : world_inv w -> heads_fit w ->
  world_inv (step w (ESubmit fault now ulid authed body)).
Proof.
  intros Hw Hfit. simpl. unfold submit. destruct body as [b|]; [|by rewrite app_nil_r; destruct w].
  destruct (match authed with Some _ => _ | None => _ end) as [[]|]; [|by rewrite app_nil_r; destruct w..].
  unfold exec. destruct (fault StLogConn); [by rewrite app_nil_r; destruct w|].
  pose proof (submit_commit_cases fault now ulid (w_log w) b (hist_log _ _ Hw)) as Hs.
  destruct (submit_commit fault now ulid (w_log w) b) as [db1 [[e|hd m]|er]]; simpl.
  - destruct Hs as (data & tx & Hd & -> & Hh & -> & Hsl). rewrite Hd.
    pose proof (Hfit (conversation_id b)) as Hf.
    pose proof (hist_inv_insert (w_log w) (conv_history w) b data now Hw Hh ltac:(lia)) as Hi.
    apply (hist_inv_same _ _ _ Hsl) in Hi as Hi1. eapply hist_inv_fun; [|eapply (hist_inv_prune fault (w_main w)); [exact Hi1|]].
    + intros c. rewrite conv_history_app. unfold conv_history. f_equal. simpl. by case_bool_decide.
    + rewrite (conv_rows_head _ _ _ (same_log_conv_rows _ _ _ Hsl)).
      destruct (gapless_insert (w_log w) b data now (inv_gapless _ (hist_log _ _ Hw)) Hh ltac:(lia)) as (_ & -> & _). lia.
  - destruct Hs as [-> _]. rewrite app_nil_r. by destruct w.
  - subst. rewrite app_nil_r. by destruct w.
Qed.

Lemma step_world w ev : world_inv w -> heads_fit w -> honest w ev -> world_inv (step w ev).
Proof.
  intros Hw Hfit Hh. destruct ev; simpl; try by (eapply hist_inv_same, Hw).
  - by apply submit_world.
  - unfold world_inv. cbn [w_log].
    destruct (commits_db fault (w_main w) (w_log w) c since user_id device_id) as [->|(u & d & db' & _ & _ & E & ->)];
      [by destruct w|].
    destruct (hist_inv_record _ _ _ _ _ _ _ _ E Hh Hw) as [Hr Hhd].
    eapply (hist_inv_fun _ (conv_history w)); [done|]. apply hist_inv_prune; [done|]. rewrite Hhd. specialize (Hfit c). lia.
  - eapply hist_inv_same, Hw. apply upsert_group_info_log.
  - eapply hist_inv_same, Hw. unfold ack_welcomes. by destruct ids.
  - destruct (upsert_welcome _ _ _ _ _ _) as [db'|] eqn:E; [|done]. eapply hist_inv_same, Hw. by eapply upsert_welcome_log.
Qed.

Lemma omap_length_le {A B} (f : A -> option B) l : length (omap f l) <= length l.
Proof. induction l as [|x l IH]; csimpl; [done|]. destruct (f x); csimpl; lia. Qed.

Lemma world_inv_head w c : world_inv w -> head (w_log w) c = Z.of_nat (length (conv_history w c)).
Proof.
  intros [Hi He _ _]. pose proof (f_equal length (He c)) as E. rewrite length_map, length_seqZ in E.
  pose proof (head_nonneg _ c (inv_gapless _ Hi)). lia.
Qed.

Lemma step_history w ev : exists l, history (step w ev) = history w ++ l /\ length l <= 1.
Proof.
  destruct ev; simpl; try by (exists []; rewrite app_nil_r; split; [done|simpl; lia]).
  - destruct (submit _ _ _ _ _ _ _) as [db r]. simpl. eexists. split; [done|]. unfold accepted_entry.
    destruct body as [b|]; [|simpl; lia]. destruct r as [| | | |[]|]; simpl; try lia. by destruct (b64_decode _); simpl; lia.
  - exists []. rewrite app_nil_r. split; [by destruct (upsert_welcome _ _ _ _ _ _)|simpl; lia].
Qed.

Lemma run_history evs w : exists l, history (run w evs) = history w ++ l.
Proof.
  revert w; induction evs as [|ev evs IH]; intros w; simpl; [exists []; by rewrite app_nil_r|].
  destruct (IH (step w ev)) as [l E], (step_history w ev) as (l' & E' & _).
  exists (l' ++ l). change (history (run (step w ev) evs) = history w ++ l' ++ l). by rewrite E, E', app_assoc.
Qed.

Lemma run_world evs w : world_inv w -> honest_run w evs ->
  (Z.of_nat (length (history w) + length evs) < 2 ^ 63 - 1)%Z -> world_inv (run w evs).
Proof.
  revert w; induction evs as [|ev evs IH]; intros w Hw Hr Hlen; [done|].
  destruct Hr as (_ & Hh & Hr). simpl in *. apply IH; [|done|].
  - apply step_world; [done| |done]. intros c. rewrite (world_inv_head _ _ Hw).
    unfold conv_history. pose proof (omap_length_le (fun h : string * (Z * bytes) =>
      if bool_decide (h.1 = c) then Some h.2 else None) (history w)). lia.
  - destruct (step_history w ev) as (l & -> & Hl). rewrite length_app. lia.
Qed.

Lemma world_inv_initial main : world_inv (initial main).
Proof. split; [apply log_inv_empty|done|by exists 0|constructor]. Qed.

Lemma conv_history_prefix w w' c l : history w' = history w ++ l -> conv_history w c `prefix_of` conv_history w' c.
Proof. unfold conv_history. intros ->. rewrite omap_app. by apply prefix_app_r. Qed.

(** C1: No fork and no rollback, as long as devices report epochs the group has reached.
    Over any such run, the commits ever accepted for a conversation carry the epochs
    0, 1, 2, .. up to its head, one commit each; the rows still stored are the tail of
    that history; and the history at every earlier point is a prefix of it, so the head
    never moves back and no epoch is ever decided twice. *)
Theorem run_no_fork (main : MainDb) (evs : list Event) :
  honest_run (initial main) evs -> (Z.of_nat (length evs) < 2 ^ 63 - 1)%Z ->
  let w := run (initial main) evs in
  forall c,
    map fst (conv_history w c) = seqZ 0 (head (w_log w) c) /\
    (exists k, map row_entry (conv_rows (w_log w) c) = drop k (conv_history w c)) /\
    (forall n, conv_history (run (initial main) (take n evs)) c `prefix_of` conv_history w c).
Proof.
  intros Hr Hlen w c.
  assert (world_inv w) as Hw by (apply run_world; [apply world_inv_initial|done|done]).
  split_and!; [apply Hw|apply Hw|]. intros n.
  assert (w = run (run (initial main) (take n evs)) (drop n evs)) as ->.
  { unfold w, run. rewrite <- fold_left_app, take_drop. done. }
  destruct (run_history (drop n evs) (run (initial main) (take n evs))) as [l E]. by eapply conv_history_prefix.
Qed.
End Runs.

(** ** Liveness and reads *)

Section Live.
Context `{Base64}.

Lemma upsert_welcome_ids db id c u d b db' w : upsert_welcome db id c u d b = Ok db' ->
  w ∈ mls_welcome db' -> wel_id w = id \/ exists w', w' ∈ mls_welcome db /\ wel_id w' = wel_id w.
Proof.
  unfold upsert_welcome. destruct (existsb (same_target c u d) _); [|destruct (existsb _ _)]; intros E Hw; simplify_eq/=.
  - right. apply list_elem_of_fmap in Hw as (w' & -> & Hw'). exists w'. split; [done|].
    by destruct (same_target c u d w').
  - apply elem_of_app in Hw as [Hw|Hw%list_elem_of_singleton]; [right; eauto|left; by subst].
Qed.

(** Welcomes with fresh ids are all stored. *)
Lemma insert_welcomes_total fault ulid c ws i tx :
  (forall j, fault (StWelcome j) = false) -> (forall j k, ulid j = ulid k -> j = k) ->
  (forall w j, w ∈ mls_welcome tx -> i <= j -> wel_id w <> ulid j) ->
  exists tx', insert_welcomes fault ulid c i ws tx = Ok tx'.
Proof.
  intros Hf Hinj. revert i tx; induction ws as [|[w b] ws IH]; simpl; intros i tx Hfresh; [eauto|].
  unfold exec. rewrite Hf. simpl.
  destruct (upsert_welcome tx (ulid i) c _ _ b) as [tx1|e] eqn:E; simpl.
  - apply IH. intros w' j Hw' Hj. destruct (upsert_welcome_ids _ _ _ _ _ _ _ _ E Hw') as [->|(w2 & Hw2 & <-)].
    + intros Hx%Hinj. lia.
    + apply Hfresh; [done|lia].
  - exfalso. unfold upsert_welcome in E. destruct (existsb (same_target _ _ _) _); [done|].
    destruct (existsb _ _) eqn:Ex; [|done]. apply existsb_exists in Ex as (w' & Hw'%list_elem_of_In & Hid).
    breflect. by apply (Hfresh w' i).
Qed.

(** A commit built from the head is accepted.  With a body that decodes, fresh
    Welcome ids and no failing statement, [submit_commit] at the head epoch returns
    [Accepted] at that epoch: the service never refuses the client that is up to date. *)
Theorem submit_at_head_accepted (fault : Faults) (now : string) (ulid : nat -> string) (db : LogDb) (body : SubmitBody) :
  log_inv db -> (forall s, fault s = false) ->
  based_on_epoch body = head db (conversation_id body) ->
  is_Some (b64_decode_opt (commit body)) ->
  (forall g, group_info body = Some g -> is_Some (b64_decode_opt g)) ->
  Forall (fun w => is_Some (b64_decode_opt (welcome w))) (welcomes body) ->
  (forall j k, ulid j = ulid k -> j = k) -> (forall w j, w ∈ mls_welcome db -> wel_id w <> ulid j) ->
  (submit_commit fault now ulid db body).2 = Ok (Accepted (based_on_epoch body)).
Proof.
  intros Hi Hf Hh [data Hd] Hg Hws Hinj Hfresh. unfold submit_commit, b64_decode. rewrite Hd. cbn [ok_or rbind].
  assert (exists gi, match group_info body with None => Ok None
    | Some g => let? b := @ok_or _ DsError (b64_decode_opt g) DecodeError in Ok (Some b) end = Ok gi) as [gi ->].
  { destruct (group_info body) as [g|]; [|eauto]. destruct (Hg g eq_refl) as [x ->]. simpl. eauto. }
  cbn [rbind]. destruct (collect_results_total
    (fun w => let? b := @ok_or _ DsError (b64_decode_opt (welcome w)) DecodeError in Ok (w, b)) (welcomes body)) as [ws ->].
  { intros w Hw. rewrite Forall_forall in Hws. destruct (Hws w Hw) as [x ->]. simpl. eauto. }
  unfold exec at 1 2. rewrite !Hf. cbn [rbind]. rewrite insert_commit_spec by apply Hi.
  rewrite Hh, Z.eqb_refl. simpl. set (tx := mkLogDb _ _ _ _ _).
  assert (exists tx1, match gi with None => Ok tx | Some g => exec fault StGroupInfo
    (upsert_group_info tx (conversation_id body) (wrap_i64 (head db (conversation_id body) + 1)) g (sender_id body)).2 end = Ok tx1 /\
    mls_welcome tx1 = mls_welcome db) as (tx1 & -> & Hw1).
  { destruct gi as [g|]; [|eauto]. unfold exec. rewrite Hf. eexists. split; [done|].
    unfold upsert_group_info. by destruct (_ !! _); [destruct (_ <? _)%Z|]. }
  simpl. destruct (insert_welcomes_total fault ulid (conversation_id body) ws 0 tx1) as [tx2 ->]; [auto|done| |].
  { intros w j Hw _. rewrite Hw1 in Hw. by apply Hfresh. }
  simpl. unfold exec. rewrite Hf. simpl. by rewrite <- Hh.
Qed.

(** What a catch-up read returns.  With no failing statement the reply carries the
    head after the prune and the stored commits from the client's epoch on: consecutive
    epochs that end right below the head, so a client whose epoch is still retained gets
    every commit it misses, each once and in apply order. *)
Theorem catchup_contiguous (fault : Faults) (main : MainDb) (db : LogDb) (c : string) (since : Z)
    (user_id device_id : option string) :
  log_inv db -> (head db c < 2 ^ 63)%Z -> (forall s, fault s = false) ->
  exists db' cs, commits fault main db c since user_id device_id =
      (db', CommitsReply (mkCommitsResponse (head db' c) cs)) /\
    cs = map wire_of (List.filter (fun r => (since <=? rec_epoch r)%Z) (conv_rows db' c)) /\
    exists lo n, (since <= lo)%Z /\ (0 <= n)%Z /\ map cw_epoch cs = seqZ lo n /\
      (n <> 0%Z -> (lo + n)%Z = head db' c /\
         (lo = since \/ Forall (fun r => (lo <= rec_epoch r)%Z) (conv_rows db' c))).
Proof.
  intros Hi Hlt Hf.
  assert (exists db', (commits fault main db c since user_id device_id).1 = db' /\ log_inv db' /\
    (head db' c < 2 ^ 63)%Z) as (db' & Edb & Hi' & Hlt').
  { eexists. split; [done|].
    destruct (commits_db fault main db c since user_id device_id) as [->|(u & d & db1 & _ & _ & E & ->)]; [done|].
    destruct (record_since_log _ _ _ _ _ _ _ E) as [E1 E2].
    assert (log_inv db1) as Hi1 by by apply (log_inv_ext db).
    assert (head db1 c = head db c) as Hh1 by (apply conv_rows_head; unfold conv_rows; by rewrite E1).
    destruct (prune_shape fault main db1 c Hi1) as [f ->]. split; [by apply log_inv_pruned|].
    destruct (inv_gapless _ Hi1 c) as (lo & n & Hlo & Hn & Hb & Ee).
    rewrite (head_seqZ (pruned db1 c f) c (Z.max lo (Z.min f (lo + n))) (lo + n - Z.max lo (Z.min f (lo + n))))
      by (lia || by apply pruned_epochs).
    rewrite <- Hh1, (head_seqZ _ _ _ _ Hn Ee) in Hlt.
    destruct (Z.eqb_spec n 0), (Z.eqb_spec (lo + n - Z.max lo (Z.min f (lo + n))) 0); lia. }
  exists db'. eexists. split.
  { unfold commits in *. rewrite Hf in *. cbv zeta in *. set (db1 := match user_id with Some u => _ | None => db end) in *.
    assert (db1 = db') as ->. { destruct (head_epoch fault db1 c); [destruct (fetch_commits fault db1 c since)|]; done. }
    rewrite head_epoch_ok by (auto; apply Hi'). by rewrite fetch_commits_ok by auto. }
  split; [done|]. destruct (inv_gapless _ Hi' c) as (lo & n & Hlo & Hn & Hb & E).
  assert (map cw_epoch (map wire_of (List.filter (fun r => (since <=? rec_epoch r)%Z) (conv_rows db' c))) =
    seqZ (Z.max lo (Z.min since (lo + n))) (lo + n - Z.max lo (Z.min since (lo + n)))) as Eq.
  { rewrite map_map. rewrite (map_ext _ rec_epoch) by done.
    rewrite (List.filter_ext _ (fun r => negb (rec_epoch r <? since)%Z))
      by (intros r; by rewrite <- Z.leb_antisym).
    rewrite (map_filter_epoch (fun e => negb (e <? since)%Z)). unfold epochs in E. rewrite E. by apply filter_seqZ. }
  rewrite Eq. destruct (decide (since <= lo + n)%Z) as [Hs|Hs].
  - exists (Z.max lo since), (lo + n - Z.max lo (Z.min since (lo + n)))%Z.
    split_and!; [lia|lia|f_equal; lia|]. intros Hne.
    rewrite (head_seqZ _ _ _ _ Hn E). destruct (Z.eqb_spec n 0); [lia|]. split; [lia|].
    destruct (decide (lo <= since)%Z); [left; lia|right].
    apply List.Forall_forall. intros r Hr. assert (rec_epoch r ∈ epochs db' c) as He.
    { apply list_elem_of_In. unfold epochs. by apply in_map. }
    rewrite E, elem_of_seqZ in He. lia.
  - exists since, 0%Z. split_and!; [lia|lia| |done]. rewrite !seqZ_nil by lia. done.
Qed.
End Live.

(** ** Welcomes and GroupInfo *)

(** At most one Welcome per recipient device of a conversation (the UNIQUE index). *)
Definition welcomes_unique (l : list WelcomeRec) : Prop :=
  forall c u d, length (List.filter (same_target c u d) l) <= 1.

Definition others (recipient : string) (l : list WelcomeRec) : list WelcomeRec :=
  List.filter (fun w => negb (bool_decide (wel_recipient_id w = recipient))) l.

Lemma others_map recipient f l :
  (forall w, wel_recipient_id (f w) = wel_recipient_id w) ->
  (forall w, wel_recipient_id w <> recipient -> f w = w) -> others recipient (map f l) = others recipient l.
Proof.
  intros Hr Hid. unfold others. induction l as [|w l IH]; simpl; [done|]. rewrite Hr, IH.
  case_bool_decide; simpl; [done|]. by rewrite Hid.
Qed.

(** Welcome operations are scoped to their recipient.  Acknowledging, re-arming or
    purging Welcomes leaves every other user's Welcomes as they are; a purge leaves none
    of the recipient's; and none of the three touches the commit log or the reports. *)
Theorem welcome_ops_scoped (db : LogDb) (recipient : string) (ids : list string) (device : option string) :
  let acked := (ack_welcomes db recipient ids).1 in
  let reset := (reset_welcomes db recipient device).1 in
  let purged := (purge_welcomes db recipient).1 in
  Forall (fun db' => same_log db db' /\
    others recipient (mls_welcome db') = others recipient (mls_welcome db)) [acked; reset; purged] /\
  mls_welcome purged = others recipient (mls_welcome db).
Proof.
  simpl. split; [|done]. repeat constructor; try done.
  - unfold ack_welcomes. by destruct ids.
  - unfold ack_welcomes. by destruct ids.
  - unfold ack_welcomes. by destruct ids.
  - unfold ack_welcomes. destruct ids as [|i ids]; [done|]. apply others_map; intros w; [by destruct (_ && _)|].
    intros Hne. by rewrite bool_decide_eq_false_2.
  - apply others_map; intros w; [by destruct (_ && _)|]. intros Hne. by rewrite bool_decide_eq_false_2.
  - simpl. unfold others. rewrite filter_filter. apply List.filter_ext. intros w. by destruct (bool_decide _).
Qed.

Lemma same_target_spec c u d w : same_target c u d w = true <->
  wel_conversation_id w = c /\ wel_recipient_id w = u /\ wel_device_id w = Some d.
Proof. unfold same_target. rewrite !andb_true_iff, !bool_decide_eq_true. tauto. Qed.

Lemma refresh_same_target c u d c' u' d' id blob w : same_target c u d w = true ->
  same_target c' u' d' (mkWelcomeRec id c u blob false (Some d)) = same_target c' u' d' w.
Proof. rewrite same_target_spec. unfold same_target. simpl. by intros (-> & -> & ->). Qed.

Lemma filter_map_same {A} (p : A -> bool) f l : (forall x, p (f x) = p x) ->
  List.filter p (map f l) = map f (List.filter p l).
Proof. intros Hp. induction l as [|x l IH]; simpl; [done|]. rewrite Hp, IH. by destruct (p x). Qed.

(** The Welcome upsert keeps one Welcome per recipient device.  It preserves the
    uniqueness of the index, and afterwards the target device has exactly one Welcome,
    carrying the new blob and armed for delivery: a resend never stacks a duplicate and
    never leaves a stale blob. *)
Theorem upsert_welcome_unique (db db' : LogDb) (id c u d : string) (blob : bytes) :
  welcomes_unique (mls_welcome db) -> upsert_welcome db id c u d blob = Ok db' ->
  welcomes_unique (mls_welcome db') /\
  exists w, List.filter (same_target c u d) (mls_welcome db') = [w] /\
    wel_data w = blob /\ wel_delivered w = false.
Proof.
  intros Hu E. unfold upsert_welcome in E. destruct (existsb (same_target c u d) (mls_welcome db)) eqn:Ex;
    [|destruct (existsb (fun w => _) _); [done|]]; injection E as <-; simpl.
  - set (f := fun w => _).
    assert (forall c' u' d' w, same_target c' u' d' (f w) = same_target c' u' d' w) as Hf.
    { intros c' u' d' w. unfold f. destruct (same_target c u d w) eqn:Et; [|done]. by apply refresh_same_target. }
    split; [intros c' u' d'; rewrite filter_map_same, length_map by apply Hf; apply Hu|].
    rewrite filter_map_same by apply Hf. pose proof (Hu c u d) as Hle.
    apply existsb_exists in Ex as (w0 & Hin & Ht).
    destruct (List.filter (same_target c u d) (mls_welcome db)) as [|w [|]] eqn:Ef; simpl in *; [|exists (f w)|lia].
    + assert (In w0 []) as []. rewrite <- Ef. by apply filter_In.
    + assert (In w (List.filter (same_target c u d) (mls_welcome db))) as Hw by (rewrite Ef; by left).
      apply filter_In in Hw as [_ Hw]. unfold f. by rewrite Hw.
  - assert (List.filter (same_target c u d) (mls_welcome db) = []) as Hnil.
    { destruct (List.filter _ _) as [|w l] eqn:Ef; [done|].
      assert (In w (List.filter (same_target c u d) (mls_welcome db))) as [Hin Hw]%filter_In by (rewrite Ef; by left).
      exfalso. apply not_true_iff_false in Ex. apply Ex, existsb_exists. eauto. }
    set (w := mkWelcomeRec _ _ _ _ _ _). assert (same_target c u d w = true) as Hw by by apply same_target_spec.
    split; [|exists w; by rewrite List.filter_app, Hnil; simpl; rewrite Hw].
    intros c' u' d'. rewrite List.filter_app, length_app. simpl.
    destruct (same_target c' u' d' w) eqn:Et; simpl; [|specialize (Hu c' u' d'); lia].
    apply same_target_spec in Et as (E1 & E2 & E3). simpl in E1, E2, E3. injection E3 as E3. subst c' u' d'.
    rewrite Hnil. simpl. lia.
Qed.

(** Published GroupInfo only moves forward.  The upsert stores the new GroupInfo
    exactly when there is none or the stored one is older, never changes another
    conversation, and the stored epoch never decreases. *)
Theorem group_info_monotone (db : LogDb) (c : string) (epoch : Z) (gi : bytes) (by_device : string) :
  let '(affected, db') := upsert_group_info db c epoch gi by_device in
  (affected = 1 <-> forall old, mls_group_info db !! c = Some old -> (gi_epoch old < epoch)%Z) /\
  mls_group_info db' !! c =
    (if affected =? 0 then mls_group_info db !! c else Some (mkGroupInfoRec epoch gi by_device)) /\
  (forall c', c' <> c -> mls_group_info db' !! c' = mls_group_info db !! c') /\
  (forall old, mls_group_info db !! c = Some old ->
     exists new, mls_group_info db' !! c = Some new /\ (gi_epoch old <= gi_epoch new)%Z).
Proof.
  unfold upsert_group_info. destruct (mls_group_info db !! c) as [old|] eqn:E; [destruct (Z.ltb_spec (gi_epoch old) epoch)|]; simpl.
  - split_and!; [split; [by intros _ ? [= <-]|done]|by rewrite lookup_insert_eq|intros c' Hc; by rewrite lookup_insert_ne|].
    intros ? [= <-]. rewrite lookup_insert_eq. eexists. split; [done|]. simpl. lia.
  - split_and!; [split; [done|intros Hx; specialize (Hx old eq_refl); lia]|done|done|]. intros ? [= <-]. eauto with lia.
  - split_and!; [split; [done|done]|by rewrite lookup_insert_eq|intros c' Hc; by rewrite lookup_insert_ne|done].
Qed.

(** ** The open catch-up route

    base64 as the identity on text, enough to run the model. *)
Definition clear_base64 : Base64 := {|
  b64_decode_opt s := Some (as_bytes s);
  b64_encode := of_bytes
|}.

Section OpenRoute.
#[local] Existing Instance clear_base64.

Definition one_member : MainDb := mkMainDb [mkDeviceRec "phone" "alice" None None] [("dm", "alice")] [] [].

Definition first_commit (text : string) : SubmitBody := mkSubmitBody "dm" 0 "alice" text None None None [].

Definition no_fault : Faults := fun _ => false.

Definition attack (since : Z) : list Event := [
  ESubmit no_fault "t0" (fun _ => "id") (Some "alice") (Some (first_commit "one"));
  ECatchup no_fault "dm" since (Some "alice") (Some "phone");
  ESubmit no_fault "t1" (fun _ => "id") (Some "alice") (Some (first_commit "two"))].

(** The reports the floor rests on are not checked.  The catch-up route is open and
    takes any device id and any epoch, and the floor is not capped by the head: one
    unauthenticated read that reports an epoch far above the head for the only device of
    a conversation, or one that reports the least [i64], whose slack subtraction wraps,
    deletes every commit, resets the head to 0 and lets a second, different commit win
    epoch 0. *)
Theorem unchecked_report_forks (since : Z) :
  since = 1000%Z \/ since = (- 2 ^ 63)%Z ->
  let w := run (initial one_member) (attack since) in
  Forall event_typed (attack since) /\
  history w = [("dm", (0%Z, as_bytes "one")); ("dm", (0%Z, as_bytes "two"))].
Proof.
  intros [->| ->]; (split; [repeat constructor; simpl; try done; unfold i64_range; lia|by vm_compute]).
Qed.
End OpenRoute.

(** ** Evaluation on a concrete service *)

Section Concrete.
#[local] Existing Instance clear_base64.

#[local] Definition commit_at (epoch : Z) (text : string) : SubmitBody :=
  mkSubmitBody "dm" epoch "alice" text None None None [].

#[local] Definition submit_at (epoch : Z) (text : string) : Event :=
  ESubmit no_fault "t0" (fun j => pretty j) (Some "alice") (Some (commit_at epoch text)).

(** Two commits, an honest catch-up, and a stale submit that loses. *)
#[local] Definition quiet_run : list Event :=
  [submit_at 0 "one"; submit_at 1 "two"; ECatchup no_fault "dm" 1 (Some "alice") (Some "phone");
   submit_at 1 "late"].

#[local] Definition two_commits : LogDb := w_log (run (initial one_member) quiet_run).

Lemma quiet_run_typed : Forall event_typed quiet_run.
Proof. repeat constructor; simpl; try done; unfold i64_range; intros; simplify_eq; simpl; lia. Qed.

Lemma run_inv evs w : Forall event_typed evs -> log_inv (w_log w) -> log_inv (w_log (run w evs)).
Proof. intros Ht. revert w. induction Ht as [|ev evs Hev _ IH]; intros w Hi; [done|]. simpl. apply IH. by apply step_inv. Qed.

Lemma two_commits_inv : log_inv two_commits.
Proof. apply run_inv; [apply quiet_run_typed|apply log_inv_empty]. Qed.

Lemma two_commits_head : head two_commits "dm" = 2%Z.
Proof. vm_compute. reflexivity. Qed.

Lemma run_no_fork_witness :
  map fst (conv_history (run (initial one_member) quiet_run) "dm") = [0; 1]%Z /\
  conv_history (run (initial one_member) (take 1 quiet_run)) "dm" `prefix_of`
    conv_history (run (initial one_member) quiet_run) "dm".
Proof.
  split; [vm_compute; reflexivity|].
  refine (proj2 (proj2 (run_no_fork one_member quiet_run _ _ "dm")) 1); [|vm_compute; reflexivity].
  pose proof quiet_run_typed as Ht. unfold quiet_run in *.
  repeat match goal with H : Forall _ (_ :: _) |- _ => apply Forall_cons_1 in H as [? H] end.
  repeat (split; [assumption|split; [|]]); try exact I. vm_compute. by split.
Defined.

Lemma submit_commit_spec_witness :
  log_inv (submit_commit no_fault "t1" (fun j => pretty j) two_commits (commit_at 2 "three")).1 /\
  (submit_commit no_fault "t1" (fun j => pretty j) two_commits (commit_at 2 "three")).2 = Ok (Accepted 2).
Proof.
  split; [|vm_compute; reflexivity].
  refine (proj1 (submit_commit_spec no_fault "t1" (fun j => pretty j) two_commits (commit_at 2 "three") two_commits_inv _)).
  change (conversation_id (commit_at 2 "three")) with "dm". rewrite two_commits_head. lia.
Defined.

Lemma submit_at_head_accepted_witness :
  (submit_commit no_fault "t1" (fun j => pretty j) two_commits (commit_at 2 "three")).2 = Ok (Accepted 2).
Proof.
  apply (submit_at_head_accepted no_fault "t1" (fun j => pretty j) two_commits (commit_at 2 "three") two_commits_inv).
  - intros s. reflexivity.
  - symmetry. exact two_commits_head.
  - by eexists.
  - done.
  - apply Forall_nil_2.
  - intros j k. apply (inj pretty).
  - vm_compute. intros w j Hw. inversion Hw.
Defined.

Lemma catchup_contiguous_witness :
  exists db' cs, commits no_fault one_member two_commits "dm" 1 (Some "alice") (Some "phone") =
      (db', CommitsReply (mkCommitsResponse (head db' "dm") cs)) /\
    cs = map wire_of (List.filter (fun r => (1 <=? rec_epoch r)%Z) (conv_rows db' "dm")).
Proof.
  destruct (catchup_contiguous no_fault one_member two_commits "dm" 1 (Some "alice") (Some "phone") two_commits_inv)
    as (db' & cs & E & Ecs & _).
  - rewrite two_commits_head. lia.
  - intros s. reflexivity.
  - exists db', cs. exact (conj E Ecs).
Defined.

(** Twelve commits and a device that reported epoch 10, its own prune having failed. *)
#[local] Definition long_run : list Event :=
  map (fun i => submit_at (Z.of_nat i) (pretty i)) (seq 0 12) ++
  [ECatchup (fun st => match st with StDelete => true | _ => false end) "dm" 10 (Some "alice") (Some "phone")].

#[local] Definition twelve_commits : LogDb := w_log (run (initial one_member) long_run).

Lemma twelve_commits_inv : log_inv twelve_commits.
Proof.
  apply run_inv; [|apply log_inv_empty]. apply Forall_app. split; [|repeat constructor; unfold i64_range; lia].
  apply List.Forall_forall. intros ev (i & <- & Hi%in_seq)%in_map_iff. simpl. unfold i64_range. lia.
Qed.

Lemma prune_keeps_needed_witness :
  let db' := (prune_commit_log no_fault one_member twelve_commits "dm").1 in
  epochs twelve_commits "dm" = map Z.of_nat (seq 0 12) /\ epochs db' "dm" = map Z.of_nat (seq 2 10) /\ log_inv db' /\
  forall r, r ∈ conv_rows twelve_commits "dm" -> (10 <= rec_epoch r)%Z -> r ∈ conv_rows db' "dm".
Proof.
  assert (head twelve_commits "dm" = 12%Z) as Eh by (vm_compute; reflexivity).
  destruct (prune_keeps_needed no_fault one_member twelve_commits "dm" ["phone"] {[ "phone" := 10%Z ]} twelve_commits_inv)
    as (Hi & _ & Hk).
  - rewrite Eh. lia.
  - vm_compute. reflexivity.
  - vm_compute. reflexivity.
  - intros d s Hs. unfold PRUNE_SLACK_EPOCHS. apply lookup_singleton_Some in Hs as [_ <-]. lia.
  - cbv zeta. split; [vm_compute; reflexivity|]. split; [vm_compute; reflexivity|]. split; [exact Hi|].
    intros r Hr He. apply (Hk "phone" r); [by apply list_elem_of_singleton|exact Hr| |].
    + rewrite Eh. unfold PRUNE_MAX_BEHIND_HEAD. lia.
    + rewrite lookup_singleton_eq. exact He.
Defined.

Lemma unchecked_report_forks_witness :
  history (run (initial one_member) (attack 1000)) = [("dm", (0%Z, as_bytes "one")); ("dm", (0%Z, as_bytes "two"))].
Proof. exact (proj2 (unchecked_report_forks 1000 (or_introl eq_refl))). Defined.
End Concrete.
