(* ===== verification/Client.v ===== *)
(** * pollis-core: the client's commit decisions, replay loop and watermark

    Models [pollis-core/src/commands/mls/invariants.rs], the replay loop of
    [group_state.rs] ([process_pending_commits_locked_impl]: recovery without a local
    group, gap check, certificate verdicts, applying a commit, the per-epoch hook) and
    [messages/watermark.rs].  OpenMLS, the local database and the certificate lookups are
    parameters: [apply_commit] says how applying a row's bytes ends, [verify_added] what
    the certificate check of an add says.

    The theorems compose the client with the Delivery Service of [Delivery]: a resolved
    submit adopts exactly what the log holds, and a replay of what the service returns
    reaches the head through every epoch. *)

From stdpp Require Import base list strings gmap.
From Stdlib Require Import NArith ZArith Lia ZifyNat ZifyN.
From Stdlib Require Import Strings.Byte.
From S2P Require Import Prelude Crypto Delivery.

(** ** invariants.rs *)

Definition may_rejoin (registered is_member : bool) : bool := registered && is_member.

Inductive JoinRecovery : Type := AwaitWelcome | ExternalJoin | StayOut.

Definition join_recovery (welcome_pending may_rejoin : bool) : JoinRecovery :=
  if welcome_pending then AwaitWelcome
  else if may_rejoin then ExternalJoin
  else StayOut.

Inductive SubmitOutcome : Type := Committed | LostRace | Failed.

Inductive Resolution : Type := Adopt | Rollback.

Definition resolve (outcome : SubmitOutcome) (ours : bytes) (stored_at_epoch : option bytes) : Resolution :=
  match outcome with
  | Committed => Adopt
  | LostRace | Failed => if bool_decide (stored_at_epoch = Some ours) then Adopt else Rollback
  end.

Inductive ReplayStep : Type := Apply | GapRecover | Wait.

Definition classify (current_epoch : N) (next_row_epoch : option N) : ReplayStep :=
  match next_row_epoch with
  | None => Wait
  | Some e => if (e =? current_epoch)%N then Apply else GapRecover
  end.

(** ** group_state.rs: the replay loop *)

Inductive VerifyOutcome : Type := Verified | Revoked | AbsentRetry.

(** How applying one commit to the local group ends: the arms of the [applied] block. *)
Inductive ApplyOutcome : Type :=
| NoGroup            (* no local database or no stored group: stop without one *)
| LoadError          (* the group fails to load: the pass errs *)
| Undecodable        (* the bytes are no protocol message: stop *)
| Merged             (* a staged commit, merged *)
| NotACommit         (* processed, but not a staged commit *)
| MergeFailed        (* merging the staged commit failed: stop *)
| OwnAdopted         (* our own commit: the pending commit is merged *)
| OwnMergeFailed     (* our own commit, merging it failed: drop the group, stop *)
| Diverged.          (* evicted or forked: drop the group, stop *)

(** The loop's state: whether the local group is still there, [current_epoch],
    [any_applied] and the epochs the hook fired for. *)
Record Replay := mkReplay {
  group_kept : bool;
  current_epoch : N;
  any_applied : bool;
  fired : list N
}.

Inductive ReplayError : Type := MlsLoad.

Section Replay.
Context (verify_added : CommitRec -> VerifyOutcome) (apply_commit : N -> CommitRec -> ApplyOutcome).

(** A self-add whose device row is not visible yet is deferred. *)
Definition deferred (r : CommitRec) : bool :=
  match rec_added_user_id r with
  | Some added =>
      match verify_added r with
      | Verified | Revoked => false
      | AbsentRetry => bool_decide (rec_sender_id r = added)
      end
  | None => false
  end.

Definition advance (st : Replay) : Replay :=
  let e := (current_epoch st + 1)%N in mkReplay (group_kept st) e true (fired st ++ [e]).

Definition drop_group (st : Replay) : Replay :=
  mkReplay false (current_epoch st) (any_applied st) (fired st).

Fixpoint replay_loop (pending : list CommitRec) (st : Replay) : Result Replay ReplayError :=
  match pending with
  | [] => Ok st
  | r :: rest =>
      match classify (current_epoch st) (Some (i64_to_u64 (rec_epoch r))) with
      | Apply =>
          if deferred r then Ok st
          else match apply_commit (current_epoch st) r with
               | Undecodable | MergeFailed => Ok st
               | LoadError => Err MlsLoad
               | Merged | NotACommit | OwnAdopted => replay_loop rest (advance st)
               | NoGroup | OwnMergeFailed | Diverged => Ok (drop_group st)
               end
      | _ => Ok (drop_group st)
      end
  end.

(** The pass from a local group at [initial_epoch], over the rows fetched from there. *)
Definition replay_from (initial_epoch : N) (pending : list CommitRec) : Result Replay ReplayError :=
  replay_loop pending (mkReplay true initial_epoch false [initial_epoch]).

(** What the pass decides about joining: nothing while the group is kept, the recovery
    arbitration without a group at the start, the rejoin gate after dropping it. *)
Definition pass_join (welcome_pending registered is_member : bool) (initial : option N)
    (pending : list CommitRec) : Result JoinRecovery ReplayError :=
  match initial with
  | None => Ok (join_recovery welcome_pending (may_rejoin registered is_member))
  | Some e =>
      let? st := replay_from e pending in
      Ok (if group_kept st then StayOut
          else if may_rejoin registered is_member then ExternalJoin else StayOut)
  end.
End Replay.

(** The rows a client at [since] fetches, [ORDER BY epoch ASC, seq ASC]. *)
Definition fetch_pending (db : LogDb) (c : string) (since : Z) : list CommitRec :=
  sort_by_key rec_epoch (sort_by_key rec_seq
    (List.filter (fun r => (since <=? rec_epoch r)%Z) (conv_rows db c))).

(** ** messages/watermark.rs *)

Inductive EnvKind : Type := Message | Edit | Delete | Other.

Definition EnvKind_from_type (env_type : string) : EnvKind :=
  if bool_decide (env_type = "message") then Message
  else if bool_decide (env_type = "edit") then Edit
  else if bool_decide (env_type = "delete") then Delete
  else Other.

Definition is_handled (kind : EnvKind) (epoch max_fired_epoch : option N) : bool :=
  match kind with
  | Message | Edit =>
      match epoch, max_fired_epoch with
      | Some e, Some max => (e <=? max)%N
      | None, _ => true
      | Some _, None => false
      end
  | Delete | Other => true
  end.

(** [S: Ord]: the ordering the watermark is generic over. *)
Class Ord (S : Type) := { leb : S -> S -> bool }.

Class OrdLaws (S : Type) `{Ord S} : Prop := {
  leb_total : forall a b : S, leb a b = true \/ leb b a = true;
  leb_trans : forall a b c : S, leb a b = true -> leb b c = true -> leb a c = true;
  leb_antisym : forall a b : S, leb a b = true -> leb b a = true -> a = b
}.

Section Watermark.
Context {S : Type} `{Ord S}.

Definition env_handled (max_fired : option N) (env : S * EnvKind * option N) : bool :=
  is_handled env.1.2 env.2 max_fired.

(** The candidate loop: up to the first envelope at or past [stop_at]. *)
Fixpoint watermark_loop (stop_at candidate : option S) (envs : list (S * EnvKind * option N)) : option S :=
  match envs with
  | [] => candidate
  | env :: rest =>
      match stop_at with
      | Some stop => if leb stop env.1.1 then candidate else watermark_loop stop_at (Some env.1.1) rest
      | None => watermark_loop stop_at (Some env.1.1) rest
      end
  end.

Definition next_watermark (envs : list (S * EnvKind * option N)) (max_fired_epoch : option N) : option S :=
  let stop_at := (fun env => env.1.1) <$> List.find (fun env => negb (env_handled max_fired_epoch env)) envs in
  watermark_loop stop_at None envs.
End Watermark.

(** ** Replay *)

Section ReplayLemmas.
Context (verify_added : CommitRec -> VerifyOutcome) (apply_commit : N -> CommitRec -> ApplyOutcome).

(** [e, e + 1, .., e + k]. *)
Definition epochs_from (e : N) (k : nat) : list N := map (fun i => (e + N.of_nat i)%N) (seq 0 (S k)).

Lemma epochs_from_S e k : epochs_from e (S k) = epochs_from e k ++ [(e + N.of_nat (S k))%N].
Proof. unfold epochs_from. rewrite (seq_S (S k)), map_app. done. Qed.

(** [n] rows were applied from [e0 + k] on, one epoch each, in order. *)
Definition progress (e0 : N) (k : nat) (pending : list CommitRec) (st st' : Replay) (n : nat) : Prop :=
  n <= length pending /\ current_epoch st' = (e0 + N.of_nat (k + n))%N /\
  fired st' = epochs_from e0 (k + n) /\ (any_applied st' = true <-> any_applied st = true \/ n <> 0) /\
  forall i r, i < n -> pending !! i = Some r -> i64_to_u64 (rec_epoch r) = (e0 + N.of_nat (k + i))%N.

Lemma progress_stop e0 k pending st st' : current_epoch st = (e0 + N.of_nat k)%N -> fired st = epochs_from e0 k ->
  current_epoch st' = current_epoch st -> fired st' = fired st -> any_applied st' = any_applied st ->
  exists n, progress e0 k pending st st' n.
Proof.
  intros Hc Hf Hc' Hf' Ha. exists 0. unfold progress. rewrite Nat.add_0_r, Hc', Hf', Ha.
  split_and!; try done; try lia. naive_solver.
Qed.

Lemma progress_advance e0 k r rest st st' n :
  i64_to_u64 (rec_epoch r) = (e0 + N.of_nat k)%N ->
  progress e0 (S k) rest (advance st) st' n -> progress e0 k (r :: rest) st st' (S n).
Proof.
  intros Er (Hn & Hc & Hf & Ha & Hr). unfold progress. replace (k + S n) with (S k + n) by lia.
  split_and!; [simpl; lia|done|done|rewrite Ha; simpl; split; [intros _; right; lia|by left]|].
  intros i r' Hi Hr'. destruct i as [|i]; simpl in Hr'; simplify_eq; [by rewrite Nat.add_0_r|].
  replace (k + S i) with (S k + i) by lia. apply Hr; [lia|done].
Qed.

Lemma replay_loop_spec e0 k pending st st' :
  current_epoch st = (e0 + N.of_nat k)%N -> fired st = epochs_from e0 k ->
  replay_loop verify_added apply_commit pending st = Ok st' ->
  exists n, progress e0 k pending st st' n.
Proof.
  revert k st; induction pending as [|r rest IH]; intros k st Hc Hf E.
  { simpl in E. simplify_eq. by apply progress_stop. }
  cbn [replay_loop classify] in E.
  destruct (N.eqb_spec (i64_to_u64 (rec_epoch r)) (current_epoch st)) as [Ee|Ee];
    [|simplify_eq; by apply progress_stop].
  destruct (deferred verify_added r); [simplify_eq; by apply progress_stop|].
  assert (replay_loop verify_added apply_commit rest (advance st) = Ok st' ->
    exists n, progress e0 k (r :: rest) st st' n) as Hgo.
  { intros E'. apply (IH (S k)) in E' as [n Hn]; [|simpl; lia|simpl; rewrite Hf, Hc, epochs_from_S; do 2 f_equal; lia].
    exists (S n). apply progress_advance; [congruence|done]. }
  destruct (apply_commit (current_epoch st) r); try done; try (by apply Hgo); simplify_eq; by apply progress_stop.
Qed.
End ReplayLemmas.

(** The replay never skips an epoch.  Whatever rows arrive and however applying them
    ends, a pass that does not err applied some first [n] rows whose epochs are exactly
    the local epoch, the next one, and so on; it ends [n] epochs further; and the hook
    fired once for every epoch from the start to the end, in order. *)
Theorem replay_consecutive (verify_added : CommitRec -> VerifyOutcome)
    (apply_commit : N -> CommitRec -> ApplyOutcome) (e0 : N) (pending : list CommitRec) (st : Replay) :
  replay_from verify_added apply_commit e0 pending = Ok st ->
  exists n, n <= length pending /\ current_epoch st = (e0 + N.of_nat n)%N /\
    fired st = map (fun i => (e0 + N.of_nat i)%N) (seq 0 (S n)) /\
    (any_applied st = true <-> n <> 0) /\
    forall i r, i < n -> pending !! i = Some r -> i64_to_u64 (rec_epoch r) = (e0 + N.of_nat i)%N.
Proof.
  intros E. apply (replay_loop_spec _ _ e0 0) in E as [n (Hn & Hc & Hf & Ha & Hr)];
    [|simpl; lia|unfold epochs_from; simpl; by rewrite N.add_0_r].
  exists n. split_and!; try done. rewrite Ha. simpl. naive_solver.
Qed.

Lemma fetch_pending_ok db c since : log_inv db ->
  fetch_pending db c since = List.filter (fun r => (since <=? rec_epoch r)%Z) (conv_rows db c).
Proof.
  intros Hi. destruct Hi as [Hg Hs _]. unfold fetch_pending.
  rewrite (sort_by_key_id rec_seq) by
    (eapply ordered_impl, ordered_filter, ordered_filter, Hs; unfold key_le; lia).
  apply sort_by_key_id. eapply ordered_impl, ordered_filter, conv_rows_ordered, Hg. unfold key_le. lia.
Qed.

(** Rows that all apply carry the group to the end of their range. *)
Lemma replay_loop_all verify_added apply_commit rows e st :
  current_epoch st = e -> group_kept st = true ->
  (forall i r, rows !! i = Some r -> i64_to_u64 (rec_epoch r) = (e + N.of_nat i)%N /\
     deferred verify_added r = false /\
     forall e', apply_commit e' r = Merged \/ apply_commit e' r = OwnAdopted) ->
  exists st', replay_loop verify_added apply_commit rows st = Ok st' /\
    current_epoch st' = (e + N.of_nat (length rows))%N /\ group_kept st' = true.
Proof.
  revert e st; induction rows as [|r rows IH]; intros e st Hc Hk Hr; simpl.
  { exists st. split_and!; [done|lia|done]. }
  destruct (Hr 0 r eq_refl) as (He & Hd & Ha). rewrite Hc, He, N.add_0_r, N.eqb_refl, Hd.
  destruct (IH (e + 1)%N (advance st)) as (st' & E & Hc' & Hk'); [simpl; by rewrite Hc|done| |].
  { intros i r' Hr'. destruct (Hr (S i) r' Hr') as (He' & Hd' & Ha'). split_and!; [lia|done|done]. }
  exists st'. split_and!; [|lia|done]. by destruct (Ha e) as [->| ->].
Qed.

(** The epochs a client at [e0] fetches from rows [lo .. lo + n - 1]. *)
Lemma pending_epochs db c e0 lo n : (0 <= n)%Z -> epochs db c = seqZ lo n ->
  map rec_epoch (List.filter (fun r => (e0 <=? rec_epoch r)%Z) (conv_rows db c)) =
  seqZ (Z.max lo (Z.min e0 (lo + n))) (lo + n - Z.max lo (Z.min e0 (lo + n))).
Proof.
  intros Hn E. rewrite (List.filter_ext _ (fun r => negb (rec_epoch r <? e0)%Z)) by (intros r; by rewrite <- Z.leb_antisym).
  rewrite (map_filter_epoch (fun e => negb (e <? e0)%Z)). unfold epochs in E. rewrite E. by apply filter_seqZ.
Qed.

Lemma all_above db c e0 lo n : (0 <= n)%Z -> epochs db c = seqZ lo n ->
  forallb (fun r => (e0 <? rec_epoch r)%Z) (conv_rows db c) = true <-> (n = 0 \/ e0 < lo)%Z.
Proof.
  intros Hn E. rewrite forallb_forall. split.
  - intros Hx. destruct (decide (n = 0)%Z) as [|Hnz]; [by left|right].
    assert (lo ∈ epochs db c) as Hin by (rewrite E, elem_of_seqZ; lia).
    unfold epochs in Hin. apply list_elem_of_fmap in Hin as (r & Hlr & Hr). apply list_elem_of_In in Hr.
    specialize (Hx r Hr). breflect. lia.
  - intros Hx r Hr. apply list_elem_of_In in Hr.
    assert (rec_epoch r ∈ epochs db c) as Hin by by apply list_elem_of_fmap_2.
    rewrite E, elem_of_seqZ in Hin. apply Z.ltb_lt. lia.
Qed.

(** C40: A replay of the service's log ends at the head or recovers.  For a client at an
    epoch not above the head, whose commits all verify and apply: if its epoch is still
    retained the pass ends with the group kept at the head epoch; if the log was pruned
    past it, the pass drops the group at its first row without applying anything, which
    is the recovery by external join. *)
Theorem replay_catches_up (verify_added : CommitRec -> VerifyOutcome)
    (apply_commit : N -> CommitRec -> ApplyOutcome) (db : LogDb) (c : string) (e0 : Z) :
  log_inv db -> (0 <= e0 <= head db c)%Z -> (head db c < 2 ^ 63)%Z ->
  (forall r, r ∈ conv_rows db c -> deferred verify_added r = false /\
     forall e, apply_commit e r = Merged \/ apply_commit e r = OwnAdopted) ->
  exists st, replay_from verify_added apply_commit (Z.to_N e0) (fetch_pending db c e0) = Ok st /\
    if forallb (fun r => (e0 <? rec_epoch r)%Z) (conv_rows db c) && negb (e0 =? head db c)%Z
    then group_kept st = false /\ current_epoch st = Z.to_N e0 /\ any_applied st = false
    else group_kept st = true /\ current_epoch st = Z.to_N (head db c).
Proof.
  intros Hi He Hlt Happ. rewrite fetch_pending_ok by done.
  destruct (inv_gapless _ Hi c) as (lo & n & Hlo & Hn & Hb & E).
  pose proof (head_seqZ _ _ _ _ Hn E) as Hhd.
  set (rows := List.filter _ _).
  pose proof (pending_epochs db c e0 lo n Hn E) as Er. fold rows in Er.
  pose proof (all_above db c e0 lo n Hn E) as Hall.
  destruct (forallb _ _ && _) eqn:Eb.
  - apply andb_true_iff in Eb as [Eb1 Eb2]. apply Hall in Eb1. breflect.
    assert (n <> 0)%Z as Hnz by (destruct (Z.eqb_spec n 0); lia).
    destruct rows as [|r rs] eqn:Erows.
    { simpl in Er. symmetry in Er. apply (f_equal length) in Er. rewrite length_seqZ in Er. simpl in Er. lia. }
    assert (rec_epoch r = lo) as Hre.
    { simpl in Er. rewrite seqZ_cons in Er by lia. injection Er as ? _. lia. }
    unfold replay_from. simpl. destruct (N.eqb_spec (i64_to_u64 (rec_epoch r)) (Z.to_N e0)) as [Ex|Ex]; [|eauto].
    exfalso. unfold i64_to_u64 in Ex. rewrite Hre, Z.mod_small in Ex by lia. lia.
  - assert (n = 0 /\ e0 = 0 \/ n <> 0 /\ lo <= e0 <= lo + n)%Z as Hcase.
    { apply andb_false_iff in Eb as [Eb|Eb].
      - assert (~ (n = 0 \/ e0 < lo)%Z) by (rewrite <- Hall; congruence). destruct (Z.eqb_spec n 0); lia.
      - breflect. destruct (Z.eqb_spec n 0); lia. }
    assert (length rows = Z.to_nat (head db c - e0)) as Hlen.
    { rewrite <- (length_map rec_epoch), Er, length_seqZ. destruct (Z.eqb_spec n 0); lia. }
    destruct (replay_loop_all verify_added apply_commit rows (Z.to_N e0) (mkReplay true (Z.to_N e0) false [Z.to_N e0]))
      as (st & Est & Hc & Hk); [done|done| |].
    + intros i r Hr. assert (r ∈ conv_rows db c) as Hin.
      { apply list_elem_of_lookup_2, list_elem_of_In in Hr. unfold rows in Hr. apply filter_In in Hr as [Hr _].
        by apply list_elem_of_In. }
      destruct (Happ r Hin) as [Hd Ha]. split_and!; [|done|done].
      assert (map rec_epoch rows !! i = Some (rec_epoch r)) as Hri by (apply list_lookup_fmap_Some_2; eauto).
      rewrite Er in Hri. apply lookup_seqZ in Hri as [Hri Hil].
      unfold i64_to_u64. rewrite Z.mod_small by (destruct (Z.eqb_spec n 0); lia). lia.
    + exists st. split; [exact Est|]. split; [done|]. rewrite Hc, Hlen. lia.
Qed.

(** ** Adopting our own commit *)

(** [fetch_commit_at_epoch]: the canonical bytes at an epoch. *)
Definition fetch_commit_at_epoch (db : LogDb) (c : string) (epoch : Z) : option bytes :=
  rec_commit_data <$> List.find (fun r => (rec_epoch r =? epoch)%Z) (conv_rows db c).

(** What the client may conclude from a submit: [Failed] when the response is lost,
    whatever the service did. *)
Definition outcome_of (response : option (Result SubmitResponse DsError)) : SubmitOutcome :=
  match response with
  | Some (Ok (Accepted _)) => Committed
  | Some (Ok (Rejected _ _)) => LostRace
  | Some (Err _) | None => Failed
  end.

Lemma find_snoc {A} (p : A -> bool) l x : (forall y, y ∈ l -> p y = false) -> p x = true ->
  List.find p (l ++ [x]) = Some x.
Proof.
  induction l as [|y l IH]; simpl; intros Hl Hx; [by rewrite Hx|].
  rewrite Hl by by left. apply IH; [|done]. intros z Hz. apply Hl. by right.
Qed.

(** Own-commit canonicalization against the service.  A client submits its staged
    commit and resolves with what it learned, the response or its loss.  It adopts if and
    only if the log holds exactly its bytes at the epoch it committed from: an accepted
    commit is never rolled back, and another member's commit is never adopted, even when
    the response was lost or is a stale rejection. *)
Theorem resolve_agrees_with_log `{Base64} (fault : Faults) (now : string) (ulid : nat -> string)
    (db : LogDb) (body : SubmitBody) (ours : bytes) (lost : bool) :
  log_inv db -> (based_on_epoch body < 2 ^ 63)%Z -> b64_decode (commit body) = Ok ours ->
  let '(db', result) := submit_commit fault now ulid db body in
  let outcome := outcome_of (if lost then None else Some result) in
  let stored := fetch_commit_at_epoch db' (conversation_id body) (based_on_epoch body) in
  (resolve outcome ours stored = Adopt <-> stored = Some ours) /\
  (forall e, result = Ok (Accepted e) -> resolve outcome ours stored = Adopt).
Proof.
  intros Hi Hb Hd. pose proof (submit_commit_cases fault now ulid db body Hi) as Hs.
  destruct (submit_commit fault now ulid db body) as [db' res].
  assert (forall o, o <> Committed -> forall st, resolve o ours st = Adopt <-> st = Some ours) as Hr.
  { intros o Ho st. destruct o; [done|..]; simpl; by case_bool_decide. }
  destruct res as [[e|h m]|er].
  - destruct Hs as (data & tx & Hd' & -> & Hh & -> & Hsl). rewrite Hd in Hd'. injection Hd' as <-.
    destruct (gapless_insert db body ours now (inv_gapless _ Hi) Hh Hb) as (_ & _ & Hrow & _).
    assert (fetch_commit_at_epoch db' (conversation_id body) (based_on_epoch body) = Some ours) as ->.
    { unfold fetch_commit_at_epoch. rewrite (same_log_conv_rows _ _ _ Hsl), Hrow, find_snoc; [done| |].
      - intros y Hy. pose proof (epoch_below_head _ _ _ (inv_gapless _ Hi) Hy). apply Z.eqb_neq. lia.
      - apply Z.eqb_refl. }
    destruct lost; simpl; [rewrite bool_decide_eq_true_2 by done|]; by split.
  - split; [|done]. apply Hr. by destruct lost.
  - split; [|done]. apply Hr. by destruct lost.
Qed.

(** ** The watermark *)

Section WatermarkTheorems.
Context {S : Type} `{Ord S, !OrdLaws S}.

Lemma leb_refl (a : S) : leb a a = true.
Proof. by destruct (leb_total a a). Qed.

Definition sent_sorted (envs : list (S * EnvKind * option N)) : Prop :=
  ordered (fun a b => leb a.1.1 b.1.1 = true) envs.

Lemma sent_sorted_cons env envs : sent_sorted (env :: envs) ->
  sent_sorted envs /\ forall e, e ∈ envs -> leb env.1.1 e.1.1 = true.
Proof.
  intros Ho. split.
  - intros i j a b Hij Ha Hb. apply (Ho (Datatypes.S i) (Datatypes.S j)); [lia|done..].
  - intros e [i Hi]%list_elem_of_lookup. apply (Ho 0 (Datatypes.S i)); [lia|done..].
Qed.

(** The loop on sorted envelopes keeps the last one below the stop. *)
Lemma watermark_loop_some stop cand envs w : sent_sorted envs ->
  watermark_loop stop cand envs = Some w ->
  (cand = Some w /\ (forall env, env ∈ envs -> exists s, stop = Some s /\ leb s env.1.1 = true)) \/
  ((exists env, env ∈ envs /\ env.1.1 = w) /\
   (forall s, stop = Some s -> leb s w = false) /\
   forall env, env ∈ envs -> leb env.1.1 w = true \/ exists s, stop = Some s /\ leb s env.1.1 = true).
Proof.
  revert cand; induction envs as [|env envs IH]; simpl; intros cand Hs E.
  { left. split; [done|]. intros env Hin. by apply elem_of_nil in Hin. }
  destruct (sent_sorted_cons _ _ Hs) as [Hs' Hle].
  assert ((forall s, stop = Some s -> leb s env.1.1 = false) -> watermark_loop stop (Some env.1.1) envs = Some w ->
    (exists e, e ∈ env :: envs /\ e.1.1 = w) /\ (forall s, stop = Some s -> leb s w = false) /\
    forall e, e ∈ env :: envs -> leb e.1.1 w = true \/ exists s, stop = Some s /\ leb s e.1.1 = true) as Hgo.
  { intros Hb E'. destruct (IH _ Hs' E') as [[[= <-] Hstop]|((e & He & <-) & Hst & Hall)].
    - split_and!; [exists env; split; [by left|done]|done|].
      intros e [->|He]%elem_of_cons; [left; apply leb_refl|by right; apply Hstop].
    - split_and!; [exists e; split; [by right|done]|done|].
      intros e' [->|He']%elem_of_cons; [left; by apply Hle|by apply Hall]. }
  destruct stop as [s|]; [|right; apply Hgo; [done|exact E]].
  destruct (leb s env.1.1) eqn:Eb; [left|right; apply Hgo; [by intros ? [= <-]|exact E]].
  split; [done|]. intros e [->|He]%elem_of_cons; [eauto|]. exists s. split; [done|].
  eapply leb_trans; [exact Eb|by apply Hle].
Qed.

Lemma watermark_loop_none stop envs : watermark_loop stop None envs = None ->
  envs = [] \/ exists env rest s, envs = env :: rest /\ stop = Some s /\ leb s env.1.1 = true.
Proof.
  assert (forall (l : list (S * EnvKind * option N)) c, watermark_loop stop (Some c) l <> None) as Hn.
  { induction l as [|e l IH]; simpl; intros c; [done|]. destruct stop as [s|]; [destruct (leb s e.1.1)|]; done. }
  destruct envs as [|env rest]; [by left|]. simpl. destruct stop as [s|].
  - destruct (leb s env.1.1) eqn:Eb; [eauto 8|]. by intros ?%Hn.
  - by intros ?%Hn.
Qed.

(** The first envelope to retry, on sorted envelopes. *)
Lemma first_unhandled mf envs : sent_sorted envs ->
  match List.find (fun env => negb (env_handled mf env)) envs with
  | Some u => u ∈ envs /\ env_handled mf u = false /\
      forall env, env ∈ envs -> env_handled mf env = false -> leb u.1.1 env.1.1 = true
  | None => forall env, env ∈ envs -> env_handled mf env = true
  end.
Proof.
  intros Hs. induction envs as [|e envs IH]; simpl; [by intros env ?%elem_of_nil|].
  destruct (sent_sorted_cons _ _ Hs) as [Hs' Hle]. specialize (IH Hs').
  destruct (env_handled mf e) eqn:Eh; simpl.
  - destruct (List.find _ envs) as [u|].
    + destruct IH as (Hu & Huh & Hall). split_and!; [by right|done|].
      intros env [->|Henv]%elem_of_cons Hu'; [congruence|auto].
    + intros env [->|Henv]%elem_of_cons; auto.
  - split_and!; [by left|done|]. intros env [->|Henv]%elem_of_cons _; [apply leb_refl|auto].
Qed.

(** The watermark drops nothing and lags no more than it must.  On envelopes in
    [sent_at] order: if the watermark advances to [w], every envelope at or before [w] is
    handled, [w] is an envelope's [sent_at], and every envelope past [w] is at or past
    one that must be retried; if it does not advance, there are no envelopes or one to
    retry is at or before the first. *)
Theorem watermark_exact (envs : list (S * EnvKind * option N)) (mf : option N) :
  sent_sorted envs ->
  match next_watermark envs mf with
  | Some w =>
      (exists env, env ∈ envs /\ env.1.1 = w) /\
      (forall env, env ∈ envs -> leb env.1.1 w = true -> env_handled mf env = true) /\
      (forall env, env ∈ envs -> leb env.1.1 w = false ->
         exists u, u ∈ envs /\ env_handled mf u = false /\ leb u.1.1 env.1.1 = true)
  | None => envs = [] \/
      exists first rest u, envs = first :: rest /\ u ∈ envs /\ env_handled mf u = false /\
        leb u.1.1 first.1.1 = true
  end.
Proof.
  intros Hs. unfold next_watermark. pose proof (first_unhandled mf envs Hs) as Hf.
  destruct (List.find _ envs) as [u|] eqn:Eu; cbn [fmap option_fmap option_map].
  - destruct Hf as (Hu & Huh & Hall). destruct (watermark_loop _ None envs) as [w|] eqn:E.
    + destruct (watermark_loop_some _ _ _ _ Hs E) as [[? _]|(Hex & Hst & Hcov)]; [done|].
      split_and!; [done| |].
      * intros env Henv Hle. destruct (env_handled mf env) eqn:Eh; [done|].
        pose proof (Hst u.1.1 eq_refl) as Hb. by rewrite (leb_trans _ _ _ (Hall env Henv Eh) Hle) in Hb.
      * intros env Henv Hgt. destruct (Hcov env Henv) as [?|(s & [= <-] & Hle)]; [congruence|eauto].
    + apply watermark_loop_none in E as [?|(env & rest & s & -> & [= <-] & Hle)]; [by left|right].
      by exists env, rest, u.
  - destruct (watermark_loop None None envs) as [w|] eqn:E.
    + destruct (watermark_loop_some _ _ _ _ Hs E) as [[? _]|(Hex & _ & Hcov)]; [done|].
      split_and!; [done|auto|]. intros env Henv Hgt. destruct (Hcov env Henv) as [?|(s & ? & _)]; [congruence|done].
    + apply watermark_loop_none in E as [?|(env & rest & s & _ & ? & _)]; [by left|done].
Qed.
End WatermarkTheorems.

(** ** Evaluation *)

#[local] Instance Z_ord : Ord Z := {| leb := Z.leb |}.

#[local] Instance Z_ord_laws : OrdLaws Z.
Proof. constructor; simpl; intros; rewrite ?Z.leb_le in *; lia. Qed.

Section Concrete.

#[local] Existing Instance clear_base64.

#[local] Definition row (epoch seq : Z) (text : string) : CommitRec :=
  mkCommitRec seq "dm" epoch "alice" (as_bytes text) "t" None None.

#[local] Definition rows : list CommitRec := [row 3 7 "a"; row 4 8 "b"; row 6 9 "c"].

#[local] Definition always_merge : N -> CommitRec -> ApplyOutcome := fun _ _ => Merged.

#[local] Definition all_verified : CommitRec -> VerifyOutcome := fun _ => Verified.

Lemma replay_consecutive_witness :
  exists st n, replay_from all_verified always_merge 3 rows = Ok st /\ current_epoch st = (3 + N.of_nat n)%N.
Proof.
  destruct (replay_from all_verified always_merge 3 rows) as [st|] eqn:E; [|vm_compute in E; discriminate E].
  destruct (replay_consecutive all_verified always_merge 3 rows st E) as (n & _ & Hn & _).
  exists st, n. exact (conj eq_refl Hn).
Defined.

Lemma watermark_exact_witness :
  match next_watermark [(1%Z, Message, Some 3%N); (2%Z, Delete, None); (5%Z, Message, Some 9%N)] (Some 4%N) with
  | Some w => w = 2%Z
  | None => False
  end /\ exists w, next_watermark [(1%Z, Message, Some 3%N); (2%Z, Delete, None); (5%Z, Message, Some 9%N)] (Some 4%N) = Some w /\
    exists env, env ∈ [(1%Z, Message, Some 3%N); (2%Z, Delete, None); (5%Z, Message, Some 9%N)] /\ env.1.1 = w.
Proof.
  split; [vm_compute; reflexivity|]. exists 2%Z. split; [vm_compute; reflexivity|].
  refine (proj1 (watermark_exact [(1%Z, Message, Some 3%N); (2%Z, Delete, None); (5%Z, Message, Some 9%N)] (Some 4%N) _)).
  intros [|[|[|i]]] [|[|[|j]]] x y Hij Hx Hy; try lia; try discriminate;
    injection Hx as <-; injection Hy as <-; reflexivity.
Defined.

Lemma replay_catches_up_witness :
  exists st, replay_from all_verified always_merge 0 (fetch_pending Delivery.two_commits "dm" 0) = Ok st /\
    current_epoch st = 2%N.
Proof.
  destruct (replay_catches_up all_verified always_merge Delivery.two_commits "dm" 0 Delivery.two_commits_inv)
    as (st & E & Hst).
  - rewrite Delivery.two_commits_head. lia.
  - rewrite Delivery.two_commits_head. lia.
  - intros r Hr. split; [|intros e; left; reflexivity]. unfold deferred, all_verified. by repeat case_match.
  - exists st. split; [exact E|]. vm_compute in E. injection E as <-. reflexivity.
Defined.

Lemma resolve_agrees_with_log_witness :
  let body := Delivery.commit_at 2 "x" in
  let '(db', result) := submit_commit no_fault "t1" (fun j => "id") Delivery.two_commits body in
  let outcome := outcome_of (if true then None else Some result) in
  let stored := fetch_commit_at_epoch db' (conversation_id body) (based_on_epoch body) in
  (resolve outcome (as_bytes "x") stored = Adopt <-> stored = Some (as_bytes "x")) /\
  (forall e, result = Ok (Accepted e) -> resolve outcome (as_bytes "x") stored = Adopt).
Proof.
  cbv zeta. apply (resolve_agrees_with_log no_fault "t1" (fun j => "id") Delivery.two_commits (Delivery.commit_at 2 "x")
    (as_bytes "x") true Delivery.two_commits_inv).
  - vm_compute. reflexivity.
  - vm_compute. reflexivity.
Defined.
End Concrete.
