(* ===== verification/Framing.v ===== *)
(** * pollis-core: size padding and redaction frames

    Models [pollis-core/src/commands/messages/framing.rs]: the PADMÉ size buckets, [pad]
    and [strip], the redaction control frame and [classify].  The back-compat argument
    rests on the UTF-8 check of [std::str::from_utf8], in [Prelude].  Lengths are 64-bit
    [usize] values in [N]. *)

From stdpp Require Import base list strings.
From Stdlib Require Import NArith ZArith Lia ZifyNat ZifyN.
From Stdlib Require Import Strings.Byte.
From S2P Require Import Prelude.

(** ** framing.rs *)

Definition PAD_FRAMING_V1 : byte := xf5.

Definition REDACT_FRAMING_V1 : byte := xf6.

Definition HEADER : nat := 1 + 4.

Definition MIN_BUCKET : N := 256.

(** [usize::BITS - 1 - x.leading_zeros()]. *)
Definition floor_log2 (x : N) : N := N.log2 x.

Definition padded_len (n : N) : N :=
  if (n <=? MIN_BUCKET)%N then MIN_BUCKET
  else
    let e := floor_log2 n in
    let s := (floor_log2 e + 1)%N in
    let last_bits := (e - s)%N in
    let bucket := N.shiftl 1 last_bits in
    N.land (n + bucket - 1) (N.lnot (bucket - 1) 64).

(** [buf.resize(target, 0)] on a target not below the length. *)
Definition resize (target : nat) (buf : bytes) : bytes :=
  take target buf ++ repeat x00 (target - length buf).

Definition frame (marker : byte) (payload : bytes) : bytes :=
  let buf := [marker] ++ le_bytes 4 (as_u32 (N.of_nat (length payload))) ++ payload in
  resize (N.to_nat (padded_len (N.of_nat (length buf)))) buf.

Definition pad (plaintext : bytes) : bytes := frame PAD_FRAMING_V1 plaintext.

(** The [u32] length at bytes 1 to 4. *)
Definition frame_len (buf : bytes) : nat := N.to_nat (le_value (take 4 (drop 1 buf))).

Definition strip (buf : bytes) : bytes :=
  if negb (bool_decide (head buf = Some PAD_FRAMING_V1)) then buf
  else if length buf <? HEADER then buf
  else
    let stop := HEADER + frame_len buf in
    if length buf <? stop then buf
    else take (frame_len buf) (drop HEADER buf).

Inductive Frame : Type :=
| Text (plaintext : bytes)
| Redaction (id : string).

Definition pad_redaction (target_message_id : string) : bytes :=
  frame REDACT_FRAMING_V1 (as_bytes target_message_id).

Definition classify_frame (buf : bytes) : Frame :=
  if bool_decide (head buf = Some REDACT_FRAMING_V1) && (HEADER <=? length buf) then
    if HEADER + frame_len buf <=? length buf then
      match from_utf8 (take (frame_len buf) (drop HEADER buf)) with
      | Some id => Redaction id
      | None => Text (strip buf)
      end
    else Text (strip buf)
  else Text (strip buf).

(** ** The size buckets *)

(** Rounding up to a multiple of [2 ^ k], as the bit operations compute it. *)
Lemma round_up_bits n k : (n + 2 ^ k - 1 < 2 ^ 64)%N -> (k <= 64)%N ->
  N.land (n + N.shiftl 1 k - 1) (N.lnot (N.shiftl 1 k - 1) 64) = ((n + 2 ^ k - 1) / 2 ^ k * 2 ^ k)%N.
Proof.
  intros Hn Hk. rewrite N.shiftl_1_l. set (m := (n + 2 ^ k - 1)%N) in *.
  replace (2 ^ k - 1)%N with (N.ones k) by (rewrite N.ones_equiv; lia).
  apply N.bits_inj. intros i. rewrite N.land_spec.
  rewrite <- N.shiftl_mul_pow2, <- N.shiftr_div_pow2.
  destruct (N.lt_ge_cases i k) as [Hi|Hi].
  - rewrite N.shiftl_spec_low by done. rewrite N.lnot_spec_low by lia. rewrite N.ones_spec_low by done.
    by rewrite andb_false_r.
  - rewrite N.shiftl_spec_high', N.shiftr_spec' by done. replace (i - k + k)%N with i by lia.
    destruct (N.lt_ge_cases i 64) as [H64|H64].
    + rewrite N.lnot_spec_low by done. rewrite N.ones_spec_high by done. by rewrite andb_true_r.
    + destruct (N.eq_0_gt_0_cases m) as [->|Hm]; [by rewrite N.bits_0|].
      apply N.log2_lt_pow2 in Hn; [|done]. by rewrite N.bits_above_log2 by lia.
Qed.

(** The number of low bits a length above the least bucket is rounded away to. *)
Definition bucket_bits (n : N) : N := (N.log2 n - (N.log2 (N.log2 n) + 1))%N.

Definition round_up (n k : N) : N := ((n + 2 ^ k - 1) / 2 ^ k * 2 ^ k)%N.

Lemma bucket_bits_bound n : (256 < n)%N ->
  (2 ^ N.log2 n <= n < 2 ^ (N.log2 n + 1))%N /\ (8 <= N.log2 n)%N /\
  (bucket_bits n + 4 <= N.log2 n)%N /\ (16 * 2 ^ bucket_bits n <= n)%N.
Proof.
  intros Hn. pose proof (N.log2_spec n ltac:(lia)) as [Hl Hu]. rewrite <- N.add_1_r in Hu.
  assert (8 <= N.log2 n)%N as He by (change 8%N with (N.log2 256); apply N.log2_le_mono; lia).
  assert (3 <= N.log2 (N.log2 n))%N as Hs by (change 3%N with (N.log2 8); by apply N.log2_le_mono).
  assert (N.log2 (N.log2 n) + 1 <= N.log2 n)%N as Hse.
  { pose proof (N.log2_lt_lin (N.log2 n) ltac:(lia)). lia. }
  assert (bucket_bits n + 4 <= N.log2 n)%N as Hk by (unfold bucket_bits; lia).
  split_and!; try done. change 16%N with (2 ^ 4)%N. rewrite <- N.pow_add_r.
  eapply N.le_trans; [|exact Hl]. apply N.pow_le_mono_r; lia.
Qed.

Lemma round_up_bounds n k : (n <= round_up n k < n + 2 ^ k)%N.
Proof.
  unfold round_up. assert (2 ^ k <> 0)%N as Hk by by apply N.pow_nonzero.
  pose proof (N.div_mod (n + 2 ^ k - 1) (2 ^ k) Hk). pose proof (N.mod_lt (n + 2 ^ k - 1) (2 ^ k) Hk). lia.
Qed.

Lemma round_up_multiple n k m : n = (m * 2 ^ k)%N -> round_up n k = n.
Proof.
  intros ->. unfold round_up. assert (2 ^ k <> 0)%N as Hk by by apply N.pow_nonzero.
  replace (m * 2 ^ k + 2 ^ k - 1)%N with (2 ^ k - 1 + m * 2 ^ k)%N by lia.
  rewrite N.div_add, N.div_small by lia. lia.
Qed.

Lemma round_up_mono n m k : (n <= m)%N -> (round_up n k <= round_up m k)%N.
Proof.
  intros Hnm. unfold round_up. assert (2 ^ k <> 0)%N as Hk by by apply N.pow_nonzero.
  apply N.mul_le_mono_r, N.div_le_mono; lia.
Qed.

Lemma padded_len_small n : (n <= 256)%N -> padded_len n = 256%N.
Proof. intros Hn. unfold padded_len, MIN_BUCKET. by rewrite (proj2 (N.leb_le _ _)). Qed.

Lemma padded_len_round n : (256 < n < 2 ^ 63)%N -> padded_len n = round_up n (bucket_bits n).
Proof.
  intros [Hn Hb]. destruct (bucket_bits_bound n Hn) as (_ & _ & Hk & H16).
  assert (N.log2 n < 63)%N by (apply N.log2_lt_pow2; lia).
  unfold padded_len, MIN_BUCKET. rewrite (proj2 (N.leb_gt _ _)) by done.
  unfold floor_log2. fold (bucket_bits n). apply round_up_bits; [|lia].
  change (2 ^ 64)%N with (2 ^ 63 + 2 ^ 63)%N. lia.
Qed.

(** A rounded length stays within the power-of-two interval of its length. *)
Lemma padded_len_interval n : (256 < n < 2 ^ 63)%N -> (padded_len n <= 2 ^ (N.log2 n + 1))%N.
Proof.
  intros Hn. rewrite padded_len_round by done. destruct (bucket_bits_bound n) as ((Hl & Hu) & _ & Hk & _); [lia|].
  assert (2 ^ (N.log2 n + 1) = 2 ^ (N.log2 n + 1 - bucket_bits n) * 2 ^ bucket_bits n)%N as E
    by (rewrite <- N.pow_add_r; f_equal; lia).
  rewrite <- (round_up_multiple _ _ _ E). apply round_up_mono. lia.
Qed.

(** The size buckets.  For lengths below [2^62], the padded length is at least the
    length and at least 256, exceeds a length above 256 by less than a sixteenth of it
    (the documented bound is 12%), is monotone, and is itself a bucket: padding a padded
    length changes nothing, so the observable size carries only the bucket. *)
Theorem padded_len_buckets (n m : N) :
  (n <= m < 2 ^ 62)%N ->
  (n <= padded_len n)%N /\ (256 <= padded_len n)%N /\
  ((256 < n)%N -> (16 * (padded_len n - n) < n)%N) /\
  (padded_len n <= padded_len m)%N /\
  padded_len (padded_len n) = padded_len n.
Proof.
  intros Hnm. assert (2 ^ 62 + 2 ^ 62 = 2 ^ 63)%N as H63 by done.
  destruct (N.le_gt_cases n 256) as [Hn|Hn].
  { rewrite (padded_len_small n) by done. rewrite (padded_len_small 256) by done.
    split_and!; try lia. destruct (N.le_gt_cases m 256); [by rewrite padded_len_small|].
    rewrite padded_len_round by lia. pose proof (round_up_bounds m (bucket_bits m)). lia. }
  destruct (bucket_bits_bound n Hn) as ((Hl & Hu) & He & Hk & H16).
  pose proof (round_up_bounds n (bucket_bits n)) as Hr.
  pose proof (padded_len_round n ltac:(lia)) as Ep. pose proof (padded_len_interval n ltac:(lia)) as Hi.
  split_and!; [lia|lia|lia| |].
  - rewrite (padded_len_round m) by lia.
    destruct (N.eq_dec (N.log2 n) (N.log2 m)) as [El|El].
    + rewrite Ep. unfold bucket_bits. rewrite <- El. apply round_up_mono. lia.
    + assert (N.log2 n + 1 <= N.log2 m)%N by (pose proof (N.log2_le_mono n m); lia).
      assert (2 ^ (N.log2 n + 1) <= 2 ^ N.log2 m)%N by (apply N.pow_le_mono_r; lia).
      pose proof (N.log2_spec m ltac:(lia)). pose proof (round_up_bounds m (bucket_bits m)). lia.
  - set (p := padded_len n) in *. rewrite (padded_len_round p) by lia.
    destruct (N.eq_dec p (2 ^ (N.log2 n + 1))) as [E|E].
    + apply (round_up_multiple _ _ (2 ^ (N.log2 p - bucket_bits p))).
      destruct (bucket_bits_bound p ltac:(lia)) as (_ & _ & Hkp & _).
      rewrite <- N.pow_add_r. replace (N.log2 p - bucket_bits p + bucket_bits p)%N with (N.log2 p) by lia.
      rewrite E at 2. rewrite N.log2_pow2 by lia. exact E.
    + assert (N.log2 p = N.log2 n) as El by (apply N.log2_unique; [lia|]; rewrite <- N.add_1_r; lia).
      unfold bucket_bits. rewrite El. fold (bucket_bits n).
      apply (round_up_multiple _ _ ((n + 2 ^ bucket_bits n - 1) / 2 ^ bucket_bits n)). exact Ep.
Qed.

(** ** Frames *)

Lemma padded_len_ge n : (n < 2 ^ 62)%N -> (n <= padded_len n)%N.
Proof.
  intros Hn. destruct (N.le_gt_cases n 256) as [Hs|Hs]; [rewrite padded_len_small; lia|].
  assert (2 ^ 62 < 2 ^ 63)%N by done.
  rewrite padded_len_round by lia. pose proof (round_up_bounds n (bucket_bits n)). lia.
Qed.

(** A payload short enough for its 32-bit length prefix. *)
Definition frame_fits (payload : bytes) : Prop := (N.of_nat (length payload) < 2 ^ 32)%N.

Lemma frame_shape marker payload : frame_fits payload ->
  exists k, frame marker payload = marker :: le_bytes 4 (N.of_nat (length payload)) ++ payload ++ repeat x00 k /\
    length (frame marker payload) = N.to_nat (padded_len (N.of_nat (HEADER + length payload))).
Proof.
  unfold frame_fits, frame. intros Hf. unfold as_u32. rewrite N.mod_small by done.
  set (buf := [marker] ++ _). assert (length buf = HEADER + length payload) as Hl.
  { unfold buf, HEADER. rewrite !length_app, length_le_bytes. simpl. lia. }
  assert (2 ^ 32 + 5 < 2 ^ 62)%N by done.
  rewrite Hl. pose proof (padded_len_ge (N.of_nat (HEADER + length payload)) ltac:(unfold HEADER; lia)) as Hp.
  set (t := padded_len _) in *. unfold resize. rewrite take_ge by lia.
  exists (N.to_nat t - length buf). split.
  - generalize (N.to_nat t - length buf). intros k. unfold buf. cbn [app]. by rewrite <- app_assoc.
  - rewrite length_app, repeat_length. lia.
Qed.

Lemma frame_len_shape marker n rest : (n < 2 ^ 32)%N -> frame_len (marker :: le_bytes 4 n ++ rest) = N.to_nat n.
Proof.
  intros Hn. unfold frame_len.
  change (drop 1 (marker :: le_bytes 4 n ++ rest)) with (le_bytes 4 n ++ rest). rewrite take_app_le, take_ge by (rewrite length_le_bytes; lia).
  rewrite le_value_bytes. by rewrite N.mod_small.
Qed.

Lemma frame_body marker payload k :
  take (length payload) (drop HEADER (marker :: le_bytes 4 (N.of_nat (length payload)) ++ payload ++ repeat x00 k)) = payload.
Proof.
  change (drop HEADER (marker :: ?l)) with (drop 4 l). rewrite drop_app_le, drop_ge by (rewrite length_le_bytes; lia). simpl.
  by rewrite take_app_length.
Qed.

Lemma frame_length_ge marker payload k :
  HEADER + length payload <= length (marker :: le_bytes 4 (N.of_nat (length payload)) ++ payload ++ repeat x00 k).
Proof. unfold HEADER. cbn [length]. rewrite !length_app, length_le_bytes. lia. Qed.

(** Reading a frame back: the length prefix and the payload. *)
Lemma frame_read marker payload : frame_fits payload ->
  head (frame marker payload) = Some marker /\ frame_len (frame marker payload) = length payload /\
  HEADER + length payload <= length (frame marker payload) /\
  take (length payload) (drop HEADER (frame marker payload)) = payload.
Proof.
  intros Hf. destruct (frame_shape marker payload Hf) as (k & E & _). rewrite E.
  rewrite frame_len_shape by done. rewrite Nat2N.id. split_and!; [done|done|apply frame_length_ge|apply frame_body].
Qed.

Lemma strip_pad p : frame_fits p -> strip (pad p) = p.
Proof.
  intros Hf. destruct (frame_read PAD_FRAMING_V1 p Hf) as (Hh & Hl & Hge & Hb). unfold strip, pad.
  rewrite Hh, bool_decide_eq_true_2 by done. rewrite Hl. unfold HEADER in *.
  rewrite (proj2 (Nat.ltb_ge _ _)) by lia. by rewrite (proj2 (Nat.ltb_ge _ _)).
Qed.

(** Valid UTF-8 never starts with a framing byte. *)
Lemma utf8_no_marker l b : utf8_valid l = true -> head l = Some b -> (N_of_byte b < 0xF5)%N.
Proof.
  destruct l as [|b' l]; [done|]. intros Hv [= ->]. cbn [utf8_valid] in Hv. unfold in_range in Hv.
  destruct (N.leb_spec (N_of_byte b) 127); [lia|].
  destruct (_ && _) eqn:E1; [breflect; lia|]. destruct ((224 <=? _)%N && _) eqn:E2; [breflect; lia|].
  destruct ((240 <=? _)%N && _) eqn:E3; [breflect; lia|done].
Qed.

Lemma utf8_not_framed l : utf8_valid l = true ->
  head l <> Some PAD_FRAMING_V1 /\ head l <> Some REDACT_FRAMING_V1.
Proof.
  intros Hv. split; intros Hh; pose proof (utf8_no_marker _ _ Hv Hh) as Hb; by vm_compute in Hb.
Qed.

(** Padding is transparent and back-compatible.  A padded text (below 4 GiB) is
    classified as text and comes back byte for byte; a redaction frame of a valid id
    comes back as that redaction and is never read as text; a legacy unpadded message,
    any valid UTF-8, is returned verbatim and never taken for a frame; and every frame's
    length is the bucket of its payload's length, so a redaction and a text of equal
    length are indistinguishable by size. *)
Theorem framing_roundtrip (plaintext legacy : bytes) (id : string) :
  frame_fits plaintext -> frame_fits (as_bytes id) -> utf8_valid (as_bytes id) = true ->
  utf8_valid legacy = true ->
  strip (pad plaintext) = plaintext /\
  classify_frame (pad plaintext) = Text plaintext /\
  classify_frame (pad_redaction id) = Redaction id /\
  strip legacy = legacy /\ classify_frame legacy = Text legacy /\
  length (pad plaintext) = N.to_nat (padded_len (N.of_nat (HEADER + length plaintext))) /\
  (length (as_bytes id) = length plaintext -> length (pad_redaction id) = length (pad plaintext)).
Proof.
  intros Hp Hi Hu Hv. destruct (utf8_not_framed legacy Hv) as [H1 H2].
  assert (strip legacy = legacy) as Hs by (unfold strip; by rewrite bool_decide_eq_false_2).
  destruct (frame_read PAD_FRAMING_V1 plaintext Hp) as (Hh & _).
  destruct (frame_read REDACT_FRAMING_V1 _ Hi) as (Hhr & Hlr & Hger & Hbr).
  destruct (frame_shape PAD_FRAMING_V1 plaintext Hp) as (_ & _ & Hlen).
  destruct (frame_shape REDACT_FRAMING_V1 _ Hi) as (_ & _ & Hlen').
  split_and!; [by apply strip_pad| | |done| |done|].
  - unfold classify_frame. rewrite bool_decide_eq_false_2 by (unfold pad; by rewrite Hh). simpl. by rewrite strip_pad.
  - unfold classify_frame, pad_redaction. rewrite Hhr, bool_decide_eq_true_2 by done. rewrite Hlr. cbn [andb].
    rewrite !(proj2 (Nat.leb_le _ _)) by (unfold HEADER in *; lia). rewrite Hbr. unfold from_utf8.
    by rewrite Hu, of_bytes_as_bytes.
  - unfold classify_frame. rewrite bool_decide_eq_false_2 by done. simpl. by rewrite Hs.
  - intros E. unfold pad, pad_redaction. by rewrite Hlen, Hlen', E.
Qed.

(** ** Evaluation *)

Lemma padded_len_buckets_witness :
  (300 <= padded_len 300)%N /\ (16 * (padded_len 300 - 300) < 300)%N /\ (padded_len 300 <= padded_len 5000)%N /\
  map padded_len [0; 256; 257; 5000]%N = [256; 256; 272; 5120]%N.
Proof.
  destruct (padded_len_buckets 300 5000 ltac:(lia)) as (H1 & _ & H2 & H3 & _).
  split; [exact H1|]. split; [apply H2; lia|]. split; [exact H3|]. vm_compute. reflexivity.
Defined.

Lemma framing_roundtrip_witness :
  strip (pad (as_bytes "hello")) = as_bytes "hello" /\
  classify_frame (pad_redaction "01ABC") = Redaction "01ABC" /\
  length (pad_redaction "01ABC") = length (pad (as_bytes "hello")).
Proof.
  destruct (framing_roundtrip (as_bytes "hello") (as_bytes "old") "01ABC") as (H1 & _ & H3 & _ & _ & _ & H7).
  - vm_compute. reflexivity.
  - vm_compute. reflexivity.
  - vm_compute. reflexivity.
  - vm_compute. reflexivity.
  - split; [exact H1|]. split; [exact H3|]. apply H7. reflexivity.
Defined.
