(* ===== verification/Relay.v ===== *)
(** * pollis-device-cert and the wire protocol of pollis-relay

    Models [pollis-device-cert/src/lib.rs] and [pollis-relay/src/proto.rs]: handshake,
    connect and response frames, canonical bytes, signing and verification.  A reader
    consumes a byte list and returns the rest; reading past the end is the I/O error.
    A writer returns the bytes it sends. *)

From stdpp Require Import base list strings pretty.
From Stdlib Require Import NArith ZArith Lia ZifyNat ZifyN.
From Stdlib Require Import Strings.Byte.
From S2P Require Import Prelude Crypto.

(** ** pollis-device-cert *)

Module DeviceCert.

Definition DEVICE_CERT_DOMAIN : bytes := as_bytes "pollis-device-cert-v1" ++ [x00].

Inductive DeviceCertError : Type :=
| FieldTooLong (field : string) (len : nat)
| BadAccountKeyLen (n : nat)
| BadCertLen (n : nat)
| BadAccountKey
| SignatureInvalid.

Definition device_cert_signed_payload (device_id : string) (mls_signature_pub : bytes)
    (identity_version issued_at : N) : Result bytes DeviceCertError :=
  let id := as_bytes device_id in
  if 255 <? length id then Err (FieldTooLong "device_id" (length id))
  else if 255 <? length mls_signature_pub
  then Err (FieldTooLong "mls_signature_pub" (length mls_signature_pub))
  else Ok (DEVICE_CERT_DOMAIN ++
           [byte_of_N (N.of_nat (length id))] ++ id ++
           [byte_of_N (N.of_nat (length mls_signature_pub))] ++ mls_signature_pub ++
           be_bytes 4 identity_version ++ be_bytes 8 issued_at).

Definition verify_device_cert `{Ed25519} (account_id_pub : bytes) (device_id : string)
    (mls_signature_pub : bytes) (identity_version issued_at : N) (cert_bytes : bytes)
    : Result unit DeviceCertError :=
  if negb (length account_id_pub =? 32) then Err (BadAccountKeyLen (length account_id_pub))
  else if negb (length cert_bytes =? 64) then Err (BadCertLen (length cert_bytes))
  else
    let? vk := ok_or (vk_from_bytes account_id_pub) BadAccountKey in
    let? payload := device_cert_signed_payload device_id mls_signature_pub identity_version issued_at in
    if ed_verify vk payload cert_bytes then Ok tt else Err SignatureInvalid.

(** Equal payloads certify the same device, key, version and time. *)
Lemma payload_inj d d' k k' v v' t t' p :
  (v < 2 ^ 32)%N -> (v' < 2 ^ 32)%N -> (t < 2 ^ 64)%N -> (t' < 2 ^ 64)%N ->
  device_cert_signed_payload d k v t = Ok p -> device_cert_signed_payload d' k' v' t' = Ok p ->
  d = d' /\ k = k' /\ v = v' /\ t = t'.
Proof.
  intros Hv Hv' Ht Ht'. unfold device_cert_signed_payload.
  destruct (Nat.ltb_spec 255 (length (as_bytes d))); [done|].
  destruct (Nat.ltb_spec 255 (length k)); [done|]. intros E1.
  destruct (Nat.ltb_spec 255 (length (as_bytes d'))); [done|].
  destruct (Nat.ltb_spec 255 (length k')); [done|]. intros E2.
  rewrite <- E2 in E1. clear E2 p. apply Ok_inj in E1 as E. apply app_inv_head in E.
  assert (forall n m, n <= 255 -> m <= 255 -> byte_of_N (N.of_nat n) = byte_of_N (N.of_nat m) -> n = m) as Hb.
  { intros n m Hn Hm Eb. apply (f_equal N_of_byte) in Eb. rewrite !N_of_byte_of_N, !N.mod_small in Eb by lia. lia. }
  apply app_inj_len in E as [[= El] E]; [|done]. apply Hb in El; [|done..].
  apply app_inj_len in E as [Ed E]; [|done]. apply app_inj_len in E as [[= Ek] E]; [|done].
  apply Hb in Ek; [|done..]. apply app_inj_len in E as [-> E]; [|done].
  apply app_inj_len in E as [Ev Et]; [|by rewrite !length_be_bytes].
  split_and!; [by apply as_bytes_inj|done|by apply be_bytes_inj in Ev|by apply be_bytes_inj in Et].
Qed.
End DeviceCert.

(** ** proto.rs *)

Module Proto.
Import DeviceCert.

Definition PROTOCOL_VERSION : N := 2.
Definition HANDSHAKE_DOMAIN : string := "pollis-relay-v2".
Definition MAX_SKEW_SECS : Z := 300.
Definition MSG_HANDSHAKE : N := 1.
Definition MSG_CONNECT : N := 2.
Definition STATUS_OK : N := 0.
Definition STATUS_REJECTED : N := 1.
Definition MAX_STRING_LEN : nat := 1024.
Definition NONCE_LEN : nat := 32.

Inductive RejectReason : Type :=
| NotAllowed | Unauthorized | DialFailed | BadRequest | RateLimited | Internal.

Inductive ProtoError : Type :=
| Io
| BadVersion (v : N)
| BadMessageType (t : N)
| Malformed (what : string)
| Rejected (r : RejectReason).

Definition to_code (r : RejectReason) : N :=
  match r with
  | NotAllowed => 1 | Unauthorized => 2 | DialFailed => 3
  | BadRequest => 4 | RateLimited => 6 | Internal => 5
  end.

Definition from_code (code : N) : RejectReason :=
  match code with
  | 1 => NotAllowed | 2 => Unauthorized | 3 => DialFailed
  | 4 => BadRequest | 6 => RateLimited | _ => Internal
  end%N.

Record DeviceCertMaterial := mkCert {
  account_id_pub : bytes;
  device_cert : bytes;
  identity_version : N;
  issued_at : N
}.

Record Handshake := mkHandshake {
  user_id : string;
  device_id : string;
  device_signing_pub : bytes;
  cert : DeviceCertMaterial;
  timestamp : Z;
  nonce : bytes;
  signature : bytes
}.

Record Connect := mkConnect { host : string; port : N }.

Record VerifiedClient := mkVerified { vc_user_id : string; vc_account_id_pub : bytes }.

(** [DeviceCertMaterial::mint]; a payload error is the [expect] panic. *)
Definition mint `{Ed25519} (account : SigningKey) (device : string) (signing_pub : bytes)
    (version issued : N) : option DeviceCertMaterial :=
  match device_cert_signed_payload device signing_pub version issued with
  | Ok payload =>
      Some (mkCert (vk_to_bytes (verifying_key account)) (ed_sign account payload) version issued)
  | Err _ => None
  end.

(** [hex_lower]: two digits of [0123456789abcdef] per byte. *)
Definition hex_digit (n : N) : byte := nth (N.to_nat n) (as_bytes "0123456789abcdef") x00.

Fixpoint hex_lower (b : bytes) : bytes :=
  match b with
  | [] => []
  | x :: b' =>
      hex_digit (N.shiftr (N_of_byte x) 4) :: hex_digit (N.land (N_of_byte x) 0x0f) :: hex_lower b'
  end.

Definition newline : bytes := [x0a].

Definition handshake_canonical_bytes `{Sha256} (user device : string) (ts : Z) (nonce : bytes) : bytes :=
  as_bytes HANDSHAKE_DOMAIN ++ newline ++ as_bytes user ++ newline ++ as_bytes device ++ newline ++
  as_bytes (pretty ts) ++ newline ++ hex_lower (sha256 nonce).

Definition sign_handshake `{Sha256} `{Ed25519} (signing_key : SigningKey) (user device : string)
    (c : DeviceCertMaterial) (ts : Z) (nonce : bytes) : Handshake :=
  let msg := handshake_canonical_bytes user device ts nonce in
  mkHandshake user device (vk_to_bytes (verifying_key signing_key)) c ts nonce (ed_sign signing_key msg).

(** [i64::abs] in a release build. *)
Definition abs_i64 (z : Z) : Z := wrap_i64 (Z.abs z).

Definition skew_ok (now ts : Z) : bool := negb (MAX_SKEW_SECS <? abs_i64 (wrap_i64 (now - ts)))%Z.

Definition verify_handshake `{Sha256} `{Ed25519} (hs : Handshake) (now : Z)
    : Result VerifiedClient RejectReason :=
  if bool_decide (user_id hs = "") || bool_decide (device_id hs = "") then Err Unauthorized
  else if negb (skew_ok now (timestamp hs)) then Err Unauthorized
  else
    let? device_key := ok_or (vk_from_bytes (device_signing_pub hs)) Unauthorized in
    let msg := handshake_canonical_bytes (user_id hs) (device_id hs) (timestamp hs) (nonce hs) in
    if negb (ed_verify device_key msg (signature hs)) then Err Unauthorized
    else
      let? _ := map_err (fun _ => Unauthorized)
        (verify_device_cert (account_id_pub (cert hs)) (device_id hs) (device_signing_pub hs)
           (identity_version (cert hs)) (issued_at (cert hs)) (device_cert (cert hs))) in
      Ok (mkVerified (user_id hs) (account_id_pub (cert hs))).

(** *** Frame I/O *)

Definition Reader (A : Type) : Type := bytes -> Result (A * bytes) ProtoError.

Definition ret {A} (a : A) : Reader A := fun b => Ok (a, b).

Definition fail {A} (e : ProtoError) : Reader A := fun _ => Err e.

Definition bind {A B} (r : Reader A) (k : A -> Reader B) : Reader B :=
  fun b => let? ab := r b in k (fst ab) (snd ab).

Notation "'let!' x := e 'in' k" := (bind e (fun x => k))
  (at level 10, x name, e at level 100, k at level 200) : rust_scope.

Definition read_exact (n : nat) : Reader bytes := fun b =>
  if length b <? n then Err Io else Ok (take n b, drop n b).

(** [read_u8] .. [read_u64], big-endian. *)
Definition read_uint (w : nat) : Reader N := let! b := read_exact w in ret (be_value b).

Definition read_i64 : Reader Z := let! n := read_uint 8 in ret (u64_to_i64 n).

Definition write_string (s : string) : Result bytes ProtoError :=
  let b := as_bytes s in
  if MAX_STRING_LEN <? length b then Err (Malformed "string too long")
  else Ok (be_bytes 2 (as_u16 (N.of_nat (length b))) ++ b).

Definition read_string : Reader string :=
  let! n := read_uint 2 in
  if MAX_STRING_LEN <? N.to_nat n then fail (Malformed "string too long")
  else
    let! buf := read_exact (N.to_nat n) in
    match from_utf8 buf with Some s => ret s | None => fail (Malformed "invalid utf-8") end.

Definition write_handshake (hs : Handshake) : Result bytes ProtoError :=
  let? u := write_string (user_id hs) in
  let? d := write_string (device_id hs) in
  Ok (be_bytes 1 PROTOCOL_VERSION ++ be_bytes 1 MSG_HANDSHAKE ++ u ++ d ++
      device_signing_pub hs ++ account_id_pub (cert hs) ++
      be_bytes 4 (identity_version (cert hs)) ++ be_bytes 8 (issued_at (cert hs)) ++
      device_cert (cert hs) ++ be_bytes 8 (i64_to_u64 (timestamp hs)) ++
      be_bytes 1 (N.of_nat NONCE_LEN) ++ nonce hs ++ signature hs).

Definition read_header (msg : N) : Reader unit :=
  let! version := read_uint 1 in
  if negb (version =? PROTOCOL_VERSION)%N then fail (BadVersion version)
  else
    let! msg_type := read_uint 1 in
    if negb (msg_type =? msg)%N then fail (BadMessageType msg_type) else ret tt.

Definition read_handshake : Reader Handshake :=
  let! _ := read_header MSG_HANDSHAKE in
  let! user := read_string in
  let! device := read_string in
  let! signing_pub := read_exact 32 in
  let! account := read_exact 32 in
  let! version := read_uint 4 in
  let! issued := read_uint 8 in
  let! dcert := read_exact 64 in
  let! ts := read_i64 in
  let! nonce_len := read_uint 1 in
  if negb (N.to_nat nonce_len =? NONCE_LEN) then fail (Malformed "bad nonce length")
  else
    let! nonce := read_exact NONCE_LEN in
    let! sig := read_exact 64 in
    ret (mkHandshake user device signing_pub (mkCert account dcert version issued) ts nonce sig).

Definition write_connect (c : Connect) : Result bytes ProtoError :=
  let? h := write_string (host c) in
  Ok (be_bytes 1 PROTOCOL_VERSION ++ be_bytes 1 MSG_CONNECT ++ h ++ be_bytes 2 (port c)).

Definition read_connect : Reader Connect :=
  let! _ := read_header MSG_CONNECT in
  let! h := read_string in
  let! p := read_uint 2 in
  ret (mkConnect h p).

Definition write_response (result : Result unit RejectReason) : Result bytes ProtoError :=
  match result with
  | Ok _ => Ok (be_bytes 1 PROTOCOL_VERSION ++ be_bytes 1 STATUS_OK)
  | Err reason =>
      let? detail := write_string "" in
      Ok (be_bytes 1 PROTOCOL_VERSION ++ be_bytes 1 STATUS_REJECTED ++ be_bytes 1 (to_code reason) ++ detail)
  end.

Definition read_response : Reader unit :=
  let! version := read_uint 1 in
  if negb (version =? PROTOCOL_VERSION)%N then fail (BadVersion version)
  else
    let! status := read_uint 1 in
    if (status =? STATUS_OK)%N then ret tt
    else if (status =? STATUS_REJECTED)%N then
      let! code := read_uint 1 in
      let! _ := read_string in
      fail (Rejected (from_code code))
    else fail (Malformed "bad status").
End Proto.

(** ** Reading back what was written *)

Section Wire.
Import Proto.

Lemma bind_ok {A B} (r : Reader A) (k : A -> Reader B) inp b rest :
  bind r k inp = Ok (b, rest) <-> exists a mid, r inp = Ok (a, mid) /\ k a mid = Ok (b, rest).
Proof.
  unfold bind. destruct (r inp) as [[a mid]|e]; simpl.
  - split; [eauto|]. by intros (? & ? & [= <- <-] & ?).
  - split; [done|]. by intros (? & ? & ? & _).
Qed.

Lemma ret_ok {A} (a b : A) inp rest : ret a inp = Ok (b, rest) <-> a = b /\ inp = rest.
Proof. unfold ret. split; [by intros [= -> ->]|by intros [-> ->]]. Qed.

Lemma read_exact_ok n inp b rest : read_exact n inp = Ok (b, rest) <-> inp = b ++ rest /\ length b = n.
Proof.
  unfold read_exact. destruct (Nat.ltb_spec (length inp) n) as [Hl|Hl].
  - split; [done|]. intros [-> <-]. rewrite length_app in Hl. lia.
  - split.
    + intros [= <- <-]. by rewrite take_drop, length_take_le.
    + intros [-> <-]. by rewrite take_app_length, drop_app_length.
Qed.

Lemma be_value_bound b : (be_value b < 2 ^ (8 * N.of_nat (length b)))%N.
Proof. unfold be_value. pose proof (le_value_bound (rev b)) as Hb. by rewrite length_rev in Hb. Qed.

Lemma read_uint_ok w inp v rest :
  read_uint w inp = Ok (v, rest) <-> inp = be_bytes w v ++ rest /\ (v < 2 ^ (8 * N.of_nat w))%N.
Proof.
  unfold read_uint. rewrite bind_ok. setoid_rewrite read_exact_ok. setoid_rewrite ret_ok. split.
  - intros (b & mid & [-> <-] & <- & ->). rewrite be_bytes_value. split; [done|apply be_value_bound].
  - intros [-> Hv]. exists (be_bytes w v), rest. rewrite length_be_bytes, be_value_bytes. split_and!; try done.
    by apply N.mod_small.
Qed.

Lemma read_i64_ok inp z rest :
  read_i64 inp = Ok (z, rest) <-> inp = be_bytes 8 (i64_to_u64 z) ++ rest /\ i64_range z.
Proof.
  unfold read_i64. rewrite bind_ok. setoid_rewrite read_uint_ok. setoid_rewrite ret_ok. split.
  - intros (n & mid & [-> Hn] & <- & ->). change (8 * N.of_nat 8)%N with 64%N in Hn.
    destruct (u64_i64_roundtrip n Hn) as [-> Hr]. done.
  - intros [-> Hz]. exists (i64_to_u64 z), rest. split_and!; try done; [apply i64_to_u64_bound|by apply i64_roundtrip].
Qed.

(** Strings the wire can carry. *)
Definition wire_string (s : string) : Prop :=
  length (as_bytes s) <= MAX_STRING_LEN /\ utf8_valid (as_bytes s) = true.

Lemma write_string_ok s b : write_string s = Ok b <->
  length (as_bytes s) <= MAX_STRING_LEN /\ b = be_bytes 2 (N.of_nat (length (as_bytes s))) ++ as_bytes s.
Proof.
  unfold write_string, MAX_STRING_LEN. destruct (Nat.ltb_spec 1024 (length (as_bytes s))) as [Hl|Hl].
  - split; [done|]. intros [? _]. lia.
  - unfold as_u16. rewrite N.mod_small by lia. split; [intros E%Ok_inj; by subst|by intros [_ ->]].
Qed.

Lemma read_string_ok inp s rest : read_string inp = Ok (s, rest) <->
  wire_string s /\ exists b, write_string s = Ok b /\ inp = b ++ rest.
Proof.
  unfold read_string, wire_string. rewrite bind_ok. setoid_rewrite read_uint_ok. setoid_rewrite write_string_ok. split.
  - intros (n & mid & [-> Hn] & E). destruct (Nat.ltb_spec MAX_STRING_LEN (N.to_nat n)) as [|Hle]; [done|].
    apply bind_ok in E as (buf & mid' & [-> Hb]%read_exact_ok & E). unfold from_utf8 in E.
    destruct (utf8_valid buf) eqn:Eu; [|done]. apply ret_ok in E as [<- ->].
    rewrite as_bytes_of_bytes. split; [split; [lia|done]|]. eexists. split; [split; [lia|done]|].
    rewrite Hb, N2Nat.id, <- app_assoc. done.
  - intros ([Hl Hu] & b & [_ ->] & ->). unfold MAX_STRING_LEN in *.
    exists (N.of_nat (length (as_bytes s))), (as_bytes s ++ rest). split; [split; [by rewrite <- app_assoc|]|].
    { change (8 * N.of_nat 2)%N with 16%N. lia. }
    rewrite Nat2N.id, (proj2 (Nat.ltb_ge _ _)) by lia. apply bind_ok. exists (as_bytes s), rest.
    split; [by apply read_exact_ok|]. unfold from_utf8. rewrite Hu. apply ret_ok. by rewrite of_bytes_as_bytes.
Qed.

Lemma read_header_ok msg inp u rest : (msg < 256)%N ->
  read_header msg inp = Ok (u, rest) <-> inp = be_bytes 1 PROTOCOL_VERSION ++ be_bytes 1 msg ++ rest.
Proof.
  intros Hm. unfold read_header. rewrite bind_ok. setoid_rewrite read_uint_ok. split.
  - intros (v & mid & [-> _] & E). destruct (N.eqb_spec v PROTOCOL_VERSION) as [->|]; [|done]. simpl in E.
    apply bind_ok in E as (t & mid' & [-> _]%read_uint_ok & E).
    destruct (N.eqb_spec t msg) as [->|]; [|done]. by apply ret_ok in E as [_ ->].
  - intros ->. exists PROTOCOL_VERSION, (be_bytes 1 msg ++ rest). split; [done|]. rewrite N.eqb_refl. simpl.
    apply bind_ok. exists msg, rest. split; [by apply read_uint_ok|]. rewrite N.eqb_refl. by destruct u.
Qed.
End Wire.

(** ** Frames *)

Section Frames.
Import Proto.

(** What the Rust types of the fields guarantee, and strings short enough to send. *)
Record wf_handshake (hs : Handshake) : Prop := {
  wf_user : wire_string (user_id hs);
  wf_device : wire_string (device_id hs);
  wf_signing_pub : length (device_signing_pub hs) = 32;
  wf_account : length (account_id_pub (cert hs)) = 32;
  wf_version : (identity_version (cert hs) < 2 ^ 32)%N;
  wf_issued : (issued_at (cert hs) < 2 ^ 64)%N;
  wf_cert : length (device_cert (cert hs)) = 64;
  wf_ts : i64_range (timestamp hs);
  wf_nonce : length (nonce hs) = NONCE_LEN;
  wf_sig : length (signature hs) = 64
}.

Lemma write_handshake_ok hs b : write_handshake hs = Ok b <->
  exists u d, write_string (user_id hs) = Ok u /\ write_string (device_id hs) = Ok d /\
    b = be_bytes 1 PROTOCOL_VERSION ++ be_bytes 1 MSG_HANDSHAKE ++ u ++ d ++
      device_signing_pub hs ++ account_id_pub (cert hs) ++
      be_bytes 4 (identity_version (cert hs)) ++ be_bytes 8 (issued_at (cert hs)) ++
      device_cert (cert hs) ++ be_bytes 8 (i64_to_u64 (timestamp hs)) ++
      be_bytes 1 (N.of_nat NONCE_LEN) ++ nonce hs ++ signature hs.
Proof.
  unfold write_handshake. destruct (write_string (user_id hs)) as [u|]; [|naive_solver].
  destruct (write_string (device_id hs)) as [d|]; [|naive_solver]. split.
  - intros E%Ok_inj. by exists u, d.
  - by intros (? & ? & [= <-] & [= <-] & ->).
Qed.

Ltac bind_inv E a mid H := apply bind_ok in E as (a & mid & H & E).

Lemma read_handshake_inv inp hs rest : read_handshake inp = Ok (hs, rest) ->
  wf_handshake hs /\ exists b, write_handshake hs = Ok b /\ inp = b ++ rest.
Proof.
  intros E. unfold read_handshake in E.
  bind_inv E u0 m0 R0. apply read_header_ok in R0; [|done].
  bind_inv E user m1 R1. apply read_string_ok in R1 as (W1 & b1 & Wb1 & ->).
  bind_inv E device m2 R2. apply read_string_ok in R2 as (W2 & b2 & Wb2 & ->).
  bind_inv E pub m3 R3. apply read_exact_ok in R3 as [-> L3].
  bind_inv E acct m4 R4. apply read_exact_ok in R4 as [-> L4].
  bind_inv E ver m5 R5. apply read_uint_ok in R5 as [-> L5].
  bind_inv E iss m6 R6. apply read_uint_ok in R6 as [-> L6].
  bind_inv E dc m7 R7. apply read_exact_ok in R7 as [-> L7].
  bind_inv E ts m8 R8. apply read_i64_ok in R8 as [-> L8].
  bind_inv E nl m9 R9. apply read_uint_ok in R9 as [-> L9].
  destruct (Nat.eqb_spec (N.to_nat nl) NONCE_LEN) as [El|]; [|done]. cbn [negb] in E.
  bind_inv E nc m10 R10. apply read_exact_ok in R10 as [-> L10].
  bind_inv E sg m11 R11. apply read_exact_ok in R11 as [-> L11].
  apply ret_ok in E as [<- ->]. split; [by constructor|].
  eexists. split; [apply write_handshake_ok; cbn; eauto|].
  rewrite R0, <- El, N2Nat.id, <- !app_assoc. done.
Qed.

Lemma read_handshake_write hs b rest : wf_handshake hs -> write_handshake hs = Ok b ->
  read_handshake (b ++ rest) = Ok (hs, rest).
Proof.
  intros [] (u & d & Hu & Hd & ->)%write_handshake_ok. rewrite <- !app_assoc. unfold read_handshake.
  eapply bind_ok. exists tt. eexists. split; [by apply read_header_ok|].
  eapply bind_ok. do 2 eexists. split; [apply read_string_ok; eauto|].
  eapply bind_ok. do 2 eexists. split; [apply read_string_ok; eauto|].
  eapply bind_ok. do 2 eexists. split; [by apply read_exact_ok|].
  eapply bind_ok. do 2 eexists. split; [by apply read_exact_ok|].
  eapply bind_ok. do 2 eexists. split; [by apply read_uint_ok|].
  eapply bind_ok. do 2 eexists. split; [by apply read_uint_ok|].
  eapply bind_ok. do 2 eexists. split; [by apply read_exact_ok|].
  eapply bind_ok. do 2 eexists. split; [by apply read_i64_ok|].
  eapply bind_ok. do 2 eexists. split; [by apply read_uint_ok|]. rewrite Nat2N.id, Nat.eqb_refl. cbn [negb].
  eapply bind_ok. do 2 eexists. split; [by apply read_exact_ok|].
  eapply bind_ok. do 2 eexists. split; [by apply read_exact_ok|]. apply ret_ok. by destruct hs as [? ? ? [] ? ? ?].
Qed.

(** The handshake reader accepts exactly the frames the writer produces: it returns a
    handshake and the unread rest if and only if that handshake is well formed (UTF-8 ids
    of at most 1024 bytes, fixed-size fields, integers in range) and the input is its
    written form followed by the rest; anything else, truncation and trailing-length
    tricks included, is an error. *)
Theorem handshake_wire_exact inp hs rest :
  read_handshake inp = Ok (hs, rest) <->
  wf_handshake hs /\ exists b, write_handshake hs = Ok b /\ inp = b ++ rest.
Proof.
  split; [apply read_handshake_inv|]. intros (Hw & b & Hb & ->). by apply read_handshake_write.
Qed.

Lemma from_to_code r : from_code (to_code r) = r.
Proof. by destruct r. Qed.

Lemma to_code_bound r : (to_code r < 256)%N.
Proof. by destruct r. Qed.

Lemma read_connect_write c b rest : wire_string (host c) -> (port c < 2 ^ 16)%N ->
  write_connect c = Ok b -> read_connect (b ++ rest) = Ok (c, rest).
Proof.
  intros Hh Hp. unfold write_connect. destruct (write_string (host c)) as [h|] eqn:Eh; [|done].
  intros <-%Ok_inj. rewrite <- !app_assoc. unfold read_connect.
  eapply bind_ok. exists tt. eexists. split; [by apply read_header_ok|].
  eapply bind_ok. do 2 eexists. split; [apply read_string_ok; eauto|].
  eapply bind_ok. do 2 eexists. split; [by apply read_uint_ok|]. apply ret_ok. by destruct c.
Qed.

(** What the client's reader makes of the relay's answer. *)
Lemma read_response_write r b rest : write_response r = Ok b ->
  read_response (b ++ rest) = match r with Ok _ => Ok (tt, rest) | Err reason => Err (Rejected reason) end.
Proof.
  destruct r as [[]|reason]; intros E; apply Ok_inj in E; subst b; [done|].
  destruct reason; reflexivity.
Qed.

(** A connect frame and a response frame read back: a connect frame whose host can be
    sent yields the same host and port, and the client reads the relay's answer as
    acceptance or as a rejection with the very reason the relay gave. *)
Theorem frames_roundtrip c r cb rb rest :
  wire_string (host c) -> (port c < 2 ^ 16)%N ->
  write_connect c = Ok cb -> write_response r = Ok rb ->
  read_connect (cb ++ rest) = Ok (c, rest) /\
  read_response (rb ++ rest) = match r with Ok _ => Ok (tt, rest) | Err reason => Err (Rejected reason) end.
Proof. intros. split; [by apply read_connect_write|by apply read_response_write]. Qed.

Lemma frames_roundtrip_witness :
  read_connect (as_bytes "" ++ [x02; x02; x00; x04] ++ as_bytes "a.io" ++ [x01; xbb] ++ [x07]) =
    Ok (mkConnect "a.io" 443, [x07]) /\
  read_response ([x02; x01; x06; x00; x00] ++ [x07]) = Err (Rejected RateLimited).
Proof.
  exact (frames_roundtrip (mkConnect "a.io" 443) (Err RateLimited)
    ([x02; x02; x00; x04] ++ as_bytes "a.io" ++ [x01; xbb]) [x02; x01; x06; x00; x00] [x07]
    ltac:(split; [vm_compute; lia|reflexivity]) ltac:(reflexivity) ltac:(reflexivity) ltac:(reflexivity)).
Defined.
End Frames.

(** ** Admission *)

Section Admission.
Import DeviceCert Proto.

Lemma wrap_i64_shift z : (2 ^ 63 <= z < 2 ^ 64)%Z -> wrap_i64 z = (z - 2 ^ 64)%Z.
Proof.
  intros Hz. unfold wrap_i64, u64_to_i64, i64_to_u64. rewrite Z.mod_small by lia.
  rewrite Z2N.id, Z.mod_small by lia. destruct (Z.ltb_spec z (2 ^ 63)); lia.
Qed.

(** A difference of times tested by [i64::abs] against 300: in range, or off by exactly
    [2^63], where [abs] overflows. *)
Lemma window_exact now ts : (0 <= now < 2 ^ 62)%Z -> i64_range ts ->
  negb (300 <? abs_i64 (wrap_i64 (now - ts)))%Z = true <-> (Z.abs (now - ts) <= 300)%Z \/ ts = (now - 2 ^ 63)%Z.
Proof.
  unfold i64_range, abs_i64. intros Hn Ht. rewrite negb_true_iff, Z.ltb_ge.
  destruct (decide (now - ts < 2 ^ 63)%Z) as [Hd|Hd].
  - rewrite (wrap_i64_id (now - ts)) by (unfold i64_range; lia).
    rewrite wrap_i64_id by (unfold i64_range; lia). lia.
  - rewrite (wrap_i64_shift (now - ts)) by lia. destruct (decide (now - ts = 2 ^ 63)%Z) as [E|E].
    + rewrite E. split; [lia|]. intros _. vm_compute. done.
    + rewrite wrap_i64_id by (unfold i64_range; lia). lia.
Qed.

(** With the clock between 1970 and second [2^62], the relay's skew test passes exactly for timestamps
    within 300 seconds of it, and for the single timestamp [now - 2^63], at which the
    subtraction and then [abs] overflow to a negative number. *)
Theorem skew_exact now ts :
  (0 <= now < 2 ^ 62)%Z -> i64_range ts ->
  skew_ok now ts = true <-> (Z.abs (now - ts) <= 300)%Z \/ ts = (now - 2 ^ 63)%Z.
Proof. exact (window_exact now ts). Qed.

Lemma skew_exact_witness :
  skew_ok 1700000000 (1700000000 - 2 ^ 63) = true <->
  (Z.abs (1700000000 - (1700000000 - 2 ^ 63)) <= 300)%Z \/ (1700000000 - 2 ^ 63 = 1700000000 - 2 ^ 63)%Z.
Proof. exact (skew_exact 1700000000 (1700000000 - 2 ^ 63) ltac:(lia) ltac:(unfold i64_range; lia)). Defined.

Context `{Sha256} `{!Ed25519} `{!Ed25519Laws}.

Lemma verify_device_cert_ok a d k v t c :
  verify_device_cert a d k v t c = Ok tt <->
  length a = 32 /\ length c = 64 /\ exists vk payload, vk_from_bytes a = Some vk /\
    device_cert_signed_payload d k v t = Ok payload /\ ed_verify vk payload c = true.
Proof.
  unfold verify_device_cert.
  destruct (Nat.eqb_spec (length a) 32); [|naive_solver]. destruct (Nat.eqb_spec (length c) 64); [|naive_solver].
  cbn [negb]. unfold ok_or. destruct (vk_from_bytes a) as [vk|]; [|naive_solver].
  destruct (device_cert_signed_payload d k v t) as [p|]; [|naive_solver].
  cbn. destruct (ed_verify vk p c) eqn:E; split; intros Hx; try done.
  - split_and!; try done. by exists vk, p.
  - destruct Hx as (_ & _ & vk' & p' & [= <-] & [= <-] & ?). congruence.
Qed.

Lemma mint_verifies account device pub v t c : mint account device pub v t = Some c ->
  verify_device_cert (account_id_pub c) device pub v t (device_cert c) = Ok tt /\
  identity_version c = v /\ issued_at c = t /\ length (account_id_pub c) = 32 /\ length (device_cert c) = 64.
Proof.
  unfold mint. destruct (device_cert_signed_payload device pub v t) as [p|] eqn:E; [|done].
  intros [= <-]. cbn. rewrite vk_to_bytes_length, ed_sign_length. split_and!; try done.
  apply verify_device_cert_ok. rewrite vk_to_bytes_length, ed_sign_length. split_and!; try done.
  exists (verifying_key account), p. by rewrite vk_from_to_bytes, E, ed_verify_sign.
Qed.

Lemma verify_handshake_ok hs now vc : verify_handshake hs now = Ok vc <->
  user_id hs <> "" /\ device_id hs <> "" /\ skew_ok now (timestamp hs) = true /\
  (exists dk, vk_from_bytes (device_signing_pub hs) = Some dk /\
     ed_verify dk (handshake_canonical_bytes (user_id hs) (device_id hs) (timestamp hs) (nonce hs))
       (signature hs) = true) /\
  verify_device_cert (account_id_pub (cert hs)) (device_id hs) (device_signing_pub hs)
    (identity_version (cert hs)) (issued_at (cert hs)) (device_cert (cert hs)) = Ok tt /\
  vc = mkVerified (user_id hs) (account_id_pub (cert hs)).
Proof.
  unfold verify_handshake. destruct (decide (user_id hs = "")) as [->|Hu]; [naive_solver|].
  rewrite (bool_decide_eq_false_2 _ Hu). destruct (decide (device_id hs = "")) as [->|Hd]; [naive_solver|].
  rewrite (bool_decide_eq_false_2 _ Hd). cbn [orb].
  destruct (skew_ok now (timestamp hs)); [|naive_solver]. cbn [negb].
  unfold ok_or. destruct (vk_from_bytes (device_signing_pub hs)) as [dk|]; [|naive_solver].
  cbn [rbind]. destruct (ed_verify dk _ _) eqn:Es; cbn [negb].
  2:{ split; [done|]. intros (_ & _ & _ & (dk' & [= <-] & ?) & _). congruence. }
  destruct (verify_device_cert _ _ _ _ _ _) as [[]|] eqn:Ec; cbn; [|naive_solver].
  split; [intros E%Ok_inj; split_and!; try done; by exists dk|]. by intros (_ & _ & _ & _ & _ & ->).
Qed.

(** The relay never fails open: it admits a client only if both ids are non-empty, the
    timestamp passes the skew test, the handshake signature verifies under the presented
    device key over the canonical message, and the account key's signature verifies over
    the certificate payload for that very device id, device key, version and issue time;
    it returns the handshake's user id and account key, and every failure is
    [Unauthorized]. *)
Theorem verify_handshake_sound hs now :
  match verify_handshake hs now with
  | Ok vc =>
      user_id hs <> "" /\ device_id hs <> "" /\ skew_ok now (timestamp hs) = true /\
      vc = mkVerified (user_id hs) (account_id_pub (cert hs)) /\
      exists dk ak payload,
        vk_from_bytes (device_signing_pub hs) = Some dk /\
        ed_verify dk (handshake_canonical_bytes (user_id hs) (device_id hs) (timestamp hs) (nonce hs))
          (signature hs) = true /\
        vk_from_bytes (account_id_pub (cert hs)) = Some ak /\
        device_cert_signed_payload (device_id hs) (device_signing_pub hs)
          (identity_version (cert hs)) (issued_at (cert hs)) = Ok payload /\
        ed_verify ak payload (device_cert (cert hs)) = true
  | Err reason => reason = Unauthorized
  end.
Proof.
  destruct (verify_handshake hs now) as [vc|reason] eqn:E.
  - apply verify_handshake_ok in E as (? & ? & ? & (dk & ? & ?) & (_ & _ & ak & p & ? & ? & ?)%verify_device_cert_ok & ->).
    split_and!; try done. by exists dk, ak, p.
  - unfold verify_handshake, ok_or in E. repeat case_match; simplify_eq; try done;
      destruct (vk_from_bytes (device_signing_pub hs)); cbn in *; try congruence;
      repeat case_match; try congruence;
      destruct (verify_device_cert _ _ _ _ _ _); cbn in *; congruence.
Qed.

Lemma sign_handshake_accepted account device_sk user device c v t ts n now :
  mint account device (vk_to_bytes (verifying_key device_sk)) v t = Some c ->
  user <> "" -> device <> "" -> skew_ok now ts = true ->
  verify_handshake (sign_handshake device_sk user device c ts n) now =
    Ok (mkVerified user (account_id_pub c)).
Proof.
  intros (Hc & Hv & Ht & _)%mint_verifies Hu Hd Hs. apply verify_handshake_ok. cbn.
  split_and!; try done; [|by rewrite Hv, Ht].
  exists (verifying_key device_sk). by rewrite vk_from_to_bytes, ed_verify_sign.
Qed.

(** End to end over the wire: a handshake signed by a device key, carrying a
    certificate the account key minted for that key, is written, read back by the relay as
    the same handshake, and admitted under the account key, for every timestamp within the
    skew.  The user id is not part of the certificate: the statement holds for every
    [user] the client writes. *)
Theorem minted_handshake_admitted account device_sk user device c v t ts n now rest :
  mint account device (vk_to_bytes (verifying_key device_sk)) v t = Some c ->
  wire_string user -> wire_string device -> user <> "" -> device <> "" ->
  (v < 2 ^ 32)%N -> (t < 2 ^ 64)%N -> i64_range ts -> length n = NONCE_LEN -> skew_ok now ts = true ->
  exists b, write_handshake (sign_handshake device_sk user device c ts n) = Ok b /\
    read_handshake (b ++ rest) = Ok (sign_handshake device_sk user device c ts n, rest) /\
    verify_handshake (sign_handshake device_sk user device c ts n) now =
      Ok (mkVerified user (account_id_pub c)).
Proof.
  intros Hm Hu Hd Nu Nd Hv Ht Hts Hn Hs.
  destruct (mint_verifies _ _ _ _ _ _ Hm) as (_ & Ev & Et & La & Lc).
  assert (wf_handshake (sign_handshake device_sk user device c ts n)) as Hwf.
  { constructor; cbn; try done; [apply vk_to_bytes_length|by rewrite Ev|by rewrite Et|apply ed_sign_length]. }
  destruct (write_handshake (sign_handshake device_sk user device c ts n)) as [b|e] eqn:Eb.
  - exists b. split_and!; [done|by apply read_handshake_write|by eapply sign_handshake_accepted].
  - exfalso. destruct Hu as [Hu _], Hd as [Hd _]. unfold write_handshake in Eb. cbn in Eb.
    rewrite (proj2 (write_string_ok user _) (conj Hu eq_refl)) in Eb. cbn in Eb.
    rewrite (proj2 (write_string_ok device _) (conj Hd eq_refl)) in Eb. done.
Qed.
End Admission.

(** ** What the signed message binds *)

Section Canonical.
Import Proto.
Context `{Sha256} `{!Sha256Laws}.

Lemma split_newline (a a' r r' : bytes) : x0a ∉ a -> x0a ∉ a' ->
  a ++ newline ++ r = a' ++ newline ++ r' -> a = a' /\ r = r'.
Proof.
  revert a'. induction a as [|x a IH]; intros [|y a'] Ha Ha' E; cbn in E; simplify_eq; try done.
  - destruct Ha'. apply list_elem_of_here.
  - destruct Ha. apply list_elem_of_here.
  - rewrite not_elem_of_cons in Ha, Ha'. destruct Ha, Ha', (IH a') as [-> ->]; done.
Qed.

Lemma length_hex_lower b : length (hex_lower b) = 2 * length b.
Proof. induction b as [|x b IH]; cbn; [done|]. rewrite IH. lia. Qed.

Lemma hex_digits_agree (x : byte) :
  hex_digit (N.shiftr (N_of_byte x) 4) = LowerHex.hex_digit (N.shiftr (N_of_byte x) 4) /\
  hex_digit (N.land (N_of_byte x) 0x0f) = LowerHex.hex_digit (N.land (N_of_byte x) 15).
Proof. by destruct x. Qed.

Lemma hex_lower_encode b : hex_lower b = LowerHex.encode_bytes b.
Proof.
  induction b as [|x b IH]; [done|]. cbn [hex_lower LowerHex.encode_bytes].
  destruct (hex_digits_agree x) as [-> ->]. by rewrite IH.
Qed.

Lemma hex_lower_inj a b : hex_lower a = hex_lower b -> a = b.
Proof.
  rewrite !hex_lower_encode. intros E. apply (@Ok_inj _ FromHexError).
  by rewrite <- (LowerHex.decode_encode_bytes a 0), E, LowerHex.decode_encode_bytes.
Qed.

(** The signed handshake message determines who speaks and when: for ids without a
    newline, equal canonical messages have the same user, device and timestamp and nonces
    of the same digest. *)
Theorem handshake_message_binds u u' d d' t t' n n' :
  x0a ∉ as_bytes u -> x0a ∉ as_bytes u' -> x0a ∉ as_bytes d -> x0a ∉ as_bytes d' ->
  handshake_canonical_bytes u d t n = handshake_canonical_bytes u' d' t' n' ->
  u = u' /\ d = d' /\ t = t' /\ sha256 n = sha256 n'.
Proof.
  unfold handshake_canonical_bytes. intros Hu Hu' Hd Hd' E. do 2 apply app_inv_head in E.
  apply split_newline in E as [Eu%as_bytes_inj E]; [|done..].
  apply split_newline in E as [Ed%as_bytes_inj E]; [|done..].
  rewrite !app_assoc in E. apply app_inj_2 in E as [E En]; [|by rewrite !length_hex_lower, !sha256_length].
  apply app_inv_tail in E. split_and!; [done|done|by apply as_bytes_inj, (inj pretty) in E|by apply hex_lower_inj].
Qed.

(** Ids with newlines are ambiguous: for every timestamp and nonce, user "a", newline,
    "b" on device "c" and user "a" on device "b", newline, "c" sign the same message (the
    certificate, which binds the device id, is what tells them apart). *)
Theorem handshake_message_ambiguous t n :
  handshake_canonical_bytes (of_bytes (as_bytes "a" ++ newline ++ as_bytes "b")) "c" t n =
  handshake_canonical_bytes "a" (of_bytes (as_bytes "b" ++ newline ++ as_bytes "c")) t n.
Proof. reflexivity. Qed.
End Canonical.

Lemma handshake_message_binds_witness :
  let m := Proto.handshake_canonical_bytes "alice" "phone" (-3) [x01] in
  "alice" = "alice" /\ "phone" = "phone" /\ (-3 = -3)%Z /\ sha256 [x01] = sha256 [x01].
Proof.
  exact (handshake_message_binds "alice" "alice" "phone" "phone" (-3) (-3) [x01] [x01]
    ltac:(apply (bool_decide_unpack _); reflexivity) ltac:(apply (bool_decide_unpack _); reflexivity)
    ltac:(apply (bool_decide_unpack _); reflexivity) ltac:(apply (bool_decide_unpack _); reflexivity) eq_refl).
Defined.

(** A relay handshake with concrete keys, admitted and read back. *)
Section AdmissionWitness.
Import DeviceCert Proto.

#[local] Definition account_key : SigningKey := ClearSig.repeat_seed x05.

#[local] Definition device_key : SigningKey := ClearSig.repeat_seed x06.

#[local] Definition sample_nonce : bytes := repeat x09 32.

Lemma minted_handshake_admitted_witness :
  exists c b,
    mint account_key "phone" (vk_to_bytes (verifying_key device_key)) 1 1700000000 = Some c /\
    write_handshake (sign_handshake device_key "alice" "phone" c 1700000000 sample_nonce) = Ok b /\
    read_handshake (b ++ [x00]) = Ok (sign_handshake device_key "alice" "phone" c 1700000000 sample_nonce, [x00]) /\
    verify_handshake (sign_handshake device_key "alice" "phone" c 1700000000 sample_nonce) 1700000100 =
      Ok (mkVerified "alice" (account_id_pub c)).
Proof.
  destruct (mint account_key "phone" (vk_to_bytes (verifying_key device_key)) 1 1700000000) as [c|] eqn:E;
    [|vm_compute in E; discriminate E].
  destruct (minted_handshake_admitted account_key device_key "alice" "phone" c 1 1700000000 1700000000
    sample_nonce 1700000100 [x00]) as (b & Hb); try done; try lia;
    [split; [vm_compute; lia|reflexivity]..|].
  by exists c, b.
Defined.
End AdmissionWitness.
