(* ===== verification/Overlay.v ===== *)
(** * pollis-relay: host patterns, routing policy, rate limiter, stream handler

    Models [pollis-relay/src/server.rs] ([HostPattern], [Allowlist], [RelayStats],
    [handle_stream], [dial_target]), [policy.rs], the upstream half of [shim.rs] and
    [ratelimit.rs].  Sockets are parameters: what a dial answers is an argument.  The
    limiter's four maps are each behind their own mutex; a critical section is one
    function on [RateLimiter], [admit] composes them as one thread runs them, and [step]
    lets the critical sections of any number of threads interleave.  Token counts are
    [f64]: IEEE 754 binary64 as specified by the Standard Library's [SpecFloat]. *)

From stdpp Require Import base list strings gmap.
From Stdlib Require Import NArith ZArith Lia ZifyNat ZifyN.
From Stdlib Require Import Strings.Byte Floats.SpecFloat.
From S2P Require Import Prelude Crypto Relay.

(** ** Host patterns and the allowlist *)

Module Hosts.

(** [str::to_ascii_lowercase], [str::strip_prefix], [str::ends_with]. *)
Definition ascii_lower (b : byte) : byte :=
  let n := N_of_byte b in
  if ((65 <=? n) && (n <=? 90))%N then byte_of_N (n + 32) else b.

Definition to_ascii_lowercase (s : string) : string := of_bytes (map ascii_lower (as_bytes s)).

Definition strip_prefix (p s : string) : option string :=
  if bool_decide (take (length (as_bytes p)) (as_bytes s) = as_bytes p)
  then Some (of_bytes (drop (length (as_bytes p)) (as_bytes s))) else None.

Definition ends_with (s suffix : string) : bool :=
  bool_decide (drop (length (as_bytes s) - length (as_bytes suffix)) (as_bytes s) = as_bytes suffix).

Inductive HostPattern : Type :=
| Exact (h : string)
| Suffix (suffix : string)
| Any.

Definition parse (s : string) : HostPattern :=
  if bool_decide (s = "*") then Any
  else match strip_prefix "*." s with
       | Some rest => Suffix (String.append "." (to_ascii_lowercase rest))
       | None => Exact (to_ascii_lowercase s)
       end.

Definition matches (p : HostPattern) (host : string) : bool :=
  let host := to_ascii_lowercase host in
  match p with
  | Any => true
  | Exact h => bool_decide (h = host)
  | Suffix suffix => ends_with host suffix
  end.

Definition Allowlist : Type := list HostPattern.

Definition from_patterns (patterns : list string) : Allowlist := map parse patterns.

Definition permits (a : Allowlist) (host : string) : bool := existsb (fun p => matches p host) a.

End Hosts.

(** ** policy.rs and the upstream half of shim.rs *)

Module Policy.
Import Hosts.

Inductive OverlayMode : Type := Off | Prefer | Strict.

Definition as_u8 (m : OverlayMode) : N := match m with Off => 0 | Prefer => 1 | Strict => 2 end.

Definition from_u8 (v : N) : OverlayMode := match v with 1 => Prefer | 2 => Strict | _ => Off end%N.

Inductive PlannedRoute : Type :=
| Direct
| Overlay (fallback_to_direct : bool).

Inductive FinalAction : Type := FinalDirect | FinalOverlay | Degraded.

(** [mode_cell] is the value of the shared [AtomicU8]. *)
Record RoutingPolicy := mkPolicy {
  mode_cell : N;
  overlay_hosts : list HostPattern;
  direct_hosts : list HostPattern
}.

Definition RoutingPolicy_new (m : OverlayMode) (overlay direct : Allowlist) : RoutingPolicy :=
  mkPolicy (as_u8 m) overlay direct.

Definition mode (p : RoutingPolicy) : OverlayMode := from_u8 (mode_cell p).

Definition set_mode (p : RoutingPolicy) (m : OverlayMode) : RoutingPolicy :=
  mkPolicy (as_u8 m) (overlay_hosts p) (direct_hosts p).

Definition is_direct_host (p : RoutingPolicy) (h : string) : bool :=
  existsb (fun pat => matches pat h) (direct_hosts p).

Definition is_overlay_host (p : RoutingPolicy) (h : string) : bool :=
  existsb (fun pat => matches pat h) (overlay_hosts p).

Definition plan (p : RoutingPolicy) (h : string) : PlannedRoute :=
  if is_direct_host p h then Direct
  else match mode p with
       | Off => Direct
       | Prefer => if is_overlay_host p h then Overlay true else Direct
       | Strict => if is_overlay_host p h then Overlay false else Direct
       end.

Definition reconcile (plan : PlannedRoute) (overlay_ok : option bool) : FinalAction :=
  match plan with
  | Direct => FinalDirect
  | Overlay fallback =>
      match overlay_ok with
      | Some true => FinalOverlay
      | Some false => if fallback then FinalDirect else Degraded
      | None => Degraded
      end
  end.

(** A dial the shim made, in order; [circuit] and [direct] answer the two kinds. *)
Inductive Dial : Type :=
| CircuitDial (host : string) (port : N)
| DirectDial (host : string) (port : N).

Section Upstream.
Context {Stream : Type} (circuit direct : string -> N -> option Stream).

Definition direct_connect (host : string) (port : N) : list Dial * Result Stream FinalAction :=
  ([DirectDial host port], ok_or (direct host port) FinalDirect).

Definition establish_upstream (pl : PlannedRoute) (host : string) (port : N)
    : list Dial * Result Stream FinalAction :=
  match pl with
  | Direct => direct_connect host port
  | Overlay fallback =>
      match circuit host port with
      | Some s => ([CircuitDial host port], Ok s)
      | None =>
          if fallback then
            let (ds, r) := direct_connect host port in (CircuitDial host port :: ds, r)
          else ([CircuitDial host port], Err Degraded)
      end
  end.
End Upstream.

End Policy.

(** ** ratelimit.rs *)

Module Limiter.

Inductive IpAddr : Type := V4 (a : N) | V6 (a : N).

#[export] Instance IpAddr_eq_dec : EqDecision IpAddr.
Proof. solve_decision. Defined.

#[export] Instance IpAddr_countable : Countable IpAddr :=
  inj_countable' (fun ip => match ip with V4 a => inl a | V6 a => inr a end)
    (fun s => match s with inl a => V4 a | inr a => V6 a end)
    (fun ip => match ip with V4 _ => eq_refl | V6 _ => eq_refl end).

(** *** f64 *)

Definition f64 : Type := spec_float.
Definition f64_of_N (n : N) : f64 := binary_normalize 53 1024 (Z.of_N n) 0 false.
Definition f64_add : f64 -> f64 -> f64 := SFadd 53 1024.
Definition f64_sub : f64 -> f64 -> f64 := SFsub 53 1024.
Definition f64_mul : f64 -> f64 -> f64 := SFmul 53 1024.
Definition f64_div : f64 -> f64 -> f64 := SFdiv 53 1024.

Definition f64_min (a b : f64) : f64 :=
  match a, b with
  | S754_nan, _ => b
  | _, S754_nan => a
  | _, _ => if SFltb b a then b else a
  end.

(** An [Instant] is a count of nanoseconds; [Duration::as_secs_f64]. *)
Definition as_secs_f64 (nanos : N) : f64 :=
  f64_add (f64_of_N (nanos / 1000000000))
          (f64_div (f64_of_N (nanos mod 1000000000)) (f64_of_N 1000000000)).

Record RateLimitConfig := mkConfig {
  new_circuits_per_min_per_ip : N;
  new_circuits_per_min_per_account : N;
  max_concurrent_per_ip : N;
  max_concurrent_per_account : N
}.

Definition RateLimitConfig_default : RateLimitConfig := mkConfig 600 600 256 128.

Record TokenBucket := mkBucket {
  tokens : f64;
  capacity : f64;
  refill_per_sec : f64;
  last : N
}.

Definition TokenBucket_new (per_min now : N) : TokenBucket :=
  let capacity := f64_of_N (N.max per_min 1) in
  mkBucket capacity capacity (f64_div capacity (f64_of_N 60)) now.

(** [now - last] on [N] is [saturating_duration_since]. *)
Definition try_take (b : TokenBucket) (now : N) : bool * TokenBucket :=
  let dt := as_secs_f64 (now - last b) in
  let t := f64_min (f64_add (tokens b) (f64_mul dt (refill_per_sec b))) (capacity b) in
  if SFleb (f64_of_N 1) t
  then (true, mkBucket (f64_sub t (f64_of_N 1)) (capacity b) (refill_per_sec b) now)
  else (false, mkBucket t (capacity b) (refill_per_sec b) now).

Record RateLimiter := mkLimiter {
  cfg : RateLimitConfig;
  ip_buckets : gmap IpAddr TokenBucket;
  account_buckets : gmap bytes TokenBucket;
  ip_active : gmap IpAddr N;
  account_active : gmap bytes N
}.

Definition RateLimiter_new (c : RateLimitConfig) : RateLimiter := mkLimiter c ∅ ∅ ∅ ∅.

Definition set_ip_active (l : RateLimiter) m :=
  mkLimiter (cfg l) (ip_buckets l) (account_buckets l) m (account_active l).

Definition set_account_active (l : RateLimiter) m :=
  mkLimiter (cfg l) (ip_buckets l) (account_buckets l) (ip_active l) m.

(** A counter bumped under its cap; [entry(k).or_insert(0)] leaves the entry behind. *)
Definition reserve `{Countable K} (cap : N) (m : gmap K N) (k : K) : bool * gmap K N :=
  let n := default 0%N (m !! k) in
  if (cap <=? n)%N then (false, <[k := n]> m) else (true, <[k := (n + 1)%N]> m).

(** [N] subtraction saturates. *)
Definition release `{Countable K} (m : gmap K N) (k : K) : gmap K N :=
  match m !! k with
  | Some n => if (n - 1 =? 0)%N then delete k m else <[k := (n - 1)%N]> m
  | None => m
  end.

Definition reserve_ip (l : RateLimiter) (ip : IpAddr) : bool * RateLimiter :=
  let (ok, m) := reserve (max_concurrent_per_ip (cfg l)) (ip_active l) ip in (ok, set_ip_active l m).

Definition reserve_account (l : RateLimiter) (a : bytes) : bool * RateLimiter :=
  let (ok, m) := reserve (max_concurrent_per_account (cfg l)) (account_active l) a in
  (ok, set_account_active l m).

Definition release_ip (l : RateLimiter) (ip : IpAddr) : RateLimiter :=
  set_ip_active l (release (ip_active l) ip).

Definition release_account (l : RateLimiter) (a : bytes) : RateLimiter :=
  set_account_active l (release (account_active l) a).

(** [buckets.entry(k).or_insert_with(new).try_take(now)]. *)
Definition take_token `{Countable K} (per_min now : N) (m : gmap K TokenBucket) (k : K)
    : bool * gmap K TokenBucket :=
  let (ok, b) := try_take (default (TokenBucket_new per_min now) (m !! k)) now in (ok, <[k := b]> m).

Definition take_ip (l : RateLimiter) (ip : IpAddr) (now : N) : bool * RateLimiter :=
  let (ok, m) := take_token (new_circuits_per_min_per_ip (cfg l)) now (ip_buckets l) ip in
  (ok, mkLimiter (cfg l) m (account_buckets l) (ip_active l) (account_active l)).

Definition take_account (l : RateLimiter) (a : bytes) (now : N) : bool * RateLimiter :=
  let (ok, m) := take_token (new_circuits_per_min_per_account (cfg l)) now (account_buckets l) a in
  (ok, mkLimiter (cfg l) (ip_buckets l) m (ip_active l) (account_active l)).

(** [Drop] of the guard held for [(ip, account)]. *)
Definition drop_guard (l : RateLimiter) (ip : IpAddr) (a : bytes) : RateLimiter :=
  release_account (release_ip l ip) a.

(** [true] is [Some(guard)]. *)
Definition RateLimiter_admit (l : RateLimiter) (ip : IpAddr) (a : bytes) (now : N) : bool * RateLimiter :=
  let (ok, l) := reserve_ip l ip in
  if negb ok then (false, l)
  else
    let (ok, l) := reserve_account l a in
    if negb ok then (false, release_ip l ip)
    else
      let (ip_ok, l) := take_ip l ip now in
      let (account_ok, l) := take_account l a now in
      if negb ip_ok || negb account_ok then (false, release_account (release_ip l ip) a)
      else (true, l).

End Limiter.

(** ** The stream handler of server.rs *)

Module Server.
Import DeviceCert Proto Hosts Limiter.

Record RelayStats := mkStats { authorized : N; rejected : N; rate_limited : N; dials : N }.

(** [fetch_add(1)] on an [AtomicU64]. *)
Definition bump (n : N) : N := as_u64 (n + 1).

Definition count_authorized (s : RelayStats) :=
  mkStats (bump (authorized s)) (rejected s) (rate_limited s) (dials s).

Definition count_rejected (s : RelayStats) :=
  mkStats (authorized s) (bump (rejected s)) (rate_limited s) (dials s).

Definition count_rate_limited (s : RelayStats) :=
  mkStats (authorized s) (rejected s) (bump (rate_limited s)) (dials s).

Definition count_dial (s : RelayStats) :=
  mkStats (authorized s) (rejected s) (rate_limited s) (bump (dials s)).

(** The state the handlers share, and its immutable part. *)
Record RelayInner := mkInner {
  allowlist : Allowlist;
  resolve_overrides : gmap string IpAddr;
  rate_limiter : RateLimiter;
  stats : RelayStats
}.

Definition with_limiter (i : RelayInner) (l : RateLimiter) : RelayInner :=
  mkInner (allowlist i) (resolve_overrides i) l (stats i).

Definition with_stats (i : RelayInner) (s : RelayStats) : RelayInner :=
  mkInner (allowlist i) (resolve_overrides i) (rate_limiter i) s.

Inductive Target : Type :=
| ByIp (ip : IpAddr) (port : N)
| ByName (host : string) (port : N).

Definition dial_target (c : Connect) (overrides : gmap string IpAddr) : Target :=
  match overrides !! host c with
  | Some ip => ByIp ip (port c)
  | None => ByName (host c) (port c)
  end.

(** What one stream did: the shared state it left, the response it wrote, the target it
    dialed and whether bytes were piped to it. *)
Record StreamEnd := mkEnd {
  end_inner : RelayInner;
  response : Result unit RejectReason;
  dialed : option Target;
  piped : bool
}.

Section Stream.
Context `{Sha256} `{Ed25519}.

(** [dial] answers a connection attempt, [send_ok] whether the acceptance could be written;
    [now] is the unix clock and [instant] the monotonic one.  Past admission every return
    drops the guard. *)
Definition handle_stream (dial : Target -> bool) (send_ok : bool) (inner : RelayInner)
    (recv : bytes) (peer_ip : IpAddr) (now : Z) (instant : N) : StreamEnd :=
  match read_handshake recv with
  | Err _ => mkEnd (with_stats inner (count_rejected (stats inner))) (Err BadRequest) None false
  | Ok (handshake, recv) =>
      match verify_handshake handshake now with
      | Err reason => mkEnd (with_stats inner (count_rejected (stats inner))) (Err reason) None false
      | Ok verified =>
          let inner := with_stats inner (count_authorized (stats inner)) in
          let account := vc_account_id_pub verified in
          match RateLimiter_admit (rate_limiter inner) peer_ip account instant with
          | (false, l) =>
              mkEnd (with_stats (with_limiter inner l)
                       (count_rate_limited (count_rejected (stats inner))))
                (Err RateLimited) None false
          | (true, l) =>
              let inner := with_limiter inner (drop_guard l peer_ip account) in
              match read_connect recv with
              | Err _ => mkEnd inner (Err BadRequest) None false
              | Ok (connect, _) =>
                  if negb (permits (allowlist inner) (host connect)) then
                    mkEnd (with_stats inner (count_rejected (stats inner))) (Err NotAllowed) None false
                  else
                    let target := dial_target connect (resolve_overrides inner) in
                    if negb (dial target) then mkEnd inner (Err DialFailed) (Some target) false
                    else mkEnd (with_stats inner (count_dial (stats inner))) (Ok tt) (Some target) send_ok
              end
          end
      end
  end.
End Stream.

End Server.

(** ** Host matching *)

Section HostFacts.
Import Hosts.

Lemma strip_prefix_Some p s r : strip_prefix p s = Some r <-> as_bytes s = as_bytes p ++ as_bytes r.
Proof.
  unfold strip_prefix. destruct (bool_decide_reflect (take (length (as_bytes p)) (as_bytes s) = as_bytes p)) as [E|E].
  - split.
    + intros [= <-]. rewrite as_bytes_of_bytes, <- E at 1. apply eq_sym, take_drop.
    + intros Es. rewrite Es, drop_app_length. by rewrite of_bytes_as_bytes.
  - split; [done|]. intros Es. destruct E. by rewrite Es, take_app_length.
Qed.

Lemma ends_with_true s x : ends_with s x = true <-> exists b, as_bytes s = b ++ as_bytes x.
Proof.
  unfold ends_with. rewrite bool_decide_eq_true. split.
  - intros E. eexists. rewrite <- E. apply eq_sym, take_drop.
  - intros [b E]. rewrite E, length_app, Nat.add_sub. apply drop_app_length.
Qed.

(** What an entry of the allowlist stands for. *)
Definition entry_covers (p host : string) : Prop :=
  p = "*" \/
  (exists domain sub, p <> "*" /\ as_bytes p = as_bytes "*." ++ as_bytes domain /\
     as_bytes (to_ascii_lowercase host) = sub ++ as_bytes "." ++ as_bytes (to_ascii_lowercase domain)) \/
  (p <> "*" /\ (forall rest, as_bytes p <> as_bytes "*." ++ rest) /\
     to_ascii_lowercase host = to_ascii_lowercase p).

Lemma parse_matches p host : matches (parse p) host = true <-> entry_covers p host.
Proof.
  unfold parse, entry_covers. destruct (bool_decide_reflect (p = "*")) as [->|Hp].
  { split; [by left|done]. }
  destruct (strip_prefix "*." p) as [d|] eqn:Es; cbn [matches].
  - apply strip_prefix_Some in Es. rewrite ends_with_true. setoid_rewrite as_bytes_append. split.
    + intros [b E]. right; left. by exists d, b.
    + intros [?|[(d' & sub & _ & Ed & E)|(_ & Hn & _)]]; [done| |by destruct (Hn (as_bytes d))].
      rewrite Es in Ed. apply app_inv_head, as_bytes_inj in Ed as ->. by exists sub.
  - rewrite bool_decide_eq_true.
    assert (forall rest, as_bytes p <> as_bytes "*." ++ rest) as Hn.
    { intros r E. rewrite <- (as_bytes_of_bytes r) in E. apply strip_prefix_Some in E. congruence. }
    split; [by right; right|]. intros [?|[(d & _ & _ & E & _)|(_ & _ & E)]]; [done|by destruct (Hn (as_bytes d))|done].
Qed.

(** The relay's allowlist permits exactly the hosts its entries name, ignoring ASCII
    case: "*" names every host, "*.d" the hosts that end in a dot followed by [d] (neither
    [d] itself nor a host that merely ends in its letters), any other entry itself; an
    empty list names none. *)
Theorem permits_exact patterns host :
  permits (from_patterns patterns) host = true <-> exists p, p ∈ patterns /\ entry_covers p host.
Proof.
  unfold permits, from_patterns. rewrite existsb_exists. split.
  - intros (pat & (p & <- & Hp)%in_map_iff & Hm). exists p. rewrite <- parse_matches. by apply list_elem_of_In in Hp.
  - intros (p & Hp & Hc). exists (parse p). rewrite parse_matches. split; [|done].
    by apply in_map, list_elem_of_In.
Qed.

Example suffix_needs_dot :
  map (permits (from_patterns ["*.pollis.com"])) ["api.Pollis.com"; "pollis.com"; "evilpollis.com"]
  = [true; false; false].
Proof. reflexivity. Qed.
End HostFacts.

(** ** Routing *)

Section Routing.
Import Hosts Policy.
Context {Stream : Type} (circuit direct : string -> N -> option Stream).

Lemma mode_set_mode p m : mode (set_mode p m) = m.
Proof. by destruct m. Qed.

Lemma flips_keep_hosts ms p :
  overlay_hosts (fold_left set_mode ms p) = overlay_hosts p /\
  direct_hosts (fold_left set_mode ms p) = direct_hosts p.
Proof. revert p. induction ms as [|m ms IH]; intros p; [done|]. cbn. by destruct (IH (set_mode p m)) as [-> ->]. Qed.

Lemma plan_set_mode p ms m h : plan (set_mode (fold_left set_mode ms p) m) h =
  if is_direct_host p h then Direct
  else match m with
       | Off => Direct
       | Prefer => if is_overlay_host p h then Overlay true else Direct
       | Strict => if is_overlay_host p h then Overlay false else Direct
       end.
Proof.
  unfold plan. rewrite mode_set_mode. unfold is_direct_host, is_overlay_host. cbn [set_mode overlay_hosts direct_hosts].
  by destruct (flips_keep_hosts ms p) as [-> ->].
Qed.

Lemma dials_direct h port :
  (DirectDial h port ∈ [DirectDial h port] <-> True) /\
  (DirectDial h port ∈ [CircuitDial h port] <-> False) /\
  (DirectDial h port ∈ [CircuitDial h port; DirectDial h port] <-> True).
Proof. rewrite !elem_of_cons, !elem_of_nil. intuition congruence. Qed.

(** After any sequence of live mode switches ending in [m], the shim dials the target
    outside the overlay exactly if it is a media host, or not a control-plane host, or the
    mode is Off, or the mode is Prefer and the circuit failed; it reports a degraded error
    exactly if the mode is Strict, the target is a control-plane host and the circuit
    failed.  In particular Strict never goes direct for a control-plane host. *)
Theorem routing_exact p ms m h port :
  let '(ds, r) := establish_upstream circuit direct
    (plan (set_mode (fold_left set_mode ms p) m) h) h port in
  (DirectDial h port ∈ ds <->
     is_direct_host p h = true \/ is_overlay_host p h = false \/ m = Off \/
     (m = Prefer /\ circuit h port = None)) /\
  (r = Err Degraded <->
     m = Strict /\ is_direct_host p h = false /\ is_overlay_host p h = true /\ circuit h port = None) /\
  (forall s, r = Ok s -> circuit h port = Some s \/ direct h port = Some s).
Proof.
  rewrite plan_set_mode. unfold establish_upstream, direct_connect, ok_or.
  destruct (dials_direct h port) as (I1 & I2 & I3).
  destruct (is_direct_host p h), (is_overlay_host p h), m, (circuit h port) as [s|], (direct h port) as [s'|];
    cbn; rewrite ?I1, ?I2, ?I3; intuition congruence.
Qed.
End Routing.

(** ** The limiter under interleaving

    A circuit is one admission in progress, or a guard; its stage says which critical
    section its thread runs next. *)

Module LimiterRun.
Import Limiter.

Inductive Stage : Type :=
| IpHeld                                 (* [reserve_ip] succeeded *)
| AccountRefused                         (* [reserve_account] failed *)
| BothHeld                               (* [reserve_account] succeeded *)
| IpTaken (ip_ok : bool) (now : N)       (* the IP bucket was asked *)
| Live                                   (* [admit] returned the guard *)
| Unwinding                              (* a bucket refused, or the guard is dropped *)
| IpReleased.                            (* [release_ip] done, [release_account] not *)

Record Circuit := mkCircuit { stage : Stage; c_ip : IpAddr; c_account : bytes }.

(** The slots a circuit holds. *)
Definition held_ip (c : Circuit) : option IpAddr :=
  match stage c with IpReleased => None | _ => Some (c_ip c) end.

Definition held_account (c : Circuit) : option bytes :=
  match stage c with IpHeld | AccountRefused => None | _ => Some (c_account c) end.

Definition World : Type := RateLimiter * list Circuit.

Inductive step : World -> World -> Prop :=
| step_reserve_ip l l' cs ip a :
    reserve_ip l ip = (true, l') -> step (l, cs) (l', mkCircuit IpHeld ip a :: cs)
| step_refuse_ip l l' cs ip :
    reserve_ip l ip = (false, l') -> step (l, cs) (l', cs)
| step_reserve_account l l' cs1 cs2 ip a ok :
    reserve_account l a = (ok, l') ->
    step (l, cs1 ++ mkCircuit IpHeld ip a :: cs2)
         (l', cs1 ++ mkCircuit (if ok then BothHeld else AccountRefused) ip a :: cs2)
| step_refused l cs1 cs2 ip a :
    step (l, cs1 ++ mkCircuit AccountRefused ip a :: cs2) (release_ip l ip, cs1 ++ cs2)
| step_take_ip l l' cs1 cs2 ip a now ok :
    take_ip l ip now = (ok, l') ->
    step (l, cs1 ++ mkCircuit BothHeld ip a :: cs2) (l', cs1 ++ mkCircuit (IpTaken ok now) ip a :: cs2)
| step_take_account l l' cs1 cs2 ip a now ip_ok ok :
    take_account l a now = (ok, l') ->
    step (l, cs1 ++ mkCircuit (IpTaken ip_ok now) ip a :: cs2)
         (l', cs1 ++ mkCircuit (if ip_ok && ok then Live else Unwinding) ip a :: cs2)
| step_drop l cs1 cs2 ip a :
    step (l, cs1 ++ mkCircuit Live ip a :: cs2) (l, cs1 ++ mkCircuit Unwinding ip a :: cs2)
| step_release_ip l cs1 cs2 ip a :
    step (l, cs1 ++ mkCircuit Unwinding ip a :: cs2)
         (release_ip l ip, cs1 ++ mkCircuit IpReleased ip a :: cs2)
| step_release_account l cs1 cs2 ip a :
    step (l, cs1 ++ mkCircuit IpReleased ip a :: cs2) (release_account l a, cs1 ++ cs2).

(** *** Counting *)

Section Counting.
Context `{Countable K} (held : Circuit -> option K).

Definition holders (k : K) (cs : list Circuit) : N :=
  N.of_nat (length (List.filter (fun c => bool_decide (held c = Some k)) cs)).

Lemma holders_app k cs1 cs2 : holders k (cs1 ++ cs2) = (holders k cs1 + holders k cs2)%N.
Proof. unfold holders. rewrite List.filter_app, length_app. lia. Qed.

Lemma holders_cons k c cs :
  holders k (c :: cs) = ((if bool_decide (held c = Some k) then 1 else 0) + holders k cs)%N.
Proof. unfold holders. cbn [List.filter]. case_bool_decide; cbn [length]; lia. Qed.

(** The map counts the holders, none above the cap. *)
Definition counted (cap : N) (m : gmap K N) (cs : list Circuit) : Prop :=
  forall k, default 0%N (m !! k) = holders k cs /\ (holders k cs <= cap)%N.

Lemma counted_same cap m cs cs' :
  (forall k, holders k cs = holders k cs') -> counted cap m cs -> counted cap m cs'.
Proof. intros Hh Hc k. rewrite <- Hh. apply Hc. Qed.

Lemma reserve_value cap (m m' : gmap K N) (k : K) ok : reserve cap m k = (ok, m') -> forall k',
  default 0%N (m' !! k') =
    (default 0%N (m !! k') + (if ok && bool_decide (k = k') then 1 else 0))%N /\
  (ok = true -> (default 0%N (m !! k) < cap)%N).
Proof.
  unfold reserve. intros E k'. destruct (N.leb_spec cap (default 0%N (m !! k))) as [Hl|Hl];
    injection E as <- <-; cbn [andb]; destruct (decide (k = k')) as [<-|Hne];
    rewrite ?lookup_insert_eq, ?lookup_insert_ne by done; cbn;
    rewrite ?bool_decide_eq_true_2, ?bool_decide_eq_false_2 by done; split; try (by intros ?); lia.
Qed.

Lemma release_value (m : gmap K N) (k k' : K) :
  default 0%N (release m k !! k') =
    (default 0%N (m !! k') - (if bool_decide (k = k') then 1 else 0))%N.
Proof.
  unfold release. destruct (m !! k) as [n|] eqn:E.
  - destruct (N.eqb_spec (n - 1) 0) as [Hz|Hz]; destruct (decide (k = k')) as [<-|Hne];
      rewrite ?lookup_delete_eq, ?lookup_insert_eq, ?lookup_delete_ne, ?lookup_insert_ne by done;
      rewrite ?bool_decide_eq_true_2, ?bool_decide_eq_false_2 by done; rewrite ?E; cbn; lia.
  - case_bool_decide as Hk; subst; rewrite ?E; cbn; lia.
Qed.

(** Taking the slot of [k] for a circuit that did not hold one. *)
Lemma counted_reserve cap m m' k ok c c' cs1 cs2 :
  reserve cap m k = (ok, m') -> held c = None -> held c' = (if ok then Some k else None) ->
  counted cap m (cs1 ++ c :: cs2) -> counted cap m' (cs1 ++ c' :: cs2).
Proof.
  intros Er Hc Hc' Hn k'. destruct (reserve_value _ _ _ _ _ Er k') as [-> Hcap].
  specialize (Hn k') as Hk'. specialize (Hn k) as Hk. revert Hk Hk'. rewrite !holders_app, !holders_cons, Hc, Hc'.
  rewrite !(bool_decide_eq_false_2 (None = Some _)) by done. destruct ok; cbn [andb].
  - specialize (Hcap eq_refl). destruct (decide (k = k')) as [<-|Hne].
    + rewrite !bool_decide_eq_true_2 by done. lia.
    + rewrite !bool_decide_eq_false_2 by congruence. lia.
  - rewrite bool_decide_eq_false_2 by done. lia.
Qed.

Lemma counted_release cap m k c cs1 cs2 (rest : list Circuit) :
  held c = Some k -> (forall k', holders k' rest = 0%N) ->
  counted cap m (cs1 ++ c :: cs2) -> counted cap (release m k) (cs1 ++ rest ++ cs2).
Proof.
  intros Hc Hr Hn k'. rewrite release_value. specialize (Hn k'). revert Hn.
  rewrite !holders_app, !holders_cons, Hc, Hr. destruct (decide (k = k')) as [<-|Hne].
  - rewrite !bool_decide_eq_true_2 by done. lia.
  - rewrite !bool_decide_eq_false_2 by congruence. lia.
Qed.

Lemma holders_replace k c c' cs1 cs2 : held c = held c' -> holders k (cs1 ++ c :: cs2) = holders k (cs1 ++ c' :: cs2).
Proof. intros E. by rewrite !holders_app, !holders_cons, E. Qed.

Lemma holders_remove k c cs1 cs2 : held c = None -> holders k (cs1 ++ c :: cs2) = holders k (cs1 ++ cs2).
Proof. intros E. rewrite !holders_app, !holders_cons, E. by rewrite bool_decide_eq_false_2. Qed.
End Counting.

(** *** The invariant *)

Definition inv (w : World) : Prop :=
  counted held_ip (max_concurrent_per_ip (cfg (fst w))) (ip_active (fst w)) (snd w) /\
  counted held_account (max_concurrent_per_account (cfg (fst w))) (account_active (fst w)) (snd w).

Lemma reserve_ip_ok l ip ok l' : reserve_ip l ip = (ok, l') ->
  exists m, reserve (max_concurrent_per_ip (cfg l)) (ip_active l) ip = (ok, m) /\ l' = set_ip_active l m.
Proof. unfold reserve_ip. destruct (reserve _ _ _) as [o m]. intros [= <- <-]. eauto. Qed.

Lemma reserve_account_ok l a ok l' : reserve_account l a = (ok, l') ->
  exists m, reserve (max_concurrent_per_account (cfg l)) (account_active l) a = (ok, m) /\
    l' = set_account_active l m.
Proof. unfold reserve_account. destruct (reserve _ _ _) as [o m]. intros [= <- <-]. eauto. Qed.

(** Buckets aside, a bucket step changes nothing. *)
Definition same_counters (l l' : RateLimiter) : Prop :=
  cfg l' = cfg l /\ ip_active l' = ip_active l /\ account_active l' = account_active l.

Lemma take_ip_counters l ip now ok l' : take_ip l ip now = (ok, l') -> same_counters l l'.
Proof. unfold take_ip. destruct (take_token _ _ _ _). by intros [= _ <-]. Qed.

Lemma take_account_counters l a now ok l' : take_account l a now = (ok, l') -> same_counters l l'.
Proof. unfold take_account. destruct (take_token _ _ _ _). by intros [= _ <-]. Qed.

Lemma inv_replace l l' c c' cs1 cs2 : same_counters l l' ->
  held_ip c = held_ip c' -> held_account c = held_account c' ->
  inv (l, cs1 ++ c :: cs2) -> inv (l', cs1 ++ c' :: cs2).
Proof.
  intros (Hc & Hi & Ha) Ei Ea [H1 H2]. unfold inv. cbn in *. rewrite Hc, Hi, Ha.
  split; (eapply counted_same; [|done]); intros k; by apply holders_replace.
Qed.

Lemma counted_dummy `{Countable K} (held : Circuit -> option K) cap m c cs :
  held c = None -> counted held cap m cs -> counted held cap m (c :: cs).
Proof. intros Hc. apply counted_same. intros k. symmetry. by apply (holders_remove held k c []). Qed.

Lemma inv_reserve_ip l l' cs ip a ok : reserve_ip l ip = (ok, l') -> inv (l, cs) ->
  inv (l', if ok then mkCircuit IpHeld ip a :: cs else cs).
Proof.
  intros (m & Er & ->)%reserve_ip_ok [H1 H2]. unfold inv. cbn in *. split.
  - apply (counted_dummy held_ip _ _ (mkCircuit IpReleased ip a)) in H1; [|done].
    destruct ok.
    + by apply (counted_reserve held_ip _ _ _ _ _ _ (mkCircuit IpHeld ip a) [] cs Er) in H1.
    + apply (counted_reserve held_ip _ _ _ _ _ _ (mkCircuit IpReleased ip a) [] cs Er) in H1; [|done..].
      revert H1. apply counted_same. intros k. by apply (holders_remove held_ip k _ []).
  - destruct ok; [|done]. by apply counted_dummy.
Qed.

Lemma inv_step w w' : step w w' -> inv w -> inv w'.
Proof.
  intros [l l' cs ip a Er|l l' cs ip Er|l l' cs1 cs2 ip a ok Er|l cs1 cs2 ip a|l l' cs1 cs2 ip a now ok Et
    |l l' cs1 cs2 ip a now ip_ok ok Et|l cs1 cs2 ip a|l cs1 cs2 ip a|l cs1 cs2 ip a] Hinv.
  - by apply (inv_reserve_ip l l' cs ip a true).
  - by apply (inv_reserve_ip l l' cs ip [] false).
  - apply reserve_account_ok in Er as (m & Er & ->). destruct Hinv as [H1 H2]. unfold inv. cbn in *. split.
    + revert H1. apply counted_same. intros k. apply holders_replace. by destruct ok.
    + revert H2. apply (counted_reserve held_account _ _ _ _ _ _ _ _ _ Er); by destruct ok.
  - destruct Hinv as [H1 H2]. unfold inv. cbn in *. split.
    + by apply (counted_release held_ip _ _ ip (mkCircuit AccountRefused ip a) cs1 cs2 []).
    + revert H2. apply counted_same. intros k. by apply holders_remove.
  - eapply inv_replace; [by eapply take_ip_counters| | |exact Hinv]; done.
  - eapply inv_replace; [by eapply take_account_counters| | |exact Hinv]; by destruct (ip_ok && ok).
  - eapply inv_replace; [| | |exact Hinv]; done.
  - destruct Hinv as [H1 H2]. unfold inv. cbn in *. split.
    + by apply (counted_release held_ip _ _ ip (mkCircuit Unwinding ip a) cs1 cs2 [mkCircuit IpReleased ip a]).
    + revert H2. apply counted_same. intros k. by apply holders_replace.
  - destruct Hinv as [H1 H2]. unfold inv. cbn in *. split.
    + revert H1. apply counted_same. intros k. by apply holders_remove.
    + by apply (counted_release held_account _ _ a (mkCircuit IpReleased ip a) cs1 cs2 []).
Qed.

Lemma inv_initial c : inv (RateLimiter_new c, []).
Proof. split; intros k; cbn; rewrite lookup_empty; unfold holders; cbn; (split; [done|apply N.le_0_l]). Qed.

Lemma cfg_step w w' : step w w' -> cfg (fst w') = cfg (fst w).
Proof.
  destruct 1; cbn; try done;
    try (by apply reserve_ip_ok in H as (? & _ & ->)); try (by apply reserve_account_ok in H as (? & _ & ->));
    try (by apply take_ip_counters in H as [-> _]); by apply take_account_counters in H as [-> _].
Qed.

Lemma reachable_inv c w : rtc step (RateLimiter_new c, []) w -> inv w /\ cfg (fst w) = c.
Proof.
  intros Hr. apply (rtc_ind_r (fun w => inv w /\ cfg (fst w) = c)) in Hr; [done|split; [apply inv_initial|done]|].
  intros y z _ Hs [Hi Hc]. split; [by eapply inv_step|]. by rewrite (cfg_step _ _ Hs).
Qed.

Definition live_on_ip (ip : IpAddr) (cs : list Circuit) : nat :=
  length (List.filter (fun c => match stage c with Live => bool_decide (c_ip c = ip) | _ => false end) cs).

Definition live_on_account (a : bytes) (cs : list Circuit) : nat :=
  length (List.filter (fun c => match stage c with Live => bool_decide (c_account c = a) | _ => false end) cs).

Lemma filter_length_mono {A} (f g : A -> bool) l :
  (forall x, f x = true -> g x = true) -> length (List.filter f l) <= length (List.filter g l).
Proof.
  intros Hfg. induction l as [|x l IH]; [done|]. cbn. specialize (Hfg x).
  destruct (f x), (g x); cbn; lia.
Qed.

Lemma live_le_holders ip a cs :
  (N.of_nat (live_on_ip ip cs) <= holders held_ip ip cs)%N /\
  (N.of_nat (live_on_account a cs) <= holders held_account a cs)%N.
Proof.
  assert (forall n m, n <= m -> (N.of_nat n <= N.of_nat m)%N) as Hn by lia.
  split; apply Hn, filter_length_mono; intros x; unfold held_ip, held_account;
    (destruct (stage x); try done); rewrite !bool_decide_eq_true; by intros ->.
Qed.

(** Under any interleaving of the critical sections of any number of admissions and
    guard drops, the limiter's counters equal the number of circuits that hold the
    respective slot, no more circuits than the configured caps are live for one source IP
    or one account, and once all circuits are gone every counter is back to zero. *)
Theorem limiter_caps c l cs ip a :
  rtc step (RateLimiter_new c, []) (l, cs) ->
  (N.of_nat (live_on_ip ip cs) <= max_concurrent_per_ip c)%N /\
  (N.of_nat (live_on_account a cs) <= max_concurrent_per_account c)%N /\
  default 0%N (ip_active l !! ip) = holders held_ip ip cs /\
  default 0%N (account_active l !! a) = holders held_account a cs /\
  (cs = [] -> default 0%N (ip_active l !! ip) = 0%N /\ default 0%N (account_active l !! a) = 0%N).
Proof.
  intros ([Hi Ha] & Hc)%reachable_inv. cbn in *. rewrite Hc in Hi, Ha.
  destruct (Hi ip) as [-> Hi'], (Ha a) as [-> Ha'], (live_le_holders ip a cs) as [Li La].
  split_and!; try done; [by etrans|by etrans|]. by intros ->.
Qed.

Lemma admit_cases l ip a now ok l' : RateLimiter_admit l ip a now = (ok, l') -> forall cs,
  rtc step (l, cs) (l', if ok then mkCircuit Live ip a :: cs else cs).
Proof.
  unfold RateLimiter_admit. intros E cs. destruct (reserve_ip l ip) as [ok1 l1] eqn:E1.
  destruct ok1; cbn [negb] in E; [|injection E as <- <-; by apply rtc_once, (step_refuse_ip _ _ _ ip)].
  eapply rtc_l; [by apply (step_reserve_ip _ _ cs ip a E1)|].
  destruct (reserve_account l1 a) as [ok2 l2] eqn:E2.
  eapply rtc_l; [apply (step_reserve_account _ _ [] cs ip a _ E2)|].
  destruct ok2; cbn [negb] in E; [|injection E as <- <-; apply rtc_once, (step_refused _ [] cs)].
  destruct (take_ip l2 ip now) as [ip_ok l3] eqn:E3.
  eapply rtc_l; [apply (step_take_ip _ _ [] cs _ _ _ _ E3)|].
  destruct (take_account l3 a now) as [account_ok l4] eqn:E4.
  eapply rtc_l; [apply (step_take_account _ _ [] cs _ _ _ ip_ok _ E4)|].
  destruct ip_ok, account_ok; cbn in E; injection E as <- <-; [done|..];
    (eapply rtc_l; [apply (step_release_ip _ [] cs)|apply rtc_once, (step_release_account _ [] cs)]).
Qed.

(** [admit] and the guard's [Drop], run as one thread runs them, are runs of the
    interleaving semantics: [admit] ends with one more live circuit if it returns a guard
    and with none left over if it refuses; dropping the guard removes its circuit. *)
Theorem admit_refines l ip a now cs :
  (let '(ok, l') := RateLimiter_admit l ip a now in
   rtc step (l, cs) (l', if ok then mkCircuit Live ip a :: cs else cs)) /\
  rtc step (l, mkCircuit Live ip a :: cs) (drop_guard l ip a, cs).
Proof.
  split.
  - destruct (RateLimiter_admit l ip a now) as [ok l'] eqn:E. by apply (admit_cases _ _ _ _ _ _ E).
  - eapply rtc_l; [apply (step_drop _ [] cs)|]. eapply rtc_l; [apply (step_release_ip _ [] cs)|].
    apply rtc_once, (step_release_account _ [] cs).
Qed.

(** A refusal for a concurrency cap spends no token: when either counter is at its cap
    the admission is refused and both bucket maps are as before. *)
Theorem concurrency_refusal_keeps_tokens l ip a now :
  (max_concurrent_per_ip (cfg l) <= default 0 (ip_active l !! ip))%N \/
  (max_concurrent_per_account (cfg l) <= default 0 (account_active l !! a))%N ->
  let '(ok, l') := RateLimiter_admit l ip a now in
  ok = false /\ ip_buckets l' = ip_buckets l /\ account_buckets l' = account_buckets l.
Proof.
  intros Hcap. unfold RateLimiter_admit, reserve_ip, reserve.
  destruct (N.leb_spec (max_concurrent_per_ip (cfg l)) (default 0%N (ip_active l !! ip))) as [|Hip]; [done|].
  cbn [negb]. unfold reserve_account, reserve. cbn [cfg set_ip_active account_active].
  rewrite (proj2 (N.leb_le _ _)) by lia. done.
Qed.
End LimiterRun.

(** ** One stream *)

Section StreamFacts.
Import DeviceCert Proto Hosts Limiter LimiterRun Server.

Lemma drop_guard_counters l ip a ip' a' :
  default 0%N (ip_active (drop_guard l ip a) !! ip') =
    (default 0%N (ip_active l !! ip') - (if bool_decide (ip = ip') then 1 else 0))%N /\
  default 0%N (account_active (drop_guard l ip a) !! a') =
    (default 0%N (account_active l !! a') - (if bool_decide (a = a') then 1 else 0))%N.
Proof. split; cbn; apply release_value. Qed.

Lemma admit_counters l ip a now ok l' : RateLimiter_admit l ip a now = (ok, l') -> forall ip' a',
  default 0%N (ip_active l' !! ip') =
    (default 0%N (ip_active l !! ip') + (if ok && bool_decide (ip = ip') then 1 else 0))%N /\
  default 0%N (account_active l' !! a') =
    (default 0%N (account_active l !! a') + (if ok && bool_decide (a = a') then 1 else 0))%N.
Proof.
  unfold RateLimiter_admit. intros E ip' a'. destruct (reserve_ip l ip) as [ok1 l1] eqn:E1.
  apply reserve_ip_ok in E1 as (m1 & R1 & ->). destruct (reserve_value _ _ _ _ _ R1 ip') as [V1 _].
  destruct ok1; cbn [negb] in E; [|injection E as <- <-; cbn in *; split; [done|by rewrite N.add_0_r]].
  destruct (reserve_account (set_ip_active l m1) a) as [ok2 l2] eqn:E2.
  apply reserve_account_ok in E2 as (m2 & R2 & ->). destruct (reserve_value _ _ _ _ _ R2 a') as [V2 _].
  cbn [andb set_ip_active account_active] in V1, V2.
  destruct ok2; cbn [negb] in E.
  2:{ injection E as <- <-. cbn. rewrite release_value, V1, V2. cbn. case_match; lia. }
  destruct (take_ip _ ip now) as [ip_ok l3] eqn:E3. apply take_ip_counters in E3 as (_ & I3 & A3).
  destruct (take_account l3 a now) as [account_ok l4] eqn:E4. apply take_account_counters in E4 as (_ & I4 & A4).
  rewrite I3 in I4. rewrite A3 in A4. cbn in I4, A4.
  destruct ip_ok, account_ok; cbn in E; injection E as <- <-; cbn;
    rewrite ?release_value, I4, A4, V1, V2; cbn; [done|..]; repeat case_match; lia.
Qed.

Lemma admit_drop_counters l ip a now l' : RateLimiter_admit l ip a now = (true, l') -> forall ip' a',
  default 0%N (ip_active (drop_guard l' ip a) !! ip') = default 0%N (ip_active l !! ip') /\
  default 0%N (account_active (drop_guard l' ip a) !! a') = default 0%N (account_active l !! a').
Proof.
  intros E ip' a'. destruct (drop_guard_counters l' ip a ip' a') as [-> ->].
  destruct (admit_counters _ _ _ _ _ _ E ip' a') as [-> ->]. cbn. repeat case_match; lia.
Qed.

Context `{Sha256} `{Ed25519}.

(** What must have happened for a dial. *)
Definition cleared (inner : RelayInner) (recv : bytes) (peer : IpAddr) (now : Z) (instant : N) (t : Target) : Prop :=
  exists hs rest vc c rest',
    read_handshake recv = Ok (hs, rest) /\ verify_handshake hs now = Ok vc /\
    fst (RateLimiter_admit (rate_limiter inner) peer (vc_account_id_pub vc) instant) = true /\
    read_connect rest = Ok (c, rest') /\ permits (allowlist inner) (host c) = true /\
    t = dial_target c (resolve_overrides inner).

(** C8: the relay dials a target only for a stream whose handshake verified, whose account
    and source IP were admitted by the limiter and whose connect frame names an
    allowlisted host, and dials that host (or its configured override); it answers OK
    exactly when the dial succeeded, pipes bytes only then, and however the stream ends
    the limiter's concurrency counters are back at their values. *)
Theorem handle_stream_safe dial send_ok inner recv peer now instant ip a :
  let e := handle_stream dial send_ok inner recv peer now instant in
  (forall t, dialed e = Some t -> cleared inner recv peer now instant t) /\
  (response e = Ok tt <-> exists t, dialed e = Some t /\ dial t = true) /\
  (piped e = true -> response e = Ok tt) /\
  default 0%N (ip_active (rate_limiter (end_inner e)) !! ip) =
    default 0%N (ip_active (rate_limiter inner) !! ip) /\
  default 0%N (account_active (rate_limiter (end_inner e)) !! a) =
    default 0%N (account_active (rate_limiter inner) !! a).
Proof.
  unfold handle_stream. cbv zeta.
  destruct (read_handshake recv) as [[hs rest]|] eqn:Eh; [|cbn; split_and!; naive_solver].
  destruct (verify_handshake hs now) as [vc|] eqn:Ev; [|cbn; split_and!; naive_solver].
  cbn [rate_limiter with_stats].
  destruct (RateLimiter_admit (rate_limiter inner) peer (vc_account_id_pub vc) instant) as [ok l] eqn:Ea. destruct ok.
  2:{ destruct (admit_counters _ _ _ _ _ _ Ea ip a) as [Ei Eacc]. cbn in *. rewrite N.add_0_r in Ei, Eacc. split_and!; naive_solver. }
  destruct (admit_drop_counters _ _ _ _ _ Ea ip a) as [Ei Eacc].
  destruct (read_connect rest) as [[c rest']|] eqn:Ec; [|cbn; split_and!; naive_solver].
  cbn [with_limiter with_stats allowlist resolve_overrides].
  destruct (permits (allowlist inner) (host c)) eqn:Ep; cbn [negb]; [|cbn; split_and!; naive_solver].
  assert (cleared inner recv peer now instant (dial_target c (resolve_overrides inner))) as Hc.
  { exists hs, rest, vc, c, rest'. by rewrite Ea. }
  destruct (dial (dial_target c (resolve_overrides inner))) eqn:Ed; cbn; split_and!; try done;
    try (by intros t [= <-]); split; try done; [by eexists|]. intros (t & [= <-] & ?). congruence.
Qed.
End StreamFacts.

Section LimiterWitness.
Import Limiter LimiterRun.

#[local] Definition small_cfg : RateLimitConfig := mkConfig 2 2 1 1.

#[local] Definition busy : RateLimiter := snd (RateLimiter_admit (RateLimiter_new small_cfg) (V4 1) [x01] 0).

Example burst_of_two :
  fst (RateLimiter_admit (drop_guard busy (V4 1) [x01]) (V4 1) [x01] 0) = true /\
  fst (RateLimiter_admit (drop_guard (snd (RateLimiter_admit (drop_guard busy (V4 1) [x01]) (V4 1) [x01] 0)) (V4 1) [x01])
         (V4 1) [x01] 0) = false.
Proof. split; vm_compute; reflexivity. Qed.

Lemma limiter_caps_witness :
  (N.of_nat (live_on_ip (V4 1) [mkCircuit Live (V4 1) [x01]]) <= 1)%N /\
  default 0%N (ip_active busy !! V4 1) = holders held_ip (V4 1) [mkCircuit Live (V4 1) [x01]].
Proof.
  assert (RateLimiter_admit (RateLimiter_new small_cfg) (V4 1) [x01] 0 = (true, busy)) as E by (vm_compute; reflexivity).
  destruct (limiter_caps small_cfg busy [mkCircuit Live (V4 1) [x01]] (V4 1) [x01]) as (Hc & _ & Hh & _).
  - exact (admit_cases _ _ _ _ _ _ E []).
  - by split.
Defined.

Lemma concurrency_refusal_keeps_tokens_witness :
  let '(ok, l') := RateLimiter_admit busy (V4 1) [x02] 5 in
  ok = false /\ ip_buckets l' = ip_buckets busy /\ account_buckets l' = account_buckets busy.
Proof.
  apply (concurrency_refusal_keeps_tokens busy (V4 1) [x02] 5). left. vm_compute. discriminate.
Defined.
End LimiterWitness.
