(* ===== verification/Text.v ===== *)
(** * Text functions of the Rust standard library

    What the service code uses of [str] and of the integer parsers: [trim], [split] up to
    a separator and into segments, [String::from_utf8_lossy], [str::parse] at the integer types, [format!("{:06}")], and the saturating
    [u32]/[u64] operations.  Strings are their UTF-8 bytes ([Prelude]). *)

From stdpp Require Import base list strings pretty.
From Stdlib Require Import NArith ZArith Lia ZifyNat ZifyN.
From Stdlib Require Import Strings.Byte.
From S2P Require Import Prelude.

(** ** Saturating arithmetic *)

Definition u32_max : N := 2 ^ 32 - 1.

Definition u64_max : N := 2 ^ 64 - 1.

Definition saturating_add (max a b : N) : N := N.min (a + b) max.

(** ** str::trim *)

(** The code points with the Unicode [White_Space] property, in UTF-8. *)
Definition white_space : list bytes :=
  map (fun n => [byte_of_N n]) [9; 10; 11; 12; 13; 32]%N ++
  [[xc2; x85]; [xc2; xa0]; [xe1; x9a; x80]] ++
  map (fun n => [xe2; x80; byte_of_N n])
    [0x80; 0x81; 0x82; 0x83; 0x84; 0x85; 0x86; 0x87; 0x88; 0x89; 0x8a; 0xa8; 0xa9; 0xaf]%N ++
  [[xe2; x81; x9f]; [xe3; x80; x80]].

Fixpoint strip_prefix_bytes (p b : bytes) : option bytes :=
  match p, b with
  | [], _ => Some b
  | x :: p', y :: b' => if Byte.eqb x y then strip_prefix_bytes p' b' else None
  | _ :: _, [] => None
  end.

(** The rest after the first pattern of [pats] that starts [b]. *)
Fixpoint strip_any (pats : list bytes) (b : bytes) : option bytes :=
  match pats with
  | [] => None
  | p :: pats' => match strip_prefix_bytes p b with Some r => Some r | None => strip_any pats' b end
  end.

(** Every pattern is at least one byte long, so the length of the text is enough fuel. *)
Fixpoint strip_all (fuel : nat) (pats : list bytes) (b : bytes) : bytes :=
  match fuel with
  | O => b
  | S fuel' => match strip_any pats b with Some r => strip_all fuel' pats r | None => b end
  end.

Definition trim_start_bytes (b : bytes) : bytes := strip_all (length b) white_space b.

Definition trim_end_bytes (b : bytes) : bytes :=
  rev (strip_all (length b) (map (@rev byte) white_space) (rev b)).

Definition trim (s : string) : string := of_bytes (trim_end_bytes (trim_start_bytes (as_bytes s))).

Example trim_both : trim (of_bytes (as_bytes " a b " ++ [xc2; xa0; xe2; x80; x89])) = "a b".
Proof. reflexivity. Qed.

(** ** Splitting and parsing *)

(** [s.split(sep).next()]: the text before the first separator. *)
Fixpoint take_until (sep : byte) (b : bytes) : bytes :=
  match b with
  | [] => []
  | x :: b' => if Byte.eqb x sep then [] else x :: take_until sep b'
  end.

Definition split_first (sep : byte) (s : string) : string := of_bytes (take_until sep (as_bytes s)).

(** [str::split(sep)]. *)
Fixpoint split_on (sep : byte) (b : bytes) : list bytes :=
  match b with
  | [] => [[]]
  | x :: b' =>
      if bool_decide (x = sep) then [] :: split_on sep b'
      else match split_on sep b' with
           | seg :: rest => (x :: seg) :: rest
           | [] => [[x]]
           end
  end.

Lemma split_on_free sep b : sep ∉ b -> split_on sep b = [b].
Proof.
  induction b as [|x b IH]; [done|]. rewrite not_elem_of_cons. intros [Hx Hb]. cbn [split_on].
  rewrite bool_decide_eq_false_2 by congruence. by rewrite IH.
Qed.

Lemma split_on_app sep a b : sep ∉ a -> split_on sep (a ++ sep :: b) = a :: split_on sep b.
Proof.
  induction a as [|x a IH]; [intros _; cbn [app split_on]; by rewrite bool_decide_eq_true_2|].
  rewrite not_elem_of_cons. intros [Hx Ha]. cbn [app split_on]. rewrite bool_decide_eq_false_2 by congruence. by rewrite IH.
Qed.

Lemma take_until_free sep b : sep ∉ b -> take_until sep b = b.
Proof.
  induction b as [|x b IH]; [done|]. rewrite not_elem_of_cons. intros [Hx Hb]. simpl.
  destruct (Byte.eqb x sep) eqn:E; [|by rewrite IH]. by apply Byte.byte_dec_bl in E; subst.
Qed.

Lemma take_until_app sep a b : sep ∉ a -> take_until sep (a ++ sep :: b) = a.
Proof.
  induction a as [|x a IH]; [intros _; simpl; by rewrite (Byte.byte_dec_lb eq_refl)|]. rewrite not_elem_of_cons. intros [Hx Ha]. simpl.
  destruct (Byte.eqb x sep) eqn:E; [by apply Byte.byte_dec_bl in E; subst|]. by rewrite IH.
Qed.

Fixpoint parse_digits (acc : N) (b : bytes) : option N :=
  match b with
  | [] => Some acc
  | x :: b' =>
      if in_range x 0x30 0x39 then parse_digits (10 * acc + (N_of_byte x - 0x30)) b' else None
  end.

(** One digit at least. *)
Definition parse_magnitude (b : bytes) : option N :=
  match b with [] => None | _ => parse_digits 0 b end.

(** [str::parse::<i64>]: an optional sign, decimal digits, and the range check. *)
Definition parse_i64 (s : string) : option Z :=
  let '(neg, digits) :=
    match as_bytes s with
    | x2d :: b => (true, b)
    | x2b :: b => (false, b)
    | b => (false, b)
    end in
  match parse_magnitude digits with
  | None => None
  | Some n =>
      let z := if neg then (- Z.of_N n)%Z else Z.of_N n in
      if bool_decide (- 2 ^ 63 <= z < 2 ^ 63)%Z then Some z else None
  end.

(** [str::parse::<u32>] and [::<u64>]: an optional plus sign only. *)
Definition parse_uint (max : N) (s : string) : option N :=
  let digits := match as_bytes s with x2b :: b => b | b => b end in
  match parse_magnitude digits with
  | None => None
  | Some n => if (n <=? max)%N then Some n else None
  end.

(** [format!("{:06}", n)]. *)
Definition pad6 (n : N) : string :=
  let digits := as_bytes (pretty n) in
  of_bytes (repeat x30 (6 - length digits) ++ digits).

Example parse_signs : map parse_i64 ["1700"; "+1700"; "-5"; "-"; ""; "12a"; "9223372036854775808"] =
  [Some 1700; Some 1700; Some (-5); None; None; None; None]%Z.
Proof. reflexivity. Qed.

Example pad6_short : pad6 42 = "000042".
Proof. reflexivity. Qed.

(** ** SQLite's order on text

    The default collation compares bytes. *)

Definition text_lt (a b : string) : bool := match String.compare a b with Lt => true | _ => false end.

(** SQL's [MAX(a, b)] on text, and the aggregate [MIN]. *)
Definition text_max (a b : string) : string := if text_lt a b then b else a.

Definition text_min (l : list string) : option string :=
  match l with
  | [] => None
  | a :: l' => Some (fold_left (fun m x => if text_lt x m then x else m) l' a)
  end.

(** ** Lemmas *)

Lemma parse_i64_range s z : parse_i64 s = Some z -> i64_range z.
Proof.
  unfold parse_i64. destruct (match as_bytes s with x2d :: b => _ | b => _ end) as [neg digits].
  destruct (parse_magnitude digits) as [n|]; [|done]. case_bool_decide; [|done]. by intros [= <-].
Qed.

Lemma saturating_add_le max a b : (saturating_add max a b <= max)%N.
Proof. unfold saturating_add. lia. Qed.

(** *** Printing an [i64] and parsing it back *)

Lemma as_bytes_cons c s : as_bytes (String c s) = Ascii.byte_of_ascii c :: as_bytes s.
Proof. reflexivity. Qed.

Lemma pretty_char_digit r : (r < 10)%N ->
  let x := Ascii.byte_of_ascii (pretty_N_char r) in in_range x 0x30 0x39 = true /\ (N_of_byte x - 0x30)%N = r.
Proof.
  intros Hr. assert (r ∈ map N.of_nat (seq 0 10)) as Hin.
  { apply list_elem_of_fmap. exists (N.to_nat r). split; [lia|]. apply elem_of_seq. lia. }
  revert Hin. clear. revert r. apply (Forall_forall (fun r => let x := Ascii.byte_of_ascii (pretty_N_char r) in
    in_range x 0x30 0x39 = true /\ (N_of_byte x - 0x30)%N = r)). repeat constructor.
Qed.

Lemma parse_pretty_go x s : (0 < x)%N ->
  exists d rest, as_bytes (pretty_N_go x s) = d :: rest /\ in_range d 0x30 0x39 = true /\
    parse_digits 0 (as_bytes (pretty_N_go x s)) = parse_digits x (as_bytes s).
Proof.
  revert s. induction (N.lt_wf_0 x) as [x _ IH]. intros s Hx. rewrite pretty_N_go_step by done.
  destruct (pretty_char_digit (x mod 10)) as [Hd Hv]; [by apply N.mod_lt|].
  pose proof (N.div_mod x 10 ltac:(done)) as Hdm.
  destruct (decide (x / 10 = 0)%N) as [E0|E0].
  - rewrite E0, pretty_N_go_0. rewrite as_bytes_cons. do 2 eexists. split; [done|]. split; [done|].
    cbn [parse_digits]. rewrite Hd, Hv. f_equal. lia.
  - destruct (IH (x / 10)%N) with (s := String (pretty_N_char (x mod 10)) s) as (d & rest & E & Hd' & Hp);
      [apply N.div_lt; lia|lia|]. exists d, rest. split; [done|]. split; [done|]. rewrite Hp, as_bytes_cons.
    cbn [parse_digits]. rewrite Hd, Hv. f_equal. lia.
Qed.

Lemma parse_magnitude_pretty n : exists d rest, as_bytes (pretty n) = d :: rest /\ in_range d 0x30 0x39 = true /\
  parse_magnitude (as_bytes (pretty n)) = Some n.
Proof.
  destruct (decide (n = 0)%N) as [->|Hn]; [by exists x30, []|].
  assert (pretty n = pretty_N_go n "") as -> by (unfold pretty, pretty_N; by rewrite decide_False).
  destruct (parse_pretty_go n "") as (d & rest & E & Hd & Hp); [lia|]. exists d, rest. split; [done|]. split; [done|].
  unfold parse_magnitude. rewrite E in *. by rewrite Hp.
Qed.

(** The decimal text of an [i64] parses back to it. *)
Lemma parse_i64_pretty z : i64_range z -> parse_i64 (pretty z) = Some z.
Proof.
  unfold i64_range. intros Hz. unfold parse_i64. destruct z as [|p|p]; [reflexivity|..].
  - change (pretty (Z.pos p)) with (pretty (N.pos p)).
    destruct (parse_magnitude_pretty (N.pos p)) as (d & rest & E & Hd & Hp). rewrite E in *.
    destruct d; try done; rewrite Hp; by rewrite bool_decide_eq_true_2 by lia.
  - change (pretty (Z.neg p)) with (String.append "-" (pretty (N.pos p))).
    destruct (parse_magnitude_pretty (N.pos p)) as (d & rest & E & Hd & Hp).
    change (as_bytes (String.append "-" (pretty (N.pos p)))) with (x2d :: as_bytes (pretty (N.pos p))).
    cbn -[parse_magnitude as_bytes pretty]. rewrite Hp. cbn -[Z.pow]. by rewrite bool_decide_eq_true_2 by lia.
Qed.

(** *** The text order is a strict total order *)

Lemma text_lt_leb a b : text_lt a b = negb (String.leb b a).
Proof. unfold text_lt, String.leb. rewrite (String.compare_antisym b a). by destruct (String.compare a b). Qed.

Lemma text_lt_irrefl a : text_lt a a = false.
Proof. rewrite text_lt_leb. destruct (String.leb_total a a) as [-> | ->]; done. Qed.

Lemma text_lt_antisym a b : text_lt a b = true -> text_lt b a = false.
Proof. unfold text_lt. rewrite (String.compare_antisym b a). by destruct (String.compare a b). Qed.

Lemma text_lt_le_trans a b c : text_lt a b = true -> text_lt c b = false -> text_lt a c = true.
Proof.
  rewrite !text_lt_leb, !negb_true_iff, negb_false_iff. intros Hab Hcb. destruct (String.leb c a) eqn:Hca; [|done].
  assert (String.le b a) as Hba; [|unfold String.le in Hba; rewrite Hab in Hba; done].
  transitivity c; unfold String.le; [by rewrite Hcb|by rewrite Hca].
Qed.

Lemma text_lt_trans a b c : text_lt a b = true -> text_lt b c = true -> text_lt a c = true.
Proof. intros Hab Hbc. eapply text_lt_le_trans; [exact Hab|]. by apply text_lt_antisym. Qed.

Lemma text_max_ge a b : text_lt (text_max a b) a = false.
Proof. unfold text_max. destruct (text_lt a b) eqn:E; [by apply text_lt_antisym|apply text_lt_irrefl]. Qed.

(** Below the least of a list is below all of it. *)
Lemma text_min_lt l m x : text_min l = Some m -> text_lt x m = true <-> Forall (fun w => text_lt x w = true) l.
Proof.
  destruct l as [|a l]; [done|]. cbn [text_min]. intros [= <-]. rewrite Forall_cons. revert a.
  induction l as [|b l IH]; intros a; simpl; [rewrite Forall_nil; tauto|]. rewrite IH, Forall_cons.
  destruct (text_lt b a) eqn:E; (split; [intros [H1 H2]; split_and!|tauto]); try done.
  - by eapply text_lt_trans.
  - by eapply text_lt_le_trans.
Qed.

(** ** String::from_utf8_lossy *)

(** U+FFFD in UTF-8. *)
Definition replacement : bytes := [xef; xbf; xbd].

(** [String::from_utf8_lossy]: each maximal prefix of an ill-formed sequence becomes one
    replacement character. *)
Fixpoint from_utf8_lossy (l : bytes) : bytes :=
  match l with
  | [] => []
  | b :: l1 =>
      if (N_of_byte b <=? 0x7F)%N then b :: from_utf8_lossy l1
      else if in_range b 0xC2 0xDF then
        match l1 with
        | c1 :: l2 => if cont c1 then b :: c1 :: from_utf8_lossy l2 else replacement ++ from_utf8_lossy l1
        | [] => replacement
        end
      else if in_range b 0xE0 0xEF then
        match l1 with
        | c1 :: l2 =>
            if in_range c1 (if (N_of_byte b =? 0xE0)%N then 0xA0 else 0x80) (if (N_of_byte b =? 0xED)%N then 0x9F else 0xBF)
            then match l2 with
                 | c2 :: l3 => if cont c2 then b :: c1 :: c2 :: from_utf8_lossy l3 else replacement ++ from_utf8_lossy l2
                 | [] => replacement
                 end
            else replacement ++ from_utf8_lossy l1
        | [] => replacement
        end
      else if in_range b 0xF0 0xF4 then
        match l1 with
        | c1 :: l2 =>
            if in_range c1 (if (N_of_byte b =? 0xF0)%N then 0x90 else 0x80) (if (N_of_byte b =? 0xF4)%N then 0x8F else 0xBF)
            then match l2 with
                 | c2 :: l3 =>
                     if cont c2
                     then match l3 with
                          | c3 :: l4 => if cont c3 then b :: c1 :: c2 :: c3 :: from_utf8_lossy l4 else replacement ++ from_utf8_lossy l3
                          | [] => replacement
                          end
                     else replacement ++ from_utf8_lossy l2
                 | [] => replacement
                 end
            else replacement ++ from_utf8_lossy l1
        | [] => replacement
        end
      else replacement ++ from_utf8_lossy l1
  end.

Lemma replacement_valid l : utf8_valid (replacement ++ l) = utf8_valid l.
Proof. reflexivity. Qed.

(** Lossy decoding always gives well-formed UTF-8. *)
Lemma from_utf8_lossy_valid l : utf8_valid (from_utf8_lossy l) = true.
Proof.
  remember (length l) as n eqn:En. revert l En. induction (Nat.lt_wf_0 n) as [n _ IH]. intros l ->.
  assert (forall l', length l' < length l -> utf8_valid (from_utf8_lossy l') = true) as IH' by eauto. clear IH.
  destruct l as [|b l1]; [done|]. cbn [from_utf8_lossy]. simpl in IH'.
  destruct (N_of_byte b <=? 0x7F)%N eqn:E1; [cbn [utf8_valid]; rewrite E1; apply IH'; lia|].
  destruct (in_range b 0xC2 0xDF) eqn:E2.
  { destruct l1 as [|c1 l2]; [done|]. destruct (cont c1) eqn:C1; [|rewrite replacement_valid; apply IH'; simpl; lia].
    cbn [utf8_valid]. rewrite E1, E2, C1. apply IH'. simpl. lia. }
  destruct (in_range b 0xE0 0xEF) eqn:E3.
  { destruct l1 as [|c1 l2]; [done|]. destruct (in_range c1 _ _) eqn:C1; [|rewrite replacement_valid; apply IH'; simpl; lia].
    destruct l2 as [|c2 l3]; [done|]. destruct (cont c2) eqn:C2; [|rewrite replacement_valid; apply IH'; simpl; lia].
    cbn [utf8_valid]. rewrite E1, E2, E3, C1, C2. apply IH'. simpl. lia. }
  destruct (in_range b 0xF0 0xF4) eqn:E4; [|rewrite replacement_valid; apply IH'; lia].
  destruct l1 as [|c1 l2]; [done|]. destruct (in_range c1 _ _) eqn:C1; [|rewrite replacement_valid; apply IH'; simpl; lia].
  destruct l2 as [|c2 l3]; [done|]. destruct (cont c2) eqn:C2; [|rewrite replacement_valid; apply IH'; simpl; lia].
  destruct l3 as [|c3 l4]; [done|]. destruct (cont c3) eqn:C3; [|rewrite replacement_valid; apply IH'; simpl; lia].
  cbn [utf8_valid]. rewrite E1, E2, E3, E4, C1, C2, C3. apply IH'. simpl. lia.
Qed.

(** On well-formed text it changes nothing. *)
Lemma from_utf8_lossy_id l : utf8_valid l = true -> from_utf8_lossy l = l.
Proof.
  remember (length l) as n eqn:En. revert l En. induction (Nat.lt_wf_0 n) as [n _ IH]. intros l ->.
  assert (forall l', length l' < length l -> utf8_valid l' = true -> from_utf8_lossy l' = l') as IH' by eauto. clear IH.
  destruct l as [|b l1]; [done|]. cbn [from_utf8_lossy utf8_valid]. simpl in IH'.
  destruct (N_of_byte b <=? 0x7F)%N; [intros Hv; by rewrite IH' by (done || lia)|].
  destruct (in_range b 0xC2 0xDF).
  { destruct l1 as [|c1 l2]; [done|]. intros [-> Hv]%andb_true_iff. by rewrite IH' by (done || (simpl; lia)). }
  destruct (in_range b 0xE0 0xEF).
  { destruct l1 as [|c1 [|c2 l3]]; [done..|]. intros [[-> ->]%andb_true_iff Hv]%andb_true_iff. by rewrite IH' by (done || (simpl; lia)). }
  destruct (in_range b 0xF0 0xF4); [|done]. destruct l1 as [|c1 [|c2 [|c3 l4]]]; [done..|].
  intros [[[-> ->]%andb_true_iff ->]%andb_true_iff Hv]%andb_true_iff. by rewrite IH' by (done || (simpl; lia)).
Qed.
