(* ===== verification/Stores.v ===== *)
(** * pollis-delivery: the in-memory stores in front of the databases

    Models [session.rs] (OTP sessions), [otp.rs] (the one-time codes and the verify-otp
    flow) and [ratelimit.rs] (the fixed-window limiter, the tiers and the client address).
    A mutex-protected [HashMap] is a [gmap] passed through each operation.  The clock, the
    random bytes and the generated ids are arguments.  The [users] table is the list of its
    rows, with the columns [apply_verify_otp] reads and writes.

    Not modelled: the call to the mail provider, whose outcome is only logged (the mail
    itself is an output), and log lines. *)

From stdpp Require Import base list strings gmap pretty.
From Stdlib Require Import NArith ZArith Lia ZifyNat ZifyN.
From Stdlib Require Import Strings.Byte.
From S2P Require Import Prelude Crypto Relay Delivery Text.

(** ** HTTP headers

    [axum::http::HeaderMap] by what the code asks of it: whether a header is present
    ([contains_key]) and the first value's [to_str], which fails outside visible ASCII. *)
Definition HeaderMap : Type := string -> option (option string).

Definition contains_key (h : HeaderMap) (name : string) : bool :=
  match h name with Some _ => true | None => false end.

Definition get_str (h : HeaderMap) (name : string) : option string := mjoin (h name).

(** ** session.rs *)

Module Session.

Definition SESSION_HEADER : string := "x-pollis-session".

Record SessionRecord := mkSession {
  user_id : string;
  email : string;
  device_id : string;
  expires_at : N
}.

Record SessionClaims := mkClaims { claim_user_id : string; claim_email : string; claim_device_id : string }.

Abbreviation SessionStore := (gmap bytes SessionRecord).

Section Store.
Context `{Sha256}.

Definition hash_token (token : string) : bytes := sha256 (as_bytes token).

(** [mint]; [raw] are the 32 random bytes. *)
Definition mint (s : SessionStore) (raw : bytes) (user mail device : string) (ttl_secs now : N)
    : SessionStore * string :=
  let token := of_bytes (Proto.hex_lower raw) in
  (<[hash_token token := mkSession user mail device (saturating_add u64_max now ttl_secs)]> s, token).

Definition resolve (s : SessionStore) (token : string) (now : N) : SessionStore * option SessionClaims :=
  let key := hash_token token in
  match s !! key with
  | Some rec =>
      if (now <=? expires_at rec)%N
      then (s, Some (mkClaims (user_id rec) (email rec) (device_id rec)))
      else (delete key s, None)
  | None => (s, None)
  end.

Definition invalidate (s : SessionStore) (token : string) : SessionStore := delete (hash_token token) s.

Definition session_token (h : HeaderMap) : option string := get_str h SESSION_HEADER.

(** [verify_session]; its only rejection is [AuthRejection::Unauthorized]. *)
Definition verify_session (h : HeaderMap) (s : SessionStore) (now : N) : SessionStore * option SessionClaims :=
  match session_token h with
  | None => (s, None)
  | Some token => if bool_decide (token = "") then (s, None) else resolve s token now
  end.

End Store.
End Session.

(** ** otp.rs *)

(** [str::to_lowercase]: the Unicode case tables.  Nothing below depends on which function
    this is. *)
Class Lowercase := { to_lowercase : string -> string }.

Module Otp.

Record OtpConfig := mkOtpConfig {
  resend_api_key : option string;
  dev_otp : option string;
  ttl_secs : N;
  session_ttl_secs : N;
  resend_throttle_secs : N;
  max_attempts : N
}.

Definition default : OtpConfig := mkOtpConfig None None 600 600 30 5.

(** [OtpConfig::from_env]; [env] is [std::env::var(..).ok()]. *)
Definition from_env (env : string -> option string) : OtpConfig :=
  let non_empty s := if bool_decide (s = "") then None else Some s in
  mkOtpConfig (env "RESEND_API_KEY" ≫= non_empty) (env "DEV_OTP" ≫= non_empty)
    (match env "OTP_TTL_SECS" ≫= parse_uint u64_max with Some ttl => ttl | None => ttl_secs default end)
    (session_ttl_secs default) (resend_throttle_secs default) (max_attempts default).

Record OtpRecord := mkOtpRecord {
  code_hash : bytes;
  salt : bytes;
  expires_at : N;
  attempts : N;
  last_sent_at : N;
  locked : bool
}.

Abbreviation OtpStore := (gmap string OtpRecord).

Inductive PrepareOutcome : Type := Send (code : string) | Throttled.

Inductive VerifyOutcome : Type := VOk | Invalid | LockedOut | Expired | NotFound.

#[global] Instance VerifyOutcome_eq_dec : EqDecision VerifyOutcome.
Proof. solve_decision. Defined.

(** [constant_time_eq]: the xor of every pair of bytes, or-ed together. *)
Definition constant_time_eq (a b : bytes) : bool :=
  if negb (length a =? length b) then false
  else (fold_left (fun diff xy => N.lor diff (N.lxor (N_of_byte xy.1) (N_of_byte xy.2))) (combine a b) 0 =? 0)%N.

Section Store.
Context `{Sha256} `{Lowercase}.

Definition normalize_email (mail : string) : string := to_lowercase (trim mail).

Definition salted_hash (s : bytes) (code : string) : bytes := sha256 (s ++ as_bytes (trim code)).

(** [prepare]; [new_salt] are the 16 random bytes. *)
Definition prepare (st : OtpStore) (new_salt : bytes) (mail code : string) (ttl throttle now : N)
    : OtpStore * PrepareOutcome :=
  let key := normalize_email mail in
  let throttled :=
    match st !! key with
    | Some rec => negb (locked rec) && (now <? expires_at rec)%N && (now - last_sent_at rec <? throttle)%N
    | None => false
    end in
  if throttled then (st, Throttled)
  else
    (<[key := mkOtpRecord (salted_hash new_salt code) new_salt (saturating_add u64_max now ttl) 0 now false]> st,
     Send code).

Definition check (st : OtpStore) (mail code : string) (max now : N) : OtpStore * VerifyOutcome :=
  let key := normalize_email mail in
  match st !! key with
  | None => (st, NotFound)
  | Some rec =>
      if locked rec then (st, LockedOut)
      else if (expires_at rec <? now)%N then (delete key st, Expired)
      else if constant_time_eq (salted_hash (salt rec) code) (code_hash rec) then (st, VOk)
      else
        let attempts' := as_u32 (attempts rec + 1) in
        if (max <? attempts')%N then (delete key st, LockedOut)
        else (<[key := mkOtpRecord (code_hash rec) (salt rec) (expires_at rec) attempts' (last_sent_at rec)
                         (locked rec)]> st, Invalid)
  end.

Definition consume (st : OtpStore) (mail : string) : OtpStore := delete (normalize_email mail) st.

(** [process_request_otp]: the store and the mail handed to the provider (api key, address,
    code).  [random] is the number drawn below 1,000,000. *)
Definition process_request_otp (cfg : OtpConfig) (st : OtpStore) (new_salt : bytes) (random : N)
    (mail : string) (now : N) : OtpStore * option (string * string * string) :=
  let code := match dev_otp cfg with Some dev => dev | None => pad6 random end in
  let '(st', outcome) := prepare st new_salt mail code (ttl_secs cfg) (resend_throttle_secs cfg) now in
  match outcome with
  | Throttled => (st', None)
  | Send code =>
      match dev_otp cfg, resend_api_key cfg with
      | Some _, _ => (st', None)
      | None, Some key => (st', Some (key, mail, code))
      | None, None => (st', None)
      end
  end.

(** *** verify-otp *)

Record UserRow := mkUser {
  usr_id : string;
  usr_email : string;
  usr_username : string;
  usr_account_id_pub : option bytes
}.

Inductive VerifyOtpResult : Type :=
| VerifiedOk (user_id username : string) (is_new_account has_identity : bool) (session_token : string)
    (session_expires_at : N)
| InvalidCode
| VerifyLockedOut.

Record OtpState := mkOtpState {
  users : list UserRow;
  otps : OtpStore;
  sessions : Session.SessionStore
}.

(** [&user_id[user_id.len().saturating_sub(4)..]]; a ULID is ASCII. *)
Definition last4 (id : string) : string :=
  let b := as_bytes id in of_bytes (drop (length b - 4) b).

(** The INSERT into [users] violates a UNIQUE or PRIMARY KEY constraint. *)
Definition user_conflict (us : list UserRow) (id mail name : string) : bool :=
  existsb (fun u => bool_decide (usr_id u = id) || bool_decide (usr_email u = mail) ||
                    bool_decide (usr_username u = name)) us.

(** [apply_verify_otp].  [select_ok] and [insert_ok] say whether the database answers the
    two statements; [None] is the error the handler turns into a 500.  The clock is read
    twice, for the code and for the session. *)
Definition apply_verify_otp (select_ok insert_ok : bool) (raw : bytes) (ulid : string) (cfg : OtpConfig)
    (s : OtpState) (mail code device_id : string) (now_check now : N) : OtpState * option VerifyOtpResult :=
  let '(otps1, outcome) := check (otps s) mail code (max_attempts cfg) now_check in
  let s1 := mkOtpState (users s) otps1 (sessions s) in
  match outcome with
  | LockedOut => (s1, Some VerifyLockedOut)
  | Invalid | Expired | NotFound => (s1, Some InvalidCode)
  | VOk =>
      if negb select_ok then (s1, None)
      else
        let account :=
          match find (fun u => bool_decide (usr_email u = mail)) (users s) with
          | Some u => Some (users s, usr_id u, usr_username u, negb (bool_decide (usr_account_id_pub u = None)), false)
          | None =>
              let name := String.append (String.append (split_first x40 mail) "_") (last4 ulid) in
              if negb insert_ok || user_conflict (users s) ulid mail name then None
              else Some (users s ++ [mkUser ulid mail name None], ulid, name, false, true)
          end in
        match account with
        | None => (s1, None)
        | Some (users', user_id, username, has_identity, is_new) =>
            let '(sessions', token) :=
              Session.mint (sessions s) raw user_id mail device_id (session_ttl_secs cfg) now in
            (mkOtpState users' (consume otps1 mail) sessions',
             Some (VerifiedOk user_id username is_new has_identity token (as_u64 (now + session_ttl_secs cfg))))
        end
  end.

End Store.
End Otp.

(** ** ratelimit.rs *)

Module RateLimit.

Record RateLimitConfig := mkRateLimitConfig {
  request_otp_max : N;
  request_otp_window_secs : N;
  verify_otp_max : N;
  verify_otp_window_secs : N;
  write_max : N;
  write_window_secs : N
}.

Definition default : RateLimitConfig := mkRateLimitConfig 10 600 30 600 1200 60.

Definition env_u32 (env : string -> option string) (key : string) : option N := env key ≫= parse_uint u32_max.

Definition env_u64 (env : string -> option string) (key : string) : option N := env key ≫= parse_uint u64_max.

Definition from_env (env : string -> option string) : RateLimitConfig :=
  let or_default o d := match o with Some v => v | None => d end in
  mkRateLimitConfig
    (or_default (env_u32 env "RL_REQUEST_OTP_MAX") (request_otp_max default))
    (or_default (env_u64 env "RL_REQUEST_OTP_WINDOW_SECS") (request_otp_window_secs default))
    (or_default (env_u32 env "RL_VERIFY_OTP_MAX") (verify_otp_max default))
    (or_default (env_u64 env "RL_VERIFY_OTP_WINDOW_SECS") (verify_otp_window_secs default))
    (or_default (env_u32 env "RL_WRITE_MAX") (write_max default))
    (or_default (env_u64 env "RL_WRITE_WINDOW_SECS") (write_window_secs default)).

Inductive RateLimitOutcome : Type := Allowed | Limited.

#[global] Instance RateLimitOutcome_eq_dec : EqDecision RateLimitOutcome.
Proof. solve_decision. Defined.

Record Window := mkWindow { count : N; window_start : N }.

Abbreviation RateLimiter := (gmap string Window).

Definition PRUNE_THRESHOLD : nat := 10000.

(** One hit on the window of a key: a fresh window if there is none or it has elapsed. *)
Definition hit (w : option Window) (window_secs now : N) : Window :=
  let win := match w with Some win => win | None => mkWindow 0 now end in
  let win := if (window_secs <=? now - window_start win)%N then mkWindow 0 now else win in
  mkWindow (saturating_add u32_max (count win) 1) (window_start win).

(** The [retain] above the threshold: with the window of the request at hand. *)
Definition prune (rl : RateLimiter) (window_secs now : N) : RateLimiter :=
  if PRUNE_THRESHOLD <? size rl
  then filter (fun kw => (now - window_start kw.2 < window_secs)%N) rl
  else rl.

Definition check (rl : RateLimiter) (key : string) (max window_secs now : N) : RateLimiter * RateLimitOutcome :=
  let kept := prune rl window_secs now in
  let win := hit (kept !! key) window_secs now in
  (<[key := win]> kept, if (max <? count win)%N then Limited else Allowed).

(** A trimmed, non-empty header value. *)
Definition header_str (h : HeaderMap) (name : string) : option string :=
  match get_str h name with
  | Some v => let v := trim v in if bool_decide (v = "") then None else Some v
  | None => None
  end.

Definition client_ip (h : HeaderMap) : string :=
  match header_str h "cf-connecting-ip" with
  | Some ip => ip
  | None =>
      match header_str h "x-forwarded-for" with
      | Some hops =>
          let first := trim (split_first x2c hops) in
          if bool_decide (first = "") then "unknown" else first
      | None => "unknown"
      end
  end.

(** The tier of a request: its name, limit and window; [None] is exempt. *)
Definition classify (method path : string) (cfg : RateLimitConfig) : option (string * N * N) :=
  if bool_decide (method ∈ ["GET"; "HEAD"; "OPTIONS"]) then None
  else if bool_decide (path = "/v1/auth/request-otp")
  then Some ("otp_request", request_otp_max cfg, request_otp_window_secs cfg)
  else if bool_decide (path ∈ ["/v1/auth/verify-otp"; "/v1/auth/request-email-change-otp";
                               "/v1/auth/verify-email-change"])
  then Some ("otp_verify", verify_otp_max cfg, verify_otp_window_secs cfg)
  else Some ("write", write_max cfg, write_window_secs cfg).

(** The middleware: the limiter afterwards, and whether the handler runs ([true]) or the
    request is answered with 429. *)
Definition rate_limit (cfg : RateLimitConfig) (rl : RateLimiter) (method path : string) (h : HeaderMap) (now : N)
    : RateLimiter * bool :=
  match classify method path cfg with
  | None => (rl, true)
  | Some (tier, max, window) =>
      let key := String.append (String.append tier ":") (client_ip h) in
      let '(rl', outcome) := check rl key max window now in
      (rl', match outcome with Limited => false | Allowed => true end)
  end.

End RateLimit.

(** ** The limiter over a run of requests *)

Section Limiter.
Import RateLimit.

Record Hit := mkHit { hit_key : string; hit_max : N; hit_window : N; hit_now : N }.

(** The outcome of each request of a run, in order. *)
Fixpoint limiter_run (rl : RateLimiter) (hits : list Hit) : list (Hit * RateLimitOutcome) :=
  match hits with
  | [] => []
  | h :: hits' =>
      let '(rl', o) := check rl (hit_key h) (hit_max h) (hit_window h) (hit_now h) in
      (h, o) :: limiter_run rl' hits'
  end.

(** The reference limiter of one key: its hits alone, nothing ever dropped. *)
Fixpoint key_run (w : option Window) (hits : list Hit) : list (Hit * RateLimitOutcome) :=
  match hits with
  | [] => []
  | h :: hits' =>
      let w' := hit w (hit_window h) (hit_now h) in
      (h, if (hit_max h <? count w')%N then Limited else Allowed) :: key_run (Some w') hits'
  end.

Definition of_key (k : string) (h : Hit) : bool := bool_decide (hit_key h = k).

(** Whether dropping elapsed windows can be seen by a key whose window is [W] seconds. *)
Definition prune_harmless (W : N) (hits : list Hit) : Prop :=
  Forall (fun h => (W <= hit_window h)%N) hits \/
  size (list_to_set (map hit_key hits) : gset string) <= PRUNE_THRESHOLD.

Definition clock_ordered (hits : list Hit) : Prop := ordered N.le (map hit_now hits).

(** What the limiter holds for [k] against the reference, at time [t]. *)
Definition agrees (W t : N) (held spec : option Window) : Prop :=
  held = spec \/ held = None /\ exists w, spec = Some w /\ (W <= t - window_start w)%N.

Lemma agrees_hit W t held spec : agrees W t held spec -> hit held W t = hit spec W t.
Proof.
  intros [->|(-> & w & -> & Hw)]; [done|]. unfold hit. simpl.
  rewrite (proj2 (N.leb_le _ _) Hw). by destruct (N.leb_spec W (t - t)).
Qed.

Lemma agrees_later W t t' held spec : (t <= t')%N -> agrees W t held spec -> agrees W t' held spec.
Proof. intros Ht [->|(-> & w & -> & Hw)]; [by left|]. right. split; [done|]. exists w. split; [done|]. lia. Qed.

Lemma agrees_filter W t window (rl : gmap string Window) k spec :
  (W <= window)%N -> agrees W t (rl !! k) spec ->
  agrees W t (filter (fun kw : string * Window => (t - window_start kw.2 < window)%N) rl !! k) spec.
Proof.
  intros HW Ha. rewrite map_lookup_filter. destruct (rl !! k) as [w|]; simpl; [|done].
  destruct Ha as [<-|[? _]]; [|done]. case_guard as Hg; simpl; [by left|]. right. split; [done|].
  exists w. split; [done|]. simpl in Hg. lia.
Qed.

(** One request: the windows stay in step, and only keys that were hit are held. *)
Lemma check_step W (rl : gmap string Window) k spec key max window now (rl' : gmap string Window) o :
  (W <= window)%N \/ size rl <= PRUNE_THRESHOLD ->
  (key = k -> window = W) -> agrees W now (rl !! k) spec ->
  check rl key max window now = (rl', o) ->
  (if bool_decide (key = k)
   then rl' !! k = Some (hit spec W now) /\ o = if (max <? count (hit spec W now))%N then Limited else Allowed
   else agrees W now (rl' !! k) spec) /\
  (dom rl' : gset string) ⊆ dom rl ∪ {[key]}.
Proof.
  intros Hp Hw Ha. unfold check. set (kept := prune rl window now : gmap string Window).
  assert (agrees W now (kept !! k) spec) as Hk.
  { unfold kept, prune. destruct (Nat.ltb_spec PRUNE_THRESHOLD (size rl)); [|done]. destruct Hp; [|lia]. by apply agrees_filter. }
  assert ((dom kept : gset string) ⊆ dom rl) as Hd.
  { unfold kept, prune. destruct (_ <? _); [|done]. apply dom_filter_subseteq. }
  intros E. apply pair_equal_spec in E as [<- <-]. clearbody kept. split; [|rewrite dom_insert; clear -Hd; set_solver].
  case_bool_decide as E; [|rewrite lookup_insert_ne by congruence; exact Hk].
  subst key. rewrite (Hw eq_refl), lookup_insert_eq. rewrite (agrees_hit _ _ _ _ Hk). done.
Qed.

Lemma limiter_run_key W k hits : forall (rl : gmap string Window) spec t,
  (Forall (fun h => (W <= hit_window h)%N) hits \/
   exists ks : gset string, dom rl ∪ list_to_set (map hit_key hits) ⊆ ks /\ size ks <= PRUNE_THRESHOLD) ->
  Forall (fun h => hit_key h = k -> hit_window h = W) hits -> ordered N.le (t :: map hit_now hits) ->
  agrees W t (rl !! k) spec ->
  List.filter (fun ho => of_key k ho.1) (limiter_run rl hits) = key_run spec (List.filter (of_key k) hits).
Proof.
  induction hits as [|h hits IH]; intros rl spec t Hp Hw Ho Ha; [done|].
  apply Forall_cons in Hw as [Hwh Hw].
  cbn [map] in Ho; apply ordered_cons in Ho as [[Ht _]%Forall_cons Ho'].
  apply (agrees_later _ _ _ _ _ Ht) in Ha. cbn [limiter_run].
  destruct (check rl (hit_key h) (hit_max h) (hit_window h) (hit_now h)) as [rl' o] eqn:E.
  assert ((W <= hit_window h)%N \/ size rl <= PRUNE_THRESHOLD) as Hp0.
  { destruct Hp as [Hp|(ks & Hks & Hs)]; [left; by apply Forall_cons in Hp as [? _]|right].
    etrans; [|exact Hs]. rewrite <- (size_dom (D:=gset string)). apply subseteq_size. set_solver. }
  destruct (check_step W rl k spec _ _ _ _ _ _ Hp0 Hwh Ha E) as [Hs Hd].
  assert (Forall (fun h => (W <= hit_window h)%N) hits \/
    exists ks : gset string, dom rl' ∪ list_to_set (map hit_key hits) ⊆ ks /\ size ks <= PRUNE_THRESHOLD) as Hp'.
  { destruct Hp as [Hp|(ks & Hks & Hsz)]; [left; by apply Forall_cons in Hp as [_ ?]|right].
    exists ks. split; [|done]. simpl in Hks. set_solver. }
  assert (of_key k h = bool_decide (hit_key h = k)) as Eo by done.
  cbn [List.filter fst]. rewrite Eo. case_bool_decide as Ek.
  - destruct Hs as [El ->]. cbn [key_run]. rewrite (Hwh Ek). f_equal. apply (IH rl' _ (hit_now h)); try done. left. by rewrite El.
  - apply (IH rl' _ (hit_now h)); done.
Qed.

(** Counting the hits a key is allowed in [t, t + W). *)
Definition counts (t W : N) (ho : Hit * RateLimitOutcome) : bool :=
  bool_decide (ho.2 = Allowed) && (t <=? hit_now ho.1)%N && (hit_now ho.1 <? t + W)%N.

Definition allowed_in (t W : N) (l : list (Hit * RateLimitOutcome)) : nat := length (List.filter (counts t W) l).

(** What a key may still be allowed before [t + W], given its window: the rest of a window
    that started in the span, or of one that started before it plus one more window. *)
Definition budget (t max : N) (w : option Window) : N :=
  match w with
  | Some w => if (t <=? window_start w)%N then max - count w else (max - count w) + max
  | None => max
  end.

Lemma budget_hit t W max w now : (max < u32_max)%N -> (t <= now < t + W)%N ->
  (budget t max (Some (hit w W now)) + (if (max <? count (hit w W now))%N then 0 else 1) <= budget t max w)%N.
Proof.
  intros Hm Hn. unfold hit, budget, saturating_add. destruct w as [[c s]|]; simpl.
  - destruct (N.leb_spec W (now - s)); simpl.
    + destruct (N.leb_spec t now); [|lia]. destruct (N.leb_spec t s); [lia|].
      destruct (N.ltb_spec max (N.min (0 + 1) u32_max)); lia.
    + destruct (N.leb_spec t s), (N.ltb_spec max (N.min (c + 1) u32_max)); lia.
  - rewrite N.sub_diag. destruct (N.leb_spec W 0); simpl; destruct (N.leb_spec t now); try lia;
      destruct (N.ltb_spec max (N.min (0 + 1) u32_max)); lia.
Qed.

Lemma key_run_late t W hits : Forall (fun h => (t + W <= hit_now h)%N) hits ->
  forall w, allowed_in t W (key_run w hits) = 0.
Proof.
  intros Hf. induction Hf as [|h hits Hh Hf IH]; intros w; [done|]. unfold allowed_in in *. cbn [key_run List.filter].
  unfold counts at 1. simpl. rewrite (proj2 (N.ltb_ge _ _) Hh), andb_false_r. apply IH.
Qed.

Lemma key_run_span t W max hits : (max < u32_max)%N ->
  forall w, Forall (fun h => hit_max h = max /\ hit_window h = W /\ (t <= hit_now h)%N) hits ->
  ordered N.le (map hit_now hits) -> (N.of_nat (allowed_in t W (key_run w hits)) <= budget t max w)%N.
Proof.
  intros Hm. induction hits as [|h hits IH]; intros w Hf Ho; [apply N.le_0_l|].
  apply Forall_cons in Hf as [(Em & Ew & Ht) Hf]. cbn [map] in Ho; apply ordered_cons in Ho as [Hle Ho].
  destruct (N.ltb_spec (hit_now h) (t + W)) as [Hn|Hn].
  - pose proof (budget_hit t W max w (hit_now h) Hm (conj Ht Hn)) as Hb.
    specialize (IH (Some (hit w W (hit_now h))) Hf Ho). cbn [key_run]. rewrite Em, Ew. unfold allowed_in in *. cbn [List.filter].
    unfold counts at 1. cbn [fst snd]. rewrite (proj2 (N.leb_le _ _) Ht), (proj2 (N.ltb_lt _ _) Hn).
    destruct (N.ltb_spec max (count (hit w W (hit_now h)))).
    + rewrite bool_decide_eq_false_2 by done. cbn [andb]. lia.
    + rewrite bool_decide_eq_true_2 by done. cbn [andb length]. lia.
  - assert (allowed_in t W (key_run w (h :: hits)) = 0) as ->; [|lia]. clear IH. apply key_run_late.
    constructor; [done|]. rewrite List.Forall_map in Hle. eapply Forall_impl; [exact Hle|]. simpl. lia.
Qed.

Lemma key_run_bound t W max hits : (max < u32_max)%N ->
  forall w, Forall (fun h => hit_max h = max /\ hit_window h = W) hits -> ordered N.le (map hit_now hits) ->
  (N.of_nat (allowed_in t W (key_run w hits)) <= 2 * max)%N.
Proof.
  intros Hm. induction hits as [|h hits IH]; intros w Hf Ho; [apply N.le_0_l|].
  destruct (N.leb_spec t (hit_now h)) as [Ht|Ht].
  - etrans; [apply (key_run_span t W max (h :: hits) Hm w)|]; [|done|].
    + cbn [map] in Ho; apply ordered_cons in Ho as [Hle _]. rewrite List.Forall_map in Hle. apply Forall_cons in Hf as [Hh Hf].
      constructor; [naive_solver|]. eapply Forall_impl; [exact (proj2 (Forall_and _ _) (conj Hf Hle))|].
      simpl. intros x [[??] ?]. split_and!; [done|done|lia].
    + unfold budget. destruct w as [w|]; [destruct (t <=? _)%N|]; lia.
  - apply Forall_cons in Hf as [_ Hf]. cbn [map] in Ho; apply ordered_cons in Ho as [_ Ho]. unfold allowed_in in *.
    cbn [key_run List.filter]. unfold counts at 1. simpl. rewrite (proj2 (N.leb_gt _ _) Ht), andb_false_r. by apply IH.
Qed.

(** Rate limits hold per client.  Over any run of requests from the empty limiter, with a
    clock that does not go back, a key of one tier is allowed exactly when the reference
    limiter of its own hits allows it, whatever the other keys do, and never more than
    twice its limit within one window's length; provided no request of the run has a
    shorter window, or the run tracks at most [PRUNE_THRESHOLD] keys. *)
Theorem limiter_bounds (k : string) (W max t : N) (hits : list Hit) :
  (max < u32_max)%N -> prune_harmless W hits -> clock_ordered hits ->
  Forall (fun h => hit_key h = k -> hit_max h = max /\ hit_window h = W) hits ->
  let mine := List.filter (fun ho => of_key k ho.1) (limiter_run ∅ hits) in
  mine = key_run None (List.filter (of_key k) hits) /\ (N.of_nat (allowed_in t W mine) <= 2 * max)%N.
Proof.
  intros Hm Hp Ho Hf mine.
  assert (mine = key_run None (List.filter (of_key k) hits)) as E.
  { apply (limiter_run_key W k hits ∅ None 0).
    - destruct Hp as [Hp|Hp]; [by left|right]. eexists. split; [|exact Hp]. set_solver.
    - eapply Forall_impl; [exact Hf|]. simpl. intros h Hh Ek. by apply Hh.
    - apply ordered_cons. split; [|done]. apply Forall_forall. intros x _. lia.
    - by left. }
  split; [done|]. rewrite E. apply key_run_bound; [done| |].
  - apply List.Forall_forall. intros h [Hin Hk]%filter_In. rewrite List.Forall_forall in Hf. apply Hf; [done|].
    unfold of_key in Hk. by breflect.
  - apply ordered_map, ordered_filter, ordered_map, Ho.
Qed.

(** A tier with a short window erases the counters of a longer one.  Above
    [PRUNE_THRESHOLD] tracked keys, one request with window [w] makes the limiter forget
    every client whose window is at least [w] old, also of tiers whose window [W] has not
    elapsed: a client over its limit, refused if it came first, is allowed again. *)
Theorem prune_forgets_longer_tier (rl : RateLimiter) (k key : string) (win : Window)
    (max W max' w now : N) :
  PRUNE_THRESHOLD < size rl -> rl !! k = Some win -> key <> k ->
  (max < u32_max)%N -> (max <= count win)%N -> (0 < max)%N ->
  (w <= now - window_start win)%N -> (now - window_start win < W)%N ->
  (check rl k max W now).2 = Limited /\
  (check (check rl key max' w now).1 k max W now).2 = Allowed.
Proof.
  intros Hs Hk Hne Hu Hc H0 Hw HW. split; unfold check; simpl.
  - assert (prune rl W now !! k = Some win) as ->.
    { unfold prune. rewrite (proj2 (Nat.ltb_lt _ _) Hs). by apply map_lookup_filter_Some. }
    unfold hit, saturating_add. rewrite (proj2 (N.leb_gt _ _) HW). simpl. destruct (N.ltb_spec max (N.min (count win + 1) u32_max)); [done|lia].
  - set (rl1 := <[key := _]> (prune rl w now)).
    assert (rl1 !! k = None) as Hn.
    { unfold rl1. rewrite lookup_insert_ne by done. unfold prune. rewrite (proj2 (Nat.ltb_lt _ _) Hs).
      apply map_lookup_filter_None. right. intros x Hx. simpl. simplify_eq. lia. }
    assert (prune rl1 W now !! k = None) as ->.
    { unfold prune. destruct (_ <? _); [|done]. apply map_lookup_filter_None. by left. }
    unfold hit, saturating_add. simpl. rewrite N.sub_diag. destruct (N.leb_spec W 0); simpl;
      (destruct (max <? _)%N eqn:El; [apply N.ltb_lt in El; lia|done]).
Qed.
End Limiter.

(** ** Sessions against a store that never forgets *)

Section Sessions.
Import Session.
Context `{Sha256}.

Inductive SessionOp : Type :=
| OpMint (raw : bytes) (user mail device : string) (ttl now : N)
| OpResolve (token : string) (now : N)
| OpInvalidate (token : string).

Definition op_token (op : SessionOp) : string :=
  match op with
  | OpMint raw _ _ _ _ _ => of_bytes (Proto.hex_lower raw)
  | OpResolve token _ | OpInvalidate token => token
  end.

Definition op_time (op : SessionOp) : option N :=
  match op with OpMint _ _ _ _ _ now | OpResolve _ now => Some now | OpInvalidate _ => None end.

(** The implementation: every answer of a run. *)
Fixpoint session_run (s : SessionStore) (ops : list SessionOp) : list (option SessionClaims) :=
  match ops with
  | [] => []
  | OpMint raw u m d ttl now :: ops' => session_run (mint s raw u m d ttl now).1 ops'
  | OpResolve token now :: ops' => let '(s', r) := resolve s token now in r :: session_run s' ops'
  | OpInvalidate token :: ops' => session_run (invalidate s token) ops'
  end.

(** The specification: sessions by token; one is live from its mint to its expiry or its
    invalidation.  No hash, and nothing is dropped on lookup. *)
Fixpoint session_spec (s : gmap string SessionRecord) (ops : list SessionOp) : list (option SessionClaims) :=
  match ops with
  | [] => []
  | OpMint raw u m d ttl now :: ops' =>
      session_spec (<[of_bytes (Proto.hex_lower raw) := mkSession u m d (saturating_add u64_max now ttl)]> s) ops'
  | OpResolve token now :: ops' =>
      (match s !! token with
       | Some r => if (now <=? expires_at r)%N then Some (mkClaims (user_id r) (email r) (device_id r)) else None
       | None => None
       end) :: session_spec s ops'
  | OpInvalidate token :: ops' => session_spec (delete token s) ops'
  end.

(** At time [t] the store holds, under each token's hash, what the specification holds, or
    nothing where that has expired. *)
Definition sessions_agree (ts : list string) (t : N) (s : SessionStore) (sp : gmap string SessionRecord) : Prop :=
  forall token, In token ts -> s !! hash_token token = sp !! token \/
    s !! hash_token token = None /\ exists r, sp !! token = Some r /\ (expires_at r < t)%N.

Lemma hash_token_inj ts t1 t2 : collision_free (map as_bytes ts) -> In t1 ts -> In t2 ts ->
  hash_token t1 = hash_token t2 -> t1 = t2.
Proof. intros Hc H1 H2 E. apply as_bytes_inj, Hc; [by apply in_map..|done]. Qed.

Lemma sessions_agree_later ts t t' s sp : (t <= t')%N -> sessions_agree ts t s sp -> sessions_agree ts t' s sp.
Proof.
  intros Ht Ha token Hin. destruct (Ha token Hin) as [?|(? & r & ? & ?)]; [by left|].
  right. split; [done|]. exists r. split; [done|lia].
Qed.

(** The same change under a token and under its hash. *)
Lemma sessions_agree_alter ts t s sp token (v : option SessionRecord) :
  collision_free (map as_bytes ts) -> In token ts -> sessions_agree ts t s sp ->
  sessions_agree ts t (partial_alter (fun _ => v) (hash_token token) s) (partial_alter (fun _ => v) token sp).
Proof.
  intros Hc Hin Ha token' Hin'. destruct (decide (token' = token)) as [->|Hne].
  - left. by rewrite !lookup_partial_alter_eq.
  - rewrite !lookup_partial_alter_ne; [by apply Ha|congruence|].
    intros E. by apply Hne, (hash_token_inj ts).
Qed.

(** The lazy removal of an expired record. *)
Lemma sessions_agree_drop ts t s sp token r :
  collision_free (map as_bytes ts) -> In token ts -> sessions_agree ts t s sp ->
  sp !! token = Some r -> (expires_at r < t)%N -> sessions_agree ts t (delete (hash_token token) s) sp.
Proof.
  intros Hc Hin Ha Hr Ht token' Hin'. destruct (decide (token' = token)) as [->|Hne].
  - right. rewrite lookup_delete_eq. eauto.
  - rewrite lookup_delete_ne; [by apply Ha|]. intros E. by apply Hne, (hash_token_inj ts).
Qed.

Lemma session_run_spec ts ops : collision_free (map as_bytes ts) -> forall t s sp,
  Forall (fun op => In (op_token op) ts) ops -> ordered N.le (t :: omap op_time ops) ->
  sessions_agree ts t s sp -> session_run s ops = session_spec sp ops.
Proof.
  intros Hc. induction ops as [|op ops IH]; intros t s sp Ht Ho Ha; [done|].
  apply Forall_cons in Ht as [Hin Ht]. destruct op as [raw u m d ttl now|token now|token]; csimpl in *.
  - apply ordered_cons in Ho as [[Hn _]%Forall_cons Ho]. apply (IH now); [done|done|].
    apply (sessions_agree_alter ts now s sp _ (Some _)); [done|done|]. by apply (sessions_agree_later ts t).
  - apply ordered_cons in Ho as [[Hn _]%Forall_cons Ho]. apply (sessions_agree_later _ _ _ _ _ Hn) in Ha.
    unfold resolve. destruct (Ha token Hin) as [E|(E & r & Er & Hr)].
    + rewrite E. destruct (sp !! token) as [r|] eqn:Er; [|f_equal; by apply (IH now)].
      destruct (N.leb_spec now (expires_at r)); f_equal; [by apply (IH now)|].
      apply (IH now); [done|done|]. by apply (sessions_agree_drop ts now s sp token r).
    + rewrite E, Er. destruct (N.leb_spec now (expires_at r)); [lia|]. f_equal. by apply (IH now).
  - apply (IH t); [done|done|]. by apply (sessions_agree_alter ts t s sp token None).
Qed.

(** The session store implements its specification.  Over any run of mints, lookups and
    invalidations with a clock that does not go back, every lookup answers as the map from
    tokens to sessions does: the claims of the last mint of that token until its expiry or
    invalidation, and nothing otherwise; although only hashes are kept (relative to no
    SHA-256 collision among the run's tokens) and expired records are dropped on lookup. *)
Theorem session_store_refines (ops : list SessionOp) :
  collision_free (map (fun op => as_bytes (op_token op)) ops) -> ordered N.le (omap op_time ops) ->
  session_run ∅ ops = session_spec ∅ ops.
Proof.
  intros Hc Ho. apply (session_run_spec (map op_token ops) ops) with (t := 0%N).
  - by rewrite map_map.
  - apply List.Forall_forall. intros op Hin. by apply in_map.
  - apply ordered_cons. split; [|done]. apply Forall_forall. intros x _. lia.
  - intros token _. by left.
Qed.
End Sessions.

(** ** One-time codes over a run *)

Section Otps.
Import Otp.
Context `{Sha256} `{Lowercase}.

Lemma lxor_zero a b : N.lxor a b = 0%N <-> a = b.
Proof. split; [apply N.lxor_eq|intros ->; apply N.lxor_nilpotent]. Qed.

Lemma diff_fold l acc :
  fold_left (fun diff (xy : byte * byte) => N.lor diff (N.lxor (N_of_byte xy.1) (N_of_byte xy.2))) l acc = 0%N <->
  acc = 0%N /\ Forall (fun xy => xy.1 = xy.2) l.
Proof.
  revert acc. induction l as [|[x y] l IH]; intros acc; simpl; [split; [by split; [|constructor]|by intros [? _]]|].
  rewrite IH, Forall_cons, N.lor_eq_0_iff, lxor_zero. simpl. split.
  - intros [[-> E] Hf]. split; [done|]. split; [|done]. by rewrite <- (byte_of_N_of_byte x), E, byte_of_N_of_byte.
  - by intros (-> & -> & Hf).
Qed.

Lemma combine_diag (a b : bytes) : length a = length b -> Forall (fun xy => xy.1 = xy.2) (combine a b) -> a = b.
Proof.
  revert b. induction a as [|x a IH]; intros [|y b] El Hf; simpl in *; try done.
  apply Forall_cons in Hf as [Hx Hf]. simpl in Hx. subst. f_equal. apply IH; [lia|done].
Qed.

Lemma combine_same (a : bytes) : Forall (fun xy => xy.1 = xy.2) (combine a a).
Proof. induction a; simpl; constructor; done. Qed.

(** The constant-time comparison is equality. *)
Lemma constant_time_eq_spec a b : constant_time_eq a b = true <-> a = b.
Proof.
  unfold constant_time_eq. destruct (Nat.eqb_spec (length a) (length b)) as [El|Hne]; simpl.
  - rewrite N.eqb_eq, diff_fold. split.
    + intros [_ Hf]. by apply combine_diag.
    + intros ->. split; [done|apply combine_same].
  - split; [done|]. congruence.
Qed.

Inductive OtpOp : Type :=
| OpPrepare (new_salt : bytes) (mail code : string) (ttl throttle now : N)
| OpCheck (mail code : string) (max now : N)
| OpConsume (mail : string).

Inductive OtpAnswer : Type := APrepared (o : PrepareOutcome) | AChecked (o : VerifyOutcome) | AConsumed.

Definition otp_step (st : OtpStore) (op : OtpOp) : OtpStore * OtpAnswer :=
  match op with
  | OpPrepare new_salt mail code ttl throttle now =>
      let '(st', o) := prepare st new_salt mail code ttl throttle now in (st', APrepared o)
  | OpCheck mail code max now => let '(st', o) := check st mail code max now in (st', AChecked o)
  | OpConsume mail => (consume st mail, AConsumed)
  end.

Fixpoint otp_run (st : OtpStore) (ops : list OtpOp) : list (OtpOp * OtpAnswer) :=
  match ops with
  | [] => []
  | op :: ops' => let '(st', a) := otp_step st op in (op, a) :: otp_run st' ops'
  end.

(** A code sent to the mailbox [k], and a guess for [k] that was tested and refused. *)
Definition sent_to (k : string) (e : OtpOp * OtpAnswer) : bool :=
  match e with
  | (OpPrepare _ mail _ _ _ _, APrepared (Send _)) => bool_decide (normalize_email mail = k)
  | _ => false
  end.

Definition refused_for (k : string) (e : OtpOp * OtpAnswer) : bool :=
  match e with
  | (OpCheck mail _ _ _, AChecked (Invalid | LockedOut)) => bool_decide (normalize_email mail = k)
  | _ => false
  end.

Definition tally (p : OtpOp * OtpAnswer -> bool) (l : list (OtpOp * OtpAnswer)) : N :=
  N.of_nat (length (List.filter p l)).

(** The attempt limit in force for [k]. *)
Definition limit_is (k : string) (m : N) (op : OtpOp) : Prop :=
  match op with OpCheck mail _ max _ => normalize_email mail = k -> max = m | _ => True end.

(** No record is ever locked (a lockout deletes it), and none of [k] is past the limit. *)
Definition otp_inv (k : string) (m : N) (st : OtpStore) : Prop :=
  map_Forall (fun _ r => locked r = false) st /\ forall r, st !! k = Some r -> (attempts r <= m)%N.

Definition guesses_left (k : string) (m : N) (st : OtpStore) : N :=
  match st !! k with Some r => (m + 1 - attempts r)%N | None => 0%N end.

Lemma otp_inv_insert k m st key r : otp_inv k m st -> locked r = false -> (key = k -> (attempts r <= m)%N) ->
  otp_inv k m (<[key := r]> st).
Proof.
  intros [Hl Ha] Hr Hk. split; [by apply map_Forall_insert_2|]. intros r'.
  destruct (decide (key = k)) as [->|Hne]; [rewrite lookup_insert_eq; intros [= <-]; auto|].
  rewrite lookup_insert_ne by done. auto.
Qed.

Lemma otp_inv_delete k m st key : otp_inv k m st -> otp_inv k m (delete key st).
Proof.
  intros [Hl Ha]. split; [by apply map_Forall_delete|]. intros r [_ Hr]%lookup_delete_Some. auto.
Qed.

Lemma guesses_left_delete k m st key : (guesses_left k m (delete key st) <= guesses_left k m st)%N.
Proof.
  unfold guesses_left. destruct (decide (key = k)) as [->|Hne]; [rewrite lookup_delete_eq; lia|].
  by rewrite lookup_delete_ne.
Qed.

(** One operation: a refused guess costs a unit of what a sent code grants. *)
Lemma otp_step_potential k m st op st' a : (m < u32_max)%N -> limit_is k m op -> otp_inv k m st ->
  otp_step st op = (st', a) ->
  otp_inv k m st' /\
  ((if refused_for k (op, a) then 1 else 0) + guesses_left k m st' <=
   guesses_left k m st + (if sent_to k (op, a) then m + 1 else 0))%N.
Proof.
  intros Hm Hlim Hinv E. pose proof Hinv as [Hl Ha]. destruct op as [slt mail code ttl th now|mail code max now|mail]; simpl in *.
  - unfold prepare in E. destruct (match st !! _ with Some _ => _ | None => _ end); simplify_eq; simpl; [split; [done|lia]|].
    split; [apply otp_inv_insert; [done|done|simpl; lia]|]. unfold guesses_left.
    case_bool_decide as Ek; [subst k; rewrite lookup_insert_eq; simpl; lia|]. rewrite lookup_insert_ne by done. lia.
  - unfold check in E. destruct (st !! normalize_email mail) as [r|] eqn:Er; [|simplify_eq; simpl; split; [done|lia]].
    rewrite (Hl _ _ Er) in E. destruct (expires_at r <? now)%N; [simplify_eq; simpl; split; [by apply otp_inv_delete|]|].
    { rewrite N.add_0_r. apply guesses_left_delete. }
    destruct (constant_time_eq _ _); [simplify_eq; simpl; split; [done|lia]|].
    destruct (max <? as_u32 (attempts r + 1))%N eqn:Emax; apply pair_equal_spec in E as [<- <-]; simpl.
    + split; [by apply otp_inv_delete|]. case_bool_decide as Ek; [|rewrite N.add_0_r; apply guesses_left_delete].
      subst k. unfold guesses_left. rewrite lookup_delete_eq, Er. specialize (Ha _ Er). lia.
    + apply N.ltb_ge in Emax. split; [apply otp_inv_insert; [done|done|]|].
      { intros <-. simpl. by rewrite <- (Hlim eq_refl). }
      unfold guesses_left. case_bool_decide as Ek; [|rewrite lookup_insert_ne by done; lia].
      subst k. rewrite lookup_insert_eq, Er. simpl. specialize (Ha _ Er). unfold as_u32, u32_max in *.
      rewrite N.mod_small by lia. lia.
  - simplify_eq. simpl. split; [by apply otp_inv_delete|]. rewrite N.add_0_r. apply guesses_left_delete.
Qed.

Lemma tally_cons p e l : tally p (e :: l) = ((if p e then 1 else 0) + tally p l)%N.
Proof. unfold tally. simpl. destruct (p e); simpl; lia. Qed.

Lemma otp_run_potential k m ops : (m < u32_max)%N -> forall st, Forall (limit_is k m) ops -> otp_inv k m st ->
  (tally (refused_for k) (otp_run st ops) <=
   guesses_left k m st + (m + 1) * tally (sent_to k) (otp_run st ops))%N.
Proof.
  intros Hm. induction ops as [|op ops IH]; intros st Hlim Hinv; [simpl; unfold tally; simpl; lia|].
  apply Forall_cons in Hlim as [Hop Hlim]. simpl. destruct (otp_step st op) as [st' a] eqn:E.
  destruct (otp_step_potential k m st op st' a Hm Hop Hinv E) as [Hinv' Hp]. specialize (IH st' Hlim Hinv').
  rewrite !tally_cons. destruct (refused_for k (op, a)), (sent_to k (op, a)); lia.
Qed.

(** Guessing is bounded.  In any run of the store from empty (any mailboxes, any order,
    codes re-sent at will), the wrong guesses tested for a mailbox are at most
    [max_attempts + 1] for each code sent to it. *)
Theorem otp_guesses_bounded (k : string) (m : N) (ops : list OtpOp) :
  (m < u32_max)%N -> Forall (limit_is k m) ops ->
  (tally (refused_for k) (otp_run ∅ ops) <= (m + 1) * tally (sent_to k) (otp_run ∅ ops))%N.
Proof.
  intros Hm Hlim. assert (otp_inv k m ∅) as Hinv.
  { split; [apply map_Forall_empty|]. intros r. by rewrite lookup_empty. }
  pose proof (otp_run_potential k m ops Hm ∅ Hlim Hinv) as Hp. unfold guesses_left in Hp. by rewrite lookup_empty in Hp.
Qed.

Lemma check_ok_same st mail code max now st' : check st mail code max now = (st', VOk) -> st' = st.
Proof.
  unfold check. destruct (st !! _) as [r|]; [|done]. destruct (locked r); [done|]. destruct (_ <? _)%N; [done|].
  destruct (constant_time_eq _ _); [by intros [= <-]|]. destruct (_ <? _)%N; done.
Qed.

Definition account_username (mail ulid : string) : string :=
  String.append (String.append (split_first x40 mail) "_") (last4 ulid).

(** Verify-otp is all or nothing.  It succeeds exactly when the code checks out, the lookup
    is answered, and the mailbox has an account or one can be inserted.  Then the code is
    gone, the returned token opens a session of that account on that device, and the
    account is the row with the given address or a fresh row without identity.  A database
    failure changes nothing, so the same code still works; a refused code touches neither
    accounts nor sessions. *)
Theorem verify_otp_atomic (select_ok insert_ok : bool) (raw : bytes) (ulid : string) (cfg : OtpConfig)
    (s : OtpState) (mail code device_id : string) (now_check now : N) :
  let '(s', r) := apply_verify_otp select_ok insert_ok raw ulid cfg s mail code device_id now_check now in
  let good := (check (otps s) mail code (max_attempts cfg) now_check).2 = VOk in
  let known := exists u, In u (users s) /\ usr_email u = mail in
  match r with
  | Some (VerifiedOk uid name is_new has_identity token _) =>
      good /\ otps s' = delete (normalize_email mail) (otps s) /\
      sessions s' = <[Session.hash_token token :=
        Session.mkSession uid mail device_id (saturating_add u64_max now (session_ttl_secs cfg))]> (sessions s) /\
      token = of_bytes (Proto.hex_lower raw) /\
      (if is_new then ~ known /\ uid = ulid /\ has_identity = false /\ users s' = users s ++ [mkUser uid mail name None]
       else users s' = users s /\ exists u, In u (users s) /\ usr_email u = mail /\ usr_id u = uid /\
              usr_username u = name /\ has_identity = negb (bool_decide (usr_account_id_pub u = None)))
  | Some _ => ~ good /\ users s' = users s /\ sessions s' = sessions s
  | None =>
      good /\ s' = s /\
      (select_ok = false \/ ~ known /\ (insert_ok = false \/
         user_conflict (users s) ulid mail (account_username mail ulid) = true))
  end.
Proof.
  unfold apply_verify_otp. destruct (check (otps s) mail code (max_attempts cfg) now_check) as [st1 o] eqn:Ec. simpl.
  destruct o; try (split; [done|by split]). apply check_ok_same in Ec. subst st1.
  destruct select_ok; simpl; [|split; [done|split; [by destruct s|by left]]].
  destruct (find (fun u => bool_decide (usr_email u = mail)) (users s)) as [u|] eqn:Ef; simpl.
  - apply find_some in Ef as [Hin Hu]. breflect. split_and!; try done. by exists u.
  - assert (~ exists u, In u (users s) /\ usr_email u = mail) as Hn.
    { intros (u & Hin & Hu). pose proof (find_none _ _ Ef u Hin) as Hb. simpl in Hb. by breflect. }
    fold (account_username mail ulid). destruct (negb insert_ok || _) eqn:Eb; simpl.
    + split; [done|]. split; [by destruct s|]. right. split; [done|]. apply orb_true_iff in Eb as [E|E]; [left; by breflect|by right].
    + repeat (split; [done|]). done.
Qed.

(** The address that was proven is the one asked for, up to normalization.  A code sent to
    one spelling opens the account of any other spelling with the same normal form: the
    store is keyed by the normal form, the account is looked up as typed. *)
Theorem otp_proves_normal_form_only (raw slt : bytes) (ulid : string) (cfg : OtpConfig) (s : OtpState)
    (mine theirs code device_id : string) (u : UserRow) (now : N) :
  normalize_email mine = normalize_email theirs -> In u (users s) -> usr_email u = theirs ->
  otps s !! normalize_email mine = None -> (now <= u64_max)%N ->
  let '(otps1, sent) := prepare (otps s) slt mine code (ttl_secs cfg) (resend_throttle_secs cfg) now in
  sent = Send code /\
  exists s' name has token expiry v, usr_email v = theirs /\ In v (users s) /\
    apply_verify_otp true true raw ulid cfg (mkOtpState (users s) otps1 (sessions s)) theirs code device_id now now =
    (s', Some (VerifiedOk (usr_id v) name false has token expiry)).
Proof.
  intros En Hin Hu Hnone Hnow. unfold prepare. rewrite Hnone. split; [done|].
  unfold apply_verify_otp, check. cbn [otps users sessions]. rewrite <- En, lookup_insert_eq. cbn [locked].
  rewrite (proj2 (N.ltb_ge _ _)) by (cbn [expires_at]; unfold saturating_add; lia). cbn [salt code_hash].
  rewrite (proj2 (constant_time_eq_spec _ _) eq_refl). simpl.
  destruct (find (fun u => bool_decide (usr_email u = theirs)) (users s)) as [v|] eqn:Ef; simpl.
  - apply find_some in Ef as [Hv Hev]. breflect. do 5 eexists. exists v. done.
  - pose proof (find_none _ _ Ef u Hin) as Hb. simpl in Hb. by breflect.
Qed.
End Otps.

(** ** The theorems at concrete inputs *)

Section Witnesses.

(** ASCII case folding, enough for the addresses below. *)
#[local] Definition ascii_lower (b : byte) : byte :=
  if in_range b 0x41 0x5A then byte_of_N (N_of_byte b + 32) else b.

#[local] Instance ascii_lowercase : Lowercase := {| to_lowercase s := of_bytes (map ascii_lower (as_bytes s)) |}.

#[local] Definition hits_of (key : string) (max window : N) (times : list N) : list Hit :=
  map (mkHit key max window) times.

#[local] Definition sample_hits : list Hit :=
  hits_of "write:a" 2 60 [0; 0; 59; 59; 61; 61; 61; 119]%N.

Lemma limiter_bounds_witness :
  let mine := List.filter (fun ho => of_key "write:a" ho.1) (limiter_run ∅ sample_hits) in
  mine = key_run None (List.filter (of_key "write:a") sample_hits) /\
  (N.of_nat (allowed_in 0 60 mine) <= 2 * 2)%N.
Proof.
  refine (limiter_bounds "write:a" 60 2 0 sample_hits _ _ _ _).
  - done.
  - left. apply (bool_decide_unpack _). vm_compute. done.
  - unfold clock_ordered. simpl. repeat (apply ordered_cons; split; [apply (bool_decide_unpack _); vm_compute; done|]).
    apply ordered_nil.
  - unfold sample_hits. simpl. repeat (constructor; [done|]). constructor.
Defined.

(** A spread of clients, one window each. *)
#[local] Definition crowd : RateLimit.RateLimiter :=
  <["otp_request:eve" := RateLimit.mkWindow 10 0]>
    (list_to_map (map (fun i => (pretty (N.of_nat i), RateLimit.mkWindow 1 0)) (seq 0 10001))).

Lemma prune_forgets_longer_tier_witness :
  (RateLimit.check crowd "otp_request:eve" 10 600 60).2 = RateLimit.Limited /\
  (RateLimit.check (RateLimit.check crowd "write:bob" 1200 60 60).1 "otp_request:eve" 10 600 60).2 =
    RateLimit.Allowed.
Proof.
  refine (prune_forgets_longer_tier crowd "otp_request:eve" "write:bob" (RateLimit.mkWindow 10 0) 10 600 1200 60 60
    _ _ _ _ _ _ _ _); try (vm_compute; done).
  apply Nat.ltb_lt. vm_compute. reflexivity.
Defined.

#[local] Definition sample_sessions : list SessionOp :=
  let token := of_bytes (Proto.hex_lower (repeat x07 32)) in
  [OpMint (repeat x07 32) "alice" "a@x.io" "phone" 600 1000; OpResolve token 1600; OpResolve token 1601;
   OpResolve token 1601; OpMint (repeat x08 32) "bob" "b@x.io" "mac" 600 1601;
   OpInvalidate (of_bytes (Proto.hex_lower (repeat x08 32)))].

Lemma session_store_refines_witness : session_run ∅ sample_sessions = session_spec ∅ sample_sessions.
Proof.
  refine (session_store_refines sample_sessions _ _).
  - apply collision_freeb_spec. vm_compute. reflexivity.
  - unfold sample_sessions. simpl. repeat (apply ordered_cons; split; [apply (bool_decide_unpack _); vm_compute; done|]).
    apply ordered_nil.
Defined.

#[local] Definition sample_guesses : list OtpOp :=
  [OpPrepare (repeat x01 16) "A@x.io " "123456" 600 30 1000; OpCheck "a@x.io" "000000" 1 1001;
   OpCheck "a@x.io" "000001" 1 1002; OpCheck "a@x.io" "123456" 1 1003].

Lemma otp_guesses_bounded_witness :
  (tally (refused_for "a@x.io") (otp_run ∅ sample_guesses) <=
   (1 + 1) * tally (sent_to "a@x.io") (otp_run ∅ sample_guesses))%N.
Proof. exact (otp_guesses_bounded "a@x.io" 1 sample_guesses ltac:(reflexivity) ltac:(repeat constructor)). Defined.

#[local] Definition one_account : Otp.OtpState :=
  Otp.mkOtpState [Otp.mkUser "01ALICE" "alice@x.io" "alice" None] ∅ ∅.

Lemma otp_proves_normal_form_only_witness :
  let '(otps1, sent) := Otp.prepare (Otp.otps one_account) (repeat x01 16) "Alice@x.io" "123456" 600 30 1000 in
  sent = Otp.Send "123456" /\
  exists s' name has token expiry v, Otp.usr_email v = "alice@x.io" /\ In v (Otp.users one_account) /\
    Otp.apply_verify_otp true true (repeat x07 32) "01EVE0" Otp.default
      (Otp.mkOtpState (Otp.users one_account) otps1 (Otp.sessions one_account)) "alice@x.io" "123456" "phone" 1000 1000 =
    (s', Some (Otp.VerifiedOk (Otp.usr_id v) name false has token expiry)).
Proof.
  exact (otp_proves_normal_form_only (repeat x07 32) (repeat x01 16) "01EVE0" Otp.default one_account
    "Alice@x.io" "alice@x.io" "123456" "phone" (Otp.mkUser "01ALICE" "alice@x.io" "alice" None) 1000
    eq_refl (or_introl eq_refl) eq_refl eq_refl ltac:(done)).
Defined.

(** A lockout deletes the record that carries the time of the last mail, so the next
    request is not throttled. *)
Example lockout_lifts_throttle :
  let ops := [OpPrepare (repeat x01 16) "a@x.io" "123456" 600 30 1000; OpPrepare (repeat x02 16) "a@x.io" "222222" 600 30 1001;
              OpCheck "a@x.io" "0" 0 1001; OpPrepare (repeat x03 16) "a@x.io" "333333" 600 30 1001] in
  map snd (otp_run ∅ ops) =
  [APrepared (Otp.Send "123456"); APrepared Otp.Throttled; AChecked Otp.LockedOut; APrepared (Otp.Send "333333")].
Proof. vm_compute. reflexivity. Qed.
End Witnesses.
