(* ===== verification/Access.v ===== *)
(** * pollis-delivery: who may write to the commit-log database

    Models [auth.rs] (canonical request bytes, credentials, the device-key lookup and
    [verify_request]), the gates of [writes.rs], the five control-plane handlers of
    [writes.rs] around the statements of [Delivery], the whole [submit] handler of
    [lib.rs], and the rate-limiting middleware in front of them.

    [AppState] holds the two databases and the in-memory stores.  A handler takes the
    request and returns the state and the reply; every database step may fail ([Faults]).
    [serde_json::from_slice] and base64 are interfaces. *)

From stdpp Require Import base list strings gmap pretty.
From Stdlib Require Import NArith ZArith Lia ZifyNat ZifyN.
From Stdlib Require Import Strings.Byte.
From S2P Require Import Prelude Crypto Relay Delivery Text Stores.

(** ** auth.rs *)

Module Auth.

Definition REPLAY_WINDOW_SECS : Z := 300.
Definition H_USER : string := "x-pollis-user".
Definition H_DEVICE : string := "x-pollis-device".
Definition H_TIMESTAMP : string := "x-pollis-timestamp".
Definition H_SIGNATURE : string := "x-pollis-signature".

Inductive AuthRejection : Type := Unauthorized | Forbidden.

Record Credentials := mkCredentials {
  user_id : string;
  device_id : string;
  timestamp : Z;
  signature : bytes
}.

Section Verify.
Context `{Sha256} `{!Ed25519} `{!Base64}.

Definition canonical_message (method path : string) (ts : Z) (body : bytes) : bytes :=
  as_bytes method ++ Proto.newline ++ as_bytes path ++ Proto.newline ++ as_bytes (pretty ts) ++ Proto.newline ++
  Proto.hex_lower (sha256 body).

(** [(now - timestamp).abs() > REPLAY_WINDOW_SECS] in a release build. *)
Definition in_window (now ts : Z) : bool := negb (REPLAY_WINDOW_SECS <? Proto.abs_i64 (wrap_i64 (now - ts)))%Z.

Definition parse_credentials (h : HeaderMap) (now : Z) : Result Credentials AuthRejection :=
  let? user := ok_or (get_str h H_USER) Unauthorized in
  let? device := ok_or (get_str h H_DEVICE) Unauthorized in
  let? ts_str := ok_or (get_str h H_TIMESTAMP) Unauthorized in
  let? sig_b64 := ok_or (get_str h H_SIGNATURE) Unauthorized in
  if bool_decide (user = "") || bool_decide (device = "") then Err Unauthorized
  else
    let? ts := ok_or (parse_i64 ts_str) Unauthorized in
    if negb (in_window now ts) then Err Unauthorized
    else
      let? sig := ok_or (b64_decode_opt sig_b64) Unauthorized in
      if negb (length sig =? 64) then Err Unauthorized
      else Ok (mkCredentials user device ts sig).

(** [lookup_device_pubkey]: the row of that device and user, if it is live and holds a
    usable key. *)
Definition lookup_device_pubkey (fault : Faults) (main : MainDb) (user device : string)
    : Result (option VerifyingKey) DsError :=
  exec fault StDevice
    (match find (fun d => bool_decide (dev_id d = device) && bool_decide (dev_user d = user)) (user_device main) with
     | None => None
     | Some row =>
         match revoked_at row, mls_signature_pub row with
         | None, Some pub => if length pub =? 32 then vk_from_bytes pub else None
         | _, _ => None
         end
     end).

Definition verify_request (fault : Faults) (main : MainDb) (h : HeaderMap) (method path : string) (body : bytes)
    (now : Z) : Result string AuthRejection :=
  let? creds := parse_credentials h now in
  match lookup_device_pubkey fault main (user_id creds) (device_id creds) with
  | Ok (Some vk) =>
      if ed_verify vk (canonical_message method path (timestamp creds) body) (signature creds)
      then Ok (user_id creds) else Err Unauthorized
  | Ok None | Err _ => Err Unauthorized
  end.
End Verify.
End Auth.

(** ** The service state and its requests *)

Record AppState := mkAppState {
  require_auth : bool;
  main_db : MainDb;
  log_db : LogDb;
  session_store : Session.SessionStore;
  rate_config : RateLimit.RateLimitConfig;
  rate_limiter : RateLimit.RateLimiter
}.

Definition set_log (st : AppState) (db : LogDb) : AppState :=
  mkAppState (require_auth st) (main_db st) db (session_store st) (rate_config st) (rate_limiter st).

Definition set_sessions (st : AppState) (s : Session.SessionStore) : AppState :=
  mkAppState (require_auth st) (main_db st) (log_db st) s (rate_config st) (rate_limiter st).

Definition set_limiter (st : AppState) (rl : RateLimit.RateLimiter) : AppState :=
  mkAppState (require_auth st) (main_db st) (log_db st) (session_store st) (rate_config st) rl.

Record Request := mkRequest { method : string; path : string; headers : HeaderMap; body : bytes }.

(** The outside of a request: its clocks (seconds since the epoch as the two types the code
    uses, and the database's text), the generated ids and the failing statements. *)
Record Env := mkEnv {
  fault : Faults;
  now_i64 : Z;
  now_u64 : N;
  now_text : string;
  ulid : nat -> string
}.

Inductive Reply : Type :=
| Rejection (r : Auth.AuthRejection)
| BadRequest (msg : string)
| Internal (e : DsError)
| TooManyRequests
| NoRoute
| StatusOk
| Updated (n : nat)
| Deleted (n : nat)
| Submitted (r : SubmitResponse).

(** ** writes.rs: bodies *)

Record GroupInfoBody := mkGroupInfoBody {
  gib_conversation_id : string;
  gib_epoch : Z;
  gib_group_info : string;
  gib_updated_by_device_id : string
}.

Record AckBody := mkAckBody { welcome_ids : list string; ack_user_id : option string }.

Record ResetBody := mkResetBody { reset_device_id : option string; reset_user_id : option string }.

Record PurgeBody := mkPurgeBody { purge_user_id : option string }.

Record ResubmitBody := mkResubmitBody {
  rsb_conversation_id : string;
  rsb_recipient_id : string;
  rsb_recipient_device_id : string;
  rsb_welcome : string
}.

(** The bodies [serde_json] parses. *)
Class JsonBodies := {
  json_submit :: SerdeJson SubmitBody;
  json_group_info :: SerdeJson GroupInfoBody;
  json_ack :: SerdeJson AckBody;
  json_reset :: SerdeJson ResetBody;
  json_purge :: SerdeJson PurgeBody;
  json_resubmit :: SerdeJson ResubmitBody
}.

Section Handlers.
Context `{Sha256} `{!Ed25519} `{!Base64} `{!JsonBodies}.

(** ** writes.rs: the gates *)

(** [gate]: the authenticated user, [None] when auth is off; a rejection is a reply. *)
Definition gate (e : Env) (st : AppState) (rq : Request) : Result (option string) Reply :=
  if negb (require_auth st) then Ok None
  else
    let? _ := map_err Internal (exec (fault e) StAuthConn tt) in
    let? u := map_err Rejection
      (Auth.verify_request (fault e) (main_db st) (headers rq) (method rq) (path rq) (body rq) (now_i64 e)) in
    Ok (Some u).

Definition gate_or_session (e : Env) (st : AppState) (rq : Request) : AppState * Result (option string) Reply :=
  if negb (require_auth st) then (st, Ok None)
  else if contains_key (headers rq) Auth.H_SIGNATURE then (st, gate e st rq)
  else
    let '(sessions', claims) := Session.verify_session (headers rq) (session_store st) (now_u64 e) in
    (set_sessions st sessions',
     match claims with
     | Some c => Ok (Some (Session.claim_user_id c))
     | None => Err (Rejection Auth.Unauthorized)
     end).

(** [resolve_recipient]'s two error responses. *)
Definition recipient_reply (r : RecipientError) : Reply :=
  match r with
  | RecipientForbidden => Rejection Auth.Forbidden
  | RecipientMissing => BadRequest "user_id required when auth is disabled"
  end.

(** The membership check of a signed request, skipped without auth. *)
Definition require_member (e : Env) (st : AppState) (authed : option string) (c : string) : Result unit Reply :=
  match authed with
  | None => Ok tt
  | Some u =>
      let? m := map_err Internal (query_member (fault e) (main_db st) c u) in
      if m then Ok tt else Err (Rejection Auth.Forbidden)
  end.

Definition parse `{SerdeJson A} (rq : Request) : Result A Reply :=
  map_err (fun _ => BadRequest "invalid body") (from_slice (body rq)).

(** The connection to the commit-log database, and a statement on it. *)
Definition log_conn (e : Env) {A} (a : A) : Result A Reply := map_err Internal (exec (fault e) StLogConn a).

Definition log_write (e : Env) {A} (a : A) : Result A Reply :=
  let? _ := log_conn e tt in map_err Internal (exec (fault e) StWrite a).

(** A handler that ends in a reply either way, and writes only if it succeeds. *)
Definition respond (st : AppState) (r : Result (LogDb * Reply) Reply) : AppState * Reply :=
  match r with
  | Ok (db, reply) => (set_log st db, reply)
  | Err reply => (st, reply)
  end.

(** ** writes.rs: the handlers *)

Definition group_info (e : Env) (st : AppState) (rq : Request) : AppState * Reply :=
  respond st (
    let? authed := gate e st rq in
    let? parsed := parse (A := GroupInfoBody) rq in
    let? _ := require_member e st authed (gib_conversation_id parsed) in
    let? gi := map_err (fun _ => BadRequest "invalid group_info") (b64_decode (gib_group_info parsed)) in
    let? w := log_write e (upsert_group_info (log_db st) (gib_conversation_id parsed) (gib_epoch parsed) gi
                             (gib_updated_by_device_id parsed)) in
    Ok (w.2, StatusOk)).

Definition welcomes_ack (e : Env) (st : AppState) (rq : Request) : AppState * Reply :=
  respond st (
    let? authed := gate e st rq in
    let? parsed := parse (A := AckBody) rq in
    let? recipient := map_err recipient_reply (resolve_recipient authed (ack_user_id parsed)) in
    let? w := match welcome_ids parsed with
              | [] => log_conn e (ack_welcomes (log_db st) recipient [])
              | ids => log_write e (ack_welcomes (log_db st) recipient ids)
              end in
    Ok (w.1, Updated w.2)).

Definition welcomes_reset (e : Env) (st : AppState) (rq : Request) : AppState * Reply :=
  respond st (
    let? authed := gate e st rq in
    let? parsed := parse (A := ResetBody) rq in
    let? recipient := map_err recipient_reply (resolve_recipient authed (reset_user_id parsed)) in
    let? w := log_write e (reset_welcomes (log_db st) recipient (reset_device_id parsed)) in
    Ok (w.1, Updated w.2)).

Definition welcomes_purge (e : Env) (st : AppState) (rq : Request) : AppState * Reply :=
  let '(st, gated) := gate_or_session e st rq in
  respond st (
    let? authed := gated in
    let? parsed := match body rq with [] => Ok (mkPurgeBody None) | _ => parse (A := PurgeBody) rq end in
    let? recipient := map_err recipient_reply (resolve_recipient authed (purge_user_id parsed)) in
    let? w := log_write e (purge_welcomes (log_db st) recipient) in
    Ok (w.1, Deleted w.2)).

Definition welcomes_resubmit (e : Env) (st : AppState) (rq : Request) : AppState * Reply :=
  respond st (
    let? authed := gate e st rq in
    let? parsed := parse (A := ResubmitBody) rq in
    let? _ := require_member e st authed (rsb_conversation_id parsed) in
    let? blob := map_err (fun _ => BadRequest "invalid welcome") (b64_decode (rsb_welcome parsed)) in
    let? _ := log_write e tt in
    let? db := map_err Internal (upsert_welcome (log_db st) (ulid e 0) (rsb_conversation_id parsed)
                 (rsb_recipient_id parsed) (rsb_recipient_device_id parsed) blob) in
    Ok (db, StatusOk)).

(** ** mls/ds_client.rs of pollis-core: the request [ds_post] signs and sends *)

Definition ds_headers (user device : string) (ts : Z) (sig_b64 : string) : HeaderMap := fun name =>
  if bool_decide (name = Auth.H_USER) then Some (Some user)
  else if bool_decide (name = Auth.H_DEVICE) then Some (Some device)
  else if bool_decide (name = Auth.H_TIMESTAMP) then Some (Some (pretty ts))
  else if bool_decide (name = Auth.H_SIGNATURE) then Some (Some sig_b64)
  else None.

Definition ds_post (sk : SigningKey) (user device : string) (ts : Z) (p : string) (body_bytes : bytes) : Request :=
  let message := Auth.canonical_message "POST" p ts body_bytes in
  mkRequest "POST" p (ds_headers user device ts (b64_encode (ed_sign sk message))) body_bytes.

(** ** lib.rs: POST /v1/commits and the router *)

Definition reply_of (r : Delivery.Response) : Reply :=
  match r with
  | Delivery.Unauthorized => Rejection Auth.Unauthorized
  | Delivery.Forbidden => Rejection Auth.Forbidden
  | Delivery.BadRequest => BadRequest "invalid body"
  | Delivery.ServerError err => Internal err
  | Delivery.SubmitReply s => Submitted s
  | Delivery.CommitsReply _ => NoRoute
  end.

(** [submit]: the same gate, then [Delivery.submit] on the parsed body. *)
Definition post_commits (e : Env) (st : AppState) (rq : Request) : AppState * Reply :=
  match gate e st rq with
  | Err reply => (st, reply)
  | Ok authed =>
      let '(db, r) := submit (fault e) (now_text e) (ulid e) (main_db st) (log_db st) authed
                        (ok (from_slice (A := SubmitBody) (body rq))) in
      (set_log st db, reply_of r)
  end.

(** The write routes of the commit-log database. *)
Definition handler (p : string) : option (Env -> AppState -> Request -> AppState * Reply) :=
  if bool_decide (p = "/v1/commits") then Some post_commits
  else if bool_decide (p = "/v1/group-info") then Some group_info
  else if bool_decide (p = "/v1/welcomes/ack") then Some welcomes_ack
  else if bool_decide (p = "/v1/welcomes/reset") then Some welcomes_reset
  else if bool_decide (p = "/v1/welcomes/purge") then Some welcomes_purge
  else if bool_decide (p = "/v1/welcomes/resubmit") then Some welcomes_resubmit
  else None.

(** A request through the rate limiter to its handler. *)
Definition serve (e : Env) (st : AppState) (rq : Request) : AppState * Reply :=
  let '(rl, pass) :=
    RateLimit.rate_limit (rate_config st) (rate_limiter st) (method rq) (path rq) (headers rq) (now_u64 e) in
  let st := set_limiter st rl in
  if negb pass then (st, TooManyRequests)
  else
    match (if bool_decide (method rq = "POST") then handler (path rq) else None) with
    | Some h => h e st rq
    | None => (st, NoRoute)
    end.
End Handlers.

(** ** Authentication *)

Section Authentic.
Context `{Sha256} `{!Ed25519} `{!Base64}.
Import Auth.

(** A live device of [user] holds a key under which [sig] signs the request. *)
Definition signed_by (main : MainDb) (user device : string) (ts : Z) (sig : bytes) (rq : Request) : Prop :=
  exists row pub vk, In row (user_device main) /\ dev_id row = device /\ dev_user row = user /\
    revoked_at row = None /\ mls_signature_pub row = Some pub /\ length pub = 32 /\ vk_from_bytes pub = Some vk /\
    ed_verify vk (canonical_message (method rq) (path rq) ts (body rq)) sig = true.

Definition authentic (main : MainDb) (now : Z) (rq : Request) (user : string) : Prop :=
  exists device ts_str ts sig_b64 sig,
    get_str (headers rq) H_USER = Some user /\ get_str (headers rq) H_DEVICE = Some device /\
    get_str (headers rq) H_TIMESTAMP = Some ts_str /\ get_str (headers rq) H_SIGNATURE = Some sig_b64 /\
    user <> "" /\ device <> "" /\ parse_i64 ts_str = Some ts /\ in_window now ts = true /\
    b64_decode_opt sig_b64 = Some sig /\ length sig = 64 /\ signed_by main user device ts sig rq.

Lemma parse_credentials_ok h now c : parse_credentials h now = Ok c <->
  exists ts_str sig_b64,
    get_str h H_USER = Some (user_id c) /\ get_str h H_DEVICE = Some (device_id c) /\
    get_str h H_TIMESTAMP = Some ts_str /\ get_str h H_SIGNATURE = Some sig_b64 /\
    user_id c <> "" /\ device_id c <> "" /\ parse_i64 ts_str = Some (timestamp c) /\
    in_window now (timestamp c) = true /\ b64_decode_opt sig_b64 = Some (signature c) /\ length (signature c) = 64.
Proof.
  unfold parse_credentials. split.
  - intros E. destruct (get_str h H_USER) as [u|], (get_str h H_DEVICE) as [d|], (get_str h H_TIMESTAMP) as [t|],
      (get_str h H_SIGNATURE) as [b|]; try done. simpl in E.
    destruct (bool_decide (u = "") || _) eqn:Ee; [done|]. destruct (parse_i64 t) as [ts|] eqn:Et; [|done]. simpl in E.
    destruct (in_window now ts) eqn:Ew; [|done]. simpl in E. destruct (b64_decode_opt b) as [sg|] eqn:Eb; [|done]. simpl in E.
    destruct (Nat.eqb_spec (length sg) 64) as [El|El]; [|done]. simpl in E. apply Ok_inj in E as <-. breflect.
    exists t, b. done.
  - intros (t & b & -> & -> & -> & -> & Hu & Hd & Et & Ew & Eb & El). simpl.
    rewrite !bool_decide_eq_false_2 by done. simpl. rewrite Et. simpl. rewrite Ew. simpl. rewrite Eb. simpl.
    rewrite El. simpl. by destruct c.
Qed.

Lemma parse_credentials_err h now r : parse_credentials h now = Err r -> r = Unauthorized.
Proof.
  unfold parse_credentials. intros E.
  repeat match type of E with rbind (ok_or ?o _) _ = _ => destruct o; simpl in E; [|congruence] end.
  destruct (_ || _); [congruence|]. destruct (parse_i64 _); simpl in E; [|congruence].
  destruct (in_window _ _); simpl in E; [|congruence]. destruct (b64_decode_opt _) as [sg|]; simpl in E; [|congruence].
  destruct (length sg =? 64); simpl in E; congruence.
Qed.

(** The rows of [user_device] have distinct device ids (its PRIMARY KEY). *)
Definition devices_unique (main : MainDb) : Prop := NoDup (map dev_id (user_device main)).

Lemma find_device l row : NoDup (map dev_id l) -> In row l ->
  find (fun d => bool_decide (dev_id d = dev_id row) && bool_decide (dev_user d = dev_user row)) l = Some row.
Proof.
  intros Hnd Hin. induction l as [|d l IH]; [done|]. simpl in *. apply NoDup_cons in Hnd as [Hd Hnd].
  destruct Hin as [->|Hin]; [by rewrite !bool_decide_eq_true_2|].
  rewrite (bool_decide_eq_false_2 (dev_id d = dev_id row)); [by apply IH|].
  intros E. apply Hd. rewrite E. apply list_elem_of_In. by apply in_map.
Qed.

Lemma lookup_device_sound fault main user device vk :
  lookup_device_pubkey fault main user device = Ok (Some vk) ->
  exists row pub, In row (user_device main) /\ dev_id row = device /\ dev_user row = user /\
    revoked_at row = None /\ mls_signature_pub row = Some pub /\ length pub = 32 /\ vk_from_bytes pub = Some vk.
Proof.
  unfold lookup_device_pubkey, exec. destruct (fault StDevice); [done|]. intros E. apply Ok_inj in E.
  destruct (find _ _) as [row|] eqn:Ef; [|done]. apply find_some in Ef as [Hin Hb]. breflect.
  destruct (revoked_at row) eqn:Er; [done|]. destruct (mls_signature_pub row) as [pub|] eqn:Ep; [|done].
  destruct (Nat.eqb_spec (length pub) 32); [|done]. by exists row, pub.
Qed.

Lemma lookup_device_complete fault main row pub vk : fault StDevice = false -> devices_unique main ->
  In row (user_device main) -> revoked_at row = None -> mls_signature_pub row = Some pub -> length pub = 32 ->
  vk_from_bytes pub = Some vk -> lookup_device_pubkey fault main (dev_user row) (dev_id row) = Ok (Some vk).
Proof.
  intros Hf Hu Hin Hr Hp Hl Hv. unfold lookup_device_pubkey, exec. rewrite Hf, (find_device _ _ Hu Hin), Hr, Hp, Hl.
  by rewrite Hv.
Qed.

Lemma verify_request_sound fault main rq now user :
  verify_request fault main (headers rq) (method rq) (path rq) (body rq) now = Ok user -> authentic main now rq user.
Proof.
  unfold verify_request. intros E. destruct (parse_credentials (headers rq) now) as [c|] eqn:Ec; [|done]. simpl in E.
  destruct (lookup_device_pubkey fault main (user_id c) (device_id c)) as [[vk|]|] eqn:El; try done.
  destruct (ed_verify _ _ _) eqn:Ev; [|done]. apply Ok_inj in E as <-.
  apply parse_credentials_ok in Ec as (t & b & ? & ? & ? & ? & ? & ? & ? & ? & ? & ?).
  apply lookup_device_sound in El as (row & pub & ? & ? & ? & ? & ? & ? & ?).
  exists (device_id c), t, (timestamp c), b, (signature c). split_and!; try done. by exists row, pub, vk.
Qed.

Lemma verify_request_complete fault main rq now user : fault StDevice = false -> devices_unique main ->
  authentic main now rq user ->
  verify_request fault main (headers rq) (method rq) (path rq) (body rq) now = Ok user.
Proof.
  intros Hf Hu (d & t & ts & b & sg & E1 & E2 & E3 & E4 & Hue & Hde & E5 & E6 & E7 & E8 & row & pub & vk & Hin & <- & <- & Hr & Hp & Hl & Hv & He).
  unfold verify_request. rewrite (proj2 (parse_credentials_ok (headers rq) now (mkCredentials (dev_user row) (dev_id row) ts sg)))
    by (simpl; by exists t, b).
  simpl. rewrite (lookup_device_complete fault main row pub vk) by done. by rewrite He.
Qed.

(** Who a request is from.  [verify_request] answers with a user only for a request
    that is authentic: all four headers, a timestamp in the window, and a signature over
    this method, path, timestamp and body by the registered key of a live device of that
    user.  Every authentic request is accepted when the lookup is answered, and every
    refusal, database failures included, is [Unauthorized]. *)
Theorem verify_request_exact (fault : Faults) (main : MainDb) (rq : Request) (now : Z) :
  devices_unique main ->
  let answer := verify_request fault main (headers rq) (method rq) (path rq) (body rq) now in
  (forall user, answer = Ok user -> authentic main now rq user) /\
  (forall user, fault StDevice = false -> authentic main now rq user -> answer = Ok user) /\
  (forall r, answer = Err r -> r = Unauthorized).
Proof.
  intros Hu answer. split_and!.
  - intros user. apply verify_request_sound.
  - intros user Hf Ha. by apply verify_request_complete.
  - intros r E. unfold answer, verify_request in E.
    destruct (parse_credentials _ _) as [c|e] eqn:Ec; simpl in E;
      [|apply parse_credentials_err in Ec; congruence].
    destruct (lookup_device_pubkey _ _ _ _) as [[vk|]|]; [destruct (ed_verify _ _ _)|..]; congruence.
Qed.

Context `{!JsonBodies} `{!Ed25519Laws} `{!Base64Laws}.

Lemma ds_post_authentic main (sk : SigningKey) row ts now p bdy : i64_range ts -> (0 <= now < 2 ^ 62)%Z ->
  (Z.abs (now - ts) <= 300)%Z -> dev_user row <> "" -> dev_id row <> "" -> In row (user_device main) ->
  revoked_at row = None -> mls_signature_pub row = Some (vk_to_bytes (verifying_key sk)) ->
  authentic main now (ds_post sk (dev_user row) (dev_id row) ts p bdy) (dev_user row).
Proof.
  intros Hts Hn Hw Hu Hd Hin Hr Hp.
  exists (dev_id row), (pretty ts), ts, (b64_encode (ed_sign sk (canonical_message "POST" p ts bdy))),
    (ed_sign sk (canonical_message "POST" p ts bdy)).
  split_and!; try done.
  - by apply parse_i64_pretty.
  - apply window_exact; [done|done|by left].
  - apply b64_decode_encode.
  - apply ed_sign_length.
  - exists row, (vk_to_bytes (verifying_key sk)), (verifying_key sk).
    split_and!; try done; [apply vk_to_bytes_length|apply vk_from_to_bytes|apply ed_verify_sign].
Qed.

(** Client and service agree.  A request the client signs with the device's key passes
    the gate as that user, for any path and body, while the device is registered with that
    key and not revoked, the two clocks are at most 300 seconds apart and the database
    answers. *)
Theorem signed_request_passes (e : Env) (st : AppState) (sk : SigningKey) (row : DeviceRec) (ts : Z)
    (p : string) (bdy : bytes) :
  require_auth st = true -> devices_unique (main_db st) ->
  fault e StAuthConn = false -> fault e StDevice = false ->
  i64_range ts -> (0 <= now_i64 e < 2 ^ 62)%Z -> (Z.abs (now_i64 e - ts) <= 300)%Z ->
  dev_user row <> "" -> dev_id row <> "" -> In row (user_device (main_db st)) ->
  revoked_at row = None -> mls_signature_pub row = Some (vk_to_bytes (verifying_key sk)) ->
  gate e st (ds_post sk (dev_user row) (dev_id row) ts p bdy) = Ok (Some (dev_user row)).
Proof.
  intros Ha Hu Hf1 Hf2 Hts Hn Hw Hue Hde Hin Hr Hp. unfold gate, exec. rewrite Ha, Hf1. simpl.
  pose proof (ds_post_authentic (main_db st) sk row ts (now_i64 e) p bdy Hts Hn Hw Hue Hde Hin Hr Hp) as Hau.
  apply (verify_request_complete (fault e)) in Hau; [|done|done]. simpl in Hau. by rewrite Hau.
Qed.
End Authentic.

(** ** What an authenticated request may change *)

Section Scope.

(** The tables of the commit-log database, before and after, as [u] may have changed them:
    new commits are [u]'s own in conversations [u] belongs to, other conversations' commits
    and GroupInfo are untouched, so are the Welcomes addressed to others for them, and no
    catch-up report is recorded. *)
Definition foreign (main : MainDb) (u : string) (w : WelcomeRec) : bool :=
  negb (bool_decide (wel_recipient_id w = u)) && negb (is_member main (wel_conversation_id w) u).

Record write_scope (main : MainDb) (u : string) (db db' : LogDb) : Prop := {
  scope_new : forall r, In r (mls_commit_log db') ->
    In r (mls_commit_log db) \/ rec_sender_id r = u /\ is_member main (rec_conversation_id r) u = true;
  scope_rows : forall c, is_member main c u = false -> conv_rows db' c = conv_rows db c;
  scope_info : forall c, is_member main c u = false -> mls_group_info db' !! c = mls_group_info db !! c;
  scope_welcomes : List.filter (foreign main u) (mls_welcome db') = List.filter (foreign main u) (mls_welcome db);
  scope_since : mls_commit_since db' = mls_commit_since db
}.

#[global] Instance write_scope_preorder main u : PreOrder (write_scope main u).
Proof.
  split; [by split; auto|]. intros a b c [N1 R1 G1 W1 S1] [N2 R2 G2 W2 S2]. split.
  - intros r Hr. destruct (N2 r Hr) as [Hb|?]; [by apply N1|by right].
  - intros x Hx. rewrite R2, R1; done.
  - intros x Hx. rewrite G2, G1; done.
  - congruence.
  - congruence.
Qed.

(** A change of the Welcomes only. *)
Lemma scope_set_welcomes main u db l :
  List.filter (foreign main u) l = List.filter (foreign main u) (mls_welcome db) ->
  write_scope main u db (set_welcomes db l).
Proof. intros E. split; try done. by left. Qed.

Lemma filter_foreign_map main u f l :
  (forall w, In w l -> foreign main u w = true -> f w = w) -> (forall w, foreign main u (f w) = foreign main u w) ->
  List.filter (foreign main u) (map f l) = List.filter (foreign main u) l.
Proof.
  intros Hf Hk. induction l as [|w l IH]; [done|]. simpl. rewrite Hk.
  destruct (foreign main u w) eqn:E; [rewrite Hf by (done || by left); f_equal|]; apply IH; intros; apply Hf; by try right.
Qed.

Lemma ack_scope main u db ids : write_scope main u db (ack_welcomes db u ids).1.
Proof.
  unfold ack_welcomes. destruct ids as [|i ids]; [done|]. apply scope_set_welcomes, filter_foreign_map.
  - intros w _ Hw. unfold foreign in Hw. breflect. by rewrite bool_decide_eq_false_2.
  - intros w. by destruct (_ && _).
Qed.

Lemma reset_scope main u db d : write_scope main u db (reset_welcomes db u d).1.
Proof.
  unfold reset_welcomes. apply scope_set_welcomes, filter_foreign_map.
  - intros w _ Hw. unfold foreign in Hw. breflect. by rewrite bool_decide_eq_false_2.
  - intros w. by destruct (_ && _).
Qed.

Lemma purge_scope main u db : write_scope main u db (purge_welcomes db u).1.
Proof.
  apply scope_set_welcomes. rewrite filter_filter. apply List.filter_ext. intros w. unfold foreign.
  by destruct (bool_decide (wel_recipient_id w = u)).
Qed.

Lemma upsert_welcome_scope main u db id c r d blob db' : is_member main c u = true ->
  upsert_welcome db id c r d blob = Ok db' -> write_scope main u db db'.
Proof.
  intros Hm. unfold upsert_welcome. destruct (existsb (same_target c r d) _).
  - intros E. apply Ok_inj in E as <-. apply scope_set_welcomes, filter_foreign_map.
    + intros w _ Hw. destruct (same_target c r d w) eqn:Et; [|done]. unfold same_target in Et. unfold foreign in Hw. breflect.
      subst c. congruence.
    + intros w. destruct (same_target c r d w) eqn:Et; [|done]. unfold same_target in Et. unfold foreign. breflect. simpl. by subst.
  - destruct (existsb _ _); [done|]. intros E. apply Ok_inj in E as <-. apply scope_set_welcomes.
    rewrite List.filter_app. simpl. unfold foreign at 2. simpl. by rewrite Hm, andb_false_r, app_nil_r.
Qed.

Lemma group_info_scope main u db c ep gi by_ : is_member main c u = true ->
  write_scope main u db (upsert_group_info db c ep gi by_).2.
Proof.
  intros Hm. unfold upsert_group_info.
  assert (write_scope main u db (mkLogDb (mls_commit_log db) (next_seq db)
    (<[c := mkGroupInfoRec ep gi by_]> (mls_group_info db)) (mls_welcome db) (mls_commit_since db))) as Hput.
  { split; try done; [by left|]. intros c' Hc. simpl. rewrite lookup_insert_ne; [done|]. congruence. }
  by destruct (mls_group_info db !! c); [destruct (_ <? _)%Z|].
Qed.

Lemma insert_commit_scope main u db bdy data now : sender_id bdy = u -> is_member main (conversation_id bdy) u = true ->
  write_scope main u db (insert_commit db bdy data now).2.
Proof.
  intros Hs Hm. unfold insert_commit. destruct (_ && _); [|done]. split; simpl; try done.
  - intros r [Hr|[<-|[]]]%in_app_or; [by left|]. right. simpl. by subst.
  - intros c Hc. rewrite (conv_rows_app db). simpl. rewrite bool_decide_eq_false_2 by congruence. by rewrite app_nil_r.
Qed.

Lemma prune_scope fault main u db c : is_member main c u = true ->
  write_scope main u db (best_effort_prune fault main db c).
Proof.
  intros Hm. unfold best_effort_prune, prune_commit_log. destruct (fault StPruneConn); [done|].
  destruct (let? head := _ in _) as [[db' r]|e] eqn:E; simpl; [|done].
  rinv E. destruct (match a0 with [] => _ | _ => _ end) as [ms al] in E. unfold delete_commits_below, exec in E.
  destruct (_ <=? 0)%Z; [|destruct (fault StDelete)]; simpl in E; simplify_eq; [done|].
  split; simpl; try done; [by intros r [? _]%filter_In; left|].
  intros c' Hc. unfold conv_rows, set_commits. simpl. rewrite filter_filter. apply List.filter_ext. intros r.
  case_bool_decide as H1; case_bool_decide as H2; simpl; rewrite ?andb_true_r, ?andb_false_r; try done. congruence.
Qed.

Context `{!Base64}.

Lemma insert_welcomes_scope fault ulid main u c ws : is_member main c u = true -> forall i tx tx',
  insert_welcomes fault ulid c i ws tx = Ok tx' -> write_scope main u tx tx'.
Proof.
  intros Hm. induction ws as [|[w blob] ws IH]; intros i tx tx' E; simpl in E; [by apply Ok_inj in E as <-|].
  rinv E. etrans; [by eapply upsert_welcome_scope|by eapply IH].
Qed.

Lemma submit_commit_scope fault now ulid main u db bdy : sender_id bdy = u ->
  is_member main (conversation_id bdy) u = true -> write_scope main u db (submit_commit fault now ulid db bdy).1.
Proof.
  intros Hs Hm. unfold submit_commit.
  destruct (rbind _ _) as [[db' r]|er] eqn:E; [|done]. simpl. rinv E.
  unfold exec in *. destruct (fault StInsertCommit); [done|]. simpl in *. simplify_eq.
  pose proof (insert_commit_scope main _ db bdy a now eq_refl Hm) as Hi.
  destruct (insert_commit db bdy a now) as [n tx]. simpl in Hi. destruct (n =? 0).
  - rinv E. by simplify_eq.
  - rinv E. simplify_eq. etrans; [exact Hi|]. etrans; [|by eapply insert_welcomes_scope].
    destruct a0 as [g|]; [destruct (fault StGroupInfo); [done|]|]; simplify_eq; [by apply group_info_scope|done].
Qed.

(** The reply says that nothing was written. *)
Definition refused (r : Reply) : Prop :=
  match r with
  | Rejection _ | BadRequest _ | Internal _ | TooManyRequests | NoRoute | Submitted (Delivery.Rejected _ _) => True
  | _ => False
  end.
End Scope.

Section Service.
Context `{Sha256} `{!Ed25519} `{!Base64} `{!JsonBodies}.

(** A live session of [user], presented without a signature. *)
Definition in_session (st : AppState) (now : N) (rq : Request) (user : string) : Prop :=
  contains_key (headers rq) Auth.H_SIGNATURE = false /\
  exists token rec, get_str (headers rq) Session.SESSION_HEADER = Some token /\ token <> "" /\
    session_store st !! Session.hash_token token = Some rec /\ (now <= Session.expires_at rec)%N /\
    Session.user_id rec = user.

(** The credential the service requires: a device signature, or on the purge route an
    OTP session. *)
Definition authorised (e : Env) (st : AppState) (rq : Request) (user : string) : Prop :=
  authentic (main_db st) (now_i64 e) rq user \/
  path rq = "/v1/welcomes/purge" /\ in_session st (now_u64 e) rq user.

Lemma gate_sound e st rq authed : require_auth st = true -> gate e st rq = Ok authed ->
  exists u, authed = Some u /\ authentic (main_db st) (now_i64 e) rq u.
Proof.
  intros Ha. unfold gate, exec. rewrite Ha. simpl. destruct (fault e StAuthConn); [done|]. simpl.
  destruct (Auth.verify_request _ _ _ _ _ _ _) as [u|] eqn:E; simpl; [|done]. intros E'. apply Ok_inj in E' as <-.
  exists u. split; [done|]. by eapply verify_request_sound.
Qed.

Lemma verify_session_sound h s now s' c : Session.verify_session h s now = (s', Some c) ->
  exists token rec, get_str h Session.SESSION_HEADER = Some token /\ token <> "" /\
    s !! Session.hash_token token = Some rec /\ (now <= Session.expires_at rec)%N /\
    Session.user_id rec = Session.claim_user_id c.
Proof.
  unfold Session.verify_session, Session.session_token, Session.resolve.
  destruct (get_str h Session.SESSION_HEADER) as [t|]; [|done]. case_bool_decide; [done|].
  destruct (s !! Session.hash_token t) as [r|] eqn:Er; [|done]. destruct (N.leb_spec now (Session.expires_at r)); [|done].
  intros [= <- <-]. by exists t, r.
Qed.

Lemma gate_or_session_sound e st rq st' r : require_auth st = true -> gate_or_session e st rq = (st', r) ->
  log_db st' = log_db st /\ main_db st' = main_db st /\
  forall authed, r = Ok authed -> exists u, authed = Some u /\
    (authentic (main_db st) (now_i64 e) rq u \/ in_session st (now_u64 e) rq u).
Proof.
  intros Ha. unfold gate_or_session. rewrite Ha. simpl. destruct (contains_key _ _) eqn:Ec.
  - intros [= <- <-]. split_and!; try done. intros authed E. apply gate_sound in E as (u & -> & Hu); [|done].
    exists u. split; [done|by left].
  - destruct (Session.verify_session _ _ _) as [s' c] eqn:Ev. intros [= <- <-]. split_and!; try done.
    intros authed E. destruct c as [c|]; [|done]. apply Ok_inj in E as <-. eexists. split; [done|]. right. split; [done|].
    by eapply verify_session_sound.
Qed.

Lemma require_member_ok e st u c : require_member e st (Some u) c = Ok tt -> is_member (main_db st) c u = true.
Proof.
  unfold require_member, query_member, exec. destruct (fault e StMemberConn); [done|]. simpl.
  destruct (fault e StMember); [done|]. simpl. by destruct (is_member _ _ _).
Qed.

Lemma resolve_recipient_signed u b r : resolve_recipient (Some u) b = Ok r -> r = u.
Proof. unfold resolve_recipient. destruct b; [destruct (negb _)|]; congruence. Qed.

(** What every handler guarantees: the main database is not written, a refusal writes
    nothing, and a write is within the scope of a user who is authorised. *)
Definition guarded (e : Env) (st : AppState) (rq : Request) (out : AppState * Reply) : Prop :=
  main_db out.1 = main_db st /\ require_auth out.1 = require_auth st /\
  (refused out.2 -> log_db out.1 = log_db st) /\
  (require_auth st = true -> log_db out.1 = log_db st \/
     exists u, authorised e st rq u /\ write_scope (main_db st) u (log_db st) (log_db out.1)).

Lemma respond_guarded e st0 st rq r : main_db st = main_db st0 -> require_auth st = require_auth st0 ->
  log_db st = log_db st0 ->
  (forall db reply, r = Ok (db, reply) -> ~ refused reply) ->
  (forall db reply, require_auth st0 = true -> r = Ok (db, reply) ->
     exists u, authorised e st0 rq u /\ write_scope (main_db st0) u (log_db st0) db) ->
  guarded e st0 rq (respond st r).
Proof.
  intros Hm Ha Hl Hr Hw. destruct r as [[db reply]|reply]; simpl.
  - split_and!; simpl; try done; [by intros Hx; apply (Hr db reply) in Hx|]. intros Hra. right. by apply (Hw db reply).
  - split_and!; simpl; try done. by left.
Qed.

Lemma log_conn_ok e {A} (a b : A) : log_conn e a = Ok b -> a = b.
Proof. unfold log_conn, exec. destruct (fault e StLogConn); [done|]. by intros [= ->]. Qed.

Lemma log_write_ok e {A} (a b : A) : log_write e a = Ok b -> a = b.
Proof.
  unfold log_write, exec. destruct (log_conn e tt); [|done]. simpl. destruct (fault e StWrite); [done|]. by intros [= ->].
Qed.

Lemma map_err_ok {A E F} (f : E -> F) (r : Result A E) a : map_err f r = Ok a -> r = Ok a.
Proof. destruct r; [by intros [= ->]|done]. Qed.

(** Split a handler's successful chain into its steps. *)
Ltac steps E :=
  rinv E; simplify_eq;
  repeat match goal with
         | H : map_err _ _ = Ok _ |- _ => apply map_err_ok in H
         | H : log_write _ _ = Ok _ |- _ => apply log_write_ok in H; subst
         | H : log_conn _ _ = Ok _ |- _ => apply log_conn_ok in H; subst
         end.

Lemma group_info_guarded e st rq : guarded e st rq (group_info e st rq).
Proof.
  apply respond_guarded; try done; intros db reply.
  - intros E. steps E. by intros [].
  - intros Ha E. steps E. destruct (gate_sound _ _ _ _ Ha E0) as (u & -> & Hu). destruct a1.
    exists u. split; [by left|]. apply group_info_scope. by apply (require_member_ok e).
Qed.

Lemma welcomes_ack_guarded e st rq : guarded e st rq (welcomes_ack e st rq).
Proof.
  apply respond_guarded; try done; intros db reply.
  - intros E. steps E. by intros [].
  - intros Ha E. steps E. destruct (gate_sound _ _ _ _ Ha E0) as (u & -> & Hu). apply resolve_recipient_signed in E2 as ->.
    exists u. split; [by left|]. destruct (welcome_ids a0); steps E3; [reflexivity|apply (ack_scope (main_db st) u (log_db st) (s :: l))].
Qed.

Lemma welcomes_reset_guarded e st rq : guarded e st rq (welcomes_reset e st rq).
Proof.
  apply respond_guarded; try done; intros db reply.
  - intros E. steps E. by intros [].
  - intros Ha E. steps E. destruct (gate_sound _ _ _ _ Ha E0) as (u & -> & Hu). apply resolve_recipient_signed in E2 as ->.
    exists u. split; [by left|]. apply reset_scope.
Qed.

Lemma welcomes_purge_guarded e st rq : path rq = "/v1/welcomes/purge" -> guarded e st rq (welcomes_purge e st rq).
Proof.
  intros Hp. unfold welcomes_purge. destruct (gate_or_session e st rq) as [st1 gated] eqn:Eg.
  assert (main_db st1 = main_db st /\ require_auth st1 = require_auth st /\ log_db st1 = log_db st) as (Hm & Ha & Hl).
  { unfold gate_or_session in Eg. destruct (negb _); [by simplify_eq|]. destruct (contains_key _ _); [by simplify_eq|].
    destruct (Session.verify_session _ _ _). by simplify_eq. }
  apply respond_guarded; try done; intros db reply.
  - intros E. steps E. by intros [].
  - intros Hra E. steps E. destruct (gate_or_session_sound _ _ _ _ _ Hra Eg) as (_ & _ & Hs).
    destruct (Hs _ eq_refl) as (u & -> & Hu). apply resolve_recipient_signed in E2 as ->.
    exists u. split; [destruct Hu; [by left|by right]|]. rewrite Hl. apply purge_scope.
Qed.

Lemma welcomes_resubmit_guarded e st rq : guarded e st rq (welcomes_resubmit e st rq).
Proof.
  apply respond_guarded; try done; intros db reply.
  - intros E. steps E. by intros [].
  - intros Ha E. steps E. destruct (gate_sound _ _ _ _ Ha E0) as (u & -> & Hu). destruct a1.
    exists u. split; [by left|]. eapply upsert_welcome_scope; [|done]. by apply (require_member_ok e).
Qed.

(** [submit_commit] writes only when it accepts. *)
Lemma submit_commit_refused fault now ulid db bdy :
  match (submit_commit fault now ulid db bdy).2 with
  | Ok (Accepted _) => True
  | _ => (submit_commit fault now ulid db bdy).1 = db
  end.
Proof.
  unfold submit_commit. destruct (rbind _ _) as [[db' r]|er] eqn:E; [|done]. simpl. destruct r as [ep|hd ms]; [done|].
  rinv E. destruct a3 as [n tx]. destruct (n =? 0); rinv E; by simplify_eq.
Qed.

Lemma post_commits_guarded e st rq : guarded e st rq (post_commits e st rq).
Proof.
  unfold post_commits. destruct (gate e st rq) as [authed|reply] eqn:Eg; [|split_and!; simpl; try done; by left].
  destruct (submit _ _ _ _ _ _ _) as [db r] eqn:Es. simpl.
  assert (db = log_db st \/ exists b ep, r = SubmitReply (Accepted ep) /\
    (forall u, authed = Some u -> sender_id b = u /\ is_member (main_db st) (conversation_id b) u = true) /\
    db = best_effort_prune (fault e) (main_db st)
           (submit_commit (fault e) (now_text e) (ulid e) (log_db st) b).1 (conversation_id b)) as Hc.
  { unfold submit in Es. destruct (ok _) as [b|]; [|left; congruence].
    destruct (match authed with Some _ => _ | None => _ end) as [[]|] eqn:Ea; [|left; congruence..].
    unfold exec in Es. destruct (fault e StLogConn); [left; congruence|].
    pose proof (submit_commit_refused (fault e) (now_text e) (ulid e) (log_db st) b) as Hr.
    destruct (submit_commit _ _ _ _ b) as [db1 [[ep|hd ms]|er]] eqn:Esc; simpl in Hr; [|left; congruence..].
    right. exists b, ep. rewrite Esc. simpl. split_and!; [congruence| |congruence]. intros u ->.
    destruct (negb _) eqn:En in Ea; [done|]. breflect. split; [done|]. unfold query_member, exec in Ea.
    destruct (fault e StMemberConn), (fault e StMember); simpl in Ea; congruence. }
  split_and!; simpl; try done.
  - destruct Hc as [?|(b & ep & -> & _)]; [done|]. by intros [].
  - intros Ha. destruct Hc as [?|(b & ep & -> & Hu & ->)]; [by left|right].
    destruct (gate_sound _ _ _ _ Ha Eg) as (u & -> & Hau). destruct (Hu u eq_refl) as [Hs Hm].
    exists u. split; [by left|]. etrans; [by apply submit_commit_scope|by apply prune_scope].
Qed.

Lemma handler_guarded e st rq h : handler (path rq) = Some h -> guarded e st rq (h e st rq).
Proof.
  unfold handler. repeat (case_bool_decide; [intros [= <-]|]); [..|done].
  - apply post_commits_guarded.
  - apply group_info_guarded.
  - apply welcomes_ack_guarded.
  - apply welcomes_reset_guarded.
  - by apply welcomes_purge_guarded.
  - apply welcomes_resubmit_guarded.
Qed.

(** Signed writes stay in scope.  With authentication on, whatever request reaches the
    service and whichever statement fails, the commit-log database stays as it was or the
    request carries a credential of some user (a live device's signature; on the purge
    route also an OTP session) and only what that user may write has changed: their own
    commits in their conversations, the GroupInfo and Welcomes of their conversations, and
    Welcomes addressed to them.  A refusal of any kind writes nothing, and the main
    database is never written here. *)
Theorem signed_writes_scoped (e : Env) (st : AppState) (rq : Request) :
  guarded e st rq (serve e st rq).
Proof.
  unfold serve. destruct (RateLimit.rate_limit _ _ _ _ _ _) as [rl pass].
  set (st1 := set_limiter st rl).
  assert (forall out, guarded e st1 rq out -> guarded e st rq out) as Hg by (intros out; exact (fun h => h)).
  assert (guarded e st rq (st1, TooManyRequests) /\ guarded e st rq (st1, NoRoute)) as [Hg1 Hg2]
    by (split; split_and!; simpl; try done; by left).
  destruct (negb pass); [done|]. destruct (if bool_decide _ then _ else _) as [h|] eqn:Eh; [|done].
  apply Hg, handler_guarded. by case_bool_decide.
Qed.
End Service.

(** ** The theorems at concrete inputs *)

Section Witnesses.
#[local] Existing Instance clear_base64.

#[local] Instance clear_base64_laws : Base64Laws.
Proof. split. intros b. simpl. by rewrite as_bytes_of_bytes. Qed.

#[local] Definition phone_key : SigningKey := ClearSig.repeat_seed x06.

#[local] Definition phone : DeviceRec :=
  mkDeviceRec "phone" "alice" None (Some (vk_to_bytes (verifying_key phone_key))).

#[local] Definition enrolled : AppState :=
  mkAppState true (mkMainDb [phone] [("dm", "alice")] [] []) empty_log ∅ RateLimit.default ∅.

#[local] Definition quiet : Env := mkEnv (fun _ => false) 1700000200 1700000200 "t" (fun _ => "id").

#[local] Definition ping : Request := ds_post phone_key "alice" "phone" 1700000000 "/v1/welcomes/purge" [].

Lemma enrolled_unique : devices_unique (main_db enrolled).
Proof. unfold devices_unique. simpl. apply NoDup_singleton. Qed.

Lemma signed_request_passes_witness : gate quiet enrolled ping = Ok (Some "alice").
Proof.
  refine (signed_request_passes quiet enrolled phone_key phone 1700000000 "/v1/welcomes/purge" []
    eq_refl enrolled_unique eq_refl eq_refl _ _ _ _ _ (or_introl eq_refl) eq_refl eq_refl);
  try done; unfold i64_range; simpl; lia.
Defined.

Lemma verify_request_exact_witness :
  let answer := Auth.verify_request no_fault (main_db enrolled) (headers ping) (method ping) (path ping) (body ping) 1700000301 in
  (forall user, answer = Ok user -> authentic (main_db enrolled) 1700000301 ping user) /\
  (forall user, no_fault StDevice = false -> authentic (main_db enrolled) 1700000301 ping user -> answer = Ok user) /\
  (forall r, answer = Err r -> r = Auth.Unauthorized).
Proof. exact (verify_request_exact no_fault (main_db enrolled) ping 1700000301 enrolled_unique). Defined.

(** One second past the window the same request is refused; a leading plus sign in the
    timestamp header is accepted, although the signed text has none. *)
Example replay_window :
  Auth.verify_request no_fault (main_db enrolled) (headers ping) "POST" (path ping) [] 1700000300 = Ok "alice" /\
  Auth.verify_request no_fault (main_db enrolled) (headers ping) "POST" (path ping) [] 1700000301 = Err Auth.Unauthorized /\
  Auth.verify_request no_fault (main_db enrolled)
    (fun n => if bool_decide (n = Auth.H_TIMESTAMP) then Some (Some "+1700000000") else headers ping n)
    "POST" (path ping) [] 1700000300 = Ok "alice".
Proof. vm_compute. done. Qed.
End Witnesses.
