(* ===== verification/Tables.v ===== *)
(** * pollis-delivery: the main database and its statements

    The tables the routes of [groups.rs], [profile.rs] and [messages.rs] read and write
    (schema: [pollis-core/src/db/migrations]), and a small monad for the SQL they run.
    A table with a primary key is a [gmap]; a statement is the function it computes on the
    tables.  Any statement may fail: [stmt_fault] picks them by their position in the
    request.  A transaction that fails anywhere, at its commit included, leaves the
    database as it was; statements outside a transaction keep what they wrote.

    Whether the database enforces foreign keys is an argument ([fk]): the schema declares
    them, the repository's local connection turns them off and the remote one leaves the
    provider's default.  The theorems hold either way unless they say so.

    Programs are reasoned about through [wp], the weakest precondition of a program for a
    relation on its result and final database. *)

From stdpp Require Import base list strings gmap.
From Stdlib Require Import NArith ZArith Lia ZifyNat ZifyN.
From S2P Require Import Prelude Delivery.

(** ** Rows *)

Record GroupRow := mkGroup {
  grp_name : string;
  grp_description : option string;
  grp_icon_url : option string;
  grp_owner_id : string;
  grp_created_at : string
}.

Record ChannelRow := mkChannel {
  chn_group_id : string;
  chn_name : string;
  chn_description : option string;
  chn_type : string
}.

Record InviteRow := mkInvite { inv_group_id : string; inv_inviter_id : string; inv_invitee_id : string }.

Record JoinRow := mkJoin {
  joi_group_id : string;
  joi_requester_id : string;
  joi_created_at : string;
  joi_reviewed_by : option string;
  joi_reviewed_at : option string;
  joi_status : string
}.

Record DmRow := mkDm { dm_created_by : string; dm_created_at : string }.

Record DmMemberRow := mkDmMember { dmm_added_by : string; dmm_added_at : string; dmm_accepted_at : option string }.

Record EnvelopeRow := mkEnvelope {
  env_conversation_id : string;
  env_sender_id : string;
  env_ciphertext : string;
  env_reply_to_id : option string;
  env_sent_at : string;
  env_type : string;
  env_target_message_id : option string;
  env_sealed : Z
}.

Record ProfileRow := mkProfile {
  prf_username : string;
  prf_preferred_name : option string;
  prf_phone : option string;
  prf_avatar_url : option string;
  prf_email : string;
  prf_account_id_pub : option bytes;
  prf_identity_version : Z
}.

(** *** Accounts and devices *)

Record KeyLogRow := mkKeyLog { kl_user_id : string; kl_account_id_pub : bytes; kl_identity_version : Z }.

Record RecoveryRow := mkRecovery {
  rec_identity_version : Z;
  rec_salt : bytes;
  rec_nonce : bytes;
  rec_wrapped_key : bytes
}.

Record KeyPackageRow := mkKeyPackage {
  kp_ref_hash : string;
  kp_user_id : string;
  kp_key_package : bytes;
  kp_claimed : bool;
  kp_created_at : string;
  kp_device_id : option string
}.

Record EnrollmentRow := mkEnrollment {
  enr_user_id : string;
  enr_new_device_id : string;
  enr_ephemeral_pub : bytes;
  enr_verification_code : string;
  enr_wrapped_account_key : option bytes;
  enr_status : string;
  enr_created_at : string;
  enr_expires_at : string;
  enr_approved_by : option string
}.

Record EventRow := mkEvent {
  evt_user_id : string;
  evt_kind : string;
  evt_device_id : option string;
  evt_metadata : option string
}.

Record PushTokenRow := mkPushToken { ptk_user_id : string; ptk_platform : string; ptk_updated_at : string }.

(** The columns of [user_device] the request gate does not read. *)
Record DeviceInfo := mkDeviceInfo {
  di_device_name : option string;
  di_device_cert : option bytes;
  di_cert_issued_at : option string;
  di_cert_identity_version : option Z
}.

(** [key_log] and [key_packages] are in insertion order. *)
Record AccountDb := mkAccountDb {
  key_log : list KeyLogRow;
  recovery : gmap string RecoveryRow;
  key_packages : list KeyPackageRow;
  enrollments : gmap string EnrollmentRow;
  security_events : gmap string EventRow;
  push_tokens : gmap string PushTokenRow;
  device_info : gmap string DeviceInfo
}.

(** The main database.  [group_members] is keyed by (group, user), [dm_members] by
    (DM channel, user), [reactions] by its UNIQUE key (message, user, emoji), [watermarks]
    by (conversation, user, device). *)
Record MsgDb := mkMsgDb {
  users : gmap string ProfileRow;
  preferences : gmap string string;
  devices : list DeviceRec;
  groups : gmap string GroupRow;
  group_members : gmap (string * string) string;
  group_channels : gmap string ChannelRow;
  invites : gmap string InviteRow;
  join_requests : gmap string JoinRow;
  dm_channels : gmap string DmRow;
  dm_members : gmap (string * string) DmMemberRow;
  blocks : gset (string * string);
  envelopes : gmap string EnvelopeRow;
  reactions : gmap (string * string * string) string;
  watermarks : gmap (string * string * string) string;
  attachments : gmap string string;
  accounts : AccountDb
}.

(** One setter per table. *)
Definition set_users (f : gmap string ProfileRow -> gmap string ProfileRow) (db : MsgDb) : MsgDb :=
  mkMsgDb (f (users db)) (preferences db) (devices db) (groups db) (group_members db) (group_channels db) (invites db)
    (join_requests db) (dm_channels db) (dm_members db) (blocks db) (envelopes db) (reactions db) (watermarks db) (attachments db) (accounts db).

Definition set_preferences (f : gmap string string -> gmap string string) (db : MsgDb) : MsgDb :=
  mkMsgDb (users db) (f (preferences db)) (devices db) (groups db) (group_members db) (group_channels db) (invites db)
    (join_requests db) (dm_channels db) (dm_members db) (blocks db) (envelopes db) (reactions db) (watermarks db) (attachments db) (accounts db).

Definition set_groups (f : gmap string GroupRow -> gmap string GroupRow) (db : MsgDb) : MsgDb :=
  mkMsgDb (users db) (preferences db) (devices db) (f (groups db)) (group_members db) (group_channels db) (invites db)
    (join_requests db) (dm_channels db) (dm_members db) (blocks db) (envelopes db) (reactions db) (watermarks db) (attachments db) (accounts db).

Definition set_group_members (f : gmap (string * string) string -> gmap (string * string) string) (db : MsgDb) : MsgDb :=
  mkMsgDb (users db) (preferences db) (devices db) (groups db) (f (group_members db)) (group_channels db) (invites db)
    (join_requests db) (dm_channels db) (dm_members db) (blocks db) (envelopes db) (reactions db) (watermarks db) (attachments db) (accounts db).

Definition set_group_channels (f : gmap string ChannelRow -> gmap string ChannelRow) (db : MsgDb) : MsgDb :=
  mkMsgDb (users db) (preferences db) (devices db) (groups db) (group_members db) (f (group_channels db)) (invites db)
    (join_requests db) (dm_channels db) (dm_members db) (blocks db) (envelopes db) (reactions db) (watermarks db) (attachments db) (accounts db).

Definition set_invites (f : gmap string InviteRow -> gmap string InviteRow) (db : MsgDb) : MsgDb :=
  mkMsgDb (users db) (preferences db) (devices db) (groups db) (group_members db) (group_channels db) (f (invites db))
    (join_requests db) (dm_channels db) (dm_members db) (blocks db) (envelopes db) (reactions db) (watermarks db) (attachments db) (accounts db).

Definition set_join_requests (f : gmap string JoinRow -> gmap string JoinRow) (db : MsgDb) : MsgDb :=
  mkMsgDb (users db) (preferences db) (devices db) (groups db) (group_members db) (group_channels db) (invites db)
    (f (join_requests db)) (dm_channels db) (dm_members db) (blocks db) (envelopes db) (reactions db) (watermarks db) (attachments db) (accounts db).

Definition set_dm_channels (f : gmap string DmRow -> gmap string DmRow) (db : MsgDb) : MsgDb :=
  mkMsgDb (users db) (preferences db) (devices db) (groups db) (group_members db) (group_channels db) (invites db)
    (join_requests db) (f (dm_channels db)) (dm_members db) (blocks db) (envelopes db) (reactions db) (watermarks db) (attachments db) (accounts db).

Definition set_dm_members (f : gmap (string * string) DmMemberRow -> gmap (string * string) DmMemberRow) (db : MsgDb) : MsgDb :=
  mkMsgDb (users db) (preferences db) (devices db) (groups db) (group_members db) (group_channels db) (invites db)
    (join_requests db) (dm_channels db) (f (dm_members db)) (blocks db) (envelopes db) (reactions db) (watermarks db) (attachments db) (accounts db).

Definition set_blocks (f : gset (string * string) -> gset (string * string)) (db : MsgDb) : MsgDb :=
  mkMsgDb (users db) (preferences db) (devices db) (groups db) (group_members db) (group_channels db) (invites db)
    (join_requests db) (dm_channels db) (dm_members db) (f (blocks db)) (envelopes db) (reactions db) (watermarks db) (attachments db) (accounts db).

Definition set_envelopes (f : gmap string EnvelopeRow -> gmap string EnvelopeRow) (db : MsgDb) : MsgDb :=
  mkMsgDb (users db) (preferences db) (devices db) (groups db) (group_members db) (group_channels db) (invites db)
    (join_requests db) (dm_channels db) (dm_members db) (blocks db) (f (envelopes db)) (reactions db) (watermarks db) (attachments db) (accounts db).

Definition set_reactions (f : gmap (string * string * string) string -> gmap (string * string * string) string)
    (db : MsgDb) : MsgDb :=
  mkMsgDb (users db) (preferences db) (devices db) (groups db) (group_members db) (group_channels db) (invites db)
    (join_requests db) (dm_channels db) (dm_members db) (blocks db) (envelopes db) (f (reactions db)) (watermarks db) (attachments db) (accounts db).

Definition set_watermarks (f : gmap (string * string * string) string -> gmap (string * string * string) string)
    (db : MsgDb) : MsgDb :=
  mkMsgDb (users db) (preferences db) (devices db) (groups db) (group_members db) (group_channels db) (invites db)
    (join_requests db) (dm_channels db) (dm_members db) (blocks db) (envelopes db) (reactions db) (f (watermarks db)) (attachments db) (accounts db).

Definition set_attachments (f : gmap string string -> gmap string string) (db : MsgDb) : MsgDb :=
  mkMsgDb (users db) (preferences db) (devices db) (groups db) (group_members db) (group_channels db) (invites db)
    (join_requests db) (dm_channels db) (dm_members db) (blocks db) (envelopes db) (reactions db) (watermarks db)
    (f (attachments db)) (accounts db).

Definition set_devices (f : list DeviceRec -> list DeviceRec) (db : MsgDb) : MsgDb :=
  mkMsgDb (users db) (preferences db) (f (devices db)) (groups db) (group_members db) (group_channels db) (invites db)
    (join_requests db) (dm_channels db) (dm_members db) (blocks db) (envelopes db) (reactions db) (watermarks db)
    (attachments db) (accounts db).

Definition set_accounts (f : AccountDb -> AccountDb) (db : MsgDb) : MsgDb :=
  mkMsgDb (users db) (preferences db) (devices db) (groups db) (group_members db) (group_channels db) (invites db)
    (join_requests db) (dm_channels db) (dm_members db) (blocks db) (envelopes db) (reactions db) (watermarks db)
    (attachments db) (f (accounts db)).

Definition set_key_log (f : list KeyLogRow -> list KeyLogRow) : MsgDb -> MsgDb := set_accounts (fun a =>
  mkAccountDb (f (key_log a)) (recovery a) (key_packages a) (enrollments a) (security_events a) (push_tokens a) (device_info a)).

Definition set_recovery (f : gmap string RecoveryRow -> gmap string RecoveryRow) : MsgDb -> MsgDb := set_accounts (fun a =>
  mkAccountDb (key_log a) (f (recovery a)) (key_packages a) (enrollments a) (security_events a) (push_tokens a) (device_info a)).

Definition set_key_packages (f : list KeyPackageRow -> list KeyPackageRow) : MsgDb -> MsgDb := set_accounts (fun a =>
  mkAccountDb (key_log a) (recovery a) (f (key_packages a)) (enrollments a) (security_events a) (push_tokens a) (device_info a)).

Definition set_enrollments (f : gmap string EnrollmentRow -> gmap string EnrollmentRow) : MsgDb -> MsgDb := set_accounts (fun a =>
  mkAccountDb (key_log a) (recovery a) (key_packages a) (f (enrollments a)) (security_events a) (push_tokens a) (device_info a)).

Definition set_security_events (f : gmap string EventRow -> gmap string EventRow) : MsgDb -> MsgDb := set_accounts (fun a =>
  mkAccountDb (key_log a) (recovery a) (key_packages a) (enrollments a) (f (security_events a)) (push_tokens a) (device_info a)).

Definition set_push_tokens (f : gmap string PushTokenRow -> gmap string PushTokenRow) : MsgDb -> MsgDb := set_accounts (fun a =>
  mkAccountDb (key_log a) (recovery a) (key_packages a) (enrollments a) (security_events a) (f (push_tokens a)) (device_info a)).

Definition set_device_info (f : gmap string DeviceInfo -> gmap string DeviceInfo) : MsgDb -> MsgDb := set_accounts (fun a =>
  mkAccountDb (key_log a) (recovery a) (key_packages a) (enrollments a) (security_events a) (push_tokens a) (f (device_info a))).

Definition no_accounts : AccountDb := mkAccountDb [] ∅ [] ∅ ∅ ∅ ∅.

(** What the commit handlers' membership query sees of these tables. *)
Definition main_of (db : MsgDb) : MainDb :=
  mkMainDb (devices db) (map fst (map_to_list (dm_members db))) (map fst (map_to_list (group_members db)))
    (map (fun kc : string * ChannelRow => (kc.1, chn_group_id kc.2)) (map_to_list (group_channels db))).

(** ** The statement monad *)

(** A failing statement, a constraint, or a body that does not decode. *)
Inductive SqlError : Type := StmtFault (n : nat) | Constraint | BadBase64.

Record SqlEnv := mkSqlEnv {
  stmt_fault : nat -> bool;
  fk : bool;
  datetime_now : string;
  datetime_ttl : string;
  sys_clock : option N;
  new_ulid : string;
  row_choice : nat
}.

Definition Sql (A : Type) : Type := nat * MsgDb -> (nat * MsgDb) * Result A SqlError.

Definition ret {A} (a : A) : Sql A := fun s => (s, Ok a).

Definition bind {A B} (m : Sql A) (k : A -> Sql B) : Sql B := fun s =>
  match m s with
  | (s', Ok a) => k a s'
  | (s', Err e) => (s', Err e)
  end.

Notation "'let*' x := e 'in' k" := (bind e (fun x => k))
  (at level 10, x name, e at level 100, k at level 200) : rust_scope.

(** Whether a foreign-key condition lets a statement through. *)
Definition fk_holds (env : SqlEnv) (b : bool) : bool := negb (fk env) || b.

Section Statements.
Context (env : SqlEnv).

(** One statement: it fails, violates a constraint, or takes effect. *)
Definition write (f : MsgDb -> option MsgDb) : Sql unit := fun '(n, db) =>
  if stmt_fault env n then ((S n, db), Err (StmtFault n))
  else match f db with
       | Some db' => ((S n, db'), Ok tt)
       | None => ((S n, db), Err Constraint)
       end.

(** A statement that answers: an affected-row count, or the rows of [RETURNING]. *)
Definition update {A} (f : MsgDb -> option (MsgDb * A)) : Sql A := fun '(n, db) =>
  if stmt_fault env n then ((S n, db), Err (StmtFault n))
  else match f db with
       | Some (db', a) => ((S n, db'), Ok a)
       | None => ((S n, db), Err Constraint)
       end.

Definition query {A} (f : MsgDb -> A) : Sql A := fun '(n, db) =>
  if stmt_fault env n then ((S n, db), Err (StmtFault n)) else ((S n, db), Ok (f db)).

(** [conn.transaction()], the body, [tx.commit()]; dropped on any error. *)
Definition transaction {A} (m : Sql A) : Sql A := fun '(n, db) =>
  if stmt_fault env n then ((S n, db), Err (StmtFault n))
  else match m (S n, db) with
       | ((n', db'), Ok a) =>
           if stmt_fault env n' then ((S n', db), Err (StmtFault n')) else ((S n', db'), Ok a)
       | ((n', _), Err e) => ((n', db), Err e)
       end.

(** A transaction whose body decides whether it is committed or dropped. *)
Definition transaction_if {A} (m : Sql (bool * A)) : Sql A := fun '(n, db) =>
  if stmt_fault env n then ((S n, db), Err (StmtFault n))
  else match m (S n, db) with
       | ((n', db'), Ok (true, a)) =>
           if stmt_fault env n' then ((S n', db), Err (StmtFault n')) else ((S n', db'), Ok a)
       | ((n', _), Ok (false, a)) => ((n', db), Ok a)
       | ((n', _), Err e) => ((n', db), Err e)
       end.

(** [b64_decode(..)?]. *)
Definition decoded {A} (o : option A) : Sql A := fun s => match o with Some a => (s, Ok a) | None => (s, Err BadBase64) end.

(** [let _ = conn.execute(..).await]. *)
Definition best_effort (m : Sql unit) : Sql unit := fun s => ((m s).1, Ok tt).

(** [if let Some(x) = ..] around a statement, and a [for] loop over statements. *)
Definition when_some {A} (o : option A) (k : A -> Sql unit) : Sql unit :=
  match o with Some a => k a | None => ret tt end.

Fixpoint for_each {A} (l : list A) (k : A -> Sql unit) : Sql unit :=
  match l with
  | [] => ret tt
  | a :: l' => let* _ := k a in for_each l' k
  end.
End Statements.

#[global] Arguments write _ _ _ : simpl never.
#[global] Arguments query _ {A} _ _ : simpl never.
#[global] Arguments transaction _ {A} _ _ : simpl never.
#[global] Arguments update _ {A} _ _ : simpl never.
#[global] Arguments transaction_if _ {A} _ _ : simpl never.

(** INSERT into a keyed table, failing on a taken key; INSERT OR IGNORE. *)
Definition insert_new {K A} `{Countable K} (k : K) (a : A) (m : gmap K A) : option (gmap K A) :=
  match m !! k with Some _ => None | None => Some (<[k := a]> m) end.

Definition insert_ignore {K A} `{Countable K} (k : K) (a : A) (m : gmap K A) : gmap K A :=
  match m !! k with Some _ => m | None => <[k := a]> m end.

(** DELETE of the rows that satisfy [p]. *)
Definition delete_where {K A} `{Countable K} (p : K -> A -> bool) (m : gmap K A) : gmap K A :=
  filter (fun ka => p ka.1 ka.2 = false) m.

(** UPDATE of the rows that satisfy [p]. *)
Definition update_where {K A} `{Countable K} (p : K -> A -> bool) (f : A -> A) (m : gmap K A) : gmap K A :=
  map_imap (fun k a => Some (if p k a then f a else a)) m.

(** ** Weakest preconditions *)

Definition wp {A} (m : Sql A) (db : MsgDb) (Q : Result A SqlError -> MsgDb -> Prop) : Prop :=
  forall n, Q (m (n, db)).2 (m (n, db)).1.2.

Section Rules.
Context (env : SqlEnv).

Lemma wp_ret {A} (a : A) db (Q : Result A SqlError -> MsgDb -> Prop) : Q (Ok a) db -> wp (ret a) db Q.
Proof. by intros HQ n. Qed.

Lemma wp_bind {A B} (m : Sql A) (k : A -> Sql B) db (Q : Result B SqlError -> MsgDb -> Prop) :
  wp m db (fun r db' => match r with Ok a => wp (k a) db' Q | Err e => Q (Err e) db' end) -> wp (bind m k) db Q.
Proof.
  intros Hm n. specialize (Hm n). unfold bind. destruct (m (n, db)) as [[n' db'] [a|e]]; simpl in *; [apply Hm|done].
Qed.

Lemma wp_write f db (Q : Result unit SqlError -> MsgDb -> Prop) :
  (forall e, Q (Err e) db) -> (forall db', f db = Some db' -> Q (Ok tt) db') -> wp (write env f) db Q.
Proof.
  intros He Hf n. unfold write. destruct (stmt_fault env n); simpl; [auto|].
  destruct (f db) as [db'|]; simpl; auto.
Qed.

Lemma wp_query {A} (f : MsgDb -> A) db (Q : Result A SqlError -> MsgDb -> Prop) :
  (forall e, Q (Err e) db) -> Q (Ok (f db)) db -> wp (query env f) db Q.
Proof. intros He Hf n. unfold query. destruct (stmt_fault env n); simpl; auto. Qed.

Lemma wp_transaction {A} (m : Sql A) db (Q : Result A SqlError -> MsgDb -> Prop) :
  (forall e, Q (Err e) db) -> wp m db (fun r db' => match r with Ok a => Q (Ok a) db' | Err _ => True end) ->
  wp (transaction env m) db Q.
Proof.
  intros He Hm n. unfold transaction. destruct (stmt_fault env n); simpl; [auto|].
  specialize (Hm (S n)). destruct (m (S n, db)) as [[n' db'] [a|e]]; simpl in *; [|auto].
  destruct (stmt_fault env n'); simpl; auto.
Qed.

Lemma wp_update {A} (f : MsgDb -> option (MsgDb * A)) db (Q : Result A SqlError -> MsgDb -> Prop) :
  (forall e, Q (Err e) db) -> (forall db' a, f db = Some (db', a) -> Q (Ok a) db') -> wp (update env f) db Q.
Proof.
  intros He Hf n. unfold update. destruct (stmt_fault env n); simpl; [auto|].
  destruct (f db) as [[db' a]|]; simpl; auto.
Qed.

Lemma wp_transaction_if {A} (m : Sql (bool * A)) db (Q : Result A SqlError -> MsgDb -> Prop) :
  (forall e, Q (Err e) db) -> wp m db (fun r db' => match r with
    | Ok (true, a) => Q (Ok a) db' | Ok (false, a) => Q (Ok a) db | Err _ => True end) ->
  wp (transaction_if env m) db Q.
Proof.
  intros He Hm n. unfold transaction_if. destruct (stmt_fault env n); simpl; [auto|].
  specialize (Hm (S n)). destruct (m (S n, db)) as [[n' db'] [[[] a]|e]]; simpl in *; [|auto..].
  destruct (stmt_fault env n'); simpl; auto.
Qed.

Lemma wp_decoded {A} (o : option A) db (Q : Result A SqlError -> MsgDb -> Prop) :
  (forall e, Q (Err e) db) -> (forall a, o = Some a -> Q (Ok a) db) -> wp (decoded o) db Q.
Proof. intros He Hs n. destruct o; simpl; auto. Qed.

Lemma wp_best_effort m db (Q : Result unit SqlError -> MsgDb -> Prop) :
  wp m db (fun _ db' => Q (Ok tt) db') -> wp (best_effort m) db Q.
Proof. intros Hm n. apply Hm. Qed.

Lemma wp_mono {A} (m : Sql A) db (Q Q' : Result A SqlError -> MsgDb -> Prop) :
  wp m db Q -> (forall r db', Q r db' -> Q' r db') -> wp m db Q'.
Proof. intros Hm HQ n. apply HQ, Hm. Qed.

Lemma wp_when_some {A} (o : option A) k db (Q : Result unit SqlError -> MsgDb -> Prop) :
  (o = None -> Q (Ok tt) db) -> (forall a, o = Some a -> wp (k a) db Q) -> wp (when_some o k) db Q.
Proof. intros Hn Hs. destruct o; simpl; [by apply Hs|by apply wp_ret, Hn]. Qed.

(** A loop keeps an invariant of the database that each step keeps. *)
Lemma wp_for_each {A} (l : list A) k db (I : MsgDb -> Prop) :
  I db -> (forall a db', In a l -> I db' -> wp (k a) db' (fun _ db'' => I db'')) ->
  wp (for_each l k) db (fun _ db' => I db').
Proof.
  revert db. induction l as [|a l IH]; intros db Hi Hk; simpl; [by apply wp_ret|].
  apply wp_bind. eapply wp_mono; [apply (Hk a); [by left|done]|]. intros [u|e] db' Hi'; [|done].
  apply IH; [done|]. intros a' db'' Hin. apply Hk. by right.
Qed.

(** A loop of writes, each of known effect, ends in the fold of the effects. *)
Lemma wp_for_each_write {A} (f : A -> MsgDb -> option MsgDb) (g : A -> MsgDb -> MsgDb) l db
    (Q : Result unit SqlError -> MsgDb -> Prop) :
  (forall a d d', f a d = Some d' -> d' = g a d) -> (forall e d, Q (Err e) d) ->
  Q (Ok tt) (fold_left (fun d a => g a d) l db) -> wp (for_each l (fun a => write env (f a))) db Q.
Proof.
  intros Hf He. revert db. induction l as [|a l IH]; intros db HQ; simpl; [by apply wp_ret|].
  apply wp_bind, wp_write; [done|]. intros d' ->%Hf. by apply IH.
Qed.
End Rules.

(** A program without failing statements, run from a database. *)
Definition run_sql {A} (m : Sql A) (db : MsgDb) : MsgDb * Result A SqlError := ((m (0, db)).1.2, (m (0, db)).2).

(** Step through a program: each statement leaves its failure case to the side. *)
Ltac wp_step :=
  lazymatch goal with
  | |- wp (ret _) _ _ => apply wp_ret
  | |- wp (bind _ _) _ _ => apply wp_bind
  | |- wp (query _ _) _ _ => apply wp_query; [intros ?|]
  | |- wp (write _ _) _ _ => apply wp_write; [intros ?|intros ? ?]
  | |- wp (transaction _ _) _ _ => apply wp_transaction; [intros ?|]
  | |- wp (update _ _) _ _ => apply wp_update; [intros ?|intros ? ? ?]
  | |- wp (transaction_if _ _) _ _ => apply wp_transaction_if; [intros ?|]
  | |- wp (decoded _) _ _ => apply wp_decoded; [intros ?|intros ? ?]
  | |- wp (best_effort _) _ _ => apply wp_best_effort
  | |- wp (when_some _ _) _ _ => apply wp_when_some; [intros ?|intros ? ?]
  | |- wp (match ?x with _ => _ end) _ _ => destruct x eqn:?
  end.

(** ** Lookups after a statement *)

Section Lookups.
Context {K A : Type} `{Countable K}.

Lemma insert_new_Some (k : K) (a : A) m m' : insert_new k a m = Some m' <-> m !! k = None /\ m' = <[k := a]> m.
Proof. unfold insert_new. destruct (m !! k); naive_solver. Qed.

Lemma lookup_insert_ignore (k k' : K) (a : A) m :
  insert_ignore k a m !! k' = if bool_decide (k = k') then Some (default a (m !! k)) else m !! k'.
Proof.
  unfold insert_ignore. case_bool_decide as E; [subst|]; destruct (m !! _) eqn:El; simpl; rewrite ?lookup_insert_eq, ?lookup_insert_ne; done.
Qed.

Lemma lookup_delete_where p (m : gmap K A) k :
  delete_where p m !! k = match m !! k with Some a => if p k a then None else Some a | None => None end.
Proof.
  unfold delete_where. rewrite map_lookup_filter. destruct (m !! k) as [a|]; simpl; [|done].
  destruct (p k a) eqn:E; case_guard; simpl in *; congruence.
Qed.

Lemma lookup_update_where p f (m : gmap K A) k :
  update_where p f m !! k = match m !! k with Some a => Some (if p k a then f a else a) | None => None end.
Proof. unfold update_where. rewrite map_lookup_imap. by destruct (m !! k). Qed.
End Lookups.

#[export] Hint Rewrite @lookup_insert_ignore @lookup_delete_where @lookup_update_where : pollis.

(** ** Which rows a program changed

    [changed m m' ok]: every row that differs between [m] and [m'] does so in a way [ok]
    allows for its key, old and new value. *)
Definition changed {K A} `{Countable K} (ok : K -> option A -> option A -> Prop) (m m' : gmap K A) : Prop :=
  forall k, m' !! k = m !! k \/ ok k (m !! k) (m' !! k).

Section Changed.
Context {K A : Type} `{Countable K} (ok : K -> option A -> option A -> Prop) (m m' : gmap K A).

Lemma changed_refl : changed ok m m.
Proof. by left. Qed.

(** A last step at one key. *)
Lemma changed_step k (m'' : gmap K A) : changed ok m m' -> (forall k', k' <> k -> m'' !! k' = m' !! k') ->
  m'' !! k = m !! k \/ ok k (m !! k) (m'' !! k) -> changed ok m m''.
Proof. intros Hc Hne Hk k'. destruct (decide (k' = k)) as [->|Hd]; [done|]. rewrite (Hne _ Hd). apply Hc. Qed.

Lemma changed_insert k a : changed ok m m' -> ok k (m !! k) (Some a) -> changed ok m (<[k := a]> m').
Proof.
  intros Hc Ho. apply (changed_step k); [done|intros k' ?; by rewrite lookup_insert_ne|].
  rewrite lookup_insert_eq. by right.
Qed.

Lemma changed_delete k : changed ok m m' -> (forall a, m !! k = Some a -> ok k (Some a) None) ->
  changed ok m (delete k m').
Proof.
  intros Hc Ho. apply (changed_step k); [done|intros k' ?; by rewrite lookup_delete_ne|].
  rewrite lookup_delete_eq. destruct (m !! k) eqn:E; [right; auto|by left].
Qed.

Lemma changed_alter f k : changed ok m m' -> (forall a, m' !! k = Some a -> ok k (m !! k) (Some (f a))) ->
  changed ok m (alter f k m').
Proof.
  intros Hc Ho. apply (changed_step k); [done|intros k' ?; by rewrite lookup_alter_ne|].
  rewrite lookup_alter_eq. destruct (m' !! k) as [a|] eqn:E; simpl; [right; auto|]. rewrite <- E. apply Hc.
Qed.

Lemma changed_insert_ignore k a : changed ok m m' -> (m' !! k = None -> ok k (m !! k) (Some a)) ->
  changed ok m (insert_ignore k a m').
Proof. intros Hc Ho. unfold insert_ignore. destruct (m' !! k) eqn:E; [done|]. apply changed_insert; auto. Qed.

Lemma changed_delete_where p : changed ok m m' ->
  (forall k a, m' !! k = Some a -> p k a = true -> m !! k = None \/ ok k (m !! k) None) ->
  changed ok m (delete_where p m').
Proof.
  intros Hc Ho k. rewrite lookup_delete_where. destruct (m' !! k) as [a|] eqn:E; [|rewrite <- E; apply Hc].
  destruct (p k a) eqn:Ep; [|rewrite <- E; apply Hc]. destruct (Ho k a E Ep) as [->|?]; [by left|by right].
Qed.

Lemma changed_update_where p f : changed ok m m' ->
  (forall k a, m' !! k = Some a -> p k a = true -> ok k (m !! k) (Some (f a))) -> changed ok m (update_where p f m').
Proof.
  intros Hc Ho k. rewrite lookup_update_where. destruct (m' !! k) as [a|] eqn:E; [|rewrite <- E; apply Hc].
  destruct (p k a) eqn:Ep; [right; auto|]. rewrite <- E. apply Hc.
Qed.

Lemma changed_insert_new k a m'' : changed ok m m' -> insert_new k a m' = Some m'' -> ok k (m !! k) (Some a) ->
  changed ok m m''.
Proof. intros Hc [_ ->]%insert_new_Some Ho. by apply changed_insert. Qed.
End Changed.

#[export] Hint Resolve changed_refl : pollis.

(** ** The shape every route shares

    A route resolves its actor, checks that a signed actor may act, and writes. *)

Inductive WriteOutcome : Type := Applied | Forbidden.

(** [authed.is_some() && cond]: a check that only binds signed requests. *)
Definition signed {A} (authed : option A) : bool := match authed with Some _ => true | None => false end.

Definition is_group_row (db : MsgDb) (g : string) : bool := match groups db !! g with Some _ => true | None => false end.

Definition is_user_row (db : MsgDb) (u : string) : bool := match users db !! u with Some _ => true | None => false end.

(** The watermark seed: a row per conversation and device of the user. *)
Definition seed_watermarks (convs : list string) (u now : string) (db : MsgDb) : MsgDb :=
  set_watermarks (fun w =>
    fold_left (fun w cd => insert_ignore (cd.1, u, cd.2) now w)
      (list_prod convs (map dev_id (List.filter (fun d => bool_decide (dev_user d = u)) (devices db)))) w) db.

(** Continue as the actor, or refuse. *)
Definition as_actor (authed body_actor : option string) (k : string -> Sql WriteOutcome) : Sql WriteOutcome :=
  match resolve_actor authed body_actor with Some actor => k actor | None => ret Forbidden end.

(** Run [k] if the check passes or the request is unsigned; the query itself runs only for
    a signed one. *)
Definition guard (authed : option string) (check : Sql bool) (k : Sql WriteOutcome) : Sql WriteOutcome :=
  if signed authed then let* ok := check in if ok then k else ret Forbidden else k.

Section Shape.

Lemma resolve_actor_signed u b a : resolve_actor (Some u) b = Some a -> a = u.
Proof. unfold resolve_actor. destruct b; [destruct (negb _)|]; congruence. Qed.

(** A signed program runs as its signer. *)
Lemma wp_as_actor u b k db (Q : Result WriteOutcome SqlError -> MsgDb -> Prop) :
  Q (Ok Forbidden) db -> wp (k u) db Q -> wp (as_actor (Some u) b k) db Q.
Proof.
  intros Hf Hk. unfold as_actor. destruct (resolve_actor (Some u) b) eqn:E; [|by apply wp_ret].
  by apply resolve_actor_signed in E as ->.
Qed.

(** A guarded program of a signed request runs only if the check says so. *)
Lemma wp_guard a check k db (Q : Result WriteOutcome SqlError -> MsgDb -> Prop) :
  wp check db (fun r db' => match r with
    | Ok true => wp k db' Q | Ok false => Q (Ok Forbidden) db' | Err e => Q (Err e) db' end) ->
  wp (guard (Some a) check k) db Q.
Proof.
  intros Hc. unfold guard. simpl. apply wp_bind. eapply wp_mono; [exact Hc|].
  intros [[|]|e] db' Hq; [done|by apply wp_ret|done].
Qed.

(** Seeding only adds rows. *)
Lemma changed_seed (ok : string * string * string -> option string -> option string -> Prop)
    (m w : gmap (string * string * string) string) (l : list (string * string)) v now :
  (forall c d, ok (c, v, d) None (Some now)) -> changed ok m w -> (forall k, is_Some (m !! k) -> is_Some (w !! k)) ->
  changed ok m (fold_left (fun w cd => insert_ignore (cd.1, v, cd.2) now w) l w).
Proof.
  intros Ho. revert w. induction l as [|[c d] l IH]; intros w Hc Hk; simpl; [done|]. apply IH.
  - apply changed_insert_ignore; [done|]. intros E. destruct (m !! _) eqn:Ew; [|apply Ho].
    specialize (Hk _ (mk_is_Some _ _ Ew)) as [? ?]. congruence.
  - intros k Hs. rewrite lookup_insert_ignore. case_bool_decide; [by eexists|auto].
Qed.
End Shape.

(** ** Runs without failing statements *)

Definition reliable (env : SqlEnv) : Prop := forall n, stmt_fault env n = false.

(** Statements that cannot fail. *)
Lemma run_write env f n db : reliable env ->
  write env f (n, db) = match f db with Some db' => ((S n, db'), Ok tt) | None => ((S n, db), Err Constraint) end.
Proof. intros Hr. unfold write. by rewrite (Hr n). Qed.

Lemma run_query {A} env (f : MsgDb -> A) n db : reliable env -> query env f (n, db) = ((S n, db), Ok (f db)).
Proof. intros Hr. unfold query. by rewrite (Hr n). Qed.

Lemma run_transaction {A} env (m : Sql A) n db : reliable env ->
  transaction env m (n, db) =
    match m (S n, db) with ((n', db'), Ok a) => ((S n', db'), Ok a) | ((n', _), Err e) => ((n', db), Err e) end.
Proof. intros Hr. unfold transaction. rewrite (Hr n). destruct (m (S n, db)) as [[n' db'] [a|e]]; by rewrite ?(Hr n'). Qed.

Lemma run_update {A} env (f : MsgDb -> option (MsgDb * A)) n db : reliable env ->
  update env f (n, db) = match f db with Some (db', a) => ((S n, db'), Ok a) | None => ((S n, db), Err Constraint) end.
Proof. intros Hr. unfold update. by rewrite (Hr n). Qed.
