(* ===== verification/Groups.v ===== *)
(** * pollis-delivery: groups, channels, membership, invites and join requests

    Models [groups.rs]: every body and every [apply_*] function, on the tables and the
    statement monad of [Tables].  [authed] is the user the gate verified, [None] only when
    authentication is off.

    The main theorem bounds what a signed request can change, table by table, whichever
    statement fails.  The last section shows what the tables' shared id space lets
    through: a channel may take the id of another conversation. *)

From stdpp Require Import base list strings gmap.
From Stdlib Require Import NArith ZArith Lia ZifyNat ZifyN.
From S2P Require Import Prelude Delivery Tables.

Module GroupRoutes.

(** ** Bodies *)

Record CreateGroupBody := mkCreateGroup {
  cg_id : string;
  cg_name : string;
  cg_description : option string;
  cg_owner_id : option string;
  cg_default_text_channel_id : option string;
  cg_default_voice_channel_id : option string;
  cg_created_at : string
}.

Record UpdateGroupBody := mkUpdateGroup {
  ug_group_id : string;
  ug_requester_id : option string;
  ug_name : option string;
  ug_description : option string;
  ug_icon_url : option string
}.

Record DeleteGroupBody := mkDeleteGroup { dg_group_id : string; dg_requester_id : option string }.

Record LeaveGroupBody := mkLeaveGroup { lg_group_id : string; lg_user_id : option string }.

Record CreateChannelBody := mkCreateChannel {
  cc_id : string;
  cc_group_id : string;
  cc_name : string;
  cc_description : option string;
  cc_channel_type : string;
  cc_creator_id : option string
}.

Record UpdateChannelBody := mkUpdateChannel {
  uc_channel_id : string;
  uc_requester_id : option string;
  uc_name : option string;
  uc_description : option string
}.

Record DeleteChannelBody := mkDeleteChannel { dc_channel_id : string; dc_requester_id : option string }.

Record RemoveMemberBody := mkRemoveMember {
  rm_group_id : string;
  rm_user_id : string;
  rm_requester_id : option string
}.

Record SetMemberRoleBody := mkSetMemberRole {
  sr_group_id : string;
  sr_user_id : string;
  sr_role : string;
  sr_requester_id : option string
}.

Record CreateInviteBody := mkCreateInvite {
  ci_id : string;
  ci_group_id : string;
  ci_inviter_id : option string;
  ci_invitee_id : string
}.

Record AcceptInviteBody := mkAcceptInvite { ai_invite_id : string; ai_user_id : option string }.

Record DeclineInviteBody := mkDeclineInvite { di_invite_id : string; di_user_id : option string }.

Record CreateJoinRequestBody := mkCreateJoinRequest {
  cj_id : string;
  cj_group_id : string;
  cj_requester_id : option string
}.

Record ApproveJoinRequestBody := mkApproveJoinRequest {
  aj_request_id : string;
  aj_approver_id : option string;
  aj_reviewed_at : string
}.

Record RejectJoinRequestBody := mkRejectJoinRequest {
  rj_request_id : string;
  rj_approver_id : option string;
  rj_reviewed_at : string
}.

(** ** Statements *)

Definition in_group (g : string) (k : string * string) : bool := bool_decide (k.1 = g).

Section Routes.
Context (env : SqlEnv).

Definition insert_member (g u role : string) (db : MsgDb) : option MsgDb :=
  if fk_holds env (is_group_row db g && is_user_row db u)
  then (fun m => set_group_members (fun _ => m) db) <$> insert_new (g, u) role (group_members db)
  else None.

Definition insert_channel (c g name : string) (description : option string) (ty : string) (db : MsgDb) : option MsgDb :=
  if fk_holds env (is_group_row db g)
  then (fun m => set_group_channels (fun _ => m) db) <$> insert_new c (mkChannel g name description ty) (group_channels db)
  else None.

(** [DELETE FROM groups WHERE id = g], with the cascades the schema declares. *)
Definition delete_group_row (g : string) (db : MsgDb) : MsgDb :=
  let db := set_groups (delete g) db in
  if fk env then
    set_join_requests (delete_where (fun _ j => bool_decide (joi_group_id j = g)))
      (set_invites (delete_where (fun _ i => bool_decide (inv_group_id i = g)))
        (set_group_channels (delete_where (fun _ c => bool_decide (chn_group_id c = g)))
          (set_group_members (delete_where (fun k _ => in_group g k)) db)))
  else db.

Definition channels_of (g : string) (db : MsgDb) : list string :=
  map fst (map_to_list (filter (fun kc : string * ChannelRow => chn_group_id kc.2 = g) (group_channels db))).

(** ** Authorization helpers *)

Definition group_role (g u : string) : Sql (option string) := query env (fun db => group_members db !! (g, u)).

Definition is_admin (g u : string) : Sql bool :=
  let* role := group_role g u in ret (bool_decide (role = Some "admin")).

Definition channel_group_id (c : string) : Sql (option string) :=
  query env (fun db => chn_group_id <$> group_channels db !! c).

Definition add_member_rows (g u : string) : Sql unit :=
  let* _ := write env (fun db =>
    if fk_holds env (is_group_row db g && is_user_row db u)
    then Some (set_group_members (insert_ignore (g, u) "member") db) else None) in
  best_effort (write env (fun db => Some (seed_watermarks (channels_of g db) u (datetime_now env) db))).

(** ** The routes *)

Definition apply_create_group (authed : option string) (b : CreateGroupBody) : Sql WriteOutcome :=
  as_actor authed (cg_owner_id b) (fun owner =>
    transaction env (
      let* _ := write env (fun db => (fun m => set_groups (fun _ => m) db) <$>
        insert_new (cg_id b) (mkGroup (cg_name b) (cg_description b) None owner (cg_created_at b)) (groups db)) in
      let* _ := write env (insert_member (cg_id b) owner "admin") in
      let* _ := when_some (cg_default_text_channel_id b) (fun t =>
        write env (insert_channel t (cg_id b) "General" None "text")) in
      let* _ := when_some (cg_default_voice_channel_id b) (fun v =>
        write env (insert_channel v (cg_id b) "Voice Chat" None "voice")) in
      ret Applied)).

Definition update_group_row (g : string) (f : GroupRow -> GroupRow) : Sql unit :=
  write env (fun db => Some (set_groups (alter f g) db)).

Definition apply_update_group (authed : option string) (b : UpdateGroupBody) : Sql WriteOutcome :=
  as_actor authed (ug_requester_id b) (fun requester =>
    guard authed (is_admin (ug_group_id b) requester) (
      let* _ := when_some (ug_name b) (fun n => update_group_row (ug_group_id b) (fun r =>
        mkGroup n (grp_description r) (grp_icon_url r) (grp_owner_id r) (grp_created_at r))) in
      let* _ := when_some (ug_description b) (fun d => update_group_row (ug_group_id b) (fun r =>
        mkGroup (grp_name r) (Some d) (grp_icon_url r) (grp_owner_id r) (grp_created_at r))) in
      let* _ := when_some (ug_icon_url b) (fun u => update_group_row (ug_group_id b) (fun r =>
        mkGroup (grp_name r) (grp_description r) (Some u) (grp_owner_id r) (grp_created_at r))) in
      ret Applied)).

Definition apply_delete_group (authed : option string) (b : DeleteGroupBody) : Sql WriteOutcome :=
  as_actor authed (dg_requester_id b) (fun requester =>
    guard authed (is_admin (dg_group_id b) requester) (
      let* _ := write env (fun db => Some (delete_group_row (dg_group_id b) db)) in
      ret Applied)).

Definition is_member_of (g u : string) : Sql bool :=
  let* role := group_role g u in ret (negb (bool_decide (role = None))).

Definition member_count (g : string) (db : MsgDb) : nat :=
  length (List.filter (in_group g) (map fst (map_to_list (group_members db)))).

Definition apply_leave_group (authed : option string) (b : LeaveGroupBody) : Sql WriteOutcome :=
  as_actor authed (lg_user_id b) (fun user =>
    guard authed (is_member_of (lg_group_id b) user) (
      transaction env (
        let* _ := write env (fun db => Some (set_group_members (delete (lg_group_id b, user)) db)) in
        let* remaining := query env (member_count (lg_group_id b)) in
        let* _ := (if remaining =? 0
                   then write env (fun db => Some (delete_group_row (lg_group_id b) db)) else ret tt) in
        ret Applied))).

Definition apply_create_channel (authed : option string) (b : CreateChannelBody) : Sql WriteOutcome :=
  as_actor authed (cc_creator_id b) (fun creator =>
    guard authed (is_member_of (cc_group_id b) creator) (
      let* _ := write env (insert_channel (cc_id b) (cc_group_id b) (cc_name b) (cc_description b) (cc_channel_type b)) in
      ret Applied)).

(** Find the channel's group, or refuse; then the admin check. *)
Definition with_channel_admin (authed : option string) (c requester : string) (k : Sql WriteOutcome) : Sql WriteOutcome :=
  let* g := channel_group_id c in
  match g with
  | None => ret Forbidden
  | Some g => guard authed (is_admin g requester) k
  end.

Definition update_channel_row (c : string) (f : ChannelRow -> ChannelRow) : Sql unit :=
  write env (fun db => Some (set_group_channels (alter f c) db)).

Definition apply_update_channel (authed : option string) (b : UpdateChannelBody) : Sql WriteOutcome :=
  as_actor authed (uc_requester_id b) (fun requester =>
    with_channel_admin authed (uc_channel_id b) requester (
      let* _ := when_some (uc_name b) (fun n => update_channel_row (uc_channel_id b) (fun r =>
        mkChannel (chn_group_id r) n (chn_description r) (chn_type r))) in
      let* _ := when_some (uc_description b) (fun d => update_channel_row (uc_channel_id b) (fun r =>
        mkChannel (chn_group_id r) (chn_name r) (Some d) (chn_type r))) in
      ret Applied)).

Definition delete_envelopes_of (c : string) : Sql unit :=
  write env (fun db => Some (set_envelopes (delete_where (fun _ e => bool_decide (env_conversation_id e = c))) db)).

Definition apply_delete_channel (authed : option string) (b : DeleteChannelBody) : Sql WriteOutcome :=
  as_actor authed (dc_requester_id b) (fun requester =>
    with_channel_admin authed (dc_channel_id b) requester (
      transaction env (
        let* _ := delete_envelopes_of (dc_channel_id b) in
        let* _ := write env (fun db => Some (set_watermarks
          (delete_where (fun k _ => bool_decide (k.1.1 = dc_channel_id b))) db)) in
        let* _ := write env (fun db => Some (set_group_channels (delete (dc_channel_id b)) db)) in
        ret Applied))).

Definition apply_remove_member (authed : option string) (b : RemoveMemberBody) : Sql WriteOutcome :=
  as_actor authed (rm_requester_id b) (fun requester =>
    guard (if bool_decide (requester = rm_user_id b) then None else authed) (is_admin (rm_group_id b) requester) (
      let* _ := write env (fun db => Some (set_group_members (delete (rm_group_id b, rm_user_id b)) db)) in
      ret Applied)).

Definition apply_set_member_role (authed : option string) (b : SetMemberRoleBody) : Sql WriteOutcome :=
  if negb (bool_decide (sr_role b = "admin")) && negb (bool_decide (sr_role b = "member")) then ret Forbidden
  else as_actor authed (sr_requester_id b) (fun requester =>
    guard authed (is_admin (sr_group_id b) requester) (
      let* target := is_member_of (sr_group_id b) (sr_user_id b) in
      if negb target then ret Forbidden
      else
        let* _ := write env (fun db =>
          Some (set_group_members (alter (fun _ => sr_role b) (sr_group_id b, sr_user_id b)) db)) in
        ret Applied)).

Definition apply_create_invite (authed : option string) (b : CreateInviteBody) : Sql WriteOutcome :=
  as_actor authed (ci_inviter_id b) (fun inviter =>
    guard authed (is_admin (ci_group_id b) inviter) (
      let* _ := write env (fun db =>
        if fk_holds env (is_group_row db (ci_group_id b) && is_user_row db inviter && is_user_row db (ci_invitee_id b))
        then (fun m => set_invites (fun _ => m) db) <$>
               insert_new (ci_id b) (mkInvite (ci_group_id b) inviter (ci_invitee_id b)) (invites db)
        else None) in
      ret Applied)).

Definition apply_accept_invite (authed : option string) (b : AcceptInviteBody) : Sql WriteOutcome :=
  as_actor authed (ai_user_id b) (fun user =>
    let* found := query env (fun db =>
      match invites db !! ai_invite_id b with
      | Some i => if bool_decide (inv_invitee_id i = user) then Some (inv_group_id i) else None
      | None => None
      end) in
    match found with
    | None => ret Forbidden
    | Some g =>
        transaction env (
          let* _ := add_member_rows g user in
          let* _ := write env (fun db => Some (set_invites (delete (ai_invite_id b)) db)) in
          ret Applied)
    end).

Definition apply_decline_invite (authed : option string) (b : DeclineInviteBody) : Sql WriteOutcome :=
  as_actor authed (di_user_id b) (fun user =>
    let* _ := write env (fun db => Some (set_invites
      (delete_where (fun i r => bool_decide (i = di_invite_id b) && bool_decide (inv_invitee_id r = user))) db)) in
    ret Applied).

(** The upsert on (group, requester): the row keeps its place but takes the new id; a
    taken id is a primary-key violation. *)
Definition upsert_join_request (id g requester now : string) (db : MsgDb) : option MsgDb :=
  if negb (fk_holds env (is_group_row db g && is_user_row db requester)) then None
  else
    let same j := bool_decide (joi_group_id j = g) && bool_decide (joi_requester_id j = requester) in
    match find (fun kj : string * JoinRow => same kj.2) (map_to_list (join_requests db)) with
    | Some (old, r) =>
        let row := mkJoin g requester now (joi_reviewed_by r) (joi_reviewed_at r) "pending" in
        if bool_decide (old = id) then Some (set_join_requests <[id := row]> db)
        else (fun m => set_join_requests (fun _ => m) db) <$> insert_new id row (delete old (join_requests db))
    | None => (fun m => set_join_requests (fun _ => m) db) <$>
                insert_new id (mkJoin g requester now None None "pending") (join_requests db)
    end.

Definition apply_create_join_request (authed : option string) (b : CreateJoinRequestBody) : Sql WriteOutcome :=
  as_actor authed (cj_requester_id b) (fun requester =>
    let* _ := write env (upsert_join_request (cj_id b) (cj_group_id b) requester (datetime_now env)) in
    ret Applied).

Definition pending_request (id : string) : Sql (option (string * string)) :=
  query env (fun db =>
    match join_requests db !! id with
    | Some j => if bool_decide (joi_status j = "pending") then Some (joi_group_id j, joi_requester_id j) else None
    | None => None
    end).

Definition review (id status reviewer reviewed_at : string) : Sql unit :=
  write env (fun db =>
    if fk_holds env (is_user_row db reviewer)
    then Some (set_join_requests (alter (fun j => mkJoin (joi_group_id j) (joi_requester_id j) (joi_created_at j)
                 (Some reviewer) (Some reviewed_at) status) id) db)
    else None).

Definition apply_approve_join_request (authed : option string) (b : ApproveJoinRequestBody) : Sql WriteOutcome :=
  as_actor authed (aj_approver_id b) (fun approver =>
    let* found := pending_request (aj_request_id b) in
    match found with
    | None => ret Forbidden
    | Some (g, requester) =>
        guard authed (is_admin g approver) (
          transaction env (
            let* _ := add_member_rows g requester in
            let* _ := review (aj_request_id b) "approved" approver (aj_reviewed_at b) in
            ret Applied))
    end).

Definition apply_reject_join_request (authed : option string) (b : RejectJoinRequestBody) : Sql WriteOutcome :=
  as_actor authed (rj_approver_id b) (fun approver =>
    let* found := pending_request (rj_request_id b) in
    match found with
    | None => ret Forbidden
    | Some (g, _) =>
        guard authed (is_admin g approver) (
          let* _ := review (rj_request_id b) "rejected" approver (rj_reviewed_at b) in
          ret Applied)
    end).

(** The fifteen routes as one type of operations. *)
Inductive GroupOp : Type :=
| CreateGroup (b : CreateGroupBody) | UpdateGroup (b : UpdateGroupBody) | DeleteGroup (b : DeleteGroupBody)
| LeaveGroup (b : LeaveGroupBody) | CreateChannel (b : CreateChannelBody) | UpdateChannel (b : UpdateChannelBody)
| DeleteChannel (b : DeleteChannelBody) | RemoveMember (b : RemoveMemberBody) | SetMemberRole (b : SetMemberRoleBody)
| CreateInvite (b : CreateInviteBody) | AcceptInvite (b : AcceptInviteBody) | DeclineInvite (b : DeclineInviteBody)
| CreateJoinRequest (b : CreateJoinRequestBody) | ApproveJoinRequest (b : ApproveJoinRequestBody)
| RejectJoinRequest (b : RejectJoinRequestBody).

Definition apply_group_op (authed : option string) (op : GroupOp) : Sql WriteOutcome :=
  match op with
  | CreateGroup b => apply_create_group authed b
  | UpdateGroup b => apply_update_group authed b
  | DeleteGroup b => apply_delete_group authed b
  | LeaveGroup b => apply_leave_group authed b
  | CreateChannel b => apply_create_channel authed b
  | UpdateChannel b => apply_update_channel authed b
  | DeleteChannel b => apply_delete_channel authed b
  | RemoveMember b => apply_remove_member authed b
  | SetMemberRole b => apply_set_member_role authed b
  | CreateInvite b => apply_create_invite authed b
  | AcceptInvite b => apply_accept_invite authed b
  | DeclineInvite b => apply_decline_invite authed b
  | CreateJoinRequest b => apply_create_join_request authed b
  | ApproveJoinRequest b => apply_approve_join_request authed b
  | RejectJoinRequest b => apply_reject_join_request authed b
  end.
End Routes.
End GroupRoutes.

(** ** What a signed request may change *)

Section Scope.
Import GroupRoutes.

Definition admin (db : MsgDb) (g u : string) : Prop := group_members db !! (g, u) = Some "admin".

Definition belongs (db : MsgDb) (g u : string) : Prop := is_Some (group_members db !! (g, u)).

(** [u] is the last member of [g]. *)
Definition sole (db : MsgDb) (g u : string) : Prop := belongs db g u /\ forall v, belongs db g v -> v = u.

Definition member_ok (u : string) (db : MsgDb) (gv : string * string) (old new : option string) : Prop :=
  let '(g, v) := gv in
  match old, new with
  | None, Some role =>
      v = u /\ role = "admin" /\ groups db !! g = None \/
      role = "member" /\
        (v = u /\ (exists i r, invites db !! i = Some r /\ inv_group_id r = g /\ inv_invitee_id r = u) \/
         admin db g u /\ (exists j r, join_requests db !! j = Some r /\ joi_group_id r = g /\
                                      joi_requester_id r = v /\ joi_status r = "pending"))
  | Some _, Some role => admin db g u /\ (role = "admin" \/ role = "member")
  | Some _, None => v = u \/ admin db g u
  | None, None => True
  end.

Definition group_ok (u : string) (db : MsgDb) (g : string) (old new : option GroupRow) : Prop :=
  match old, new with
  | None, Some r => grp_owner_id r = u
  | Some _, Some _ => admin db g u
  | _, None => admin db g u \/ sole db g u
  end.

Definition channel_ok (u : string) (db : MsgDb) (c : string) (old new : option ChannelRow) : Prop :=
  match old, new with
  | None, Some r => belongs db (chn_group_id r) u \/ groups db !! chn_group_id r = None
  | Some r, Some r' => admin db (chn_group_id r) u /\ chn_group_id r' = chn_group_id r
  | Some r, None => admin db (chn_group_id r) u \/ sole db (chn_group_id r) u
  | None, None => True
  end.

Definition invite_ok (u : string) (db : MsgDb) (i : string) (old new : option InviteRow) : Prop :=
  match old, new with
  | None, Some r => admin db (inv_group_id r) u /\ inv_inviter_id r = u
  | Some r, None => inv_invitee_id r = u \/ admin db (inv_group_id r) u \/ sole db (inv_group_id r) u
  | _, _ => False
  end.

Definition join_ok (u : string) (db : MsgDb) (j : string) (old new : option JoinRow) : Prop :=
  match old, new with
  | None, Some r => joi_requester_id r = u /\ joi_status r = "pending"
  | Some r, Some r' =>
      joi_group_id r' = joi_group_id r /\ joi_requester_id r' = joi_requester_id r /\
      (joi_requester_id r = u /\ joi_status r' = "pending" \/ admin db (joi_group_id r) u)
  | Some r, None => joi_requester_id r = u \/ admin db (joi_group_id r) u \/ sole db (joi_group_id r) u
  | None, None => True
  end.

(** [c] is a channel of a group [u] administers. *)
Definition channel_admin (u : string) (db : MsgDb) (c : string) : Prop :=
  exists r, group_channels db !! c = Some r /\ admin db (chn_group_id r) u.

Definition envelope_ok (u : string) (db : MsgDb) (e : string) (old new : option EnvelopeRow) : Prop :=
  match old, new with Some r, None => channel_admin u db (env_conversation_id r) | _, _ => False end.

(** A read watermark is never moved: it goes with its channel, or is added. *)
Definition watermark_ok (u : string) (db : MsgDb) (k : string * string * string) (old new : option string) : Prop :=
  match old, new with
  | Some _, None => channel_admin u db k.1.1
  | Some _, Some _ => False
  | None, _ => True
  end.

Record group_scope (u : string) (db db' : MsgDb) : Prop := {
  gs_members : changed (member_ok u db) (group_members db) (group_members db');
  gs_groups : changed (group_ok u db) (groups db) (groups db');
  gs_channels : changed (channel_ok u db) (group_channels db) (group_channels db');
  gs_invites : changed (invite_ok u db) (invites db) (invites db');
  gs_joins : changed (join_ok u db) (join_requests db) (join_requests db');
  gs_envelopes : changed (envelope_ok u db) (envelopes db) (envelopes db');
  gs_watermarks : changed (watermark_ok u db) (watermarks db) (watermarks db');
  gs_rest : users db' = users db /\ preferences db' = preferences db /\ devices db' = devices db /\
    dm_channels db' = dm_channels db /\ dm_members db' = dm_members db /\ blocks db' = blocks db /\
    reactions db' = reactions db /\ attachments db' = attachments db /\ accounts db' = accounts db
}.

Lemma group_scope_refl u db : group_scope u db db.
Proof. split; auto with pollis. split_and!; done. Qed.

Context (env : SqlEnv).

Lemma wp_is_admin g u db (Q : Result bool SqlError -> MsgDb -> Prop) :
  (forall e, Q (Err e) db) -> (forall b, (b = true -> admin db g u) -> Q (Ok b) db) -> wp (is_admin env g u) db Q.
Proof.
  intros He Hb. unfold is_admin, group_role. repeat wp_step; [done|]. apply Hb. intros E. by breflect.
Qed.

Lemma wp_is_member_of g u db (Q : Result bool SqlError -> MsgDb -> Prop) :
  (forall e, Q (Err e) db) -> (forall b, (b = true -> belongs db g u) -> Q (Ok b) db) -> wp (is_member_of env g u) db Q.
Proof.
  intros He Hb. unfold is_member_of, group_role. repeat wp_step; [done|]. apply Hb. intros E. breflect.
  unfold belongs. destruct (group_members db !! (g, u)); [by eexists|done].
Qed.

(** A guarded program of a signed request runs only if the check holds. *)
Lemma wp_guard_admin a g u k db (Q : Result WriteOutcome SqlError -> MsgDb -> Prop) :
  (forall e, Q (Err e) db) -> Q (Ok Forbidden) db -> (admin db g u -> wp k db Q) ->
  wp (guard (Some a) (is_admin env g u) k) db Q.
Proof.
  intros He Hf Hk. apply wp_guard, wp_is_admin; [done|]. intros [] Hb; auto.
Qed.

Lemma wp_guard_member a g u k db (Q : Result WriteOutcome SqlError -> MsgDb -> Prop) :
  (forall e, Q (Err e) db) -> Q (Ok Forbidden) db -> (belongs db g u -> wp k db Q) ->
  wp (guard (Some a) (is_member_of env g u) k) db Q.
Proof.
  intros He Hf Hk. apply wp_guard, wp_is_member_of; [done|]. intros [] Hb; auto.
Qed.

(** One more statement, table by table. *)
Lemma gs_set_groups u db db' f : group_scope u db db' ->
  changed (group_ok u db) (groups db) (f (groups db')) -> group_scope u db (set_groups f db').
Proof. intros [] Hc. by split. Qed.

Lemma gs_set_group_members u db db' f : group_scope u db db' ->
  changed (member_ok u db) (group_members db) (f (group_members db')) -> group_scope u db (set_group_members f db').
Proof. intros [] Hc. by split. Qed.

Lemma gs_set_group_channels u db db' f : group_scope u db db' ->
  changed (channel_ok u db) (group_channels db) (f (group_channels db')) -> group_scope u db (set_group_channels f db').
Proof. intros [] Hc. by split. Qed.

Lemma gs_set_invites u db db' f : group_scope u db db' ->
  changed (invite_ok u db) (invites db) (f (invites db')) -> group_scope u db (set_invites f db').
Proof. intros [] Hc. by split. Qed.

Lemma gs_set_join_requests u db db' f : group_scope u db db' ->
  changed (join_ok u db) (join_requests db) (f (join_requests db')) -> group_scope u db (set_join_requests f db').
Proof. intros [] Hc. by split. Qed.

Lemma gs_set_envelopes u db db' f : group_scope u db db' ->
  changed (envelope_ok u db) (envelopes db) (f (envelopes db')) -> group_scope u db (set_envelopes f db').
Proof. intros [] Hc. by split. Qed.

Lemma gs_set_watermarks u db db' f : group_scope u db db' ->
  changed (watermark_ok u db) (watermarks db) (f (watermarks db')) -> group_scope u db (set_watermarks f db').
Proof. intros [] Hc. by split. Qed.

Lemma gs_seed u db db' convs v now : group_scope u db db' -> watermarks db' = watermarks db ->
  group_scope u db (seed_watermarks convs v now db').
Proof.
  intros Hs Hw. apply gs_set_watermarks; [done|]. rewrite Hw. apply changed_seed; [by intros| |]; auto with pollis.
Qed.

(** Deleting a group, cascades included, by its admin or its last member. *)
Lemma gs_delete_group_row u db db' g : group_scope u db db' -> admin db g u \/ sole db g u ->
  (forall v role, group_members db' !! (g, v) = Some role -> v = u \/ admin db g u) ->
  group_scope u db (delete_group_row env g db').
Proof.
  intros Hs Hg Hm. unfold delete_group_row.
  assert (group_scope u db (set_groups (delete g) db')) as H1.
  { apply gs_set_groups; [done|]. apply changed_delete; [apply Hs|]. intros r _. done. }
  destruct (fk env); [|done].
  apply gs_set_join_requests; [|apply changed_delete_where; [apply Hs|]].
  - apply gs_set_invites; [|apply changed_delete_where; [apply Hs|]].
    + apply gs_set_group_channels; [|apply changed_delete_where; [apply Hs|]].
      * apply gs_set_group_members; [done|]. apply changed_delete_where; [apply Hs|]. intros [g' v] role E Hp.
        unfold in_group in Hp. breflect. simpl in Hp. subst g'. simpl in E. specialize (Hm _ _ E).
        destruct (group_members db !! (g, v)); [by right|by left].
      * intros c r E Hp. breflect. simpl in E. destruct (gs_channels _ _ _ Hs c) as [Ec|Hc]; rewrite E in *.
        -- right. rewrite <- Ec. simpl. by rewrite Hp.
        -- destruct (group_channels db !! c) as [r0|]; [|by left]. right. simpl in *. destruct Hc as [_ Hc].
           rewrite <- Hc, Hp. done.
    + intros i r E Hp. breflect. simpl in E. destruct (gs_invites _ _ _ Hs i) as [Ec|Hc]; rewrite E in *.
      * right. rewrite <- Ec. simpl. rewrite Hp. by right.
      * by destruct (invites db !! i); [|left].
  - intros j r E Hp. breflect. simpl in E. destruct (gs_joins _ _ _ Hs j) as [Ec|Hc]; rewrite E in *.
    + right. rewrite <- Ec. simpl. rewrite Hp. by right.
    + destruct (join_requests db !! j) as [r0|]; [|by left]. right. simpl in *. destruct Hc as (Hc & _).
      rewrite <- Hc, Hp. by right.
Qed.

(** The claim for one route. *)
Definition scoped (m : Sql WriteOutcome) (u : string) (db : MsgDb) : Prop := wp m db (fun _ db' => group_scope u db db').

#[local] Hint Resolve group_scope_refl : pollis.

Lemma insert_member_Some g v role db db' : insert_member env g v role db = Some db' ->
  group_members db !! (g, v) = None /\ db' = set_group_members <[(g, v) := role]> db.
Proof.
  unfold insert_member. destruct (fk_holds _ _); [|done]. destruct (insert_new _ _ _) as [m|] eqn:E; [|done].
  apply insert_new_Some in E as [Hn ->]. by intros [= <-].
Qed.

Lemma insert_channel_Some c g n d t db db' : insert_channel env c g n d t db = Some db' ->
  group_channels db !! c = None /\ db' = set_group_channels <[c := mkChannel g n d t]> db.
Proof.
  unfold insert_channel. destruct (fk_holds _ _); [|done]. destruct (insert_new _ _ _) as [m|] eqn:E; [|done].
  apply insert_new_Some in E as [Hn ->]. by intros [= <-].
Qed.

(** A channel inserted after [db], in a group [u] may add to. *)
Lemma gs_insert_channel u db db1 db2 c g n d t : group_scope u db db1 -> belongs db g u \/ groups db !! g = None ->
  (group_channels db1 !! c = None -> group_channels db !! c = None) ->
  insert_channel env c g n d t db1 = Some db2 -> group_scope u db db2.
Proof.
  intros Hs Hg Hc [Hn ->]%insert_channel_Some. apply gs_set_group_channels; [done|].
  apply changed_insert; [apply Hs|]. rewrite (Hc Hn). done.
Qed.

Lemma scoped_create_group u b db : scoped (apply_create_group env (Some u) b) u db.
Proof.
  apply wp_as_actor; [auto with pollis|]. wp_step; [auto with pollis|]. repeat wp_step; try done.
  all: match goal with H : _ <$> insert_new _ _ _ = Some _ |- _ =>
    apply fmap_Some in H as (m & [Hg ->]%insert_new_Some & ->) end.
  all: match goal with H : insert_member _ _ _ _ _ = Some _ |- _ => apply insert_member_Some in H as [Hm ->] end.
  all: assert (group_scope u db (set_group_members <[(cg_id b, u) := "admin"]> (set_groups (fun _ =>
      <[cg_id b := mkGroup (cg_name b) (cg_description b) None u (cg_created_at b)]> (groups db)) db))) as Hbase
    by (apply gs_set_group_members;
        [apply gs_set_groups; [auto with pollis|apply changed_insert; [auto with pollis|by rewrite Hg]]
        |apply changed_insert; [auto with pollis|]; simpl in Hm; rewrite Hm; left; done]).
  1: done.
  - eapply gs_insert_channel; [exact Hbase|by right| |done]. done.
  - eapply gs_insert_channel; [exact Hbase|by right| |done]. done.
  - match goal with Ha : insert_channel _ _ _ _ _ _ _ = Some ?d1, Hb : insert_channel _ _ _ _ _ _ ?d1 = Some _ |- _ =>
      pose proof (gs_insert_channel _ _ _ _ _ _ _ _ _ Hbase (or_intror Hg) (fun h => h) Ha) as Hfirst;
      eapply gs_insert_channel; [exact Hfirst|by right| |exact Hb]; apply insert_channel_Some in Ha as [_ ->] end.
    simpl. intros E. apply lookup_insert_None in E as [E _]. done.
Qed.

Lemma scoped_update_group u b db : scoped (apply_update_group env (Some u) b) u db.
Proof.
  apply wp_as_actor; [auto with pollis|]. apply wp_guard_admin; [auto with pollis..|]. intros Ha.
  assert (forall db' f, group_scope u db db' -> (forall r, grp_owner_id (f r) = grp_owner_id r) ->
    group_scope u db (set_groups (alter f (ug_group_id b)) db')) as Hu.
  { intros db' f Hs Hf. apply gs_set_groups; [done|]. apply changed_alter; [apply Hs|]. intros r Hr.
    destruct (gs_groups _ _ _ Hs (ug_group_id b)) as [E|E]; rewrite Hr in E.
    - by rewrite <- E.
    - destruct (groups db !! ug_group_id b); [done|]. simpl in *. by rewrite Hf. }
  unfold update_group_row. repeat wp_step; simplify_eq; auto 8 with pollis.
Qed.

Lemma scoped_delete_group u b db : scoped (apply_delete_group env (Some u) b) u db.
Proof.
  apply wp_as_actor; [auto with pollis|]. apply wp_guard_admin; [auto with pollis..|]. intros Ha.
  repeat wp_step; simplify_eq; [auto with pollis|]. apply gs_delete_group_row; auto with pollis.
Qed.

Lemma member_count_zero g db v role : member_count g db = 0 -> group_members db !! (g, v) = Some role -> False.
Proof.
  unfold member_count. intros Hz Hl. apply length_zero_iff_nil in Hz.
  assert (In (g, v) (List.filter (in_group g) (map fst (map_to_list (group_members db))))) as Hin.
  { apply filter_In. split; [|unfold in_group; by rewrite bool_decide_eq_true_2].
    apply in_map_iff. exists ((g, v), role). split; [done|]. by apply list_elem_of_In, elem_of_map_to_list. }
  by rewrite Hz in Hin.
Qed.

Lemma scoped_leave_group u b db : scoped (apply_leave_group env (Some u) b) u db.
Proof.
  apply wp_as_actor; [auto with pollis|]. apply wp_guard_member; [auto with pollis..|]. intros Hb.
  wp_step; [auto with pollis|]. repeat wp_step; try done; simplify_eq.
  all: assert (group_scope u db (set_group_members (delete (lg_group_id b, u)) db)) as Hbase
    by (apply gs_set_group_members; [auto with pollis|apply changed_delete; [auto with pollis|by left]]).
  2: done.
  match goal with H : (member_count _ _ =? 0) = true |- _ => apply Nat.eqb_eq in H as Hz end.
  assert (forall v role, group_members db !! (lg_group_id b, v) = Some role -> v = u) as Hsole.
  { intros v role Hv. destruct (decide (v = u)) as [|Hne]; [done|]. exfalso. eapply member_count_zero; [exact Hz|].
    simpl. rewrite lookup_delete_ne by (intros E; apply Hne; by injection E). exact Hv. }
  apply gs_delete_group_row; [done| |].
  - right. split; [done|]. intros v [role Hv]. by eapply Hsole.
  - intros v role Hv. simpl in Hv. apply lookup_delete_Some in Hv as [_ Hv]. left. by eapply Hsole.
Qed.

Lemma scoped_create_channel u b db : scoped (apply_create_channel env (Some u) b) u db.
Proof.
  apply wp_as_actor; [auto with pollis|]. apply wp_guard_member; [auto with pollis..|]. intros Hb.
  repeat wp_step; [auto with pollis|]. eapply gs_insert_channel; [apply group_scope_refl|by left| |done]. done.
Qed.

(** A program on a channel runs for an admin of its group. *)
Lemma wp_channel_admin c u k db (Q : Result WriteOutcome SqlError -> MsgDb -> Prop) :
  (forall e, Q (Err e) db) -> Q (Ok Forbidden) db -> (channel_admin u db c -> wp k db Q) ->
  wp (with_channel_admin env (Some u) c u k) db Q.
Proof.
  intros He Hf Hk. unfold with_channel_admin, channel_group_id. repeat wp_step; try done.
  match goal with H : _ <$> _ = Some _ |- _ => apply fmap_Some in H as (r & Hr & ->) end.
  apply wp_guard_admin; [done..|]. intros Ha. apply Hk. by exists r.
Qed.

Lemma scoped_update_channel u b db : scoped (apply_update_channel env (Some u) b) u db.
Proof.
  apply wp_as_actor; [auto with pollis|]. apply wp_channel_admin; [auto with pollis..|]. intros (r & Hr & Ha).
  assert (forall db' f, group_scope u db db' -> (forall r0, chn_group_id (f r0) = chn_group_id r0) ->
    group_scope u db (set_group_channels (alter f (uc_channel_id b)) db')) as Hu.
  { intros db' f Hs Hf. apply gs_set_group_channels; [done|]. apply changed_alter; [apply Hs|]. intros r' Hr'.
    destruct (gs_channels _ _ _ Hs (uc_channel_id b)) as [E|E]; rewrite Hr', Hr in E; rewrite Hr.
    - simplify_eq. split; [done|]. apply Hf.
    - destruct E as [_ E]. split; [done|]. by rewrite Hf. }
  unfold update_channel_row. repeat wp_step; simplify_eq; auto 8 with pollis.
Qed.

Lemma scoped_delete_channel u b db : scoped (apply_delete_channel env (Some u) b) u db.
Proof.
  apply wp_as_actor; [auto with pollis|]. apply wp_channel_admin; [auto with pollis..|]. intros Hc.
  wp_step; [auto with pollis|]. unfold delete_envelopes_of. repeat wp_step; try done; simplify_eq.
  apply gs_set_group_channels.
  - apply gs_set_watermarks.
    + apply gs_set_envelopes; [auto with pollis|]. apply changed_delete_where; [auto with pollis|].
      intros e r Hr Hp. breflect. right. rewrite Hr. simpl. by rewrite Hp.
    + apply changed_delete_where; [auto with pollis|]. intros k w Hw Hp. breflect. simpl in Hw. right. rewrite Hw.
      simpl. by rewrite Hp.
  - apply changed_delete; [auto with pollis|]. intros r Hr. destruct Hc as (r' & Hr' & Ha). left. congruence.
Qed.

Lemma scoped_remove_member u b db : scoped (apply_remove_member env (Some u) b) u db.
Proof.
  apply wp_as_actor; [auto with pollis|].
  assert (u = rm_user_id b \/ admin db (rm_group_id b) u ->
    wp (let* _ := write env (fun db => Some (set_group_members (delete (rm_group_id b, rm_user_id b)) db)) in ret Applied)
      db (fun _ db' => group_scope u db db')) as Hk.
  { intros Hu. repeat wp_step; simplify_eq; [auto with pollis|]. apply gs_set_group_members; [auto with pollis|].
    apply changed_delete; [auto with pollis|]. intros role _. simpl. naive_solver. }
  case_bool_decide as E; [unfold guard; simpl; auto|]. apply wp_guard_admin; auto with pollis.
Qed.

Lemma scoped_set_member_role u b db : scoped (apply_set_member_role env (Some u) b) u db.
Proof.
  unfold scoped, apply_set_member_role. destruct (_ && _) eqn:Er; [apply wp_ret; auto with pollis|].
  apply wp_as_actor; [auto with pollis|]. apply wp_guard_admin; [auto with pollis..|]. intros Ha.
  apply wp_bind, wp_is_member_of; [auto with pollis|]. intros [] Hb; simpl; [|apply wp_ret; auto with pollis].
  repeat wp_step; simplify_eq; [auto with pollis|]. apply gs_set_group_members; [auto with pollis|].
  apply changed_alter; [auto with pollis|]. intros role Hr. rewrite Hr. split; [done|].
  destruct (decide (sr_role b = "admin")) as [|Hna]; [by left|right].
  rewrite (bool_decide_eq_false_2 _ Hna) in Er. simpl in Er. by breflect.
Qed.

Lemma scoped_create_invite u b db : scoped (apply_create_invite env (Some u) b) u db.
Proof.
  apply wp_as_actor; [auto with pollis|]. apply wp_guard_admin; [auto with pollis..|]. intros Ha.
  repeat wp_step; [auto with pollis|].
  match goal with H : (if _ then _ else _) = Some _ |- _ => destruct (fk_holds _ _) in H; [|done];
    apply fmap_Some in H as (m & [Hn ->]%insert_new_Some & ->) end.
  apply gs_set_invites; [auto with pollis|]. apply changed_insert; [auto with pollis|]. by rewrite Hn.
Qed.

(** Adding a plain member that the signer may add. *)
Lemma wp_add_member u g v db (Q : Result unit SqlError -> MsgDb -> Prop) :
  (group_members db !! (g, v) = None -> member_ok u db (g, v) None (Some "member")) ->
  (forall e, Q (Err e) db) ->
  (forall db', group_scope u db db' -> invites db' = invites db -> join_requests db' = join_requests db -> Q (Ok tt) db') ->
  wp (add_member_rows env g v) db Q.
Proof.
  intros Hok He HQ. unfold add_member_rows. repeat wp_step; [done|..].
  all: match goal with H : (if _ then _ else _) = Some _ |- _ => destruct (fk_holds _ _) in H; [|done]; injection H as <- end.
  all: assert (group_scope u db (set_group_members (insert_ignore (g, v) "member") db)) as Hs
    by (apply gs_set_group_members; [auto with pollis|];
        apply changed_insert_ignore; [auto with pollis|]; intros E; rewrite E; auto).
  - by apply HQ.
  - simplify_eq. apply HQ; [by apply gs_seed; [|done]|done|done].
Qed.

Lemma scoped_accept_invite u b db : scoped (apply_accept_invite env (Some u) b) u db.
Proof.
  apply wp_as_actor; [auto with pollis|]. repeat wp_step; auto with pollis.
  match goal with H : match _ with Some _ => _ | None => None end = Some ?x |- _ =>
    destruct (invites db !! ai_invite_id b) as [r|] eqn:Ei; [|done]; case_bool_decide; [|done]; injection H as <- end.
  apply (wp_add_member u).
  - intros _. right. split; [done|]. left. split; [done|]. by exists (ai_invite_id b), r.
  - done.
  - intros db' Hs Hi _. repeat wp_step; try done. simplify_eq. apply gs_set_invites; [done|].
    rewrite Hi. apply changed_delete; [auto with pollis|]. intros r' Hr'. left. congruence.
Qed.

Lemma scoped_decline_invite u b db : scoped (apply_decline_invite env (Some u) b) u db.
Proof.
  apply wp_as_actor; [auto with pollis|]. repeat wp_step; simplify_eq; [auto with pollis|].
  apply gs_set_invites; [auto with pollis|]. apply changed_delete_where; [auto with pollis|].
  intros i r Hr Hp. breflect. right. rewrite Hr. by left.
Qed.

Lemma scoped_create_join_request u b db : scoped (apply_create_join_request env (Some u) b) u db.
Proof.
  apply wp_as_actor; [auto with pollis|]. repeat wp_step; [auto with pollis|].
  match goal with H : upsert_join_request _ _ _ _ _ _ = Some _ |- _ => unfold upsert_join_request in H;
    destruct (negb _) in H; [done|]; destruct (find _ _) as [[old r]|] eqn:Ef in H; [|apply fmap_Some in H as (m & [Hn ->]%insert_new_Some & ->)] end.
  2: { apply gs_set_join_requests; [auto with pollis|]. apply changed_insert; [auto with pollis|]. by rewrite Hn. }
  apply find_some in Ef as [Hin Hb]. simpl in Hb. breflect. apply list_elem_of_In, elem_of_map_to_list in Hin.
  case_bool_decide as Eo.
  - simplify_eq. apply gs_set_join_requests; [auto with pollis|]. apply changed_insert; [auto with pollis|].
    rewrite Hin. simpl. split_and!; try done. by left.
  - match goal with H : _ <$> _ = Some _ |- _ => apply fmap_Some in H as (m & [Hn ->]%insert_new_Some & ->) end.
    rewrite lookup_delete_ne in Hn by done. apply gs_set_join_requests; [auto with pollis|].
    apply changed_insert; [|by rewrite Hn]. apply changed_delete; [auto with pollis|]. intros r' Hr'. left. congruence.
Qed.

(** A pending request, reviewed by an admin of its group. *)
Lemma wp_pending id db (Q : Result (option (string * string)) SqlError -> MsgDb -> Prop) :
  (forall e, Q (Err e) db) -> Q (Ok None) db ->
  (forall r, join_requests db !! id = Some r -> joi_status r = "pending" ->
     Q (Ok (Some (joi_group_id r, joi_requester_id r))) db) -> wp (pending_request env id) db Q.
Proof.
  intros He Hn Hs. unfold pending_request. wp_step; [done|]. destruct (join_requests db !! id) as [r|] eqn:E; [|done].
  case_bool_decide; [|done]. by apply Hs.
Qed.

Lemma gs_review u db db' db'' id r status at_ :
  group_scope u db db' -> join_requests db' = join_requests db -> join_requests db !! id = Some r ->
  admin db (joi_group_id r) u ->
  (if fk_holds env (is_user_row db' u)
   then Some (set_join_requests (alter (fun j => mkJoin (joi_group_id j) (joi_requester_id j) (joi_created_at j)
                (Some u) (Some at_) status) id) db')
   else None) = Some db'' -> group_scope u db db''.
Proof.
  intros Hs Hj Hr Ha E. destruct (fk_holds _ _) in E; [|done]. injection E as <-.
  apply gs_set_join_requests; [done|]. rewrite Hj. apply changed_alter; [auto with pollis|]. intros r' Hr'.
  rewrite Hr. simplify_eq. simpl. split_and!; try done. by right.
Qed.

Lemma scoped_approve_join_request u b db : scoped (apply_approve_join_request env (Some u) b) u db.
Proof.
  apply wp_as_actor; [auto with pollis|]. apply wp_bind, wp_pending; [auto with pollis|apply wp_ret; auto with pollis|].
  intros r Hr Hp. apply wp_guard_admin; [auto with pollis..|]. intros Ha. wp_step; [auto with pollis|].
  apply wp_bind, (wp_add_member u).
  - intros _. right. split; [done|]. right. split; [done|]. by exists (aj_request_id b), r.
  - done.
  - intros db' Hs _ Hj. unfold review. repeat wp_step; try done. by eapply gs_review.
Qed.

Lemma scoped_reject_join_request u b db : scoped (apply_reject_join_request env (Some u) b) u db.
Proof.
  apply wp_as_actor; [auto with pollis|]. apply wp_bind, wp_pending; [auto with pollis|apply wp_ret; auto with pollis|].
  intros r Hr Hp. apply wp_guard_admin; [auto with pollis..|]. intros Ha. unfold review. repeat wp_step; [auto with pollis|].
  by eapply gs_review; [apply group_scope_refl|..].
Qed.

Lemma group_op_scope (u : string) (op : GroupOp) (db : MsgDb) :
  wp (apply_group_op env (Some u) op) db (fun _ db' => group_scope u db db').
Proof.
  destruct op; simpl.
  - apply scoped_create_group.
  - apply scoped_update_group.
  - apply scoped_delete_group.
  - apply scoped_leave_group.
  - apply scoped_create_channel.
  - apply scoped_update_channel.
  - apply scoped_delete_channel.
  - apply scoped_remove_member.
  - apply scoped_set_member_role.
  - apply scoped_create_invite.
  - apply scoped_accept_invite.
  - apply scoped_decline_invite.
  - apply scoped_create_join_request.
  - apply scoped_approve_join_request.
  - apply scoped_reject_join_request.
Qed.

(** Group writes are authorised.  Whatever a signed request to a group route does, with
    any statement failing, only what its signer may change has changed: someone joins a
    group only as its creator, through an invite addressed to the signer, or through a
    pending request an admin approves; roles change and others leave only by an admin;
    groups and channels are edited and deleted only by an admin (or vanish with the last
    member); invites are written by admins and withdrawn by the invitee; envelopes are
    deleted only with a channel of a group the signer administers; a read watermark is
    never moved; and no other table is written. *)
Theorem group_writes_authorised (u : string) (op : GroupOp) (db : MsgDb) :
  wp (apply_group_op env (Some u) op) db (fun _ db' => group_scope u db db').
Proof. apply group_op_scope. Qed.
End Scope.

(** ** One id space for groups, channels and DMs

    [is_member] looks a conversation id up among groups, DMs and channels alike, and a new
    channel's id is the client's. *)

Section Capture.
Import GroupRoutes.

Lemma run_member env g u n db : reliable env -> belongs db g u -> is_member_of env g u (n, db) = ((S n, db), Ok true).
Proof.
  intros Hr [role Hb]. unfold is_member_of, group_role, bind. rewrite run_query by done. simpl. by rewrite Hb.
Qed.

(** [is_member] on these tables: a row of either membership table, or a channel of a group. *)
Lemma is_member_channel db c r u : group_channels db !! c = Some r -> belongs db (chn_group_id r) u ->
  is_member (main_of db) c u = true.
Proof.
  intros Hc [role Hb]. unfold is_member, main_of. simpl. apply orb_true_iff. right.
  apply existsb_exists. exists (c, chn_group_id r). split.
  - apply in_map_iff. exists (c, r). split; [done|]. by apply list_elem_of_In, elem_of_map_to_list.
  - rewrite bool_decide_eq_true_2 by done. simpl. apply existsb_exists. exists (chn_group_id r, u). split.
    + apply in_map_iff. exists ((chn_group_id r, u), role). split; [done|]. by apply list_elem_of_In, elem_of_map_to_list.
    + simpl. by rewrite !bool_decide_eq_true_2.
Qed.

(** A channel id can be captured.  A member of any group may create in it a channel whose
    id is that of a conversation of others (a group or a DM they are not in); from then on
    the membership check of the commit, GroupInfo, Welcome and message routes counts them
    a member of that conversation. *)
Theorem channel_id_capture (env : SqlEnv) (db : MsgDb) (mallory own victim name : string) :
  reliable env -> belongs db own mallory -> is_Some (groups db !! own) ->
  group_channels db !! victim = None -> is_member (main_of db) victim mallory = false ->
  exists db', run_sql (apply_create_channel env (Some mallory)
                (mkCreateChannel victim own name None "text" None)) db = (db', Ok Applied) /\
    is_member (main_of db') victim mallory = true /\
    groups db' = groups db /\ group_members db' = group_members db /\ dm_members db' = dm_members db.
Proof.
  intros Hr Hb [grow Hg] Hc _.
  exists (set_group_channels <[victim := mkChannel own name None "text"]> db). split_and!; try done.
  - unfold run_sql, apply_create_channel, as_actor, guard. simpl. unfold bind. rewrite (run_member _ _ _ _ _ Hr Hb).
    rewrite run_write by done. unfold insert_channel, is_group_row, fk_holds, insert_new. simpl. rewrite Hg, Hc, orb_true_r. done.
  - eapply is_member_channel; [apply lookup_insert_eq|]. done.
Qed.

(** The hypotheses hold for an outsider of a DM between two others. *)
Definition capture_env : SqlEnv := mkSqlEnv (fun _ => false) true "2026-01-01 00:00:00" "2025-12-02 00:00:00"
  (Some 1767225600%N) "01J0" 0.

Definition capture_db : MsgDb :=
  mkMsgDb ∅ ∅ [] {["own" := mkGroup "own" None None "mallory" "2026-01-01"]} {[("own", "mallory") := "admin"]} ∅ ∅ ∅
    {["dm-ab" := mkDm "alice" "2026-01-01"]}
    {[("dm-ab", "alice") := mkDmMember "alice" "2026-01-01" (Some "2026-01-01");
      ("dm-ab", "bob") := mkDmMember "alice" "2026-01-01" (Some "2026-01-01")]} ∅ ∅ ∅ ∅ ∅ no_accounts.

Lemma channel_id_capture_witness :
  exists db', run_sql (apply_create_channel capture_env (Some "mallory")
                (mkCreateChannel "dm-ab" "own" "general" None "text" None)) capture_db = (db', Ok Applied) /\
    is_member (main_of db') "dm-ab" "mallory" = true /\
    groups db' = groups capture_db /\ group_members db' = group_members capture_db /\
    dm_members db' = dm_members capture_db.
Proof.
  refine (channel_id_capture capture_env capture_db "mallory" "own" "dm-ab" "general" _ _ _ _ _).
  - intros n. reflexivity.
  - exists "admin". vm_compute. reflexivity.
  - eexists. vm_compute. reflexivity.
  - vm_compute. reflexivity.
  - vm_compute. reflexivity.
Defined.
End Capture.
