(* ===== verification/Dms.v ===== *)
(** * pollis-delivery: profiles, preferences, blocks and direct messages

    Models [profile.rs]: every body and every [apply_*] function, on the tables and the
    statement monad of [Tables].

    The main theorem bounds what a signed request can change.  A DM's creation is shown
    exact: its creator has accepted, the others are pending, nobody else joins.  The last
    section shows two things the routes let through: leaving a DM needs no membership, and
    adding to one asks no block. *)

From stdpp Require Import base list strings gmap.
From Stdlib Require Import NArith ZArith Lia ZifyNat ZifyN.
From S2P Require Import Prelude Delivery Tables.

Module DmRoutes.

(** ** Bodies *)

Record UpdateProfileBody := mkUpdateProfile {
  up_user_id : string;
  up_username : option string;
  up_preferred_name : option string;
  up_phone : option string;
  up_avatar_url : option string
}.

Record SavePreferencesBody := mkSavePreferences { sp_user_id : string; sp_preferences : string }.

Record BlockBody := mkBlock { bl_blocker_id : string; bl_blocked_id : string }.

Record CreateDmBody := mkCreateDm {
  cd_id : string;
  cd_creator_id : string;
  cd_member_ids : list string;
  cd_created_at : string
}.

Record AcceptDmBody := mkAcceptDm { ad_dm_channel_id : string; ad_user_id : string; ad_accepted_at : string }.

Record AddDmMemberBody := mkAddDmMember {
  am_dm_channel_id : string;
  am_user_id : string;
  am_added_by : string;
  am_added_at : string
}.

Record RemoveDmMemberBody := mkRemoveDmMember {
  rd_dm_channel_id : string;
  rd_user_id : string;
  rd_requester_id : string
}.

Record LeaveDmBody := mkLeaveDm { ld_dm_channel_id : string; ld_user_id : string }.

Section Routes.
Context (env : SqlEnv).

(** ** Statements *)

Definition blocked_either_way (db : MsgDb) (a b : string) : bool :=
  bool_decide ((a, b) ∈ blocks db) || bool_decide ((b, a) ∈ blocks db).

Definition is_blocked_either_way (a b : string) : Sql bool := query env (fun db => blocked_either_way db a b).

(** [COALESCE(?n, column)]. *)
Definition coalesce {A} (o : option A) (old : option A) : option A := match o with Some _ => o | None => old end.

(** [username] is UNIQUE: another row's name is a violation. *)
Definition username_taken (db : MsgDb) (user name : string) : bool :=
  existsb (fun kr : string * ProfileRow => negb (bool_decide (kr.1 = user)) && bool_decide (prf_username kr.2 = name))
    (map_to_list (users db)).

Definition coalesce_profile (b : UpdateProfileBody) (r : ProfileRow) : ProfileRow :=
  mkProfile (default (prf_username r) (up_username b)) (coalesce (up_preferred_name b) (prf_preferred_name r))
    (coalesce (up_phone b) (prf_phone r)) (coalesce (up_avatar_url b) (prf_avatar_url r))
    (prf_email r) (prf_account_id_pub r) (prf_identity_version r).

Definition is_dm_row (db : MsgDb) (c : string) : bool := match dm_channels db !! c with Some _ => true | None => false end.

(** INSERT OR IGNORE into [dm_channel_member]; a broken reference is not ignored. *)
Definition insert_dm_member (c u : string) (row : DmMemberRow) (db : MsgDb) : option MsgDb :=
  if fk_holds env (is_dm_row db c && is_user_row db u)
  then Some (set_dm_members (insert_ignore (c, u) row) db) else None.

Definition dm_member_count (c : string) (db : MsgDb) : nat :=
  length (List.filter (fun k : string * string => bool_decide (k.1 = c)) (map fst (map_to_list (dm_members db)))).

Definition seed_dm_watermarks (c u : string) : Sql unit :=
  write env (fun db => Some (seed_watermarks [c] u (datetime_now env) db)).

(** ** The routes *)

Definition apply_update_profile (authed : option string) (b : UpdateProfileBody) : Sql WriteOutcome :=
  as_actor authed (Some (up_user_id b)) (fun user =>
    let* _ := write env (fun db =>
      match users db !! user with
      | None => Some db
      | Some r =>
          if match up_username b with Some n => username_taken db user n | None => false end then None
          else Some (set_users <[user := coalesce_profile b r]> db)
      end) in
    ret Applied).

Definition apply_save_preferences (authed : option string) (b : SavePreferencesBody) : Sql WriteOutcome :=
  as_actor authed (Some (sp_user_id b)) (fun user =>
    let* _ := write env (fun db =>
      if fk_holds env (is_user_row db user) then Some (set_preferences <[user := sp_preferences b]> db) else None) in
    ret Applied).

Definition apply_block_user (authed : option string) (b : BlockBody) : Sql WriteOutcome :=
  as_actor authed (Some (bl_blocker_id b)) (fun blocker =>
    if bool_decide (blocker = bl_blocked_id b) then ret Forbidden
    else transaction env (
      let* _ := write env (fun db =>
        if fk_holds env (is_user_row db blocker && is_user_row db (bl_blocked_id b))
        then Some (set_blocks (fun s => {[(blocker, bl_blocked_id b)]} ∪ s) db) else None) in
      let* _ := write env (fun db => Some (set_dm_members (update_where
        (fun k _ => bool_decide (k.2 = blocker) && bool_decide (is_Some (dm_members db !! (k.1, bl_blocked_id b))))
        (fun r => mkDmMember (dmm_added_by r) (dmm_added_at r) None)) db)) in
      ret Applied)).

Definition apply_unblock_user (authed : option string) (b : BlockBody) : Sql WriteOutcome :=
  as_actor authed (Some (bl_blocker_id b)) (fun blocker =>
    let* _ := write env (fun db => Some (set_blocks (fun s => s ∖ {[(blocker, bl_blocked_id b)]}) db)) in
    ret Applied).

(** Everyone but the creator, de-duplicated in order. *)
Definition dm_others (creator : string) (members : list string) : list string :=
  fold_left (fun others m =>
    if negb (bool_decide (m = creator)) && negb (bool_decide (m ∈ others)) then others ++ [m] else others) members [].

Fixpoint any_blocked (creator : string) (others : list string) : Sql bool :=
  match others with
  | [] => ret false
  | other :: rest =>
      let* b := is_blocked_either_way creator other in
      if b then ret true else any_blocked creator rest
  end.

Definition apply_create_dm (authed : option string) (b : CreateDmBody) : Sql WriteOutcome :=
  as_actor authed (Some (cd_creator_id b)) (fun creator =>
    let others := dm_others creator (cd_member_ids b) in
    guard authed (let* blocked := any_blocked creator others in ret (negb blocked)) (
      transaction env (
        let* _ := write env (fun db => (fun m => set_dm_channels (fun _ => m) db) <$>
          insert_new (cd_id b) (mkDm creator (cd_created_at b)) (dm_channels db)) in
        let* _ := write env (fun db =>
          if fk_holds env (is_dm_row db (cd_id b) && is_user_row db creator)
          then (fun m => set_dm_members (fun _ => m) db) <$>
                 insert_new (cd_id b, creator) (mkDmMember creator (cd_created_at b) (Some (cd_created_at b))) (dm_members db)
          else None) in
        let* _ := for_each others (fun other =>
          write env (insert_dm_member (cd_id b) other (mkDmMember creator (cd_created_at b) None))) in
        let* _ := for_each (creator :: others) (fun member => seed_dm_watermarks (cd_id b) member) in
        ret Applied))).

Definition apply_accept_dm (authed : option string) (b : AcceptDmBody) : Sql WriteOutcome :=
  as_actor authed (Some (ad_user_id b)) (fun user =>
    let* _ := write env (fun db => Some (set_dm_members (update_where
      (fun k r => bool_decide (k = (ad_dm_channel_id b, user)) && bool_decide (dmm_accepted_at r = None))
      (fun r => mkDmMember (dmm_added_by r) (dmm_added_at r) (Some (ad_accepted_at b)))) db)) in
    ret Applied).

Definition is_dm_member (c u : string) : Sql bool :=
  query env (fun db => bool_decide (is_Some (dm_members db !! (c, u)))).

Definition apply_add_dm_member (authed : option string) (b : AddDmMemberBody) : Sql WriteOutcome :=
  as_actor authed (Some (am_added_by b)) (fun actor =>
    guard authed (is_dm_member (am_dm_channel_id b) actor) (
      transaction env (
        let* _ := write env (insert_dm_member (am_dm_channel_id b) (am_user_id b) (mkDmMember actor (am_added_at b) None)) in
        let* _ := seed_dm_watermarks (am_dm_channel_id b) (am_user_id b) in
        ret Applied))).

(** The creator check; a missing channel refuses. *)
Definition is_dm_creator (c actor : string) : Sql bool :=
  query env (fun db => match dm_channels db !! c with
    | Some r => bool_decide (actor = dm_created_by r) | None => false end).

Definition apply_remove_dm_member (authed : option string) (b : RemoveDmMemberBody) : Sql WriteOutcome :=
  as_actor authed (Some (rd_requester_id b)) (fun actor =>
    guard (if bool_decide (actor = rd_user_id b) then None else authed) (is_dm_creator (rd_dm_channel_id b) actor) (
      let* _ := write env (fun db => Some (set_dm_members (delete (rd_dm_channel_id b, rd_user_id b)) db)) in
      ret Applied)).

(** [DELETE FROM dm_channel], with the cascade to its members. *)
Definition delete_dm_row (c : string) (db : MsgDb) : MsgDb :=
  let db := set_dm_channels (delete c) db in
  if fk env then set_dm_members (delete_where (fun k _ => bool_decide (k.1 = c))) db else db.

Definition apply_leave_dm (authed : option string) (b : LeaveDmBody) : Sql WriteOutcome :=
  as_actor authed (Some (ld_user_id b)) (fun user =>
    transaction env (
      let* _ := write env (fun db => Some (set_dm_members (delete (ld_dm_channel_id b, user)) db)) in
      let* remaining := query env (dm_member_count (ld_dm_channel_id b)) in
      let* _ := (if remaining =? 0 then
        let* _ := write env (fun db => Some (set_envelopes
          (delete_where (fun _ e => bool_decide (env_conversation_id e = ld_dm_channel_id b))) db)) in
        write env (fun db => Some (delete_dm_row (ld_dm_channel_id b) db))
      else ret tt) in
      ret Applied)).

Inductive DmOp : Type :=
| UpdateProfile (b : UpdateProfileBody) | SavePreferences (b : SavePreferencesBody)
| BlockUser (b : BlockBody) | UnblockUser (b : BlockBody) | CreateDm (b : CreateDmBody) | AcceptDm (b : AcceptDmBody)
| AddDmMember (b : AddDmMemberBody) | RemoveDmMember (b : RemoveDmMemberBody) | LeaveDm (b : LeaveDmBody).

Definition apply_dm_op (authed : option string) (op : DmOp) : Sql WriteOutcome :=
  match op with
  | UpdateProfile b => apply_update_profile authed b
  | SavePreferences b => apply_save_preferences authed b
  | BlockUser b => apply_block_user authed b
  | UnblockUser b => apply_unblock_user authed b
  | CreateDm b => apply_create_dm authed b
  | AcceptDm b => apply_accept_dm authed b
  | AddDmMember b => apply_add_dm_member authed b
  | RemoveDmMember b => apply_remove_dm_member authed b
  | LeaveDm b => apply_leave_dm authed b
  end.
End Routes.
End DmRoutes.

(** ** What a signed request may change *)

Section Scope.
Import DmRoutes.

(** [u] is the only member of DM [c], or it has none. *)
Definition no_other_member (u : string) (db : MsgDb) (c : string) : Prop :=
  forall v, is_Some (dm_members db !! (c, v)) -> v = u.

(** The signer's row, its email and account key untouched. *)
Definition profile_ok (u : string) (k : string) (old new : option ProfileRow) : Prop :=
  k = u /\ exists r r', old = Some r /\ new = Some r' /\ prf_email r' = prf_email r /\
    prf_account_id_pub r' = prf_account_id_pub r /\ prf_identity_version r' = prf_identity_version r.

Definition own_row {A} (u : string) (k : string) (old new : option A) : Prop := k = u /\ is_Some new.

Definition dm_ok (u : string) (db : MsgDb) (c : string) (old new : option DmRow) : Prop :=
  match old, new with
  | None, Some r => dm_created_by r = u
  | _, None => no_other_member u db c
  | _, _ => False
  end.

Definition dm_member_ok (u : string) (db : MsgDb) (cv : string * string) (old new : option DmMemberRow) : Prop :=
  let '(c, v) := cv in
  match old, new with
  | None, Some r =>
      dmm_added_by r = u /\
      (dm_channels db !! c = None /\ (v = u \/ blocked_either_way db u v = false /\ dmm_accepted_at r = None) \/
       is_Some (dm_members db !! (c, u)) /\ dmm_accepted_at r = None)
  | Some r, Some r' => v = u /\ dmm_added_by r' = dmm_added_by r /\ dmm_added_at r' = dmm_added_at r
  | Some _, None => v = u \/ exists d, dm_channels db !! c = Some d /\ dm_created_by d = u
  | None, None => True
  end.

Definition dm_envelope_ok (u : string) (db : MsgDb) (e : string) (old new : option EnvelopeRow) : Prop :=
  match old, new with Some r, None => no_other_member u db (env_conversation_id r) | _, _ => False end.

Definition dm_watermark_ok (k : string * string * string) (old new : option string) : Prop :=
  old = None /\ is_Some new.

Record dm_scope (u : string) (db db' : MsgDb) : Prop := {
  ds_users : changed (profile_ok u) (users db) (users db');
  ds_preferences : changed (own_row u) (preferences db) (preferences db');
  ds_blocks : forall a b, a <> u -> (a, b) ∈ blocks db' <-> (a, b) ∈ blocks db;
  ds_dms : changed (dm_ok u db) (dm_channels db) (dm_channels db');
  ds_members : changed (dm_member_ok u db) (dm_members db) (dm_members db');
  ds_envelopes : changed (dm_envelope_ok u db) (envelopes db) (envelopes db');
  ds_watermarks : changed dm_watermark_ok (watermarks db) (watermarks db');
  ds_rest : devices db' = devices db /\ groups db' = groups db /\ group_members db' = group_members db /\
    group_channels db' = group_channels db /\ invites db' = invites db /\ join_requests db' = join_requests db /\
    reactions db' = reactions db /\ attachments db' = attachments db /\ accounts db' = accounts db
}.

Lemma dm_scope_refl u db : dm_scope u db db.
Proof. split; auto with pollis. split_and!; done. Qed.

#[local] Hint Resolve dm_scope_refl : pollis.

Context (env : SqlEnv).

(** One more statement, table by table. *)
Lemma ds_set_users u db db' f : dm_scope u db db' ->
  changed (profile_ok u) (users db) (f (users db')) -> dm_scope u db (set_users f db').
Proof. intros [] Hc. by split. Qed.

Lemma ds_set_preferences u db db' f : dm_scope u db db' ->
  changed (own_row u) (preferences db) (f (preferences db')) -> dm_scope u db (set_preferences f db').
Proof. intros [] Hc. by split. Qed.

Lemma ds_set_blocks u db db' f : dm_scope u db db' ->
  (forall a b, a <> u -> (a, b) ∈ f (blocks db') <-> (a, b) ∈ blocks db) -> dm_scope u db (set_blocks f db').
Proof. intros [] Hc. by split. Qed.

Lemma ds_set_dm_channels u db db' f : dm_scope u db db' ->
  changed (dm_ok u db) (dm_channels db) (f (dm_channels db')) -> dm_scope u db (set_dm_channels f db').
Proof. intros [] Hc. by split. Qed.

Lemma ds_set_dm_members u db db' f : dm_scope u db db' ->
  changed (dm_member_ok u db) (dm_members db) (f (dm_members db')) -> dm_scope u db (set_dm_members f db').
Proof. intros [] Hc. by split. Qed.

Lemma ds_set_envelopes u db db' f : dm_scope u db db' ->
  changed (dm_envelope_ok u db) (envelopes db) (f (envelopes db')) -> dm_scope u db (set_envelopes f db').
Proof. intros [] Hc. by split. Qed.

(** A watermark row once there stays. *)
Lemma ds_seed u db db' convs v now : dm_scope u db db' -> dm_scope u db (seed_watermarks convs v now db').
Proof.
  intros Hs. assert (forall k, is_Some (watermarks db !! k) -> is_Some (watermarks db' !! k)) as Hk.
  { intros k [w Hw]. destruct (ds_watermarks _ _ _ Hs k) as [E|[E _]]; [rewrite E; by eexists|congruence]. }
  destruct Hs as []. split; try done. apply changed_seed; [|done|done]. intros c d. split; [done|by eexists].
Qed.

Lemma ds_update_profile u b db : wp (apply_update_profile env (Some u) b) db (fun _ db' => dm_scope u db db').
Proof.
  apply wp_as_actor; [auto with pollis|]. repeat wp_step; [auto with pollis|].
  destruct (users db !! u) as [r|] eqn:Er; [|simplify_eq; auto with pollis].
  match goal with H : (if ?c then _ else _) = Some _ |- _ => destruct c; [done|]; injection H as <- end.
  apply ds_set_users; [auto with pollis|]. apply changed_insert; [auto with pollis|]. rewrite Er.
  split; [done|]. by eexists _, _.
Qed.

Lemma ds_save_preferences u b db : wp (apply_save_preferences env (Some u) b) db (fun _ db' => dm_scope u db db').
Proof.
  apply wp_as_actor; [auto with pollis|]. repeat wp_step; [auto with pollis|].
  destruct (fk_holds _ _); [simplify_eq|done]. apply ds_set_preferences; [auto with pollis|].
  apply changed_insert; [auto with pollis|]. split; [done|by eexists].
Qed.

Lemma ds_block_user u b db : wp (apply_block_user env (Some u) b) db (fun _ db' => dm_scope u db db').
Proof.
  apply wp_as_actor; [auto with pollis|]. repeat wp_step; auto with pollis.
  destruct (fk_holds _ _); simplify_eq. apply ds_set_dm_members.
  - apply ds_set_blocks; [auto with pollis|]. intros a c Ha. set_solver.
  - apply changed_update_where; [auto with pollis|]. intros [c v] r Hr Hp. breflect. simpl in *. rewrite Hr. done.
Qed.

Lemma ds_unblock_user u b db : wp (apply_unblock_user env (Some u) b) db (fun _ db' => dm_scope u db db').
Proof.
  apply wp_as_actor; [auto with pollis|]. repeat wp_step; simplify_eq; [auto with pollis|].
  apply ds_set_blocks; [auto with pollis|]. intros a c Ha. set_solver.
Qed.

Lemma ds_accept_dm u b db : wp (apply_accept_dm env (Some u) b) db (fun _ db' => dm_scope u db db').
Proof.
  apply wp_as_actor; [auto with pollis|]. repeat wp_step; simplify_eq; [auto with pollis|].
  apply ds_set_dm_members; [auto with pollis|]. apply changed_update_where; [auto with pollis|].
  intros [c v] r Hr Hp. breflect. rewrite Hr. simplify_eq. done.
Qed.

Lemma insert_dm_member_Some c v row db db' : insert_dm_member env c v row db = Some db' ->
  db' = set_dm_members (insert_ignore (c, v) row) db.
Proof. unfold insert_dm_member. destruct (fk_holds _ _); congruence. Qed.

Lemma ds_add_dm_member u b db : wp (apply_add_dm_member env (Some u) b) db (fun _ db' => dm_scope u db db').
Proof.
  apply wp_as_actor; [auto with pollis|]. apply wp_guard. unfold is_dm_member. wp_step; [auto with pollis|].
  case_bool_decide as Hm; [|auto with pollis]. unfold seed_dm_watermarks. repeat wp_step; auto with pollis.
  simplify_eq. match goal with H : insert_dm_member _ _ _ _ _ = Some _ |- _ => apply insert_dm_member_Some in H as -> end.
  apply ds_seed, ds_set_dm_members; [auto with pollis|]. apply changed_insert_ignore; [auto with pollis|]. intros E.
  rewrite E. split; [done|]. by right.
Qed.

Lemma ds_remove_dm_member u b db : wp (apply_remove_dm_member env (Some u) b) db (fun _ db' => dm_scope u db db').
Proof.
  apply wp_as_actor; [auto with pollis|].
  assert (u = rd_user_id b \/ (exists d, dm_channels db !! rd_dm_channel_id b = Some d /\ dm_created_by d = u) ->
    wp (let* _ := write env (fun db => Some (set_dm_members (delete (rd_dm_channel_id b, rd_user_id b)) db)) in ret Applied)
      db (fun _ db' => dm_scope u db db')) as Hk.
  { intros Hu. repeat wp_step; simplify_eq; [auto with pollis|]. apply ds_set_dm_members; [auto with pollis|].
    apply changed_delete; [auto with pollis|]. intros r _. simpl. naive_solver. }
  case_bool_decide as E; [unfold guard; simpl; auto|]. apply wp_guard. unfold is_dm_creator. wp_step; [auto with pollis|].
  destruct (dm_channels db !! rd_dm_channel_id b) as [d|] eqn:Ed; [|auto with pollis].
  case_bool_decide as Ec; [|auto with pollis]. apply Hk. right. eauto.
Qed.

Lemma dm_member_count_zero c db v : dm_member_count c db = 0 -> dm_members db !! (c, v) = None.
Proof.
  unfold dm_member_count. intros Hz%length_zero_iff_nil. destruct (dm_members db !! (c, v)) as [r|] eqn:E; [|done].
  assert (In (c, v) (List.filter (fun k : string * string => bool_decide (k.1 = c)) (map fst (map_to_list (dm_members db))))) as Hin.
  { apply filter_In. split; [|by apply bool_decide_eq_true_2]. apply in_map_iff. exists ((c, v), r). split; [done|].
    by apply list_elem_of_In, elem_of_map_to_list. }
  by rewrite Hz in Hin.
Qed.

Lemma ds_leave_dm u b db : wp (apply_leave_dm env (Some u) b) db (fun _ db' => dm_scope u db db').
Proof.
  apply wp_as_actor; [auto with pollis|]. wp_step; [auto with pollis|].
  assert (dm_scope u db (set_dm_members (delete (ld_dm_channel_id b, u)) db)) as Hbase.
  { apply ds_set_dm_members; [auto with pollis|]. apply changed_delete; [auto with pollis|]. intros r _. by left. }
  repeat wp_step; try done; simplify_eq; [|done].
  match goal with H : (dm_member_count _ _ =? 0) = true |- _ => apply Nat.eqb_eq in H as Hz end.
  assert (no_other_member u db (ld_dm_channel_id b)) as Hno.
  { intros v [r Hv]. destruct (decide (v = u)) as [|Hne]; [done|]. exfalso.
    pose proof (dm_member_count_zero _ _ v Hz) as E. simpl in E.
    rewrite lookup_delete_ne in E by (intros F; by injection F). congruence. }
  assert (dm_scope u db (set_dm_channels (delete (ld_dm_channel_id b)) (set_envelopes
      (delete_where (fun _ e => bool_decide (env_conversation_id e = ld_dm_channel_id b)))
      (set_dm_members (delete (ld_dm_channel_id b, u)) db)))) as Hdel.
  { apply ds_set_dm_channels; [apply ds_set_envelopes; [exact Hbase|]|].
    - apply changed_delete_where; [auto with pollis|]. intros e r Hr Hp. breflect. simpl in Hr. right. rewrite Hr.
      simpl. by rewrite Hp.
    - apply changed_delete; [auto with pollis|]. intros r _. done. }
  unfold delete_dm_row. destruct (fk env); [|done]. apply ds_set_dm_members; [done|].
  apply changed_delete_where; [apply Hbase|]. intros [c v] r Hr Hp. breflect. simpl in *. subst c.
  pose proof (dm_member_count_zero _ _ v Hz) as E. simpl in E. congruence.
Qed.

(** *** Creating a DM *)

Lemma elem_of_dm_others creator l v : v ∈ dm_others creator l <-> v ∈ l /\ v <> creator.
Proof.
  unfold dm_others. cut (forall acc, v ∈ fold_left (fun others m =>
    if negb (bool_decide (m = creator)) && negb (bool_decide (m ∈ others)) then others ++ [m] else others) l acc <->
    v ∈ acc \/ v ∈ l /\ v <> creator); [intros ->; set_solver|].
  induction l as [|m l IH]; intros acc; simpl; [set_solver|]. rewrite IH.
  destruct (negb _ && negb _) eqn:E; breflect.
  - set_solver.
  - apply andb_false_iff in E as [E|E]; breflect; set_solver.
Qed.

Lemma wp_any_blocked u l db (Q : Result bool SqlError -> MsgDb -> Prop) :
  (forall e, Q (Err e) db) -> Q (Ok true) db ->
  ((forall v, v ∈ l -> blocked_either_way db u v = false) -> Q (Ok false) db) -> wp (any_blocked env u l) db Q.
Proof.
  intros He Ht. induction l as [|o l IH]; intros Hf; simpl; [apply wp_ret, Hf; set_solver|].
  unfold is_blocked_either_way at 1. repeat wp_step; [done|done|]. apply IH. intros Hl. apply Hf.
  intros v [->|Hv]%elem_of_cons; auto.
Qed.

(** The tables after a creation that went through. *)
Definition created_dm (u : string) (b : CreateDmBody) (db : MsgDb) : MsgDb :=
  let others := dm_others u (cd_member_ids b) in
  let c := cd_id b in
  let db := set_dm_channels <[c := mkDm u (cd_created_at b)]> db in
  let db := set_dm_members <[(c, u) := mkDmMember u (cd_created_at b) (Some (cd_created_at b))]> db in
  let db := fold_left (fun d o => set_dm_members (insert_ignore (c, o) (mkDmMember u (cd_created_at b) None)) d) others db in
  fold_left (fun d m => seed_watermarks [c] m (datetime_now env) d) (u :: others) db.

Lemma wp_create_dm u b db (Q : Result WriteOutcome SqlError -> MsgDb -> Prop) :
  (forall e, Q (Err e) db) -> Q (Ok Forbidden) db ->
  ((forall v, v ∈ dm_others u (cd_member_ids b) -> blocked_either_way db u v = false) ->
   dm_channels db !! cd_id b = None -> dm_members db !! (cd_id b, u) = None -> Q (Ok Applied) (created_dm u b db)) ->
  wp (apply_create_dm env (Some u) b) db Q.
Proof.
  intros He Hf HQ. apply wp_as_actor; [done|]. cbv zeta. apply wp_guard, wp_bind, wp_any_blocked; [done|by apply wp_ret|].
  intros Hnb. apply wp_ret. cbn [negb]. wp_step; [done|]. wp_step; wp_step; [done|]. wp_step; wp_step; [done|].
  match goal with H : _ <$> insert_new _ _ _ = Some _ |- _ => apply fmap_Some in H as (m & [Hc ->]%insert_new_Some & ->) end.
  match goal with H : (if _ then _ else _) = Some _ |- _ => destruct (fk_holds _ _) in H; [|done];
    apply fmap_Some in H as (m & [Hm ->]%insert_new_Some & ->) end.
  wp_step. eapply (wp_for_each_write env); [intros a d d' E; exact (insert_dm_member_Some _ _ _ _ _ E)|done|].
  wp_step. unfold seed_dm_watermarks.
  apply (wp_for_each_write env _ (fun m d => seed_watermarks [cd_id b] m (datetime_now env) d)); [congruence|done|].
  apply wp_ret. by apply HQ.
Qed.

(** Seeding leaves everything but the watermarks. *)
Lemma dm_members_seeds c now l db : dm_members (fold_left (fun d m => seed_watermarks [c] m now d) l db) = dm_members db.
Proof. revert db. induction l as [|m l IH]; intros db; simpl; [done|]. by rewrite IH. Qed.

Lemma lookup_added c l row db k :
  dm_members (fold_left (fun d o => set_dm_members (insert_ignore (c, o) row) d) l db) !! k =
    if bool_decide (k.1 = c /\ k.2 ∈ l) then Some (default row (dm_members db !! k)) else dm_members db !! k.
Proof.
  destruct k as [c' v]. simpl. revert db. induction l as [|o l IH]; intros db; cbn [fold_left].
  { rewrite bool_decide_eq_false_2; [done|set_solver]. }
  rewrite IH. simpl. rewrite lookup_insert_ignore. repeat case_bool_decide; simplify_eq; try done; try set_solver.
Qed.

Lemma ds_seeds u db db' c now l : dm_scope u db db' ->
  dm_scope u db (fold_left (fun d m => seed_watermarks [c] m now d) l db').
Proof. revert db'. induction l as [|m l IH]; intros db' Hs; simpl; [done|]. by apply IH, ds_seed. Qed.

Lemma fold_added_rest {X} (P : MsgDb -> X) c l row db : (forall f d, P (set_dm_members f d) = P d) ->
  P (fold_left (fun d o => set_dm_members (insert_ignore (c, o) row) d) l db) = P db.
Proof. intros HP. revert db. induction l as [|o l IH]; intros db; simpl; [done|]. by rewrite IH, HP. Qed.

Lemma ds_create_dm u b db : wp (apply_create_dm env (Some u) b) db (fun _ db' => dm_scope u db db').
Proof.
  apply wp_create_dm; auto with pollis. intros Hnb Hc Hm. unfold created_dm. cbv zeta. apply ds_seeds.
  split; rewrite ?fold_added_rest by done; simpl; auto with pollis; try (split_and!; done).
  - apply changed_insert; [auto with pollis|]. by rewrite Hc.
  - intros k. rewrite lookup_added. simpl. destruct k as [c v]. simpl. case_bool_decide as Hk.
    + destruct Hk as [-> Hv]. destruct (decide (v = u)) as [->|Hne].
      { apply elem_of_dm_others in Hv. naive_solver. }
      rewrite lookup_insert_ne by congruence. destruct (dm_members db !! (cd_id b, v)) eqn:E; simpl; [by left|right].
      split; [done|]. left. split; [done|]. right. auto.
    + destruct (decide ((cd_id b, u) = (c, v))) as [E|E]; [|left; by rewrite lookup_insert_ne].
      simplify_eq. rewrite Hm, lookup_insert_eq. right. split; [done|]. left. auto.
Qed.

Lemma dm_op_scope (u : string) (op : DmOp) (db : MsgDb) :
  wp (apply_dm_op env (Some u) op) db (fun _ db' => dm_scope u db db').
Proof.
  destruct op; simpl.
  - apply ds_update_profile.
  - apply ds_save_preferences.
  - apply ds_block_user.
  - apply ds_unblock_user.
  - apply ds_create_dm.
  - apply ds_accept_dm.
  - apply ds_add_dm_member.
  - apply ds_remove_dm_member.
  - apply ds_leave_dm.
Qed.

(** Profile, block and DM writes are authorised.  Whatever a signed request to these
    routes does, with any statement failing: only the signer's own profile, preferences
    and block list change; a DM appears only as created by the signer, with itself and
    with users no block separates it from; a member joins an existing DM only through a
    member, and as pending; only the signer's own membership is accepted or reset;
    others are removed only from a DM the signer created; a DM, and the envelopes stored
    under an id, vanish only when no one else is a member of it; a read watermark is never
    moved; and no other table is written. *)
Theorem dm_writes_authorised (u : string) (op : DmOp) (db : MsgDb) :
  wp (apply_dm_op env (Some u) op) db (fun _ db' => dm_scope u db db').
Proof. apply dm_op_scope. Qed.

(** A created DM is exactly the one asked for.  When the creation goes through, the
    creator's row is accepted at once, every other named user has a pending row added by
    the creator (one row, however often named), and no other membership changes. *)
Theorem create_dm_exact (u : string) (b : CreateDmBody) (db : MsgDb) :
  wp (apply_create_dm env (Some u) b) db (fun r db' => r = Ok Applied ->
    dm_channels db' = <[cd_id b := mkDm u (cd_created_at b)]> (dm_channels db) /\
    forall c v, dm_members db' !! (c, v) =
      if bool_decide (c = cd_id b) then
        if bool_decide (v = u) then Some (mkDmMember u (cd_created_at b) (Some (cd_created_at b)))
        else if bool_decide (v ∈ cd_member_ids b)
             then Some (default (mkDmMember u (cd_created_at b) None) (dm_members db !! (c, v)))
             else dm_members db !! (c, v)
      else dm_members db !! (c, v)).
Proof.
  apply wp_create_dm; [done|done|]. intros _ Hc Hm _. split.
  - unfold created_dm. cbv zeta. assert (forall l d, dm_channels (fold_left (fun d m => seed_watermarks [cd_id b] m
      (datetime_now env) d) l d) = dm_channels d) as Hs by (induction l as [|m l IH]; intros d; simpl; [done|by rewrite IH]).
    rewrite Hs, fold_added_rest by done. done.
  - intros c v. unfold created_dm. cbv zeta. rewrite dm_members_seeds, lookup_added. simpl.
    repeat case_bool_decide; simplify_eq; rewrite ?lookup_insert_eq, ?lookup_insert_ne by congruence; try done.
    all: match goal with H : context [dm_others] |- _ => rewrite elem_of_dm_others in H; naive_solver end.
Qed.
End Scope.

(** ** What the routes let through *)

Section Gaps.
Import DmRoutes.

(** With no member left to count, the count is zero. *)
Lemma dm_member_count_none c db : (forall v, dm_members db !! (c, v) = None) -> dm_member_count c db = 0.
Proof.
  intros Hn. unfold dm_member_count. destruct (List.filter _ _) as [|[c' v] l] eqn:E; [done|].
  assert (In (c', v) ((c', v) :: l)) as Hin by (by left). rewrite <- E in Hin. apply filter_In in Hin as [Hin Hb].
  breflect. simpl in Hb. subst c'. apply in_map_iff in Hin as ([k r] & Hk & Hin). simpl in Hk. subst k.
  apply list_elem_of_In, elem_of_map_to_list in Hin. rewrite Hn in Hin. done.
Qed.

(** Leaving a DM checks no membership.  For any id under which no DM member is recorded,
    a group channel's for one, a leave by any signed user deletes every envelope stored
    under that id. *)
Theorem leave_dm_unchecked (env : SqlEnv) (db : MsgDb) (mallory c : string) :
  reliable env -> (forall v, dm_members db !! (c, v) = None) ->
  exists db', run_sql (apply_leave_dm env (Some mallory) (mkLeaveDm c mallory)) db = (db', Ok Applied) /\
    forall e, envelopes db' !! e =
      match envelopes db !! e with
      | Some r => if bool_decide (env_conversation_id r = c) then None else Some r
      | None => None
      end.
Proof.
  intros Hr Hn. eexists. split.
  - unfold run_sql, apply_leave_dm, as_actor, resolve_actor. simpl. rewrite bool_decide_eq_true_2 by done. simpl.
    rewrite run_transaction by done. unfold bind. rewrite run_write by done. simpl. rewrite run_query by done.
    rewrite dm_member_count_none.
    + simpl. rewrite !run_write by done. simpl. reflexivity.
    + intros v. simpl. apply lookup_delete_None. by right.
  - intros e. unfold delete_dm_row. destruct (fk env); simpl; by rewrite lookup_delete_where.
Qed.

(** The hypotheses hold for an outsider and a group channel with an undelivered message. *)
Definition leave_env : SqlEnv := mkSqlEnv (fun _ => false) true "2026-01-01 00:00:00" "2025-12-02 00:00:00"
  (Some 1767225600%N) "01J0" 0.

Definition leave_db : MsgDb :=
  mkMsgDb ∅ ∅ [] {["g" := mkGroup "g" None None "alice" "2026-01-01"]} {[("g", "alice") := "admin"]}
    {["chan" := mkChannel "g" "General" None "text"]} ∅ ∅ ∅ ∅ ∅
    {["m1" := mkEnvelope "chan" "sealed" "mls:00" None "2026-01-01T00:00:00+00:00" "message" None 1%Z]} ∅ ∅ ∅ no_accounts.

Lemma leave_dm_unchecked_witness :
  exists db', run_sql (apply_leave_dm leave_env (Some "mallory") (mkLeaveDm "chan" "mallory")) leave_db = (db', Ok Applied) /\
    forall e, envelopes db' !! e =
      match envelopes leave_db !! e with
      | Some r => if bool_decide (env_conversation_id r = "chan") then None else Some r
      | None => None
      end.
Proof.
  refine (leave_dm_unchecked leave_env leave_db "mallory" "chan" _ _).
  - intros n. reflexivity.
  - intros v. reflexivity.
Defined.

(** A member may add someone who blocked it to a DM, though it could not create one with
    them: the add route asks no block. *)
Definition blocked_db : MsgDb :=
  mkMsgDb {["mallory" := mkProfile "mallory" None None None "m@x.io" None 1; "bob" := mkProfile "bob" None None None "b@x.io" None 1]} ∅ [] ∅ ∅ ∅ ∅ ∅
    {["dm" := mkDm "mallory" "2026-01-01"]} {[("dm", "mallory") := mkDmMember "mallory" "2026-01-01" (Some "2026-01-01")]}
    {[("bob", "mallory")]} ∅ ∅ ∅ ∅ no_accounts.

Example add_dm_ignores_blocks :
  (run_sql (apply_create_dm leave_env (Some "mallory") (mkCreateDm "dm2" "mallory" ["bob"] "2026-01-02")) blocked_db).2 =
    Ok Forbidden /\
  dm_members (run_sql (apply_add_dm_member leave_env (Some "mallory")
    (mkAddDmMember "dm" "bob" "mallory" "2026-01-02")) blocked_db).1 !! ("dm", "bob") =
    Some (mkDmMember "mallory" "2026-01-02" None).
Proof. split; vm_compute; reflexivity. Qed.
End Gaps.
