(* ===== verification/Civil.v ===== *)
(** * pollis-delivery: the service's own timestamps

    [chrono_like_now] of [messages.rs] formats the clock as an ISO-8601 UTC string without a
    date library: Hinnant's days-to-civil algorithm in [i64] arithmetic, then
    [format!] with zero padding.  Two things make it right: the date it computes is the
    Gregorian calendar's (each day is the successor of the day before, by the leap-year
    rule), and the strings compare as the times do, which is all the watermark and the
    envelope collection rely on. *)

From stdpp Require Import base list strings pretty.
From Stdlib Require Import NArith ZArith Lia ZifyNat ZifyN.
From Stdlib Require Import Strings.Byte.
From S2P Require Import Prelude Text.

#[local] Open Scope Z_scope.

(** ** The code *)

Definition yoe_of (doe : Z) : Z :=
  (doe - Z.quot doe 1460 + Z.quot doe 36524 - Z.quot doe 146096) ÷ 365.

(** Days since the epoch to (year, month, day). *)
Definition civil_from_days (days : Z) : Z * Z * Z :=
  let z := days + 719468 in
  let era := z / 146097 in
  let doe := z - era * 146097 in
  let yoe := yoe_of doe in
  let y := yoe + era * 400 in
  let doy := doe - (365 * yoe + yoe ÷ 4 - yoe ÷ 100) in
  let mp := (5 * doy + 2) ÷ 153 in
  let d := doy - (153 * mp + 2) ÷ 5 + 1 in
  let m := if mp <? 10 then mp + 3 else mp - 9 in
  let y := if m <=? 2 then y + 1 else y in
  (y, m, d).

(** [format!("{:0w}", z)]: the sign counts towards the width. *)
Definition pad (w : nat) (z : Z) : string :=
  let digits := as_bytes (pretty (Z.abs_N z)) in
  if z <? 0 then of_bytes (x2d :: repeat x30 (w - 1 - length digits) ++ digits)
  else of_bytes (repeat x30 (w - length digits) ++ digits).

(** The clock is the seconds since the epoch, [None] when it is set before it. *)
Definition chrono_like_now (clock : option N) : string :=
  let secs := wrap_i64 (Z.of_N (default 0%N clock)) in
  let days := secs / 86400 in
  let rem := secs mod 86400 in
  let '(hh, mm, ss) := (rem ÷ 3600, Z.rem rem 3600 ÷ 60, Z.rem rem 60) in
  let '(y, m, d) := civil_from_days days in
  (pad 4 y +:+ "-" +:+ pad 2 m +:+ "-" +:+ pad 2 d +:+ "T" +:+ pad 2 hh +:+ ":" +:+ pad 2 mm +:+ ":" +:+ pad 2 ss +:+
   "+00:00").

Definition now_rfc3339 (clock : option N) : string := chrono_like_now clock.

Example some_dates : map civil_from_days [0; 58; 59; 789; 790; 11016; 20454] =
  [(1970, 1, 1); (1970, 2, 28); (1970, 3, 1); (1972, 2, 29); (1972, 3, 1); (2000, 2, 29); (2026, 1, 1)].
Proof. reflexivity. Qed.

Example a_timestamp : chrono_like_now (Some 1767225599%N) = "2025-12-31T23:59:59+00:00".
Proof. vm_compute. reflexivity. Qed.

(** ** The calendar *)

Definition leap (y : Z) : bool := ((y mod 4 =? 0) && negb (y mod 100 =? 0)) || (y mod 400 =? 0).

Definition month_len (is_leap : bool) (m : Z) : Z :=
  if m =? 2 then (if is_leap then 29 else 28)
  else if (m =? 4) || (m =? 6) || (m =? 9) || (m =? 11) then 30 else 31.

Definition next_day (date : Z * Z * Z) : Z * Z * Z :=
  let '(y, m, d) := date in
  if d <? month_len (leap y) m then (y, m, d + 1)
  else if m <? 12 then (y, m + 1, 1) else (y + 1, 1, 1).

(** *** Inside an era of 400 years *)

(** First day of a March-based year, and the day after its last. *)
Definition year_start (n : Z) : Z := 365 * n + n / 4 - n / 100.

Definition year_end (n : Z) : Z := if n =? 399 then 146097 else year_start (n + 1).

Lemma forallb_below (P : Z -> bool) (n : nat) (k : Z) :
  forallb (fun i => P (Z.of_nat i)) (seq 0 n) = true -> 0 <= k < Z.of_nat n -> P k = true.
Proof.
  intros Hf Hk. rewrite forallb_forall in Hf. specialize (Hf (Z.to_nat k)). rewrite Z2Nat.id in Hf by lia.
  apply Hf. apply in_seq. lia.
Qed.

Lemma yoe_mono a b : 0 <= a <= b -> yoe_of a <= yoe_of b.
Proof.
  intros H. unfold yoe_of. rewrite !(Z.quot_div_nonneg a), !(Z.quot_div_nonneg b) by lia.
  assert (forall x, 0 <= x -> x - x / 1460 + x / 36524 - x / 146096 <= x + 1 - (x + 1) / 1460 + (x + 1) / 36524 - (x + 1) / 146096) as Hs.
  { intros x Hx. Z.to_euclidean_division_equations. lia. }
  assert (forall x, 0 <= x -> 0 <= x - x / 1460 + x / 36524 - x / 146096) as Hp.
  { intros x Hx. Z.to_euclidean_division_equations. lia. }
  assert (a - a / 1460 + a / 36524 - a / 146096 <= b - b / 1460 + b / 36524 - b / 146096) as Hle.
  { destruct H as [Ha Hb]. revert Hb. revert b. apply (Zlt_lower_bound_ind _ a). intros b IH Hb.
    destruct (decide (a = b)) as [->|Hne]; [lia|]. specialize (IH (b - 1) ltac:(lia)).
    specialize (Hs (b - 1) ltac:(lia)). replace (b - 1 + 1) with b in Hs by lia. lia. }
  specialize (Hp a ltac:(lia)) as Hpa. specialize (Hp b ltac:(lia)) as Hpb. rewrite !Z.quot_div_nonneg by lia.
  apply Z.div_le_mono; lia.
Qed.

(** Each year's first and last day are in that year, and its length is the leap-year rule's. *)
Lemma year_ends n : 0 <= n < 400 ->
  yoe_of (year_start n) = n /\ yoe_of (year_end n - 1) = n /\
  year_end n = year_start n + (if leap (n + 1) then 366 else 365).
Proof.
  intros Hn. pose proof (forallb_below (fun n => (yoe_of (year_start n) =? n) && (yoe_of (year_end n - 1) =? n) &&
    (year_end n =? year_start n + (if leap (n + 1) then 366 else 365))) 400 n) as H.
  specialize (H ltac:(vm_compute; reflexivity) Hn). apply andb_true_iff in H as [H H3].
  apply andb_true_iff in H as [H1 H2]. lia.
Qed.

Lemma year_of_day doe : 0 <= doe < 146097 ->
  0 <= yoe_of doe < 400 /\ year_start (yoe_of doe) <= doe < year_end (yoe_of doe).
Proof.
  intros Hd. assert (0 <= yoe_of doe < 400) as Hr.
  { pose proof (yoe_mono 0 doe ltac:(lia)) as H0. pose proof (yoe_mono doe 146096 ltac:(lia)) as H1.
    change (yoe_of 0) with 0 in H0. change (yoe_of 146096) with 399 in H1. lia. }
  split; [done|]. set (k := yoe_of doe) in *. split.
  - destruct (Z.le_gt_cases (year_start k) doe) as [|Hlt]; [done|exfalso].
    destruct (decide (k = 0)) as [E|Hk]; [rewrite E in Hlt; change (year_start 0) with 0 in Hlt; lia|].
    destruct (year_ends (k - 1) ltac:(lia)) as (_ & He & _). unfold year_end in *.
    destruct (k - 1 =? 399) eqn:E; [lia|]. replace (k - 1 + 1) with k in He by lia.
    pose proof (yoe_mono doe (year_start k - 1) ltac:(lia)). lia.
  - destruct (Z.le_gt_cases (year_end k) doe) as [Hle|]; [exfalso|done].
    unfold year_end in *. destruct (k =? 399) eqn:E; [lia|].
    destruct (year_ends (k + 1) ltac:(lia)) as (Hs & _).
    assert (0 <= year_start (k + 1)) by (unfold year_start; Z.to_euclidean_division_equations; lia).
    pose proof (yoe_mono (year_start (k + 1)) doe ltac:(lia)). lia.
Qed.

(** *** Inside a year: the month and day of a day of the March-based year *)

Definition month_day (doy : Z) : Z * Z * Z :=
  let mp := (5 * doy + 2) ÷ 153 in
  let d := doy - (153 * mp + 2) ÷ 5 + 1 in
  let m := if mp <? 10 then mp + 3 else mp - 9 in
  (if m <=? 2 then 1 else 0, m, d).

(** [next_day] with the year as an offset and its leap flag given. *)
Definition next_in (is_leap : bool) (t : Z * Z * Z) : Z * Z * Z :=
  let '(off, m, d) := t in
  if d <? month_len is_leap m then (off, m, d + 1) else if m <? 12 then (off, m + 1, 1) else (off + 1, 1, 1).

Definition last_doy (is_leap : bool) : Z := if is_leap then 365 else 364.

Definition step_ok (is_leap : bool) (doy : Z) : bool :=
  let next := if doy <? last_doy is_leap then month_day (doy + 1) else (1, 3, 1) in
  bool_decide (next_in is_leap (month_day doy) = next) || (last_doy is_leap <? doy).

(** In January and February the date's year is the next one; elsewhere its leap flag does
    not matter. *)
Lemma month_day_step is_leap doy : 0 <= doy <= last_doy is_leap ->
  next_in is_leap (month_day doy) = (if doy <? last_doy is_leap then month_day (doy + 1) else (1, 3, 1)) /\
  ((month_day doy).1.1 = 1 \/ forall l, month_len l (month_day doy).1.2 = month_len is_leap (month_day doy).1.2).
Proof.
  intros Hd. assert (doy < 366) by (unfold last_doy in Hd; destruct is_leap; lia). split.
  - pose proof (forallb_below (step_ok is_leap) 366 doy) as H1.
    specialize (H1 ltac:(destruct is_leap; vm_compute; reflexivity) ltac:(lia)). unfold step_ok in H1.
    apply orb_true_iff in H1 as [H1|H1]; [by apply bool_decide_eq_true in H1|lia].
  - pose proof (forallb_below (fun n => ((month_day n).1.1 =? 1) || negb ((month_day n).1.2 =? 2)) 366 doy) as H2.
    specialize (H2 ltac:(vm_compute; reflexivity) ltac:(lia)). apply orb_true_iff in H2 as [H2|H2]; [left; lia|right].
    intros l. unfold month_len. apply negb_true_iff in H2. by rewrite H2.
Qed.

(** The date of the day [doe] of era [era], through its March-based year. *)
Lemma civil_at days era doe : days + 719468 = era * 146097 + doe -> 0 <= doe < 146097 ->
  civil_from_days days =
    let '(off, m, d) := month_day (doe - year_start (yoe_of doe)) in (yoe_of doe + era * 400 + off, m, d).
Proof.
  intros Hd Hr. unfold civil_from_days. cbv zeta.
  assert ((days + 719468) / 146097 = era) as -> by (symmetry; apply (Z.div_unique_pos _ _ _ doe); lia).
  replace (days + 719468 - era * 146097) with doe by lia.
  destruct (year_of_day _ Hr) as [Hy _]. unfold month_day, year_start. cbv zeta.
  rewrite (Z.quot_div_nonneg (yoe_of _) 4), (Z.quot_div_nonneg (yoe_of _) 100) by lia.
  destruct (_ <=? 2); [reflexivity|by rewrite Z.add_0_r].
Qed.

Lemma year_end_le n : 0 <= n < 400 -> year_end n <= 146097.
Proof.
  intros Hn. unfold year_end. destruct (n =? 399) eqn:E; [lia|]. unfold year_start.
  Z.to_euclidean_division_equations. lia.
Qed.

Lemma leap_era y era : leap (y + era * 400) = leap y.
Proof.
  unfold leap. replace ((y + era * 400) mod 4) with (y mod 4) by (Z.to_euclidean_division_equations; lia).
  replace ((y + era * 400) mod 100) with (y mod 100) by (Z.to_euclidean_division_equations; lia).
  replace ((y + era * 400) mod 400) with (y mod 400) by (Z.to_euclidean_division_equations; lia). done.
Qed.

Lemma next_in_year l Y off m d : l = leap (Y + off) \/ (forall l', month_len l' m = month_len l m) ->
  next_day (Y + off, m, d) = let '(off', m', d') := next_in l (off, m, d) in (Y + off', m', d').
Proof.
  intros Hl. unfold next_day, next_in.
  assert (month_len (leap (Y + off)) m = month_len l m) as -> by (destruct Hl as [->|Hl]; auto).
  destruct (_ <? _); [done|]. destruct (_ <? _); [done|]. by rewrite Z.add_assoc.
Qed.

(** The next day of the same year, and the first day of the next one. *)
Lemma same_year doe : 0 <= doe -> 0 <= yoe_of doe < 400 -> doe + 1 < year_end (yoe_of doe) -> yoe_of (doe + 1) = yoe_of doe.
Proof.
  intros H0 Hy Hlt. destruct (year_ends _ Hy) as (_ & Hb & _). pose proof (yoe_mono doe (doe + 1) ltac:(lia)).
  pose proof (yoe_mono (doe + 1) (year_end (yoe_of doe) - 1) ltac:(lia)). lia.
Qed.

Lemma civil_new_year days era k : 0 <= k < 400 -> days + 1 + 719468 = era * 146097 + year_end k ->
  civil_from_days (days + 1) = (k + era * 400 + 1, 3, 1).
Proof.
  intros Hk Hd. unfold year_end in Hd. destruct (Z.eqb_spec k 399) as [->|E9].
  - rewrite (civil_at _ (era + 1) 0) by lia. change (yoe_of 0) with 0.
    change (month_day (0 - year_start 0)) with (0, 3, 1). cbv beta iota. f_equal; f_equal. lia.
  - destruct (year_ends (k + 1) ltac:(lia)) as (Ha & _).
    rewrite (civil_at _ era (year_start (k + 1))) by (try lia; unfold year_start; Z.to_euclidean_division_equations; lia).
    rewrite Ha, Z.sub_diag. change (month_day 0) with (0, 3, 1). cbv beta iota. f_equal; f_equal. lia.
Qed.

(** The recurrence behind the claim. *)
Lemma civil_step days : civil_from_days (days + 1) = next_day (civil_from_days days).
Proof.
  set (era := (days + 719468) / 146097). set (doe := days + 719468 - era * 146097).
  assert (0 <= doe < 146097) as Hdoe by (subst doe era; Z.to_euclidean_division_equations; lia).
  destruct (year_of_day doe Hdoe) as [Hy Hs]. destruct (year_ends _ Hy) as (_ & _ & Hlen). pose proof (year_end_le _ Hy) as Hle.
  rewrite (civil_at days era doe) by (try done; subst doe; lia).
  set (yoe := yoe_of doe) in *. set (l := leap (yoe + 1)) in *.
  destruct (month_day_step l (doe - year_start yoe)) as [Hstep Hoff]; [unfold last_doy; destruct l; lia|].
  destruct (month_day (doe - year_start yoe)) as [[off m] d] eqn:Em.
  rewrite (next_in_year l).
  2: { destruct Hoff as [Hoff|Hoff]; [left|right; exact Hoff]. simpl in Hoff. subst off.
       replace (yoe + era * 400 + 1) with (yoe + 1 + era * 400) by lia. by rewrite leap_era. }
  rewrite Hstep. unfold last_doy. destruct (Z.ltb_spec (doe - year_start yoe) (if l then 365 else 364)) as [Hlt|Hge].
  - assert (doe + 1 < year_end yoe) as Hin by (destruct l; lia).
    rewrite (civil_at (days + 1) era (doe + 1)) by (subst doe; lia). rewrite (same_year doe) by (subst yoe; lia).
    fold yoe. by replace (doe + 1 - year_start yoe) with (doe - year_start yoe + 1) by lia.
  - apply civil_new_year; [done|]. destruct l; subst doe; lia.
Qed.

(** The service's dates are the Gregorian calendar's.  The epoch is 1 January 1970, and
    the date computed for a day is the successor, by month lengths and the leap-year rule,
    of the date computed for the day before; for every day, with no table. *)
Theorem civil_is_gregorian (days : Z) :
  civil_from_days 0 = (1970, 1, 1) /\ civil_from_days (days + 1) = next_day (civil_from_days days).
Proof. split; [reflexivity|]. apply civil_step. Qed.

(** ** Timestamps compare as times *)

Definition date_key (date : Z * Z * Z) : Z := let '(y, m, d) := date in (y * 100 + m) * 100 + d.

Lemma civil_range days : let '(y, m, d) := civil_from_days days in 1 <= m <= 12 /\ 1 <= d <= 31.
Proof.
  set (era := (days + 719468) / 146097). set (doe := days + 719468 - era * 146097).
  assert (0 <= doe < 146097) as Hdoe by (subst doe era; Z.to_euclidean_division_equations; lia).
  destruct (year_of_day doe Hdoe) as [Hy Hs]. destruct (year_ends _ Hy) as (_ & _ & Hlen).
  rewrite (civil_at days era doe) by (try done; subst doe; lia).
  pose proof (forallb_below (fun n => let '(_, m, d) := month_day n in (1 <=? m) && (m <=? 12) && (1 <=? d) && (d <=? 31))
    366 (doe - year_start (yoe_of doe)) ltac:(vm_compute; reflexivity)) as H.
  cbv beta in H. destruct (month_day _) as [[off m] d]. specialize (H ltac:(destruct (leap _) in Hlen; lia)).
  repeat (apply andb_true_iff in H as [H ?]). lia.
Qed.

Lemma date_key_step days : date_key (civil_from_days days) < date_key (civil_from_days (days + 1)).
Proof.
  rewrite civil_step. pose proof (civil_range days) as Hr.
  destruct (civil_from_days days) as [[y m] d]. unfold next_day, date_key.
  destruct (_ <? _); [lia|]. destruct (m <? 12) eqn:E; lia.
Qed.

Lemma date_key_mono a b : a < b -> date_key (civil_from_days a) < date_key (civil_from_days b).
Proof.
  intros H. replace b with (a + 1 + Z.of_nat (Z.to_nat (b - a - 1))) by lia.
  induction (Z.to_nat (b - a - 1)) as [|n IH]; [rewrite Z.add_0_r; apply date_key_step|].
  pose proof (date_key_step (a + 1 + Z.of_nat n)) as Hn. replace (a + 1 + Z.of_nat (S n)) with (a + 1 + Z.of_nat n + 1) by lia.
  lia.
Qed.

(** *** Fixed-width decimal text *)

Lemma ascii_byte c : Ascii.N_of_ascii c = N_of_byte (Ascii.byte_of_ascii c).
Proof. by destruct c as [[] [] [] [] [] [] [] []]. Qed.

Lemma compare_cons c d s t : String.compare (String c s) (String d t) =
  match (N_of_byte (Ascii.byte_of_ascii c) ?= N_of_byte (Ascii.byte_of_ascii d))%N with
  | Eq => String.compare s t | r => r end.
Proof. simpl. unfold Ascii.compare. by rewrite !ascii_byte. Qed.

Lemma parse_digits_acc acc b n : parse_digits acc b = Some n ->
  (acc * 10 ^ N.of_nat (length b) <= n < (acc + 1) * 10 ^ N.of_nat (length b))%N.
Proof.
  revert acc. induction b as [|x b IH]; intros acc; cbn [parse_digits length]; [intros [= ->]; lia|].
  destruct (in_range x 48 57) eqn:Ex; [|done]. intros H%IH. rewrite Nat2N.inj_succ, N.pow_succ_r'.
  unfold in_range in Ex. apply andb_true_iff in Ex as [_ Ex%N.leb_le].
  set (v := (N_of_byte x - 48)%N) in *. assert (v <= 9)%N as Hv by lia.
  set (p := (10 ^ N.of_nat (length b))%N) in *. split; [nia|]. apply N.lt_le_trans with ((10 * acc + v + 1) * p)%N; [lia|].
  replace ((acc + 1) * (10 * p))%N with ((10 * acc + 9 + 1) * p)%N by lia. apply N.mul_le_mono_r. lia.
Qed.

(** Digit strings of one length compare as their values; what follows decides a tie. *)
Lemma compare_digits s t x y acc n k :
  length (as_bytes s) = length (as_bytes t) -> parse_digits acc (as_bytes s) = Some n -> parse_digits acc (as_bytes t) = Some k ->
  String.compare (s +:+ x) (t +:+ y) = match (n ?= k)%N with Eq => String.compare x y | r => r end.
Proof.
  revert t acc. induction s as [|c s IH]; intros [|d t] acc; rewrite ?as_bytes_cons; try done.
  { intros _ [= ->] [= ->]. by rewrite N.compare_refl. }
  cbn [length parse_digits]. intros [= Hl].
  destruct (in_range (Ascii.byte_of_ascii c) _ _) eqn:Ec; [|done].
  destruct (in_range (Ascii.byte_of_ascii d) _ _) eqn:Ed; [|done]. intros Hs Ht.
  change (String c s +:+ x) with (String c (s +:+ x)). change (String d t +:+ y) with (String d (t +:+ y)).
  rewrite compare_cons. set (cv := N_of_byte (Ascii.byte_of_ascii c)) in *. set (dv := N_of_byte (Ascii.byte_of_ascii d)) in *.
  unfold in_range in Ec, Ed. apply andb_true_iff in Ec as [Ec%N.leb_le _], Ed as [Ed%N.leb_le _].
  fold cv in Ec. fold dv in Ed. assert (forall a b q, (a < b -> 48 <= a -> (10 * acc + (a - 48) + 1) * q <= (10 * acc + (b - 48)) * q)%N)
    as Hq by (intros; apply N.mul_le_mono_r; lia).
  destruct (N.compare_spec cv dv) as [E|E|E].
  - rewrite <- E in Ht. by apply (IH t (10 * acc + (cv - 48)))%N.
  - apply parse_digits_acc in Hs, Ht. rewrite <- Hl in Ht.
    specialize (Hq _ _ (10 ^ N.of_nat (length (as_bytes s)))%N E Ec). assert (n < k)%N as Hn by lia.
    by rewrite (proj2 (N.compare_lt_iff n k) Hn).
  - apply parse_digits_acc in Hs, Ht. rewrite <- Hl in Ht.
    specialize (Hq _ _ (10 ^ N.of_nat (length (as_bytes s)))%N E Ed). assert (k < n)%N as Hn by lia.
    by rewrite (proj2 (N.compare_gt_iff n k) Hn).
Qed.

(** A number below [10^w] is written on at most [w] digits. *)
Lemma length_pretty_go w x s : (x < 10 ^ N.of_nat w)%N ->
  (length (as_bytes (pretty_N_go x s)) <= w + length (as_bytes s))%nat.
Proof.
  revert x s. induction w as [|w IH]; intros x s Hx.
  - assert (x = 0)%N as -> by (simpl in Hx; lia). by rewrite pretty_N_go_0.
  - destruct (decide (x = 0)%N) as [->|Hne]; [rewrite pretty_N_go_0; lia|]. rewrite pretty_N_go_step by lia.
    etrans; [apply IH|rewrite as_bytes_cons; simpl; lia]. rewrite Nat2N.inj_succ, N.pow_succ_r' in Hx.
    apply N.Div0.div_lt_upper_bound. lia.
Qed.

Lemma parse_zeros k b acc : parse_digits 0 b = Some acc -> parse_digits 0 (repeat x30 k ++ b) = Some acc.
Proof. intros H. induction k as [|k IH]; [done|]. etrans; [|exact IH]. reflexivity. Qed.

(** Padded text is [w] digits long and reads back. *)
Lemma pad_spec w z : (0 < w)%nat -> 0 <= z < 10 ^ Z.of_nat w ->
  length (as_bytes (pad w z)) = w /\ parse_digits 0 (as_bytes (pad w z)) = Some (Z.to_N z).
Proof.
  intros Hw Hz. unfold pad. destruct (Z.ltb_spec z 0); [lia|]. rewrite as_bytes_of_bytes.
  replace (Z.abs_N z) with (Z.to_N z) by lia. set (n := Z.to_N z).
  destruct (parse_magnitude_pretty n) as (d & rest & Ed & _ & Hp). split.
  - assert (length (as_bytes (pretty n)) <= w)%nat as Hl.
    { destruct (decide (n = 0)%N) as [->|Hn]; [change (length (as_bytes (pretty 0%N))) with 1%nat; lia|].
      assert (pretty n = pretty_N_go n "") as -> by (unfold pretty, pretty_N; by rewrite decide_False).
      pose proof (length_pretty_go w n "") as H0. change (length (as_bytes "")) with 0%nat in H0.
      rewrite Nat.add_0_r in H0. apply H0. apply N2Z.inj_lt. rewrite N2Z.inj_pow, nat_N_Z. subst n.
      rewrite Z2N.id by lia. apply Hz. }
    rewrite length_app, repeat_length. lia.
  - apply parse_zeros. unfold parse_magnitude in Hp. rewrite Ed in *. done.
Qed.

Lemma compare_field w a b x y : (0 < w)%nat -> 0 <= a < 10 ^ Z.of_nat w -> 0 <= b < 10 ^ Z.of_nat w ->
  String.compare (pad w a +:+ x) (pad w b +:+ y) = match a ?= b with Eq => String.compare x y | r => r end.
Proof.
  intros Hw Ha Hb. destruct (pad_spec w a Hw Ha) as [La Pa]. destruct (pad_spec w b Hw Hb) as [Lb Pb].
  erewrite compare_digits; [|by rewrite La, Lb|exact Pa|exact Pb]. by rewrite Z2N.inj_compare by lia.
Qed.

Lemma compare_sep c x y : String.compare (String c "" +:+ x) (String c "" +:+ y) = String.compare x y.
Proof. change (String.compare (String c x) (String c y) = String.compare x y). by rewrite compare_cons, N.compare_refl. Qed.

(** *** The order *)

(** The first second of the year 10000. *)
Definition year_10000 : N := 253402300800.

Lemma civil_years days : 0 <= days < 2932897 -> 0 <= (civil_from_days days).1.1 < 10000.
Proof.
  intros Hd. pose proof (civil_range days) as Hr.
  assert (19700101 <= date_key (civil_from_days days)) as Hlo.
  { destruct (decide (days = 0)) as [->|]; [by vm_compute|]. pose proof (date_key_mono 0 days ltac:(lia)) as H.
    change (date_key (civil_from_days 0)) with 19700101 in H. lia. }
  pose proof (date_key_mono days 2932897 ltac:(lia)) as Hhi.
  change (date_key (civil_from_days 2932897)) with 100000101 in Hhi.
  destruct (civil_from_days days) as [[y m] d]. unfold date_key in *. simpl. lia.
Qed.

(** The clock's day and second of the day. *)
Lemma clock_split (a : N) : (a < year_10000)%N ->
  wrap_i64 (Z.of_N (default 0%N (Some a))) = Z.of_N a /\ 0 <= Z.of_N a / 86400 < 2932897 /\ 0 <= Z.of_N a mod 86400 < 86400.
Proof.
  unfold year_10000. intros Ha. split; [apply wrap_i64_id; unfold i64_range; simpl; lia|].
  Z.to_euclidean_division_equations. lia.
Qed.

(** Timestamps compare as times.  Up to the end of the year 9999, the strings of two
    clock readings are ordered, byte by byte, as the readings are. *)
Theorem timestamps_ordered (a b : N) : (a < b)%N -> (b < year_10000)%N ->
  String.compare (now_rfc3339 (Some a)) (now_rfc3339 (Some b)) = Lt.
Proof.
  intros Hab Hb. destruct (clock_split a ltac:(lia)) as (Ea & Da & Ra). destruct (clock_split b Hb) as (Eb & Db & Rb).
  unfold now_rfc3339, chrono_like_now. rewrite Ea, Eb. cbv zeta.
  assert (Z.of_N a / 86400 < Z.of_N b / 86400 \/
    Z.of_N a / 86400 = Z.of_N b / 86400 /\ Z.of_N a mod 86400 < Z.of_N b mod 86400) as Hlt
    by (Z.to_euclidean_division_equations; lia).
  set (da := Z.of_N a / 86400) in *. set (db := Z.of_N b / 86400) in *.
  set (ra := Z.of_N a mod 86400) in *. set (rb := Z.of_N b mod 86400) in *.
  pose proof (civil_years da Da) as Ya. pose proof (civil_years db Db) as Yb.
  pose proof (civil_range da) as Ma. pose proof (civil_range db) as Mb.
  assert (date_key (civil_from_days da) < date_key (civil_from_days db) \/ civil_from_days da = civil_from_days db /\ ra < rb) as Hk.
  { destruct Hlt as [Hlt|[Hlt Hr]]; [left; by apply date_key_mono|right; by rewrite Hlt]. }
  clearbody da db ra rb. destruct (civil_from_days da) as [[y1 m1] d1]. destruct (civil_from_days db) as [[y2 m2] d2].
  simpl in Ya, Yb, Hk. rewrite !Z.rem_mod_nonneg, !Z.quot_div_nonneg by (Z.to_euclidean_division_equations; lia).
  repeat (rewrite compare_field by (simpl; Z.to_euclidean_division_equations; lia); rewrite ?compare_sep).
  repeat match goal with |- context [?x ?= ?y] => destruct (Z.compare_spec x y) end; try done; exfalso.
  all: destruct Hk as [Hk|[Hk Hr]]; [lia|simplify_eq; Z.to_euclidean_division_equations; lia].
Qed.

Lemma timestamps_ordered_witness :
  String.compare (now_rfc3339 (Some 1767225599%N)) (now_rfc3339 (Some 1767225600%N)) = Lt.
Proof. refine (timestamps_ordered 1767225599 1767225600 _ _); vm_compute; reflexivity. Defined.
