(* ===== verification/Messages.v ===== *)
(** * pollis-delivery: messages, reactions, watermarks and envelope collection

    Models [messages.rs]: every body and every [apply_*] function, on the tables and the
    statement monad of [Tables], with the clock of [Civil].  TEXT columns compare byte by
    byte, as SQLite's default collation does.

    The theorems: what a signed request may change; that the collection deletes an
    envelope exactly when it expired or every device of every reader has fetched past it;
    that a watermark only moves forward; and that the delete route's membership check is
    about a conversation the request names, not the one the message is in. *)

From stdpp Require Import base list strings gmap.
From Stdlib Require Import NArith ZArith Lia ZifyNat ZifyN.
From S2P Require Import Prelude Delivery Text Tables Groups Civil.

Module MessageRoutes.

(** ** Bodies *)

Record SendMessageBody := mkSendMessage {
  sm_id : string;
  sm_conversation_id : string;
  sm_sender_id : option string;
  sm_ciphertext : string;
  sm_reply_to_id : option string;
  sm_sent_at : string;
  sm_sealed : Z
}.

Record EditMessageBody := mkEditMessage {
  em_envelope_id : string;
  em_conversation_id : string;
  em_target_message_id : string;
  em_sender_id : option string;
  em_ciphertext : string;
  em_sent_at : string
}.

Record DeleteMessageBody := mkDeleteMessage {
  dl_message_id : string;
  dl_conversation_id : string;
  dl_msg_sender_id : option string;
  dl_actor_id : option string
}.

Record ReactionBody := mkReaction { rb_message_id : string; rb_emoji : string; rb_user_id : option string }.

Record WatermarkBody := mkWatermark {
  wb_conversation_id : string;
  wb_user_id : option string;
  wb_device_id : string;
  wb_last_fetched_at : string
}.

Record EnvelopeGcBody := mkEnvelopeGc { gc_conversation_id : string; gc_is_dm : bool; gc_actor_id : option string }.

Record AttachmentRegisterBody := mkAttachmentRegister { ar_content_hash : string; ar_r2_key : string }.

Record AttachmentDeleteBody := mkAttachmentDelete { at_content_hash : string }.

Section Routes.
Context (env : SqlEnv).

(** ** Authorization helpers *)

Definition member_of_conversation (c u : string) : Sql bool := query env (fun db => is_member (main_of db) c u).

Definition conversation_for_message (m : string) : Sql (option string) :=
  query env (fun db => env_conversation_id <$> envelopes db !! m).

Definition channel_group_role (c u : string) : Sql (option string) :=
  query env (fun db => r ← group_channels db !! c; group_members db !! (chn_group_id r, u)).

(** ** Statements *)

(** The rows [user_device] joined to the conversation's members: its readers' devices. *)
Definition readers (is_dm : bool) (c : string) (db : MsgDb) : list string :=
  if is_dm then map (fun k : string * string => k.2)
    (List.filter (fun k : string * string => bool_decide (k.1 = c)) (map fst (map_to_list (dm_members db))))
  else match group_channels db !! c with
    | None => []
    | Some r => map (fun k : string * string => k.2)
        (List.filter (fun k : string * string => bool_decide (k.1 = chn_group_id r)) (map fst (map_to_list (group_members db))))
    end.

Definition reader_devices (is_dm : bool) (c : string) (db : MsgDb) : list (string * string) :=
  concat (map (fun u => map (fun d => (u, dev_id d)) (List.filter (fun d => bool_decide (dev_user d = u)) (devices db)))
    (readers is_dm c db)).

(** The LEFT JOIN's watermarks, then [CASE WHEN COUNT = COUNT THEN MIN]. *)
Definition gc_floor (is_dm : bool) (c : string) (db : MsgDb) : option string :=
  let rows := map (fun ud => watermarks db !! (c, ud.1, ud.2)) (reader_devices is_dm c db) in
  let fetched := omap (fun w => w) rows in
  if length rows =? length fetched then text_min fetched else None.

Definition gc_doomed (is_dm : bool) (c : string) (db : MsgDb) (e : EnvelopeRow) : bool :=
  bool_decide (env_conversation_id e = c) &&
  (text_lt (env_sent_at e) (datetime_ttl env) ||
   match gc_floor is_dm c db with Some floor => text_lt (env_sent_at e) floor | None => false end).

Definition insert_envelope (id : string) (row : EnvelopeRow) (db : MsgDb) : option MsgDb :=
  (fun m => set_envelopes (fun _ => m) db) <$> insert_new id row (envelopes db).

Definition delete_message_rows (id : string) : Sql unit :=
  let* _ := write env (fun db => Some (set_envelopes (delete id) db)) in
  write env (fun db => Some (set_envelopes (delete_where (fun _ e =>
    bool_decide (env_target_message_id e = Some id) && bool_decide (env_type e = "edit"))) db)).

(** ** The routes *)

Definition apply_send_message (authed : option string) (b : SendMessageBody) : Sql WriteOutcome :=
  let who :=
    if negb (sm_sealed b =? 0)%Z then
      match authed with
      | Some u => Some (u, default "" (sm_sender_id b))
      | None => let s := default "" (sm_sender_id b) in Some (s, s)
      end
    else match resolve_actor authed (sm_sender_id b) with Some s => Some (s, s) | None => None end in
  match who with
  | None => ret Forbidden
  | Some (member_check_user, stored_sender) =>
      guard authed (member_of_conversation (sm_conversation_id b) member_check_user) (
        let* _ := write env (insert_envelope (sm_id b) (mkEnvelope (sm_conversation_id b) stored_sender (sm_ciphertext b)
          (sm_reply_to_id b) (sm_sent_at b) "message" None (sm_sealed b))) in
        ret Applied)
  end.

Definition apply_edit_message (authed : option string) (b : EditMessageBody) : Sql WriteOutcome :=
  as_actor authed (em_sender_id b) (fun sender =>
    guard authed (member_of_conversation (em_conversation_id b) sender) (
      transaction env (
        let* _ := write env (fun db => Some (set_envelopes (delete_where (fun _ e =>
          bool_decide (env_conversation_id e = em_conversation_id b) &&
          bool_decide (env_target_message_id e = Some (em_target_message_id b)) &&
          bool_decide (env_type e = "edit"))) db)) in
        let* _ := write env (insert_envelope (em_envelope_id b) (mkEnvelope (em_conversation_id b) sender (em_ciphertext b)
          None (em_sent_at b) "edit" (Some (em_target_message_id b)) 0)) in
        ret Applied))).

Definition apply_delete_message (authed : option string) (b : DeleteMessageBody) : Sql WriteOutcome :=
  as_actor authed (dl_actor_id b) (fun actor =>
    if bool_decide (dl_msg_sender_id b = Some actor) then
      guard authed (member_of_conversation (dl_conversation_id b) actor) (
        transaction env (
          let* _ := delete_message_rows (dl_message_id b) in
          ret Applied))
    else
      guard authed (let* role := channel_group_role (dl_conversation_id b) actor in ret (bool_decide (role = Some "admin"))) (
        transaction env (
          let* _ := delete_message_rows (dl_message_id b) in
          let* _ := write env (insert_envelope (new_ulid env) (mkEnvelope (dl_conversation_id b) actor "" None
            (now_rfc3339 (sys_clock env)) "delete" (Some (dl_message_id b)) 0)) in
          ret Applied))).

(** Member of the message's conversation, when it still has an envelope. *)
Definition may_react (m u : string) : Sql bool :=
  let* conv := conversation_for_message m in
  match conv with Some c => member_of_conversation c u | None => ret true end.

Definition apply_add_reaction (authed : option string) (b : ReactionBody) : Sql WriteOutcome :=
  as_actor authed (rb_user_id b) (fun user =>
    guard authed (may_react (rb_message_id b) user) (
      let* _ := write env (fun db =>
        if fk_holds env (is_user_row db user)
        then Some (set_reactions (insert_ignore (rb_message_id b, user, rb_emoji b) (now_rfc3339 (sys_clock env))) db)
        else None) in
      ret Applied)).

Definition apply_remove_reaction (authed : option string) (b : ReactionBody) : Sql WriteOutcome :=
  as_actor authed (rb_user_id b) (fun user =>
    guard authed (may_react (rb_message_id b) user) (
      let* _ := write env (fun db => Some (set_reactions (delete (rb_message_id b, user, rb_emoji b)) db)) in
      ret Applied)).

Definition apply_advance_watermark (authed : option string) (b : WatermarkBody) : Sql WriteOutcome :=
  as_actor authed (wb_user_id b) (fun user =>
    let k := (wb_conversation_id b, user, wb_device_id b) in
    let* _ := write env (fun db => Some (set_watermarks (fun w =>
      <[k := match w !! k with Some old => text_max old (wb_last_fetched_at b) | None => wb_last_fetched_at b end]> w) db)) in
    ret Applied).

Definition apply_envelope_gc (authed : option string) (b : EnvelopeGcBody) : Sql WriteOutcome :=
  as_actor authed (gc_actor_id b) (fun actor =>
    guard authed (member_of_conversation (gc_conversation_id b) actor) (
      let* _ := write env (fun db => Some (set_envelopes
        (delete_where (fun _ e => gc_doomed (gc_is_dm b) (gc_conversation_id b) db e)) db)) in
      ret Applied)).

Definition apply_register_attachment (b : AttachmentRegisterBody) : Sql WriteOutcome :=
  let* _ := write env (fun db => Some (set_attachments (insert_ignore (ar_content_hash b) (ar_r2_key b)) db)) in
  ret Applied.

Definition apply_delete_attachment (b : AttachmentDeleteBody) : Sql WriteOutcome :=
  let* _ := write env (fun db => Some (set_attachments (delete (at_content_hash b)) db)) in
  ret Applied.

Inductive MessageOp : Type :=
| SendMessage (b : SendMessageBody) | EditMessage (b : EditMessageBody) | DeleteMessage (b : DeleteMessageBody)
| AddReaction (b : ReactionBody) | RemoveReaction (b : ReactionBody) | AdvanceWatermark (b : WatermarkBody)
| EnvelopeGc (b : EnvelopeGcBody) | RegisterAttachment (b : AttachmentRegisterBody) | DeleteAttachment (b : AttachmentDeleteBody).

Definition apply_message_op (authed : option string) (op : MessageOp) : Sql WriteOutcome :=
  match op with
  | SendMessage b => apply_send_message authed b
  | EditMessage b => apply_edit_message authed b
  | DeleteMessage b => apply_delete_message authed b
  | AddReaction b => apply_add_reaction authed b
  | RemoveReaction b => apply_remove_reaction authed b
  | AdvanceWatermark b => apply_advance_watermark authed b
  | EnvelopeGc b => apply_envelope_gc authed b
  | RegisterAttachment b => apply_register_attachment b
  | DeleteAttachment b => apply_delete_attachment b
  end.
End Routes.
End MessageRoutes.

(** ** What a signed request may change *)

Section Scope.
Import MessageRoutes.

Definition reader (db : MsgDb) (c u : string) : Prop := is_member (main_of db) c u = true.

(** [u] asked, through [op], to delete message [m], naming a conversation it is in. *)
Definition asked_delete (u : string) (db : MsgDb) (op : MessageOp) (m : string) : Prop :=
  exists b, op = DeleteMessage b /\ dl_message_id b = m /\ reader db (dl_conversation_id b) u.

Definition envelope_gone (u : string) (db : MsgDb) (op : MessageOp) (e : string) (r : EnvelopeRow) : Prop :=
  reader db (env_conversation_id r) u \/ asked_delete u db op e \/
  env_type r = "edit" /\ exists m, env_target_message_id r = Some m /\ asked_delete u db op m.

Definition envelope_new (u : string) (db : MsgDb) (r : EnvelopeRow) : Prop :=
  reader db (env_conversation_id r) u /\ (env_sealed r = 0%Z -> env_sender_id r = u) /\
  (env_type r = "delete" -> channel_admin u db (env_conversation_id r)).

Definition msg_envelope_ok (u : string) (db : MsgDb) (op : MessageOp) (e : string) (old new : option EnvelopeRow) : Prop :=
  (forall r, old = Some r -> envelope_gone u db op e r) /\ (forall r, new = Some r -> envelope_new u db r).

Definition reaction_ok (u : string) (db : MsgDb) (k : string * string * string) (old new : option string) : Prop :=
  k.1.2 = u /\ (forall r, envelopes db !! k.1.1 = Some r -> reader db (env_conversation_id r) u).

Definition own_watermark_ok (u : string) (k : string * string * string) (old new : option string) : Prop :=
  k.1.2 = u /\ exists w', new = Some w' /\ forall w, old = Some w -> text_lt w' w = false.

Record message_scope (u : string) (op : MessageOp) (db db' : MsgDb) : Prop := {
  ms_envelopes : changed (msg_envelope_ok u db op) (envelopes db) (envelopes db');
  ms_reactions : changed (reaction_ok u db) (reactions db) (reactions db');
  ms_watermarks : changed (own_watermark_ok u) (watermarks db) (watermarks db');
  ms_attachments : changed (fun _ old new => old = None \/ new = None) (attachments db) (attachments db');
  ms_rest : users db' = users db /\ preferences db' = preferences db /\ devices db' = devices db /\
    groups db' = groups db /\ group_members db' = group_members db /\ group_channels db' = group_channels db /\
    invites db' = invites db /\ join_requests db' = join_requests db /\ dm_channels db' = dm_channels db /\
    dm_members db' = dm_members db /\ blocks db' = blocks db /\ accounts db' = accounts db
}.

Lemma message_scope_refl u op db : message_scope u op db db.
Proof. split; auto with pollis. split_and!; done. Qed.

#[local] Hint Resolve message_scope_refl : pollis.

Context (env : SqlEnv).

Lemma ms_set_envelopes u op db db' f : message_scope u op db db' ->
  changed (msg_envelope_ok u db op) (envelopes db) (f (envelopes db')) -> message_scope u op db (set_envelopes f db').
Proof. intros [] Hc. by split. Qed.

(** A program behind the membership check. *)
Lemma wp_reader a c u k db (Q : Result WriteOutcome SqlError -> MsgDb -> Prop) :
  (forall e, Q (Err e) db) -> Q (Ok Forbidden) db -> (reader db c u -> wp k db Q) ->
  wp (guard (Some a) (member_of_conversation env c u) k) db Q.
Proof.
  intros He Hf Hk. apply wp_guard. unfold member_of_conversation. wp_step; [done|].
  destruct (is_member _ _ _) eqn:E; auto.
Qed.

Lemma wp_reacting a m u k db (Q : Result WriteOutcome SqlError -> MsgDb -> Prop) :
  (forall e, Q (Err e) db) -> Q (Ok Forbidden) db ->
  ((forall r, envelopes db !! m = Some r -> reader db (env_conversation_id r) u) -> wp k db Q) ->
  wp (guard (Some a) (may_react env m u) k) db Q.
Proof.
  intros He Hf Hk. apply wp_guard. unfold may_react, conversation_for_message, member_of_conversation.
  wp_step; wp_step; [done|]. destruct (envelopes db !! m) as [r|] eqn:Er; simpl.
  - wp_step; [done|]. destruct (is_member _ _ _) eqn:E; [apply Hk; intros; by simplify_eq|done].
  - apply wp_ret, Hk. done.
Qed.

Lemma insert_envelope_Some id r db db' : insert_envelope id r db = Some db' ->
  envelopes db !! id = None /\ db' = set_envelopes <[id := r]> db.
Proof. intros (m & [Hn ->]%insert_new_Some & ->)%fmap_Some. done. Qed.

(** Adding a row after only permitted deletions. *)
Lemma ms_insert u op db db1 db2 id r : message_scope u op db db1 -> insert_envelope id r db1 = Some db2 ->
  (forall r0, envelopes db !! id = Some r0 -> envelope_gone u db op id r0) -> envelope_new u db r -> message_scope u op db db2.
Proof.
  intros Hs [Hn ->]%insert_envelope_Some Hold Hnew. apply ms_set_envelopes; [done|].
  apply changed_insert; [apply Hs|]. split; [done|congruence].
Qed.

(** Where the row at a key went, when it is gone. *)
Lemma ms_gone u op db db1 id : message_scope u op db db1 -> envelopes db1 !! id = None ->
  forall r0, envelopes db !! id = Some r0 -> envelope_gone u db op id r0.
Proof.
  intros Hs Hn r0 Hr. destruct (ms_envelopes _ _ _ _ Hs id) as [E|[E _]]; [congruence|auto].
Qed.

Lemma ms_send u b db : wp (apply_send_message env (Some u) b) db (fun _ db' => message_scope u (SendMessage b) db db').
Proof.
  unfold apply_send_message. cbv zeta.
  assert (forall s, (sm_sealed b = 0%Z -> s = u) ->
    wp (guard (Some u) (member_of_conversation env (sm_conversation_id b) u) (
        let* _ := write env (insert_envelope (sm_id b) (mkEnvelope (sm_conversation_id b) s (sm_ciphertext b)
          (sm_reply_to_id b) (sm_sent_at b) "message" None (sm_sealed b))) in ret Applied)) db
       (fun _ db' => message_scope u (SendMessage b) db db')) as Hk.
  { intros s Hs. apply wp_reader; [auto with pollis..|]. intros Hr. repeat wp_step; [auto with pollis|].
    eapply ms_insert; [apply message_scope_refl|done| |done]. intros r0 Hr0.
    match goal with H : insert_envelope _ _ _ = Some _ |- _ => apply insert_envelope_Some in H as [? _] end. congruence. }
  destruct (Z.eqb_spec (sm_sealed b) 0) as [E|E]; cbn [negb]; [|by apply Hk].
  destruct (resolve_actor (Some u) (sm_sender_id b)) eqn:Ea; [|apply wp_ret; auto with pollis].
  apply resolve_actor_signed in Ea as ->. by apply Hk.
Qed.

Lemma ms_edit u b db : wp (apply_edit_message env (Some u) b) db (fun _ db' => message_scope u (EditMessage b) db db').
Proof.
  apply wp_as_actor; [auto with pollis|]. apply wp_reader; [auto with pollis..|]. intros Hr.
  wp_step; [auto with pollis|]. repeat wp_step; try done. simplify_eq.
  match goal with H : insert_envelope _ _ ?d = Some _ |- _ => assert (message_scope u (EditMessage b) db d) as Hd end.
  { apply ms_set_envelopes; [auto with pollis|]. apply changed_delete_where; [auto with pollis|].
    intros e r He Hp. breflect. right. split; [|done]. intros r0 Hr0. left. congruence. }
  eapply ms_insert; [exact Hd|done| |split_and!; simpl; try done].
  eapply ms_gone; [exact Hd|]. by eapply insert_envelope_Some.
Qed.

(** The two deletions of the delete route. *)
Lemma ms_delete_rows u b db db1 : reader db (dl_conversation_id b) u -> db1 =
  set_envelopes (delete_where (fun _ e => bool_decide (env_target_message_id e = Some (dl_message_id b)) &&
    bool_decide (env_type e = "edit"))) (set_envelopes (delete (dl_message_id b)) db) ->
  message_scope u (DeleteMessage b) db db1.
Proof.
  intros Hr ->. assert (asked_delete u db (DeleteMessage b) (dl_message_id b)) as Ha by (by exists b).
  apply ms_set_envelopes; [apply ms_set_envelopes; [auto with pollis|]|].
  - apply changed_delete; [auto with pollis|]. intros r _. split; [|done]. intros r0 _. right. by left.
  - apply changed_delete_where.
    + apply changed_delete; [auto with pollis|]. intros r _. split; [|done]. intros r0 _. right. by left.
    + intros e r He Hp. breflect. simpl in He. apply lookup_delete_Some in He as [_ He]. right. split; [|done].
      intros r0 Hr0. right. right. simplify_eq. eauto.
Qed.

Lemma admin_is_reader u db c : channel_admin u db c -> reader db c u.
Proof. intros (r & Hr & Ha). eapply is_member_channel; [done|]. by eexists. Qed.

Lemma ms_delete u b db : wp (apply_delete_message env (Some u) b) db (fun _ db' => message_scope u (DeleteMessage b) db db').
Proof.
  apply wp_as_actor; [auto with pollis|]. unfold delete_message_rows. case_bool_decide as Es.
  - apply wp_reader; [auto with pollis..|]. intros Hr. wp_step; [auto with pollis|]. repeat wp_step; try done.
    simplify_eq. by apply (ms_delete_rows u b db).
  - apply wp_guard. unfold channel_group_role. wp_step; wp_step; [auto with pollis|]. apply wp_ret.
    case_bool_decide as Er; [|auto with pollis].
    assert (channel_admin u db (dl_conversation_id b)) as Ha.
    { destruct (group_channels db !! dl_conversation_id b) as [r|] eqn:Ec; [|done]. by exists r. }
    pose proof (admin_is_reader _ _ _ Ha) as Hr. wp_step; [auto with pollis|]. repeat wp_step; try done. simplify_eq.
    match goal with H : insert_envelope _ _ ?d = Some _ |- _ => assert (message_scope u (DeleteMessage b) db d) as Hd
      by (by apply (ms_delete_rows u b db)) end.
    eapply ms_insert; [exact Hd|done| |split_and!; simpl; done]. eapply ms_gone; [exact Hd|]. by eapply insert_envelope_Some.
Qed.

Lemma ms_reaction u op b db f : (forall m k, f m !! k = m !! k \/ k = (rb_message_id b, u, rb_emoji b)) ->
  (forall r, envelopes db !! rb_message_id b = Some r -> reader db (env_conversation_id r) u) ->
  message_scope u op db (set_reactions f db).
Proof.
  intros Hf Hr. split; simpl; auto with pollis; [|split_and!; done]. intros k.
  destruct (Hf (reactions db) k) as [->| ->]; [by left|by right].
Qed.

Lemma ms_add_reaction u b db : wp (apply_add_reaction env (Some u) b) db (fun _ db' => message_scope u (AddReaction b) db db').
Proof.
  apply wp_as_actor; [auto with pollis|]. apply wp_reacting; [auto with pollis..|]. intros Hr.
  repeat wp_step; [auto with pollis|]. destruct (fk_holds _ _); simplify_eq. eapply ms_reaction; [|done].
  intros m k. rewrite lookup_insert_ignore. case_bool_decide; auto.
Qed.

Lemma ms_remove_reaction u b db :
  wp (apply_remove_reaction env (Some u) b) db (fun _ db' => message_scope u (RemoveReaction b) db db').
Proof.
  apply wp_as_actor; [auto with pollis|]. apply wp_reacting; [auto with pollis..|]. intros Hr.
  repeat wp_step; [auto with pollis|]. simplify_eq. eapply ms_reaction; [|done].
  intros m k. destruct (decide (k = (rb_message_id b, u, rb_emoji b))) as [->|Hne]; [by right|left].
  by rewrite lookup_delete_ne.
Qed.
Lemma ms_advance u b db :
  wp (apply_advance_watermark env (Some u) b) db (fun _ db' => message_scope u (AdvanceWatermark b) db db').
Proof.
  apply wp_as_actor; [auto with pollis|]. cbv zeta. repeat wp_step; [auto with pollis|]. simplify_eq.
  split; simpl; auto with pollis; [|split_and!; done]. apply changed_insert; [auto with pollis|]. split; [done|].
  eexists. split; [done|]. intros w ->. apply text_max_ge.
Qed.

Lemma ms_gc u b db : wp (apply_envelope_gc env (Some u) b) db (fun _ db' => message_scope u (EnvelopeGc b) db db').
Proof.
  apply wp_as_actor; [auto with pollis|]. apply wp_reader; [auto with pollis..|]. intros Hr.
  repeat wp_step; [auto with pollis|]. simplify_eq. apply ms_set_envelopes; [auto with pollis|].
  apply changed_delete_where; [auto with pollis|]. intros e r He Hp. unfold gc_doomed in Hp. breflect. right.
  split; [|done]. intros r0 Hr0. left. congruence.
Qed.

Lemma ms_attachment u op db f : changed (fun _ old new => old = None \/ new = None) (attachments db) (f (attachments db)) ->
  message_scope u op db (set_attachments f db).
Proof. intros Hf. split; simpl; auto with pollis. split_and!; done. Qed.

Lemma message_op_scope (u : string) (op : MessageOp) (db : MsgDb) :
  wp (apply_message_op env (Some u) op) db (fun _ db' => message_scope u op db db').
Proof.
  destruct op; simpl.
  - apply ms_send.
  - apply ms_edit.
  - apply ms_delete.
  - apply ms_add_reaction.
  - apply ms_remove_reaction.
  - apply ms_advance.
  - apply ms_gc.
  - unfold apply_register_attachment. repeat wp_step; simplify_eq; [auto with pollis|]. apply ms_attachment.
    apply changed_insert_ignore; [auto with pollis|auto].
  - unfold apply_delete_attachment. repeat wp_step; simplify_eq; [auto with pollis|]. apply ms_attachment.
    apply changed_delete; [auto with pollis|auto].
Qed.

(** Message writes are authorised.  Whatever a signed request to these routes does, with
    any statement failing: an envelope is added only to a conversation the signer is a
    member of, under the signer's own name unless it is sealed, and a tombstone only by an
    admin of the channel's group; an envelope goes only from a conversation the signer is
    a member of, or as the message (or its pending edit) the signer asked to delete while
    a member of the conversation it named; a reaction is the signer's own, on a message
    of its conversations when that can be told; a watermark is the signer's own and only
    moves forward; an attachment key is never overwritten; and no other table is
    written. *)
Theorem message_writes_authorised (u : string) (op : MessageOp) (db : MsgDb) :
  wp (apply_message_op env (Some u) op) db (fun _ db' => message_scope u op db db').
Proof. apply message_op_scope. Qed.
End Scope.

(** ** Envelope collection *)

Section Collection.
Import MessageRoutes.
Context (env : SqlEnv).

(** Device [d] of user [u] is one a conversation's envelopes wait for. *)
Definition awaited (db : MsgDb) (is_dm : bool) (c u d : string) : Prop :=
  (exists rec, In rec (devices db) /\ dev_user rec = u /\ dev_id rec = d) /\
  (if is_dm then is_Some (dm_members db !! (c, u))
   else exists r, group_channels db !! c = Some r /\ belongs db (chn_group_id r) u).

Lemma elem_of_keys {A} (m : gmap (string * string) A) (g u : string) :
  In u (map (fun k : string * string => k.2) (List.filter (fun k : string * string => bool_decide (k.1 = g)) (map fst (map_to_list m)))) <->
  is_Some (m !! (g, u)).
Proof.
  rewrite in_map_iff. split.
  - intros ([g' u'] & <- & [Hin Hb]%filter_In). breflect. simpl in *. subst g'.
    apply in_map_iff in Hin as ([k a] & Hk & Hin). simpl in Hk. subst k.
    apply list_elem_of_In, elem_of_map_to_list in Hin. by eexists.
  - intros [a Ha]. exists (g, u). split; [done|]. apply filter_In. split; [|by apply bool_decide_eq_true_2].
    apply in_map_iff. exists ((g, u), a). split; [done|]. by apply list_elem_of_In, elem_of_map_to_list.
Qed.

Lemma in_reader_devices db is_dm c u d : In (u, d) (reader_devices is_dm c db) <-> awaited db is_dm c u d.
Proof.
  unfold reader_devices, awaited. rewrite in_concat. assert (In u (readers is_dm c db) <->
    if is_dm then is_Some (dm_members db !! (c, u)) else exists r, group_channels db !! c = Some r /\ belongs db (chn_group_id r) u) as Hu.
  { unfold readers. destruct is_dm; [apply elem_of_keys|]. destruct (group_channels db !! c) as [r|]; [|naive_solver].
    rewrite elem_of_keys. unfold belongs. naive_solver. }
  rewrite <- Hu. split.
  - intros (l & (v & <- & Hv)%in_map_iff & (rec & Hrec & [Hin Hb]%filter_In)%in_map_iff). breflect. simplify_eq. eauto.
  - intros [(rec & Hin & <- & <-) Hv]. eexists. split; [apply in_map_iff; eauto|]. apply in_map_iff. exists rec.
    split; [done|]. apply filter_In. split; [done|]. by apply bool_decide_eq_true_2.
Qed.

(** Every row of the join has a watermark exactly when the two counts agree. *)
Lemma omap_id_full {A} (l : list (option A)) : length l = length (omap (fun w => w) l) <-> Forall is_Some l.
Proof.
  assert (forall k : list (option A), length (omap (fun w => w) k) <= length k) as Hle.
  { induction k as [|[a|] k IH]; cbn; lia. }
  induction l as [|[a|] l IH]; cbn; rewrite ?Forall_cons.
  - by rewrite Forall_nil.
  - rewrite <- IH. split; [intros E; split; [by eexists|lia]|intros [_ E]; lia].
  - specialize (Hle l). split; [intros E; cbn in *; lia|intros [[? ?] _]; done].
Qed.

Lemma gc_floor_lt is_dm c db x :
  (exists f, gc_floor is_dm c db = Some f /\ text_lt x f = true) <->
  reader_devices is_dm c db <> [] /\
  forall u d, In (u, d) (reader_devices is_dm c db) -> exists w, watermarks db !! (c, u, d) = Some w /\ text_lt x w = true.
Proof.
  unfold gc_floor. set (l := reader_devices is_dm c db). set (rows := map _ l).
  assert (forall u d, In (u, d) l -> In (watermarks db !! (c, u, d)) rows) as Hin.
  { intros u d H. apply in_map_iff. by exists (u, d). }
  destruct (Nat.eqb_spec (length rows) (length (omap (fun w => w) rows))) as [E|E].
  - apply omap_id_full in E. rewrite Forall_forall in E. split.
    + intros (f & Hf & Hx). split; [intros El; subst rows; by rewrite El in Hf|]. intros u d H.
      rewrite (text_min_lt _ _ _ Hf), Forall_forall in Hx. specialize (Hin u d H).
      apply list_elem_of_In in Hin. destruct (E _ Hin) as [w Hw]. exists w. split; [done|]. apply Hx.
      apply list_elem_of_omap. eexists. split; [exact Hin|]. by rewrite Hw.
    + intros [Hne Hall]. destruct (omap (fun w => w) rows) as [|w0 ws] eqn:Eo.
      { exfalso. destruct l as [|[u d] l']; [done|]. destruct (Hall u d ltac:(by left)) as (w & Hw & _).
        assert (w ∈ omap (fun w => w) rows) as Hm by (apply list_elem_of_omap; exists (Some w); split; [|done];
          apply list_elem_of_In; rewrite <- Hw; apply Hin; by left). rewrite Eo in Hm. set_solver. }
      eexists. split; [reflexivity|]. apply (text_min_lt (w0 :: ws)); [reflexivity|]. rewrite <- Eo. apply Forall_forall.
      intros w (o & Ho & Hw)%list_elem_of_omap. simpl in Hw. subst o.
      apply list_elem_of_In, in_map_iff in Ho as ([u d] & Hk & H). destruct (Hall u d H) as (w' & Hw' & Hx). simpl in Hk. congruence.
  - split; [by intros (f & ? & _)|]. intros [_ Hall]. exfalso. apply E, omap_id_full, Forall_forall.
    intros o ([u d] & <- & H)%list_elem_of_In%in_map_iff. destruct (Hall u d H) as (w & Hw & _). by eexists.
Qed.

(** Envelope collection is exact.  When a collection goes through, an envelope of the
    named conversation is deleted if and only if it is past the retention date, or the
    conversation has a device to wait for and every device of every member has fetched
    past it; every other envelope stays as it was. *)
Theorem gc_exact (u : string) (b : EnvelopeGcBody) (db : MsgDb) :
  wp (apply_envelope_gc env (Some u) b) db (fun r db' => r = Ok Applied ->
    forall e row, envelopes db !! e = Some row ->
      (envelopes db' !! e = None <->
         env_conversation_id row = gc_conversation_id b /\
         (text_lt (env_sent_at row) (datetime_ttl env) = true \/
          (exists v d, awaited db (gc_is_dm b) (gc_conversation_id b) v d) /\
          forall v d, awaited db (gc_is_dm b) (gc_conversation_id b) v d ->
            exists w, watermarks db !! (gc_conversation_id b, v, d) = Some w /\ text_lt (env_sent_at row) w = true)) /\
      (envelopes db' !! e = None \/ envelopes db' !! e = Some row)).
Proof.
  apply wp_as_actor; [done|]. apply wp_reader; [done..|]. intros _. repeat wp_step; [done|]. simplify_eq. intros _ e row He.
  simpl. rewrite lookup_delete_where, He. set (l := reader_devices (gc_is_dm b) (gc_conversation_id b) db).
  pose proof (gc_floor_lt (gc_is_dm b) (gc_conversation_id b) db (env_sent_at row)) as Hf. fold l in Hf.
  assert ((exists v d, awaited db (gc_is_dm b) (gc_conversation_id b) v d) <-> l <> []) as Hne.
  { setoid_rewrite <- in_reader_devices. fold l. destruct l as [|[v d] l']; [naive_solver|]. split; [done|].
    intros _. exists v, d. by left. }
  rewrite Hne. setoid_rewrite <- in_reader_devices. fold l. rewrite <- Hf.
  assert (gc_doomed env (gc_is_dm b) (gc_conversation_id b) db row = true <->
    env_conversation_id row = gc_conversation_id b /\ (text_lt (env_sent_at row) (datetime_ttl env) = true \/
      exists f, gc_floor (gc_is_dm b) (gc_conversation_id b) db = Some f /\ text_lt (env_sent_at row) f = true)) as Hd.
  { unfold gc_doomed. rewrite andb_true_iff, bool_decide_eq_true, orb_true_iff.
    destruct (gc_floor _ _ _); naive_solver. }
  rewrite <- Hd. destruct (gc_doomed _ _ _ _ _); naive_solver.
Qed.
End Collection.

(** ** What the delete route lets through *)

Section Unscoped.
Import MessageRoutes.

(** The delete route does not scope its check.  A member of any conversation may name it,
    claim to be the author, and delete an envelope of a conversation it is not in. *)
Theorem delete_message_unscoped (env : SqlEnv) (db : MsgDb) (mallory own m : string) (row : EnvelopeRow) :
  reliable env -> reader db own mallory -> envelopes db !! m = Some row ->
  is_member (main_of db) (env_conversation_id row) mallory = false ->
  exists db', run_sql (apply_delete_message env (Some mallory) (mkDeleteMessage m own (Some mallory) None)) db =
    (db', Ok Applied) /\ envelopes db' !! m = None.
Proof.
  intros Hr Hm Hrow _. eexists. split.
  - unfold run_sql, apply_delete_message, as_actor, guard, delete_message_rows. simpl. rewrite bool_decide_eq_true_2 by done.
    unfold bind, member_of_conversation. rewrite run_query, Hm by done. rewrite run_transaction by done.
    rewrite !run_write by done. reflexivity.
  - simpl. rewrite lookup_delete_where, lookup_delete_eq. done.
Qed.

Definition delete_env : SqlEnv := mkSqlEnv (fun _ => false) true "2026-01-01 00:00:00" "2025-12-02 00:00:00"
  (Some 1767225600%N) "01J0" 0.

(** Mallory's own DM, and a message in a DM of two others. *)
Definition delete_db : MsgDb :=
  mkMsgDb ∅ ∅ [] ∅ ∅ ∅ ∅ ∅ ∅
    {[("own", "mallory") := mkDmMember "mallory" "2026-01-01" None;
      ("dm-ab", "alice") := mkDmMember "alice" "2026-01-01" None]} ∅
    {["m1" := mkEnvelope "dm-ab" "sealed" "mls:00" None "2026-01-01T00:00:00+00:00" "message" None 1]} ∅ ∅ ∅ no_accounts.

Lemma delete_message_unscoped_witness :
  exists db', run_sql (apply_delete_message delete_env (Some "mallory") (mkDeleteMessage "m1" "own" (Some "mallory") None))
    delete_db = (db', Ok Applied) /\ envelopes db' !! "m1" = None.
Proof.
  refine (delete_message_unscoped delete_env delete_db "mallory" "own" "m1"
    (mkEnvelope "dm-ab" "sealed" "mls:00" None "2026-01-01T00:00:00+00:00" "message" None 1) _ _ _ _).
  - intros n. reflexivity.
  - vm_compute. reflexivity.
  - vm_compute. reflexivity.
  - vm_compute. reflexivity.
Defined.
End Unscoped.
