(* ===== verification/Accounts.v ===== *)
(** * pollis-delivery: accounts, identity keys and devices

    Models [account.rs], [devices.rs], [cert.rs] and the statements of [bootstrap.rs] on the
    tables and the statement monad of [Tables]: identity rotation and establishment with
    their compare-and-swap on [account_key_log], device registration, the certificate that
    installs a device's signing key, key packages, enrolment, revocation, reset and account
    deletion with the group hand-off.

    The theorems: the account-key log of every user is one gap-free chain whose head is the
    live key, and stays so under every route; of two rotations from the same version one
    wins; a device's signing key is installed only under a certificate by its account's
    key, and every installed key has one; the service's certificate check is the client's;
    every route stays inside the signer's account; and what deletion leaves behind,
    depending on whether foreign keys are enforced. *)

From stdpp Require Import base list strings gmap pretty.
From Stdlib Require Import NArith ZArith Lia ZifyNat ZifyN.
From Stdlib Require Import Strings.Byte.
From S2P Require Import Prelude Crypto Relay Delivery Text Tables Groups.

Module AccountRoutes.

(** ** cert.rs *)

Section Cert.
Context `{Ed25519}.

Definition DEVICE_CERT_DOMAIN : bytes := as_bytes "pollis-device-cert-v1" ++ [x00].

Definition device_cert_signed_payload (device_id : string) (mls_signature_pub : bytes) (identity_version issued_at : N)
    : option bytes :=
  if (255 <? length (as_bytes device_id)) || (255 <? length mls_signature_pub) then None
  else Some (DEVICE_CERT_DOMAIN ++
    [byte_of_N (N.of_nat (length (as_bytes device_id)))] ++ as_bytes device_id ++
    [byte_of_N (N.of_nat (length mls_signature_pub))] ++ mls_signature_pub ++
    be_bytes 4 identity_version ++ be_bytes 8 issued_at).

Definition verify_device_cert (account_id_pub : bytes) (device_id : string) (mls_signature_pub : bytes)
    (identity_version issued_at : N) (cert_bytes : bytes) : bool :=
  if negb (length account_id_pub =? 32) then false
  else if negb (length cert_bytes =? 64) then false
  else match vk_from_bytes account_id_pub with
       | None => false
       | Some vk =>
           match device_cert_signed_payload device_id mls_signature_pub identity_version issued_at with
           | None => false
           | Some payload => ed_verify vk payload cert_bytes
           end
       end.
End Cert.

(** ** Bodies *)

Record RotateIdentityBody := mkRotateIdentity {
  ri_based_on_version : Z;
  ri_account_id_pub : string;
  ri_salt : string;
  ri_nonce : string;
  ri_wrapped_key : string;
  ri_user_id : option string
}.

Inductive RotateOutcome : Type := RotateApplied (new_version : Z) | RotateForbidden | RotateConflict (head_version : Z).

Record SecurityEventBody := mkSecurityEvent {
  se_kind : string;
  se_device_id : option string;
  se_metadata : option string;
  se_user_id : option string
}.

Record ApproveEnrollmentBody := mkApproveEnrollment {
  ae_request_id : string;
  ae_wrapped_account_key : string;
  ae_approved_by_device_id : string;
  ae_user_id : option string
}.

Record RejectEnrollmentBody := mkRejectEnrollment {
  re_request_id : string;
  re_approved_by_device_id : string;
  re_user_id : option string
}.

Record RevokeDeviceBody := mkRevokeDevice { rv_device_id : string; rv_user_id : option string }.

Record LogoutDeviceBody := mkLogoutDevice { lo_device_id : string; lo_user_id : option string }.

Record ResetRecoverBody := mkResetRecover { rr_current_device_id : option string; rr_user_id : option string }.

Record DeleteAccountBody := mkDeleteAccount { da_user_id : option string }.

Record KeyPackageEntry := mkKeyPackageEntry { kpe_ref_hash : string; kpe_key_package : string }.

Record PublishKeyPackagesBody := mkPublishKeyPackages {
  pk_device_id : string;
  pk_packages : list KeyPackageEntry;
  pk_user_id : option string
}.

Record ReplenishKeyPackagesBody := mkReplenishKeyPackages {
  rk_device_id : string;
  rk_packages : list KeyPackageEntry;
  rk_user_id : option string
}.

Record ClaimKeyPackageBody := mkClaimKeyPackage { ck_target_user_id : string; ck_target_device_id : option string }.

Inductive ClaimOutcome : Type := Claimed (ref_hash : string) (key_package : bytes) | NoKeyPackage.

Record ResignedCert := mkResignedCert {
  rc_device_id : string;
  rc_device_cert : string;
  rc_cert_issued_at : string;
  rc_cert_identity_version : Z
}.

Record ResignDeviceCertsBody := mkResignDeviceCerts { rs_certs : list ResignedCert; rs_user_id : option string }.

Record PushTokenBody := mkPushTokenBody {
  pt_token : string;
  pt_platform : string;
  pt_updated_at : string;
  pt_user_id : option string
}.

Inductive EstablishOutcome : Type := EstablishApplied | EstablishConflict.

Inductive PublishCertOutcome : Type := PublishApplied | IdentityNotEstablished | CertInvalid | DeviceNotRegistered.

Section Routes.
Context (env : SqlEnv) `{!Ed25519} `{!Base64}.

(** ** Statements *)

Definition of_user (u : string) (r : KeyLogRow) : bool := bool_decide (kl_user_id r = u).

Definition log_of (u : string) (db : MsgDb) : list KeyLogRow := List.filter (of_user u) (key_log (accounts db)).

(** [COALESCE(MAX(identity_version), 0)] of the user's rows. *)
Definition max_version (l : list KeyLogRow) : Z :=
  match map kl_identity_version l with [] => 0 | v :: vs => fold_left Z.max vs v end.

Definition key_log_head (u : string) (db : MsgDb) : Z := max_version (log_of u db).

Definition has_version (u : string) (v : Z) (db : MsgDb) : bool :=
  existsb (fun r => bool_decide (kl_identity_version r = v)) (log_of u db).

Definition append_key (u : string) (pub : bytes) (v : Z) : MsgDb -> MsgDb :=
  set_key_log (fun l => l ++ [mkKeyLog u pub v]).

(** The conditional INSERT of the rotation, with its affected count. *)
Definition cas_append (u : string) (pub : bytes) (new_version based_on : Z) (db : MsgDb) : option (MsgDb * nat) :=
  if (based_on =? key_log_head u db)%Z && negb (has_version u new_version db)
  then Some (append_key u pub new_version db, 1) else Some (db, 0).

Definition set_identity (pub : bytes) (v : Z) (r : ProfileRow) : ProfileRow :=
  mkProfile (prf_username r) (prf_preferred_name r) (prf_phone r) (prf_avatar_url r) (prf_email r) (Some pub) v.

Definition put_recovery (u : string) (row : RecoveryRow) (db : MsgDb) : option MsgDb :=
  if fk_holds env (is_user_row db u) then Some (set_recovery <[u := row]> db) else None.

(** DELETE FROM user_device. *)
Definition delete_devices (p : DeviceRec -> bool) (db : MsgDb) : MsgDb :=
  set_device_info (fun m => fold_left (fun m d => if p d then delete (dev_id d) m else m) (devices db) m)
    (set_devices (List.filter (fun d => negb (p d))) db).

Definition owned (u d : string) (r : DeviceRec) : bool := bool_decide (dev_id r = d) && bool_decide (dev_user r = u).

Definition delete_packages (p : KeyPackageRow -> bool) : MsgDb -> MsgDb :=
  set_key_packages (List.filter (fun r => negb (p r))).

Definition package_of (u : string) (r : KeyPackageRow) : bool := bool_decide (kp_user_id r = u).

(** INSERT OR IGNORE, keyed on [ref_hash]. *)
Definition insert_package (u d : string) (p : string * bytes) (db : MsgDb) : option MsgDb :=
  if fk_holds env (is_user_row db u) then
    Some (set_key_packages (fun l =>
      if existsb (fun r => bool_decide (kp_ref_hash r = p.1)) l then l
      else l ++ [mkKeyPackage p.1 u p.2 false (datetime_now env) (Some d)]) db)
  else None.

(** DELETE FROM users, with the cascades the schema declares; [reviewed_by] has none. *)
Definition cascade_user (u : string) (db : MsgDb) : MsgDb :=
  let db := set_dm_members (delete_where (fun k _ => bool_decide (k.2 = u))) db in
  let db := set_group_members (delete_where (fun k _ => bool_decide (k.2 = u))) db in
  let db := set_invites (delete_where (fun _ i => bool_decide (inv_inviter_id i = u) || bool_decide (inv_invitee_id i = u))) db in
  let db := set_join_requests (delete_where (fun _ j => bool_decide (joi_requester_id j = u))) db in
  let db := set_reactions (delete_where (fun k _ => bool_decide (k.1.2 = u))) db in
  let db := set_blocks (filter (fun ab => ab.1 <> u /\ ab.2 <> u)) db in
  let db := set_preferences (delete u) db in
  let db := delete_devices (fun d => bool_decide (dev_user d = u)) db in
  let db := delete_packages (package_of u) db in
  let db := set_recovery (delete u) db in
  let db := set_enrollments (delete_where (fun _ r => bool_decide (enr_user_id r = u))) db in
  set_security_events (delete_where (fun _ r => bool_decide (evt_user_id r = u))) db.

Definition reviewed_by (u : string) (db : MsgDb) : bool :=
  existsb (fun kj : string * JoinRow => bool_decide (joi_reviewed_by kj.2 = Some u)) (map_to_list (join_requests db)).

Definition delete_user_row (u : string) (db : MsgDb) : option MsgDb :=
  match users db !! u with
  | None => Some db
  | Some _ =>
      let db' := set_users (delete u) db in
      if fk env then let db' := cascade_user u db' in if reviewed_by u db' then None else Some db'
      else Some db'
  end.

(** ** account.rs *)

Definition apply_rotate_identity (authed : option string) (b : RotateIdentityBody) : Sql RotateOutcome :=
  match resolve_actor authed (ri_user_id b) with
  | None => ret RotateForbidden
  | Some actor =>
      let* pub := decoded (b64_decode_opt (ri_account_id_pub b)) in
      let* salt := decoded (b64_decode_opt (ri_salt b)) in
      let* nonce := decoded (b64_decode_opt (ri_nonce b)) in
      let* wrapped := decoded (b64_decode_opt (ri_wrapped_key b)) in
      let new_version := wrap_i64 (ri_based_on_version b + 1) in
      transaction_if env (
        let* affected := update env (cas_append actor pub new_version (ri_based_on_version b)) in
        if affected =? 0 then
          let* head := query env (key_log_head actor) in
          ret (false, RotateConflict head)
        else
          let* _ := write env (fun db => Some (set_users (alter (set_identity pub new_version) actor) db)) in
          let* _ := write env (put_recovery actor (mkRecovery new_version salt nonce wrapped)) in
          ret (true, RotateApplied new_version))
  end.

Definition apply_record_security_event (authed : option string) (b : SecurityEventBody) : Sql WriteOutcome :=
  as_actor authed (se_user_id b) (fun actor =>
    let* _ := write env (fun db =>
      if fk_holds env (is_user_row db actor) then
        (fun m => set_security_events (fun _ => m) db) <$>
          insert_new (new_ulid env) (mkEvent actor (se_kind b) (se_device_id b) (se_metadata b)) (security_events (accounts db))
      else None) in
    ret Applied).

(** UPDATE of the actor's own enrolment request, with the affected count. *)
Definition update_enrollment (id actor : string) (f : EnrollmentRow -> EnrollmentRow) (db : MsgDb) : option (MsgDb * nat) :=
  match enrollments (accounts db) !! id with
  | Some r => if bool_decide (enr_user_id r = actor) then Some (set_enrollments <[id := f r]> db, 1) else Some (db, 0)
  | None => Some (db, 0)
  end.

Definition enrollment_outcome (affected : nat) : WriteOutcome := if affected =? 0 then Forbidden else Applied.

Definition apply_approve_enrollment (authed : option string) (b : ApproveEnrollmentBody) : Sql WriteOutcome :=
  as_actor authed (ae_user_id b) (fun actor =>
    let* wrapped := decoded (b64_decode_opt (ae_wrapped_account_key b)) in
    let* affected := update env (update_enrollment (ae_request_id b) actor (fun r =>
      mkEnrollment (enr_user_id r) (enr_new_device_id r) (enr_ephemeral_pub r) (enr_verification_code r)
        (Some wrapped) "approved" (enr_created_at r) (enr_expires_at r) (Some (ae_approved_by_device_id b)))) in
    ret (enrollment_outcome affected)).

Definition apply_reject_enrollment (authed : option string) (b : RejectEnrollmentBody) : Sql WriteOutcome :=
  as_actor authed (re_user_id b) (fun actor =>
    let* affected := update env (update_enrollment (re_request_id b) actor (fun r =>
      mkEnrollment (enr_user_id r) (enr_new_device_id r) (enr_ephemeral_pub r) (enr_verification_code r)
        (enr_wrapped_account_key r) "rejected" (enr_created_at r) (enr_expires_at r) (Some (re_approved_by_device_id b)))) in
    ret (enrollment_outcome affected)).

Definition apply_revoke_device (authed : option string) (b : RevokeDeviceBody) : Sql WriteOutcome :=
  as_actor authed (rv_user_id b) (fun actor =>
    transaction env (
      let* _ := write env (fun db => Some (delete_packages (fun r =>
        package_of actor r && bool_decide (kp_device_id r = Some (rv_device_id b))) db)) in
      let* _ := write env (fun db => Some (set_devices (map (fun d =>
        if owned actor (rv_device_id b) d && bool_decide (revoked_at d = None)
        then mkDeviceRec (dev_id d) (dev_user d) (Some (datetime_now env)) (mls_signature_pub d) else d)) db)) in
      ret Applied)).

Definition apply_logout_device (authed : option string) (b : LogoutDeviceBody) : Sql WriteOutcome :=
  as_actor authed (lo_user_id b) (fun actor =>
    let* _ := write env (fun db => Some (delete_devices (owned actor (lo_device_id b)) db)) in
    ret Applied).

(** One group of the hand-off. *)
Definition memberships (u : string) (db : MsgDb) : list (string * string) :=
  map (fun kr : string * string * string => (kr.1.1, kr.2))
    (List.filter (fun kr : string * string * string => bool_decide (kr.1.2 = u)) (map_to_list (group_members db))).

Definition others_of (g u : string) (db : MsgDb) : list (string * string) :=
  map (fun kr : string * string * string => (kr.1.2, kr.2))
    (List.filter (fun kr : string * string * string => bool_decide (kr.1.1 = g) && negb (bool_decide (kr.1.2 = u)))
      (map_to_list (group_members db))).

Definition other_admins (g u : string) (db : MsgDb) : nat :=
  length (List.filter (fun vr : string * string => bool_decide (vr.2 = "admin")) (others_of g u db)).

(** [LIMIT 1] without an order: any of the rows. *)
Definition any_row {A} (l : list A) : option A := nth_error l (row_choice env mod length l).

Definition hand_off (actor : string) (gr : string * string) : Sql unit :=
  let '(g, role) := gr in
  let* count := query env (GroupRoutes.member_count g) in
  if count <=? 1 then write env (fun db => Some (GroupRoutes.delete_group_row env g db))
  else if bool_decide (role = "admin") then
    let* admins := query env (other_admins g actor) in
    if admins =? 0 then
      let* candidate := query env (fun db => any_row (others_of g actor db)) in
      when_some candidate (fun vr => write env (fun db => Some (set_group_members (alter (fun _ => "admin") (g, vr.1)) db)))
    else ret tt
  else ret tt.

Definition handoff_group_ownership (actor : string) : Sql unit :=
  let* rows := query env (memberships actor) in
  for_each rows (hand_off actor).

Definition apply_reset_recover (authed : option string) (b : ResetRecoverBody) : Sql WriteOutcome :=
  as_actor authed (rr_user_id b) (fun actor =>
    transaction env (
      let* _ := handoff_group_ownership actor in
      let* _ := write env (fun db => Some (set_group_members (delete_where (fun k _ => bool_decide (k.2 = actor))) db)) in
      let* _ := write env (fun db => Some (set_dm_members (delete_where (fun k _ => bool_decide (k.2 = actor))) db)) in
      let* _ := write env (fun db => Some (delete_packages (package_of actor) db)) in
      let* _ := write env (fun db => Some (delete_devices (fun d => bool_decide (dev_user d = actor) &&
        match rr_current_device_id b with Some dev => negb (bool_decide (dev_id d = dev)) | None => true end) db)) in
      ret Applied)).

Definition apply_delete_account (authed : option string) (b : DeleteAccountBody) : Sql WriteOutcome :=
  as_actor authed (da_user_id b) (fun actor =>
    transaction env (
      let* _ := handoff_group_ownership actor in
      let* _ := write env (fun db => Some (set_envelopes (delete_where (fun _ e => bool_decide (env_sender_id e = actor))) db)) in
      let* _ := write env (fun db => Some (delete_packages (package_of actor) db)) in
      let* _ := write env (fun db => Some (set_group_members (delete_where (fun k _ => bool_decide (k.2 = actor))) db)) in
      let* _ := write env (delete_user_row actor) in
      ret Applied)).

(** ** devices.rs *)

(** Decode one package, insert it; a bad one ends the request with the rest unwritten. *)
Definition apply_publish_key_packages (authed : option string) (b : PublishKeyPackagesBody) : Sql WriteOutcome :=
  as_actor authed (pk_user_id b) (fun actor =>
    let* _ := for_each (pk_packages b) (fun pkg =>
      let* kp := decoded (b64_decode_opt (kpe_key_package pkg)) in
      write env (insert_package actor (pk_device_id b) (kpe_ref_hash pkg, kp))) in
    ret Applied).

(** The decode loop of the replenishment. *)
Fixpoint decode_packages (l : list KeyPackageEntry) : option (list (string * bytes)) :=
  match l with
  | [] => Some []
  | pkg :: l' =>
      match b64_decode_opt (kpe_key_package pkg) with
      | None => None
      | Some kp => match decode_packages l' with Some rest => Some ((kpe_ref_hash pkg, kp) :: rest) | None => None end
      end
  end.

Definition apply_replenish_key_packages (authed : option string) (b : ReplenishKeyPackagesBody) : Sql WriteOutcome :=
  as_actor authed (rk_user_id b) (fun actor =>
    let* packages := decoded (decode_packages (rk_packages b)) in
    transaction env (
      let* _ := write env (fun db => Some (delete_packages (fun r =>
        package_of actor r && negb (kp_claimed r) &&
        (bool_decide (kp_device_id r = Some (rk_device_id b)) || bool_decide (kp_device_id r = None))) db)) in
      let* _ := for_each packages (fun p => write env (insert_package actor (rk_device_id b) p)) in
      ret Applied)).

(** The subquery of the claim: the oldest eligible row, the first inserted of equals. *)
Definition eligible (b : ClaimKeyPackageBody) (r : KeyPackageRow) : bool :=
  package_of (ck_target_user_id b) r && negb (kp_claimed r) &&
  match ck_target_device_id b with Some d => bool_decide (kp_device_id r = Some d) | None => true end.

Definition older (r s : KeyPackageRow) : KeyPackageRow := if text_lt (kp_created_at s) (kp_created_at r) then s else r.

Definition oldest (l : list KeyPackageRow) : option KeyPackageRow :=
  match l with [] => None | r :: l' => Some (fold_left older l' r) end.

Definition claim_statement (b : ClaimKeyPackageBody) (db : MsgDb) : option (MsgDb * option KeyPackageRow) :=
  match oldest (List.filter (eligible b) (key_packages (accounts db))) with
  | None => Some (db, None)
  | Some r =>
      Some (set_key_packages (map (fun s => if bool_decide (kp_ref_hash s = kp_ref_hash r)
              then mkKeyPackage (kp_ref_hash s) (kp_user_id s) (kp_key_package s) true (kp_created_at s) (kp_device_id s)
              else s)) db, Some r)
  end.

Definition apply_claim_key_package (b : ClaimKeyPackageBody) : Sql ClaimOutcome :=
  let* row := update env (claim_statement b) in
  ret (match row with Some r => Claimed (kp_ref_hash r) (kp_key_package r) | None => NoKeyPackage end).

Definition set_cert (cert : bytes) (issued_at : string) (v : Z) (i : DeviceInfo) : DeviceInfo :=
  mkDeviceInfo (di_device_name i) (Some cert) (Some issued_at) (Some v).

Definition is_owned (u d : string) (db : MsgDb) : bool := existsb (owned u d) (devices db).

Definition apply_resign_device_certs (authed : option string) (b : ResignDeviceCertsBody) : Sql WriteOutcome :=
  as_actor authed (rs_user_id b) (fun actor =>
    transaction env (
      let* _ := for_each (rs_certs b) (fun c =>
        let* cert := decoded (b64_decode_opt (rc_device_cert c)) in
        write env (fun db =>
          if is_owned actor (rc_device_id c) db
          then Some (set_device_info (alter (set_cert cert (rc_cert_issued_at c) (rc_cert_identity_version c)) (rc_device_id c)) db)
          else Some db)) in
      ret Applied)).

Definition apply_register_push_token (authed : option string) (b : PushTokenBody) : Sql WriteOutcome :=
  as_actor authed (pt_user_id b) (fun actor =>
    let* _ := write env (fun db =>
      Some (set_push_tokens <[pt_token b := mkPushToken actor (pt_platform b) (pt_updated_at b)]> db)) in
    ret Applied).

(** ** bootstrap.rs: the statements behind a session *)

Definition claim_identity (u : string) (pub : bytes) (db : MsgDb) : option (MsgDb * nat) :=
  match users db !! u with
  | Some r => match prf_account_id_pub r with
              | None => Some (set_users <[u := set_identity pub 1 r]> db, 1)
              | Some _ => Some (db, 0)
              end
  | None => Some (db, 0)
  end.

Definition apply_establish_identity (u : string) (pub salt nonce wrapped : bytes) : Sql EstablishOutcome :=
  transaction_if env (
    let* affected := update env (claim_identity u pub) in
    if affected =? 0 then ret (false, EstablishConflict)
    else
      let* _ := write env (fun db => if has_version u 1 db then None else Some (append_key u pub 1 db)) in
      let* _ := write env (fun db =>
        match recovery (accounts db) !! u with
        | Some _ => None
        | None => put_recovery u (mkRecovery 1 salt nonce wrapped) db
        end) in
      ret (true, EstablishApplied)).

(** INSERT INTO user_device .. ON CONFLICT(device_id) DO UPDATE: an existing row keeps its
    owner. *)
Definition upsert_device (u d name : string) (db : MsgDb) : option MsgDb :=
  if existsb (fun r => bool_decide (dev_id r = d)) (devices db) then
    Some (set_device_info (alter (fun i =>
      mkDeviceInfo (Some (default name (di_device_name i))) (di_device_cert i) (di_cert_issued_at i) (di_cert_identity_version i)) d) db)
  else if fk_holds env (is_user_row db u) then
    Some (set_device_info <[d := mkDeviceInfo (Some name) None None None]>
      (set_devices (fun l => l ++ [mkDeviceRec d u None None]) db))
  else None.

Definition seed_device (convs : list string) (u d : string) : MsgDb -> MsgDb :=
  set_watermarks (fun w => fold_left (fun w c => insert_ignore (c, u, d) (datetime_now env) w) convs w).

(** The channels of the user's groups, and the user's DMs. *)
Definition user_channels (u : string) (db : MsgDb) : list string :=
  map fst (List.filter (fun kc : string * ChannelRow => bool_decide (is_Some (group_members db !! (chn_group_id kc.2, u))))
    (map_to_list (group_channels db))).

Definition user_dms (u : string) (db : MsgDb) : list string :=
  map fst (List.filter (fun k : string * string => bool_decide (k.2 = u)) (map fst (map_to_list (dm_members db)))).

Definition apply_register_device (u d name : string) : Sql unit :=
  transaction env (
    let* _ := write env (upsert_device u d name) in
    let* _ := write env (fun db => Some (seed_device (user_channels u db) u d db)) in
    write env (fun db => Some (seed_device (user_dms u db) u d db))).

(** The UPDATE of the pivot: the certificate columns and the signing key, on the user's own row. *)
Definition install_key (u d : string) (cert : bytes) (issued_at version : N) (pub : bytes) (db : MsgDb) : option (MsgDb * nat) :=
  if is_owned u d db then
    Some (set_device_info (alter (set_cert cert (pretty issued_at) (Z.of_N version)) d)
      (set_devices (map (fun r => if owned u d r then mkDeviceRec (dev_id r) (dev_user r) (revoked_at r) (Some pub) else r)) db), 1)
  else Some (db, 0).

Definition apply_publish_device_cert (u d : string) (cert : bytes) (issued_at version : N) (pub : bytes) : Sql PublishCertOutcome :=
  let* account := query env (fun db => r ← users db !! u; prf_account_id_pub r) in
  match account with
  | None => ret IdentityNotEstablished
  | Some account_id_pub =>
      if negb (verify_device_cert account_id_pub d pub version issued_at cert) then ret CertInvalid
      else
        let* affected := update env (install_key u d cert issued_at version pub) in
        ret (if affected =? 0 then DeviceNotRegistered else PublishApplied)
  end.

Definition apply_enrollment_request (u new_device request_id : string) (ephemeral_pub : bytes)
    (verification_code created_at expires_at : string) : Sql unit :=
  write env (fun db =>
    if fk_holds env (is_user_row db u) then
      (fun m => set_enrollments (fun _ => m) db) <$>
        insert_new request_id (mkEnrollment u new_device ephemeral_pub verification_code None "pending" created_at expires_at None)
          (enrollments (accounts db))
    else None).
End Routes.
End AccountRoutes.

(** The account and device routes as one type of operations.  The first thirteen are
    signed; the last four run for a session's user and device (the certificate may also
    stand alone). *)
Section Ops.
Import AccountRoutes.
Context (env : SqlEnv) `{!Ed25519} `{!Base64}.

Inductive AccountOp : Type :=
| RotateIdentity (b : RotateIdentityBody) | RecordSecurityEvent (b : SecurityEventBody)
| ApproveEnrollment (b : ApproveEnrollmentBody) | RejectEnrollment (b : RejectEnrollmentBody)
| RevokeDevice (b : RevokeDeviceBody) | LogoutDevice (b : LogoutDeviceBody) | ResetRecover (b : ResetRecoverBody)
| DeleteAccount (b : DeleteAccountBody) | PublishKeyPackages (b : PublishKeyPackagesBody)
| ReplenishKeyPackages (b : ReplenishKeyPackagesBody) | ClaimKeyPackage (b : ClaimKeyPackageBody)
| ResignDeviceCerts (b : ResignDeviceCertsBody) | RegisterPushToken (b : PushTokenBody)
| EstablishIdentity (pub salt nonce wrapped : bytes) | RegisterDevice (d name : string)
| PublishDeviceCert (d : string) (cert : bytes) (issued_at version : N) (pub : bytes)
| EnrollmentRequest (d request_id : string) (ephemeral_pub : bytes) (code created_at expires_at : string).

Definition ignore {A} (m : Sql A) : Sql unit := let* _ := m in ret tt.

Definition apply_account_op (u : string) (op : AccountOp) : Sql unit :=
  match op with
  | RotateIdentity b => ignore (apply_rotate_identity env (Some u) b)
  | RecordSecurityEvent b => ignore (apply_record_security_event env (Some u) b)
  | ApproveEnrollment b => ignore (apply_approve_enrollment env (Some u) b)
  | RejectEnrollment b => ignore (apply_reject_enrollment env (Some u) b)
  | RevokeDevice b => ignore (apply_revoke_device env (Some u) b)
  | LogoutDevice b => ignore (apply_logout_device env (Some u) b)
  | ResetRecover b => ignore (apply_reset_recover env (Some u) b)
  | DeleteAccount b => ignore (apply_delete_account env (Some u) b)
  | PublishKeyPackages b => ignore (apply_publish_key_packages env (Some u) b)
  | ReplenishKeyPackages b => ignore (apply_replenish_key_packages env (Some u) b)
  | ClaimKeyPackage b => ignore (apply_claim_key_package env b)
  | ResignDeviceCerts b => ignore (apply_resign_device_certs env (Some u) b)
  | RegisterPushToken b => ignore (apply_register_push_token env (Some u) b)
  | EstablishIdentity pub salt nonce wrapped => ignore (apply_establish_identity env u pub salt nonce wrapped)
  | RegisterDevice d name => apply_register_device env u d name
  | PublishDeviceCert d cert issued version pub => ignore (apply_publish_device_cert env u d cert issued version pub)
  | EnrollmentRequest d id eph code created expires => apply_enrollment_request env u d id eph code created expires
  end.

Lemma wp_ignore {A} (m : Sql A) db (I : MsgDb -> Prop) : wp m db (fun _ db' => I db') -> wp (ignore m) db (fun _ db' => I db').
Proof. intros Hm. apply wp_bind. eapply wp_mono; [exact Hm|]. intros [a|e] db' Hi; [by apply wp_ret|done]. Qed.

Lemma wp_ignore_inv {A} (m : Sql A) db (I : MsgDb -> Prop) : wp (ignore m) db (fun _ db' => I db') -> wp m db (fun _ db' => I db').
Proof. intros Hm n. specialize (Hm n). unfold ignore, bind in Hm. by destruct (m (n, db)) as [[n' db'] [a|e]]. Qed.
End Ops.

(** ** Identity keys and device keys *)

Section Keys.
Import AccountRoutes.
Context `{!Ed25519}.

(** Consecutive versions from some first one, at least 1. *)
Fixpoint chain_from (v : Z) (vs : list Z) : Prop :=
  match vs with [] => True | w :: vs' => w = v /\ chain_from (v + 1) vs' end.

Definition chain (vs : list Z) : Prop := match vs with [] => True | v :: _ => (1 <= v)%Z /\ chain_from v vs end.

Lemma chain_from_snoc v vs w : chain_from v (vs ++ [w]) <-> chain_from v vs /\ w = (v + Z.of_nat (length vs))%Z.
Proof.
  revert v. induction vs as [|x vs IH]; intros v; simpl; [rewrite Z.add_0_r; tauto|]. rewrite IH.
  split; intros; split_and!; try tauto; lia.
Qed.

Lemma chain_from_bound v vs w : chain_from v vs -> In w vs -> (v <= w < v + Z.of_nat (length vs))%Z.
Proof.
  revert v. induction vs as [|x vs IH]; intros v; simpl; [done|]. intros [-> Hc] [->|Hin]; [lia|].
  specialize (IH _ Hc Hin). lia.
Qed.

Lemma fold_max_bound vs v m : (forall w, In w vs -> (w <= m)%Z) -> (v <= m)%Z -> (m = v \/ In m vs) -> fold_left Z.max vs v = m.
Proof.
  revert v. induction vs as [|x vs IH]; intros v Hb Hv Hm; simpl; [destruct Hm; [done|done]|].
  apply IH; [intros; apply Hb; by right|specialize (Hb x ltac:(by left)); lia|].
  specialize (Hb x ltac:(by left)). destruct Hm as [Hm|[Hm|Hin]]; [left; lia|left; lia|by right].
Qed.

(** The maximum of a chain is its last version; no version exceeds it. *)
Lemma max_version_chain l r : chain (map kl_identity_version (l ++ [r])) -> max_version (l ++ [r]) = kl_identity_version r.
Proof.
  unfold max_version. rewrite map_app. simpl. generalize (map kl_identity_version l) (kl_identity_version r).
  intros vs0 w Hc. destruct vs0 as [|v vs]; simpl in *; [done|]. destruct Hc as (_ & _ & Hc).
  pose proof Hc as [_ Hw]%chain_from_snoc. apply fold_max_bound.
  - intros x Hx. pose proof (chain_from_bound _ _ _ Hc Hx) as Hb. rewrite length_app in Hb. simpl in Hb. lia.
  - lia.
  - right. apply in_app_iff. right. by left.
Qed.

Lemma chain_snoc vs v : chain vs -> (1 <= v)%Z -> (forall w, last vs = Some w -> v = (w + 1)%Z) -> chain (vs ++ [v]).
Proof.
  intros Hc Hv Hl. destruct vs as [|x vs]; simpl; [done|]. destruct Hc as (Hx & _ & Hc). split_and!; [done|done|].
  apply chain_from_snoc. split; [done|]. destruct vs as [|y vs' _] using rev_ind; [simpl; rewrite (Hl x ltac:(done)); lia|].
  apply chain_from_snoc in Hc as [_ ->]. rewrite (Hl (x + 1 + Z.of_nat (length vs'))%Z); [rewrite length_app; simpl; lia|].
  change (x :: vs' ++ [?y]) with ((x :: vs') ++ [y]). by rewrite last_snoc.
Qed.

(** Each user's key log is one chain, and its last entry is the live key. *)
Record keys_ok (db : MsgDb) : Prop := {
  ko_chain : forall u, chain (map kl_identity_version (log_of u db));
  ko_head : forall u r, users db !! u = Some r ->
    match prf_account_id_pub r with
    | Some p => exists l, log_of u db = l ++ [mkKeyLog u p (prf_identity_version r)]
    | None => log_of u db = []
    end
}.

(** Each installed device key was certified by a key of the owner's log. *)
Definition devices_certified (db : MsgDb) : Prop := forall r pub, In r (devices db) -> mls_signature_pub r = Some pub ->
  exists k v t cert, In k (log_of (dev_user r) db) /\
    verify_device_cert (kl_account_id_pub k) (dev_id r) pub v t cert = true.

(** A change that touches no identity and no device key: users may go, devices may come
    without a key or go. *)
Record frame (db db' : MsgDb) : Prop := {
  fr_log : key_log (accounts db') = key_log (accounts db);
  fr_users : forall u r', users db' !! u = Some r' -> exists r, users db !! u = Some r /\
    prf_account_id_pub r' = prf_account_id_pub r /\ prf_identity_version r' = prf_identity_version r;
  fr_devices : forall r' pub, In r' (devices db') -> mls_signature_pub r' = Some pub ->
    exists r, In r (devices db) /\ dev_id r = dev_id r' /\ dev_user r = dev_user r' /\ mls_signature_pub r = Some pub
}.

Lemma frame_refl db : frame db db.
Proof. split; [done|intros u r' Hr; by exists r'|intros r' pub Hr Hp; by exists r']. Qed.

Lemma log_of_frame db db' u : key_log (accounts db') = key_log (accounts db) -> log_of u db' = log_of u db.
Proof. unfold log_of. by intros ->. Qed.

Lemma frame_keys db db' : frame db db' -> keys_ok db -> keys_ok db'.
Proof.
  intros [Hl Hu _] [Hc Hh]. split; intros u; rewrite (log_of_frame _ _ u Hl); [apply Hc|].
  intros r' Hr. destruct (Hu u r' Hr) as (r & Hr0 & -> & ->). by apply Hh.
Qed.

Lemma frame_certified db db' : frame db db' -> devices_certified db -> devices_certified db'.
Proof.
  intros [Hl _ Hd] Hc r' pub Hin Hp. destruct (Hd r' pub Hin Hp) as (r & Hr & <- & <- & Hp').
  destruct (Hc r pub Hr Hp') as (k & v & t & cert & Hk & Hv). exists k, v, t, cert.
  by rewrite (log_of_frame _ _ _ Hl).
Qed.

(** Statements on other tables. *)
Lemma frame_same db db1 db2 : frame db db1 -> key_log (accounts db2) = key_log (accounts db1) -> users db2 = users db1 ->
  devices db2 = devices db1 -> frame db db2.
Proof. intros [Hl Hu Hd] E1 E2 E3. split; [congruence|by rewrite E2|by rewrite E3]. Qed.

Lemma frame_devices_map db db1 f : frame db db1 ->
  (forall r, dev_id (f r) = dev_id r /\ dev_user (f r) = dev_user r /\ mls_signature_pub (f r) = mls_signature_pub r) ->
  frame db (set_devices (map f) db1).
Proof.
  intros [Hl Hu Hd] Hf. split; [done|done|]. simpl. intros r' pub (r & <- & Hr)%in_map_iff Hp.
  destruct (Hf r) as (Ei & Eu & Em). rewrite Em in Hp. destruct (Hd r pub Hr Hp) as (r0 & ? & ? & ? & ?).
  exists r0. split_and!; congruence.
Qed.

Lemma frame_devices_filter db db1 p : frame db db1 -> frame db (set_devices (List.filter p) db1).
Proof. intros [Hl Hu Hd]. split; [done|done|]. simpl. intros r' pub [Hr _]%filter_In Hp. eauto. Qed.

Lemma frame_delete_devices db db1 p : frame db db1 -> frame db (delete_devices p db1).
Proof. intros Hf. eapply frame_same; [apply (frame_devices_filter _ _ (fun d => negb (p d)) Hf)|done..]. Qed.

Lemma frame_delete_user db db1 u : frame db db1 -> frame db (set_users (delete u) db1).
Proof.
  intros [Hl Hu Hd]. split; [done| |done]. simpl. intros v r' [_ Hr]%lookup_delete_Some. by apply Hu.
Qed.
End Keys.

#[export] Hint Resolve frame_refl frame_delete_devices frame_delete_user : pollis.

Section KeyOps.
Import AccountRoutes.
Context (env : SqlEnv) `{!Ed25519} `{!Base64}.

(** A statement on other tables keeps the frame. *)
Ltac frame_other := eapply frame_same; [eassumption|done..].

Lemma wp_hand_off actor gr db db1 : frame db db1 -> wp (hand_off env actor gr) db1 (fun _ db' => frame db db').
Proof.
  intros Hf. destruct gr as [g role]. unfold hand_off. repeat wp_step; simplify_eq; auto; try frame_other.
  unfold GroupRoutes.delete_group_row. destruct (fk env); frame_other.
Qed.

Lemma wp_handoff actor db : wp (handoff_group_ownership env actor) db (fun _ db' => frame db db').
Proof.
  unfold handoff_group_ownership. repeat wp_step; [auto with pollis|]. apply wp_for_each; [auto with pollis|].
  intros gr db' _ Hf. by apply wp_hand_off.
Qed.

(** A frame-keeping prefix of a program. *)
Lemma wp_bind_frame {A B} (m : Sql A) (k : A -> Sql B) db db1 (Q : Result B SqlError -> MsgDb -> Prop) :
  wp m db1 (fun _ db' => frame db db') -> (forall e db', frame db db' -> Q (Err e) db') ->
  (forall a db', frame db db' -> wp (k a) db' Q) -> wp (bind m k) db1 Q.
Proof. intros Hm He Hk. apply wp_bind. eapply wp_mono; [exact Hm|]. intros [a|e] db' Hf; auto. Qed.

Lemma frame_cascade db db1 u : frame db db1 -> frame db (cascade_user u db1).
Proof.
  intros Hf. unfold cascade_user. cbv zeta.
  eapply frame_same; [apply (frame_delete_devices _ _ (fun d => bool_decide (dev_user d = u)) Hf)|done..].
Qed.

Lemma frame_delete_user_row db db1 db2 u : frame db db1 -> delete_user_row env u db1 = Some db2 -> frame db db2.
Proof.
  intros Hf. unfold delete_user_row. destruct (users db1 !! u); [|by intros [= <-]]. cbv zeta.
  destruct (fk env); [destruct (reviewed_by _ _); [done|]|]; intros [= <-]; auto using frame_cascade with pollis.
Qed.

Lemma wp_delete_account u b db : wp (apply_delete_account env (Some u) b) db (fun _ db' => frame db db').
Proof.
  apply wp_as_actor; [auto with pollis|]. wp_step; [auto with pollis|].
  eapply (wp_bind_frame _ _ db); [apply wp_handoff|done|]. intros _ db1 Hf. repeat wp_step; try done. simplify_eq.
  eapply frame_delete_user_row; [|eassumption]. frame_other.
Qed.

Lemma wp_reset_recover u b db : wp (apply_reset_recover env (Some u) b) db (fun _ db' => frame db db').
Proof.
  apply wp_as_actor; [auto with pollis|]. wp_step; [auto with pollis|].
  eapply (wp_bind_frame _ _ db); [apply wp_handoff|done|]. intros _ db1 Hf. repeat wp_step; try done. simplify_eq.
  apply frame_delete_devices. frame_other.
Qed.

Lemma frame_insert_package db db1 db2 u d p : frame db db1 -> insert_package env u d p db1 = Some db2 -> frame db db2.
Proof. intros Hf. unfold insert_package. destruct (fk_holds _ _); [|done]. intros [= <-]. frame_other. Qed.

Lemma wp_publish_packages u b db : wp (apply_publish_key_packages env (Some u) b) db (fun _ db' => frame db db').
Proof.
  apply wp_as_actor; [auto with pollis|]. eapply (wp_bind_frame _ _ db).
  - apply wp_for_each; [auto with pollis|]. intros pkg db' _ Hf. repeat wp_step; try done. by eapply frame_insert_package.
  - done.
  - intros _ db' Hf. by apply wp_ret.
Qed.

Lemma wp_replenish_packages u b db : wp (apply_replenish_key_packages env (Some u) b) db (fun _ db' => frame db db').
Proof.
  apply wp_as_actor; [auto with pollis|]. do 3 (wp_step; auto with pollis). wp_step; wp_step; [done|]. simplify_eq.
  eapply (wp_bind_frame _ _ db).
  - apply wp_for_each; [eapply frame_same; [apply frame_refl|done..]|]. intros p db' _ Hf. repeat wp_step; [done|].
    by eapply frame_insert_package.
  - done.
  - intros _ db' Hf. by apply wp_ret.
Qed.

Lemma frame_claim db db1 db2 b r : frame db db1 -> claim_statement b db1 = Some (db2, r) -> frame db db2.
Proof. intros Hf. unfold claim_statement. destruct (oldest _); intros [= <- _]; [frame_other|done]. Qed.

Lemma frame_update_enrollment db db1 db2 id u f n : frame db db1 -> update_enrollment id u f db1 = Some (db2, n) -> frame db db2.
Proof.
  intros Hf. unfold update_enrollment. destruct (_ !! id); [case_bool_decide|]; intros [= <- _]; try done. frame_other.
Qed.

Lemma wp_resign u b db : wp (apply_resign_device_certs env (Some u) b) db (fun _ db' => frame db db').
Proof.
  apply wp_as_actor; [auto with pollis|]. wp_step; [auto with pollis|]. eapply (wp_bind_frame _ _ db).
  - apply wp_for_each; [auto with pollis|]. intros c db' _ Hf. repeat wp_step; try done.
    destruct (is_owned _ _ _); simplify_eq; [frame_other|done].
  - done.
  - intros _ db' Hf. by apply wp_ret.
Qed.

Lemma frame_upsert_device db db1 db2 u d name : frame db db1 -> upsert_device env u d name db1 = Some db2 -> frame db db2.
Proof.
  intros Hf. unfold upsert_device. destruct (existsb _ _); [intros [= <-]; frame_other|].
  destruct (fk_holds _ _); [|done]. intros [= <-]. destruct Hf as [Hl Hu Hd]. split; [done|done|]. simpl.
  intros r' pub [Hr|[<-|[]]]%in_app_iff Hp; [eauto|done].
Qed.

Lemma wp_register_device u d name db : wp (apply_register_device env u d name) db (fun _ db' => frame db db').
Proof.
  unfold apply_register_device. repeat wp_step; try done; [auto with pollis|]. simplify_eq.
  eapply frame_same; [eapply frame_upsert_device; [apply frame_refl|eassumption]|done..].
Qed.

Definition sets_keys (op : AccountOp) : bool :=
  match op with RotateIdentity _ | EstablishIdentity _ _ _ _ | PublishDeviceCert _ _ _ _ _ => true | _ => false end.

(** Every other operation leaves identities and device keys alone. *)
Lemma wp_frame u op db : sets_keys op = false -> wp (apply_account_op env u op) db (fun _ db' => frame db db').
Proof.
  destruct op; simpl; try done; intros _; try apply wp_ignore.
  - apply wp_as_actor; [auto with pollis|]. repeat wp_step; [auto with pollis|]. destruct (fk_holds _ _); [|done].
    match goal with H : _ <$> _ = Some _ |- _ => apply fmap_Some in H as (m & _ & ->) end.
    eapply frame_same; [apply frame_refl|done..].
  - apply wp_as_actor; [auto with pollis|]. repeat wp_step; auto with pollis.
    eapply frame_update_enrollment; [apply frame_refl|eassumption].
  - apply wp_as_actor; [auto with pollis|]. repeat wp_step; auto with pollis.
    eapply frame_update_enrollment; [apply frame_refl|eassumption].
  - apply wp_as_actor; [auto with pollis|]. repeat wp_step; auto with pollis. simplify_eq.
    apply frame_devices_map; [eapply frame_same; [apply frame_refl|done..]|]. intros r. by destruct (_ && _).
  - apply wp_as_actor; [auto with pollis|]. repeat wp_step; simplify_eq; auto with pollis.
  - apply wp_reset_recover.
  - apply wp_delete_account.
  - apply wp_publish_packages.
  - apply wp_replenish_packages.
  - unfold apply_claim_key_package. repeat wp_step; auto with pollis; (eapply frame_claim; [apply frame_refl|eassumption]).
  - apply wp_resign.
  - apply wp_as_actor; [auto with pollis|]. repeat wp_step; simplify_eq; auto with pollis.
    eapply frame_same; [apply frame_refl|done..].
  - apply wp_register_device.
  - unfold apply_enrollment_request. repeat wp_step; [auto with pollis|]. destruct (fk_holds _ _); [|done].
    match goal with H : _ <$> _ = Some _ |- _ => apply fmap_Some in H as (m & _ & ->) end.
    eapply frame_same; [apply frame_refl|done..].
Qed.
(** *** Rotation and establishment *)

Definition rotated (u : string) (pub : bytes) (v : Z) (rec : RecoveryRow) (db : MsgDb) : MsgDb :=
  set_recovery <[u := rec]> (set_users (alter (set_identity pub v) u) (append_key u pub v db)).

Lemma wp_rotate u b db (Q : Result RotateOutcome SqlError -> MsgDb -> Prop) :
  (forall e, Q (Err e) db) -> Q (Ok RotateForbidden) db ->
  (forall pub rec, let v := wrap_i64 (ri_based_on_version b + 1) in
     ri_based_on_version b = key_log_head u db -> has_version u v db = false ->
     b64_decode_opt (ri_account_id_pub b) = Some pub -> rec_identity_version rec = v ->
     Q (Ok (RotateApplied v)) (rotated u pub v rec db)) ->
  (ri_based_on_version b <> key_log_head u db \/ has_version u (wrap_i64 (ri_based_on_version b + 1)) db = true ->
   Q (Ok (RotateConflict (key_log_head u db))) db) ->
  wp (apply_rotate_identity env (Some u) b) db Q.
Proof.
  intros He Hf Ha Hc. unfold apply_rotate_identity. destruct (resolve_actor _ _) as [a|] eqn:Er; [|by apply wp_ret].
  apply resolve_actor_signed in Er as ->. do 8 (wp_step; [done..|]). cbv zeta. wp_step; [done|]. wp_step; wp_step; [done|].
  match goal with H : cas_append _ _ _ _ _ = Some _ |- _ => unfold cas_append in H; destruct (_ && _) eqn:Ec in H; simplify_eq end;
    simpl.
  - breflect. repeat wp_step; try done. simplify_eq.
    match goal with H : put_recovery _ _ _ _ = Some _ |- _ => unfold put_recovery in H; destruct (fk_holds _ _) in H;
      [injection H as <-|done] end.
    by eapply (Ha _ (mkRecovery _ _ _ _)).
  - repeat wp_step; [done|]. apply Hc. apply andb_false_iff in Ec as [Ec|Ec]; [left; lia|right]. by breflect.
Qed.

Definition established (u : string) (r : ProfileRow) (pub : bytes) (rec : RecoveryRow) (db : MsgDb) : MsgDb :=
  set_recovery <[u := rec]> (append_key u pub 1 (set_users <[u := set_identity pub 1 r]> db)).

Lemma wp_establish u pub salt nonce wrapped db (Q : Result EstablishOutcome SqlError -> MsgDb -> Prop) :
  (forall e, Q (Err e) db) -> Q (Ok EstablishConflict) db ->
  (forall r rec, users db !! u = Some r -> prf_account_id_pub r = None -> has_version u 1 db = false ->
     Q (Ok EstablishApplied) (established u r pub rec db)) ->
  wp (apply_establish_identity env u pub salt nonce wrapped) db Q.
Proof.
  intros He Hc Ha. unfold apply_establish_identity. wp_step; [done|]. wp_step; wp_step; [done|].
  match goal with H : claim_identity _ _ _ = Some _ |- _ => unfold claim_identity in H;
    destruct (users db !! u) as [r|] eqn:Eu; [destruct (prf_account_id_pub r) eqn:Ep|]; simplify_eq end; simpl.
  - by apply wp_ret.
  - repeat wp_step; try done.
    match goal with H : (if _ then None else Some _) = Some _ |- _ => destruct (has_version _ _ _) eqn:Eh in H; [done|injection H as <-] end.
    match goal with H : match _ with Some _ => None | None => _ end = Some _ |- _ => destruct (recovery _ !! u) in H; [done|];
      unfold put_recovery in H; destruct (fk_holds _ _) in H; [injection H as <-|done] end.
    eapply (Ha r (mkRecovery 1 salt nonce wrapped)); done.
  - by apply wp_ret.
Qed.

(** *** The key log stays a chain *)

Lemma log_of_append v u pub n db : log_of v (append_key u pub n db) =
  log_of v db ++ (if bool_decide (u = v) then [mkKeyLog u pub n] else []).
Proof. unfold log_of, append_key. simpl. rewrite List.filter_app. simpl. unfold of_user. simpl. by destruct (bool_decide _). Qed.

Lemma head_of_chain u db : chain (map kl_identity_version (log_of u db)) -> (0 <= key_log_head u db)%Z /\
  (forall w, last (map kl_identity_version (log_of u db)) = Some w -> w = key_log_head u db).
Proof.
  intros Hc. unfold key_log_head. destruct (log_of u db) as [|r l _] using rev_ind; [done|].
  rewrite (max_version_chain _ _ Hc). rewrite map_app in *. simpl in *. rewrite last_snoc. split; [|congruence].
  destruct (map kl_identity_version l) as [|x vs]; simpl in Hc; [lia|]. destruct Hc as (Hx & _ & [_ ->]%chain_from_snoc). lia.
Qed.

(** One more key for [u], now the live one. *)
Lemma keys_ok_append u pub n db (f : ProfileRow -> ProfileRow) (us : gmap string ProfileRow) db' :
  keys_ok db -> n = (key_log_head u db + 1)%Z ->
  key_log (accounts db') = key_log (accounts (append_key u pub n db)) -> users db' = us ->
  (forall v r, us !! v = Some r -> if bool_decide (v = u) then prf_account_id_pub r = Some pub /\ prf_identity_version r = n
                                  else users db !! v = Some r) ->
  keys_ok db'.
Proof.
  intros [Hc Hh] Hn El Eu Hus. split; intros v; rewrite (log_of_frame _ _ v El), log_of_append.
  - case_bool_decide as E; [subst v|by rewrite app_nil_r]. rewrite map_app. simpl.
    destruct (head_of_chain u db (Hc u)) as [Hge Hl]. apply chain_snoc; [apply Hc|lia|]. intros w Hw%Hl. lia.
  - intros r Hr. rewrite Eu in Hr. specialize (Hus v r Hr). destruct (decide (v = u)) as [->|E].
    + rewrite bool_decide_eq_true_2 in * by done. destruct Hus as [-> ->]. by exists (log_of u db).
    + rewrite bool_decide_eq_false_2 in Hus by congruence. rewrite bool_decide_eq_false_2 by congruence.
      rewrite app_nil_r. by apply Hh.
Qed.

Lemma keys_rotated u pub v rec db : keys_ok db -> v = (key_log_head u db + 1)%Z -> keys_ok (rotated u pub v rec db).
Proof.
  intros Hk Hv. eapply (keys_ok_append u pub v db id); [done..|]. intros w r Hr. case_bool_decide as E.
  - subst w. simpl in Hr. rewrite lookup_alter_eq in Hr. apply fmap_Some in Hr as (r0 & _ & ->). done.
  - simpl in Hr. by rewrite lookup_alter_ne in Hr by congruence.
Qed.

Lemma keys_established u r pub rec db : keys_ok db -> users db !! u = Some r -> prf_account_id_pub r = None ->
  keys_ok (established u r pub rec db).
Proof.
  intros Hk Hr Hp. pose proof (ko_head _ Hk u r Hr) as He. rewrite Hp in He.
  eapply (keys_ok_append u pub 1 db id); [done| |done..|].
  - unfold key_log_head. by rewrite He.
  - intros w r' Hr'. simpl in Hr'. case_bool_decide as E.
    + subst w. rewrite lookup_insert_eq in Hr'. by simplify_eq.
    + by rewrite lookup_insert_ne in Hr' by congruence.
Qed.

(** A longer log keeps the certificates. *)
Lemma certified_append u pub n db db' : devices_certified db ->
  key_log (accounts db') = key_log (accounts (append_key u pub n db)) -> devices db' = devices db -> devices_certified db'.
Proof.
  intros Hc El Ed r p Hin Hp. rewrite Ed in Hin. destruct (Hc r p Hin Hp) as (k & v & t & cert & Hk & Hv).
  exists k, v, t, cert. rewrite (log_of_frame _ _ _ El), log_of_append. split; [|done]. apply in_app_iff. by left.
Qed.

(** *** The pivot *)

Lemma wp_publish u d cert issued version pub db (Q : Result PublishCertOutcome SqlError -> MsgDb -> Prop) :
  (forall e, Q (Err e) db) -> (forall o, o <> PublishApplied -> Q (Ok o) db) ->
  (forall r apub db', users db !! u = Some r -> prf_account_id_pub r = Some apub ->
     verify_device_cert apub d pub version issued cert = true -> is_owned u d db = true ->
     install_key u d cert issued version pub db = Some (db', 1) -> Q (Ok PublishApplied) db') ->
  wp (apply_publish_device_cert env u d cert issued version pub) db Q.
Proof.
  intros He Hn Ha. unfold apply_publish_device_cert. wp_step; wp_step; [done|].
  destruct (users db !! u) as [r|] eqn:Er; simpl; [|apply wp_ret; by apply Hn].
  destruct (prf_account_id_pub r) as [apub|] eqn:Ep; [|apply wp_ret; by apply Hn].
  destruct (verify_device_cert _ _ _ _ _ _) eqn:Ev; simpl; [|apply wp_ret; by apply Hn]. wp_step; wp_step; [done|].
  apply wp_ret. match goal with H : install_key _ _ _ _ _ _ _ = Some _ |- _ => pose proof H as Hi; unfold install_key in H;
    destruct (is_owned u d db) eqn:Eo; simplify_eq end; simpl; [|by apply Hn]. by eapply Ha.
Qed.

Lemma certified_installed u d cert issued version pub db db' r apub : keys_ok db -> devices_certified db ->
  users db !! u = Some r -> prf_account_id_pub r = Some apub ->
  verify_device_cert apub d pub version issued cert = true ->
  install_key u d cert issued version pub db = Some (db', 1) -> keys_ok db' /\ devices_certified db'.
Proof.
  intros Hk Hc Hr Hp Hv Hi. unfold install_key in Hi. destruct (is_owned u d db); [|done]. injection Hi as <-. split.
  - destruct Hk as [H1 H2]. by split.
  - intros r' p Hin Hp'. simpl in Hin. apply in_map_iff in Hin as (r0 & <- & Hr0).
    destruct (owned u d r0) eqn:Eo; [|apply (Hc r0 p Hr0 Hp')]. unfold owned in Eo. breflect. simpl in *. simplify_eq.
    pose proof (ko_head _ Hk _ _ Hr) as Hh. rewrite Hp in Hh. destruct Hh as [l Hl].
    exists (mkKeyLog (dev_user r0) apub (prf_identity_version r)), version, issued, cert. split; [|done].
    change (In (mkKeyLog (dev_user r0) apub (prf_identity_version r)) (log_of (dev_user r0) db)). rewrite Hl.
    apply in_app_iff. right. by left.
Qed.

(** The two invariants of the identity tables. *)
Definition identities_ok (db : MsgDb) : Prop := keys_ok db /\ devices_certified db.

Definition version_in_range (op : AccountOp) : Prop :=
  forall b, op = RotateIdentity b -> (ri_based_on_version b < 2 ^ 63 - 1)%Z.

(** Every account and device route keeps them; the service-wide claim builds on this. *)
Lemma account_op_identities u op db : version_in_range op -> identities_ok db ->
  wp (apply_account_op env u op) db (fun _ db' => identities_ok db').
Proof.
  intros Hv [Hk Hc]. destruct (sets_keys op) eqn:Es.
  - destruct op; try done; apply wp_ignore.
    + apply wp_rotate; try done. intros pub rec v Hb _ _ _.
      assert (v = (key_log_head u db + 1)%Z) as Ev.
      { subst v. rewrite wrap_i64_id; [lia|]. specialize (Hv b eq_refl). rewrite Hb in *.
        destruct (head_of_chain u db (ko_chain _ Hk u)) as [Hge _]. unfold i64_range. lia. }
      split; [by apply keys_rotated|]. by eapply (certified_append u pub v db).
    + apply wp_establish; try done. intros r rec Hr Hp _. split; [by apply keys_established|].
      by eapply (certified_append u pub 1 db).
    + apply wp_publish; try done. intros r apub db' Hr Hp Hvc _ Hi. by eapply certified_installed.
  - eapply wp_mono; [by apply wp_frame|]. intros res db' Hf. split; [exact (frame_keys _ _ Hf Hk)|exact (frame_certified _ _ Hf Hc)].
Qed.
End KeyOps.

(** ** Claims *)

Section Claims.
Import AccountRoutes.
Context (env : SqlEnv) `{!Ed25519} `{!Base64}.

Lemma has_version_head u db : chain (map kl_identity_version (log_of u db)) -> has_version u (key_log_head u db + 1) db = false.
Proof.
  intros Hc. unfold has_version. apply not_true_iff_false. intros (r & Hin & Hb)%existsb_exists. breflect.
  unfold key_log_head in Hb. destruct (log_of u db) as [|r0 l _] using rev_ind; [done|].
  rewrite (max_version_chain _ _ Hc) in Hb. apply (in_map kl_identity_version) in Hin. rewrite map_app in *. simpl in *.
  destruct (map kl_identity_version l) as [|x vs]; simpl in *; [lia|]. destruct Hc as (_ & _ & Hc).
  pose proof Hc as [_ Hw]%chain_from_snoc. destruct Hin as [->|Hin]; [lia|].
  pose proof (chain_from_bound _ _ _ Hc Hin) as Hr. rewrite length_app in Hr. simpl in Hr. lia.
Qed.

(** Rotations cannot fork the account-key log.  A rotation is applied exactly at the
    head it was based on, and reports the version after it; once it is, any other
    rotation of that account based on the same version changes nothing and is not
    applied, whatever it carries. *)
Theorem rotate_no_fork (u : string) (b b' : RotateIdentityBody) (db : MsgDb) :
  keys_ok db -> (ri_based_on_version b < 2 ^ 63 - 1)%Z -> ri_based_on_version b' = ri_based_on_version b ->
  wp (apply_rotate_identity env (Some u) b) db (fun r db1 => forall v, r = Ok (RotateApplied v) ->
    ri_based_on_version b = key_log_head u db /\ v = (key_log_head u db + 1)%Z /\ key_log_head u db1 = v /\
    wp (apply_rotate_identity env (Some u) b') db1 (fun r' db2 => db2 = db1 /\ forall w, r' <> Ok (RotateApplied w))).
Proof.
  intros Hk Hb Hb'. apply wp_rotate; try done. intros pub rec v Hh _ _ _ w [= <-].
  pose proof (head_of_chain u db (ko_chain _ Hk u)) as [Hge _].
  assert (v = (key_log_head u db + 1)%Z) as Ev by (subst v; rewrite wrap_i64_id; [lia|unfold i64_range; lia]).
  pose proof (keys_rotated u pub v rec db Hk Ev) as Hk1.
  assert (key_log_head u (rotated u pub v rec db) = v) as Eh.
  { unfold key_log_head. change (log_of u (rotated u pub v rec db)) with (log_of u (append_key u pub v db)).
    pose proof (ko_chain _ Hk1 u) as Hc. change (log_of u (rotated u pub v rec db)) with (log_of u (append_key u pub v db)) in Hc.
    rewrite log_of_append, bool_decide_eq_true_2 in * by done. by rewrite max_version_chain. }
  split_and!; [done|done|done|]. apply wp_rotate; try done. intros pub' rec' v' Hh' _ _ _. exfalso. lia.
Qed.

(** The service checks certificates as the client does.  [cert.rs] accepts exactly the
    certificates [verify_device_cert] of pollis-core accepts, on every input. *)
Theorem cert_port_agrees (account_id_pub : bytes) (device : string) (pub : bytes) (version issued : N) (cert : bytes) :
  verify_device_cert account_id_pub device pub version issued cert = true <->
  DeviceCert.verify_device_cert account_id_pub device pub version issued cert = Ok tt.
Proof.
  unfold verify_device_cert, DeviceCert.verify_device_cert, device_cert_signed_payload, DeviceCert.device_cert_signed_payload.
  destruct (length account_id_pub =? 32); [|done]. destruct (length cert =? 64); [|done]. cbn [negb].
  destruct (vk_from_bytes account_id_pub) as [vk|]; [|done]. cbn [ok_or rbind].
  destruct (255 <? length (as_bytes device)); [done|]. destruct (255 <? length pub); [done|]. cbn [orb rbind].
  change DEVICE_CERT_DOMAIN with DeviceCert.DEVICE_CERT_DOMAIN. by destruct (ed_verify _ _ _).
Qed.

(** *** Key packages *)

Lemma oldest_spec l r : oldest l = Some r -> In r l /\ forall s, In s l -> text_lt (kp_created_at s) (kp_created_at r) = false.
Proof.
  destruct l as [|a l]; [done|]. cbn [oldest]. intros [= <-]. revert a. induction l as [|b l IH]; intros a; cbn [fold_left].
  { split; [by left|]. intros s [->|[]]. apply text_lt_irrefl. }
  destruct (IH (older a b)) as [Hin Hmin]. set (m := fold_left older l (older a b)) in *. clearbody m.
  unfold older in Hin, Hmin. destruct (text_lt (kp_created_at b) (kp_created_at a)) eqn:E.
  - split; [by right|]. intros s [<-|Hs]; [|by apply Hmin].
    destruct (text_lt (kp_created_at a) (kp_created_at m)) eqn:Es; [|done]. exfalso.
    pose proof (text_lt_trans _ _ _ E Es) as Hbs. rewrite (Hmin b ltac:(by left)) in Hbs. done.
  - split; [destruct Hin as [Hin|Hin]; [left; exact Hin|right; by right]|].
    intros s [Hs|[<-|Hs]]; [by apply Hmin; left| |by apply Hmin; right].
    destruct (text_lt (kp_created_at b) (kp_created_at m)) eqn:Es; [|done]. exfalso.
    pose proof (text_lt_le_trans _ _ _ Es (Hmin a ltac:(by left))) as Hsa. congruence.
Qed.

(** The claims of a list of requests, in the order they are served. *)
Fixpoint claim_all (reqs : list ClaimKeyPackageBody) (db : MsgDb) : list string * MsgDb :=
  match reqs with
  | [] => ([], db)
  | b :: reqs' =>
      let '(db1, r) := run_sql (apply_claim_key_package env b) db in
      let '(hs, db2) := claim_all reqs' db1 in
      (match r with Ok (Claimed h _) => h :: hs | _ => hs end, db2)
  end.

Definition unclaimed (db : MsgDb) (h : string) : Prop :=
  exists r, In r (key_packages (accounts db)) /\ kp_ref_hash r = h /\ kp_claimed r = false.

Lemma claim_effect b db (Q : Result ClaimOutcome SqlError -> MsgDb -> Prop) :
  (forall e, Q (Err e) db) ->
  ((forall r, In r (key_packages (accounts db)) -> eligible b r = false) -> Q (Ok NoKeyPackage) db) ->
  (forall r db', In r (key_packages (accounts db)) -> eligible b r = true ->
     (forall s, In s (key_packages (accounts db)) -> eligible b s = true -> text_lt (kp_created_at s) (kp_created_at r) = false) ->
     (forall h, unclaimed db' h <-> unclaimed db h /\ h <> kp_ref_hash r) ->
     Q (Ok (Claimed (kp_ref_hash r) (kp_key_package r))) db') ->
  wp (apply_claim_key_package env b) db Q.
Proof.
  intros He Hn Hc. unfold apply_claim_key_package. wp_step; wp_step; [done|]. apply wp_ret.
  match goal with H : claim_statement _ _ = Some _ |- _ => unfold claim_statement in H;
    destruct (oldest (List.filter (eligible b) (key_packages (accounts db)))) as [r|] eqn:Eo; injection H as <- <- end.
  - apply oldest_spec in Eo as [[Hin Hel]%filter_In Hmin]. apply Hc; [done|done| |].
    + intros s Hs Hes. apply Hmin, filter_In. done.
    + intros h. unfold unclaimed. simpl. split.
      * intros (s & (s0 & <- & Hs0)%in_map_iff & Hh & Hcl). case_bool_decide as E; [done|]. split; [by exists s0|congruence].
      * intros [(s & Hs & Hh & Hcl) Hne]. exists s. split; [|done]. apply in_map_iff. exists s. split; [|done].
        by rewrite bool_decide_eq_false_2 by congruence.
  - apply Hn. intros r Hr. destruct (eligible b r) eqn:E; [|done]. exfalso.
    assert (In r (List.filter (eligible b) (key_packages (accounts db)))) as Hf by (by apply filter_In).
    destruct (List.filter _ _); done.
Qed.

Lemma claim_all_unclaimed reqs db : let '(hs, db') := claim_all reqs db in
  NoDup hs /\ (forall h, In h hs -> unclaimed db h) /\ (forall h, unclaimed db' h -> unclaimed db h /\ ~ In h hs).
Proof.
  revert db. induction reqs as [|b reqs IH]; intros db; cbn [claim_all]; [split_and!; [constructor|done|auto]|].
  assert (let '(db1, r) := run_sql (apply_claim_key_package env b) db in
    match r with
    | Ok (Claimed h _) => unclaimed db h /\ forall h', unclaimed db1 h' <-> unclaimed db h' /\ h' <> h
    | _ => db1 = db end) as Hstep.
  { apply (claim_effect b db (fun r db1 => match r with
      | Ok (Claimed h _) => unclaimed db h /\ forall h', unclaimed db1 h' <-> unclaimed db h' /\ h' <> h | _ => db1 = db end)); try done.
    intros r db' Hin Hel _ Hu. split; [|done]. exists r. unfold eligible in Hel. by breflect. }
  destruct (run_sql (apply_claim_key_package env b) db) as [db1 r]. specialize (IH db1). destruct (claim_all reqs db1) as [hs db2].
  destruct IH as (Hnd & Hin & Hun). destruct r as [[h kp|]|e]; [|subst db1; done..].
  destruct Hstep as [Hh Hiff]. split_and!.
  - constructor; [|done]. intros Hx%list_elem_of_In. apply Hin, Hiff in Hx as [_ Hx]. done.
  - intros h' [<-|Hx]; [done|]. apply Hin, Hiff in Hx as [Hx _]. done.
  - intros h' Hx. apply Hun in Hx as [Hx Hni]. apply Hiff in Hx as [Hx Hne]. split; [done|]. intros [E|Hi]; [congruence|done].
Qed.

(** A key package is handed out at most once.  Over any sequence of claims, by anyone
    and for any target, with any statement failing, no package is returned twice, and
    every returned package was unclaimed at the start. *)
Theorem claims_exclusive (reqs : list ClaimKeyPackageBody) (db : MsgDb) :
  NoDup (claim_all reqs db).1 /\ forall h, In h (claim_all reqs db).1 -> unclaimed db h.
Proof. pose proof (claim_all_unclaimed reqs db) as H1. destruct (claim_all reqs db) as [hs db']. naive_solver. Qed.
End Claims.

(** ** Each route stays inside the signer's account *)

Section SelfScope.
Import AccountRoutes.
Context (env : SqlEnv) `{!Ed25519} `{!Base64}.

(** What belongs to other users. *)
Record others_kept (u : string) (db db' : MsgDb) : Prop := {
  ok_users : forall v, v <> u -> users db' !! v = users db !! v;
  ok_preferences : forall v, v <> u -> preferences db' !! v = preferences db !! v;
  ok_log : forall v, v <> u -> log_of v db' = log_of v db;
  ok_recovery : forall v, v <> u -> recovery (accounts db') !! v = recovery (accounts db) !! v;
  ok_devices : List.filter (fun d => negb (bool_decide (dev_user d = u))) (devices db') =
               List.filter (fun d => negb (bool_decide (dev_user d = u))) (devices db);
  ok_packages : List.filter (fun r => negb (package_of u r)) (key_packages (accounts db')) =
                List.filter (fun r => negb (package_of u r)) (key_packages (accounts db));
  ok_enrollments : changed (fun _ old new => (forall r, old = Some r -> enr_user_id r = u) /\
      (forall r, new = Some r -> enr_user_id r = u)) (enrollments (accounts db)) (enrollments (accounts db'));
  ok_events : changed (fun _ old new => (forall r, old = Some r -> evt_user_id r = u) /\
      (forall r, new = Some r -> evt_user_id r = u)) (security_events (accounts db)) (security_events (accounts db'));
  ok_tokens : changed (fun _ old new => exists r, new = Some r /\ ptk_user_id r = u)
      (push_tokens (accounts db)) (push_tokens (accounts db'))
}.

Lemma others_kept_refl u db : others_kept u db db.
Proof. split; auto with pollis. Qed.

#[local] Hint Resolve others_kept_refl : pollis.

(** Statements on tables that are not per-account. *)
Lemma ok_same u db db1 db2 : others_kept u db db1 -> users db2 = users db1 -> preferences db2 = preferences db1 ->
  devices db2 = devices db1 -> accounts db2 = accounts db1 -> others_kept u db db2.
Proof. intros [] E1 E2 E3 E4. split; rewrite ?E1, ?E2, ?E3, ?E4; try done. intros v Hv. unfold log_of. rewrite E4. by apply ok_log0. Qed.

Lemma ok_set_group_members u db db1 f : others_kept u db db1 -> others_kept u db (set_group_members f db1).
Proof. intros Hs. by eapply ok_same. Qed.

Lemma ok_set_watermarks u db db1 f : others_kept u db db1 -> others_kept u db (set_watermarks f db1).
Proof. intros Hs. by eapply ok_same. Qed.

Lemma ok_delete_devices u db db1 p : others_kept u db db1 -> (forall d, p d = true -> dev_user d = u) ->
  others_kept u db (delete_devices p db1).
Proof.
  intros [] Hp. split; try done. simpl. rewrite <- ok_devices0, filter_filter. apply List.filter_ext. intros d.
  destruct (p d) eqn:E; simpl; [by rewrite (bool_decide_eq_true_2 _ (Hp d E))|done].
Qed.

Lemma ok_map_devices u db db1 f : others_kept u db db1 -> (forall d, dev_user (f d) = dev_user d) ->
  (forall d, dev_user d <> u -> f d = d) -> others_kept u db (set_devices (map f) db1).
Proof.
  intros [] Hu Hf. split; try done. simpl. rewrite <- ok_devices0. clear - Hu Hf. induction (devices db1) as [|d l IH]; [done|].
  simpl. rewrite Hu. case_bool_decide as E; simpl; [done|]. by rewrite Hf, IH.
Qed.

Lemma ok_delete_packages u db db1 p : others_kept u db db1 -> (forall r, p r = true -> package_of u r = true) ->
  others_kept u db (delete_packages p db1).
Proof.
  intros [] Hp. split; try done. simpl. rewrite <- ok_packages0, filter_filter. apply List.filter_ext. intros r.
  destruct (p r) eqn:E; simpl; [by rewrite (Hp r E)|done].
Qed.

Lemma ok_insert_package u d p db db1 db2 : others_kept u db db1 -> insert_package env u d p db1 = Some db2 -> others_kept u db db2.
Proof.
  intros [] Hi. unfold insert_package in Hi. destruct (fk_holds _ _); [|done]. injection Hi as <-. split; try done. simpl.
  destruct (existsb _ _); [done|]. rewrite List.filter_app. simpl. unfold package_of at 2. simpl.
  rewrite bool_decide_eq_true_2 by done. by rewrite app_nil_r.
Qed.

Lemma ok_device_info u db db1 f : others_kept u db db1 -> others_kept u db (set_device_info f db1).
Proof. intros []. by split. Qed.

Lemma ok_append_key u pub v db db1 : others_kept u db db1 -> others_kept u db (append_key u pub v db1).
Proof.
  intros []. split; try done. intros w Hw. rewrite log_of_append, bool_decide_eq_false_2 by congruence.
  rewrite app_nil_r. by apply ok_log0.
Qed.

Lemma ok_set_users u db db1 f : others_kept u db db1 -> (forall v, v <> u -> f (users db1) !! v = users db1 !! v) ->
  others_kept u db (set_users f db1).
Proof. intros [] Hf. split; try done. intros v Hv. simpl. rewrite Hf by done. by apply ok_users0. Qed.

Lemma ok_set_recovery u db db1 f : others_kept u db db1 ->
  (forall v, v <> u -> f (recovery (accounts db1)) !! v = recovery (accounts db1) !! v) -> others_kept u db (set_recovery f db1).
Proof. intros [] Hf. split; try done. intros v Hv. simpl. rewrite Hf by done. by apply ok_recovery0. Qed.

Lemma ok_set_preferences u db db1 f : others_kept u db db1 ->
  (forall v, v <> u -> f (preferences db1) !! v = preferences db1 !! v) -> others_kept u db (set_preferences f db1).
Proof. intros [] Hf. split; try done. intros v Hv. simpl. rewrite Hf by done. by apply ok_preferences0. Qed.

Lemma ok_set_enrollments u db db1 f : others_kept u db db1 ->
  changed (fun _ old new => (forall r, old = Some r -> enr_user_id r = u) /\ (forall r, new = Some r -> enr_user_id r = u))
    (enrollments (accounts db)) (f (enrollments (accounts db1))) -> others_kept u db (set_enrollments f db1).
Proof. intros [] Hf. by split. Qed.

Lemma ok_set_events u db db1 f : others_kept u db db1 ->
  changed (fun _ old new => (forall r, old = Some r -> evt_user_id r = u) /\ (forall r, new = Some r -> evt_user_id r = u))
    (security_events (accounts db)) (f (security_events (accounts db1))) -> others_kept u db (set_security_events f db1).
Proof. intros [] Hf. by split. Qed.

(** Deleting the user's own rows of a table keyed by something else. *)
Lemma own_rows_gone {A} (owner : A -> string) u (m m1 : gmap string A) :
  changed (fun _ old new => (forall r, old = Some r -> owner r = u) /\ (forall r, new = Some r -> owner r = u)) m m1 ->
  changed (fun _ old new => (forall r, old = Some r -> owner r = u) /\ (forall r, new = Some r -> owner r = u)) m
    (delete_where (fun _ r => bool_decide (owner r = u)) m1).
Proof.
  intros Hc. apply changed_delete_where; [done|]. intros k a Ha Hb. breflect. right. split; [|done].
  intros r Hr. destruct (Hc k) as [E|[E _]]; [congruence|auto].
Qed.

Lemma ok_cascade u db db1 : others_kept u db db1 -> others_kept u db (cascade_user u db1).
Proof.
  intros Hs. unfold cascade_user. cbv zeta.
  set (db2 := set_blocks _ _). assert (others_kept u db db2) as H2 by (eapply ok_same; [exact Hs|done..]). clearbody db2.
  set (db3 := set_preferences _ db2). assert (others_kept u db db3) as H3.
  { apply ok_set_preferences; [done|]. intros v Hv. by apply lookup_delete_ne. }
  clearbody db3. apply ok_set_events; [apply ok_set_enrollments; [apply ok_set_recovery; [apply ok_delete_packages;
    [apply ok_delete_devices; [exact H3|]|]|]|]|].
  - intros d E. by breflect.
  - done.
  - intros v Hv. simpl. by rewrite lookup_delete_ne.
  - apply own_rows_gone, (ok_enrollments _ _ _ H3).
  - apply own_rows_gone, (ok_events _ _ _ H3).
Qed.

Lemma ok_delete_user_row u db db1 db2 : others_kept u db db1 -> delete_user_row env u db1 = Some db2 -> others_kept u db db2.
Proof.
  intros Hs. unfold delete_user_row. destruct (users db1 !! u); [|by intros [= <-]]. cbv zeta.
  assert (others_kept u db (set_users (delete u) db1)) as Hd
    by (apply ok_set_users; [done|]; intros v Hv; by rewrite lookup_delete_ne).
  destruct (fk env); [destruct (reviewed_by _ _); [done|]|]; intros [= <-]; [by apply ok_cascade|done].
Qed.

Lemma wp_bind_kept {A B} u (m : Sql A) (k : A -> Sql B) db db1 (Q : Result B SqlError -> MsgDb -> Prop) :
  wp m db1 (fun _ db' => others_kept u db db') -> (forall e db', others_kept u db db' -> Q (Err e) db') ->
  (forall a db', others_kept u db db' -> wp (k a) db' Q) -> wp (bind m k) db1 Q.
Proof. intros Hm He Hk. apply wp_bind. eapply wp_mono; [exact Hm|]. intros [a|e] db' Hs; auto. Qed.

Lemma kept_handoff u db : wp (handoff_group_ownership env u) db (fun _ db' => others_kept u db db').
Proof.
  unfold handoff_group_ownership. repeat wp_step; [auto with pollis|]. apply wp_for_each; [auto with pollis|].
  intros [g role] db' _ Hs. unfold hand_off. repeat wp_step; simplify_eq; auto; try (eapply ok_same; [exact Hs|done..]).
  unfold GroupRoutes.delete_group_row. destruct (fk env); (eapply ok_same; [exact Hs|done..]).
Qed.

Lemma kept_delete_account u b db : wp (apply_delete_account env (Some u) b) db (fun _ db' => others_kept u db db').
Proof.
  apply wp_as_actor; [auto with pollis|]. wp_step; [auto with pollis|].
  eapply (wp_bind_kept u _ _ db); [apply kept_handoff|done|]. intros _ db1 Hs. repeat wp_step; try done. simplify_eq.
  eapply ok_delete_user_row; [|eassumption]. apply ok_set_group_members, ok_delete_packages; [|done].
  eapply ok_same; [exact Hs|done..].
Qed.

Lemma kept_reset_recover u b db : wp (apply_reset_recover env (Some u) b) db (fun _ db' => others_kept u db db').
Proof.
  apply wp_as_actor; [auto with pollis|]. wp_step; [auto with pollis|].
  eapply (wp_bind_kept u _ _ db); [apply kept_handoff|done|]. intros _ db1 Hs. repeat wp_step; try done. simplify_eq.
  apply ok_delete_devices; [|intros d E; by breflect]. apply ok_delete_packages; [|done]. eapply ok_same; [exact Hs|done..].
Qed.

Lemma kept_publish_packages u b db : wp (apply_publish_key_packages env (Some u) b) db (fun _ db' => others_kept u db db').
Proof.
  apply wp_as_actor; [auto with pollis|]. eapply (wp_bind_kept u _ _ db).
  - apply wp_for_each; [auto with pollis|]. intros pkg db' _ Hs. repeat wp_step; try done. by eapply ok_insert_package.
  - done.
  - intros _ db' Hs. by apply wp_ret.
Qed.

Lemma kept_replenish u b db : wp (apply_replenish_key_packages env (Some u) b) db (fun _ db' => others_kept u db db').
Proof.
  apply wp_as_actor; [auto with pollis|]. do 3 (wp_step; auto with pollis). wp_step; wp_step; [done|]. simplify_eq.
  eapply (wp_bind_kept u _ _ db).
  - apply wp_for_each; [apply ok_delete_packages; [auto with pollis|intros r E; by breflect]|].
    intros p db' _ Hs. repeat wp_step; [done|]. by eapply ok_insert_package.
  - done.
  - intros _ db' Hs. by apply wp_ret.
Qed.

Lemma kept_resign u b db : wp (apply_resign_device_certs env (Some u) b) db (fun _ db' => others_kept u db db').
Proof.
  apply wp_as_actor; [auto with pollis|]. wp_step; [auto with pollis|]. eapply (wp_bind_kept u _ _ db).
  - apply wp_for_each; [auto with pollis|]. intros c db' _ Hs. repeat wp_step; try done.
    destruct (is_owned _ _ _); simplify_eq; [by apply ok_device_info|done].
  - done.
  - intros _ db' Hs. by apply wp_ret.
Qed.

Lemma kept_enrollment u id f n db db' : (forall r, enr_user_id (f r) = enr_user_id r) ->
  update_enrollment id u f db = Some (db', n) -> others_kept u db db'.
Proof.
  intros Hf. unfold update_enrollment. destruct (enrollments (accounts db) !! id) as [r|] eqn:Er;
    [case_bool_decide as E|]; intros [= <- _]; auto with pollis.
  apply ok_set_enrollments; [auto with pollis|]. apply changed_insert; [auto with pollis|].
  split; intros r0 Hr0; [congruence|]. injection Hr0 as <-. by rewrite Hf.
Qed.

Lemma kept_establish u pub salt nonce wrapped db :
  wp (apply_establish_identity env u pub salt nonce wrapped) db (fun _ db' => others_kept u db db').
Proof.
  apply wp_establish; auto with pollis. intros r rec _ _ _. apply ok_set_recovery.
  - apply ok_append_key, ok_set_users; [auto with pollis|]. intros v Hv. by rewrite lookup_insert_ne.
  - intros v Hv. by rewrite lookup_insert_ne.
Qed.

Lemma kept_rotate u b db : wp (apply_rotate_identity env (Some u) b) db (fun _ db' => others_kept u db db').
Proof.
  apply wp_rotate; auto with pollis. intros pub rec v _ _ _ _. apply ok_set_recovery.
  - apply ok_set_users; [by apply ok_append_key; auto with pollis|]. intros w Hw. by rewrite lookup_alter_ne.
  - intros w Hw. by rewrite lookup_insert_ne.
Qed.

Lemma kept_publish u d cert issued version pub db :
  wp (apply_publish_device_cert env u d cert issued version pub) db (fun _ db' => others_kept u db db').
Proof.
  apply wp_publish; auto with pollis. intros r apub db' _ _ _ _ Hi. unfold install_key in Hi.
  destruct (is_owned u d db); [injection Hi as <-|done]. apply ok_device_info, ok_map_devices; [auto with pollis|..].
  - intros x. by destruct (owned u d x).
  - intros x Hx. unfold owned. by rewrite (bool_decide_eq_false_2 (dev_user x = u)), andb_false_r.
Qed.

Lemma kept_register u d name db : wp (apply_register_device env u d name) db (fun _ db' => others_kept u db db').
Proof.
  unfold apply_register_device. repeat wp_step; auto with pollis. simplify_eq.
  apply ok_set_watermarks, ok_set_watermarks. match goal with H : upsert_device _ _ _ _ _ = Some _ |- _ => unfold upsert_device in H end.
  destruct (existsb _ _); simplify_eq; [by apply ok_device_info; auto with pollis|].
  destruct (fk_holds _ _); simplify_eq. apply ok_device_info. split; simpl; auto with pollis.
  rewrite List.filter_app. simpl. rewrite bool_decide_eq_true_2 by done. by rewrite app_nil_r.
Qed.

Lemma account_op_kept (u : string) (op : AccountOp) (db : MsgDb) :
  (forall b, op <> ClaimKeyPackage b) -> wp (apply_account_op env u op) db (fun _ db' => others_kept u db db').
Proof.
  intros Hn. destruct op; simpl; try apply wp_ignore; try (by destruct (Hn b)).
  - apply kept_rotate.
  - apply wp_as_actor; [auto with pollis|]. repeat wp_step; [auto with pollis|]. destruct (fk_holds _ _); [|done].
    match goal with H : _ <$> _ = Some _ |- _ => apply fmap_Some in H as (m & [Hm ->]%insert_new_Some & ->) end.
    apply ok_set_events; [auto with pollis|]. apply changed_insert; [auto with pollis|]. rewrite Hm. split; [done|].
    by intros r [= <-].
  - apply wp_as_actor; [auto with pollis|]. repeat wp_step; auto with pollis. by eapply kept_enrollment; [|eassumption].
  - apply wp_as_actor; [auto with pollis|]. repeat wp_step; auto with pollis. by eapply kept_enrollment; [|eassumption].
  - apply wp_as_actor; [auto with pollis|]. repeat wp_step; auto with pollis. simplify_eq.
    apply ok_map_devices; [apply ok_delete_packages; [auto with pollis|intros r E; by breflect]|..].
    + intros x. by destruct (_ && _).
    + intros x Hx. unfold owned. by rewrite (bool_decide_eq_false_2 (dev_user x = u)), andb_false_r.
  - apply wp_as_actor; [auto with pollis|]. repeat wp_step; simplify_eq; auto with pollis.
    apply ok_delete_devices; [auto with pollis|]. intros x E. unfold owned in E. by breflect.
  - apply kept_reset_recover.
  - apply kept_delete_account.
  - apply kept_publish_packages.
  - apply kept_replenish.
  - apply kept_resign.
  - apply wp_as_actor; [auto with pollis|]. repeat wp_step; simplify_eq; auto with pollis.
    split; simpl; auto with pollis. apply changed_insert; [auto with pollis|]. by eexists.
  - apply kept_establish.
  - apply kept_register.
  - apply kept_publish.
  - unfold apply_enrollment_request. repeat wp_step; [auto with pollis|]. destruct (fk_holds _ _); [|done].
    match goal with H : _ <$> _ = Some _ |- _ => apply fmap_Some in H as (m & [Hm ->]%insert_new_Some & ->) end.
    apply ok_set_enrollments; [auto with pollis|]. apply changed_insert; [auto with pollis|]. rewrite Hm. split; [done|].
    by intros r [= <-].
Qed.

(** Account routes are self-scoped.  Whatever a request to an account or device route
    does for its user, with any statement failing, nothing of another user changes: not
    their profile or preferences, identity keys, recovery blob, devices and device keys,
    key packages, enrolment requests or security events; and a push token is only ever
    assigned to the requester.  (Claiming a key package is the one route made to take from
    another account, and is excluded.) *)
Theorem account_ops_self_scoped (u : string) (op : AccountOp) (db : MsgDb) :
  (forall b, op <> ClaimKeyPackage b) -> wp (apply_account_op env u op) db (fun _ db' => others_kept u db db').
Proof. by apply account_op_kept. Qed.
End SelfScope.

(** ** The group hand-off *)

Section HandOff.
Import AccountRoutes.
Context (env : SqlEnv) `{!Ed25519} `{!Base64}.

(** Every group with a member has an admin. *)
Definition administered (db : MsgDb) : Prop := forall g v, belongs db g v -> exists a, admin db g a.

(** Group [g] can lose [u]: nobody else is in it, or another admin is. *)
Definition can_lose (u : string) (db : MsgDb) (g : string) : Prop :=
  (forall v, belongs db g v -> v = u) \/ exists a, a <> u /\ admin db g a.

(** Only rows of [g] differ. *)
Definition only_group (g : string) (db db' : MsgDb) : Prop :=
  forall g' v, g' <> g -> group_members db' !! (g', v) = group_members db !! (g', v).

Lemma in_others_of g u db v role : In (v, role) (others_of g u db) <-> group_members db !! (g, v) = Some role /\ v <> u.
Proof.
  unfold others_of. rewrite in_map_iff. split.
  - intros ([[g' v'] r] & E & [Hin Hb]%filter_In). simpl in *. apply pair_equal_spec in E as [-> ->]. breflect. subst g'.
    split; [|done]. by apply list_elem_of_In, elem_of_map_to_list in Hin.
  - intros [Hl Hne]. exists (g, v, role). split; [done|]. apply filter_In. split; [by apply list_elem_of_In, elem_of_map_to_list|].
    simpl. rewrite bool_decide_eq_true_2, bool_decide_eq_false_2; done.
Qed.

Lemma any_row_In {A} (l : list A) : l <> [] -> exists a, any_row env l = Some a /\ In a l.
Proof.
  intros Hl. unfold any_row. destruct (nth_error l (row_choice env mod length l)) as [a|] eqn:E.
  - exists a. split; [done|]. by apply nth_error_In in E.
  - apply nth_error_None in E. assert (row_choice env mod length l < length l)%nat; [|lia]. apply Nat.mod_upper_bound.
    by destruct l.
Qed.

(** A group with at most one member, one of them [u]. *)
Lemma count_sole g u db v : GroupRoutes.member_count g db <= 1 -> belongs db g u -> belongs db g v -> v = u.
Proof.
  unfold GroupRoutes.member_count. intros Hc [r1 Hu] [r2 Hv].
  set (l := List.filter (GroupRoutes.in_group g) (map fst (map_to_list (group_members db)))) in *.
  assert (forall w r, group_members db !! (g, w) = Some r -> In (g, w) l) as Hin.
  { intros w r Hw. apply filter_In. split; [|unfold GroupRoutes.in_group; by rewrite bool_decide_eq_true_2].
    apply in_map_iff. exists ((g, w), r). split; [done|]. by apply list_elem_of_In, elem_of_map_to_list. }
  pose proof (Hin _ _ Hu) as Iu. pose proof (Hin _ _ Hv) as Iv. clearbody l. destruct l as [|x [|y l]]; simpl in *; [done| |lia].
  destruct Iu as [->|[]], Iv as [E|[]]. congruence.
Qed.

Lemma count_others g u db : ~ (GroupRoutes.member_count g db <= 1) -> exists v, v <> u /\ belongs db g v.
Proof.
  unfold GroupRoutes.member_count. intros Hc.
  set (l := List.filter (GroupRoutes.in_group g) (map fst (map_to_list (group_members db)))) in *.
  assert (NoDup l) as Hnd by (apply NoDup_ListNoDup, List.NoDup_filter, NoDup_ListNoDup, NoDup_fst_map_to_list).
  assert (forall k, In k l -> k.1 = g /\ is_Some (group_members db !! k)) as Hin.
  { intros k [Hk Hb]%filter_In. unfold GroupRoutes.in_group in Hb. breflect. split; [done|].
    apply in_map_iff in Hk as ([k' r] & <- & Hk). apply list_elem_of_In, elem_of_map_to_list in Hk. by eexists. }
  clearbody l. destruct l as [|[g1 x] [|[g2 y] l]]; simpl in *; [lia|lia|].
  destruct (Hin (g1, x) ltac:(by left)) as [E1 Hx]. destruct (Hin (g2, y) ltac:(right; by left)) as [E2 Hy]. simpl in E1, E2. subst g1 g2.
  apply NoDup_cons in Hnd as [Hne _]. destruct (decide (x = u)) as [->|Hxu]; [|by exists x].
  exists y. split; [|done]. intros ->. apply Hne. by left.
Qed.

Lemma member_dec g db : (exists v, belongs db g v) \/ forall v, ~ belongs db g v.
Proof.
  destruct (List.filter (GroupRoutes.in_group g) (map fst (map_to_list (group_members db)))) as [|[g' v] l] eqn:E.
  - right. intros v [r Hv]. eapply member_count_zero; [|exact Hv]. unfold GroupRoutes.member_count. by rewrite E.
  - left. exists v. assert (In (g', v) ((g', v) :: l)) as Hin by (by left). rewrite <- E in Hin. apply filter_In in Hin as [Hin Hb].
    unfold GroupRoutes.in_group in Hb. breflect. simpl in Hb. subst g'. apply in_map_iff in Hin as ([k r] & Hk & Hin).
    simpl in Hk. subst k. apply list_elem_of_In, elem_of_map_to_list in Hin. by eexists.
Qed.

Lemma other_admins_spec g u db : other_admins g u db <> 0 -> exists a, a <> u /\ admin db g a.
Proof.
  unfold other_admins. intros Hn. destruct (List.filter _ _) as [|[v r] l] eqn:E; [done|].
  assert (In (v, r) ((v, r) :: l)) as Hin by (by left). rewrite <- E in Hin. apply filter_In in Hin as [Hin Hb]. breflect.
  simpl in Hb. subst r. apply in_others_of in Hin as [Hl Hne]. by exists v.
Qed.

Lemma delete_group_row_members g db k : group_members (GroupRoutes.delete_group_row env g db) !! k =
  if fk env && bool_decide (k.1 = g) then None else group_members db !! k.
Proof.
  unfold GroupRoutes.delete_group_row. destruct (fk env); simpl; [|done]. rewrite lookup_delete_where.
  unfold GroupRoutes.in_group. destruct (group_members db !! k); by case_bool_decide.
Qed.

(** One group handed off. *)
Lemma wp_hand_off_safe u g role db (Q : Result unit SqlError -> MsgDb -> Prop) :
  group_members db !! (g, u) = Some role -> (exists a, admin db g a) -> (forall e d, Q (Err e) d) ->
  (forall db', only_group g db db' -> can_lose u db' g -> Q (Ok tt) db') -> wp (hand_off env u (g, role)) db Q.
Proof.
  intros Hu [a Ha] He HQ. unfold hand_off. wp_step; wp_step; [done|]. destruct (Nat.leb_spec (GroupRoutes.member_count g db) 1) as [Hc|Hc].
  { wp_step; [done|]. simplify_eq. apply HQ.
    - intros g' v Hne. rewrite delete_group_row_members. simpl. by rewrite bool_decide_eq_false_2, andb_false_r.
    - left. intros v [r Hv]. rewrite delete_group_row_members in Hv. destruct (fk env && _); [done|].
      eapply count_sole; [exact Hc|by eexists|by eexists]. }
  case_bool_decide as Er.
  2: { apply wp_ret, HQ; [done|]. right. exists a. split; [|done]. intros ->. unfold admin in Ha. congruence. }
  wp_step; wp_step; [done|]. destruct (Nat.eqb_spec (other_admins g u db) 0) as [Eo|Eo].
  2: { apply wp_ret, HQ; [done|]. right. by apply other_admins_spec. }
  wp_step; wp_step; [done|].
  destruct (count_others g u db ltac:(lia)) as (v & Hv & [rv Hrv]).
  destruct (any_row_In (others_of g u db)) as ([w rw] & -> & [Hw Hne]%in_others_of).
  { intros En. assert (In (v, rv) []) as Hin; [rewrite <- En; by apply in_others_of|done]. }
  simpl. wp_step; [done|]. simplify_eq. apply HQ.
  - intros g' v' Hg. simpl. rewrite lookup_alter_ne; [done|congruence].
  - right. exists w. split; [done|]. unfold admin. simpl. by rewrite lookup_alter_eq, Hw.
Qed.

(** The loop leaves every group able to lose [u]. *)
Lemma wp_hand_offs u l db (Q : Result unit SqlError -> MsgDb -> Prop) :
  NoDup l.*1 -> (forall g role, In (g, role) l -> group_members db !! (g, u) = Some role /\ exists a, admin db g a) ->
  (forall g, ~ In g l.*1 -> can_lose u db g) -> (forall e d, Q (Err e) d) ->
  (forall db', (forall g, can_lose u db' g) -> Q (Ok tt) db') -> wp (for_each l (hand_off env u)) db Q.
Proof.
  intros Hnd Hl Hsafe He HQ. revert db Hnd Hl Hsafe. induction l as [|[g role] l IH]; intros db Hnd Hl Hsafe; simpl.
  { apply wp_ret, HQ. intros g. apply Hsafe. auto. }
  destruct (Hl g role ltac:(by left)) as [Hu Ha]. wp_step. apply wp_hand_off_safe; [done|done|done|].
  intros db' Hog Hc. simpl in Hnd. apply NoDup_cons in Hnd as [Hni Hnd]. apply IH; [done|..].
  - intros g' role' Hin. assert (g' <> g) as Hne.
    { intros ->. apply Hni. apply list_elem_of_In. by apply (in_map fst) in Hin. }
    destruct (Hl g' role' ltac:(by right)) as [Hu' [a Ha']]. split; [by rewrite Hog|]. exists a. unfold admin. by rewrite Hog.
  - intros g' Hni'. destruct (decide (g' = g)) as [->|Hne]; [done|].
    assert (can_lose u db g') as [Hs|(a & Hau & Haa)] by (apply Hsafe; simpl; intros [->|?]; done).
    + left. intros v [r Hv]. apply Hs. exists r. by rewrite <- Hog.
    + right. exists a. split; [done|]. unfold admin. by rewrite Hog.
Qed.

Lemma in_memberships u db g role : In (g, role) (memberships u db) <-> group_members db !! (g, u) = Some role.
Proof.
  unfold memberships. rewrite in_map_iff. split.
  - intros ([[g' v'] r] & E & [Hin Hb]%filter_In). simpl in *. apply pair_equal_spec in E as [-> ->]. breflect. subst v'.
    by apply list_elem_of_In, elem_of_map_to_list in Hin.
  - intros Hl. exists (g, u, role). split; [done|]. apply filter_In. split; [by apply list_elem_of_In, elem_of_map_to_list|].
    simpl. by apply bool_decide_eq_true_2.
Qed.

Lemma memberships_NoDup u db : NoDup (memberships u db).*1.
Proof.
  unfold memberships. pose proof (NoDup_fst_map_to_list (group_members db)) as Hnd.
  induction (map_to_list (group_members db)) as [|[[g v] r] l IH]; simpl in *; [constructor|].
  apply NoDup_cons in Hnd as [Hni Hnd]. case_bool_decide as E; simpl; [|by apply IH]. constructor; [|by apply IH].
  intros ([g' r'] & Eg & Hin)%list_elem_of_fmap. simpl in Eg. subst g'.
  apply list_elem_of_In, in_map_iff in Hin as ([[g2 v2] r2] & E2 & [Hin Hb]%filter_In). simpl in *.
  apply pair_equal_spec in E2 as [-> ->]. breflect. subst v2 v. apply Hni. apply list_elem_of_fmap. exists ((g, u), r').
  split; [done|]. by apply list_elem_of_In.
Qed.

Lemma wp_handoff_safe u db (Q : Result unit SqlError -> MsgDb -> Prop) : administered db -> (forall e d, Q (Err e) d) ->
  (forall db', (forall g, can_lose u db' g) -> Q (Ok tt) db') -> wp (handoff_group_ownership env u) db Q.
Proof.
  intros Ha He HQ. unfold handoff_group_ownership. wp_step; wp_step; [done|]. apply wp_hand_offs; [apply memberships_NoDup| | |done|done].
  - intros g role Hin%in_memberships. split; [done|]. apply (Ha g u). by eexists.
  - intros g Hni. destruct (group_members db !! (g, u)) as [r|] eqn:E.
    { exfalso. apply Hni. apply (in_map fst (memberships u db) (g, r)). by apply in_memberships. }
    destruct (member_dec g db) as [[v Hv]|Hno].
    { right. destruct (Ha g v Hv) as [a Haa]. exists a. split; [|done]. intros ->. unfold admin in Haa. congruence. }
    left. intros v Hv. exfalso. by apply (Hno v).
Qed.

(** Taking [u] out of groups that can lose it. *)
Lemma administered_without u db db' : (forall g, can_lose u db g) ->
  (forall g v, group_members db' !! (g, v) = if bool_decide (v = u) then None else group_members db !! (g, v)) -> administered db'.
Proof.
  intros Hs Hm g v [r Hv]. rewrite Hm in Hv. case_bool_decide as E; [done|].
  destruct (Hs g) as [Ho|(a & Hau & Ha)]; [exfalso; apply E, Ho; by eexists|]. exists a. unfold admin. rewrite Hm.
  by rewrite bool_decide_eq_false_2.
Qed.

Lemma lookup_without (u : string) (m : gmap (string * string) string) (g v : string) :
  delete_where (fun k _ => bool_decide (k.2 = u)) m !! (g, v) = if bool_decide (v = u) then None else m !! (g, v).
Proof. rewrite lookup_delete_where. simpl. destruct (m !! (g, v)); by case_bool_decide. Qed.

Lemma delete_user_row_members u db db' g v : delete_user_row env u db = Some db' ->
  (forall w, group_members db !! (w, u) = None) -> group_members db' !! (g, v) = group_members db !! (g, v).
Proof.
  intros E Hn. unfold delete_user_row in E. destruct (users db !! u); [|by injection E as <-]. cbv zeta in E.
  destruct (fk env); [destruct (reviewed_by _ _); [done|]|]; injection E as <-; [|done].
  change (delete_where (fun k (_ : string) => bool_decide (k.2 = u)) (group_members db) !! (g, v) = group_members db !! (g, v)).
  rewrite lookup_without. case_bool_decide as Ev; [by subst v; rewrite Hn|done].
Qed.

(** Leaving an account behind leaves no group without an admin.  If every group with
    members has an admin, it is so again after an account deletion or an identity reset
    goes through, whichever successor the database picks. *)
Theorem deletion_keeps_admins (u : string) (del : DeleteAccountBody) (rst : ResetRecoverBody) (db : MsgDb) : administered db ->
  wp (apply_delete_account env (Some u) del) db (fun r db' => r = Ok Applied -> administered db') /\
  wp (apply_reset_recover env (Some u) rst) db (fun r db' => r = Ok Applied -> administered db').
Proof.
  intros Ha. split; (apply wp_as_actor; [done|]; wp_step; [done|]; wp_step; apply wp_handoff_safe; [done|done|]);
    intros db1 Hs; repeat wp_step; try done; simplify_eq; intros _; apply (administered_without u db1); try done; intros g v.
  - match goal with H : delete_user_row _ _ _ = Some _ |- _ => erewrite (delete_user_row_members _ _ _ _ _ H) end.
    + simpl. apply lookup_without.
    + intros w. simpl. rewrite lookup_without. by rewrite bool_decide_eq_true_2.
  - simpl. apply lookup_without.
Qed.
End HandOff.

(** ** What deletion does not reach *)

Section Deletion.
Import AccountRoutes.
Context (env : SqlEnv) `{!Ed25519} `{!Base64}.

(** A statement sequence that keeps the user's row and one join request it reviewed. *)
Definition reviewer (u id : string) (j : JoinRow) (db : MsgDb) : Prop :=
  is_Some (users db !! u) /\ join_requests db !! id = Some j /\ group_members db !! (joi_group_id j, u) = None.

Lemma reviewer_hand_off u id j g role db : g <> joi_group_id j -> reviewer u id j db ->
  wp (hand_off env u (g, role)) db (fun _ db' => reviewer u id j db').
Proof.
  intros Hg (Hu & Hj & Hm). assert (reviewer u id j db) as Hr by done.
  assert (forall v, reviewer u id j (set_group_members (alter (fun _ => "admin") (g, v)) db)) as Ha.
  { intros v. split_and!; [done|done|]. simpl. rewrite lookup_alter_ne; [done|congruence]. }
  unfold hand_off. repeat wp_step; simplify_eq; auto.
  unfold GroupRoutes.delete_group_row. destruct (fk env); [|done]. split_and!; [done|..]; simpl.
  - rewrite lookup_delete_where, Hj. by rewrite bool_decide_eq_false_2.
  - rewrite lookup_delete_where. by rewrite Hm.
Qed.

Lemma reviewer_blocks u id j db : fk env = true -> reviewer u id j db -> joi_reviewed_by j = Some u ->
  joi_requester_id j <> u -> delete_user_row env u db = None.
Proof.
  intros Hf ([r Hu] & Hj & _) Hrv Hq. unfold delete_user_row. rewrite Hu, Hf. cbv zeta.
  assert (reviewed_by u (cascade_user u (set_users (delete u) db)) = true) as ->; [|done].
  unfold reviewed_by. apply existsb_exists. exists (id, j). split; [|by apply bool_decide_eq_true_2].
  apply list_elem_of_In, elem_of_map_to_list.
  change (delete_where (fun _ j0 => bool_decide (joi_requester_id j0 = u)) (join_requests db) !! id = Some j).
  rewrite lookup_delete_where, Hj. by rewrite bool_decide_eq_false_2.
Qed.

(** Account deletion depends on the foreign keys both ways.  Where they are enforced, a
    user who ever reviewed another's join request to a group it is no longer in cannot
    delete the account: every attempt fails and changes nothing, because [reviewed_by]
    refers to it.  Where they are not, a deletion that goes through leaves every row of
    the user's devices in place, live signing keys included. *)
Theorem delete_account_foreign_keys (u id : string) (j : JoinRow) (b : DeleteAccountBody) (db : MsgDb) :
  reviewer u id j db -> joi_reviewed_by j = Some u -> joi_requester_id j <> u ->
  wp (apply_delete_account env (Some u) b) db (fun r db' =>
    if fk env then db' = db /\ r <> Ok Applied else r = Ok Applied -> users db' !! u = None /\ devices db' = devices db).
Proof.
  intros Hr Hrv Hq. apply wp_as_actor; [by destruct (fk env)|]. wp_step; [by destruct (fk env)|].
  assert (wp (handoff_group_ownership env u) db (fun _ db' => reviewer u id j db' /\ devices db' = devices db)) as Hh.
  { unfold handoff_group_ownership. wp_step; wp_step; [done|].
    apply (wp_for_each _ _ _ (fun db' => reviewer u id j db' /\ devices db' = devices db)); [done|].
    intros [g role] db1 Hin [Hr1 Hd1]. apply in_memberships in Hin. assert (g <> joi_group_id j) as Hg.
    { intros ->. destruct Hr as (_ & _ & Hm). congruence. }
    intros n. split; [by apply reviewer_hand_off|].
    assert (wp (hand_off env u (g, role)) db1 (fun _ db' => devices db' = devices db)) as Hd; [|apply Hd].
    unfold hand_off. repeat wp_step; simplify_eq; auto. unfold GroupRoutes.delete_group_row. by destruct (fk env). }
  wp_step. eapply wp_mono; [exact Hh|]. intros [[]|e] db1 [Hr1 Hd1]; [|done].
  wp_step; wp_step; [done|]. wp_step; wp_step; [done|]. wp_step; wp_step; [done|]. simplify_eq.
  wp_step; wp_step; [done|]. match goal with H : delete_user_row _ _ ?d = Some _ |- _ =>
    assert (reviewer u id j d) as Hr2 by (destruct Hr1 as (? & ? & Hm); split_and!; [done|done|simpl; rewrite lookup_delete_where; by rewrite Hm]);
    destruct (fk env) eqn:Ef; [rewrite (reviewer_blocks u id j d Ef Hr2 Hrv Hq) in H; done|] end.
  destruct Hr2 as ([r0 Hu] & _). match goal with H : delete_user_row _ _ _ = Some _ |- _ => unfold delete_user_row in H;
    rewrite Hu, Ef in H; injection H as <- end.
  apply wp_ret. intros _. split; [apply lookup_delete_eq|exact Hd1].
Qed.
End Deletion.

(** ** The claims at concrete inputs *)

Section AccountWitnesses.
Import AccountRoutes.
#[local] Existing Instance clear_base64.

#[local] Definition quiet_sql (enforce : bool) : SqlEnv :=
  mkSqlEnv (fun _ => false) enforce "2026-01-01 00:00:00" "2025-12-02 00:00:00" (Some 1767225600%N) "01J0" 0.

#[local] Definition alice_row : ProfileRow := mkProfile "alice" None None None "a@x.io" (Some [x01]) 1.

#[local] Definition alice_db : MsgDb :=
  mkMsgDb {["alice" := alice_row]} ∅ [mkDeviceRec "phone" "alice" None (Some [x02])] ∅ ∅ ∅ ∅
    {["j" := mkJoin "g" "bob" "2026-01-01" (Some "alice") (Some "2026-01-01") "approved"]} ∅ ∅ ∅ ∅ ∅ ∅ ∅
    (mkAccountDb [mkKeyLog "alice" [x01] 1] ∅ [] ∅ ∅ ∅ ∅).

#[local] Definition rotation (based : Z) : RotateIdentityBody := mkRotateIdentity based "k" "s" "n" "w" None.

Lemma alice_keys : keys_ok alice_db.
Proof.
  split; intros u.
  - unfold log_of, alice_db, of_user. simpl. by destruct (bool_decide ("alice" = u)).
  - intros r Hr. unfold alice_db in Hr. cbn [users] in Hr. apply lookup_singleton_Some in Hr as [<- <-]. exists []. reflexivity.
Qed.

Lemma rotate_no_fork_witness :
  wp (apply_rotate_identity (quiet_sql true) (Some "alice") (rotation 1)) alice_db (fun r db1 => forall v, r = Ok (RotateApplied v) ->
    ri_based_on_version (rotation 1) = key_log_head "alice" alice_db /\ v = (key_log_head "alice" alice_db + 1)%Z /\
    key_log_head "alice" db1 = v /\
    wp (apply_rotate_identity (quiet_sql true) (Some "alice") (rotation 1)) db1
      (fun r' db2 => db2 = db1 /\ forall w, r' <> Ok (RotateApplied w))).
Proof.
  refine (rotate_no_fork (quiet_sql true) "alice" (rotation 1) (rotation 1) alice_db alice_keys _ eq_refl). simpl. lia.
Defined.

(** The first rotation does win, the second is told the new head. *)
Example rotation_race :
  let '(db1, r1) := run_sql (apply_rotate_identity (quiet_sql true) (Some "alice") (rotation 1)) alice_db in
  r1 = Ok (RotateApplied 2) /\
  (run_sql (apply_rotate_identity (quiet_sql true) (Some "alice") (rotation 1)) db1).2 = Ok (RotateConflict 2).
Proof. vm_compute. split; reflexivity. Qed.

Lemma deletion_keeps_admins_witness :
  wp (apply_delete_account (quiet_sql true) (Some "alice") (mkDeleteAccount None)) alice_db (fun r db' => r = Ok Applied -> administered db') /\
  wp (apply_reset_recover (quiet_sql true) (Some "alice") (mkResetRecover None None)) alice_db (fun r db' => r = Ok Applied -> administered db').
Proof.
  refine (deletion_keeps_admins (quiet_sql true) "alice" (mkDeleteAccount None) (mkResetRecover None None) alice_db _).
  intros g v [r Hr]. unfold alice_db in Hr. cbn [group_members] in Hr. rewrite lookup_empty in Hr. discriminate Hr.
Defined.

Lemma account_ops_self_scoped_witness :
  wp (apply_account_op (quiet_sql true) "alice" (LogoutDevice (mkLogoutDevice "phone" None))) alice_db
    (fun _ db' => others_kept "alice" alice_db db').
Proof.
  refine (account_ops_self_scoped (quiet_sql true) "alice" (LogoutDevice (mkLogoutDevice "phone" None)) alice_db _).
  intros b E. discriminate E.
Defined.

Lemma delete_account_foreign_keys_witness :
  wp (apply_delete_account (quiet_sql true) (Some "alice") (mkDeleteAccount None)) alice_db (fun r db' =>
    if fk (quiet_sql true) then db' = alice_db /\ r <> Ok Applied
    else r = Ok Applied -> users db' !! "alice" = None /\ devices db' = devices alice_db).
Proof.
  refine (delete_account_foreign_keys (quiet_sql true) "alice" "j"
    (mkJoin "g" "bob" "2026-01-01" (Some "alice") (Some "2026-01-01") "approved") (mkDeleteAccount None) alice_db _ eq_refl _).
  - split; [exists alice_row; reflexivity|]. split; reflexivity.
  - simpl. discriminate.
Defined.

(** Both outcomes occur: refused where the keys are enforced, the device left behind where
    they are not. *)
Example deletion_both_ways :
  (run_sql (apply_delete_account (quiet_sql true) (Some "alice") (mkDeleteAccount None)) alice_db).2 = Err Constraint /\
  let '(db', r) := run_sql (apply_delete_account (quiet_sql false) (Some "alice") (mkDeleteAccount None)) alice_db in
  r = Ok Applied /\ devices db' = devices alice_db.
Proof. vm_compute. split; [reflexivity|split; reflexivity]. Qed.

(** The approval route takes a request of any status, an already rejected one for one. *)
Example approve_rejected :
  let db := set_enrollments (fun _ => {["e" := mkEnrollment "alice" "new" [] "123" None "rejected" "t0" "t1" (Some "phone")]}) alice_db in
  enr_status <$> enrollments (accounts (run_sql (apply_approve_enrollment (quiet_sql true) (Some "alice")
    (mkApproveEnrollment "e" "k" "phone" None)) db).1) !! "e" = Some "approved".
Proof. vm_compute. reflexivity. Qed.
End AccountWitnesses.
