(* ===== verification/Frames.v ===== *)
(** * pollis-delivery: which tables each write route reaches

    The routes of [Groups], [Dms], [Messages] and [Accounts] one level up from their row
    permissions: [Table] names the tables of the main database, [only] says that every other
    table is as before, and each operation has the list of tables it writes.  For the
    account routes, which are the only ones to act on tables users share (an account that is
    reset or deleted leaves its groups), [departed] says which rows of those tables may go:
    a group only with its last member, a role only handed on by the only admin.

    [Service] puts the lists beside the row permissions, path by path. *)

From stdpp Require Import base list strings gmap.
From Stdlib Require Import NArith ZArith Lia ZifyNat ZifyN.
From S2P Require Import Prelude Crypto Relay Delivery Text Tables Groups Dms Messages Accounts.

(** ** Tables and frames *)

Inductive Table : Type :=
| TUsers | TPreferences | TDevices | TGroups | TMembers | TChannels | TInvites | TJoins | TDms | TDmMembers | TBlocks
| TEnvelopes | TReactions | TWatermarks | TAttachments | TKeyLog | TRecovery | TPackages | TEnrollments | TEvents
| TTokens | TDeviceInfo.

#[export] Instance table_eq_dec : EqDecision Table.
Proof. solve_decision. Defined.

Definition same_table (t : Table) (db db' : MsgDb) : Prop :=
  match t with
  | TUsers => users db' = users db
  | TPreferences => preferences db' = preferences db
  | TDevices => devices db' = devices db
  | TGroups => groups db' = groups db
  | TMembers => group_members db' = group_members db
  | TChannels => group_channels db' = group_channels db
  | TInvites => invites db' = invites db
  | TJoins => join_requests db' = join_requests db
  | TDms => dm_channels db' = dm_channels db
  | TDmMembers => dm_members db' = dm_members db
  | TBlocks => blocks db' = blocks db
  | TEnvelopes => envelopes db' = envelopes db
  | TReactions => reactions db' = reactions db
  | TWatermarks => watermarks db' = watermarks db
  | TAttachments => attachments db' = attachments db
  | TKeyLog => key_log (accounts db') = key_log (accounts db)
  | TRecovery => recovery (accounts db') = recovery (accounts db)
  | TPackages => key_packages (accounts db') = key_packages (accounts db)
  | TEnrollments => enrollments (accounts db') = enrollments (accounts db)
  | TEvents => security_events (accounts db') = security_events (accounts db)
  | TTokens => push_tokens (accounts db') = push_tokens (accounts db)
  | TDeviceInfo => device_info (accounts db') = device_info (accounts db)
  end.

(** Only the tables of [ts] differ. *)
Definition only (ts : list Table) (db db' : MsgDb) : Prop := forall t, t ∉ ts -> same_table t db db'.

Lemma same_table_trans t db1 db2 db3 : same_table t db1 db2 -> same_table t db2 db3 -> same_table t db1 db3.
Proof. destruct t; simpl; congruence. Qed.

Lemma only_refl ts db : only ts db db.
Proof. by intros [] _. Qed.

Lemma only_trans ts db1 db2 db3 : only ts db1 db2 -> only ts db2 db3 -> only ts db1 db3.
Proof. intros H1 H2 t Ht. eapply same_table_trans; auto. Qed.

#[export] Hint Resolve only_refl : pollis.

(** A program in front of another, both keeping an invariant. *)
Lemma wp_bind_inv {A B} (I : MsgDb -> Prop) (m : Sql A) (k : A -> Sql B) db (Q : Result B SqlError -> MsgDb -> Prop) :
  wp m db (fun _ db' => I db') -> (forall e db', I db' -> Q (Err e) db') -> (forall a db', I db' -> wp (k a) db' Q) ->
  wp (bind m k) db Q.
Proof. intros Hm He Hk. apply wp_bind. eapply wp_mono; [exact Hm|]. intros [a|e] db' Hi; auto. Qed.

(** Open what a statement did, down to the setters. *)
Ltac open_writes := repeat match goal with
  | H : Some _ = Some _ |- _ => injection H as <-
  | H : Some _ = Some _ |- _ => injection H as <- ?
  | H : None = Some _ |- _ => discriminate H
  | H : _ <$> _ = Some _ |- _ => apply fmap_Some in H as (? & ? & ->)
  | H : (if ?c then _ else _) = Some _ |- _ => destruct c
  | H : match ?x with _ => _ end = Some _ |- _ => destruct x
  | |- only _ _ (if ?c then _ else _) => destruct c
  end.

(** Every table is listed, or untouched by the setters. *)
Ltac only_solve := intros [] ?;
  first [exfalso; match goal with H : _ ∉ _ |- _ => apply H; set_unfold; tauto end | reflexivity].

Ltac frames := unfold as_actor, guard in *; simpl; repeat wp_step; try apply only_refl; try exact I; open_writes;
  try apply only_refl; try only_solve.

Section Lists.
Context (env : SqlEnv).
Import GroupRoutes DmRoutes MessageRoutes.

Definition group_tables (op : GroupOp) : list Table :=
  match op with
  | CreateGroup _ => [TGroups; TMembers; TChannels]
  | UpdateGroup _ => [TGroups]
  | DeleteGroup _ | LeaveGroup _ => [TGroups; TMembers; TChannels; TInvites; TJoins]
  | CreateChannel _ | UpdateChannel _ => [TChannels]
  | DeleteChannel _ => [TChannels; TEnvelopes; TWatermarks]
  | RemoveMember _ | SetMemberRole _ => [TMembers]
  | CreateInvite _ | DeclineInvite _ => [TInvites]
  | AcceptInvite _ => [TMembers; TWatermarks; TInvites]
  | CreateJoinRequest _ | RejectJoinRequest _ => [TJoins]
  | ApproveJoinRequest _ => [TMembers; TWatermarks; TJoins]
  end.

Lemma group_op_only authed op db : wp (apply_group_op env authed op) db (fun _ db' => only (group_tables op) db db').
Proof.
  destruct op; unfold apply_group_op.
  all: unfold apply_create_group, apply_update_group, apply_delete_group, apply_leave_group, apply_create_channel,
    apply_update_channel, apply_delete_channel, apply_remove_member, apply_set_member_role, apply_create_invite,
    apply_accept_invite, apply_decline_invite, apply_create_join_request, apply_approve_join_request,
    apply_reject_join_request, with_channel_admin, is_admin, is_member_of, group_role, channel_group_id,
    update_group_row, update_channel_row, delete_envelopes_of, add_member_rows, pending_request, review,
    insert_member, insert_channel, upsert_join_request, delete_group_row.
  all: frames.
Qed.

Definition dm_tables (op : DmOp) : list Table :=
  match op with
  | UpdateProfile _ => [TUsers]
  | SavePreferences _ => [TPreferences]
  | BlockUser _ => [TBlocks; TDmMembers]
  | UnblockUser _ => [TBlocks]
  | CreateDm _ => [TDms; TDmMembers; TWatermarks]
  | AcceptDm _ | RemoveDmMember _ => [TDmMembers]
  | AddDmMember _ => [TDmMembers; TWatermarks]
  | LeaveDm _ => [TDms; TDmMembers; TEnvelopes]
  end.

(** Asking about blocks changes nothing. *)
Lemma any_blocked_reads creator others db : wp (any_blocked env creator others) db (fun _ db' => db' = db).
Proof.
  induction others as [|v others IH]; simpl; [by apply wp_ret|]. wp_step. unfold is_blocked_either_way. wp_step; [done|].
  destruct (blocked_either_way _ _ _); [by apply wp_ret|done].
Qed.

Lemma create_dm_only authed b db : wp (apply_create_dm env authed b) db (fun _ db' => only [TDms; TDmMembers; TWatermarks] db db').
Proof.
  unfold apply_create_dm, as_actor. destruct (resolve_actor _ _) as [creator|]; [|apply wp_ret; auto with pollis].
  assert (forall k, wp k db (fun _ db' => only [TDms; TDmMembers; TWatermarks] db db') ->
    wp (guard authed (let* blocked := any_blocked env creator (dm_others creator (cd_member_ids b)) in ret (negb blocked)) k) db
      (fun _ db' => only [TDms; TDmMembers; TWatermarks] db db')) as Hg.
  { intros k Hk. unfold guard. destruct (signed authed); [|done]. apply (wp_bind_inv (fun db' => db' = db)).
    - apply (wp_bind_inv (fun db' => db' = db)); [apply any_blocked_reads|done|]. intros a db' ->. by apply wp_ret.
    - intros e db' ->. auto with pollis.
    - intros [] db' ->; [done|]. apply wp_ret. auto with pollis. }
  apply Hg. wp_step; [auto with pollis|]. do 2 wp_step; [done|]. do 2 wp_step; [done|].
  match goal with |- wp _ ?d _ => assert (only [TDms; TDmMembers; TWatermarks] db d) as H2 by (open_writes; only_solve) end.
  apply (wp_bind_inv (only [TDms; TDmMembers; TWatermarks] db)); [|done|].
  - apply wp_for_each; [done|]. intros v d _ Hd. unfold insert_dm_member. wp_step; [done|]. open_writes.
    eapply only_trans; [exact Hd|only_solve].
  - intros _ d Hd. apply (wp_bind_inv (only [TDms; TDmMembers; TWatermarks] db)); [|done|intros _ d' Hd'; by apply wp_ret].
    apply (wp_for_each _ (seed_dm_watermarks env (cd_id b))); [done|]. intros v d' _ Hd'. unfold seed_dm_watermarks. wp_step; [done|].
    open_writes. eapply only_trans; [exact Hd'|only_solve].
Qed.

Lemma dm_op_only authed op db : wp (apply_dm_op env authed op) db (fun _ db' => only (dm_tables op) db db').
Proof.
  destruct op; unfold apply_dm_op; [..|apply create_dm_only| | | |].
  all: unfold apply_update_profile, apply_save_preferences, apply_block_user, apply_unblock_user, apply_accept_dm,
    apply_add_dm_member, apply_remove_dm_member, apply_leave_dm, is_dm_member, is_dm_creator, insert_dm_member,
    seed_dm_watermarks, delete_dm_row.
  all: frames.
Qed.

Definition message_tables (op : MessageOp) : list Table :=
  match op with
  | SendMessage _ | EditMessage _ | DeleteMessage _ | EnvelopeGc _ => [TEnvelopes]
  | AddReaction _ | RemoveReaction _ => [TReactions]
  | AdvanceWatermark _ => [TWatermarks]
  | RegisterAttachment _ | DeleteAttachment _ => [TAttachments]
  end.

Lemma message_op_only authed op db : wp (apply_message_op env authed op) db (fun _ db' => only (message_tables op) db db').
Proof.
  destruct op; unfold apply_message_op.
  all: unfold apply_send_message, apply_edit_message, apply_delete_message, apply_add_reaction, apply_remove_reaction,
    apply_advance_watermark, apply_envelope_gc, apply_register_attachment, apply_delete_attachment, delete_message_rows,
    may_react, conversation_for_message, member_of_conversation, channel_group_role, insert_envelope.
  all: frames.
Qed.
End Lists.

Section AccountLists.
Context (env : SqlEnv) `{!Ed25519} `{!Base64}.
Import AccountRoutes.

(** The rows an account holds in tables of its own, and those that go with it. *)
Definition handed_tables : list Table := [TGroups; TMembers; TChannels; TInvites; TJoins].

Definition leaving_tables : list Table := handed_tables ++ [TDmMembers; TPackages; TDevices; TDeviceInfo].

Definition account_tables (op : AccountOp) : list Table :=
  match op with
  | RotateIdentity _ | EstablishIdentity _ _ _ _ => [TKeyLog; TUsers; TRecovery]
  | RecordSecurityEvent _ => [TEvents]
  | ApproveEnrollment _ | RejectEnrollment _ | EnrollmentRequest _ _ _ _ _ _ => [TEnrollments]
  | RevokeDevice _ => [TPackages; TDevices]
  | LogoutDevice _ | PublishDeviceCert _ _ _ _ _ => [TDevices; TDeviceInfo]
  | ResetRecover _ => leaving_tables
  | DeleteAccount _ => leaving_tables ++ [TEnvelopes; TUsers; TPreferences; TBlocks; TReactions; TRecovery; TEnrollments; TEvents]
  | PublishKeyPackages _ | ReplenishKeyPackages _ | ClaimKeyPackage _ => [TPackages]
  | ResignDeviceCerts _ => [TDeviceInfo]
  | RegisterPushToken _ => [TTokens]
  | RegisterDevice _ _ => [TDevices; TDeviceInfo; TWatermarks]
  end.

Lemma handoff_only u db : wp (handoff_group_ownership env u) db (fun _ db' => only handed_tables db db').
Proof.
  unfold handoff_group_ownership. do 2 wp_step; [auto with pollis|]. apply wp_for_each; [auto with pollis|].
  intros [g role] d _ Hd. unfold hand_off, GroupRoutes.delete_group_row. repeat wp_step; try done; open_writes.
  all: eapply only_trans; [exact Hd|open_writes; only_solve].
Qed.

Lemma leaving_only {A} u ts (k : Sql A) db (Q : Result A SqlError -> MsgDb -> Prop) : leaving_tables ⊆ ts ->
  (forall e d, Q (Err e) d) -> (forall d, only ts db d -> wp k d Q) ->
  wp (let* _ := handoff_group_ownership env u in k) db Q.
Proof.
  intros Hts He Hk. apply (wp_bind_inv (only ts db)); [|done|auto].
  eapply wp_mono; [apply handoff_only|]. intros r d Hd t Ht. apply Hd. unfold leaving_tables in Hts. set_solver.
Qed.

Lemma reset_only authed b db : wp (apply_reset_recover env authed b) db (fun _ db' => only leaving_tables db db').
Proof.
  unfold apply_reset_recover, as_actor. destruct (resolve_actor _ _) as [u|]; [|apply wp_ret; auto with pollis].
  wp_step; [auto with pollis|]. apply (leaving_only u leaving_tables); [done|done|]. intros d Hd. repeat wp_step; try done.
  open_writes. eapply only_trans; [exact Hd|only_solve].
Qed.

Lemma delete_account_only authed b db : wp (apply_delete_account env authed b) db (fun _ db' => only (account_tables (DeleteAccount b)) db db').
Proof.
  unfold apply_delete_account, as_actor. destruct (resolve_actor _ _) as [u|]; [|apply wp_ret; auto with pollis].
  wp_step; [auto with pollis|]. apply (leaving_only u (account_tables (DeleteAccount b))); [unfold account_tables; set_solver|done|].
  intros d Hd. repeat wp_step; try done. unfold delete_user_row, cascade_user in *. cbv zeta in *. open_writes.
  all: eapply only_trans; [exact Hd|only_solve].
Qed.

Lemma packages_only authed b db : wp (apply_publish_key_packages env authed b) db (fun _ db' => only [TPackages] db db').
Proof.
  unfold apply_publish_key_packages, as_actor. destruct (resolve_actor _ _) as [u|]; [|apply wp_ret; auto with pollis].
  apply (wp_bind_inv (only [TPackages] db)); [|done|intros; by apply wp_ret]. apply wp_for_each; [auto with pollis|].
  intros p d _ Hd. unfold insert_package. repeat wp_step; try done. open_writes. eapply only_trans; [exact Hd|only_solve].
Qed.

Lemma replenish_only authed b db : wp (apply_replenish_key_packages env authed b) db (fun _ db' => only [TPackages] db db').
Proof.
  unfold apply_replenish_key_packages, as_actor. destruct (resolve_actor _ _) as [u|]; [|apply wp_ret; auto with pollis].
  do 2 wp_step; [auto with pollis|]. wp_step; [auto with pollis|]. do 2 wp_step; [done|]. open_writes.
  apply (wp_bind_inv (only [TPackages] db)); [|done|intros; by apply wp_ret]. apply wp_for_each; [only_solve|].
  intros p d _ Hd. unfold insert_package. wp_step; [done|]. open_writes. eapply only_trans; [exact Hd|only_solve].
Qed.

Lemma resign_only authed b db : wp (apply_resign_device_certs env authed b) db (fun _ db' => only [TDeviceInfo] db db').
Proof.
  unfold apply_resign_device_certs, as_actor. destruct (resolve_actor _ _) as [u|]; [|apply wp_ret; auto with pollis].
  wp_step; [auto with pollis|].
  apply (wp_bind_inv (only [TDeviceInfo] db)); [|done|intros; by apply wp_ret]. apply wp_for_each; [auto with pollis|].
  intros p d _ Hd. repeat wp_step; try done. open_writes; [|done]. eapply only_trans; [exact Hd|only_solve].
Qed.

Lemma account_op_only u op db : wp (apply_account_op env u op) db (fun _ db' => only (account_tables op) db db').
Proof.
  destruct op; unfold apply_account_op; try apply wp_ignore; cbn [account_tables].
  all: first [apply reset_only|apply delete_account_only|apply packages_only|apply replenish_only|apply resign_only|idtac].
  all: unfold apply_rotate_identity, apply_record_security_event, apply_approve_enrollment, apply_reject_enrollment,
    apply_revoke_device, apply_logout_device, apply_claim_key_package, apply_register_push_token, apply_establish_identity,
    apply_register_device, apply_publish_device_cert, apply_enrollment_request, cas_append, put_recovery, update_enrollment,
    claim_statement, claim_identity, upsert_device, install_key in *.
  all: frames.
Qed.
End AccountLists.

(** ** What an account leaves behind *)

Section Departure.
Context (env : SqlEnv) `{!Ed25519} `{!Base64}.
Import AccountRoutes.

(** [u] is the only admin of [g]. *)
Definition only_admin (db : MsgDb) (g u : string) : Prop := admin db g u /\ forall a, admin db g a -> a = u.

(** A row goes for a reason it carries, and never changes otherwise. *)
Definition gone {K A} (why : K -> A -> Prop) (k : K) (old new : option A) : Prop :=
  exists r, old = Some r /\ new = None /\ why k r.

Definition handed_member (db : MsgDb) (u : string) (gv : string * string) (old new : option string) : Prop :=
  match new with
  | None => is_Some old /\ sole db gv.1 u
  | Some role => role = "admin" /\ is_Some old /\ gv.2 <> u /\ only_admin db gv.1 u
  end.

Definition left_member (db : MsgDb) (u : string) (gv : string * string) (old new : option string) : Prop :=
  match new with
  | None => is_Some old /\ gv.2 = u
  | Some role => role = "admin" /\ is_Some old /\ gv.2 <> u /\ only_admin db gv.1 u
  end.

(** The device rows [u] may write: its own, those of ids nobody has, and a missing name. *)
Definition info_ok (u : string) (db : MsgDb) (d : string) (old new : option DeviceInfo) : Prop :=
  (exists r, In r (devices db) /\ dev_id r = d /\ dev_user r = u) \/ (forall r, In r (devices db) -> dev_id r <> d) \/
  exists i n, old = Some i /\ di_device_name i = None /\
    new = Some (mkDeviceInfo (Some n) (di_device_cert i) (di_cert_issued_at i) (di_cert_identity_version i)).

(** What an account operation may do to the tables users share. *)
Record departed (u : string) (db db' : MsgDb) : Prop := {
  dp_groups : changed (gone (fun g _ => sole db g u)) (groups db) (groups db');
  dp_members : changed (left_member db u) (group_members db) (group_members db');
  dp_channels : changed (gone (fun _ r => sole db (chn_group_id r) u)) (group_channels db) (group_channels db');
  dp_invites : changed (gone (fun _ r => sole db (inv_group_id r) u \/ inv_inviter_id r = u \/ inv_invitee_id r = u))
    (invites db) (invites db');
  dp_joins : changed (gone (fun _ r => sole db (joi_group_id r) u \/ joi_requester_id r = u)) (join_requests db) (join_requests db');
  dp_dms : dm_channels db' = dm_channels db;
  dp_dm_members : changed (gone (fun k _ => k.2 = u)) (dm_members db) (dm_members db');
  dp_blocks : forall ab, ab.1 <> u -> ab.2 <> u -> ab ∈ blocks db' <-> ab ∈ blocks db;
  dp_envelopes : changed (gone (fun _ r => env_sender_id r = u)) (envelopes db) (envelopes db');
  dp_reactions : changed (gone (fun k _ => k.1.2 = u)) (reactions db) (reactions db');
  dp_watermarks : changed (fun k old new => k.1.2 = u /\ old = None) (watermarks db) (watermarks db');
  dp_attachments : attachments db' = attachments db;
  dp_info : changed (info_ok u db) (device_info (accounts db)) (device_info (accounts db'))
}.

(** A deletion on top of rows already gone. *)
Lemma gone_where {K A} `{Countable K} (why : K -> A -> Prop) p (m m' : gmap K A) :
  changed (gone why) m m' -> (forall k r, p k r = true -> why k r) -> changed (gone why) m (delete_where p m').
Proof.
  intros Hc Hp. apply changed_delete_where; [done|]. intros k a Ha Hk. right. exists a.
  destruct (Hc k) as [E|(r & _ & E & _)]; [|congruence]. split_and!; [congruence|done|auto].
Qed.

Lemma gone_mono {K A} `{Countable K} (P Q : K -> A -> Prop) (m m' : gmap K A) :
  (forall k r, P k r -> Q k r) -> changed (gone P) m m' -> changed (gone Q) m m'.
Proof. intros Hpq Hc k. destruct (Hc k) as [E|(r & ? & ? & ?)]; [by left|right; exists r; auto]. Qed.

Lemma gone_trans {K A} `{Countable K} (P Q : K -> A -> Prop) (m m1 m2 : gmap K A) :
  changed (gone P) m m1 -> changed (gone Q) m1 m2 -> changed (gone (fun k r => P k r \/ Q k r)) m m2.
Proof.
  intros Hp Hq k. destruct (Hq k) as [E|(r & E1 & E2 & Hr)].
  - rewrite E. destruct (Hp k) as [|(r & ? & ? & ?)]; [by left|right]. exists r. auto.
  - right. exists r. destruct (Hp k) as [E|(r' & ? & ? & _)]; [|congruence]. split_and!; [congruence|done|by right].
Qed.

(** *** The hand-off loop *)

Record handed (u : string) (db db' : MsgDb) : Prop := {
  hd_groups : changed (gone (fun g _ => sole db g u)) (groups db) (groups db');
  hd_members : changed (handed_member db u) (group_members db) (group_members db');
  hd_channels : changed (gone (fun _ r => sole db (chn_group_id r) u)) (group_channels db) (group_channels db');
  hd_invites : changed (gone (fun _ r => sole db (inv_group_id r) u)) (invites db) (invites db');
  hd_joins : changed (gone (fun _ r => sole db (joi_group_id r) u)) (join_requests db) (join_requests db');
  hd_rest : only handed_tables db db'
}.

Lemma handed_refl u db : handed u db db.
Proof. split; auto with pollis. Qed.

(** A member that was there still is, or its group had nobody but [u]. *)
Lemma handed_belongs u db db' g v : handed u db db' -> belongs db g v -> belongs db' g v \/ sole db g u.
Proof.
  intros Hh [r Hr]. destruct (hd_members _ _ _ Hh (g, v)) as [E|Hm]; [left; exists r; congruence|].
  destruct (group_members db' !! (g, v)) as [r'|] eqn:E'; [left; by exists r'|right; apply Hm].
Qed.

Lemma handed_admin u db db' g v : handed u db db' -> admin db g v -> admin db' g v \/ sole db g u.
Proof.
  intros Hh Hr. destruct (hd_members _ _ _ Hh (g, v)) as [E|Hm]; [left; unfold admin in *; congruence|].
  unfold admin in *. destruct (group_members db' !! (g, v)) as [r'|] eqn:E'; [left; destruct Hm as [-> _]; done|right; apply Hm].
Qed.

Lemma handed_back u db db' g v : handed u db db' -> belongs db' g v -> belongs db g v.
Proof.
  intros Hh [r Hr]. destruct (hd_members _ _ _ Hh (g, v)) as [E|Hm]; [exists r; congruence|]. rewrite Hr in Hm. apply Hm.
Qed.

Lemma handed_sole u db db' g : handed u db db' -> belongs db g u -> GroupRoutes.member_count g db' <= 1 -> sole db g u.
Proof.
  intros Hh Hu Hc. destruct (handed_belongs _ _ _ _ _ Hh Hu) as [Hu'|]; [|done]. split; [done|]. intros v Hv.
  destruct (handed_belongs _ _ _ _ _ Hh Hv) as [Hv'|[_ Hs]]; [|by apply Hs]. by eapply count_sole.
Qed.

Lemma handed_delete u db db' g : handed u db db' -> sole db g u -> handed u db (GroupRoutes.delete_group_row env g db').
Proof.
  intros Hh Hs. assert (only handed_tables db (GroupRoutes.delete_group_row env g db')) as Ho.
  { eapply only_trans; [apply (hd_rest _ _ _ Hh)|]. unfold GroupRoutes.delete_group_row. destruct (fk env); only_solve. }
  split; [..|exact Ho]; unfold GroupRoutes.delete_group_row; destruct (fk env); simpl; try apply Hh.
  - apply changed_delete; [apply Hh|]. intros r Hr. by exists r.
  - apply changed_delete; [apply Hh|]. intros r Hr. by exists r.
  - apply changed_delete_where; [apply Hh|]. intros [g' v] r Hr Hp. unfold GroupRoutes.in_group in Hp. breflect. simpl in *. subst g'.
    right. split; [|done]. apply (handed_back _ _ _ _ _ Hh). by exists r.
  - apply gone_where; [apply Hh|]. intros k r Hp. breflect. by rewrite Hp.
  - apply gone_where; [apply Hh|]. intros k r Hp. breflect. by rewrite Hp.
  - apply gone_where; [apply Hh|]. intros k r Hp. breflect. by rewrite Hp.
Qed.

Lemma handed_promote u db db' g v role : handed u db db' -> admin db g u -> other_admins g u db' = 0 ->
  In (v, role) (others_of g u db') -> handed u db (set_group_members (alter (fun _ => "admin") (g, v)) db').
Proof.
  intros Hh Ha Ho [Hv Hne]%in_others_of. split; simpl; try apply Hh.
  2: eapply only_trans; [apply (hd_rest _ _ _ Hh)|only_solve].
  apply changed_alter; [apply Hh|]. intros r Hr. simpl. split_and!; [done| |done|].
  - apply (handed_back _ _ _ _ _ Hh). by exists r.
  - split; [done|]. intros a Haa. destruct (decide (a = u)) as [|Hau]; [done|]. exfalso.
    destruct (handed_admin _ _ _ _ _ Hh Haa) as [Hx|[_ Hs]]; [|apply Hau, Hs; by eexists].
    unfold other_admins in Ho. apply length_zero_iff_nil in Ho.
    assert (In (a, "admin") []) as []. rewrite <- Ho. apply filter_In. split; [by apply in_others_of|].
    by apply bool_decide_eq_true_2.
Qed.

Lemma handoff_handed u db : wp (handoff_group_ownership env u) db (fun _ db' => handed u db db').
Proof.
  unfold handoff_group_ownership. do 2 wp_step; [apply handed_refl|]. apply wp_for_each; [apply handed_refl|].
  intros [g role] d Hin%in_memberships Hd. unfold hand_off. do 2 wp_step; [done|].
  destruct (Nat.leb_spec (GroupRoutes.member_count g d) 1) as [Hc|_].
  { wp_step; [done|]. simplify_eq. apply handed_delete; [done|]. eapply handed_sole; [done|by eexists|done]. }
  case_bool_decide as Er; [|by apply wp_ret]. do 2 wp_step; [done|].
  destruct (Nat.eqb_spec (other_admins g u d) 0) as [Ho|_]; [|by apply wp_ret]. do 2 wp_step; [done|]. wp_step; [done|].
  wp_step; [done|]. simplify_eq. match goal with H : any_row _ _ = Some ?x |- _ => destruct x as [v role'];
    unfold any_row in H; apply nth_error_In in H end. by eapply handed_promote.
Qed.

(** *** The operations *)

Lemma departed_refl u db : departed u db db.
Proof. split; auto with pollis. Qed.

(** Device rows that go with devices of [u]. *)
Lemma info_deleted u db p (m : gmap string DeviceInfo) l : (forall d, In d l -> In d (devices db)) -> (forall d, p d = true -> dev_user d = u) ->
  changed (info_ok u db) (device_info (accounts db)) m ->
  changed (info_ok u db) (device_info (accounts db)) (fold_left (fun m d => if p d then delete (dev_id d) m else m) l m).
Proof.
  intros Hl Hp. revert m. induction l as [|d l IH]; intros m Hm; simpl; [done|]. apply IH; [intros; apply Hl; by right|].
  destruct (p d) eqn:E; [|done]. apply changed_delete; [done|]. intros i _. left. exists d. split_and!; [apply Hl; by left|done|auto].
Qed.

Lemma members_left u db d : handed u db d ->
  changed (left_member db u) (group_members db) (delete_where (fun k _ => bool_decide (k.2 = u)) (group_members d)).
Proof.
  intros Hh [g v]. rewrite lookup_without. case_bool_decide as E.
  - subst v. destruct (group_members db !! (g, u)) as [r|]; [right; by split|by left].
  - destruct (hd_members _ _ _ Hh (g, v)) as [E'|Hm]; [by left|right]. simpl in *.
    destruct (group_members d !! (g, v)) as [r|]; [done|]. destruct Hm as [[r Hr] [_ Hs]]. exfalso. apply E, Hs. by exists r.
Qed.

(** The hand-off, then rows of [u] go, table by table. *)
Lemma leave_departed u db d db' : handed u db d -> groups db' = groups d -> group_channels db' = group_channels d ->
  (forall k, group_members db' !! k = delete_where (fun k _ => bool_decide (k.2 = u)) (group_members d) !! k) ->
  changed (gone (fun _ r => inv_inviter_id r = u \/ inv_invitee_id r = u)) (invites d) (invites db') ->
  changed (gone (fun _ r => joi_requester_id r = u)) (join_requests d) (join_requests db') ->
  changed (gone (fun k _ => k.2 = u)) (dm_members d) (dm_members db') ->
  (forall ab, ab.1 <> u -> ab.2 <> u -> ab ∈ blocks db' <-> ab ∈ blocks d) ->
  changed (gone (fun _ r => env_sender_id r = u)) (envelopes d) (envelopes db') ->
  changed (gone (fun k _ => k.1.2 = u)) (reactions d) (reactions db') ->
  changed (info_ok u d) (device_info (accounts d)) (device_info (accounts db')) ->
  dm_channels db' = dm_channels d -> watermarks db' = watermarks d -> attachments db' = attachments d -> departed u db db'.
Proof.
  intros Hh Eg Ec Em Hi Hj Hd Hb He Hr Hf E1 E2 E3. pose proof (hd_rest _ _ _ Hh) as Ho.
  assert (forall t, t ∉ handed_tables -> same_table t db d) as Hsame by exact Ho.
  pose proof (Hsame TDmMembers ltac:(set_solver)) as S1. pose proof (Hsame TBlocks ltac:(set_solver)) as S2.
  pose proof (Hsame TEnvelopes ltac:(set_solver)) as S3. pose proof (Hsame TReactions ltac:(set_solver)) as S4.
  pose proof (Hsame TDeviceInfo ltac:(set_solver)) as S5. pose proof (Hsame TDevices ltac:(set_solver)) as S6.
  pose proof (Hsame TDms ltac:(set_solver)) as S7. pose proof (Hsame TWatermarks ltac:(set_solver)) as S8.
  pose proof (Hsame TAttachments ltac:(set_solver)) as S9. simpl in S1, S2, S3, S4, S5, S6, S7, S8, S9.
  split; rewrite ?Eg, ?Ec, ?E1, ?E2, ?E3, <- ?S1, <- ?S2, <- ?S3, <- ?S4, <- ?S5, <- ?S7, <- ?S8, <- ?S9; auto with pollis; try apply Hh.
  - intros k. rewrite Em. apply (members_left _ _ _ Hh).
  - eapply gone_trans; [apply Hh|exact Hi].
  - eapply gone_trans; [apply Hh|exact Hj].
  - unfold info_ok in *. by rewrite <- S6.
Qed.

Lemma reset_departed u b db : wp (apply_reset_recover env (Some u) b) db (fun _ db' => departed u db db').
Proof.
  apply wp_as_actor; [apply departed_refl|]. wp_step; [intros; apply departed_refl|].
  apply (wp_bind_inv (handed u db)); [apply handoff_handed|done|]. intros _ d Hd. repeat wp_step; try done. simplify_eq.
  apply (leave_departed u db d); simpl; auto with pollis.
  - apply gone_where; [auto with pollis|]. intros k r E. by breflect.
  - apply info_deleted; [done| |auto with pollis]. intros x E. by breflect.
Qed.

Lemma gone_own {K A} `{Countable K} (why : K -> A -> Prop) p (m : gmap K A) : (forall k r, p k r = true -> why k r) ->
  changed (gone why) m (delete_where p m).
Proof. intros Hp. apply gone_where; auto with pollis. Qed.

Lemma delete_account_departed u b db : wp (apply_delete_account env (Some u) b) db (fun _ db' => departed u db db').
Proof.
  apply wp_as_actor; [apply departed_refl|]. wp_step; [intros; apply departed_refl|].
  apply (wp_bind_inv (handed u db)); [apply handoff_handed|done|]. intros _ d Hd. repeat wp_step; try done. simplify_eq.
  match goal with H : delete_user_row _ _ _ = Some _ |- _ => rename H into Hdel end.
  unfold delete_user_row in Hdel. simpl in Hdel. destruct (users d !! u); [destruct (fk env); [destruct (reviewed_by _ _); [done|]|]|];
    injection Hdel as <-; apply (leave_departed u db d); simpl; auto with pollis;
    try (apply gone_own; intros k r E; breflect; naive_solver).
  - intros [g v]. rewrite !lookup_without. by case_bool_decide.
  - apply gone_own. intros k r E. apply orb_true_iff in E. breflect. destruct E as [E|E]; breflect; auto.
  - intros ab Ha Hb. rewrite elem_of_filter. naive_solver.
  - apply info_deleted; [done| |auto with pollis]. intros x E. by breflect.
Qed.

(** Nothing but the account's own tables: nobody departs. *)
Definition own_tables : list Table := [TUsers; TPreferences; TDevices; TKeyLog; TRecovery; TPackages; TEnrollments; TEvents; TTokens].

Definition within (ts ts' : list Table) : bool := forallb (fun t => bool_decide (t ∈ ts')) ts.

Lemma only_within ts ts' db db' : within ts ts' = true -> only ts db db' -> only ts' db db'.
Proof.
  intros Hw Ho t Ht. apply Ho. intros Hin. apply Ht. unfold within in Hw. rewrite forallb_forall in Hw.
  apply list_elem_of_In, Hw in Hin. by breflect.
Qed.

Lemma quiet_departed u ts db db' : only ts db db' -> within ts (TDeviceInfo :: own_tables) = true ->
  changed (info_ok u db) (device_info (accounts db)) (device_info (accounts db')) -> departed u db db'.
Proof.
  intros Ho Hts Hi. pose proof (only_within _ _ _ _ Hts Ho) as Hs. unfold own_tables in Hs.
  split; [..|exact Hi].
  - rewrite (Hs TGroups) by set_solver. auto with pollis.
  - rewrite (Hs TMembers) by set_solver. auto with pollis.
  - rewrite (Hs TChannels) by set_solver. auto with pollis.
  - rewrite (Hs TInvites) by set_solver. auto with pollis.
  - rewrite (Hs TJoins) by set_solver. auto with pollis.
  - apply (Hs TDms). set_solver.
  - rewrite (Hs TDmMembers) by set_solver. auto with pollis.
  - by rewrite (Hs TBlocks) by set_solver.
  - rewrite (Hs TEnvelopes) by set_solver. auto with pollis.
  - rewrite (Hs TReactions) by set_solver. auto with pollis.
  - rewrite (Hs TWatermarks) by set_solver. auto with pollis.
  - apply (Hs TAttachments). set_solver.
Qed.

Definition info_scope (u : string) (db db' : MsgDb) : Prop :=
  changed (info_ok u db) (device_info (accounts db)) (device_info (accounts db')).

Lemma info_same u db db' : only own_tables db db' -> info_scope u db db'.
Proof. unfold own_tables. intros Ho. unfold info_scope. rewrite (Ho TDeviceInfo) by set_solver. auto with pollis. Qed.

Lemma is_owned_In u d db : is_owned u d db = true -> exists r, In r (devices db) /\ dev_id r = d /\ dev_user r = u.
Proof. unfold is_owned. intros (r & Hr & Ho)%existsb_exists. unfold owned in Ho. breflect. by exists r. Qed.

Lemma info_logout u b db : wp (apply_logout_device env (Some u) b) db (fun _ db' => info_scope u db db').
Proof.
  apply wp_as_actor; [apply changed_refl|]. repeat wp_step; [apply changed_refl|]. simplify_eq. apply info_deleted; [done| |auto with pollis].
  intros x E. unfold owned in E. by breflect.
Qed.

Lemma info_resign u b db : wp (apply_resign_device_certs env (Some u) b) db (fun _ db' => info_scope u db db').
Proof.
  apply wp_as_actor; [apply changed_refl|]. wp_step; [apply changed_refl|].
  apply (wp_bind_inv (fun d => devices d = devices db /\ info_scope u db d)); [|done|intros _ d [_ Hd]; by apply wp_ret].
  apply wp_for_each; [split; [done|apply changed_refl]|]. intros c d _ [Ed Hd]. repeat wp_step; try done.
  destruct (is_owned _ _ _) eqn:E; simplify_eq; [|done]. split; [done|]. apply changed_alter; [done|]. intros i _. left.
  apply is_owned_In in E. by rewrite Ed in E.
Qed.

Lemma info_publish u d cert issued version pub db :
  wp (apply_publish_device_cert env u d cert issued version pub) db (fun _ db' => info_scope u db db').
Proof.
  apply wp_publish; [intros; apply changed_refl|intros; apply changed_refl|]. intros r apub db' _ _ _ _ Hi. unfold install_key in Hi.
  destruct (is_owned u d db) eqn:E; [injection Hi as <-|done]. apply changed_alter; [apply changed_refl|]. intros i _. left.
  by apply is_owned_In.
Qed.

Lemma register_departed u d name db : wp (apply_register_device env u d name) db (fun _ db' => departed u db db').
Proof.
  unfold apply_register_device. wp_step; [apply departed_refl|]. repeat wp_step; try done. simplify_eq.
  match goal with H : upsert_device _ _ _ _ _ = Some ?x |- _ => rename H into Hu; rename x into d1 end.
  assert (only [TDevices; TDeviceInfo] db d1 /\ info_scope u db d1) as [Ho Hi].
  { unfold upsert_device in Hu. destruct (existsb _ _) eqn:E; [injection Hu as <-|destruct (fk_holds _ _); [injection Hu as <-|done]].
    - split; [only_solve|]. intros k. simpl. destruct (decide (k = d)) as [->|Hne]; [|left; by rewrite lookup_alter_ne].
      rewrite lookup_alter_eq. destruct (device_info (accounts db) !! d) as [[n c t v]|]; [|by left]. simpl.
      destruct n as [n|]; [by left|right]. right. right. by eexists _, _.
    - split; [only_solve|]. apply changed_insert; [apply changed_refl|]. right. left. intros r Hr Ed.
      assert (existsb (fun r => bool_decide (dev_id r = d)) (devices db) = true); [|congruence]. apply existsb_exists. exists r.
      split; [done|by apply bool_decide_eq_true_2]. }
  assert (departed u db d1) as Hd by (eapply quiet_departed; [exact Ho|done|exact Hi]).
  assert (forall l w, changed (fun k old new => k.1.2 = u /\ old = None) (watermarks db) w ->
    changed (fun k old new => k.1.2 = u /\ old = None) (watermarks db)
      (fold_left (fun w c => insert_ignore (c, u, d) (datetime_now env) w) l w)) as Hseed.
  { intros l. induction l as [|c l IH]; intros w Hw; simpl; [done|]. apply IH, changed_insert_ignore; [done|].
    intros En. split; [done|]. destruct (Hw (c, u, d)) as [E|[_ E]]; [congruence|done]. }
  destruct Hd. split; try done. simpl. by apply Hseed, Hseed.
Qed.

(** What an account route may change: nothing of another account, and of the shared tables
    only what leaves with this one. *)
Definition account_scope (u : string) (db db' : MsgDb) : Prop := others_kept u db db' /\ departed u db db'.

Lemma account_op_departed u op db : wp (apply_account_op env u op) db (fun _ db' => departed u db db').
Proof.
  assert (wp (apply_account_op env u op) db (fun _ db' => info_scope u db db') ->
    within (account_tables op) (TDeviceInfo :: own_tables) = true ->
    wp (apply_account_op env u op) db (fun _ db' => departed u db db')) as Hq.
  { intros Hi Ht n. eapply quiet_departed; [apply account_op_only|done|apply Hi]. }
  assert (within (account_tables op) own_tables = true -> within (account_tables op) (TDeviceInfo :: own_tables) = true ->
    wp (apply_account_op env u op) db (fun _ db' => departed u db db')) as Hn.
  { intros Ht. apply Hq. intros n. apply info_same. by eapply only_within; [|apply (account_op_only env u op db n)]. }
  destruct op; try (apply Hn; reflexivity); clear Hn.
  - apply Hq; [apply wp_ignore, info_logout|done].
  - apply wp_ignore, reset_departed.
  - apply wp_ignore, delete_account_departed.
  - apply Hq; [apply wp_ignore, info_resign|done].
  - apply register_departed.
  - apply Hq; [apply wp_ignore, info_publish|done].
Qed.

Lemma account_op_scope u op db : (forall b, op <> ClaimKeyPackage b) ->
  wp (apply_account_op env u op) db (fun _ db' => account_scope u db db').
Proof. intros Hn n. split; [by apply account_op_kept|apply account_op_departed]. Qed.
End Departure.
