(* ===== verification/Service.v ===== *)
(** * pollis-delivery: the main-database routes as a service

    Composes the request gate of [Access] with the routes of [Groups], [Dms], [Messages] and
    [Accounts]: every axum handler of [groups.rs], [profile.rs], [messages.rs],
    [devices.rs], [account.rs] and [bootstrap.rs], and the part of the router of [lib.rs] that
    reaches them, behind the rate limiter.  The gate looks device keys up in the very
    tables the routes write.

    The lemmas are about whole requests: what an unauthenticated or authenticated request
    can change ([sound]), that every request keeps the identity invariants of [Accounts],
    and that an account-key log with those invariants is in the order the transparency
    bundle of [Builder] demands.  [Router] concludes from them. *)

From stdpp Require Import base list strings gmap.
From Stdlib Require Import NArith ZArith Lia ZifyNat ZifyN.
From S2P Require Import Prelude Crypto Merkle Log Tenants Monitor Builder Verifiers Relay Delivery Text Stores Access.
From S2P Require Import Tables Groups Dms Messages Accounts Frames.

(** ** Bodies and replies *)

Record EstablishIdentityBody := mkEstablishIdentity {
  ei_account_id_pub : string;
  ei_salt : string;
  ei_nonce : string;
  ei_wrapped_key : string
}.

Record RegisterDeviceBody := mkRegisterDevice { rg_device_id : string; rg_device_name : option string }.

Record PublishCertBody := mkPublishCert {
  pc_device_id : string;
  pc_device_cert : string;
  pc_cert_issued_at : Z;
  pc_cert_identity_version : N;
  pc_mls_signature_pub : string;
  pc_user_id : option string
}.

Record EnrollmentRequestBody := mkEnrollmentRequest {
  eq_request_id : string;
  eq_ephemeral_pub : string;
  eq_verification_code : string;
  eq_created_at : string;
  eq_expires_at : string
}.

Inductive MainReply : Type :=
| Plain (r : Reply)
| IdentityVersion (v : Z)
| VersionConflict (head : Z)
| ClaimedPackage (ref_hash : string) (key_package : string)
| NoPackage
| ConflictReply (msg : string)
| InternalError.

(** [serde_json] at every body of the main-database routes. *)
Class MainBodies := {
  js_create_group :: SerdeJson GroupRoutes.CreateGroupBody;
  js_update_group :: SerdeJson GroupRoutes.UpdateGroupBody;
  js_delete_group :: SerdeJson GroupRoutes.DeleteGroupBody;
  js_leave_group :: SerdeJson GroupRoutes.LeaveGroupBody;
  js_create_channel :: SerdeJson GroupRoutes.CreateChannelBody;
  js_update_channel :: SerdeJson GroupRoutes.UpdateChannelBody;
  js_delete_channel :: SerdeJson GroupRoutes.DeleteChannelBody;
  js_remove_member :: SerdeJson GroupRoutes.RemoveMemberBody;
  js_set_member_role :: SerdeJson GroupRoutes.SetMemberRoleBody;
  js_create_invite :: SerdeJson GroupRoutes.CreateInviteBody;
  js_accept_invite :: SerdeJson GroupRoutes.AcceptInviteBody;
  js_decline_invite :: SerdeJson GroupRoutes.DeclineInviteBody;
  js_create_join_request :: SerdeJson GroupRoutes.CreateJoinRequestBody;
  js_approve_join_request :: SerdeJson GroupRoutes.ApproveJoinRequestBody;
  js_reject_join_request :: SerdeJson GroupRoutes.RejectJoinRequestBody;
  js_update_profile :: SerdeJson DmRoutes.UpdateProfileBody;
  js_save_preferences :: SerdeJson DmRoutes.SavePreferencesBody;
  js_block :: SerdeJson DmRoutes.BlockBody;
  js_create_dm :: SerdeJson DmRoutes.CreateDmBody;
  js_accept_dm :: SerdeJson DmRoutes.AcceptDmBody;
  js_add_dm_member :: SerdeJson DmRoutes.AddDmMemberBody;
  js_remove_dm_member :: SerdeJson DmRoutes.RemoveDmMemberBody;
  js_leave_dm :: SerdeJson DmRoutes.LeaveDmBody;
  js_send_message :: SerdeJson MessageRoutes.SendMessageBody;
  js_edit_message :: SerdeJson MessageRoutes.EditMessageBody;
  js_delete_message :: SerdeJson MessageRoutes.DeleteMessageBody;
  js_reaction :: SerdeJson MessageRoutes.ReactionBody;
  js_watermark :: SerdeJson MessageRoutes.WatermarkBody;
  js_envelope_gc :: SerdeJson MessageRoutes.EnvelopeGcBody;
  js_attachment_register :: SerdeJson MessageRoutes.AttachmentRegisterBody;
  js_attachment_delete :: SerdeJson MessageRoutes.AttachmentDeleteBody;
  js_publish_key_packages :: SerdeJson AccountRoutes.PublishKeyPackagesBody;
  js_replenish_key_packages :: SerdeJson AccountRoutes.ReplenishKeyPackagesBody;
  js_claim_key_package :: SerdeJson AccountRoutes.ClaimKeyPackageBody;
  js_resign_device_certs :: SerdeJson AccountRoutes.ResignDeviceCertsBody;
  js_push_token :: SerdeJson AccountRoutes.PushTokenBody;
  js_rotate_identity :: SerdeJson AccountRoutes.RotateIdentityBody;
  js_delete_account :: SerdeJson AccountRoutes.DeleteAccountBody;
  js_reset_recover :: SerdeJson AccountRoutes.ResetRecoverBody;
  js_security_event :: SerdeJson AccountRoutes.SecurityEventBody;
  js_approve_enrollment :: SerdeJson AccountRoutes.ApproveEnrollmentBody;
  js_reject_enrollment :: SerdeJson AccountRoutes.RejectEnrollmentBody;
  js_revoke_device :: SerdeJson AccountRoutes.RevokeDeviceBody;
  js_logout_device :: SerdeJson AccountRoutes.LogoutDeviceBody;
  js_establish_identity :: SerdeJson EstablishIdentityBody;
  js_register_device :: SerdeJson RegisterDeviceBody;
  js_publish_cert :: SerdeJson PublishCertBody;
  js_enrollment_request :: SerdeJson EnrollmentRequestBody
}.

Section Handlers.
Context `{Sha256} `{!Ed25519} `{!Base64} `{!MainBodies}.

(** ** The handlers' shape *)

(** The state: [AppState], whose view of the main database is [db]'s, and the tables. *)
Definition State : Type := AppState * MsgDb.

Definition Handler : Type := Env -> SqlEnv -> State -> Request -> State * MainReply.

Definition sync (st : AppState) (db : MsgDb) : AppState :=
  mkAppState (require_auth st) (main_of db) (log_db st) (session_store st) (rate_config st) (rate_limiter st).

(** [state.db.conn()?]. *)
Definition main_conn (e : Env) : Result unit MainReply := map_err (fun er => Plain (Internal er)) (exec (fault e) StMemberConn tt).

(** Run [apply_*] on the connection; what it wrote before an error stays. *)
Definition run_apply {O} (m : Sql O) (outcome : O -> MainReply) (db : MsgDb) : MsgDb * MainReply :=
  let '(db', r) := run_sql m db in
  (db', match r with Ok o => outcome o | Err _ => InternalError end).

Definition outcome_response (o : WriteOutcome) : MainReply :=
  match o with Applied => Plain StatusOk | Forbidden => Plain (Rejection Auth.Forbidden) end.

(** After the gate: parse, connect, apply, reply. *)
Definition after_gate {B O} `{SerdeJson B} (apply : SqlEnv -> option string -> B -> Sql O) (outcome : O -> MainReply)
    (e : Env) (se : SqlEnv) (db : MsgDb) (rq : Request) (gated : Result (option string) Reply) : MsgDb * MainReply :=
  match (let? authed := map_err Plain gated in
         let? b := map_err Plain (parse (A := B) rq) in
         let? _ := main_conn e in
         Ok (authed, b)) with
  | Err reply => (db, reply)
  | Ok (authed, b) => run_apply (apply se authed b) outcome db
  end.

(** A device-signed handler. *)
Definition signed_route {B O} `{SerdeJson B} (apply : SqlEnv -> option string -> B -> Sql O) (outcome : O -> MainReply) : Handler :=
  fun e se '(st, db) rq =>
    let '(db', reply) := after_gate apply outcome e se db rq (gate e (sync st db) rq) in
    ((st, db'), reply).

(** A handler that also takes an OTP session. *)
Definition session_route {B O} `{SerdeJson B} (apply : SqlEnv -> option string -> B -> Sql O) (outcome : O -> MainReply) : Handler :=
  fun e se '(st, db) rq =>
    let '(st1, gated) := gate_or_session e (sync st db) rq in
    let '(db', reply) := after_gate apply outcome e se db rq gated in
    ((set_sessions st (session_store st1), db'), reply).

(** ** groups.rs *)

Definition create_group : Handler := signed_route GroupRoutes.apply_create_group outcome_response.
Definition update_group : Handler := signed_route GroupRoutes.apply_update_group outcome_response.
Definition delete_group : Handler := signed_route GroupRoutes.apply_delete_group outcome_response.
Definition leave_group : Handler := signed_route GroupRoutes.apply_leave_group outcome_response.
Definition create_channel : Handler := signed_route GroupRoutes.apply_create_channel outcome_response.
Definition update_channel : Handler := signed_route GroupRoutes.apply_update_channel outcome_response.
Definition delete_channel : Handler := signed_route GroupRoutes.apply_delete_channel outcome_response.
Definition remove_member : Handler := signed_route GroupRoutes.apply_remove_member outcome_response.
Definition set_member_role : Handler := signed_route GroupRoutes.apply_set_member_role outcome_response.
Definition create_invite : Handler := signed_route GroupRoutes.apply_create_invite outcome_response.
Definition accept_invite : Handler := signed_route GroupRoutes.apply_accept_invite outcome_response.
Definition decline_invite : Handler := signed_route GroupRoutes.apply_decline_invite outcome_response.
Definition create_join_request : Handler := signed_route GroupRoutes.apply_create_join_request outcome_response.
Definition approve_join_request : Handler := signed_route GroupRoutes.apply_approve_join_request outcome_response.
Definition reject_join_request : Handler := signed_route GroupRoutes.apply_reject_join_request outcome_response.

(** ** profile.rs *)

Definition update_profile : Handler := signed_route DmRoutes.apply_update_profile outcome_response.
Definition save_preferences : Handler := signed_route DmRoutes.apply_save_preferences outcome_response.
Definition block_user : Handler := signed_route DmRoutes.apply_block_user outcome_response.
Definition unblock_user : Handler := signed_route DmRoutes.apply_unblock_user outcome_response.
Definition create_dm : Handler := signed_route DmRoutes.apply_create_dm outcome_response.
Definition accept_dm : Handler := signed_route DmRoutes.apply_accept_dm outcome_response.
Definition add_dm_member : Handler := signed_route DmRoutes.apply_add_dm_member outcome_response.
Definition remove_dm_member : Handler := signed_route DmRoutes.apply_remove_dm_member outcome_response.
Definition leave_dm : Handler := signed_route DmRoutes.apply_leave_dm outcome_response.

(** ** messages.rs *)

Definition send_message : Handler := signed_route MessageRoutes.apply_send_message outcome_response.
Definition edit_message : Handler := signed_route MessageRoutes.apply_edit_message outcome_response.
Definition delete_message : Handler := signed_route MessageRoutes.apply_delete_message outcome_response.
Definition add_reaction : Handler := signed_route MessageRoutes.apply_add_reaction outcome_response.
Definition remove_reaction : Handler := signed_route MessageRoutes.apply_remove_reaction outcome_response.
Definition advance_watermark : Handler := signed_route MessageRoutes.apply_advance_watermark outcome_response.
Definition envelope_gc : Handler := signed_route MessageRoutes.apply_envelope_gc outcome_response.
Definition register_attachment : Handler :=
  signed_route (fun se _ => MessageRoutes.apply_register_attachment se) outcome_response.
Definition delete_attachment : Handler :=
  signed_route (fun se _ => MessageRoutes.apply_delete_attachment se) outcome_response.

(** ** devices.rs *)

Definition claim_outcome_response (o : AccountRoutes.ClaimOutcome) : MainReply :=
  match o with
  | AccountRoutes.Claimed h kp => ClaimedPackage h (b64_encode kp)
  | AccountRoutes.NoKeyPackage => NoPackage
  end.

Definition publish_key_packages : Handler := signed_route (fun se => AccountRoutes.apply_publish_key_packages se) outcome_response.
Definition replenish_key_packages : Handler := signed_route (fun se => AccountRoutes.apply_replenish_key_packages se) outcome_response.
Definition claim_key_package : Handler :=
  signed_route (fun se _ => AccountRoutes.apply_claim_key_package se) claim_outcome_response.
Definition resign_device_certs : Handler := signed_route (fun se => AccountRoutes.apply_resign_device_certs se) outcome_response.
Definition register_push_token : Handler := signed_route (fun se => AccountRoutes.apply_register_push_token se) outcome_response.

(** ** account.rs *)

Definition rotate_outcome_response (o : AccountRoutes.RotateOutcome) : MainReply :=
  match o with
  | AccountRoutes.RotateApplied v => IdentityVersion v
  | AccountRoutes.RotateForbidden => Plain (Rejection Auth.Forbidden)
  | AccountRoutes.RotateConflict h => VersionConflict h
  end.

Definition rotate_identity : Handler := session_route (fun se => AccountRoutes.apply_rotate_identity se) rotate_outcome_response.
Definition reset_recover : Handler := session_route (fun se => AccountRoutes.apply_reset_recover se) outcome_response.
Definition record_security_event : Handler := signed_route (fun se => AccountRoutes.apply_record_security_event se) outcome_response.
Definition approve_enrollment : Handler := signed_route (fun se => AccountRoutes.apply_approve_enrollment se) outcome_response.
Definition reject_enrollment : Handler := signed_route (fun se => AccountRoutes.apply_reject_enrollment se) outcome_response.
Definition revoke_device : Handler := signed_route (fun se => AccountRoutes.apply_revoke_device se) outcome_response.
Definition logout_device : Handler := signed_route (fun se => AccountRoutes.apply_logout_device se) outcome_response.

(** [delete_account]: an empty body needs no parsing. *)
Definition delete_account : Handler := fun e se '(st, db) rq =>
  let gated := gate e (sync st db) rq in
  let parsed := match body rq with
                | [] => Ok (AccountRoutes.mkDeleteAccount None)
                | _ => map_err Plain (parse (A := AccountRoutes.DeleteAccountBody) rq)
                end in
  match (let? authed := map_err Plain gated in let? b := parsed in let? _ := main_conn e in Ok (authed, b)) with
  | Err reply => ((st, db), reply)
  | Ok (authed, b) =>
      let '(db', reply) := run_apply (AccountRoutes.apply_delete_account se authed b) outcome_response db in
      ((st, db'), reply)
  end.

(** ** bootstrap.rs: the handlers behind a session *)

(** [verify_session], its expired entry dropped; no session is a 401. *)
Definition with_session (e : Env) (st : AppState) (rq : Request) : AppState * Result Session.SessionClaims MainReply :=
  let '(sessions', claims) := Session.verify_session (headers rq) (session_store st) (now_u64 e) in
  (set_sessions st sessions', ok_or claims (Plain (Rejection Auth.Unauthorized))).

Definition bad (msg : string) : MainReply := Plain (BadRequest msg).

Definition b64_or (msg : string) (s : string) : Result bytes MainReply := ok_or (b64_decode_opt s) (bad msg).

(** A bootstrap handler ends by running its statements or with a reply. *)
Definition finish {O} (st : AppState) (db : MsgDb) (r : Result (Sql O * (O -> MainReply)) MainReply) : State * MainReply :=
  match r with
  | Err reply => ((st, db), reply)
  | Ok (m, outcome) => let '(db', reply) := run_apply m outcome db in ((st, db'), reply)
  end.

Definition establish_identity : Handler := fun e se '(st, db) rq =>
  let '(st, claims) := with_session e st rq in
  finish st db (
    let? claims := claims in
    let? b := map_err Plain (parse (A := EstablishIdentityBody) rq) in
    let? pub := b64_or "invalid base64 field" (ei_account_id_pub b) in
    let? salt := b64_or "invalid base64 field" (ei_salt b) in
    let? nonce := b64_or "invalid base64 field" (ei_nonce b) in
    let? wrapped := b64_or "invalid base64 field" (ei_wrapped_key b) in
    let? _ := (if length pub =? 32 then Ok tt else Err (bad "account_id_pub must be 32 bytes")) in
    let? _ := main_conn e in
    Ok (AccountRoutes.apply_establish_identity se (Session.claim_user_id claims) pub salt nonce wrapped,
        fun o => match o with
                 | AccountRoutes.EstablishApplied => Plain StatusOk
                 | AccountRoutes.EstablishConflict => ConflictReply "identity already established"
                 end)).

Definition blank (s : string) : bool := bool_decide (trim s = "").

Definition register_device : Handler := fun e se '(st, db) rq =>
  let '(st, claims) := with_session e st rq in
  finish st db (
    let? claims := claims in
    let? b := map_err Plain (parse (A := RegisterDeviceBody) rq) in
    let? _ := (if blank (rg_device_id b) || negb (bool_decide (rg_device_id b = Session.claim_device_id claims))
               then Err (Plain (Rejection Auth.Forbidden)) else Ok tt) in
    let name := match rg_device_name b with Some s => if blank s then "device" else s | None => "device" end in
    let? _ := main_conn e in
    Ok (AccountRoutes.apply_register_device se (Session.claim_user_id claims) (Session.claim_device_id claims) name,
        fun _ => Plain StatusOk)).

(** The pivot: a live session binds the user and the device, else the body's user does and
    the certificate is the proof.  The session is spent when the key is installed. *)
Definition publish_device_cert : Handler := fun e se '(st, db) rq =>
  let pre :=
    let? b := map_err Plain (parse (A := PublishCertBody) rq) in
    let? cert := b64_or "invalid device_cert" (pc_device_cert b) in
    let? pub := b64_or "invalid mls_signature_pub" (pc_mls_signature_pub b) in
    let? _ := (if (pc_cert_issued_at b <? 0)%Z then Err (bad "cert_issued_at must be non-negative") else Ok tt) in
    Ok (b, cert, pub) in
  match pre with
  | Err reply => ((st, db), reply)
  | Ok (b, cert, pub) =>
      let token := match Session.session_token (headers rq) with
                   | Some t => if bool_decide (t = "") then None else Some t | None => None end in
      let '(sessions', claims) := match token with
                                  | Some t => Session.resolve (session_store st) t (now_u64 e)
                                  | None => (session_store st, None) end in
      let st := set_sessions st sessions' in
      let who :=
        match claims with
        | Some c =>
            if negb (bool_decide (pc_device_id b = Session.claim_device_id c)) then Err (Plain (Rejection Auth.Forbidden))
            else Ok (Session.claim_user_id c, Session.claim_device_id c, token)
        | None =>
            match pc_user_id b with
            | Some u => if blank u then Err (Plain (Rejection Auth.Unauthorized)) else Ok (u, pc_device_id b, None)
            | None => Err (Plain (Rejection Auth.Unauthorized))
            end
        end in
      match (let? who := who in let? _ := main_conn e in Ok who) with
      | Err reply => ((st, db), reply)
      | Ok (u, d, spend) =>
          let '(db', r) := run_sql (AccountRoutes.apply_publish_device_cert se u d cert (Z.to_N (pc_cert_issued_at b))
                                      (pc_cert_identity_version b) pub) db in
          match r with
          | Ok AccountRoutes.PublishApplied =>
              let st := match spend with Some t => set_sessions st (Session.invalidate (session_store st) t) | None => st end in
              ((st, db'), Plain StatusOk)
          | Ok AccountRoutes.IdentityNotEstablished => ((st, db'), ConflictReply "account identity not established")
          | Ok AccountRoutes.CertInvalid => ((st, db'), Plain (Rejection Auth.Unauthorized))
          | Ok AccountRoutes.DeviceNotRegistered => ((st, db'), ConflictReply "device not registered for this user")
          | Err _ => ((st, db'), InternalError)
          end
      end
  end.

(** The notification after the insert goes to an outside service and is best effort. *)
Definition enrollment_request : Handler := fun e se '(st, db) rq =>
  let '(st, claims) := with_session e st rq in
  finish st db (
    let? claims := claims in
    let? b := map_err Plain (parse (A := EnrollmentRequestBody) rq) in
    let? eph := b64_or "invalid new_device_ephemeral_pub" (eq_ephemeral_pub b) in
    let? _ := main_conn e in
    Ok (AccountRoutes.apply_enrollment_request se (Session.claim_user_id claims) (Session.claim_device_id claims)
          (eq_request_id b) eph (eq_verification_code b) (eq_created_at b) (eq_expires_at b),
        fun _ => Plain StatusOk)).

(** ** lib.rs: the router's main-database routes *)

Definition main_routes : list (string * Handler) := [
  ("/v1/messages/send", send_message); ("/v1/messages/edit", edit_message); ("/v1/messages/delete", delete_message);
  ("/v1/reactions/add", add_reaction); ("/v1/reactions/remove", remove_reaction);
  ("/v1/watermarks/advance", advance_watermark); ("/v1/envelopes/gc", envelope_gc);
  ("/v1/attachments/register", register_attachment); ("/v1/attachments/delete", delete_attachment);
  ("/v1/groups/create", create_group); ("/v1/groups/update", update_group); ("/v1/groups/delete", delete_group);
  ("/v1/groups/leave", leave_group); ("/v1/channels/create", create_channel); ("/v1/channels/update", update_channel);
  ("/v1/channels/delete", delete_channel); ("/v1/members/remove", remove_member); ("/v1/members/role", set_member_role);
  ("/v1/invites/create", create_invite); ("/v1/invites/accept", accept_invite); ("/v1/invites/decline", decline_invite);
  ("/v1/join-requests/create", create_join_request); ("/v1/join-requests/approve", approve_join_request);
  ("/v1/join-requests/reject", reject_join_request);
  ("/v1/profile/update", update_profile); ("/v1/profile/preferences", save_preferences);
  ("/v1/blocks/add", block_user); ("/v1/blocks/remove", unblock_user);
  ("/v1/dm/create", create_dm); ("/v1/dm/accept", accept_dm); ("/v1/dm/add", add_dm_member);
  ("/v1/dm/remove", remove_dm_member); ("/v1/dm/leave", leave_dm);
  ("/v1/key-packages", publish_key_packages); ("/v1/key-packages/claim", claim_key_package);
  ("/v1/key-packages/replenish", replenish_key_packages); ("/v1/devices/resign", resign_device_certs);
  ("/v1/push-tokens", register_push_token);
  ("/v1/account/rotate-identity", rotate_identity); ("/v1/account/delete", delete_account);
  ("/v1/account/reset-recover", reset_recover); ("/v1/security-events", record_security_event);
  ("/v1/enrollment/approve", approve_enrollment); ("/v1/enrollment/reject", reject_enrollment);
  ("/v1/devices/revoke", revoke_device); ("/v1/auth/logout", logout_device);
  ("/v1/auth/establish-identity", establish_identity); ("/v1/auth/register-device", register_device);
  ("/v1/auth/publish-device-cert", publish_device_cert); ("/v1/auth/enrollment-request", enrollment_request)].

Definition main_handler (p : string) : option Handler :=
  snd <$> find (fun r : string * Handler => bool_decide (r.1 = p)) main_routes.

(** A request through the rate limiter to its handler. *)
Definition serve_main : Handler := fun e se '(st, db) rq =>
  let '(rl, pass) :=
    RateLimit.rate_limit (rate_config st) (rate_limiter st) (method rq) (path rq) (headers rq) (now_u64 e) in
  let st := set_limiter st rl in
  if negb pass then ((st, db), Plain TooManyRequests)
  else
    match (if bool_decide (method rq = "POST") then main_handler (path rq) else None) with
    | Some h => h e se (st, db) rq
    | None => ((st, db), Plain NoRoute)
    end.
End Handlers.

(** ** What a request can change *)

Section Requests.
Context `{Sha256} `{!Ed25519} `{!Base64} `{!MainBodies}.
Import AccountRoutes.

(** The permission that governs a route. *)
Inductive Family : Type := MessageRoute | GroupRoute | DmRoute | AccountRoute | ClaimRoute.

(** Path by path: the permission, and the only tables the route may write. *)
Definition route_writes : list (string * (Family * list Table)) := [
  ("/v1/messages/send", (MessageRoute, [TEnvelopes])); ("/v1/messages/edit", (MessageRoute, [TEnvelopes]));
  ("/v1/messages/delete", (MessageRoute, [TEnvelopes])); ("/v1/reactions/add", (MessageRoute, [TReactions]));
  ("/v1/reactions/remove", (MessageRoute, [TReactions])); ("/v1/watermarks/advance", (MessageRoute, [TWatermarks]));
  ("/v1/envelopes/gc", (MessageRoute, [TEnvelopes])); ("/v1/attachments/register", (MessageRoute, [TAttachments]));
  ("/v1/attachments/delete", (MessageRoute, [TAttachments]));
  ("/v1/groups/create", (GroupRoute, [TGroups; TMembers; TChannels])); ("/v1/groups/update", (GroupRoute, [TGroups]));
  ("/v1/groups/delete", (GroupRoute, [TGroups; TMembers; TChannels; TInvites; TJoins]));
  ("/v1/groups/leave", (GroupRoute, [TGroups; TMembers; TChannels; TInvites; TJoins]));
  ("/v1/channels/create", (GroupRoute, [TChannels])); ("/v1/channels/update", (GroupRoute, [TChannels]));
  ("/v1/channels/delete", (GroupRoute, [TChannels; TEnvelopes; TWatermarks]));
  ("/v1/members/remove", (GroupRoute, [TMembers])); ("/v1/members/role", (GroupRoute, [TMembers]));
  ("/v1/invites/create", (GroupRoute, [TInvites])); ("/v1/invites/accept", (GroupRoute, [TMembers; TWatermarks; TInvites]));
  ("/v1/invites/decline", (GroupRoute, [TInvites])); ("/v1/join-requests/create", (GroupRoute, [TJoins]));
  ("/v1/join-requests/approve", (GroupRoute, [TMembers; TWatermarks; TJoins]));
  ("/v1/join-requests/reject", (GroupRoute, [TJoins]));
  ("/v1/profile/update", (DmRoute, [TUsers])); ("/v1/profile/preferences", (DmRoute, [TPreferences]));
  ("/v1/blocks/add", (DmRoute, [TBlocks; TDmMembers])); ("/v1/blocks/remove", (DmRoute, [TBlocks]));
  ("/v1/dm/create", (DmRoute, [TDms; TDmMembers; TWatermarks])); ("/v1/dm/accept", (DmRoute, [TDmMembers]));
  ("/v1/dm/add", (DmRoute, [TDmMembers; TWatermarks])); ("/v1/dm/remove", (DmRoute, [TDmMembers]));
  ("/v1/dm/leave", (DmRoute, [TDms; TDmMembers; TEnvelopes]));
  ("/v1/key-packages", (AccountRoute, [TPackages])); ("/v1/key-packages/claim", (ClaimRoute, [TPackages]));
  ("/v1/key-packages/replenish", (AccountRoute, [TPackages])); ("/v1/devices/resign", (AccountRoute, [TDeviceInfo]));
  ("/v1/push-tokens", (AccountRoute, [TTokens]));
  ("/v1/account/rotate-identity", (AccountRoute, [TKeyLog; TUsers; TRecovery]));
  ("/v1/account/delete", (AccountRoute, leaving_tables ++ [TEnvelopes; TUsers; TPreferences; TBlocks; TReactions; TRecovery; TEnrollments; TEvents]));
  ("/v1/account/reset-recover", (AccountRoute, leaving_tables)); ("/v1/security-events", (AccountRoute, [TEvents]));
  ("/v1/enrollment/approve", (AccountRoute, [TEnrollments])); ("/v1/enrollment/reject", (AccountRoute, [TEnrollments]));
  ("/v1/devices/revoke", (AccountRoute, [TPackages; TDevices])); ("/v1/auth/logout", (AccountRoute, [TDevices; TDeviceInfo]));
  ("/v1/auth/establish-identity", (AccountRoute, [TKeyLog; TUsers; TRecovery]));
  ("/v1/auth/register-device", (AccountRoute, [TDevices; TDeviceInfo; TWatermarks]));
  ("/v1/auth/publish-device-cert", (AccountRoute, [TDevices; TDeviceInfo]));
  ("/v1/auth/enrollment-request", (AccountRoute, [TEnrollments]))].

Definition writes_of (p : string) : option (Family * list Table) :=
  snd <$> find (fun r : string * (Family * list Table) => bool_decide (r.1 = p)) route_writes.

(** The message operation a request asks for. *)
Definition message_request (rq : Request) (op : MessageRoutes.MessageOp) : Prop :=
  match op with
  | MessageRoutes.SendMessage b => path rq = "/v1/messages/send" /\ from_slice (body rq) = Ok b
  | MessageRoutes.EditMessage b => path rq = "/v1/messages/edit" /\ from_slice (body rq) = Ok b
  | MessageRoutes.DeleteMessage b => path rq = "/v1/messages/delete" /\ from_slice (body rq) = Ok b
  | MessageRoutes.AddReaction b => path rq = "/v1/reactions/add" /\ from_slice (body rq) = Ok b
  | MessageRoutes.RemoveReaction b => path rq = "/v1/reactions/remove" /\ from_slice (body rq) = Ok b
  | MessageRoutes.AdvanceWatermark b => path rq = "/v1/watermarks/advance" /\ from_slice (body rq) = Ok b
  | MessageRoutes.EnvelopeGc b => path rq = "/v1/envelopes/gc" /\ from_slice (body rq) = Ok b
  | MessageRoutes.RegisterAttachment b => path rq = "/v1/attachments/register" /\ from_slice (body rq) = Ok b
  | MessageRoutes.DeleteAttachment b => path rq = "/v1/attachments/delete" /\ from_slice (body rq) = Ok b
  end.

(** What [u] may have changed by request [rq]: the rows the permission of that route gives
    [u], in the tables of that route. *)
Definition permitted (rq : Request) (u : string) (db db' : MsgDb) : Prop :=
  exists fam ts, writes_of (path rq) = Some (fam, ts) /\ only ts db db' /\
    match fam with
    | MessageRoute => exists op, message_request rq op /\ message_scope u op db db'
    | GroupRoute => group_scope u db db'
    | DmRoute => dm_scope u db db'
    | AccountRoute => account_scope u db db'
    | ClaimRoute => exists b, from_slice (A := ClaimKeyPackageBody) (body rq) = Ok b /\ (db' = db \/ exists r, claim_statement b db = Some (db', r))
    end.

(** A live session whose user is [u]. *)
Definition live_session (st : AppState) (now : N) (rq : Request) (u : string) : Prop :=
  exists token rec, get_str (headers rq) Session.SESSION_HEADER = Some token /\ token <> "" /\
    session_store st !! Session.hash_token token = Some rec /\ (now <= Session.expires_at rec)%N /\ Session.user_id rec = u.

Definition session_paths : list string :=
  ["/v1/account/rotate-identity"; "/v1/account/reset-recover"; "/v1/auth/establish-identity"; "/v1/auth/register-device";
   "/v1/auth/publish-device-cert"; "/v1/auth/enrollment-request"].

(** The body carries a certificate by the account's live key. *)
Definition certified (db : MsgDb) (rq : Request) (u : string) : Prop :=
  exists b cert pub r apub, from_slice (A := PublishCertBody) (body rq) = Ok b /\
    b64_decode_opt (pc_device_cert b) = Some cert /\ b64_decode_opt (pc_mls_signature_pub b) = Some pub /\
    users db !! u = Some r /\ prf_account_id_pub r = Some apub /\
    verify_device_cert apub (pc_device_id b) pub (pc_cert_identity_version b) (Z.to_N (pc_cert_issued_at b)) cert = true.

(** What a request must carry to act for [u]. *)
Definition credential (e : Env) (st : AppState) (db : MsgDb) (rq : Request) (u : string) : Prop :=
  authentic (main_of db) (now_i64 e) rq u \/
  path rq ∈ session_paths /\ live_session st (now_u64 e) rq u \/
  path rq = "/v1/auth/publish-device-cert" /\ certified db rq u.

Definition in_range (rq : Request) : Prop :=
  forall b, from_slice (A := RotateIdentityBody) (body rq) = Ok b -> (ri_based_on_version b < 2 ^ 63 - 1)%Z.

(** The commit-log database and the setting are as before. *)
Definition kept (st st' : AppState) : Prop := (require_auth st', log_db st') = (require_auth st, log_db st).

#[local] Hint Extern 1 (kept _ _) => reflexivity : core.

(** What every handler guarantees of a request on [p]. *)
Definition sound (p : string) (h : Handler) : Prop := forall e se st db rq, path rq = p -> require_auth st = true ->
  let '((st', db'), _) := h e se (st, db) rq in
  kept st st' /\ (db' = db \/ exists u, credential e st db rq u /\ permitted rq u db db') /\
  (in_range rq -> identities_ok db -> identities_ok db').

Lemma wp_run {A} (m : Sql A) db (Q : Result A SqlError -> MsgDb -> Prop) : wp m db Q ->
  Q (run_sql m db).2 (run_sql m db).1.
Proof. intros Hm. exact (Hm 0). Qed.

(** A route: what it may change, and that it keeps the identities. *)
Record route_ok {B O} `{SerdeJson B} (p : string) (apply : SqlEnv -> option string -> B -> Sql O) : Prop := {
  rt_scope : forall se u b db rq, path rq = p -> from_slice (A := B) (body rq) = Ok b ->
    wp (apply se (Some u) b) db (fun _ db' => permitted rq u db db');
  rt_keys : forall se u b db rq, from_slice (A := B) (body rq) = Ok b -> in_range rq -> identities_ok db ->
    wp (apply se (Some u) b) db (fun _ db' => identities_ok db')
}.

Lemma after_gate_ok {B O} `{SerdeJson B} (apply : SqlEnv -> option string -> B -> Sql O) outcome e se db rq gated :
  route_ok (path rq) apply -> (forall authed, gated = Ok authed -> exists u, authed = Some u) ->
  let db' := (after_gate apply outcome e se db rq gated).1 in
  (db' = db \/ exists u, gated = Ok (Some u) /\ permitted rq u db db') /\ (in_range rq -> identities_ok db -> identities_ok db').
Proof.
  intros [Hs Hk] Hg db'. subst db'. unfold after_gate. destruct gated as [authed|r]; [|simpl; auto].
  destruct (Hg authed eq_refl) as [u ->]. simpl. unfold parse. destruct (from_slice (body rq)) as [b|] eqn:Eb; [|simpl; auto].
  simpl. destruct (main_conn e); [|simpl; auto]. simpl. split.
  - right. exists u. split; [done|]. exact (wp_run _ _ _ (Hs se u b db rq eq_refl Eb)).
  - intros Hr Hi. exact (wp_run _ _ _ (Hk se u b db rq Eb Hr Hi)).
Qed.

Lemma signed_route_sound {B O} `{SerdeJson B} (apply : SqlEnv -> option string -> B -> Sql O) outcome p :
  route_ok p apply -> sound p (signed_route apply outcome).
Proof.
  intros Hr e se st db rq <- Ha. unfold signed_route.
  pose proof (gate_sound e (sync st db) rq) as Hg.
  pose proof (after_gate_ok apply outcome e se db rq (gate e (sync st db) rq) Hr) as Hok. cbv zeta in Hok.
  destruct (after_gate _ _ _ _ _ _ _) as [db' reply]. simpl in Hok. destruct Hok as [Hc Hi].
  { intros authed E. destruct (Hg authed Ha E) as (u & -> & _). by exists u. }
  split_and!; [done| |done]. destruct Hc as [?|(u & Eg & Hp)]; [by left|right]. exists u. split; [|done]. left.
  destruct (Hg _ Ha Eg) as (u' & [= ->] & Hu). exact Hu.
Qed.

Lemma session_route_sound {B O} `{SerdeJson B} (apply : SqlEnv -> option string -> B -> Sql O) outcome p :
  p ∈ session_paths -> route_ok p apply -> sound p (session_route apply outcome).
Proof.
  intros Hp Hr e se st db rq <- Ha. unfold session_route. destruct (gate_or_session e (sync st db) rq) as [st1 gated] eqn:Eg.
  pose proof (gate_or_session_sound e (sync st db) rq st1 gated Ha Eg) as (_ & _ & Hg).
  pose proof (after_gate_ok apply outcome e se db rq gated Hr) as Hok. cbv zeta in Hok.
  destruct (after_gate _ _ _ _ _ _ _) as [db' reply]. simpl in Hok. destruct Hok as [Hc Hi].
  { intros authed E. destruct (Hg authed E) as (u & -> & _). by exists u. }
  split_and!; [done| |done]. destruct Hc as [?|(u & E & Hpm)]; [by left|right]. exists u. split; [|done].
  destruct (Hg _ E) as (u' & [= ->] & [Hu|[_ Hu]]); [by left|]. right. left. by split.
Qed.

(** *** The route families *)

Lemma frame_identities db db' : frame db db' -> identities_ok db -> identities_ok db'.
Proof. intros Hf [Hk Hc]. split; [by eapply frame_keys|by eapply frame_certified]. Qed.

Lemma group_route_ok {B} `{SerdeJson B} p (apply : SqlEnv -> option string -> B -> Sql WriteOutcome) (op : B -> GroupRoutes.GroupOp) :
  (forall se u b, apply se (Some u) b = GroupRoutes.apply_group_op se (Some u) (op b)) ->
  (forall b, writes_of p = Some (GroupRoute, group_tables (op b))) -> route_ok p apply.
Proof.
  intros He Hp. assert (forall se u b db, wp (apply se (Some u) b) db (fun _ db' => group_scope u db db')) as Hs
    by (intros se u b db; rewrite He; apply group_op_scope).
  split; intros se u b db.
  - intros rq <- _ n. exists GroupRoute, (group_tables (op b)). split_and!; [apply Hp| |apply Hs]. rewrite He. apply group_op_only.
  - intros rq _ _ Hi n. apply (frame_identities db); [|done]. destruct (Hs se u b db n) as [? ? ? ? ? ? ? (Eu & _ & Ed & _ & _ & _ & _ & _ & Ea)].
    eapply frame_same; [apply frame_refl|congruence..].
Qed.

Lemma dm_route_ok {B} `{SerdeJson B} p (apply : SqlEnv -> option string -> B -> Sql WriteOutcome) (op : B -> DmRoutes.DmOp) :
  (forall se u b, apply se (Some u) b = DmRoutes.apply_dm_op se (Some u) (op b)) ->
  (forall b, writes_of p = Some (DmRoute, dm_tables (op b))) -> route_ok p apply.
Proof.
  intros He Hp. assert (forall se u b db, wp (apply se (Some u) b) db (fun _ db' => dm_scope u db db')) as Hs
    by (intros se u b db; rewrite He; apply dm_op_scope).
  split; intros se u b db.
  - intros rq <- _ n. exists DmRoute, (dm_tables (op b)). split_and!; [apply Hp| |apply Hs]. rewrite He. apply dm_op_only.
  - intros rq _ _ Hi n. apply (frame_identities db); [|done].
    destruct (Hs se u b db n) as [Hus _ _ _ _ _ _ (Ed & _ & _ & _ & _ & _ & _ & _ & Ea)]. split; [congruence| |rewrite Ed; intros r' pub ? ?; by exists r'].
    intros v r' Hr. destruct (Hus v) as [E|(_ & r & r1 & Hr0 & Hr1 & _ & Ep & Ev)]; [exists r'; split; [congruence|done]|].
    exists r. split; [done|]. by assert (r1 = r') as -> by congruence.
Qed.

Lemma message_route_ok {B} `{SerdeJson B} p (apply : SqlEnv -> option string -> B -> Sql WriteOutcome) (op : B -> MessageRoutes.MessageOp) :
  (forall se u b, apply se (Some u) b = MessageRoutes.apply_message_op se (Some u) (op b)) ->
  (forall b rq, path rq = p -> from_slice (body rq) = Ok b -> message_request rq (op b)) ->
  (forall b, writes_of p = Some (MessageRoute, message_tables (op b))) -> route_ok p apply.
Proof.
  intros He Hrq Hp. assert (forall se u b db, wp (apply se (Some u) b) db (fun _ db' => message_scope u (op b) db db')) as Hs
    by (intros se u b db; rewrite He; apply message_op_scope).
  split; intros se u b db.
  - intros rq <- Hb n. exists MessageRoute, (message_tables (op b)). split_and!; [apply Hp|rewrite He; apply message_op_only|].
    exists (op b). split; [by apply Hrq|apply Hs].
  - intros rq _ _ Hi n. apply (frame_identities db); [|done].
    destruct (Hs se u b db n) as [_ _ _ _ (Eu & _ & Ed & _ & _ & _ & _ & _ & _ & _ & _ & Ea)].
    eapply frame_same; [apply frame_refl|congruence..].
Qed.

(** An account route is one of the operations of [Accounts]. *)
Definition account_request (rq : Request) (op : AccountOp) : Prop :=
  (forall b, op <> ClaimKeyPackage b) /\ writes_of (path rq) = Some (AccountRoute, account_tables op).

Lemma account_permitted se rq u op db : account_request rq op ->
  wp (apply_account_op se u op) db (fun _ db' => permitted rq u db db').
Proof.
  intros [Hn Hw] n. exists AccountRoute, (account_tables op). split_and!; [done|apply account_op_only|by apply account_op_scope].
Qed.

Lemma account_route_ok {B O} `{SerdeJson B} p (apply : SqlEnv -> option string -> B -> Sql O) (op : B -> AccountOp) :
  (forall se u b, apply_account_op se u (op b) = ignore (apply se (Some u) b)) ->
  (forall b rq, path rq = p -> account_request rq (op b)) ->
  (forall b rq, from_slice (A := B) (body rq) = Ok b -> in_range rq -> version_in_range (op b)) -> route_ok p apply.
Proof.
  intros He Hn Hv. split; intros se u b db.
  - intros rq Hp _. apply (wp_ignore_inv _ db (fun db' => permitted rq u db db')). rewrite <- He. by apply account_permitted, Hn.
  - intros rq Hb Hr Hi. apply (wp_ignore_inv _ db (fun db' => identities_ok db')). rewrite <- He.
    apply account_op_identities; [by eapply Hv|done].
Qed.

Lemma claim_route_ok : route_ok (B := ClaimKeyPackageBody) "/v1/key-packages/claim" (fun se _ => apply_claim_key_package se).
Proof.
  split; intros se u b db.
  - intros rq Hp Hb n. exists ClaimRoute, [TPackages]. rewrite Hp. split_and!; [done| |exists b; split; [done|]].
    + apply (wp_ignore_inv _ db (fun db' => only [TPackages] db db')). apply (account_op_only se u (ClaimKeyPackage b)).
    + revert n. unfold apply_claim_key_package. change (wp (let* row := update se (claim_statement b) in
        ret (match row with Some r => Claimed (kp_ref_hash r) (kp_key_package r) | None => NoKeyPackage end)) db
        (fun _ db' => db' = db \/ exists r, claim_statement b db = Some (db', r))).
      wp_step; wp_step; [by left|]. apply wp_ret. right. eauto.
  - intros rq _ _ Hi. apply (wp_ignore_inv _ db (fun db' => identities_ok db')).
    apply (account_op_identities se u (ClaimKeyPackage b)); done.
Qed.

(** *** The bootstrap handlers *)

Lemma with_session_sound e st rq st' r : with_session e st rq = (st', r) ->
  kept st st' /\ forall c, r = Ok c -> live_session st (now_u64 e) rq (Session.claim_user_id c).
Proof.
  unfold with_session. destruct (Session.verify_session _ _ _) as [s' o] eqn:Ev. intros [= <- <-]. split; [done|].
  intros c E. destruct o as [c'|]; [|done]. apply Ok_inj in E as <-. eapply verify_session_sound in Ev. exact Ev.
Qed.

(** A handler that ends in [finish] runs an operation for the session's user. *)
Lemma finish_sound {O} e st st1 db rq (r : Result (Sql O * (O -> MainReply)) MainReply) :
  kept st st1 -> path rq ∈ session_paths ->
  (forall m o, r = Ok (m, o) -> exists u se op, live_session st (now_u64 e) rq u /\
     account_request rq op /\ version_in_range op /\
     ((exists f, apply_account_op se u op = bind m f /\ f = fun _ => ret tt) \/
      forall I : MsgDb -> Prop, wp (apply_account_op se u op) db (fun _ db' => I db') -> wp m db (fun _ db' => I db'))) ->
  let '((st', db'), _) := finish st1 db r in
  kept st st' /\ (db' = db \/ exists u, credential e st db rq u /\ permitted rq u db db') /\
  (in_range rq -> identities_ok db -> identities_ok db').
Proof.
  intros Ha1 Hp Hm. unfold finish. destruct r as [[m o]|reply]; [|split_and!; auto].
  destruct (Hm m o eq_refl) as (u & se & op & Hl & Hn & Hv & Hop).
  assert (forall I : MsgDb -> Prop, wp (apply_account_op se u op) db (fun _ db' => I db') -> I (run_sql m db).1) as Hrun.
  { intros I Hw. destruct Hop as [(f & Ef & ->)|Hop]; [|exact (wp_run m db (fun _ d => I d) (Hop I Hw))].
    rewrite Ef in Hw. exact (wp_run m db (fun _ d => I d) (wp_ignore_inv m db I Hw)). }
  unfold run_apply. destruct (run_sql m db) as [db' res] eqn:Er. simpl in Hrun. split_and!; [done| |].
  - right. exists u. split; [right; left; done|]. apply Hrun. by apply account_permitted.
  - intros _ Hi. apply Hrun. by apply account_op_identities.
Qed.

Ltac open_result :=
  repeat match goal with
  | H : rbind ?r _ = Ok _ |- _ => destruct r eqn:?; simpl in H; [|discriminate H]
  end.

Lemma establish_identity_sound : sound "/v1/auth/establish-identity" establish_identity.
Proof.
  intros e se st db rq Ep Ha. unfold establish_identity. destruct (with_session e st rq) as [st1 claims] eqn:Es.
  destruct (with_session_sound _ _ _ _ _ Es) as [Ha1 Hl]. apply finish_sound; [done|rewrite Ep; set_solver|].
  intros m o E. destruct claims as [c|]; [|done]. simpl in E. open_result. injection E as <- <-.
  eexists (Session.claim_user_id c), se, (EstablishIdentity _ _ _ _). split; [by apply Hl|]. split; [by split; [|rewrite Ep]|]. split; [done|].
  left. by eexists.
Qed.

Lemma register_device_sound : sound "/v1/auth/register-device" register_device.
Proof.
  intros e se st db rq Ep Ha. unfold register_device. destruct (with_session e st rq) as [st1 claims] eqn:Es.
  destruct (with_session_sound _ _ _ _ _ Es) as [Ha1 Hl]. apply finish_sound; [done|rewrite Ep; set_solver|].
  intros m o E. destruct claims as [c|]; [|done]. simpl in E. open_result. injection E as <- <-.
  eexists (Session.claim_user_id c), se, (RegisterDevice _ _). split; [by apply Hl|]. split; [by split; [|rewrite Ep]|]. split; [done|].
  right. intros I Hw. exact Hw.
Qed.

Lemma enrollment_request_sound : sound "/v1/auth/enrollment-request" enrollment_request.
Proof.
  intros e se st db rq Ep Ha. unfold enrollment_request. destruct (with_session e st rq) as [st1 claims] eqn:Es.
  destruct (with_session_sound _ _ _ _ _ Es) as [Ha1 Hl]. apply finish_sound; [done|rewrite Ep; set_solver|].
  intros m o E. destruct claims as [c|]; [|done]. simpl in E. open_result. injection E as <- <-.
  eexists (Session.claim_user_id c), se, (EnrollmentRequest _ _ _ _ _ _). split; [by apply Hl|]. split; [by split; [|rewrite Ep]|]. split; [done|].
  right. intros I Hw. exact Hw.
Qed.

Lemma resolve_sound s token now s' c : Session.resolve s token now = (s', Some c) -> exists rec,
  s !! Session.hash_token token = Some rec /\ (now <= Session.expires_at rec)%N /\ Session.user_id rec = Session.claim_user_id c.
Proof.
  unfold Session.resolve. destruct (s !! Session.hash_token token) as [rec|] eqn:E; [|done].
  destruct (N.leb_spec now (Session.expires_at rec)); [|done]. intros [= <- <-]. by exists rec.
Qed.

Lemma delete_account_sound : sound "/v1/account/delete" delete_account.
Proof.
  intros e se st db rq Ep Ha. unfold delete_account. cbv zeta.
  destruct (rbind (map_err Plain (gate e (sync st db) rq)) _) as [[authed b]|reply] eqn:E; [|split_and!; auto].
  open_result. injection E as -> ->.
  match goal with H : map_err Plain (gate _ _ _) = Ok _ |- _ => destruct (gate e (sync st db) rq) as [a'|] eqn:Eg; simpl in H; [injection H as ->|done] end.
  destruct (gate_sound e (sync st db) rq _ Ha Eg) as (u & -> & Hu).
  assert (forall I : MsgDb -> Prop, wp (apply_account_op se u (DeleteAccount b)) db (fun _ db' => I db') ->
    I (run_sql (apply_delete_account se (Some u) b) db).1) as Hrun.
  { intros I Hw. exact (wp_run _ _ (fun _ d => I d) (wp_ignore_inv _ db I Hw)). }
  unfold run_apply. destruct (run_sql _ db) as [db' res]. simpl in Hrun. split_and!; [done| |].
  - right. exists u. split; [by left|]. apply Hrun. apply (account_permitted se rq u (DeleteAccount b)). by split; [|rewrite Ep].
  - intros _ Hi. apply Hrun. by apply (account_op_identities se u (DeleteAccount b)).
Qed.

(** Installing a key changes nothing unless the certificate checks out. *)
Lemma publish_effect se u d cert issued version pub db :
  let db' := (run_sql (apply_publish_device_cert se u d cert issued version pub) db).1 in
  db' = db \/ (exists r apub, users db !! u = Some r /\ prf_account_id_pub r = Some apub /\
    verify_device_cert apub d pub version issued cert = true).
Proof.
  apply (wp_run _ db (fun _ d' => d' = db \/ exists r apub, users db !! u = Some r /\ prf_account_id_pub r = Some apub /\
    verify_device_cert apub d pub version issued cert = true)).
  apply wp_publish; [by left|by left|]. intros r apub db' Hr Hp Hv _ _. right. by exists r, apub.
Qed.

Lemma publish_ops se rq u d cert issued version pub db : path rq = "/v1/auth/publish-device-cert" ->
  let db' := (run_sql (apply_publish_device_cert se u d cert issued version pub) db).1 in
  permitted rq u db db' /\ (identities_ok db -> identities_ok db').
Proof.
  intros Ep. assert (forall I : MsgDb -> Prop, wp (apply_account_op se u (PublishDeviceCert d cert issued version pub)) db (fun _ db' => I db') ->
    I (run_sql (apply_publish_device_cert se u d cert issued version pub) db).1) as Hrun.
  { intros I Hw. exact (wp_run _ _ (fun _ d => I d) (wp_ignore_inv _ db I Hw)). }
  split; [|intros Hi]; apply Hrun.
  - apply (account_permitted se rq u (PublishDeviceCert d cert issued version pub)). by split; [|rewrite Ep].
  - by apply (account_op_identities se u (PublishDeviceCert d cert issued version pub)).
Qed.

Lemma publish_device_cert_sound : sound "/v1/auth/publish-device-cert" publish_device_cert.
Proof.
  intros e se st db rq Ep Ha. unfold publish_device_cert. cbv zeta.
  destruct (rbind (map_err Plain (parse rq)) _) as [[[b cert] pub]|reply] eqn:Epre; [|split_and!; auto].
  open_result. injection Epre as -> -> ->.
  set (token := match Session.session_token (headers rq) with Some t => _ | None => None end).
  assert (forall t, token = Some t -> get_str (headers rq) Session.SESSION_HEADER = Some t /\ t <> "") as Ht.
  { subst token. unfold Session.session_token. intros t. destruct (get_str _ _) as [t'|]; [|done].
    case_bool_decide; [done|]. by intros [= ->]. }
  destruct (match token with Some t => Session.resolve _ t _ | None => _ end) as [sessions' claims] eqn:Er.
  match goal with |- context [rbind ?w _] => set (who := w) end.
  assert (forall u d spend, who = Ok (u, d, spend) -> d = pc_device_id b /\
    (live_session st (now_u64 e) rq u \/ pc_user_id b = Some u)) as Hwho.
  { intros u d spend E. subst who. destruct claims as [c|].
    - destruct (bool_decide (pc_device_id b = Session.claim_device_id c)) eqn:Ed; [|done]. simpl in E. injection E as <- <- _. breflect.
      split; [done|]. left. destruct token as [t|]; [|done]. apply resolve_sound in Er as (rec & Hrec & Hexp & Hu).
      destruct (Ht t eq_refl). by exists t, rec.
    - destruct (pc_user_id b) as [v|]; [|done]. destruct (blank v); [done|]. injection E as <- <- _. split; [done|by right]. }
  clearbody who. destruct who as [[[u d] spend]|reply]; [|split_and!; auto]. cbn [rbind].
  destruct (main_conn e); [|split_and!; auto]. cbn [rbind]. destruct (Hwho u d spend eq_refl) as [-> Hu].
  pose proof (publish_effect se u (pc_device_id b) cert (Z.to_N (pc_cert_issued_at b)) (pc_cert_identity_version b) pub db) as Heff.
  pose proof (publish_ops se rq u (pc_device_id b) cert (Z.to_N (pc_cert_issued_at b)) (pc_cert_identity_version b) pub db Ep) as [Hp Hi].
  destruct (run_sql _ db) as [db' r]. simpl in Heff, Hp, Hi.
  assert ((db' = db \/ exists u, credential e st db rq u /\ permitted rq u db db') /\ (in_range rq -> identities_ok db -> identities_ok db')) as [Hc Hk].
  { split; [|auto]. destruct Heff as [->|(r0 & apub & Hr0 & Hap & Hv)]; [by left|right]. exists u. split; [|done].
    destruct Hu as [Hu|Hu]; [right; left; split; [rewrite Ep; set_solver|done]|]. right. right. split; [done|].
    exists b, cert, pub, r0, apub. unfold parse, b64_or in *. destruct (from_slice (body rq)) eqn:Eb; simpl in *; [|done].
    destruct (b64_decode_opt (pc_device_cert _)) eqn:E1; simpl in *; [|done].
    destruct (b64_decode_opt (pc_mls_signature_pub _)) eqn:E2; simpl in *; [|done]. simplify_eq. done. }
  destruct r as [[]|]; [destruct spend|..]; split_and!; auto.
Qed.
(** *** The router *)

#[local] Hint Resolve establish_identity_sound register_device_sound enrollment_request_sound delete_account_sound
  publish_device_cert_sound claim_route_ok : pollis.

Ltac group_op c := apply signed_route_sound, (group_route_ok _ _ c); [done|reflexivity].
Ltac dm_op c := apply signed_route_sound, (dm_route_ok _ _ c); [done|reflexivity].
Ltac message_op c := apply signed_route_sound, (message_route_ok _ _ c); [done|done|reflexivity].
Ltac account_op c := apply (account_route_ok _ _ c); [done|intros b' rq' Ep'; split; [done|rewrite Ep'; reflexivity]|try done].

Lemma main_routes_sound : Forall (fun r => sound r.1 r.2) main_routes.
Proof.
  unfold main_routes. repeat apply Forall_cons_2; cbn [fst snd]; auto with pollis.
  - message_op MessageRoutes.SendMessage.
  - message_op MessageRoutes.EditMessage.
  - message_op MessageRoutes.DeleteMessage.
  - message_op MessageRoutes.AddReaction.
  - message_op MessageRoutes.RemoveReaction.
  - message_op MessageRoutes.AdvanceWatermark.
  - message_op MessageRoutes.EnvelopeGc.
  - message_op MessageRoutes.RegisterAttachment.
  - message_op MessageRoutes.DeleteAttachment.
  - group_op GroupRoutes.CreateGroup.
  - group_op GroupRoutes.UpdateGroup.
  - group_op GroupRoutes.DeleteGroup.
  - group_op GroupRoutes.LeaveGroup.
  - group_op GroupRoutes.CreateChannel.
  - group_op GroupRoutes.UpdateChannel.
  - group_op GroupRoutes.DeleteChannel.
  - group_op GroupRoutes.RemoveMember.
  - group_op GroupRoutes.SetMemberRole.
  - group_op GroupRoutes.CreateInvite.
  - group_op GroupRoutes.AcceptInvite.
  - group_op GroupRoutes.DeclineInvite.
  - group_op GroupRoutes.CreateJoinRequest.
  - group_op GroupRoutes.ApproveJoinRequest.
  - group_op GroupRoutes.RejectJoinRequest.
  - dm_op DmRoutes.UpdateProfile.
  - dm_op DmRoutes.SavePreferences.
  - dm_op DmRoutes.BlockUser.
  - dm_op DmRoutes.UnblockUser.
  - dm_op DmRoutes.CreateDm.
  - dm_op DmRoutes.AcceptDm.
  - dm_op DmRoutes.AddDmMember.
  - dm_op DmRoutes.RemoveDmMember.
  - dm_op DmRoutes.LeaveDm.
  - apply signed_route_sound. account_op PublishKeyPackages.
  - apply signed_route_sound, claim_route_ok.
  - apply signed_route_sound. account_op ReplenishKeyPackages.
  - apply signed_route_sound. account_op ResignDeviceCerts.
  - apply signed_route_sound. account_op RegisterPushToken.
  - apply session_route_sound; [set_solver|]. account_op RotateIdentity.
    intros b rq Hb Hr b' [= <-]. by apply Hr.
  - apply session_route_sound; [set_solver|]. account_op ResetRecover.
  - apply signed_route_sound. account_op RecordSecurityEvent.
  - apply signed_route_sound. account_op ApproveEnrollment.
  - apply signed_route_sound. account_op RejectEnrollment.
  - apply signed_route_sound. account_op RevokeDevice.
  - apply signed_route_sound. account_op LogoutDevice.
Qed.

Lemma main_handler_sound p h : main_handler p = Some h -> sound p h.
Proof.
  unfold main_handler. intros E. apply fmap_Some in E as ([q h'] & Ef & ->).
  apply find_some in Ef as [Hin Hq]. breflect. simpl in Hq. subst q.
  pose proof main_routes_sound as Hall. rewrite Forall_forall in Hall. apply (Hall (p, h')). by apply list_elem_of_In.
Qed.

(** A request the router serves, whatever its path. *)
Lemma serve_main_sound e se st db rq : require_auth st = true ->
  let '((st', db'), _) := serve_main e se (st, db) rq in
  kept st st' /\ (db' = db \/ exists u, credential e st db rq u /\ permitted rq u db db') /\
  (in_range rq -> identities_ok db -> identities_ok db').
Proof.
  intros Ha. unfold serve_main. destruct (RateLimit.rate_limit _ _ _ _ _ _) as [rl pass].
  destruct pass; [|split_and!; auto]. cbn [negb].
  destruct (if bool_decide (method rq = "POST") then main_handler (path rq) else None) as [h|] eqn:Eh; [|split_and!; auto].
  assert (sound (path rq) h) as Hh by (apply main_handler_sound; by case_bool_decide).
  exact (Hh e se (set_limiter st rl) db rq eq_refl Ha).
Qed.
(** ** The account-key log and the transparency bundle *)

(** The rows [read_account_key_log] fetches: the insertion order is the [seq] order. *)
Definition account_rows `{Hex} (db : MsgDb) : list AccountKeyRow :=
  imap (fun i k => read_account_row (Z.of_nat (S i), kl_user_id k, kl_identity_version k, kl_account_id_pub k))
    (key_log (accounts db)).

Lemma chain_from_ordered v vs : (1 <= v)%Z -> chain_from v vs -> ordered (fun v w => (1 <= v < w)%Z) vs.
Proof.
  revert v. induction vs as [|y vs IH]; intros v Hv Hc; [apply ordered_nil|]. destruct Hc as [-> Hc].
  apply ordered_cons. split; [|apply (IH (v + 1)%Z); [lia|done]]. apply List.Forall_forall. intros w Hw.
  pose proof (chain_from_bound _ _ _ Hc Hw). lia.
Qed.

Lemma chain_ordered vs : chain vs -> ordered (fun v w => (1 <= v < w)%Z) vs.
Proof. destruct vs as [|x vs]; [intros; apply ordered_nil|]. intros [Hx Hc]. by eapply chain_from_ordered. Qed.

(** Ordered user by user is ordered among the rows of one user. *)
Lemma ordered_by_user (Q : KeyLogRow -> KeyLogRow -> Prop) l : (forall u, ordered Q (List.filter (of_user u) l)) ->
  ordered (fun x y => kl_user_id x = kl_user_id y -> Q x y) l.
Proof.
  induction l as [|y l IH] using rev_ind; intros Hu; [apply ordered_nil|]. apply ordered_snoc. split.
  - apply IH. intros u. specialize (Hu u). rewrite List.filter_app in Hu. simpl in Hu.
    destruct (of_user u y); [by apply ordered_snoc in Hu as [? _]|by rewrite app_nil_r in Hu].
  - specialize (Hu (kl_user_id y)). rewrite List.filter_app in Hu. simpl in Hu.
    assert (of_user (kl_user_id y) y = true) as Ey by (unfold of_user; by apply bool_decide_eq_true).
    rewrite Ey in Hu. apply ordered_snoc in Hu as [_ Hf]. apply List.Forall_forall. intros x Hx Exy.
    rewrite List.Forall_forall in Hf. apply Hf. apply filter_In. split; [done|]. unfold of_user. by apply bool_decide_eq_true.
Qed.

Lemma account_rows_ordered `{Hex} db : keys_ok db -> ordered key_before (map AccountKeyRow_to_leaf (account_rows db)).
Proof.
  intros Hk. apply ordered_map. intros i j x y Hij Hx Hy. unfold account_rows in Hx, Hy.
  apply list_lookup_imap_Some in Hx as (a & Ha & ->), Hy as (b & Hb & ->).
  assert (ordered (fun x y => kl_user_id x = kl_user_id y -> (1 <= kl_identity_version x < kl_identity_version y)%Z)
    (key_log (accounts db))) as Ho.
  { apply (ordered_by_user (fun x y => (1 <= kl_identity_version x < kl_identity_version y)%Z)). intros u.
    apply (ordered_map (fun v w => (1 <= v < w)%Z) kl_identity_version), chain_ordered, (ko_chain _ Hk u). }
  intros Eu. simpl in *. specialize (Ho i j a b Hij Ha Hb Eu). lia.
Qed.

Lemma account_rows_seq `{Hex} db : ordered (fun x y => (ar_seq x <= ar_seq y)%Z) (account_rows db).
Proof.
  intros i j x y Hij Hx Hy. unfold account_rows in Hx, Hy.
  apply list_lookup_imap_Some in Hx as (a & _ & ->), Hy as (b & _ & ->). simpl. lia.
Qed.

End Requests.
