(* ===== verification/EmailChange.v ===== *)
(** * pollis-delivery: changing an account's address

    Models [email_change.rs]: the store that binds a pending change to the signed user who
    asked for it, the code keyed by the new address, and the swap of [users.email].  The
    code store is the one of [Stores], in an instance of its own.

    The theorem is about runs of the store by any users in any order: an address changes
    only for a user who holds both proofs, the signature of the request and a code sent to
    the address. *)

From stdpp Require Import base list strings gmap.
From Stdlib Require Import NArith ZArith Lia ZifyNat ZifyN.
From S2P Require Import Prelude Crypto Relay Delivery Text Stores Tables.

Module Change.
Import Otp.

Record EmailChangeStore := mkChangeStore { otp : OtpStore; requesters : gmap string string }.

Definition no_changes : EmailChangeStore := mkChangeStore ∅ ∅.

Inductive EmailChangeOutcome : Type := Updated | ChangeInvalidCode | ChangeLockedOut | Mismatch | EmailTaken.

#[global] Instance EmailChangeOutcome_eq_dec : EqDecision EmailChangeOutcome.
Proof. solve_decision. Defined.

Section Store.
Context `{Sha256} `{Lowercase} (cfg : OtpConfig).

(** [EmailChangeStore::request]: bind, then prepare and send. *)
Definition request (store : EmailChangeStore) (new_salt : bytes) (random : N) (requester new_email : string) (now : N)
    : EmailChangeStore * option (string * string * string) :=
  let bound := <[normalize_email new_email := requester]> (requesters store) in
  let '(otp', mail) := process_request_otp cfg (otp store) new_salt random new_email now in
  (mkChangeStore otp' bound, mail).

Definition requester_of (store : EmailChangeStore) (new_email : string) : option string :=
  requesters store !! normalize_email new_email.

Definition clear (store : EmailChangeStore) (new_email : string) : EmailChangeStore :=
  mkChangeStore (otp store) (delete (normalize_email new_email) (requesters store)).

(** [store.otp.consume(..); store.clear(..)]. *)
Definition spend (store : EmailChangeStore) (new_email : string) : EmailChangeStore :=
  clear (mkChangeStore (consume (otp store) new_email) (requesters store)) new_email.

Definition set_email (mail : string) (r : ProfileRow) : ProfileRow :=
  mkProfile (prf_username r) (prf_preferred_name r) (prf_phone r) (prf_avatar_url r) mail (prf_account_id_pub r)
    (prf_identity_version r).

(** SELECT 1 FROM users WHERE email = ?1 AND id != ?2. *)
Definition email_taken (mail user : string) (db : MsgDb) : bool :=
  existsb (fun ur : string * ProfileRow => bool_decide (prf_email ur.2 = mail) && negb (bool_decide (ur.1 = user)))
    (map_to_list (Tables.users db)).

(** The two statements; the UPDATE is refused by UNIQUE(email). *)
Definition swap_email (env : SqlEnv) (user mail : string) : Sql EmailChangeOutcome :=
  let* taken := query env (email_taken mail user) in
  if taken then ret EmailTaken
  else
    let* _ := write env (fun db =>
      if is_user_row db user && email_taken mail user db then None
      else Some (set_users (alter (set_email mail) user) db)) in
    ret Updated.

Definition apply_verify_email_change (env : SqlEnv) (store : EmailChangeStore) (db : MsgDb) (authed new_email code : string)
    (now : N) : (EmailChangeStore * MsgDb) * Result EmailChangeOutcome SqlError :=
  let trimmed := trim new_email in
  if negb (bool_decide (requester_of store trimmed = Some authed)) then ((store, db), Ok Mismatch)
  else
    let '(otp', checked) := check (otp store) trimmed code (max_attempts cfg) now in
    let store := mkChangeStore otp' (requesters store) in
    match checked with
    | LockedOut => ((clear store trimmed, db), Ok ChangeLockedOut)
    | Invalid | Expired | NotFound => ((store, db), Ok ChangeInvalidCode)
    | VOk =>
        let '(db', r) := run_sql (swap_email env authed trimmed) db in
        ((match r with Ok _ => spend store trimmed | Err _ => store end, db'), r)
    end.
End Store.
End Change.

(** ** Runs of the store *)

Section Runs.
Import Otp Change.
Context `{Sha256} `{Lowercase} (cfg : OtpConfig).

Inductive ChangeOp : Type :=
| CRequest (u mail : string) (new_salt : bytes) (random now : N)
| CVerify (u mail code : string) (env : SqlEnv) (now : N).

Inductive ChangeAnswer : Type :=
| CRequested (stored : PrepareOutcome) (mail : option (string * string * string))
| CVerified (r : Result EmailChangeOutcome SqlError).

Definition the_code (random : N) : string := match dev_otp cfg with Some dev => dev | None => pad6 random end.

Definition change_step (s : EmailChangeStore * MsgDb) (op : ChangeOp) : (EmailChangeStore * MsgDb) * ChangeAnswer :=
  match op with
  | CRequest u mail slt random now =>
      let '(store', sent) := request cfg s.1 slt random u mail now in
      ((store', s.2),
       CRequested (prepare (otp s.1) slt mail (the_code random) (ttl_secs cfg) (resend_throttle_secs cfg) now).2 sent)
  | CVerify u mail code env now =>
      let '(s', r) := apply_verify_email_change cfg env s.1 s.2 u mail code now in (s', CVerified r)
  end.

(** The steps taken so far with their answers, and the state reached. *)
Definition change_run (db : MsgDb) (ops : list ChangeOp)
    : list (ChangeOp * ChangeAnswer) * (EmailChangeStore * MsgDb) :=
  fold_left (fun '(h, s) op => let '(s', a) := change_step s op in (h ++ [(op, a)], s')) ops ([], (no_changes, db)).

(** Who asked last for an address of normal form [k]. *)
Definition asked (k : string) (acc : option string) (oa : ChangeOp * ChangeAnswer) : option string :=
  match oa.1 with
  | CRequest u mail _ _ _ => if bool_decide (normalize_email mail = k) then Some u else acc
  | CVerify _ _ _ _ _ => acc
  end.

Definition last_requester (k : string) (h : list (ChangeOp * ChangeAnswer)) : option string := fold_left (asked k) h None.

(** A step that stored a fresh code under [k], and one that changed an address with it. *)
Definition stores_code (k : string) (oa : ChangeOp * ChangeAnswer) : bool :=
  match oa with
  | (CRequest _ mail _ _ _, CRequested (Send _) _) => bool_decide (normalize_email mail = k)
  | _ => false
  end.

Definition changes_with (k : string) (oa : ChangeOp * ChangeAnswer) : bool :=
  match oa with
  | (CVerify _ mail _ _ _, CVerified (Ok Updated)) => bool_decide (normalize_email (trim mail) = k)
  | _ => false
  end.

Definition count_of (f : ChangeOp * ChangeAnswer -> bool) (h : list (ChangeOp * ChangeAnswer)) : nat := length (List.filter f h).

Lemma count_snoc f h x : count_of f (h ++ [x]) = count_of f h + if f x then 1 else 0.
Proof. unfold count_of. rewrite List.filter_app, length_app. simpl. by destruct (f x). Qed.

(** A code for [k] with this salt and hash was stored in [h], and mailed when mail is configured. *)
Definition code_sent (k : string) (h : list (ChangeOp * ChangeAnswer)) (slt hash : bytes) : Prop :=
  exists u mail random now sent,
    In (CRequest u mail slt random now, CRequested (Send (the_code random)) sent) h /\ normalize_email mail = k /\
    hash = salted_hash slt (the_code random) /\
    (forall key, dev_otp cfg = None -> resend_api_key cfg = Some key -> sent = Some (key, mail, the_code random)).

Lemma code_sent_mono k h x slt hash : code_sent k h slt hash -> code_sent k (h ++ [x]) slt hash.
Proof. intros (u & m & r & n & s & Hin & Hr). exists u, m, r, n, s. split; [apply in_app_iff; by left|done]. Qed.

Definition recorded (store : OtpStore) (k : string) : nat := match store !! k with Some _ => 1 | None => 0 end.

Record change_inv (k : string) (h : list (ChangeOp * ChangeAnswer)) (store : EmailChangeStore) : Prop := {
  ci_requester : forall u, requesters store !! k = Some u -> last_requester k h = Some u;
  ci_code : forall rec, otp store !! k = Some rec -> code_sent k h (salt rec) (code_hash rec);
  ci_spent : count_of (changes_with k) h + recorded (otp store) k <= count_of (stores_code k) h
}.

Lemma last_requester_snoc k h x : last_requester k (h ++ [x]) = asked k (last_requester k h) x.
Proof. unfold last_requester. by rewrite fold_left_app. Qed.

(** A check leaves the other records and the hash of its own. *)
Lemma check_records st mail code max now st' o : check st mail code max now = (st', o) ->
  forall k rec', st' !! k = Some rec' -> exists rec, st !! k = Some rec /\ salt rec' = salt rec /\ code_hash rec' = code_hash rec.
Proof.
  unfold check. cbv zeta. intros E k rec' Hk. destruct (st !! normalize_email mail) as [rec|] eqn:Er;
    [|injection E as <- _; by exists rec'].
  destruct (locked rec); [injection E as <- _; by exists rec'|].
  destruct (_ <? _)%N; [injection E as <- _; apply lookup_delete_Some in Hk as [_ Hk]; by exists rec'|].
  destruct (constant_time_eq _ _); [injection E as <- _; by exists rec'|].
  destruct (_ <? _)%N; [injection E as <- _; apply lookup_delete_Some in Hk as [_ Hk]; by exists rec'|].
  injection E as <- _. apply lookup_insert_Some in Hk as [[<- <-]|[_ Hk]]; [by exists rec|by exists rec'].
Qed.
(** A record [check] keeps only if there was one; so the count cannot grow. *)
Lemma check_recorded st mail code max now st' o k : check st mail code max now = (st', o) -> recorded st' k <= recorded st k.
Proof.
  intros E. unfold recorded. destruct (st' !! k) as [rec'|] eqn:Ek; [|lia].
  destruct (check_records _ _ _ _ _ _ _ E k rec' Ek) as (rec & -> & _). lia.
Qed.

Lemma check_ok_code st mail code max now st' : check st mail code max now = (st', VOk) ->
  st' = st /\ exists rec, st !! normalize_email mail = Some rec /\ salted_hash (salt rec) code = code_hash rec.
Proof.
  unfold check. cbv zeta. destruct (st !! normalize_email mail) as [rec|]; [|done]. destruct (locked rec); [done|].
  destruct (_ <? _)%N; [done|]. destruct (constant_time_eq _ _) eqn:Ec; [|by destruct (_ <? _)%N].
  intros [= <-]. split; [done|]. exists rec. split; [done|]. by apply constant_time_eq_spec.
Qed.

(** [request]: the record it stores is of the code it sends. *)
Lemma request_inv k h store slt random u mail now store' sent out :
  request cfg store slt random u mail now = (store', sent) ->
  out = (prepare (otp store) slt mail (the_code random) (ttl_secs cfg) (resend_throttle_secs cfg) now).2 ->
  change_inv k h store -> change_inv k (h ++ [(CRequest u mail slt random now, CRequested out sent)]) store'.
Proof.
  unfold request, process_request_otp, prepare. fold (the_code random). cbv zeta.
  set (throttled := match otp store !! normalize_email mail with Some rec => _ | None => false end).
  intros E -> [Hr Hc Hs]. destruct throttled; simpl in *.
  - injection E as <- <-. split; simpl.
    + intros v Hv. rewrite last_requester_snoc. unfold asked. simpl. apply lookup_insert_Some in Hv as [[-> ->]|[Hne Hv]];
        [by rewrite bool_decide_eq_true_2|rewrite bool_decide_eq_false_2 by done; auto].
    + intros rec Hrec. apply code_sent_mono. auto.
    + rewrite !count_snoc. simpl. lia.
  - set (mailed := match dev_otp cfg, resend_api_key cfg with None, Some key => Some (key, mail, the_code random) | _, _ => None end).
    match type of E with (let '(_, _) := ?p in _) = _ =>
      assert (p = (<[normalize_email mail := mkOtpRecord (salted_hash slt (the_code random)) slt
        (saturating_add u64_max now (ttl_secs cfg)) 0 now false]> (otp store), mailed)) as Ep
        by (subst mailed; by destruct (dev_otp cfg), (resend_api_key cfg)); rewrite Ep in E end.
    injection E as <- <-. split; simpl.
    + intros v Hv. rewrite last_requester_snoc. unfold asked. simpl. apply lookup_insert_Some in Hv as [[-> ->]|[Hne Hv]];
        [by rewrite bool_decide_eq_true_2|rewrite bool_decide_eq_false_2 by done; auto].
    + intros rec Hrec. apply lookup_insert_Some in Hrec as [[Hk <-]|[_ Hrec]]; [|apply code_sent_mono; auto]. simpl.
      exists u, mail, random, now, mailed.
      split_and!; [apply in_app_iff; right; by left|done|done|]. subst mailed. by intros key -> ->.
    + rewrite !count_snoc. simpl. unfold recorded in *. case_bool_decide as Ek.
      * subst k. rewrite lookup_insert_eq. lia.
      * rewrite lookup_insert_ne by done. lia.
Qed.
Lemma swap_email_spec env u mail db : let '(db', r) := run_sql (swap_email env u mail) db in
  match r with
  | Ok Updated => email_taken mail u db = false /\ db' = set_users (alter (set_email mail) u) db
  | Ok EmailTaken => email_taken mail u db = true /\ db' = db
  | Ok _ => False
  | Err _ => db' = db
  end.
Proof.
  unfold run_sql, swap_email, bind, query, write, ret. simpl. destruct (stmt_fault env 0); [done|]. simpl.
  destruct (email_taken mail u db) eqn:Et; [done|]. simpl. destruct (stmt_fault env 1); [done|]. by rewrite Et, andb_false_r.
Qed.

Lemma spend_inv k h store mail : forall x, changes_with k x = true -> stores_code k x = false ->
  asked k (last_requester k h) x = last_requester k h -> normalize_email mail = k -> is_Some (otp store !! k) ->
  change_inv k h store -> change_inv k (h ++ [x]) (spend store mail).
Proof.
  intros x Hx Hn Ha Hk [rec Hrec] [Hr Hc Hs]. split.
  - intros u Hu. unfold spend, clear in Hu. simpl in Hu. rewrite Hk, lookup_delete_eq in Hu. discriminate Hu.
  - intros r Hr'. unfold spend, consume in Hr'. simpl in Hr'. rewrite Hk, lookup_delete_eq in Hr'. discriminate Hr'.
  - rewrite !count_snoc, Hx, Hn. unfold recorded in *. rewrite Hrec in Hs. unfold spend, consume. simpl.
    rewrite Hk, lookup_delete_eq. lia.
Qed.

(** Dropping bindings and records, without a change of address, keeps the invariant. *)
Lemma shrink_inv k h store store' x : changes_with k x = false -> asked k (last_requester k h) x = last_requester k h ->
  (forall u, requesters store' !! k = Some u -> requesters store !! k = Some u) ->
  (forall rec', otp store' !! k = Some rec' -> exists rec, otp store !! k = Some rec /\ salt rec' = salt rec /\ code_hash rec' = code_hash rec) ->
  change_inv k h store -> change_inv k (h ++ [x]) store'.
Proof.
  intros Hx Ha Hreq Hotp [Hr Hc Hs]. split.
  - intros u Hu. rewrite last_requester_snoc, Ha. auto.
  - intros rec' Hrec'. destruct (Hotp rec' Hrec') as (rec & Hrec & -> & ->). apply code_sent_mono. auto.
  - rewrite !count_snoc, Hx. assert (recorded (otp store') k <= recorded (otp store) k); [|destruct (stores_code k x); lia].
    unfold recorded. destruct (otp store' !! k) as [rec'|] eqn:E; [|lia]. destruct (Hotp rec' eq_refl) as (rec & -> & _). lia.
Qed.

Lemma spend_shrinks k store mail :
  (forall u, requesters (spend store mail) !! k = Some u -> requesters store !! k = Some u) /\
  (forall rec', otp (spend store mail) !! k = Some rec' ->
     exists rec, otp store !! k = Some rec /\ salt rec' = salt rec /\ code_hash rec' = code_hash rec).
Proof. split; intros v Hv; unfold spend, clear, consume in Hv; simpl in Hv; apply lookup_delete_Some in Hv as [_ Hv]; eauto. Qed.

Lemma verify_inv k h env store db u mail code now store' db' r :
  apply_verify_email_change cfg env store db u mail code now = ((store', db'), r) ->
  change_inv k h store -> change_inv k (h ++ [(CVerify u mail code env now, CVerified r)]) store'.
Proof.
  destruct store as [ot rq]. unfold apply_verify_email_change. cbv zeta. cbn [otp requesters]. intros E Hi.
  destruct (negb _) eqn:Eb; [injection E as <- _ <-; eapply shrink_inv; eauto|].
  destruct (check ot (trim mail) code (max_attempts cfg) now) as [otp' o] eqn:Ec.
  pose proof (check_records _ _ _ _ _ _ _ Ec k) as Hrec.
  assert (forall v, delete (normalize_email (trim mail)) rq !! k = Some v -> rq !! k = Some v) as Hdel
    by (intros v [_ Hv]%lookup_delete_Some; exact Hv).
  destruct o; [|injection E as <- _ <-; apply (shrink_inv k h (mkChangeStore ot rq)); [done|done|first [done|exact Hdel]|exact Hrec|exact Hi]..].
  pose proof (swap_email_spec env u (trim mail) db) as Hsw. destruct (run_sql _ db) as [db1 r1].
  injection E as <- _ <-. destruct (check_ok_code _ _ _ _ _ _ Ec) as (-> & rec & Hr & _).
  destruct (decide (normalize_email (trim mail) = k)) as [Ek|Hne].
  - destruct r1 as [[]|]; try done.
    + eapply spend_inv; try done; [simpl; by rewrite bool_decide_eq_true_2|rewrite <- Ek; by eexists].
    + apply (shrink_inv k h (mkChangeStore ot rq)); [done|done|by apply spend_shrinks..|exact Hi].
    + apply (shrink_inv k h (mkChangeStore ot rq)); [done|done|done|exact Hrec|exact Hi].
  - assert (changes_with k (CVerify u mail code env now, CVerified r1) = false) as Hx
      by (simpl; destruct r1 as [[]|]; try done; by apply bool_decide_eq_false).
    destruct r1 as [o|]; (apply (shrink_inv k h (mkChangeStore ot rq)); [exact Hx|done|..|exact Hi]);
      first [by apply spend_shrinks|done|exact Hrec].
Qed.

Lemma change_step_inv k h s op s' a : change_step s op = (s', a) -> change_inv k h s.1 -> change_inv k (h ++ [(op, a)]) s'.1.
Proof.
  destruct s as [store db]. destruct op as [u mail slt random now|u mail code env now]; simpl.
  - destruct (request _ _ _ _ _ _ _) as [store' sent] eqn:E. intros [= <- <-] Hi. by eapply request_inv.
  - destruct (apply_verify_email_change _ _ _ _ _ _ _ _) as [[store' db'] r] eqn:E. intros [= <- <-] Hi. by eapply verify_inv.
Qed.

Lemma change_run_inv k db ops : change_inv k (change_run db ops).1 (change_run db ops).2.1.
Proof.
  induction ops as [|op ops IH] using rev_ind.
  - split; simpl; [intros u; by rewrite lookup_empty|intros rec; by rewrite lookup_empty|done].
  - unfold change_run in *. rewrite fold_left_app. destruct (fold_left _ ops _) as [h s]. simpl in *.
    destruct (change_step s op) as [s' a] eqn:E. simpl. by eapply change_step_inv.
Qed.

(** An address changes only with both proofs.  In any run of the store, by any users in
    any order and with any statement failing, a verification that changes an address is by
    the signed user who asked last for that address (up to case and blanks), presents the
    code stored for it, which was mailed there when mail is configured, changes only that
    user's address and to one no other account has; and each stored code changes at most
    one address. *)
Theorem email_change_two_proofs (db : MsgDb) (ops : list ChangeOp) (u mail code : string) (env : SqlEnv) (now : N) :
  let '(h, (store, db1)) := change_run db ops in
  let k := normalize_email (trim mail) in
  let '((_, db2), r) := apply_verify_email_change cfg env store db1 u mail code now in
  match r with
  | Ok Updated =>
      last_requester k h = Some u /\ (exists slt, code_sent k h slt (salted_hash slt code)) /\
      email_taken (trim mail) u db1 = false /\ db2 = set_users (alter (set_email (trim mail)) u) db1 /\
      count_of (changes_with k) h < count_of (stores_code k) h
  | _ => db2 = db1
  end.
Proof.
  pose proof (change_run_inv (normalize_email (trim mail)) db ops) as [Hr Hc Hs].
  destruct (change_run db ops) as [h [store db1]]. simpl in *. unfold apply_verify_email_change. cbv zeta.
  destruct (negb _) eqn:Eb; [done|]. breflect.
  destruct (check (otp store) (trim mail) code (max_attempts cfg) now) as [otp' o] eqn:Ec. destruct o; try done.
  pose proof (swap_email_spec env u (trim mail) db1) as Hsw. destruct (run_sql _ db1) as [db2 [[]|]]; try tauto.
  destruct (check_ok_code _ _ _ _ _ _ Ec) as (-> & rec & Hrec & Hcode). destruct Hsw as [Ht ->].
  split_and!; [by apply Hr|exists (salt rec); rewrite Hcode; auto|done|done|]. unfold recorded in Hs. rewrite Hrec in Hs. lia.
Qed.
End Runs.
