(* ===== verification/Router.v ===== *)
(** * pollis-delivery: signing up, and the whole write router

    The handlers of [otp.rs] and [email_change.rs], and the router of [lib.rs] over the whole
    service: the commit-log routes of [Access], the main-database routes of [Service] and
    these, behind the rate limiter, on one state with both databases, the session store,
    the two code stores and the mail handed to the provider.

    A new account enters the tables here, so the theorems about sequences of requests start
    from an empty database: an accepted device is certified under its user's logged account
    key, and the account-key log always builds into a bundle that verifies.

    Not modelled: the token broker's routes, which write no table, and the read routes. *)

From stdpp Require Import base list strings gmap.
From Stdlib Require Import NArith ZArith Lia ZifyNat ZifyN.
From S2P Require Import Prelude Crypto Merkle Log Tenants Monitor Builder Verifiers Relay Delivery Text Stores Access.
From S2P Require Import Tables Groups Dms Messages Accounts Service EmailChange.

(** ** State *)

Record RequestOtpBody := mkRequestOtp { ro_email : string }.

Record VerifyOtpBody := mkVerifyOtp {
  vo_email : string;
  vo_code : string;
  vo_device_id : string;
  vo_account_id_pub : option string
}.

Record RequestEmailChangeBody := mkRequestEmailChange { re_new_email : string }.

Record VerifyEmailChangeBody := mkVerifyEmailChange { ve_new_email : string; ve_code : string }.

Class OtpBodies := {
  js_request_otp :: SerdeJson RequestOtpBody;
  js_verify_otp :: SerdeJson VerifyOtpBody;
  js_request_email_change :: SerdeJson RequestEmailChangeBody;
  js_verify_email_change :: SerdeJson VerifyEmailChangeBody
}.

(** [AppState] with its two code stores, and every mail sent (api key, address, code). *)
Record Server := mkServer {
  app : AppState;
  tables : MsgDb;
  otp_config : Otp.OtpConfig;
  otp_store : Otp.OtpStore;
  email_change : Change.EmailChangeStore;
  outbox : list (string * string * string)
}.

(** The outside of one request: clocks, faults and ids, and the random draws (the salt of a
    code, its digits, the bytes of a session token). *)
Record World := mkWorld {
  env : Env;
  sql : SqlEnv;
  draw_salt : bytes;
  draw_code : N;
  draw_token : bytes
}.

Inductive ServerReply : Type :=
| Routed (r : MainReply)
| Committed (r : Reply)
| SignedIn (user_id username : string) (is_new_account has_identity : bool) (session_token : string) (session_expires_at : N)
| Refusal (status : N) (error : string).

Definition set_main (s : Server) (st : AppState) (db : MsgDb) : Server :=
  mkServer st db (otp_config s) (otp_store s) (email_change s) (outbox s).

Definition set_otps (s : Server) (o : Otp.OtpStore) (sent : option (string * string * string)) : Server :=
  mkServer (app s) (tables s) (otp_config s) o (email_change s) (outbox s ++ option_list sent).

Definition set_change (s : Server) (c : Change.EmailChangeStore) (db : MsgDb) (sent : option (string * string * string)) : Server :=
  mkServer (app s) db (otp_config s) (otp_store s) c (outbox s ++ option_list sent).

Section Handlers.
Context `{Sha256} `{!Ed25519} `{!Base64} `{!MainBodies} `{!JsonBodies} `{!OtpBodies} `{!Lowercase}.

(** ** otp.rs: the two handlers *)

Definition request_otp (w : World) (s : Server) (rq : Request) : Server * ServerReply :=
  match parse (A := RequestOtpBody) rq with
  | Err r => (s, Routed (Plain r))
  | Ok b =>
      let mail := trim (ro_email b) in
      if bool_decide (mail = "") then (s, Routed (Plain StatusOk))
      else
        let '(otps, sent) :=
          Otp.process_request_otp (otp_config s) (otp_store s) (draw_salt w) (draw_code w) mail (now_u64 (env w)) in
        (set_otps s otps sent, Routed (Plain StatusOk))
  end.

(** The [users] table as the rows [apply_verify_otp] reads, and back: it only adds one. *)
Definition user_rows (db : MsgDb) : list Otp.UserRow :=
  map (fun ur : string * ProfileRow => Otp.mkUser ur.1 (prf_email ur.2) (prf_username ur.2) (prf_account_id_pub ur.2))
    (map_to_list (Tables.users db)).

Definition add_user (m : gmap string ProfileRow) (u : Otp.UserRow) : gmap string ProfileRow :=
  match m !! Otp.usr_id u with
  | Some _ => m
  | None => <[Otp.usr_id u := mkProfile (Otp.usr_username u) None None None (Otp.usr_email u) None 1]> m
  end.

Definition add_users (us : list Otp.UserRow) (db : MsgDb) : MsgDb :=
  set_users (fun m => fold_left add_user us m) db.

Definition verify_otp_response (r : Otp.VerifyOtpResult) : ServerReply :=
  match r with
  | Otp.VerifiedOk u name is_new has_identity token expires => SignedIn u name is_new has_identity token expires
  | Otp.VerifyLockedOut => Refusal 429 "too many attempts"
  | Otp.InvalidCode => Refusal 401 "invalid code"
  end.

Definition verify_otp (w : World) (s : Server) (rq : Request) : Server * ServerReply :=
  match parse (A := VerifyOtpBody) rq with
  | Err r => (s, Routed (Plain r))
  | Ok b =>
      let mail := trim (vo_email b) in
      let device := trim (vo_device_id b) in
      if bool_decide (mail = "") || bool_decide (device = "") then (s, Routed (bad "email and device_id required"))
      else match main_conn (env w) with
           | Err r => (s, Routed r)
           | Ok _ =>
               let '(o, result) :=
                 Otp.apply_verify_otp (negb (stmt_fault (sql w) 0)) (negb (stmt_fault (sql w) 1)) (draw_token w)
                   (new_ulid (sql w)) (otp_config s)
                   (Otp.mkOtpState (user_rows (tables s)) (otp_store s) (session_store (app s)))
                   mail (vo_code b) device (now_u64 (env w)) (now_u64 (env w)) in
               (mkServer (set_sessions (app s) (Otp.sessions o)) (add_users (Otp.users o) (tables s)) (otp_config s)
                  (Otp.otps o) (email_change s) (outbox s),
                match result with Some r => verify_otp_response r | None => Routed InternalError end)
           end
  end.

(** ** email_change.rs: the two handlers *)

(** [gate], where no signer is a 401 even with authentication off. *)
Definition signer (w : World) (s : Server) (rq : Request) : Result string ServerReply :=
  let? authed := map_err (fun r => Routed (Plain r)) (gate (env w) (sync (app s) (tables s)) rq) in
  ok_or authed (Routed (Plain (Rejection Auth.Unauthorized))).

Definition request_email_change_otp (w : World) (s : Server) (rq : Request) : Server * ServerReply :=
  match (let? requester := signer w s rq in
         let? b := map_err (fun r => Routed (Plain r)) (parse (A := RequestEmailChangeBody) rq) in
         Ok (requester, trim (re_new_email b))) with
  | Err r => (s, r)
  | Ok (requester, mail) =>
      if bool_decide (mail = "") then (s, Routed (Plain StatusOk))
      else
        let '(c, sent) := Change.request (otp_config s) (email_change s) (draw_salt w) (draw_code w) requester mail
                            (now_u64 (env w)) in
        (set_change s c (tables s) sent, Routed (Plain StatusOk))
  end.

Definition email_change_response (o : Change.EmailChangeOutcome) : ServerReply :=
  match o with
  | Change.Updated => Routed (Plain StatusOk)
  | Change.ChangeInvalidCode => Refusal 401 "invalid code"
  | Change.ChangeLockedOut => Refusal 429 "too many attempts"
  | Change.Mismatch => Routed (Plain (Rejection Auth.Forbidden))
  | Change.EmailTaken => Routed (ConflictReply "email already in use")
  end.

Definition verify_email_change (w : World) (s : Server) (rq : Request) : Server * ServerReply :=
  match (let? authed := signer w s rq in
         let? b := map_err (fun r => Routed (Plain r)) (parse (A := VerifyEmailChangeBody) rq) in
         let? _ := map_err Routed (main_conn (env w)) in
         Ok (authed, b)) with
  | Err r => (s, r)
  | Ok (authed, b) =>
      let '((c, db), r) := Change.apply_verify_email_change (otp_config s) (sql w) (email_change s) (tables s) authed
                             (ve_new_email b) (ve_code b) (now_u64 (env w)) in
      (set_change s c db None, match r with Ok o => email_change_response o | Err _ => Routed InternalError end)
  end.

(** ** lib.rs: the router *)

Definition route (p : string) : option (World -> Server -> Request -> Server * ServerReply) :=
  if bool_decide (p = "/v1/auth/request-otp") then Some request_otp
  else if bool_decide (p = "/v1/auth/verify-otp") then Some verify_otp
  else if bool_decide (p = "/v1/auth/request-email-change-otp") then Some request_email_change_otp
  else if bool_decide (p = "/v1/auth/verify-email-change") then Some verify_email_change
  else match main_handler p with
       | Some h => Some (fun w s rq =>
           let '((st, db), r) := h (env w) (sql w) (app s, tables s) rq in (set_main s st db, Routed r))
       | None =>
           match handler p with
           | Some h => Some (fun w s rq =>
               let '(st, r) := h (env w) (sync (app s) (tables s)) rq in (set_main s st (tables s), Committed r))
           | None => None
           end
       end.

Definition serve_request (w : World) (s : Server) (rq : Request) : Server * ServerReply :=
  let '(rl, pass) :=
    RateLimit.rate_limit (rate_config (app s)) (rate_limiter (app s)) (method rq) (path rq) (headers rq) (now_u64 (env w)) in
  let s := set_main s (set_limiter (app s) rl) (tables s) in
  if negb pass then (s, Refusal 429 "too many requests")
  else
    match (if bool_decide (method rq = "POST") then route (path rq) else None) with
    | Some h => h w s rq
    | None => (s, Routed (Plain NoRoute))
    end.

(** Requests one after the other, each in its own world. *)
Definition serve_all (rqs : list (World * Request)) (s : Server) : Server :=
  fold_left (fun s wr => (serve_request wr.1 s wr.2).1) rqs s.
End Handlers.

(** ** What a request can change *)

Section Requests.
Context `{Sha256} `{!Ed25519} `{!Base64} `{!MainBodies} `{!JsonBodies} `{!OtpBodies} `{!Lowercase}.
Import AccountRoutes.

Definition fresh_row (name mail : string) : ProfileRow := mkProfile name None None None mail None 1.

Lemma apply_verify_otp_users sel ins raw ulid cfg o mail code device n1 n2 o' r :
  Otp.apply_verify_otp sel ins raw ulid cfg o mail code device n1 n2 = (o', r) ->
  Otp.users o' = Otp.users o \/
  exists name, Otp.users o' = Otp.users o ++ [Otp.mkUser ulid mail name None] /\
    Otp.user_conflict (Otp.users o) ulid mail name = false /\
    (Otp.check (Otp.otps o) mail code (Otp.max_attempts cfg) n1).2 = Otp.VOk.
Proof.
  unfold Otp.apply_verify_otp. destruct (Otp.check _ _ _ _ _) as [st [| | | |]] eqn:Ec; try (intros [= <- _]; by left).
  destruct sel; [|intros [= <- _]; by left]. cbn [negb]. cbv zeta.
  destruct (find _ _) as [u|]; [intros [= <- _]; by left|].
  destruct (negb ins || _) eqn:Eb; [intros [= <- _]; by left|]. intros [= <- _]. right.
  apply orb_false_iff in Eb as [_ Eb]. eexists. split_and!; [done|exact Eb|done].
Qed.

(** Writing back rows the table has changes nothing. *)
Lemma add_known us m : (forall u, In u us -> is_Some (m !! Otp.usr_id u)) -> fold_left add_user us m = m.
Proof.
  induction us as [|u us IH]; intros Hu; [done|]. simpl. unfold add_user at 2.
  destruct (Hu u ltac:(by left)) as [r ->]. apply IH. intros v Hv. apply Hu. by right.
Qed.

Lemma user_rows_known db u : In u (user_rows db) -> is_Some (Tables.users db !! Otp.usr_id u).
Proof.
  unfold user_rows. rewrite in_map_iff. intros ([id r] & <- & Hin). simpl.
  apply list_elem_of_In, elem_of_map_to_list in Hin. by exists r.
Qed.

Lemma no_conflict_fresh db id mail name : Otp.user_conflict (user_rows db) id mail name = false -> Tables.users db !! id = None.
Proof.
  intros Hc. destruct (Tables.users db !! id) as [r|] eqn:E; [|done]. exfalso.
  apply not_true_iff_false in Hc. apply Hc. apply existsb_exists.
  exists (Otp.mkUser id (prf_email r) (prf_username r) (prf_account_id_pub r)). split.
  - unfold user_rows. apply in_map_iff. exists (id, r). split; [done|]. by apply list_elem_of_In, elem_of_map_to_list.
  - simpl. by rewrite bool_decide_eq_true_2.
Qed.

(** The two ways a sign-up can leave the tables. *)
Lemma verify_otp_tables w s rq : let s' := (verify_otp w s rq).1 in
  kept (app s) (app s') /\
  (tables s' = tables s \/
   exists b name, from_slice (A := VerifyOtpBody) (body rq) = Ok b /\
     (Otp.check (otp_store s) (trim (vo_email b)) (vo_code b) (Otp.max_attempts (otp_config s)) (now_u64 (env w))).2 = Otp.VOk /\
     Tables.users (tables s) !! new_ulid (sql w) = None /\
     tables s' = set_users <[new_ulid (sql w) := fresh_row name (trim (vo_email b))]> (tables s)).
Proof.
  cbv zeta. unfold verify_otp, parse. destruct (from_slice (body rq)) as [b|] eqn:Eb; [|split; [done|by left]]. simpl.
  destruct (_ || _); [split; [done|by left]|]. destruct (main_conn (env w)); [|split; [done|by left]].
  destruct (Otp.apply_verify_otp _ _ _ _ _ _ _ _ _ _ _) as [o r] eqn:E. simpl. split; [done|].
  destruct (apply_verify_otp_users _ _ _ _ _ _ _ _ _ _ _ _ _ E) as [Hu|(name & Hu & Hc & Hok)]; simpl in *.
  - left. unfold add_users. rewrite Hu. destruct (tables s). unfold set_users. simpl. f_equal.
    apply add_known. intros u Hin. by apply (user_rows_known (mkMsgDb _ _ _ _ _ _ _ _ _ _ _ _ _ _ _ _)) in Hin.
  - right. exists b, name. apply no_conflict_fresh in Hc. split_and!; [done|done|done|].
    unfold add_users, set_users. rewrite Hu, fold_left_app, (add_known (user_rows (tables s))) by apply user_rows_known. simpl.
    unfold add_user. simpl. by rewrite Hc.
Qed.
(** An account made for an address whose code was presented. *)
Definition signed_up (w : World) (s : Server) (rq : Request) (db' : MsgDb) : Prop :=
  path rq = "/v1/auth/verify-otp" /\ exists b name, from_slice (A := VerifyOtpBody) (body rq) = Ok b /\
    (Otp.check (otp_store s) (trim (vo_email b)) (vo_code b) (Otp.max_attempts (otp_config s)) (now_u64 (env w))).2 = Otp.VOk /\
    Tables.users (tables s) !! new_ulid (sql w) = None /\
    db' = set_users <[new_ulid (sql w) := fresh_row name (trim (vo_email b))]> (tables s).

(** The signer's own address, swapped for the one whose code was presented. *)
Definition readdressed (w : World) (s : Server) (rq : Request) (db' : MsgDb) : Prop :=
  path rq = "/v1/auth/verify-email-change" /\ exists b u, from_slice (A := VerifyEmailChangeBody) (body rq) = Ok b /\
    authentic (main_of (tables s)) (now_i64 (env w)) rq u /\
    Change.requester_of (email_change s) (trim (ve_new_email b)) = Some u /\
    (Otp.check (Change.otp (email_change s)) (trim (ve_new_email b)) (ve_code b) (Otp.max_attempts (otp_config s))
       (now_u64 (env w))).2 = Otp.VOk /\
    Change.email_taken (trim (ve_new_email b)) u (tables s) = false /\
    db' = set_users (alter (Change.set_email (trim (ve_new_email b))) u) (tables s).

(** What authorises a change of the main database, and one of the commit-log database. *)
Definition main_change (w : World) (s : Server) (rq : Request) (db' : MsgDb) : Prop :=
  db' = tables s \/ (exists u, credential (env w) (app s) (tables s) rq u /\ permitted rq u (tables s) db') \/
  signed_up w s rq db' \/ readdressed w s rq db'.

Definition log_change (w : World) (s : Server) (rq : Request) (l' : LogDb) : Prop :=
  l' = log_db (app s) \/
  exists u, authorised (env w) (sync (app s) (tables s)) rq u /\ write_scope (main_of (tables s)) u (log_db (app s)) l'.

Lemma signer_sound w s rq u : require_auth (app s) = true -> signer w s rq = Ok u ->
  authentic (main_of (tables s)) (now_i64 (env w)) rq u.
Proof.
  intros Ha. unfold signer. destruct (gate _ _ _) as [authed|] eqn:Eg; [|done]. simpl.
  destruct (gate_sound (env w) (sync (app s) (tables s)) rq authed Ha Eg) as (u' & -> & Hu). by intros [= <-].
Qed.

(** What every route keeps: the settings, the log database, the configuration. *)
Definition route_sound (w : World) (s : Server) (rq : Request) (s' : Server) : Prop :=
  require_auth (app s') = require_auth (app s) /\ otp_config s' = otp_config s /\
  main_change w s rq (tables s') /\ log_change w s rq (log_db (app s')) /\
  (in_range rq -> log_of (new_ulid (sql w)) (tables s) = [] -> identities_ok (tables s) -> identities_ok (tables s')).

Lemma same_sound w s rq s' : require_auth (app s') = require_auth (app s) -> otp_config s' = otp_config s ->
  tables s' = tables s -> log_db (app s') = log_db (app s) -> route_sound w s rq s'.
Proof. intros E1 E2 E3 E4. split_and!; [done|done|by left|by left|]. by rewrite E3. Qed.

Lemma fresh_identities id name mail db : Tables.users db !! id = None -> log_of id db = [] ->
  identities_ok db -> identities_ok (set_users <[id := fresh_row name mail]> db).
Proof.
  intros Hn Hl [[Hc Hh] Hd]. split; [split|exact Hd]; [exact Hc|]. intros u r Hr. simpl in Hr.
  apply lookup_insert_Some in Hr as [[<- <-]|[_ Hr]]; [exact Hl|exact (Hh u r Hr)].
Qed.

Lemma readdressed_identities mail u db : identities_ok db -> identities_ok (set_users (alter (Change.set_email mail) u) db).
Proof.
  apply frame_identities. split; [done| |intros r' pub Hr Hp; by exists r']. intros v r' Hr. simpl in Hr.
  apply lookup_alter_Some in Hr as [(<- & r & Hr & ->)|[_ Hr]]; [by exists r|by exists r'].
Qed.

Lemma verify_otp_sound w s rq : path rq = "/v1/auth/verify-otp" -> route_sound w s rq (verify_otp w s rq).1.
Proof.
  intros Hp. pose proof (verify_otp_tables w s rq) as [Hk Ht]. injection Hk as Hk1 Hk2.
  assert (otp_config (verify_otp w s rq).1 = otp_config s) as Hcfg.
  { unfold verify_otp. destruct (parse rq); [|done]. destruct (_ || _); [done|]. destruct (main_conn _); [|done].
    by destruct (Otp.apply_verify_otp _ _ _ _ _ _ _ _ _ _ _). }
  destruct Ht as [Ht|(b & name & Hb & Hok & Hn & Ht)]; [by apply same_sound|]. split_and!; try done.
  - right. right. left. split; [done|]. by exists b, name.
  - by left.
  - intros _ Hl Hi. rewrite Ht. by apply fresh_identities.
Qed.

Lemma request_otp_sound w s rq : route_sound w s rq (request_otp w s rq).1.
Proof.
  unfold request_otp. destruct (parse rq); [|by apply same_sound]. destruct (bool_decide _); [by apply same_sound|].
  destruct (Otp.process_request_otp _ _ _ _ _ _). by apply same_sound.
Qed.

Lemma request_email_change_sound w s rq : route_sound w s rq (request_email_change_otp w s rq).1.
Proof.
  unfold request_email_change_otp. destruct (rbind _ _) as [[u mail]|]; [|by apply same_sound].
  destruct (bool_decide _); [by apply same_sound|]. destruct (Change.request _ _ _ _ _ _ _). by apply same_sound.
Qed.

Lemma verify_change_effect cfg se store db u mail code now :
  let db' := (Change.apply_verify_email_change cfg se store db u mail code now).1.2 in
  db' = db \/ Change.requester_of store (trim mail) = Some u /\
    (Otp.check (Change.otp store) (trim mail) code (Otp.max_attempts cfg) now).2 = Otp.VOk /\
    Change.email_taken (trim mail) u db = false /\ db' = set_users (alter (Change.set_email (trim mail)) u) db.
Proof.
  unfold Change.apply_verify_email_change. cbv zeta. destruct (negb _) eqn:Eb; [by left|]. breflect.
  destruct (Otp.check _ _ _ _ _) as [o' []]; try by left.
  pose proof (swap_email_spec se u (trim mail) db) as Hs. destruct (run_sql _ db) as [db' [[]|]]; simpl in *; try (by left); try tauto.
Qed.

Lemma verify_email_change_sound w s rq : path rq = "/v1/auth/verify-email-change" -> require_auth (app s) = true ->
  route_sound w s rq (verify_email_change w s rq).1.
Proof.
  intros Hp Ha. unfold verify_email_change. destruct (signer w s rq) as [u|] eqn:Es; [|by apply same_sound]. cbn [rbind].
  unfold parse. destruct (from_slice (body rq)) as [b|] eqn:Eb; [|by apply same_sound]. cbn [rbind map_err].
  destruct (main_conn (env w)); [|by apply same_sound]. cbn [rbind map_err].
  pose proof (verify_change_effect (otp_config s) (sql w) (email_change s) (tables s) u (ve_new_email b) (ve_code b) (now_u64 (env w))) as He.
  destruct (Change.apply_verify_email_change _ _ _ _ _ _ _ _) as [[c db] r]. simpl in He.
  destruct He as [->|(Hr & Hok & Ht & ->)]; [by apply same_sound|]. split_and!; try done.
  - right. right. right. split; [done|]. exists b, u. split_and!; try done. by eapply signer_sound.
  - by left.
  - intros _ _. apply readdressed_identities.
Qed.
Lemma route_is_sound w s rq h : route (path rq) = Some h -> require_auth (app s) = true ->
  route_sound w s rq (h w s rq).1.
Proof.
  intros E Ha. unfold route in E. destruct (bool_decide (path rq = "/v1/auth/request-otp")); [injection E as <-; apply request_otp_sound|].
  case_bool_decide; [injection E as <-; by apply verify_otp_sound|].
  destruct (bool_decide (path rq = "/v1/auth/request-email-change-otp")); [injection E as <-; apply request_email_change_sound|].
  case_bool_decide; [injection E as <-; by apply verify_email_change_sound|].
  destruct (main_handler (path rq)) as [mh|] eqn:Em.
  - injection E as <-. pose proof (main_handler_sound _ _ Em (env w) (sql w) (app s) (tables s) rq eq_refl Ha) as Hs.
    destruct (mh _ _ _ _) as [[st db] r]. destruct Hs as (Hk & Hc & Hi). injection Hk as Hk1 Hk2.
    split_and!; simpl; try done; [|by left|intros Hr _; by apply Hi]. destruct Hc as [->|Hc]; [by left|right; by left].
  - destruct (handler (path rq)) as [lh|] eqn:El; [|discriminate E]. injection E as <-.
    pose proof (handler_guarded (env w) (sync (app s) (tables s)) rq lh El) as Hg.
    destruct (lh _ _ _) as [st r]. destruct Hg as (_ & Hk & _ & Hl). split_and!; simpl in *; try done; [by left|by apply Hl].
Qed.

Lemma serve_request_sound w s rq : require_auth (app s) = true -> route_sound w s rq (serve_request w s rq).1.
Proof.
  intros Ha. unfold serve_request. destruct (RateLimit.rate_limit _ _ _ _ _ _) as [rl pass].
  set (s1 := set_main s (set_limiter (app s) rl) (tables s)).
  destruct pass; [|by apply same_sound]. cbn [negb].
  destruct (if bool_decide (method rq = "POST") then route (path rq) else None) as [h|] eqn:E; [|by apply same_sound].
  assert (route (path rq) = Some h) as Er by (by case_bool_decide). exact (route_is_sound w s1 rq h Er Ha).
Qed.

(** C9: every write is authenticated and stays within its route.  With authentication on,
    whatever request reaches the router and whichever statement fails, each database stays
    as it was or the request proves who may change it so.  A change of the main database
    needs a user [u] whose live device signed the request (on the recovery and bootstrap
    routes also a live OTP session of [u]; for a device certificate the account key's
    signature), and then only the tables of that path differ ([route_writes]) and in them
    only rows that the path's permission gives [u]: on the group routes rows of groups [u]
    administers, founds or is the last to leave, new channels of [u]'s groups, [u]'s own
    membership, invites and requests to join, and new read watermarks; on the DM and profile
    routes [u]'s own rows, DMs [u] makes, members [u] may add or remove, new watermarks, and
    the envelopes of an id that has no DM member but [u]; on the message routes envelopes of
    conversations [u] reads or the message a deletion names ([delete_message_unscoped]),
    [u]'s reactions and watermarks, and attachments, which have no owner, added or removed; on
    the account routes nothing of another account, and of shared tables only what leaves with
    [u]; a claim takes one key package.  The other changes are one new account for an address
    whose code was presented, and the signer's own change of address with a code sent there;
    the commit-log database changes within the scope of a signer. *)
Theorem every_write_authenticated (w : World) (s : Server) (rq : Request) :
  require_auth (app s) = true ->
  let s' := (serve_request w s rq).1 in main_change w s rq (tables s') /\ log_change w s rq (log_db (app s')).
Proof. intros Ha. by destruct (serve_request_sound w s rq Ha) as (_ & _ & Hm & Hl & _). Qed.

(** The generated ids are new to the key log, request by request. *)
Fixpoint fresh_ids (rqs : list (World * Request)) (s : Server) : Prop :=
  match rqs with
  | [] => True
  | (w, rq) :: rqs' => log_of (new_ulid (sql w)) (tables s) = [] /\ fresh_ids rqs' (serve_request w s rq).1
  end.

Lemma serve_all_identities rqs s : require_auth (app s) = true -> Forall (fun q => in_range q.2) rqs -> fresh_ids rqs s ->
  identities_ok (tables s) -> require_auth (app (serve_all rqs s)) = true /\ identities_ok (tables (serve_all rqs s)).
Proof.
  revert s. induction rqs as [|[w rq] rqs IH]; intros s Ha Hr Hf Hi; [done|].
  apply Forall_cons in Hr as [Hr Hrs]. destruct Hf as [Hf Hfs].
  destruct (serve_request_sound w s rq Ha) as (Hk & _ & _ & _ & Hid). apply IH; [by rewrite <- Ha|done|done|auto].
Qed.

(** C10: the chain of trust.  After any sequence of requests, whatever statements failed on
    the way, a request the gate accepts for a user was signed by a device whose installed
    key is certified by an account key of that user's own key log. *)
Theorem accepted_devices_certified (rqs : list (World * Request)) (s : Server) (e : Env) (rq : Request) (u : string) :
  require_auth (app s) = true -> Forall (fun q => in_range q.2) rqs -> fresh_ids rqs s -> identities_ok (tables s) ->
  let s' := serve_all rqs s in
  gate e (sync (app s') (tables s')) rq = Ok (Some u) ->
  exists r pub vk ts sig, In r (devices (tables s')) /\ dev_user r = u /\ revoked_at r = None /\ mls_signature_pub r = Some pub /\
    vk_from_bytes pub = Some vk /\ ed_verify vk (Auth.canonical_message (method rq) (path rq) ts (body rq)) sig = true /\
    exists k v t cert, In k (key_log (accounts (tables s'))) /\ kl_user_id k = u /\
      verify_device_cert (kl_account_id_pub k) (dev_id r) pub v t cert = true.
Proof.
  intros Ha Hr Hf Hi s' Hg. destruct (serve_all_identities rqs s Ha Hr Hf Hi) as [Ha' [_ Hc]].
  destruct (gate_sound e (sync (app s') (tables s')) rq _ Ha' Hg) as (u' & [= <-] & Hu).
  destruct Hu as (d & _ & ts & _ & sig & _ & _ & _ & _ & _ & _ & _ & _ & _ & _ & row & pub & vk & Hin & Hd & Hdu & Hrv & Hp & _ & Hvk & Hv).
  destruct (Hc row pub Hin Hp) as (k & v & t & cert & [Hk Hku]%filter_In & Hcert). unfold of_user in Hku. breflect.
  exists row, pub, vk, ts, sig. split_and!; try done. exists k, v, t, cert. split_and!; [done|congruence|done].
Qed.

(** C11: what the service wrote can be published and verifies.  After any sequence of
    requests the account-key log builds into a transparency bundle, and the account verifier
    gives every user of that bundle a valid verdict listing exactly their key versions in
    order: no interleaving of registrations, rotations, resets and deletions, and no failing
    statement, leaves a log the builder refuses or a user the verifier flags. *)
Theorem account_log_verifies `{!Sha256Laws} `{Hex, !HexLaws} `{!Ed25519Laws} `{!SerdeJson AccountKey.AccountKeyLeaf}
    `{!SerdeJsonLaws AccountKey.AccountKeyLeaf}
    (rqs : list (World * Request)) (s : Server) (sk : SigningKey) (ts : N) :
  require_auth (app s) = true -> Forall (fun q => in_range q.2) rqs -> fresh_ids rqs s -> identities_ok (tables s) ->
  let rows := account_rows (tables (serve_all rqs s)) in
  exists b, build_account_bundle rows sk ts = Ok b /\ forall u,
    let r := Account.verify_account_in_bundle b u in
    Account.ar_chain_valid r = true /\ Account.ar_violations r = [] /\
    Account.ar_keys r = map (fun l => Account.mkAccountKeyVersion (AccountKey.identity_version l) (AccountKey.seq l)
      (AccountKey.account_id_pub l) true)
      (List.filter (fun l => bool_decide (AccountKey.user_id l = u)) (map AccountKeyRow_to_leaf rows)).
Proof.
  intros Ha Hr Hf Hi rows. destruct (serve_all_identities rqs s Ha Hr Hf Hi) as [_ [Hk _]].
  destruct (proj2 (build_account_bundle_iff rows sk ts) (account_rows_ordered _ Hk)) as [b Hb].
  exists b. split; [done|]. intros u.
  destruct (account_report_complete rows sk ts b u Hb (account_rows_seq _)) as (? & ? & _ & _ & ?). done.
Qed.
End Requests.

(** ** A sign-up from the empty database *)

Definition empty_tables : MsgDb := mkMsgDb ∅ ∅ [] ∅ ∅ ∅ ∅ ∅ ∅ ∅ ∅ ∅ ∅ ∅ ∅ (mkAccountDb [] ∅ [] ∅ ∅ ∅ ∅).

Lemma empty_identities `{Ed25519} : identities_ok empty_tables.
Proof. split; [split|]; [done|intros u r Hr; cbn in Hr; by rewrite lookup_empty in Hr|intros r pub []]. Qed.

Section SignUp.
Import AccountRoutes.
#[local] Existing Instance clear_base64.
#[local] Instance key_json : SerdeJson AccountKey.AccountKeyLeaf := ClearJson.instance.
#[local] Instance key_json_laws : SerdeJsonLaws AccountKey.AccountKeyLeaf := ClearJson.laws.
#[local] Instance same_case : Lowercase := {| to_lowercase s := s |}.

(** A parser that knows one body, and one that knows none. *)
#[local] Definition one_body {A} (a : A) : SerdeJson A :=
  {| JsonError := unit; json_error_display _ := "bad"; to_vec _ := Ok []; from_slice _ := Ok a |}.

#[local] Definition no_body {A} : SerdeJson A :=
  {| JsonError := unit; json_error_display _ := "bad"; to_vec _ := Err tt; from_slice _ := Err tt |}.

#[local] Definition account_key : SigningKey := ClearSig.repeat_seed Byte.x41.
#[local] Definition device_key : SigningKey := ClearSig.repeat_seed Byte.x42.
#[local] Definition device_pub : bytes := vk_to_bytes (verifying_key device_key).

#[local] Definition device_cert : bytes :=
  ed_sign account_key (default [] (device_cert_signed_payload "phone" device_pub 1 7)).

#[local] Instance main_bodies : MainBodies.
Proof.
  constructor; first
    [exact (one_body (mkEstablishIdentity (of_bytes (vk_to_bytes (verifying_key account_key))) "s" "n" "w"))
    |exact (one_body (mkRegisterDevice "phone" None))
    |exact (one_body (mkPublishCert "phone" (of_bytes device_cert) 7 1 (of_bytes device_pub) None))
    |exact (one_body (mkRotateIdentity 1 "k" "s" "n" "w" None))
    |exact no_body].
Defined.

#[local] Instance log_bodies : JsonBodies.
Proof. constructor; exact no_body. Defined.

#[local] Instance otp_bodies : OtpBodies := {|
  js_request_otp := one_body (mkRequestOtp "a@x.io ");
  js_verify_otp := one_body (mkVerifyOtp "a@x.io" "000000" "phone" None);
  js_request_email_change := one_body (mkRequestEmailChange "b@x.io");
  js_verify_email_change := one_body (mkVerifyEmailChange "b@x.io" "000000")
|}.

#[local] Definition world (id : string) : World :=
  mkWorld (mkEnv (fun _ => false) 1700000200 1700000200 "t" (fun _ => "id"))
    (mkSqlEnv (fun _ => false) true "2026-01-01 00:00:00" "2025-12-02 00:00:00" (Some 1767225600%N) id 0)
    (repeat Byte.x01 16) 0 (repeat Byte.x02 32).

#[local] Definition server : Server :=
  mkServer (mkAppState true (main_of empty_tables) empty_log ∅ RateLimit.default ∅) empty_tables
    (Otp.mkOtpConfig (Some "key") None 600 600 30 5) ∅ Change.no_changes [].

#[local] Definition token : string := of_bytes (Proto.hex_lower (repeat Byte.x02 32)).

#[local] Definition in_the_session (p : string) : Request :=
  mkRequest "POST" p (fun n => if bool_decide (n = Session.SESSION_HEADER) then Some (Some token) else None) [].

#[local] Definition by_the_device (p : string) : Request := ds_post device_key "01ALICE" "phone" 1700000000 p [].

#[local] Definition sign_up : list (World * Request) := [
  (world "01ALICE", mkRequest "POST" "/v1/auth/request-otp" (fun _ => None) []);
  (world "01ALICE", mkRequest "POST" "/v1/auth/verify-otp" (fun _ => None) []);
  (world "01X", in_the_session "/v1/auth/establish-identity");
  (world "01X", in_the_session "/v1/auth/register-device");
  (world "01X", in_the_session "/v1/auth/publish-device-cert");
  (world "01X", by_the_device "/v1/account/rotate-identity");
  (world "01X", by_the_device "/v1/auth/request-email-change-otp");
  (world "01X", by_the_device "/v1/auth/verify-email-change")].

(** The account exists, its device is enrolled, its key was rotated and its address changed;
    a code was mailed to either address. *)
Example signed_up_and_moved :
  let s := serve_all sign_up server in
  (fun r => (prf_email r, prf_identity_version r)) <$> Tables.users (tables s) !! "01ALICE" = Some ("b@x.io", 2%Z) /\
  map dev_id (devices (tables s)) = ["phone"] /\
  map kl_identity_version (key_log (accounts (tables s))) = [1%Z; 2%Z] /\
  outbox s = [("key", "a@x.io", "000000"); ("key", "b@x.io", "000000")] /\ session_store (app s) = ∅.
Proof. vm_compute. split_and!; reflexivity. Qed.

Lemma sign_up_in_range : Forall (fun q : World * Request => in_range q.2) sign_up.
Proof. repeat constructor; intros b E; injection E as <-; simpl; lia. Qed.

Lemma sign_up_fresh : fresh_ids sign_up server.
Proof. vm_compute. split_and!; reflexivity. Qed.

#[local] Definition enrolled : Server := serve_all (take 5 sign_up) server.
#[local] Definition rotation : Request := by_the_device "/v1/account/rotate-identity".
#[local] Definition revocation : Request := by_the_device "/v1/devices/revoke".

Lemma every_write_authenticated_witness :
  let s' := (serve_request (world "01X") enrolled rotation).1 in
  main_change (world "01X") enrolled rotation (tables s') /\ log_change (world "01X") enrolled rotation (log_db (app s')).
Proof.
  assert (require_auth (app enrolled) = true) as Ha by (vm_compute; reflexivity).
  exact (every_write_authenticated (world "01X") enrolled rotation Ha).
Defined.

Lemma accepted_devices_certified_witness :
  let s' := serve_all sign_up server in
  exists r pub vk ts sig, In r (devices (tables s')) /\ dev_user r = "01ALICE" /\ revoked_at r = None /\ mls_signature_pub r = Some pub /\
    vk_from_bytes pub = Some vk /\ ed_verify vk (Auth.canonical_message (method revocation) (path revocation) ts (body revocation)) sig = true /\
    exists k v t cert, In k (key_log (accounts (tables s'))) /\ kl_user_id k = "01ALICE" /\
      verify_device_cert (kl_account_id_pub k) (dev_id r) pub v t cert = true.
Proof.
  assert (gate (env (world "01X")) (sync (app (serve_all sign_up server)) (tables (serve_all sign_up server))) revocation =
    Ok (Some "01ALICE")) as Hg by (vm_compute; reflexivity).
  exact (accepted_devices_certified sign_up server (env (world "01X")) revocation "01ALICE"
    eq_refl sign_up_in_range sign_up_fresh empty_identities Hg).
Defined.

Lemma account_log_verifies_witness :
  let rows := account_rows (tables (serve_all sign_up server)) in
  exists b, build_account_bundle rows account_key 9 = Ok b /\ forall u,
    let r := Account.verify_account_in_bundle b u in
    Account.ar_chain_valid r = true /\ Account.ar_violations r = [] /\
    Account.ar_keys r = map (fun l => Account.mkAccountKeyVersion (AccountKey.identity_version l) (AccountKey.seq l)
      (AccountKey.account_id_pub l) true)
      (List.filter (fun l => bool_decide (AccountKey.user_id l = u)) (map AccountKeyRow_to_leaf rows)).
Proof.
  exact (account_log_verifies sign_up server account_key 9 eq_refl sign_up_in_range sign_up_fresh empty_identities).
Defined.
End SignUp.
