(* ===== verification/Release.v ===== *)
(** * verifiable-log-serve: verdicts on a release

    Models [release.rs]: [verify_release_in_bundle], the one place the verdict on a release
    tag's binaries is computed, with the report it returns.  Unlike the group and account
    verdicts it replays every served entry, since the binary rules span releases.

    The theorems say what a valid verdict means against the log the signed head commits to,
    and that every release of an honestly built bundle gets one. *)

From stdpp Require Import base list strings gmap.
From Stdlib Require Import NArith ZArith Lia ZifyNat ZifyN.
From Stdlib Require Import Strings.Byte.
From S2P Require Import Prelude Crypto Merkle Log Tenants Monitor Builder Verifiers.

Module Release.
Import Binaries.

Record ReleaseArtifact := mkArtifact {
  ra_platform : string;
  ra_arch : string;
  ra_bundle : string;
  ra_layer : Layer;
  ra_artifact_name : string;
  ra_payload_sha256 : string;
  ra_artifact_sha256 : string;
  ra_provenance_uri : string;
  ra_included : bool
}.

(** The messages of [violations], with the values they print. *)
Inductive ReleaseViolation : Type :=
| BadHead
| ArtifactNotIncluded (artifact_name : string) (layer : Layer)
| ReplayRejected (e : Error).

Record ReleaseReport := mkReleaseReport {
  rr_release_tag : string;
  rr_found : bool;
  rr_sth_tree_size : N;
  rr_root_hex : string;
  rr_artifacts : list ReleaseArtifact;
  rr_chain_valid : bool;
  rr_violations : list ReleaseViolation
}.

Section Ops.
Context `{Sha256} `{Hex} `{Ed25519} `{!SerdeJson BinaryRecord}.

(** Membership, in tree order. *)
Definition selected (b : Bundle) (tag : string) : list (nat * BinaryRecord) :=
  omap (fun ie : nat * Entry =>
    if negb (bool_decide (tenant ie.2 = TENANT)) then None
    else match decode (data ie.2) with
         | Ok r => if bool_decide (release_tag r = tag) then Some (ie.1, r) else None
         | Err _ => None
         end) (imap pair (bundle_entries b)).

Definition artifact_of (b : Bundle) (ir : nat * BinaryRecord) : ReleaseArtifact :=
  mkArtifact (platform ir.2) (arch ir.2) (bundle ir.2) (layer ir.2) (artifact_name ir.2) (payload_sha256 ir.2)
    (artifact_sha256 ir.2) (provenance_uri ir.2) (entry_included b ir.1).

(** The inclusion loop: [all_included], the artifacts and the violations. *)
Fixpoint include_artifacts (b : Bundle) (sel : list (nat * BinaryRecord))
    : bool * list ReleaseArtifact * list ReleaseViolation :=
  match sel with
  | [] => (true, [], [])
  | ir :: sel' =>
      let '(all, arts, vs) := include_artifacts b sel' in
      let a := artifact_of b ir in
      if ra_included a then (all, a :: arts, vs)
      else (false, a :: arts, ArtifactNotIncluded (artifact_name ir.2) (layer ir.2) :: vs)
  end.

(** The replay of every entry of the tenant: [invariant_ok] and the violations. *)
Fixpoint replay_entries (log : VerifiableLog) (es : list Entry) : bool * list ReleaseViolation :=
  match es with
  | [] => (true, [])
  | e :: es' =>
      if negb (bool_decide (tenant e = TENANT)) then replay_entries log es'
      else
        let '(log', res) := append log e in
        let '(rest, vs) := replay_entries log' es' in
        match res with
        | Ok _ => (rest, vs)
        | Err er => (false, ReplayRejected er :: vs)
        end
  end.

Definition verify_release_in_bundle (b : Bundle) (tag : string) : ReleaseReport :=
  let '(size, root, sth_sig_ok) := trust_anchor STH_CONTEXT b in
  let sel := selected b tag in
  let '(all_included, artifacts, vs1) := include_artifacts b sel in
  let log := register_invariant VerifiableLog_new TENANT BinaryInvariant in
  let '(invariant_ok, vs2) := replay_entries log (bundle_entries b) in
  mkReleaseReport tag (negb (bool_decide (sel = []))) size root artifacts (sth_sig_ok && all_included && invariant_ok)
    ((if sth_sig_ok then [] else [BadHead]) ++ vs1 ++ vs2).
End Ops.
End Release.

(** ** The loops *)

Section Loops.
Context `{Sha256} `{Hex} `{Ed25519} `{!SerdeJson Binaries.BinaryRecord}.
Import Binaries Release.

Definition binary_entries (es : list Entry) : list Entry := List.filter (fun e => bool_decide (tenant e = TENANT)) es.

Lemma binary_entries_all es : Forall (fun e => tenant e = TENANT) es -> binary_entries es = es.
Proof.
  unfold binary_entries. induction 1 as [|e es He _ IH]; [done|]. simpl. rewrite bool_decide_eq_true_2 by done. by f_equal.
Qed.

Lemma release_selected_elem b tag i r : (i, r) ∈ selected b tag <->
  exists e, bundle_entries b !! i = Some e /\ tenant e = TENANT /\ decode (data e) = Ok r /\ release_tag r = tag.
Proof.
  unfold selected. rewrite list_elem_of_omap. split.
  - intros ([j e] & Hin & E). simpl in E. apply elem_of_lookup_imap in Hin as (j' & e' & [= <- <-] & Hj).
    exists e. destruct (bool_decide (tenant e = TENANT)) eqn:Et; [|done]. simpl in E.
    destruct (decode (data e)) as [r'|]; [|done]. destruct (bool_decide (release_tag r' = tag)) eqn:Er; simplify_eq.
    breflect. by split_and!.
  - intros (e & He & Ht & Hd & Hm). exists (i, e). split.
    + apply elem_of_lookup_imap. by exists i, e.
    + simpl. rewrite bool_decide_eq_true_2 by done. simpl. rewrite Hd. by rewrite bool_decide_eq_true_2.
Qed.

Lemma include_artifacts_spec b sel : let '(all, arts, vs) := include_artifacts b sel in
  arts = map (artifact_of b) sel /\ (all = true <-> Forall (fun ir => entry_included b ir.1 = true) sel) /\
  (all = true <-> vs = []).
Proof.
  induction sel as [|ir sel IH]; simpl; [done|]. destruct (include_artifacts b sel) as [[all arts] vs].
  destruct IH as (-> & Ha & Hv). destruct (entry_included b ir.1) eqn:Ei; simpl; rewrite Forall_cons, Ei.
  - split_and!; [done|tauto|done].
  - split_and!; [done|naive_solver|done].
Qed.

Lemma replay_entries_spec log es : let '(okv, vs) := replay_entries log es in
  (okv = true <-> exists log', append_each log (binary_entries es) = Ok log') /\ (okv = true <-> vs = []).
Proof.
  revert log. induction es as [|e es IH]; intros log; simpl.
  - split; [|done]. split; [by exists log|done].
  - destruct (bool_decide (tenant e = TENANT)); simpl; [|apply IH].
    destruct (append log e) as [log1 [n|er]] eqn:Ea; specialize (IH log1); destruct (replay_entries log1 es) as [rest vs].
    + exact IH.
    + split; [|done]. split; [done|]. by intros [log' ?].
Qed.
End Loops.

(** ** Verdicts *)

Section Verdicts.
Context `{Sha256, !Sha256Laws} `{Hex, !HexLaws} `{Ed25519, !Ed25519Laws}.
Context `{!SerdeJson Binaries.BinaryRecord, !SerdeJsonLaws Binaries.BinaryRecord}.
Import Binaries Release.

(** The replay passes exactly when the served entries keep the binary rules. *)
Lemma replay_entries_rule es :
  (replay_entries (fresh_log TENANT BinaryInvariant) es).1 = true <-> BinaryRule (binary_entries es).
Proof.
  pose proof (replay_entries_spec (fresh_log TENANT BinaryInvariant) es) as Hs. destruct (replay_entries _ es) as [okv vs].
  destruct Hs as [Hs _]. simpl. rewrite Hs.
  apply (append_each_rule BinaryInvariant BinaryRule TENANT (binary_entries es) (fresh_log TENANT BinaryInvariant)).
  - by apply lookup_insert_eq.
  - apply rule_nil.
  - apply List.Forall_forall. intros e [_ He]%filter_In. by breflect.
Qed.

Lemma verify_release_eq b tag size root okv : trust_anchor STH_CONTEXT b = (size, root, okv) ->
  let r := verify_release_in_bundle b tag in
  rr_release_tag r = tag /\ rr_artifacts r = map (artifact_of b) (selected b tag) /\
  rr_found r = negb (bool_decide (selected b tag = [])) /\ rr_sth_tree_size r = size /\ rr_root_hex r = root /\
  (rr_chain_valid r = true <-> okv = true /\ Forall (fun ir => entry_included b ir.1 = true) (selected b tag) /\
     BinaryRule (binary_entries (bundle_entries b))) /\
  (rr_chain_valid r = true <-> rr_violations r = []).
Proof.
  intros Ea. unfold verify_release_in_bundle. rewrite Ea.
  pose proof (include_artifacts_spec b (selected b tag)) as Hi. destruct (include_artifacts _ _) as [[all arts] vs1].
  pose proof (replay_entries_rule (bundle_entries b)) as Hr.
  pose proof (replay_entries_spec (fresh_log TENANT BinaryInvariant) (bundle_entries b)) as Hv.
  destruct (replay_entries _ _) as [inv vs2]. destruct Hv as [_ Hv]. simpl in *. destruct Hi as (-> & Ha & Hv1).
  split_and!; try done; rewrite !andb_true_iff; [tauto|].
  destruct okv; simpl; [|split; [by intros [[? _] _]|done]]. rewrite app_nil, <- Hv1, <- Hv. tauto.
Qed.

Lemma release_sound (b : Bundle) (tag : string) (s : Sth) (es : list Entry) :
  rr_chain_valid (verify_release_in_bundle b tag) = true ->
  latest_sth (sths b) = Some s -> root_bytes s = Ok (entries_root es) ->
  tree_size s = N.of_nat (length es) -> Forall tenant_fits es -> Forall tenant_fits (bundle_entries b) ->
  bundle_collision_free es b ->
  (exists vk, verifying_key_from_hex (public_key b) = Ok vk /\ verify_with_context s vk STH_CONTEXT = true) /\
  Forall (fun a => exists i e r, es !! i = Some e /\ tenant e = TENANT /\ decode (data e) = Ok r /\ release_tag r = tag /\
      a = mkArtifact (platform r) (arch r) (bundle r) (layer r) (artifact_name r) (payload_sha256 r) (artifact_sha256 r)
            (provenance_uri r) true) (rr_artifacts (verify_release_in_bundle b tag)) /\
  (exists rs, collect_results parse (binary_entries (bundle_entries b)) = Ok rs /\
     ordered no_fork rs /\ tags_contiguous rs /\ payloads_paired rs) /\
  rr_violations (verify_release_in_bundle b tag) = [].
Proof.
  intros Hv Hl Hr Hs Hf Hfb HQ. destruct (trust_anchor STH_CONTEXT b) as [[size root] okv] eqn:Ea.
  destruct (verify_release_eq b tag _ _ _ Ea) as (_ & -> & _ & _ & _ & Hc & Hvs).
  apply Hvs in Hv as Hnil. apply Hc in Hv as (-> & Hinc & Hrule).
  destruct (trust_anchor_true _ _ _ _ Ea) as (s' & vk & Hl' & Hk & Hsig & _ & _). rewrite Hl in Hl'. injection Hl' as <-.
  split_and!; [by exists vk| |exact Hrule|done].
  apply Forall_map, Forall_forall. intros [i r] Hin. rewrite Forall_forall in Hinc. pose proof (Hinc _ Hin) as Hi. simpl in Hi.
  destruct (entry_included_sound _ _ _ _ Hl Hr Hs Hf Hfb HQ Hi) as (e & He & Hes).
  apply release_selected_elem in Hin as (e' & He' & Ht & Hd & Hg). simplify_eq.
  exists i, e', r. split_and!; try done. unfold artifact_of. simpl. by rewrite Hi.
Qed.

(** Soundness of a release verdict.  If [chain_valid] is reported for a tag and the newest
    head commits to a log of entries [es], then the head verifies under the binaries
    context, every artifact listed is a leaf that log holds under this tag, with its
    digests; and the entries served keep the binary rules: one digest per released unit,
    contiguous release tags, and a payload before each signed or executable record. *)
Theorem release_report_sound (b : Bundle) (tag : string) (s : Sth) (es : list Entry) :
  rr_chain_valid (verify_release_in_bundle b tag) = true ->
  latest_sth (sths b) = Some s -> root_bytes s = Ok (entries_root es) ->
  tree_size s = N.of_nat (length es) -> Forall tenant_fits es -> Forall tenant_fits (bundle_entries b) ->
  bundle_collision_free es b ->
  (exists vk, verifying_key_from_hex (public_key b) = Ok vk /\ verify_with_context s vk STH_CONTEXT = true) /\
  Forall (fun a => exists i e r, es !! i = Some e /\ tenant e = TENANT /\ decode (data e) = Ok r /\ release_tag r = tag /\
      a = mkArtifact (platform r) (arch r) (bundle r) (layer r) (artifact_name r) (payload_sha256 r) (artifact_sha256 r)
            (provenance_uri r) true) (rr_artifacts (verify_release_in_bundle b tag)) /\
  (exists rs, collect_results parse (binary_entries (bundle_entries b)) = Ok rs /\
     ordered no_fork rs /\ tags_contiguous rs /\ payloads_paired rs) /\
  rr_violations (verify_release_in_bundle b tag) = [].
Proof. exact (release_sound b tag s es). Qed.

(** Completeness of a release verdict.  On a bundle the binaries builder produces, every
    tag gets a valid verdict with no violation, and the report lists exactly that tag's
    records, in publish order, each one included. *)
Theorem release_report_complete (records : list BinaryRecord) (sk : SigningKey) (ts : N) (b : Bundle) (tag : string) :
  build_binaries_bundle records sk ts = Ok b ->
  let r := verify_release_in_bundle b tag in
  let mine := List.filter (fun r => bool_decide (release_tag r = tag)) records in
  rr_chain_valid r = true /\ rr_violations r = [] /\ rr_sth_tree_size r = N.of_nat (length records) /\
  rr_found r = negb (bool_decide (mine = [])) /\
  rr_artifacts r = map (fun r => mkArtifact (platform r) (arch r) (bundle r) (layer r) (artifact_name r) (payload_sha256 r)
    (artifact_sha256 r) (provenance_uri r) true) mine.
Proof.
  intros Hb r mine. destruct (build_binaries_bundle_built _ _ _ _ Hb) as [log Hlog].
  pose proof (built_sealed _ _ _ _ _ _ _ _ _ _ Hlog) as Hseal.
  destruct (sealed_trust_anchor _ _ _ _ _ Hseal) as [root Ea].
  destruct (verify_release_eq b tag _ _ _ Ea) as (_ & Harts & Hfound & Hsize & _ & Hc & Hvs). fold r in Harts, Hfound, Hsize, Hc, Hvs.
  pose proof (built_tenant _ _ _ _ _ _ _ _ _ _ Hlog) as Ht. pose proof (built_parse _ _ _ _ _ _ _ _ _ _ Hlog) as Hp.
  rewrite map_id in Hp. pose proof (sealed_entries _ _ _ _ _ Hseal) as He.
  assert (map snd (selected b tag) = mine) as Hsel.
  { unfold selected, mine. rewrite He. exact (omap_leaves TENANT binary_parse_error _ id _ _ Ht Hp). }
  assert (Forall (fun ir => entry_included b ir.1 = true) (selected b tag)) as Hinc.
  { apply Forall_forall. intros [i x] Hin. apply release_selected_elem in Hin as (e & Hlk & _). simpl.
    apply (built_included _ _ _ _ _ _ _ _ _ _ _ Hlog). unfold log_size. apply lookup_lt_Some in Hlk. by rewrite He in Hlk. }
  assert (rr_chain_valid r = true) as Hv.
  { apply Hc. split_and!; [done|done|]. rewrite He, binary_entries_all by done.
    exists records. split; [exact Hp|]. pose proof (built_rule _ _ _ _ _ _ _ _ _ _ Hlog) as Hrule. by rewrite map_id in Hrule. }
  split_and!; [done|by apply Hvs| | |].
  - rewrite Hsize. by rewrite (built_entries_length _ _ _ _ _ _ _ _ _ _ Hlog).
  - rewrite Hfound, <- Hsel. by destruct (selected b tag).
  - rewrite Harts, <- Hsel, map_map. apply map_ext_in. intros [i x] Hin%list_elem_of_In. unfold artifact_of. simpl.
    rewrite Forall_forall in Hinc. specialize (Hinc _ Hin). simpl in Hinc. by rewrite Hinc.
Qed.
End Verdicts.

(** ** Evaluation on a built bundle *)

Section Concrete.
Import Binaries Release.

#[local] Instance binary_json' : SerdeJson BinaryRecord := ClearJson.instance.
#[local] Instance binary_json_laws' : SerdeJsonLaws BinaryRecord := ClearJson.laws.

#[local] Definition release_key : SigningKey := ClearSig.repeat_seed x03.

#[local] Definition release_record (tag : string) (l : Layer) (sum : string) : BinaryRecord :=
  mkBinaryRecord tag "c" "mac" "arm" "dmg" "a" l "ps" sum (mkToolchain "1" "2" "3" "4" 5) "u".

#[local] Definition release_records : list BinaryRecord :=
  [release_record "v1" Payload "ps"; release_record "v1" Signed "x"].

#[local] Definition release_bundle : Bundle :=
  match build_binaries_bundle release_records release_key 9 with Ok b => b | Err _ => mkBundle "" [] [] [] [] [] end.

#[local] Definition release_head : Sth := default (mkSth 0 "" 0 "") (latest_sth (sths release_bundle)).

Lemma release_report_sound_witness :
  (exists vk, verifying_key_from_hex (public_key release_bundle) = Ok vk /\
     verify_with_context release_head vk STH_CONTEXT = true) /\
  length (rr_artifacts (verify_release_in_bundle release_bundle "v1")) = 2.
Proof.
  destruct (release_report_sound release_bundle "v1" release_head (bundle_entries release_bundle)) as (Hk & _).
  - vm_compute. reflexivity.
  - vm_compute. reflexivity.
  - vm_compute. reflexivity.
  - vm_compute. reflexivity.
  - apply tenants_fitb_spec. vm_compute. reflexivity.
  - apply tenants_fitb_spec. vm_compute. reflexivity.
  - apply bundle_collision_freeb_spec. vm_compute. reflexivity.
  - split; [exact Hk|]. vm_compute. reflexivity.
Defined.

Lemma release_report_complete_witness :
  build_binaries_bundle release_records release_key 9 = Ok release_bundle /\
  rr_chain_valid (verify_release_in_bundle release_bundle "v1") = true.
Proof.
  assert (build_binaries_bundle release_records release_key 9 = Ok release_bundle) as E by (vm_compute; reflexivity).
  exact (conj E (proj1 (release_report_complete release_records release_key 9 release_bundle "v1" E))).
Defined.
End Concrete.
