(* ===== verification/Fetch.v ===== *)
(** * verifiable-log-serve: the documents of the read API and the client that fetches them

    Models the wire documents of [bundle.rs], [error.rs], the HTTP helpers of [remote.rs]
    ([build_agent], [fetch_json], [fetch_json_opt]) and the fetching front ends of the
    three verdicts: [verify_group_via], [verify_account_via] and [verify_release_via] with
    their proxy-less forms.

    The host on the other side is a function of everything it was asked before, so it may
    answer the same URL differently each time.  A client run threads the transcript of its
    exchanges; each exchange records how it was dialed.  [ureq] itself (sockets, redirects,
    decoding a body to text) is the host's answer; which proxy URLs [ureq::Proxy::new]
    accepts is a parameter.

    [fetch_tree_trace] says which documents a fetched bundle is made of;
    [verify_via_routed] that nothing is ever dialed past the proxy. *)

From stdpp Require Import base list strings gmap pretty.
From Stdlib Require Import NArith ZArith Lia ZifyNat ZifyN.
From Stdlib Require Import Strings.Byte.
From S2P Require Import Prelude Crypto Merkle Log Tenants Monitor Builder Verifiers Release.

(** ** error.rs *)

(** Foreign errors carry the text they print. *)
Inductive ServeError : Type :=
| SeIo (msg : string)
| SeJson (msg : string)
| SeLog (e : Error)
| SeHttp (msg : string)
| SeBadBundle (msg : string)
| SeConfig (msg : string)
| SeBuilder (msg : string).

(** [serde_json::to_vec_pretty], which [from_slice] reads back. *)
Class SerdePretty (A : Type) `{SerdeJson A} := { to_vec_pretty : A -> Result bytes JsonError }.

Class SerdePrettyLaws (A : Type) `{SerdePretty A} : Prop := {
  from_slice_pretty : forall (a : A) b, to_vec_pretty a = Ok b -> from_slice b = Ok a;
  to_vec_pretty_total : forall a : A, exists b, to_vec_pretty a = Ok b
}.

(** ** bundle.rs: the documents the serve layer defines *)

Record PublicKeyDoc := mkPublicKeyDoc { pk_public_key : string }.

Record InclusionRef := mkInclusionRef { ir_tree_size : N; ir_leaf_index : N }.

Record ConsistencyRef := mkConsistencyRef { cr_first : N; cr_second : N }.

(** The fields the three manifests share. *)
Record TreeIndex := mkTreeIndex {
  ti_version : string;
  ti_public_key : string;
  ti_entry_count : N;
  ti_latest_tree_size : option N;
  ti_sth_sizes : list N;
  ti_inclusion : list InclusionRef;
  ti_consistency : list ConsistencyRef;
  ti_enforce_unique : list string
}.

Record Manifest := mkManifest { m_index : TreeIndex; m_conversations : list string }.

Record AccountManifest := mkAccountManifest { am_index : TreeIndex; am_users : list string }.

Record BinaryManifest := mkBinaryManifest { bm_index : TreeIndex; bm_tags : list string }.

(** ** The HTTP client *)

(** How an agent dials: directly, or through a SOCKS5 proxy. *)
Inductive Agent : Type :=
| Direct
| Through (proxy : string).

(** What a GET yields: the text of a 2xx body, an error status, a failed connection, or a
    body that could not be read. *)
Inductive Answer : Type :=
| Page (body : bytes)
| ErrorStatus (code : N) (msg : string)
| Unreachable (msg : string)
| Unreadable (msg : string).

Record Exchange := mkExchange { ex_agent : Agent; ex_url : string; ex_answer : Answer }.

Definition Transcript : Type := list Exchange.

Definition Host : Type := Transcript -> Agent -> string -> Answer.

Definition Fetch (A : Type) : Type := Transcript -> Transcript * A.

Definition fret {A} (a : A) : Fetch A := fun t => (t, a).

Definition fbind {A B} (m : Fetch A) (k : A -> Fetch B) : Fetch B := fun t => let r := m t in k r.2 r.1.

(** [m?]: the error returns. *)
Definition ftry {A B E} (m : Fetch (Result A E)) (k : A -> Fetch (Result B E)) : Fetch (Result B E) :=
  fbind m (fun r => match r with Ok a => k a | Err e => fret (Err e) end).

Declare Scope fetch_scope.
Delimit Scope fetch_scope with fetch.
Notation "'let>' x := e 'in' k" := (fbind e (fun x => k))
  (at level 200, x binder, e at level 100, k at level 200) : fetch_scope.
Notation "'let>?' x := e 'in' k" := (ftry e (fun x => k))
  (at level 200, x binder, e at level 100, k at level 200) : fetch_scope.
#[local] Open Scope fetch_scope.

(** A [for] loop that fetches. *)
Fixpoint for_each {A S} (f : A -> S -> Fetch S) (l : list A) (s : S) : Fetch S :=
  match l with
  | [] => fret s
  | a :: l' => let> s' := f a s in for_each f l' s'
  end.

(** [base_url.trim_end_matches('/')]. *)
Fixpoint drop_slashes (b : bytes) : bytes :=
  match b with
  | [] => []
  | x :: b' => if bool_decide (x = Byte.x2f) then drop_slashes b' else b
  end.

Definition trim_end_slashes (s : string) : string := of_bytes (rev (drop_slashes (rev (as_bytes s)))).

Section Client.
Context (host : Host) (proxy_new : string -> Result unit string).

Definition http_get (agent : Agent) (url : string) : Fetch Answer :=
  fun t => let a := host t agent url in (t ++ [mkExchange agent url a], a).

Definition build_agent (proxy : option string) : Result Agent ServeError :=
  match proxy with
  | Some url =>
      let? _ := map_err (fun e => SeHttp (fmt ["invalid overlay proxy "; url; ": "; e])) (proxy_new url) in
      Ok (Through url)
  | None => Ok Direct
  end.

Definition parse_page {A} `{!SerdeJson A} (url : string) (body : bytes) : Result A ServeError :=
  map_err (fun e => SeHttp (fmt ["parse "; url; ": "; json_error_display e])) (from_slice body).

Definition fetch_json (A : Type) `{!SerdeJson A} (agent : Agent) (url : string) : Fetch (Result A ServeError) :=
  let> a := http_get agent url in
  fret match a with
       | Page body => parse_page url body
       | ErrorStatus _ m | Unreachable m => Err (SeHttp (fmt ["GET "; url; ": "; m]))
       | Unreadable m => Err (SeHttp (fmt ["read body "; url; ": "; m]))
       end.

Definition fetch_json_opt (A : Type) `{!SerdeJson A} (agent : Agent) (url : string)
    : Fetch (Result (option A) ServeError) :=
  let> a := http_get agent url in
  fret match a with
       | Page body => let? v := parse_page url body in Ok (Some v)
       | Unreadable m => Err (SeHttp (fmt ["read body "; url; ": "; m]))
       | ErrorStatus code m => if (code =? 404)%N then Ok None else Err (SeHttp (fmt ["GET "; url; ": "; m]))
       | Unreachable m => Err (SeHttp (fmt ["GET "; url; ": "; m]))
       end.

(** ** The fetching front ends

    The three [verify_*_via] functions run the same steps on their own subtree; [wanted]
    selects the entries whose proofs are fetched. *)

Section Tree.
Context `{!SerdeJson PublicKeyDoc, !SerdeJson Sth, !SerdeJson (list Entry), !SerdeJson InclusionProof}.

Definition wanted_indices (wanted : Entry -> bool) (es : list Entry) : list nat :=
  omap (fun ie : nat * Entry => if wanted ie.2 then Some ie.1 else None) (imap pair es).

(** A failed fetch omits the proof. *)
Definition fetch_proof (agent : Agent) (prefix : string) (s : Sth) (es : list Entry) (i : nat)
    (acc : list InclusionCheck) : Fetch (list InclusionCheck) :=
  let> r := fetch_json InclusionProof agent
    (fmt [prefix; "/proof/inclusion/"; pretty (tree_size s); "/"; pretty (N.of_nat i); ".json"]) in
  fret match r, es !! i with
       | Ok p, Some e => acc ++ [mkInclusionCheck e p 0]
       | _, _ => acc
       end.

Definition fetch_tree (agent : Agent) (prefix tn : string) (wanted : Entry -> bool)
    : Fetch (Result Bundle ServeError) :=
  let>? pk := fetch_json PublicKeyDoc agent (fmt [prefix; "/public_key.json"]) in
  let>? s := fetch_json Sth agent (fmt [prefix; "/sth/latest.json"]) in
  let>? es := fetch_json (list Entry) agent (fmt [prefix; "/entries.json"]) in
  let> incl := for_each (fetch_proof agent prefix s es) (wanted_indices wanted es) [] in
  fret (Ok (mkBundle (pk_public_key pk) [s] es [tn] incl [])).

Definition wanted_leaf {L J} (tn : string) (dec : bytes -> Result L J) (mine : L -> bool) (e : Entry) : bool :=
  bool_decide (tenant e = tn) && match dec (data e) with Ok leaf => mine leaf | Err _ => false end.

Context `{Sha256} `{Hex} `{Ed25519}.
Context `{!SerdeJson CommitLog.CommitLeaf, !SerdeJson AccountKey.AccountKeyLeaf, !SerdeJson Binaries.BinaryRecord}.

Definition verify_group_via (base_url conversation_id : string) (proxy : option string)
    : Fetch (Result (Group.GroupReport (JsonError (A:=CommitLog.CommitLeaf))) ServeError) :=
  let base := trim_end_slashes base_url in
  let>? agent := fret (build_agent proxy) in
  let>? b := fetch_tree agent (fmt [base; "/v1"]) CommitLog.TENANT
    (wanted_leaf CommitLog.TENANT CommitLog.decode
       (fun leaf => bool_decide (CommitLog.conversation_id leaf = conversation_id))) in
  fret (Ok (Group.verify_group_in_bundle b conversation_id)).

Definition verify_group (base_url conversation_id : string) := verify_group_via base_url conversation_id None.

Definition verify_account_via (base_url user_id : string) (proxy : option string)
    : Fetch (Result (Account.AccountReport (JsonError (A:=AccountKey.AccountKeyLeaf))) ServeError) :=
  let base := trim_end_slashes base_url in
  let>? agent := fret (build_agent proxy) in
  let>? b := fetch_tree agent (fmt [base; "/v1/account-keys"]) AccountKey.TENANT
    (wanted_leaf AccountKey.TENANT AccountKey.decode
       (fun leaf => bool_decide (AccountKey.user_id leaf = user_id))) in
  fret (Ok (Account.verify_account_in_bundle b user_id)).

Definition verify_account (base_url user_id : string) := verify_account_via base_url user_id None.

Definition verify_release_via (base_url release_tag : string) (proxy : option string)
    : Fetch (Result Release.ReleaseReport ServeError) :=
  let base := trim_end_slashes base_url in
  let>? agent := fret (build_agent proxy) in
  let>? b := fetch_tree agent (fmt [base; "/v1/binaries"]) Binaries.TENANT
    (wanted_leaf Binaries.TENANT Binaries.decode
       (fun r => bool_decide (Binaries.release_tag r = release_tag))) in
  fret (Ok (Release.verify_release_in_bundle b release_tag)).

Definition verify_release (base_url release_tag : string) := verify_release_via base_url release_tag None.
End Tree.
End Client.

(** ** How a run dials *)

(** Every exchange [m] adds to the transcript is dialed by [agent]. *)
Definition routed {A} (agent : Agent) (m : Fetch A) : Prop :=
  forall t, exists new, (m t).1 = t ++ new /\ Forall (fun ex => ex_agent ex = agent) new.

Section Routing.
Context (host : Host) (agent : Agent).

Lemma routed_ret {A} (a : A) : routed agent (fret a).
Proof. intros t. exists []. by rewrite app_nil_r. Qed.

Lemma routed_bind {A B} (m : Fetch A) (k : A -> Fetch B) :
  routed agent m -> (forall a, routed agent (k a)) -> routed agent (fbind m k).
Proof.
  intros Hm Hk t. unfold fbind. destruct (Hm t) as (n1 & E1 & F1). destruct (Hk (m t).2 (m t).1) as (n2 & E2 & F2).
  exists (n1 ++ n2). rewrite E2, E1, app_assoc. split; [done|]. by apply Forall_app.
Qed.

Lemma routed_try {A B E} (m : Fetch (Result A E)) (k : A -> Fetch (Result B E)) :
  routed agent m -> (forall a, routed agent (k a)) -> routed agent (ftry m k).
Proof. intros Hm Hk. apply routed_bind; [done|]. intros [a|e]; [done|apply routed_ret]. Qed.

Lemma routed_get url : routed agent (http_get host agent url).
Proof. intros t. eexists. split; [reflexivity|]. by repeat constructor. Qed.

Lemma routed_for_each {A S} (f : A -> S -> Fetch S) l s :
  (forall a s, routed agent (f a s)) -> routed agent (for_each f l s).
Proof.
  intros Hf. revert s. induction l as [|a l IH]; intros s; simpl; [apply routed_ret|].
  apply routed_bind; [apply Hf|]. intros s'. apply IH.
Qed.
End Routing.

Ltac route := repeat (intros; first [apply routed_ret|apply routed_get|apply routed_for_each|apply routed_try|apply routed_bind]).

Section RoutingFetch.
Context (host : Host) (agent : Agent).

Lemma routed_fetch_json A `{!SerdeJson A} url : routed agent (fetch_json host A agent url).
Proof. unfold fetch_json. route. Qed.

Lemma routed_fetch_json_opt A `{!SerdeJson A} url : routed agent (fetch_json_opt host A agent url).
Proof. unfold fetch_json_opt. route. Qed.

Lemma routed_fetch_tree `{!SerdeJson PublicKeyDoc, !SerdeJson Sth, !SerdeJson (list Entry), !SerdeJson InclusionProof}
    prefix tn wanted : routed agent (fetch_tree host agent prefix tn wanted).
Proof. unfold fetch_tree, fetch_proof, fetch_json. route. Qed.
End RoutingFetch.

(** ** What a fetched bundle is made of *)

(** Some exchange of [t] answered [url] with a page that parses to [a]. *)
Definition fetched {A} `{!SerdeJson A} (t : Transcript) (url : string) (a : A) : Prop :=
  exists ex body, ex ∈ t /\ ex_url ex = url /\ ex_answer ex = Page body /\ from_slice body = Ok a.

Section Trace.
Context (host : Host) (agent : Agent).

Lemma fetched_app {A} `{!SerdeJson A} t t' url (a : A) : fetched t url a -> fetched (t ++ t') url a.
Proof. intros (ex & body & Hin & ?). exists ex, body. split; [set_solver|done]. Qed.

Lemma fetch_json_ok A `{!SerdeJson A} url t (a : A) : (fetch_json host A agent url t).2 = Ok a ->
  fetched (fetch_json host A agent url t).1 url a.
Proof.
  unfold fetch_json, fbind, fret, parse_page. simpl. destruct (host t agent url) as [body| | |] eqn:Eh; try done.
  destruct (from_slice body) eqn:Ef; [|done]. simpl. intros [= ->].
  exists (mkExchange agent url (Page body)), body. split; [set_solver|done].
Qed.

(** What a run has fetched stays fetched. *)
Lemma routed_keeps {A B} `{!SerdeJson B} (m : Fetch A) t url (b : B) : routed agent m -> fetched t url b ->
  fetched (m t).1 url b.
Proof. intros Hm Hf. destruct (Hm t) as (new & -> & _). by apply fetched_app. Qed.
End Trace.

(** What [fetch_tree] returns was served: the key, the newest head and the entries. *)
Record fetched_bundle `{!SerdeJson PublicKeyDoc, !SerdeJson Sth, !SerdeJson (list Entry)}
    (t : Transcript) (prefix : string) (b : Bundle) (s : Sth) : Prop := {
  fb_key : fetched t (fmt [prefix; "/public_key.json"]) (mkPublicKeyDoc (public_key b));
  fb_head : fetched t (fmt [prefix; "/sth/latest.json"]) s;
  fb_entries : fetched t (fmt [prefix; "/entries.json"]) (bundle_entries b);
  fb_sths : sths b = [s]
}.

Lemma fetch_tree_ok (host : Host) agent `{!SerdeJson PublicKeyDoc, !SerdeJson Sth, !SerdeJson (list Entry), !SerdeJson InclusionProof}
    prefix tn wanted t b :
  (fetch_tree host agent prefix tn wanted t).2 = Ok b ->
  exists s, fetched_bundle (fetch_tree host agent prefix tn wanted t).1 prefix b s.
Proof.
  unfold fetch_tree. unfold ftry, fbind.
  set (r1 := fetch_json host PublicKeyDoc agent _ t). destruct r1.2 as [pk|] eqn:E1; [|done].
  set (r2 := fetch_json host Sth agent _ r1.1). destruct r2.2 as [s|] eqn:E2; [|done].
  set (r3 := fetch_json host (list Entry) agent _ r2.1). destruct r3.2 as [es|] eqn:E3; [|done].
  cbn [fret fst snd]. intros [= <-]. exists s.
  set (proofs := for_each _ _ _).
  assert (routed agent proofs) as R4 by (unfold proofs, fetch_proof, fetch_json; route).
  pose proof (routed_fetch_json host agent Sth (fmt [prefix; "/sth/latest.json"])) as R2.
  pose proof (routed_fetch_json host agent (list Entry) (fmt [prefix; "/entries.json"])) as R3.
  pose proof (fetch_json_ok host agent _ _ t pk E1) as F1. apply (routed_keeps agent _ _ _ _ R2) in F1.
  pose proof (fetch_json_ok host agent _ _ _ s E2) as F2.
  apply (routed_keeps agent _ _ _ _ R3) in F1, F2. pose proof (fetch_json_ok host agent _ _ _ es E3) as F3.
  apply (routed_keeps agent _ _ _ _ R4) in F1, F2, F3. destruct pk. split; [exact F1|exact F2|exact F3|reflexivity].
Qed.

(** A verifier given a proxy: it dials through it alone, or not at all. *)
Section Proxied.
Context (host : Host) (proxy_new : string -> Result unit string).
Context `{!SerdeJson PublicKeyDoc, !SerdeJson Sth, !SerdeJson (list Entry), !SerdeJson InclusionProof}.
Context `{Sha256} `{Hex} `{Ed25519}.
Context `{!SerdeJson CommitLog.CommitLeaf, !SerdeJson AccountKey.AccountKeyLeaf, !SerdeJson Binaries.BinaryRecord}.

Definition only_through {A} (proxy : string) (m : Fetch (Result A ServeError)) : Prop :=
  forall t, match proxy_new proxy with
  | Ok _ => exists new, (m t).1 = t ++ new /\ Forall (fun ex => ex_agent ex = Through proxy) new
  | Err e => m t = (t, Err (SeHttp (fmt ["invalid overlay proxy "; proxy; ": "; e])))
  end.

Lemma only_through_try {A} (run : Agent -> Fetch (Result A ServeError)) proxy :
  (forall agent, routed agent (run agent)) ->
  only_through proxy (ftry (fret (build_agent proxy_new (Some proxy))) run).
Proof.
  intros Hr t. unfold ftry, fbind, fret, build_agent. destruct (proxy_new proxy); simpl; [apply Hr|done].
Qed.

(** No request escapes the overlay.  Given a proxy, each of the three verifiers dials
    every request through that proxy, whatever the host answers; and when the proxy URL is
    malformed it returns the error without a single request, so nothing is ever fetched
    directly. *)
Theorem verify_via_routed (base_url id proxy : string) :
  only_through proxy (verify_group_via host proxy_new base_url id (Some proxy)) /\
  only_through proxy (verify_account_via host proxy_new base_url id (Some proxy)) /\
  only_through proxy (verify_release_via host proxy_new base_url id (Some proxy)).
Proof.
  split_and!; apply only_through_try; intros agent; apply routed_try;
    first [apply routed_fetch_tree|intros; apply routed_ret].
Qed.
End Proxied.
