(* ===== verification/Wire.v ===== *)
(** * An executable codec for the documents of the read API

    Every document is countable, so the stand-in codec of [Crypto] applies to it.  The
    codec instances live in [WireJson], which only evaluation tests and witnesses import;
    the theorems hold for any codec that satisfies the laws. *)

From stdpp Require Import base list strings gmap countable.
From Stdlib Require Import NArith ZArith.
From S2P Require Import Prelude Crypto Merkle Log Tenants Monitor Builder Verifiers Release Fetch.

(** ** Countable documents *)

Ltac by_fields f g := refine (inj_countable' f g _); by intros [].

#[global] Instance Entry_countable : Countable Entry.
Proof. by_fields (fun e => (tenant e, data e)) (fun p : string * bytes => mkEntry p.1 p.2). Defined.

#[global] Instance Sth_countable : Countable Sth.
Proof.
  by_fields (fun s => (tree_size s, timestamp s, [sth_root_hash s; signature s]))
    (fun p : N * N * list string => mkSth p.1.1 (nth 0 p.2 "") p.1.2 (nth 1 p.2 "")).
Defined.

#[global] Instance InclusionProof_countable : Countable InclusionProof.
Proof.
  by_fields (fun p => (leaf_index p, ip_tree_size p, audit_path p))
    (fun q : N * N * list string => mkInclusionProof q.1.1 q.1.2 q.2).
Defined.

#[global] Instance ConsistencyProof_countable : Countable ConsistencyProof.
Proof.
  by_fields (fun p => (first_size p, second_size p, cp_path p))
    (fun q : N * N * list string => mkConsistencyProof q.1.1 q.1.2 q.2).
Defined.

#[global] Instance InclusionCheck_eq_dec : EqDecision InclusionCheck.
Proof. solve_decision. Defined.

#[global] Instance InclusionCheck_countable : Countable InclusionCheck.
Proof.
  by_fields (fun c => (ic_entry c, ic_proof c, sth_index c))
    (fun q : Entry * InclusionProof * nat => mkInclusionCheck q.1.1 q.1.2 q.2).
Defined.

#[global] Instance ConsistencyCheck_eq_dec : EqDecision ConsistencyCheck.
Proof. solve_decision. Defined.

#[global] Instance ConsistencyCheck_countable : Countable ConsistencyCheck.
Proof.
  by_fields (fun c => (old_index c, new_index c, cc_proof c))
    (fun q : nat * nat * ConsistencyProof => mkConsistencyCheck q.1.1 q.1.2 q.2).
Defined.

#[global] Instance Bundle_eq_dec : EqDecision Bundle.
Proof. solve_decision. Defined.

#[global] Instance Bundle_countable : Countable Bundle.
Proof.
  by_fields (fun b => (public_key b, sths b, bundle_entries b, (enforce_unique b, inclusion b, consistency b)))
    (fun q : string * list Sth * list Entry * (list string * list InclusionCheck * list ConsistencyCheck) =>
       mkBundle q.1.1.1 q.1.1.2 q.1.2 q.2.1.1 q.2.1.2 q.2.2).
Defined.

#[global] Instance PublicKeyDoc_eq_dec : EqDecision PublicKeyDoc.
Proof. solve_decision. Defined.

#[global] Instance PublicKeyDoc_countable : Countable PublicKeyDoc.
Proof. by_fields pk_public_key mkPublicKeyDoc. Defined.

#[global] Instance InclusionRef_eq_dec : EqDecision InclusionRef.
Proof. solve_decision. Defined.

#[global] Instance InclusionRef_countable : Countable InclusionRef.
Proof. by_fields (fun r => (ir_tree_size r, ir_leaf_index r)) (fun p : N * N => mkInclusionRef p.1 p.2). Defined.

#[global] Instance ConsistencyRef_eq_dec : EqDecision ConsistencyRef.
Proof. solve_decision. Defined.

#[global] Instance ConsistencyRef_countable : Countable ConsistencyRef.
Proof. by_fields (fun r => (cr_first r, cr_second r)) (fun p : N * N => mkConsistencyRef p.1 p.2). Defined.

#[global] Instance TreeIndex_eq_dec : EqDecision TreeIndex.
Proof. solve_decision. Defined.

#[global] Instance TreeIndex_countable : Countable TreeIndex.
Proof.
  by_fields (fun x => (ti_version x, ti_public_key x, ti_entry_count x, ti_latest_tree_size x,
      (ti_sth_sizes x, ti_inclusion x, ti_consistency x, ti_enforce_unique x)))
    (fun q : string * string * N * option N * (list N * list InclusionRef * list ConsistencyRef * list string) =>
       mkTreeIndex q.1.1.1.1 q.1.1.1.2 q.1.1.2 q.1.2 q.2.1.1.1 q.2.1.1.2 q.2.1.2 q.2.2).
Defined.

#[global] Instance Manifest_eq_dec : EqDecision Manifest.
Proof. solve_decision. Defined.

#[global] Instance Manifest_countable : Countable Manifest.
Proof. by_fields (fun m => (m_index m, m_conversations m)) (fun p : TreeIndex * list string => mkManifest p.1 p.2). Defined.

#[global] Instance AccountManifest_eq_dec : EqDecision AccountManifest.
Proof. solve_decision. Defined.

#[global] Instance AccountManifest_countable : Countable AccountManifest.
Proof. by_fields (fun m => (am_index m, am_users m)) (fun p : TreeIndex * list string => mkAccountManifest p.1 p.2). Defined.

#[global] Instance BinaryManifest_eq_dec : EqDecision BinaryManifest.
Proof. solve_decision. Defined.

#[global] Instance BinaryManifest_countable : Countable BinaryManifest.
Proof. by_fields (fun m => (bm_index m, bm_tags m)) (fun p : TreeIndex * list string => mkBinaryManifest p.1 p.2). Defined.

(** ** Countable reports *)

#[global] Instance FromHexError_eq_dec : EqDecision FromHexError.
Proof. solve_decision. Defined.

#[global] Instance FromHexError_countable : Countable FromHexError.
Proof.
  by_fields (fun e => match e with InvalidHexCharacter i => inl i | OddLength => inr true | InvalidStringLength => inr false end)
    (fun s : nat + bool => match s with inl i => InvalidHexCharacter i | inr true => OddLength | inr false => InvalidStringLength end).
Defined.

#[global] Instance Error_eq_dec : EqDecision Error.
Proof. solve_decision. Defined.

(** A tag and the fields of any constructor. *)
#[global] Instance Error_countable : Countable Error.
Proof.
  by_fields (fun e : Error => match e with
      | IndexOutOfRange i n => (0, i, n, "", "", OddLength)
      | InvalidTreeSizes m n => (1, m, n, "", "", OddLength)
      | Invariant t m => (2, 0, 0, t, m, OddLength)
      | HexError h => (3, 0, 0, "", "", h)
      | BadHashLength n => (4, n, 0, "", "", OddLength)
      | BadSignatureLength n => (5, n, 0, "", "", OddLength)
      | BadPublicKeyLength n => (6, n, 0, "", "", OddLength)
      | BadPublicKey => (7, 0, 0, "", "", OddLength)
      end)
    (fun q : nat * nat * nat * string * string * FromHexError =>
       let '(k, i, n, s, t, h) := q in
       match k with
       | 0 => IndexOutOfRange i n
       | 1 => InvalidTreeSizes i n
       | 2 => Invariant s t
       | 3 => HexError h
       | 4 => BadHashLength i
       | 5 => BadSignatureLength i
       | 6 => BadPublicKeyLength i
       | _ => BadPublicKey
       end).
Defined.

#[global] Instance Violation_eq_dec {J} `{EqDecision J} : EqDecision (Violation J).
Proof. solve_decision. Defined.

#[global] Instance Violation_countable {J} `{Countable J} : Countable (Violation J).
Proof.
  by_fields (fun v : Violation J => match v with
      | BadSthSignature => inl (inl tt)
      | NotIncluded q n => inl (inr (q, n))
      | RejectedAppend e => inr (inl e)
      | ReencodeFailed q n e => inr (inr (q, n, e))
      end)
    (fun s : (unit + Z * N) + (Error + Z * N * J) => match s with
      | inl (inl _) => BadSthSignature
      | inl (inr p) => NotIncluded p.1 p.2
      | inr (inl e) => RejectedAppend e
      | inr (inr p) => ReencodeFailed p.1.1 p.1.2 p.2
      end).
Defined.

#[global] Instance GroupCommit_eq_dec : EqDecision Group.GroupCommit.
Proof. solve_decision. Defined.

#[global] Instance GroupCommit_countable : Countable Group.GroupCommit.
Proof.
  by_fields (fun c => (Group.gc_epoch c, Group.gc_seq c, [Group.gc_sender_id c; Group.gc_commit_sha256 c], Group.included c))
    (fun q : N * Z * list string * bool => Group.mkGroupCommit q.1.1.1 q.1.1.2 (nth 0 q.1.2 "") (nth 1 q.1.2 "") q.2).
Defined.

#[global] Instance GroupReport_eq_dec {J} `{EqDecision J} : EqDecision (Group.GroupReport J).
Proof. solve_decision. Defined.

#[global] Instance GroupReport_countable {J} `{Countable J} : Countable (Group.GroupReport J).
Proof.
  by_fields (fun r : Group.GroupReport J => ([Group.group_id r; Group.root_hex r], Group.found r, Group.sth_tree_size r,
      Group.commits r, (Group.chain_valid r, Group.violations r)))
    (fun q : list string * bool * N * list Group.GroupCommit * (bool * list (Violation J)) =>
       Group.mkGroupReport J (nth 0 q.1.1.1.1 "") q.1.1.1.2 q.1.1.2 (nth 1 q.1.1.1.1 "") q.1.2 q.2.1 q.2.2).
Defined.

#[global] Instance AccountKeyVersion_eq_dec : EqDecision Account.AccountKeyVersion.
Proof. solve_decision. Defined.

#[global] Instance AccountKeyVersion_countable : Countable Account.AccountKeyVersion.
Proof.
  by_fields (fun k => (Account.kv_identity_version k, Account.kv_seq k, Account.kv_account_id_pub k, Account.kv_included k))
    (fun q : N * Z * string * bool => Account.mkAccountKeyVersion q.1.1.1 q.1.1.2 q.1.2 q.2).
Defined.

#[global] Instance AccountReport_eq_dec {J} `{EqDecision J} : EqDecision (Account.AccountReport J).
Proof. solve_decision. Defined.

#[global] Instance AccountReport_countable {J} `{Countable J} : Countable (Account.AccountReport J).
Proof.
  by_fields (fun r : Account.AccountReport J => ([Account.ar_user r; Account.ar_root_hex r], Account.ar_found r,
      Account.ar_sth_tree_size r, Account.ar_keys r, (Account.ar_chain_valid r, Account.ar_violations r)))
    (fun q : list string * bool * N * list Account.AccountKeyVersion * (bool * list (Violation J)) =>
       Account.mkAccountReport J (nth 0 q.1.1.1.1 "") q.1.1.1.2 q.1.1.2 (nth 1 q.1.1.1.1 "") q.1.2 q.2.1 q.2.2).
Defined.

#[global] Instance ReleaseArtifact_eq_dec : EqDecision Release.ReleaseArtifact.
Proof. solve_decision. Defined.

#[global] Instance ReleaseArtifact_countable : Countable Release.ReleaseArtifact.
Proof.
  by_fields (fun a => ([Release.ra_platform a; Release.ra_arch a; Release.ra_bundle a; Release.ra_artifact_name a;
      Release.ra_payload_sha256 a; Release.ra_artifact_sha256 a; Release.ra_provenance_uri a], Release.ra_layer a, Release.ra_included a))
    (fun q : list string * Binaries.Layer * bool =>
       let at_ i := nth i q.1.1 "" in
       Release.mkArtifact (at_ 0) (at_ 1) (at_ 2) q.1.2 (at_ 3) (at_ 4) (at_ 5) (at_ 6) q.2).
Defined.

#[global] Instance ReleaseViolation_eq_dec : EqDecision Release.ReleaseViolation.
Proof. solve_decision. Defined.

#[global] Instance ReleaseViolation_countable : Countable Release.ReleaseViolation.
Proof.
  by_fields (fun v => match v with
      | Release.BadHead => inl (inl tt)
      | Release.ArtifactNotIncluded n l => inl (inr (n, l))
      | Release.ReplayRejected e => inr e
      end)
    (fun s : (unit + string * Binaries.Layer) + Error => match s with
      | inl (inl _) => Release.BadHead
      | inl (inr p) => Release.ArtifactNotIncluded p.1 p.2
      | inr e => Release.ReplayRejected e
      end).
Defined.

#[global] Instance ReleaseReport_eq_dec : EqDecision Release.ReleaseReport.
Proof. solve_decision. Defined.

#[global] Instance ReleaseReport_countable : Countable Release.ReleaseReport.
Proof.
  by_fields (fun r => ([Release.rr_release_tag r; Release.rr_root_hex r], Release.rr_found r, Release.rr_sth_tree_size r,
      Release.rr_artifacts r, (Release.rr_chain_valid r, Release.rr_violations r)))
    (fun q : list string * bool * N * list Release.ReleaseArtifact * (bool * list Release.ReleaseViolation) =>
       Release.mkReleaseReport (nth 0 q.1.1.1.1 "") q.1.1.1.2 q.1.1.2 (nth 1 q.1.1.1.1 "") q.1.2 q.2.1 q.2.2).
Defined.

(** ** The codec *)

Module WireJson.

#[export] Instance clear_json {A} `{Countable A} : SerdeJson A | 100 := ClearJson.instance.

#[export] Instance clear_json_laws {A} `{Countable A} : SerdeJsonLaws A := ClearJson.laws.

#[export] Instance clear_pretty {A} `{Countable A} : SerdePretty A := {| to_vec_pretty := to_vec |}.

#[export] Instance clear_pretty_laws {A} `{Countable A} : SerdePrettyLaws A.
Proof. constructor; [exact from_slice_to_vec|exact to_vec_total]. Qed.
End WireJson.
