(* ===== verification/Layout.v ===== *)
(** * verifiable-log-serve: the static site

    Models [layout.rs]: the three artifact generators ([generate_artifacts],
    [generate_account_artifacts], [generate_binaries_artifacts]), which render a bundle as
    a map from paths to JSON bytes, and [generate], [generate_account] and
    [generate_binaries], which write such a map under an output root (a map from paths to
    file contents; failing file operations are left out).

    The generators are one text three times, up to the path prefix, the report and the
    manifest; [insert_tree] is the shared part.

    [doc_path_inj] says that no two documents share a path; [holds_tree] reads a generated
    tree back document by document; [published_verdicts_agree] says that a client fetching
    from the site and the verifier on the bundle give the same verdict. *)

From stdpp Require Import base list strings gmap pretty.
From Stdlib Require Import NArith ZArith Lia ZifyNat ZifyN.
From Stdlib Require Import Strings.Byte.
From S2P Require Import Prelude Crypto Merkle Log Tenants Monitor Builder Verifiers Release Text Fetch Wire.

Definition API_VERSION : string := "v1".

Definition ACCOUNT_API_PREFIX : string := "v1/account-keys".

Definition BINARIES_API_PREFIX : string := "v1/binaries".

(** [BTreeMap<String, Vec<u8>>]. *)
Notation Artifacts := (gmap string bytes).

Definition json_failed {A} `{SerdeJson A} (e : JsonError) : ServeError := SeJson (json_error_display e).

Definition insert_json {A} `{SerdePretty A} (m : Artifacts) (rel : string) (value : A) : Result Artifacts ServeError :=
  let? json := map_err json_failed (to_vec_pretty value) in
  Ok (<[rel := json]> m).

(** [for x in l { insert_json(&mut map, path(x), &doc(x))? }]. *)
Fixpoint insert_each {A B} `{SerdePretty B} (path : A -> string) (doc : A -> B) (l : list A) (m : Artifacts)
    : Result Artifacts ServeError :=
  match l with
  | [] => Ok m
  | x :: l' => let? m' := insert_json m (path x) (doc x) in insert_each path doc l' m'
  end.

(** [sort_unstable] and [dedup] on the sizes. *)
Fixpoint dedup (l : list N) : list N :=
  match l with
  | x :: ((y :: _) as l') => if (x =? y)%N then dedup l' else x :: dedup l'
  | _ => l
  end.

Definition sorted_sizes (ss : list Sth) : list N := dedup (sort_by_key Z.of_N (map tree_size ss)).

Definition is_safe_segment (id : string) : bool :=
  negb (bool_decide (id = "")) && negb (bool_decide (id = ".")) && negb (bool_decide (id = "..")) &&
  negb (bool_decide (Byte.x2f ∈ as_bytes id)) && negb (bool_decide (Byte.x5c ∈ as_bytes id)).

(** [collect::<BTreeSet<String>>()]: sorted, without duplicates. *)
Fixpoint btree_insert (x : string) (l : list string) : list string :=
  match l with
  | [] => [x]
  | y :: l' => if text_lt x y then x :: l else if bool_decide (x = y) then l else y :: btree_insert x l'
  end.

Definition btree_set (l : list string) : list string := fold_right btree_insert [] l.

(** The names with a report: the tenant's entries that decode, by [name], kept when safe as
    one path segment. *)
Definition report_names {L J} (tn : string) (dec : bytes -> Result L J) (name : L -> string) (es : list Entry)
    : list string :=
  btree_set (List.filter is_safe_segment
    (omap (fun e => if bool_decide (tenant e = tn) then name <$> ok (dec (data e)) else None) es)).

(** [for id in ids { map.insert(format!("verify/../{id}"), serde_json::to_vec(&report)?) }]. *)
Fixpoint insert_reports {R} `{SerdeJson R} (dir : string) (report : string -> R) (ids : list string) (m : Artifacts)
    : Result Artifacts ServeError :=
  match ids with
  | [] => Ok m
  | id :: ids' =>
      let? json := map_err json_failed (to_vec (report id)) in
      insert_reports dir report ids' (<[fmt [dir; id] := json]> m)
  end.

Section Generate.
Context `{SerdePretty PublicKeyDoc} `{SerdePretty Sth} `{SerdePretty (list Entry)} `{SerdePretty Entry}.
Context `{SerdePretty InclusionProof} `{SerdePretty ConsistencyProof}.

(** The public key, the heads, the entries and the proofs of a bundle under [prefix]. *)
Definition insert_tree (prefix : string) (b : Bundle) (m : Artifacts) : Result Artifacts ServeError :=
  let? m := insert_json m (fmt [prefix; "/public_key.json"]) (mkPublicKeyDoc (public_key b)) in
  let? m := insert_each (fun s => fmt [prefix; "/sth/"; pretty (tree_size s); ".json"]) id (sths b) m in
  let? m := match latest_sth (sths b) with
            | Some s => insert_json m (fmt [prefix; "/sth/latest.json"]) s
            | None => Ok m
            end in
  let? m := insert_json m (fmt [prefix; "/entries.json"]) (bundle_entries b) in
  let? m := insert_each (fun ie : nat * Entry => fmt [prefix; "/entries/"; pretty (N.of_nat ie.1); ".json"]) snd
              (imap pair (bundle_entries b)) m in
  let? m := insert_each (fun c => fmt [prefix; "/proof/inclusion/"; pretty (ip_tree_size (ic_proof c)); "/";
              pretty (leaf_index (ic_proof c)); ".json"]) ic_proof (inclusion b) m in
  insert_each (fun c => fmt [prefix; "/proof/consistency/"; pretty (first_size (cc_proof c)); "-";
    pretty (second_size (cc_proof c)); ".json"]) cc_proof (consistency b) m.

Definition tree_index (b : Bundle) : TreeIndex :=
  mkTreeIndex API_VERSION (public_key b) (N.of_nat (length (bundle_entries b)))
    (tree_size <$> latest_sth (sths b)) (sorted_sizes (sths b))
    (map (fun c => mkInclusionRef (ip_tree_size (ic_proof c)) (leaf_index (ic_proof c))) (inclusion b))
    (map (fun c => mkConsistencyRef (first_size (cc_proof c)) (second_size (cc_proof c))) (consistency b))
    (enforce_unique b).

Context `{Sha256} `{Hex} `{Ed25519}.
Context `{!SerdeJson CommitLog.CommitLeaf, !SerdeJson AccountKey.AccountKeyLeaf, !SerdeJson Binaries.BinaryRecord}.
Context `{SerdePretty Manifest} `{SerdePretty AccountManifest} `{SerdePretty BinaryManifest}.
Context `{!SerdeJson (Group.GroupReport (JsonError (A:=CommitLog.CommitLeaf)))}.
Context `{!SerdeJson (Account.AccountReport (JsonError (A:=AccountKey.AccountKeyLeaf)))}.
Context `{!SerdeJson Release.ReleaseReport}.

Definition generate_artifacts (b : Bundle) : Result (Manifest * Artifacts) ServeError :=
  let? m := insert_tree API_VERSION b ∅ in
  let conversations := report_names CommitLog.TENANT CommitLog.decode CommitLog.conversation_id (bundle_entries b) in
  let? m := insert_reports "verify/group/" (Group.verify_group_in_bundle b) conversations m in
  let manifest := mkManifest (tree_index b) conversations in
  let? m := insert_json m (fmt [API_VERSION; "/index.json"]) manifest in
  Ok (manifest, m).

Definition generate_account_artifacts (b : Bundle) : Result (AccountManifest * Artifacts) ServeError :=
  let? m := insert_tree ACCOUNT_API_PREFIX b ∅ in
  let users := report_names AccountKey.TENANT AccountKey.decode AccountKey.user_id (bundle_entries b) in
  let? m := insert_reports "verify/account/" (Account.verify_account_in_bundle b) users m in
  let manifest := mkAccountManifest (tree_index b) users in
  let? m := insert_json m (fmt [ACCOUNT_API_PREFIX; "/index.json"]) manifest in
  Ok (manifest, m).

Definition generate_binaries_artifacts (b : Bundle) : Result (BinaryManifest * Artifacts) ServeError :=
  let? m := insert_tree BINARIES_API_PREFIX b ∅ in
  let tags := report_names Binaries.TENANT Binaries.decode Binaries.release_tag (bundle_entries b) in
  let? m := insert_reports "verify/release/" (Release.verify_release_in_bundle b) tags m in
  let manifest := mkBinaryManifest (tree_index b) tags in
  let? m := insert_json m (fmt [BINARIES_API_PREFIX; "/index.json"]) manifest in
  Ok (manifest, m).

(** Writing the map out replaces the files of the same name under the root. *)
Definition generate (b : Bundle) (root : Artifacts) : Result (Manifest * Artifacts) ServeError :=
  let? ma := generate_artifacts b in Ok (ma.1, ma.2 ∪ root).

Definition generate_account (b : Bundle) (root : Artifacts) : Result (AccountManifest * Artifacts) ServeError :=
  let? ma := generate_account_artifacts b in Ok (ma.1, ma.2 ∪ root).

Definition generate_binaries (b : Bundle) (root : Artifacts) : Result (BinaryManifest * Artifacts) ServeError :=
  let? ma := generate_binaries_artifacts b in Ok (ma.1, ma.2 ∪ root).

(** [load_bundle] on the text of the file. *)
Definition load_bundle `{!SerdeJson Bundle} (raw : bytes) : Result Bundle ServeError :=
  map_err (fun e => SeBadBundle (json_error_display e)) (from_slice raw).

(** [generate], [generate_account] or [generate_binaries] on a bundle file, with the root as
    the step leaves it: nothing is written before the whole map is there. *)
Definition write_tree {M} `{!SerdeJson Bundle} (gen : Bundle -> Artifacts -> Result (M * Artifacts) ServeError)
    (raw : bytes) (root : Artifacts) : Artifacts * Result unit ServeError :=
  match let? b := load_bundle raw in gen b root with
  | Ok mr => (mr.2, Ok tt)
  | Err e => (root, Err e)
  end.

(** [run_generate] of the command line: the commit log, then the optional trees. *)
Definition run_generate `{!SerdeJson Bundle} (bundle : bytes) (account_bundle binaries_bundle : option bytes)
    (root : Artifacts) : Artifacts * Result unit ServeError :=
  let optional {M} (gen : Bundle -> Artifacts -> Result (M * Artifacts) ServeError) o (r : Artifacts * Result unit ServeError) :=
    match r, o with
    | (root, Ok _), Some raw => write_tree gen raw root
    | _, _ => r
    end in
  optional generate_binaries binaries_bundle (optional generate_account account_bundle (write_tree generate bundle root)).
End Generate.

(** ** No two documents share a path *)

(** The documents of one tree. *)
Inductive Doc : Type :=
| DPublicKey
| DIndex
| DLatest
| DSth (size : N)
| DEntries
| DEntry (i : N)
| DInclusion (size i : N)
| DConsistency (first second : N).

#[global] Instance Doc_eq_dec : EqDecision Doc.
Proof. solve_decision. Defined.

Definition doc_path (prefix : string) (d : Doc) : string :=
  match d with
  | DPublicKey => fmt [prefix; "/public_key.json"]
  | DIndex => fmt [prefix; "/index.json"]
  | DLatest => fmt [prefix; "/sth/latest.json"]
  | DSth n => fmt [prefix; "/sth/"; pretty n; ".json"]
  | DEntries => fmt [prefix; "/entries.json"]
  | DEntry i => fmt [prefix; "/entries/"; pretty i; ".json"]
  | DInclusion n i => fmt [prefix; "/proof/inclusion/"; pretty n; "/"; pretty i; ".json"]
  | DConsistency m n => fmt [prefix; "/proof/consistency/"; pretty m; "-"; pretty n; ".json"]
  end.

Section Paths.

Definition digit (x : byte) : bool := in_range x 0x30 0x39.

Lemma parse_digits_digits acc b n : parse_digits acc b = Some n -> Forall (fun x => digit x = true) b.
Proof.
  revert acc. induction b as [|x b IH]; intros acc; simpl; [constructor|]. fold (digit x).
  destruct (digit x) eqn:E; [|done]. intros Hp. constructor; [done|]. by eapply IH.
Qed.

Lemma pretty_digits (n : N) : Forall (fun x => digit x = true) (as_bytes (pretty n)).
Proof.
  destruct (parse_magnitude_pretty n) as (d & rest & E & _ & Hp). unfold parse_magnitude in Hp. rewrite E in *.
  by eapply parse_digits_digits.
Qed.

(** Digits up to a first byte that is none determine each other. *)
Lemma digits_split a a' c c' x x' : Forall (fun b => digit b = true) a -> Forall (fun b => digit b = true) a' ->
  digit c = false -> digit c' = false -> a ++ c :: x = a' ++ c' :: x' -> a = a' /\ c = c' /\ x = x'.
Proof.
  intros Ha. revert a'. induction Ha as [|b a Hb _ IH]; intros a' Ha' Hc Hc' E.
  - destruct Ha' as [|b' a' Hb' _]; simplify_eq/=; [done|]. congruence.
  - destruct Ha' as [|b' a' Hb' Ha']; simplify_eq/=; [congruence|]. destruct (IH a') as (-> & -> & ->); done.
Qed.

Lemma pretty_split (n n' : N) c c' s s' :
  digit (Ascii.byte_of_ascii c) = false -> digit (Ascii.byte_of_ascii c') = false ->
  pretty n +:+ String c s = pretty n' +:+ String c' s' -> n = n' /\ c = c' /\ s = s'.
Proof.
  intros Hc Hc' E%(f_equal as_bytes). rewrite !as_bytes_append, !as_bytes_cons in E.
  apply digits_split in E as (En%as_bytes_inj & Ec & Es%as_bytes_inj); try done; [|apply pretty_digits..].
  apply (inj pretty) in En. split_and!; [done| |done].
  rewrite <- (Ascii.ascii_of_byte_of_ascii c), Ec. apply Ascii.ascii_of_byte_of_ascii.
Qed.

Lemma pretty_latest (n : N) s : pretty n +:+ s <> "latest.json".
Proof.
  intros E%(f_equal as_bytes). rewrite as_bytes_append in E.
  destruct (parse_magnitude_pretty n) as (d & rest & En & Hd & _). rewrite En in E. simpl in E. injection E as -> _. done.
Qed.

Lemma append_inj_l p s t : p +:+ s = p +:+ t -> s = t.
Proof. induction p as [|c p IH]; simpl; [done|]. intros [= E]. auto. Qed.

Lemma append_nil s : "" +:+ s = s.
Proof. reflexivity. Qed.

Lemma append_cons c s t : String c s +:+ t = String c (s +:+ t).
Proof. reflexivity. Qed.

(** Paths are read back: no two documents of a tree have the same one. *)
Lemma doc_path_inj prefix d d' : doc_path prefix d = doc_path prefix d' -> d = d'.
Proof.
  destruct d, d'; cbn -[pretty]; intros E%append_inj_l; try discriminate E; try reflexivity;
    rewrite ?append_cons, ?append_nil in E; injection E as E;
    repeat match goal with
    | E : pretty _ +:+ _ = pretty _ +:+ _ |- _ =>
        apply pretty_split in E as (-> & _ & E); [rewrite ?append_nil in E|reflexivity..]
    | E : pretty ?n +:+ ?s = _ |- _ => by destruct (pretty_latest n s)
    | E : _ = pretty ?n +:+ ?s |- _ => by destruct (pretty_latest n s)
    end; done.
Qed.
End Paths.

#[local] Arguments fmt : simpl never.
#[local] Arguments doc_path : simpl never.

(** ** Reading a generated tree back *)

(** The last element that satisfies [f], as repeated insertion keeps it. *)
Definition find_last {A} (f : A -> bool) (l : list A) : option A :=
  fold_left (fun acc x => if f x then Some x else acc) l None.

Lemma find_last_snoc {A} (f : A -> bool) l x :
  find_last f (l ++ [x]) = if f x then Some x else find_last f l.
Proof. unfold find_last. by rewrite fold_left_app. Qed.

Lemma find_last_Some {A} (f : A -> bool) l x : find_last f l = Some x -> x ∈ l /\ f x = true.
Proof.
  induction l as [|y l IH] using rev_ind; [done|]. rewrite find_last_snoc. destruct (f y) eqn:Ey.
  - intros [= ->]. split; [set_solver|done].
  - intros [? ?]%IH. split; [set_solver|done].
Qed.

Lemma find_last_elem {A} (f : A -> bool) l x : x ∈ l -> f x = true -> is_Some (find_last f l).
Proof.
  induction l as [|y l IH] using rev_ind; [by intros ?%elem_of_nil|]. rewrite find_last_snoc, elem_of_app, list_elem_of_singleton.
  intros [Hx| ->] Hf; [|by rewrite Hf]. destruct (f y); [done|auto].
Qed.

(** Only one candidate: it is found. *)
Lemma find_last_unique {A} (f : A -> bool) l x : x ∈ l -> f x = true -> (forall y, y ∈ l -> f y = true -> y = x) ->
  find_last f l = Some x.
Proof.
  intros Hx Hf Hu. destruct (find_last_elem f l x Hx Hf) as [y Hy]. rewrite Hy. f_equal.
  apply find_last_Some in Hy as [Hy Hfy]. by apply Hu.
Qed.

Lemma find_last_none {A} (f : A -> bool) l : (forall x, x ∈ l -> f x = false) -> find_last f l = None.
Proof.
  intros Hn. destruct (find_last f l) as [x|] eqn:E; [|done]. apply find_last_Some in E as [Hx Hf]. by rewrite Hn in Hf.
Qed.

Lemma find_last_false {A} (l : list A) : find_last (fun _ => false) l = None.
Proof. by apply find_last_none. Qed.

Lemma find_last_ext {A} (f g : A -> bool) l : (forall x, x ∈ l -> f x = g x) -> find_last f l = find_last g l.
Proof.
  induction l as [|y l IH] using rev_ind; intros Hx; [done|]. rewrite !find_last_snoc, IH, Hx; [done|set_solver..].
Qed.

Lemma find_last_fmap {A B} (f g : A -> bool) (v : A -> B) l : (forall x, f x = g x) ->
  match find_last f l with Some x => Some (v x) | None => None end = v <$> find_last g l.
Proof. intros E. rewrite (find_last_ext f g) by done. by destruct (find_last g l). Qed.

Lemma fold_insert_lookup {A} (path : A -> string) (v : A -> bytes) l (m : Artifacts) p :
  fold_left (fun m x => <[path x := v x]> m) l m !! p =
  match find_last (fun x => bool_decide (path x = p)) l with Some x => Some (v x) | None => m !! p end.
Proof.
  induction l as [|x l IH] using rev_ind; [done|]. rewrite fold_left_app, find_last_snoc. simpl.
  case_bool_decide as E; [by rewrite E, lookup_insert_eq|]. by rewrite lookup_insert_ne.
Qed.

Definition json_of {A} `{SerdePretty A} (a : A) : bytes := match to_vec_pretty a with Ok b => b | Err _ => [] end.

Definition compact_of {A} `{SerdeJson A} (a : A) : bytes := match to_vec a with Ok b => b | Err _ => [] end.

Section Insertion.
Context {B : Type} `{SerdePretty B, !SerdePrettyLaws B}.

Lemma from_slice_json_of (b : B) : from_slice (json_of b) = Ok b.
Proof. unfold json_of. destruct (to_vec_pretty_total b) as [j E]. rewrite E. by apply from_slice_pretty. Qed.

Lemma insert_json_ok m rel (v : B) : insert_json m rel v = Ok (<[rel := json_of v]> m).
Proof. unfold insert_json, json_of. destruct (to_vec_pretty_total v) as [j ->]. done. Qed.

Lemma insert_each_ok {A} (path : A -> string) (doc : A -> B) l m :
  insert_each path doc l m = Ok (fold_left (fun m x => <[path x := json_of (doc x)]> m) l m).
Proof. revert m. induction l as [|x l IH]; intros m; simpl; [done|]. rewrite insert_json_ok. simpl. apply IH. Qed.
End Insertion.

Lemma insert_reports_ok {R} `{SerdeJson R, !SerdeJsonLaws R} dir (report : string -> R) ids m :
  insert_reports dir report ids m = Ok (fold_left (fun m id => <[fmt [dir; id] := compact_of (report id)]> m) ids m).
Proof.
  revert m. induction ids as [|i ids IH]; intros m; simpl; [done|].
  assert (to_vec (report i) = Ok (compact_of (report i))) as ->; [|simpl; apply IH].
  unfold compact_of. by destruct (to_vec_total (report i)) as [j ->].
Qed.

Section Published.
Context `{SerdePretty PublicKeyDoc, !SerdePrettyLaws PublicKeyDoc} `{SerdePretty Sth, !SerdePrettyLaws Sth}.
Context `{SerdePretty (list Entry), !SerdePrettyLaws (list Entry)} `{SerdePretty Entry, !SerdePrettyLaws Entry}.
Context `{SerdePretty InclusionProof, !SerdePrettyLaws InclusionProof}.
Context `{SerdePretty ConsistencyProof, !SerdePrettyLaws ConsistencyProof}.

(** What a bundle's tree holds at each document (the index apart). *)
Definition tree_doc (b : Bundle) (d : Doc) : option bytes :=
  match d with
  | DPublicKey => Some (json_of (mkPublicKeyDoc (public_key b)))
  | DIndex => None
  | DLatest => json_of <$> latest_sth (sths b)
  | DSth n => json_of <$> find_last (fun s => bool_decide (tree_size s = n)) (sths b)
  | DEntries => Some (json_of (bundle_entries b))
  | DEntry i => json_of <$> bundle_entries b !! N.to_nat i
  | DInclusion n i => (fun c => json_of (ic_proof c)) <$>
      find_last (fun c => bool_decide (ip_tree_size (ic_proof c) = n /\ leaf_index (ic_proof c) = i)) (inclusion b)
  | DConsistency m n => (fun c => json_of (cc_proof c)) <$>
      find_last (fun c => bool_decide (first_size (cc_proof c) = m /\ second_size (cc_proof c) = n)) (consistency b)
  end.

(** Inserting documents of one kind, one after the other. *)
Definition put {A} (prefix : string) (doc : A -> Doc) (v : A -> bytes) (l : list A) (m : Artifacts) : Artifacts :=
  fold_left (fun m x => <[doc_path prefix (doc x) := v x]> m) l m.

Lemma put_lookup {A} (prefix : string) (doc : A -> Doc) (v : A -> bytes) l (m : Artifacts) (d : Doc) :
  put prefix doc v l m !! doc_path prefix d =
  match find_last (fun x => bool_decide (doc x = d)) l with Some x => Some (v x) | None => m !! doc_path prefix d end.
Proof.
  unfold put. rewrite fold_insert_lookup. erewrite find_last_ext; [done|]. intros x _. simpl.
  apply bool_decide_ext. split; [apply doc_path_inj|congruence].
Qed.

Lemma put_other {A} (prefix : string) (doc : A -> Doc) (v : A -> bytes) l (m : Artifacts) p :
  (forall d, p <> doc_path prefix d) -> put prefix doc v l m !! p = m !! p.
Proof.
  intros Hp. unfold put. rewrite fold_insert_lookup. destruct (find_last _ l) as [x|] eqn:E; [|done].
  apply find_last_Some in E as [_ E]. breflect. by destruct (Hp (doc x)).
Qed.

Definition tree_map (prefix : string) (b : Bundle) : Artifacts :=
  put prefix (fun c => DConsistency (first_size (cc_proof c)) (second_size (cc_proof c))) (fun c => json_of (cc_proof c)) (consistency b) $
  put prefix (fun c => DInclusion (ip_tree_size (ic_proof c)) (leaf_index (ic_proof c))) (fun c => json_of (ic_proof c)) (inclusion b) $
  put prefix (fun ie : nat * Entry => DEntry (N.of_nat ie.1)) (fun ie => json_of ie.2) (imap pair (bundle_entries b)) $
  put prefix (fun _ => DEntries) json_of [bundle_entries b] $
  put prefix (fun _ => DLatest) json_of (option_list (latest_sth (sths b))) $
  put prefix (fun s => DSth (tree_size s)) json_of (sths b) $
  put prefix (fun _ => DPublicKey) json_of [mkPublicKeyDoc (public_key b)] ∅.

Lemma find_last_index {A} (l : list A) (i : N) :
  find_last (fun ia : nat * A => bool_decide (N.of_nat ia.1 = i)) (imap pair l) = (pair (N.to_nat i)) <$> l !! N.to_nat i.
Proof.
  destruct (l !! N.to_nat i) as [a|] eqn:E; simpl.
  - apply find_last_unique.
    + apply elem_of_lookup_imap. eauto.
    + apply bool_decide_eq_true. simpl. lia.
    + intros [j a'] (j' & a'' & [= -> ->] & Hj)%elem_of_lookup_imap Hi. simpl in Hi. breflect. subst i.
      rewrite Nat2N.id in *. congruence.
  - destruct (find_last _ _) as [[j a]|] eqn:Ef; [|done]. apply find_last_Some in Ef as [(j' & a' & [= -> ->] & Hj)%elem_of_lookup_imap Hi].
    simpl in Hi. breflect. subst i. rewrite Nat2N.id in E. congruence.
Qed.

(** [insert_tree] never fails, and each document reads as [tree_doc] says. *)
Lemma insert_tree_ok prefix b : insert_tree prefix b ∅ = Ok (tree_map prefix b).
Proof.
  unfold insert_tree, tree_map. rewrite insert_json_ok. cbn [rbind]. rewrite insert_each_ok. cbn [rbind].
  destruct (latest_sth (sths b)); [rewrite insert_json_ok|]; cbn [rbind]; rewrite insert_json_ok; cbn [rbind];
    rewrite insert_each_ok; cbn [rbind]; rewrite insert_each_ok; cbn [rbind]; rewrite insert_each_ok; reflexivity.
Qed.

Lemma tree_map_lookup prefix b d : tree_map prefix b !! doc_path prefix d = tree_doc b d.
Proof.
  unfold tree_map. rewrite !put_lookup, lookup_empty.
  destruct d; cbn [tree_doc]; rewrite ?(find_last_none (fun _ => bool_decide (_ = _))) by (intros; by apply bool_decide_eq_false);
    simpl; rewrite ?find_last_false; try done.
  - by destruct (latest_sth (sths b)).
  - apply find_last_fmap. intros s. apply bool_decide_ext. naive_solver.
  - rewrite (find_last_ext _ (fun ia : nat * Entry => bool_decide (N.of_nat ia.1 = i))), find_last_index;
      [by destruct (bundle_entries b !! N.to_nat i)|]. intros x _. apply bool_decide_ext. naive_solver.
  - apply find_last_fmap. intros c. apply bool_decide_ext. naive_solver.
  - apply find_last_fmap. intros c. apply bool_decide_ext. naive_solver.
Qed.

Lemma tree_map_other prefix b p : (forall d, p <> doc_path prefix d) -> tree_map prefix b !! p = None.
Proof. intros Hp. unfold tree_map. by rewrite !put_other. Qed.
End Published.

(** ** The generated trees *)

(** [m] holds the tree of [b] under [prefix], with this index. *)
Definition holds_tree `{SerdePretty PublicKeyDoc} `{SerdePretty Sth} `{SerdePretty (list Entry)} `{SerdePretty Entry}
    `{SerdePretty InclusionProof} `{SerdePretty ConsistencyProof}
    (prefix : string) (b : Bundle) (index : bytes) (m : Artifacts) : Prop :=
  forall d, m !! doc_path prefix d = match d with DIndex => Some index | _ => tree_doc b d end.

Section Trees.
Context `{SerdePretty PublicKeyDoc, !SerdePrettyLaws PublicKeyDoc} `{SerdePretty Sth, !SerdePrettyLaws Sth}.
Context `{SerdePretty (list Entry), !SerdePrettyLaws (list Entry)} `{SerdePretty Entry, !SerdePrettyLaws Entry}.
Context `{SerdePretty InclusionProof, !SerdePrettyLaws InclusionProof}.
Context `{SerdePretty ConsistencyProof, !SerdePrettyLaws ConsistencyProof}.

Lemma doc_path_step prefix d : exists rest, doc_path prefix d = prefix +:+ rest.
Proof. destruct d; unfold doc_path, fmt; cbn -[pretty]; eauto. Qed.

(** Reports live outside the trees. *)
Lemma report_path_ne dir prefix rest i d : dir = "ve" +:+ rest -> (exists p, prefix = "v1" +:+ p) ->
  fmt [dir; i] <> doc_path prefix d.
Proof.
  intros -> [p ->]. destruct (doc_path_step ("v1" +:+ p) d) as [r ->]. simpl.
  rewrite !append_cons. discriminate.
Qed.

Definition with_reports {R} `{SerdeJson R} (dir : string) (report : string -> R) (ids : list string) (m : Artifacts) : Artifacts :=
  fold_left (fun m i => <[fmt [dir; i] := compact_of (report i)]> m) ids m.

Lemma with_reports_doc {R} `{SerdeJson R} dir (report : string -> R) ids (m : Artifacts) p :
  (forall i, fmt [dir; i] <> p) -> with_reports dir report ids m !! p = m !! p.
Proof.
  intros Hp. unfold with_reports. rewrite fold_insert_lookup. destruct (find_last _ ids) as [i|] eqn:E; [|done].
  apply find_last_Some in E as [_ E]. breflect. by destruct (Hp i).
Qed.

Lemma with_reports_report {R} `{SerdeJson R} dir (report : string -> R) ids (m : Artifacts) i : i ∈ ids ->
  with_reports dir report ids m !! fmt [dir; i] = Some (compact_of (report i)).
Proof.
  intros Hi. unfold with_reports. rewrite fold_insert_lookup.
  destruct (find_last_elem (fun x => bool_decide (fmt [dir; x] = fmt [dir; i])) ids i) as [x E]; [done|by apply bool_decide_eq_true|].
  rewrite E. apply find_last_Some in E as [_ E]. breflect. apply append_inj_l in E. change (x = i) in E. by subst.
Qed.

(** A generator's map: the tree, the reports, and last the index. *)
Definition tree_with {R} `{SerdeJson R} prefix b dir (report : string -> R) ids (index : bytes) : Artifacts :=
  <[doc_path prefix DIndex := index]> (with_reports dir report ids (tree_map prefix b)).

Lemma tree_with_holds {R} `{SerdeJson R} prefix b dir (report : string -> R) ids index :
  (forall i d, fmt [dir; i] <> doc_path prefix d) ->
  holds_tree prefix b index (tree_with prefix b dir report ids index) /\
  (forall i, i ∈ ids -> tree_with prefix b dir report ids index !! fmt [dir; i] = Some (compact_of (report i))) /\
  (forall p, (forall d, p <> doc_path prefix d) -> (forall i, p <> fmt [dir; i]) ->
     tree_with prefix b dir report ids index !! p = None).
Proof.
  intros Hne. unfold tree_with. split_and!.
  - intros d. destruct (decide (d = DIndex)) as [->|Hd]; [by rewrite lookup_insert_eq|].
    rewrite lookup_insert_ne by (intros E%doc_path_inj; congruence).
    rewrite with_reports_doc by (intros i; apply Hne). rewrite tree_map_lookup. by destruct d.
  - intros i Hi. rewrite lookup_insert_ne by (intros E; by destruct (Hne i DIndex)). by apply with_reports_report.
  - intros p Hd Hi. rewrite lookup_insert_ne by (intros E; by destruct (Hd DIndex)).
    rewrite with_reports_doc by (intros i E; by destruct (Hi i)). by apply tree_map_other.
Qed.
End Trees.

(** ** A client of the site and the verifier on the bundle agree *)

Section StaticSite.
Context (host : Host) (base : string) (files : Artifacts).

(** The host answers every document path of the three trees from [files]. *)
Definition serves : Prop := forall t agent prefix d,
  prefix ∈ [API_VERSION; ACCOUNT_API_PREFIX; BINARIES_API_PREFIX] ->
  match files !! doc_path prefix d with
  | Some body => host t agent (fmt [base; "/"; doc_path prefix d]) = Page body
  | None => exists msg, host t agent (fmt [base; "/"; doc_path prefix d]) = ErrorStatus 404 msg
  end.

Lemma append_assoc r s t : (r +:+ s) +:+ t = r +:+ s +:+ t.
Proof. induction r as [|c r IH]; [done|]. rewrite !append_cons. by rewrite IH. Qed.

Lemma doc_url prefix d : doc_path (fmt [base; "/"; prefix]) d = fmt [base; "/"; doc_path prefix d].
Proof. destruct d; unfold doc_path, fmt; cbn -[pretty]; by rewrite !append_assoc. Qed.

Context (Hserves : serves).

Lemma fetch_served A `{SerdePretty A, !SerdePrettyLaws A} agent prefix d t (a : A) :
  prefix ∈ [API_VERSION; ACCOUNT_API_PREFIX; BINARIES_API_PREFIX] ->
  files !! doc_path prefix d = Some (json_of a) ->
  (fetch_json host A agent (doc_path (fmt [base; "/"; prefix]) d) t).2 = Ok a.
Proof.
  intros Hp Hf. specialize (Hserves t agent prefix d Hp). rewrite Hf in Hserves.
  unfold fetch_json, fbind, fret, parse_page. simpl. rewrite doc_url, Hserves. by rewrite from_slice_json_of.
Qed.

Lemma fetch_missing A `{!SerdeJson A} agent prefix d t :
  prefix ∈ [API_VERSION; ACCOUNT_API_PREFIX; BINARIES_API_PREFIX] ->
  files !! doc_path prefix d = None ->
  exists e, (fetch_json host A agent (doc_path (fmt [base; "/"; prefix]) d) t).2 = Err e.
Proof.
  intros Hp Hf. specialize (Hserves t agent prefix d Hp). rewrite Hf in Hserves. destruct Hserves as [msg Hm].
  unfold fetch_json, fbind, fret. simpl. rewrite doc_url, Hm. eauto.
Qed.

Context `{SerdePretty PublicKeyDoc, !SerdePrettyLaws PublicKeyDoc} `{SerdePretty Sth, !SerdePrettyLaws Sth}.
Context `{SerdePretty (list Entry), !SerdePrettyLaws (list Entry)} `{SerdePretty Entry, !SerdePrettyLaws Entry}.
Context `{SerdePretty InclusionProof, !SerdePrettyLaws InclusionProof}.
Context `{SerdePretty ConsistencyProof, !SerdePrettyLaws ConsistencyProof}.

(** The bundle's last proof for a head and a leaf. *)
Definition proof_at (b : Bundle) (size i : N) : option InclusionProof :=
  ic_proof <$> find_last (fun c => bool_decide (ip_tree_size (ic_proof c) = size /\ leaf_index (ic_proof c) = i)) (inclusion b).

(** What the proof loop collects. *)
Definition collected (b : Bundle) (s : Sth) (ixs : list nat) : list InclusionCheck :=
  omap (fun i => match proof_at b (tree_size s) (N.of_nat i), bundle_entries b !! i with
                 | Some p, Some e => Some (mkInclusionCheck e p 0)
                 | _, _ => None
                 end) ixs.

Section Tree.
Context (prefix : string) (b : Bundle) (index : bytes) (s : Sth) (agent : Agent).
Context (Hprefix : prefix ∈ [API_VERSION; ACCOUNT_API_PREFIX; BINARIES_API_PREFIX]).
Context (Hholds : holds_tree prefix b index files) (Hlatest : latest_sth (sths b) = Some s).

Lemma fetch_proof_value i acc t :
  (fetch_proof host agent (fmt [base; "/"; prefix]) s (bundle_entries b) i acc t).2 = acc ++ collected b s [i].
Proof.
  unfold fetch_proof, collected, proof_at. cbn [fbind omap list_omap].
  change (fmt [fmt [base; "/"; prefix]; "/proof/inclusion/"; pretty (tree_size s); "/"; pretty (N.of_nat i); ".json"])
    with (doc_path (fmt [base; "/"; prefix]) (DInclusion (tree_size s) (N.of_nat i))).
  pose proof (Hholds (DInclusion (tree_size s) (N.of_nat i))) as Hd. cbn [tree_doc] in Hd. unfold fbind, fret. cbn [fst snd].
  destruct (find_last _ (inclusion b)) as [c|] eqn:Ec; cbn [fmap option_fmap option_map] in *.
  - rewrite (fetch_served InclusionProof agent prefix _ t (ic_proof c)) by done.
    destruct (bundle_entries b !! i); [done|by rewrite app_nil_r].
  - destruct (fetch_missing InclusionProof agent prefix (DInclusion (tree_size s) (N.of_nat i)) t) as [e ->]; [done..|].
    by rewrite app_nil_r.
Qed.

Lemma fetch_proofs_value ixs acc t :
  (for_each (fetch_proof host agent (fmt [base; "/"; prefix]) s (bundle_entries b)) ixs acc t).2 = acc ++ collected b s ixs.
Proof.
  revert acc t. induction ixs as [|i ixs IH]; intros acc t; cbn [for_each]; [by rewrite app_nil_r|].
  unfold fbind. rewrite fetch_proof_value, IH, <- app_assoc. f_equal. unfold collected. simpl.
  destruct (proof_at _ _ _), (bundle_entries b !! i); done.
Qed.

Lemma fetch_tree_value tn wanted t :
  (fetch_tree host agent (fmt [base; "/"; prefix]) tn wanted t).2 =
  Ok (mkBundle (public_key b) [s] (bundle_entries b) [tn] (collected b s (wanted_indices wanted (bundle_entries b))) []).
Proof.
  unfold fetch_tree, ftry. cbn [fbind]. unfold fbind, fret.
  change (fmt [?p; "/public_key.json"]) with (doc_path p DPublicKey).
  change (fmt [?p; "/sth/latest.json"]) with (doc_path p DLatest).
  change (fmt [?p; "/entries.json"]) with (doc_path p DEntries).
  rewrite (fetch_served PublicKeyDoc agent prefix _ t (mkPublicKeyDoc (public_key b))) by (done || by rewrite Hholds).
  rewrite (fetch_served Sth agent prefix _ _ s) by (done || by rewrite Hholds; simpl; rewrite Hlatest).
  rewrite (fetch_served (list Entry) agent prefix _ _ (bundle_entries b)) by (done || by rewrite Hholds).
  by rewrite fetch_proofs_value.
Qed.
End Tree.
End StaticSite.

(** The paths of the three trees and of their reports. *)
Inductive Place : Type := Commit | Accounts | Binary.

Definition tree_prefix (k : Place) : string :=
  match k with Commit => API_VERSION | Accounts => ACCOUNT_API_PREFIX | Binary => BINARIES_API_PREFIX end.

Definition report_dir (k : Place) : string :=
  match k with Commit => "verify/group/" | Accounts => "verify/account/" | Binary => "verify/release/" end.

Lemma tree_prefix_known k : tree_prefix k ∈ [API_VERSION; ACCOUNT_API_PREFIX; BINARIES_API_PREFIX].
Proof. destruct k; set_solver. Qed.

Lemma trees_disjoint k k' d d' : k <> k' -> doc_path (tree_prefix k) d <> doc_path (tree_prefix k') d'.
Proof. destruct k, k'; try done; intros _; destruct d, d'; unfold doc_path, fmt; cbn -[pretty]; rewrite ?append_cons; discriminate. Qed.

Lemma latest_sth_some ss : ss <> [] -> exists s, latest_sth ss = Some s.
Proof.
  destruct ss as [|s ss _] using rev_ind; [done|]. intros _. rewrite latest_sth_snoc.
  destruct (latest_sth ss) as [m|]; [destruct (_ <=? _)%N|]; eauto.
Qed.

Section SameVerdict.
Context `{Sha256} `{Hex} `{Ed25519}.

Lemma inclusion_by_index_find s cs i : inclusion_by_index (Some s) cs !! i =
  ic_proof <$> find_last (fun c => bool_decide (ip_tree_size (ic_proof c) = tree_size s /\
    leaf_index (ic_proof c) = N.of_nat i)) cs.
Proof.
  unfold inclusion_by_index. induction cs as [|c cs IH] using rev_ind; [done|].
  rewrite fold_left_app, find_last_snoc. simpl. destruct (N.eqb_spec (ip_tree_size (ic_proof c)) (tree_size s)) as [Es|Es].
  - destruct (decide (N.to_nat (leaf_index (ic_proof c)) = i)) as [<-|Hi].
    + rewrite lookup_insert_eq, bool_decide_eq_true_2; [done|]. split; [done|lia].
    + rewrite lookup_insert_ne, bool_decide_eq_false_2 by (done || lia). done.
  - by rewrite bool_decide_eq_false_2 by tauto.
Qed.

Lemma collected_find b s ixs i e : i ∈ ixs -> bundle_entries b !! i = Some e ->
  ic_proof <$> find_last (fun c => bool_decide (ip_tree_size (ic_proof c) = tree_size s /\
    leaf_index (ic_proof c) = N.of_nat i)) (collected b s ixs) = proof_at b (tree_size s) (N.of_nat i).
Proof.
  intros Hi He.
  assert (forall c, c ∈ collected b s ixs -> leaf_index (ic_proof c) = N.of_nat i ->
    proof_at b (tree_size s) (N.of_nat i) = Some (ic_proof c) /\ c = mkInclusionCheck e (ic_proof c) 0) as Hall.
  { intros c (j & Hj & Ec)%list_elem_of_omap Hl. destruct (proof_at _ _ (N.of_nat j)) as [p|] eqn:Ep; [|done].
    destruct (bundle_entries b !! j) as [e'|] eqn:Ee; simplify_eq/=. unfold proof_at in Ep.
    apply fmap_Some in Ep as Ep'. destruct Ep' as (c & Ef & ->). apply find_last_Some in Ef as [_ Ef]. breflect.
    destruct Ef as [_ Ef]. assert (j = i) as -> by lia. split; [exact Ep|]. congruence. }
  destruct (proof_at b (tree_size s) (N.of_nat i)) as [p|] eqn:Ep.
  - rewrite (find_last_unique _ _ (mkInclusionCheck e p 0)); [done|..].
    + apply list_elem_of_omap. exists i. split; [done|]. by rewrite Ep, He.
    + unfold proof_at in Ep. apply fmap_Some in Ep as (c & Ef & ->). by apply find_last_Some in Ef as [_ Ef].
    + intros c Hc Hf. breflect. destruct Hf as [_ Hf]. destruct (Hall c Hc Hf) as [E ->]. simpl. congruence.
  - rewrite find_last_none; [done|]. intros c Hc. apply bool_decide_eq_false. intros [_ Hl].
    by destruct (Hall c Hc Hl).
Qed.

(** The bundle a client puts together from the site of [b]. *)
Definition as_fetched (b : Bundle) (s : Sth) (tn : string) (wanted : Entry -> bool) : Bundle :=
  mkBundle (public_key b) [s] (bundle_entries b) [tn] (collected b s (wanted_indices wanted (bundle_entries b))) [].

Lemma wanted_indices_elem wanted es i : i ∈ wanted_indices wanted es <->
  exists e, es !! i = Some e /\ wanted e = true.
Proof.
  unfold wanted_indices. rewrite list_elem_of_omap. split.
  - intros ([j e] & (j' & e' & [= -> ->] & Hj)%elem_of_lookup_imap & E). simpl in E.
    destruct (wanted e') eqn:Ew; simplify_eq. eauto.
  - intros (e & He & Hw). exists (i, e). split; [|simpl; by rewrite Hw]. apply elem_of_lookup_imap. eauto.
Qed.

Section Fetched.
Context (b : Bundle) (s : Sth) (tn : string) (wanted : Entry -> bool) (Hlatest : latest_sth (sths b) = Some s).

Lemma fetched_anchor ctx : trust_anchor ctx (as_fetched b s tn wanted) = trust_anchor ctx b.
Proof. unfold trust_anchor. rewrite Hlatest. reflexivity. Qed.

Lemma fetched_included i e : bundle_entries b !! i = Some e -> wanted e = true ->
  entry_included (as_fetched b s tn wanted) i = entry_included b i.
Proof.
  intros He Hw. unfold entry_included. rewrite Hlatest. cbn [sths as_fetched inclusion bundle_entries].
  change (latest_sth [s]) with (Some s). rewrite !inclusion_by_index_find.
  rewrite (collected_find b s _ i e); [done| |done]. apply wanted_indices_elem. eauto.
Qed.
End Fetched.

Lemma include_all_ext {L J} (sq : L -> Z) (version : L -> N) b b' sel :
  (forall il, il ∈ sel -> entry_included b il.1 = entry_included b' il.1) ->
  include_all sq version b sel (J:=J) = include_all sq version b' sel.
Proof.
  induction sel as [|il sel IH]; intros Hs; [done|]. cbn [include_all].
  rewrite IH by (intros; apply Hs; set_solver). by rewrite (Hs il) by set_solver.
Qed.

Lemma include_artifacts_ext b b' sel :
  (forall ir, ir ∈ sel -> entry_included b ir.1 = entry_included b' ir.1) ->
  Release.include_artifacts b sel = Release.include_artifacts b' sel.
Proof.
  induction sel as [|ir sel IH]; intros Hs; [done|]. cbn [Release.include_artifacts].
  rewrite IH by (intros; apply Hs; set_solver). unfold Release.artifact_of. by rewrite (Hs ir) by set_solver.
Qed.

(** Entries of the tenant that decode to a leaf of interest have their proof fetched. *)
Lemma leaf_wanted {L J} tn (dec : bytes -> Result L J) (mine : L -> bool) b s i e l :
  latest_sth (sths b) = Some s -> bundle_entries b !! i = Some e -> tenant e = tn -> dec (data e) = Ok l -> mine l = true ->
  entry_included (as_fetched b s tn (wanted_leaf tn dec mine)) i = entry_included b i.
Proof.
  intros Hl He Ht Hd Hm. apply (fetched_included b s _ _ Hl i e He). unfold wanted_leaf.
  by rewrite bool_decide_eq_true_2, Hd, Hm.
Qed.

Context `{!SerdeJson CommitLog.CommitLeaf, !SerdeJson AccountKey.AccountKeyLeaf, !SerdeJson Binaries.BinaryRecord}.

Lemma group_same b s conv : latest_sth (sths b) = Some s ->
  Group.verify_group_in_bundle (as_fetched b s CommitLog.TENANT (wanted_leaf CommitLog.TENANT CommitLog.decode
    (fun leaf => bool_decide (CommitLog.conversation_id leaf = conv)))) conv = Group.verify_group_in_bundle b conv.
Proof.
  intros Hl. unfold Group.verify_group_in_bundle. rewrite fetched_anchor by done.
  set (b' := as_fetched b s _ _). change (Group.selected b' conv) with (Group.selected b conv).
  assert (forall il, il ∈ Group.selected b conv -> entry_included b' il.1 = entry_included b il.1) as Hs.
  { intros [i l] (e & He & Ht & Hd & Hm)%select_leaves_elem. by eapply leaf_wanted. }
  rewrite (include_all_ext _ _ b' b) by done. destruct (trust_anchor STH_DOMAIN b) as [[size root] okv].
  assert (map (Group.commit_of b') (Group.selected b conv) = map (Group.commit_of b) (Group.selected b conv)) as ->; [|done].
  apply map_ext_in. intros il Hin%list_elem_of_In. unfold Group.commit_of. by rewrite Hs.
Qed.

Lemma account_same b s user : latest_sth (sths b) = Some s ->
  Account.verify_account_in_bundle (as_fetched b s AccountKey.TENANT (wanted_leaf AccountKey.TENANT AccountKey.decode
    (fun leaf => bool_decide (AccountKey.user_id leaf = user)))) user = Account.verify_account_in_bundle b user.
Proof.
  intros Hl. unfold Account.verify_account_in_bundle. rewrite fetched_anchor by done.
  set (b' := as_fetched b s _ _). change (Account.selected b' user) with (Account.selected b user).
  assert (forall il, il ∈ Account.selected b user -> entry_included b' il.1 = entry_included b il.1) as Hs.
  { intros [i l] (e & He & Ht & Hd & Hm)%select_leaves_elem. by eapply leaf_wanted. }
  rewrite (include_all_ext _ _ b' b) by done. destruct (trust_anchor AccountKey.STH_CONTEXT b) as [[size root] okv].
  assert (map (Account.key_of b') (Account.selected b user) = map (Account.key_of b) (Account.selected b user)) as ->; [|done].
  apply map_ext_in. intros il Hin%list_elem_of_In. unfold Account.key_of. by rewrite Hs.
Qed.

Lemma release_same b s tag : latest_sth (sths b) = Some s ->
  Release.verify_release_in_bundle (as_fetched b s Binaries.TENANT (wanted_leaf Binaries.TENANT Binaries.decode
    (fun r => bool_decide (Binaries.release_tag r = tag)))) tag = Release.verify_release_in_bundle b tag.
Proof.
  intros Hl. unfold Release.verify_release_in_bundle. rewrite fetched_anchor by done.
  set (b' := as_fetched b s _ _). change (Release.selected b' tag) with (Release.selected b tag).
  rewrite (include_artifacts_ext b' b); [done|].
  intros [i r] (e & He & Ht & Hd & Hm)%release_selected_elem. eapply leaf_wanted; [done..|]. by apply bool_decide_eq_true.
Qed.

(** A served tree, fetched and judged, gives the verdict of the bundle. *)
Section Served.
Context `{SerdePretty PublicKeyDoc, !SerdePrettyLaws PublicKeyDoc} `{SerdePretty Sth, !SerdePrettyLaws Sth}.
Context `{SerdePretty (list Entry), !SerdePrettyLaws (list Entry)} `{SerdePretty Entry, !SerdePrettyLaws Entry}.
Context `{SerdePretty InclusionProof, !SerdePrettyLaws InclusionProof}.
Context `{SerdePretty ConsistencyProof, !SerdePrettyLaws ConsistencyProof}.
Context (host : Host) (proxy_new : string -> Result unit string) (base_url : string) (proxy : option string) (agent : Agent).
Context (files : Artifacts) (Hs : serves host (trim_end_slashes base_url) files) (Ha : build_agent proxy_new proxy = Ok agent).

Lemma group_via_served b m conv t : holds_tree API_VERSION b m files -> sths b <> [] ->
  (verify_group_via host proxy_new base_url conv proxy t).2 = Ok (Group.verify_group_in_bundle b conv).
Proof.
  intros Hh Hn. destruct (latest_sth_some _ Hn) as [s Hl]. unfold verify_group_via. rewrite Ha.
  unfold ftry at 1; unfold fbind at 1, fret at 1; cbn [fst snd]; unfold ftry, fbind; cbn [fst snd].
  rewrite (fetch_tree_value _ _ _ Hs API_VERSION b _ s agent (tree_prefix_known Commit) Hh Hl).
  cbn [fret snd]. f_equal. by apply group_same.
Qed.

Lemma account_via_served b m user t : holds_tree ACCOUNT_API_PREFIX b m files -> sths b <> [] ->
  (verify_account_via host proxy_new base_url user proxy t).2 = Ok (Account.verify_account_in_bundle b user).
Proof.
  intros Hh Hn. destruct (latest_sth_some _ Hn) as [s Hl]. unfold verify_account_via. rewrite Ha.
  unfold ftry at 1; unfold fbind at 1, fret at 1; cbn [fst snd]; unfold ftry, fbind; cbn [fst snd].
  rewrite (fetch_tree_value _ _ _ Hs ACCOUNT_API_PREFIX b _ s agent (tree_prefix_known Accounts) Hh Hl).
  cbn [fret snd]. f_equal. by apply account_same.
Qed.

Lemma release_via_served b m tag t : holds_tree BINARIES_API_PREFIX b m files -> sths b <> [] ->
  (verify_release_via host proxy_new base_url tag proxy t).2 = Ok (Release.verify_release_in_bundle b tag).
Proof.
  intros Hh Hn. destruct (latest_sth_some _ Hn) as [s Hl]. unfold verify_release_via. rewrite Ha.
  unfold ftry at 1; unfold fbind at 1, fret at 1; cbn [fst snd]; unfold ftry, fbind; cbn [fst snd].
  rewrite (fetch_tree_value _ _ _ Hs BINARIES_API_PREFIX b _ s agent (tree_prefix_known Binary) Hh Hl).
  cbn [fret snd]. f_equal. by apply release_same.
Qed.
End Served.
End SameVerdict.

(** ** The published site *)

Section Site.
Context `{SerdePretty PublicKeyDoc, !SerdePrettyLaws PublicKeyDoc} `{SerdePretty Sth, !SerdePrettyLaws Sth}.
Context `{SerdePretty (list Entry), !SerdePrettyLaws (list Entry)} `{SerdePretty Entry, !SerdePrettyLaws Entry}.
Context `{SerdePretty InclusionProof, !SerdePrettyLaws InclusionProof}.
Context `{SerdePretty ConsistencyProof, !SerdePrettyLaws ConsistencyProof}.
Context `{Sha256} `{Hex} `{Ed25519}.
Context `{!SerdeJson CommitLog.CommitLeaf, !SerdeJson AccountKey.AccountKeyLeaf, !SerdeJson Binaries.BinaryRecord}.
Context `{SerdePretty Manifest, !SerdePrettyLaws Manifest} `{SerdePretty AccountManifest, !SerdePrettyLaws AccountManifest}.
Context `{SerdePretty BinaryManifest, !SerdePrettyLaws BinaryManifest}.
Context `{J1 : !SerdeJson (Group.GroupReport (JsonError (A:=CommitLog.CommitLeaf))), !SerdeJsonLaws (Group.GroupReport (JsonError (A:=CommitLog.CommitLeaf)))}.
Context `{J2 : !SerdeJson (Account.AccountReport (JsonError (A:=AccountKey.AccountKeyLeaf))), !SerdeJsonLaws (Account.AccountReport (JsonError (A:=AccountKey.AccountKeyLeaf)))}.
Context `{J3 : !SerdeJson Release.ReleaseReport, !SerdeJsonLaws Release.ReleaseReport}.

Definition conversations_of (b : Bundle) : list string :=
  report_names CommitLog.TENANT CommitLog.decode CommitLog.conversation_id (bundle_entries b).

Definition users_of (b : Bundle) : list string :=
  report_names AccountKey.TENANT AccountKey.decode AccountKey.user_id (bundle_entries b).

Definition tags_of (b : Bundle) : list string :=
  report_names Binaries.TENANT Binaries.decode Binaries.release_tag (bundle_entries b).

Definition commit_site (b : Bundle) : Artifacts :=
  tree_with API_VERSION b "verify/group/" (Group.verify_group_in_bundle b) (conversations_of b)
    (json_of (mkManifest (tree_index b) (conversations_of b))).

Definition account_site (b : Bundle) : Artifacts :=
  tree_with ACCOUNT_API_PREFIX b "verify/account/" (Account.verify_account_in_bundle b) (users_of b)
    (json_of (mkAccountManifest (tree_index b) (users_of b))).

Definition binaries_site (b : Bundle) : Artifacts :=
  tree_with BINARIES_API_PREFIX b "verify/release/" (Release.verify_release_in_bundle b) (tags_of b)
    (json_of (mkBinaryManifest (tree_index b) (tags_of b))).

Lemma generate_artifacts_ok b : generate_artifacts b = Ok (mkManifest (tree_index b) (conversations_of b), commit_site b).
Proof. unfold generate_artifacts. rewrite insert_tree_ok. cbn [rbind]. rewrite insert_reports_ok. cbn [rbind]. by rewrite insert_json_ok. Qed.

Lemma generate_account_artifacts_ok b :
  generate_account_artifacts b = Ok (mkAccountManifest (tree_index b) (users_of b), account_site b).
Proof. unfold generate_account_artifacts. rewrite insert_tree_ok. cbn [rbind]. rewrite insert_reports_ok. cbn [rbind]. by rewrite insert_json_ok. Qed.

Lemma generate_binaries_artifacts_ok b :
  generate_binaries_artifacts b = Ok (mkBinaryManifest (tree_index b) (tags_of b), binaries_site b).
Proof. unfold generate_binaries_artifacts. rewrite insert_tree_ok. cbn [rbind]. rewrite insert_reports_ok. cbn [rbind]. by rewrite insert_json_ok. Qed.

Lemma reports_apart k k' i d : fmt [report_dir k; i] <> doc_path (tree_prefix k') d.
Proof.
  assert (exists p, tree_prefix k' = "v1" +:+ p) as Hp by (destruct k'; by eexists).
  destruct k; [apply (report_path_ne _ _ "rify/group/")|apply (report_path_ne _ _ "rify/account/")|
    apply (report_path_ne _ _ "rify/release/")]; done.
Qed.

Lemma report_dirs_disjoint k k' i i' : k <> k' -> fmt [report_dir k; i] <> fmt [report_dir k'; i'].
Proof. destruct k, k'; try done; intros _; unfold fmt; simpl; rewrite ?append_cons; discriminate. Qed.

(** A site: the three trees and their reports. *)
Record site_of (b1 b2 b3 : Bundle) (files : Artifacts) : Prop := {
  site_commit : holds_tree API_VERSION b1 (json_of (mkManifest (tree_index b1) (conversations_of b1))) files;
  site_account : holds_tree ACCOUNT_API_PREFIX b2 (json_of (mkAccountManifest (tree_index b2) (users_of b2))) files;
  site_binaries : holds_tree BINARIES_API_PREFIX b3 (json_of (mkBinaryManifest (tree_index b3) (tags_of b3))) files;
  site_groups : forall i, i ∈ conversations_of b1 ->
    files !! fmt ["verify/group/"; i] = Some (compact_of (Group.verify_group_in_bundle b1 i));
  site_users : forall i, i ∈ users_of b2 ->
    files !! fmt ["verify/account/"; i] = Some (compact_of (Account.verify_account_in_bundle b2 i));
  site_tags : forall i, i ∈ tags_of b3 ->
    files !! fmt ["verify/release/"; i] = Some (compact_of (Release.verify_release_in_bundle b3 i))
}.

(** A tree's site under another tree's: neither shadows the other. *)
Lemma site_lookup {R} `{SerdeJson R} k b (report : string -> R) ids index (rest : Artifacts) :
  let m := tree_with (tree_prefix k) b (report_dir k) report ids index ∪ rest in
  holds_tree (tree_prefix k) b index (tree_with (tree_prefix k) b (report_dir k) report ids index) /\
  (forall d bs, tree_with (tree_prefix k) b (report_dir k) report ids index !! doc_path (tree_prefix k) d = Some bs ->
     m !! doc_path (tree_prefix k) d = Some bs) /\
  (forall i, i ∈ ids -> m !! fmt [report_dir k; i] = Some (compact_of (report i))) /\
  (forall k' d, k' <> k -> m !! doc_path (tree_prefix k') d = rest !! doc_path (tree_prefix k') d) /\
  (forall k' i, k' <> k -> m !! fmt [report_dir k'; i] = rest !! fmt [report_dir k'; i]).
Proof.
  destruct (tree_with_holds (tree_prefix k) b (report_dir k) report ids index (reports_apart k k)) as (Ht & Hr & Ho).
  split_and!; [done|..].
  - intros d bs E. by apply lookup_union_Some_l.
  - intros i Hi. apply lookup_union_Some_l, Hr, Hi.
  - intros k' d Hk. apply lookup_union_r, Ho; [intros d'; by apply trees_disjoint|].
    intros i E. by destruct (reports_apart k k' i d).
  - intros k' i Hk. apply lookup_union_r, Ho; [intros d'; by apply reports_apart|]. intros i'. by apply report_dirs_disjoint.
Qed.

Definition whole_site (b1 b2 b3 : Bundle) : Artifacts := binaries_site b3 ∪ (account_site b2 ∪ (commit_site b1 ∪ ∅)).

Lemma whole_site_of b1 b2 b3 : site_of b1 b2 b3 (whole_site b1 b2 b3).
Proof.
  unfold whole_site.
  destruct (site_lookup Commit b1 (Group.verify_group_in_bundle b1) (conversations_of b1)
    (json_of (mkManifest (tree_index b1) (conversations_of b1))) ∅) as (C1 & _ & C3 & C4 & C5).
  destruct (site_lookup Accounts b2 (Account.verify_account_in_bundle b2) (users_of b2)
    (json_of (mkAccountManifest (tree_index b2) (users_of b2))) (commit_site b1 ∪ ∅)) as (A1 & _ & A3 & A4 & A5).
  destruct (site_lookup Binary b3 (Release.verify_release_in_bundle b3) (tags_of b3)
    (json_of (mkBinaryManifest (tree_index b3) (tags_of b3))) (account_site b2 ∪ (commit_site b1 ∪ ∅))) as (B1 & _ & B3 & B4 & B5).
  split.
  - intros d. etransitivity; [by apply (B4 Commit d)|]. etransitivity; [by apply (A4 Commit d)|].
    rewrite map_union_empty. apply C1.
  - intros d. etransitivity; [by apply (B4 Accounts d)|]. etransitivity; [|apply (A1 d)]. apply lookup_union_l.
    etransitivity; [by apply (C4 Accounts d)|apply lookup_empty].
  - intros d. etransitivity; [|apply (B1 d)]. apply lookup_union_l.
    etransitivity; [by apply (A4 Binary d)|]. etransitivity; [by apply (C4 Binary d)|apply lookup_empty].
  - intros i Hi. etransitivity; [by apply (B5 Commit i)|]. etransitivity; [by apply (A5 Commit i)|]. by apply C3.
  - intros i Hi. etransitivity; [by apply (B5 Accounts i)|]. by apply A3.
  - intros i Hi. by apply B3.
Qed.

Lemma run_generate_ok `{!SerdeJson Bundle} raw1 raw2 raw3 b1 b2 b3 :
  from_slice raw1 = Ok b1 -> from_slice raw2 = Ok b2 -> from_slice raw3 = Ok b3 ->
  run_generate raw1 (Some raw2) (Some raw3) ∅ = (whole_site b1 b2 b3, Ok tt).
Proof.
  intros E1 E2 E3. unfold run_generate, write_tree, load_bundle, generate, generate_account, generate_binaries.
  rewrite E1, E2, E3. cbn [map_err rbind]. rewrite generate_artifacts_ok, generate_account_artifacts_ok, generate_binaries_artifacts_ok.
  reflexivity.
Qed.

(** A published site says what the verifiers say.  Generating the three trees into an
    empty directory succeeds; a client that fetches from a host serving those files, with
    or without a proxy, gets for every conversation, user and release exactly the report
    the verifier computes from the bundle itself; and the precomputed reports at the
    verify paths are those reports. *)
Theorem published_verdicts_agree `{!SerdeJson Bundle} (host : Host) (proxy_new : string -> Result unit string)
    (base_url : string) (proxy : option string) (agent : Agent)
    (raw1 raw2 raw3 : bytes) (b1 b2 b3 : Bundle) (files : Artifacts) :
  from_slice raw1 = Ok b1 -> from_slice raw2 = Ok b2 -> from_slice raw3 = Ok b3 ->
  sths b1 <> [] -> sths b2 <> [] -> sths b3 <> [] ->
  run_generate raw1 (Some raw2) (Some raw3) ∅ = (files, Ok tt) ->
  serves host (trim_end_slashes base_url) files ->
  build_agent proxy_new proxy = Ok agent ->
  (forall t conv, (verify_group_via host proxy_new base_url conv proxy t).2 = Ok (Group.verify_group_in_bundle b1 conv)) /\
  (forall t user, (verify_account_via host proxy_new base_url user proxy t).2 = Ok (Account.verify_account_in_bundle b2 user)) /\
  (forall t tag, (verify_release_via host proxy_new base_url tag proxy t).2 = Ok (Release.verify_release_in_bundle b3 tag)) /\
  (forall conv, conv ∈ conversations_of b1 ->
     files !! fmt ["verify/group/"; conv] = Some (compact_of (Group.verify_group_in_bundle b1 conv))) /\
  (forall user, user ∈ users_of b2 ->
     files !! fmt ["verify/account/"; user] = Some (compact_of (Account.verify_account_in_bundle b2 user))) /\
  (forall tag, tag ∈ tags_of b3 ->
     files !! fmt ["verify/release/"; tag] = Some (compact_of (Release.verify_release_in_bundle b3 tag))).
Proof.
  intros E1 E2 E3 N1 N2 N3 Eg Hs Ha. rewrite (run_generate_ok _ _ _ _ _ _ E1 E2 E3) in Eg. injection Eg as <-.
  destruct (whole_site_of b1 b2 b3) as [H1' H2' H3' R1 R2 R3].
  split_and!; try done; intros t i.
  - by eapply group_via_served.
  - by eapply account_via_served.
  - by eapply release_via_served.
Qed.
End Site.

(** ** Evaluation on a small site *)

Section Concrete.
Import WireJson.

(** A static host: the files of a directory under its base URL. *)
Fixpoint strip_base (p s : string) : option string :=
  match p, s with
  | "", _ => Some s
  | String c p', String c' s' => if Ascii.eqb c c' then strip_base p' s' else None
  | _, _ => None
  end.

Definition static_host (base : string) (files : Artifacts) : Host := fun _ _ url =>
  match strip_base (fmt [base; "/"]) url with
  | Some rel => match files !! rel with Some body => Page body | None => ErrorStatus 404 "not found" end
  | None => Unreachable "no such host"
  end.

Lemma strip_base_append p s : strip_base p (p +:+ s) = Some s.
Proof. induction p as [|c p IH]; [by destruct s|]. rewrite append_cons. simpl. by rewrite Ascii.eqb_refl. Qed.

Lemma static_host_serves base files : serves (static_host base files) base files.
Proof.
  intros t agent prefix d _. unfold static_host.
  assert (fmt [base; "/"; doc_path prefix d] = fmt [base; "/"] +:+ doc_path prefix d) as ->
    by (unfold fmt; simpl; by rewrite append_assoc).
  rewrite strip_base_append. destruct (files !! doc_path prefix d); eauto.
Qed.

#[local] Definition site_key : SigningKey := ClearSig.repeat_seed Byte.x03.

#[local] Definition built {J} (r : Result Bundle (BuilderError J)) : Bundle :=
  match r with Ok b => b | Err _ => mkBundle "" [] [] [] [] [] end.

#[local] Definition commit_bundle : Bundle := built (build_bundle [mkCommitRow 1 "dm" 0 "al" "0"; mkCommitRow 2 "dm" 1 "bo" "1"] site_key 9).

#[local] Definition keys_bundle : Bundle := built (build_account_bundle [mkAccountKeyRow 1 "al" 1 "0"] site_key 9).

#[local] Definition binary_bundle : Bundle :=
  built (build_binaries_bundle [Binaries.mkBinaryRecord "v1" "c" "mac" "arm" "dmg" "a" Binaries.Payload "ps" "ps"
    (Binaries.mkToolchain "1" "2" "3" "4" 5) "u"] site_key 9).

#[local] Definition raw (b : Bundle) : bytes := compact_of b.

Lemma from_slice_raw b : from_slice (raw b) = Ok b.
Proof. unfold raw, compact_of. destruct (to_vec_total b) as [j E]. rewrite E. by apply from_slice_to_vec. Qed.

Lemma published_verdicts_agree_witness :
  let files := whole_site commit_bundle keys_bundle binary_bundle in
  (verify_group_via (static_host "https://v.test" files) (fun _ => Ok tt) "https://v.test/" "dm" (Some "socks5://p") []).2 =
    Ok (Group.verify_group_in_bundle commit_bundle "dm") /\
  Group.chain_valid (Group.verify_group_in_bundle commit_bundle "dm") = true.
Proof.
  intros files. split; [|vm_compute; reflexivity].
  refine (proj1 (published_verdicts_agree (static_host "https://v.test" files) (fun _ => Ok tt) "https://v.test/"
    (Some "socks5://p") (Through "socks5://p") (raw commit_bundle) (raw keys_bundle) (raw binary_bundle)
    commit_bundle keys_bundle binary_bundle files _ _ _ _ _ _ _ _ _) [] "dm").
  - apply from_slice_raw.
  - apply from_slice_raw.
  - apply from_slice_raw.
  - vm_compute. discriminate.
  - vm_compute. discriminate.
  - vm_compute. discriminate.
  - apply run_generate_ok; apply from_slice_raw.
  - apply (static_host_serves "https://v.test").
  - reflexivity.
Defined.
End Concrete.
