(* ===== verification/Site.v ===== *)
(** * verifiable-log-serve: from built bundles to a passing audit

    Composes the builders, the generators of [Layout] and the audit of [Remote]:
    [honest_site_passes] says that the site generated from any three built bundles, under
    any keys, passes [verify_remote].  The last part shows what such a pass does not
    establish. *)

From stdpp Require Import base list strings gmap pretty.
From Stdlib Require Import NArith ZArith Lia ZifyNat ZifyN.
From Stdlib Require Import Strings.Byte.
From S2P Require Import Prelude Crypto Merkle Log Tenants Monitor Builder Verifiers Release Text Fetch Wire Layout Remote.

#[local] Arguments fmt : simpl never.
#[local] Arguments doc_path : simpl never.

Lemma elem_of_dedup n l : n ∈ dedup l <-> n ∈ l.
Proof.
  induction l as [|x [|y l] IH]; [done|done|]. cbn [dedup] in *. destruct (N.eqb_spec x y) as [->|Hne].
  - rewrite IH. set_solver.
  - rewrite elem_of_cons, IH. set_solver.
Qed.

Lemma elem_of_sorted_sizes n ss : n ∈ sorted_sizes ss <-> exists s, s ∈ ss /\ tree_size s = n.
Proof.
  unfold sorted_sizes. rewrite elem_of_dedup, sort_by_key_perm, list_elem_of_fmap. naive_solver.
Qed.

Section Honest.
Context (host : Host) (base : string) (files : Artifacts) (Hserves : serves host base files).
Context `{SerdePretty PublicKeyDoc, !SerdePrettyLaws PublicKeyDoc} `{SerdePretty Sth, !SerdePrettyLaws Sth}.
Context `{SerdePretty (list Entry), !SerdePrettyLaws (list Entry)} `{SerdePretty Entry, !SerdePrettyLaws Entry}.
Context `{SerdePretty InclusionProof, !SerdePrettyLaws InclusionProof}.
Context `{SerdePretty ConsistencyProof, !SerdePrettyLaws ConsistencyProof}.
Context `{Sha256, !Sha256Laws} `{Hex, !HexLaws} `{Ed25519, !Ed25519Laws}.

Section OneTree.
Context (agent : Agent) (prefix : string) (tree : Tree) (b : Bundle) (log : VerifiableLog) (enforce : list string).
Context (sk : SigningKey) (ctx : bytes) (index : bytes).
Context (Hprefix : prefix ∈ [API_VERSION; ACCOUNT_API_PREFIX; BINARIES_API_PREFIX]).
Context (Hholds : holds_tree prefix b index files) (Hsealed : sealed b log enforce sk ctx) (Hwf : log_wf log).

#[local] Notation url := (fmt [base; "/"; prefix]).
#[local] Notation vk := (verifying_key sk).

(** The two heads of a sealed bundle have different sizes. *)
Lemma sealed_sizes s s' : s ∈ sths b -> s' ∈ sths b -> tree_size s = tree_size s' -> s = s'.
Proof.
  destruct (sealed_head _ _ _ _ _ Hsealed) as (ss & x & -> & _ & Hlt & Hlen). rewrite Forall_forall in Hlt.
  rewrite !elem_of_app, !list_elem_of_singleton. intros [Hs| ->] [Hs'| ->] E.
  - destruct ss as [|y [|]]; simpl in Hlen; [by apply elem_of_nil in Hs| |lia]. set_solver.
  - specialize (Hlt _ Hs). lia.
  - specialize (Hlt _ Hs'). lia.
  - done.
Qed.

Definition head_at (n : N) : option Sth := find_last (fun s => bool_decide (tree_size s = n)) (sths b).

Lemma head_at_elem s : s ∈ sths b -> head_at (tree_size s) = Some s.
Proof.
  intros Hs. apply find_last_unique; [done|by apply bool_decide_eq_true|].
  intros y Hy E. breflect. by apply sealed_sizes.
Qed.

Lemma head_at_inv n s : head_at n = Some s -> s ∈ sths b /\ tree_size s = n.
Proof. intros [Hs E]%find_last_Some. by breflect. Qed.

Lemma sealed_verifies s : s ∈ sths b -> verify_with_context s vk ctx = true.
Proof. intros Hs. pose proof (sealed_sigs _ _ _ _ _ Hsealed) as Hf. rewrite Forall_forall in Hf. by apply Hf. Qed.

Lemma honest_heads r t :
  let f := for_each (check_head host agent url tree vk ctx) (sorted_sizes (sths b)) (∅, r) t in
  rp_ok f.2.2 = rp_ok r /\ forall n, f.2.1 !! n = head_at n.
Proof.
  assert (let f := for_each (check_head host agent url tree vk ctx) (sorted_sizes (sths b)) (∅, r) t in
    rp_ok f.2.2 = rp_ok r /\ forall n, (n ∈ sorted_sizes (sths b) -> f.2.1 !! n = head_at n) /\
      (n ∉ sorted_sizes (sths b) -> f.2.1 !! n = None)) as Hg.
  { apply (for_each_rule _ (fun seen _ (st : gmap N Sth * Report) => rp_ok st.2 = rp_ok r /\
      forall n, (n ∈ seen -> st.1 !! n = head_at n) /\ (n ∉ seen -> st.1 !! n = None))).
    { split; [done|]. intros n. cbn [fst]. rewrite lookup_empty. split; [by intros ?%elem_of_nil|done]. }
    intros seen n [heads r1] T Hn [IHr IH]. cbn [fst snd] in *. apply elem_of_sorted_sizes in Hn as (s & Hs & <-).
    unfold check_head, fbind, fret. cbn [fst snd].
    change (fmt [url; "/sth/"; pretty (tree_size s); ".json"]) with (doc_path url (DSth (tree_size s))).
    pose proof (head_at_elem s Hs) as Hh. unfold head_at in Hh.
    rewrite (fetch_served host base files Hserves Sth agent prefix (DSth (tree_size s)) T s) by
      (done || (rewrite (Hholds (DSth _)); cbn [tree_doc]; by rewrite Hh)).
    cbn [fst snd]. split; [unfold check; cbn [rp_ok]; by rewrite sealed_verifies, N.eqb_refl|].
    intros n. destruct (IH n) as [I1 I2]. destruct (decide (n = tree_size s)) as [->|Hne].
    - rewrite lookup_insert_eq. split; [by rewrite head_at_elem|set_solver].
    - rewrite lookup_insert_ne by done. rewrite elem_of_app, list_elem_of_singleton. naive_solver. }
  intros f. destruct Hg as [Hr Hg]. split; [exact Hr|]. intros n. destruct (Hg n) as [G1 G2].
  destruct (decide (n ∈ sorted_sizes (sths b))) as [Hn|Hn]; [by apply G1|]. fold f in G2. rewrite (G2 Hn).
  destruct (head_at n) as [s|] eqn:E; [|done]. destruct Hn. apply elem_of_sorted_sizes. exists s. by apply head_at_inv.
Qed.

Section Heads.
Context (heads : gmap N Sth) (Hheads : forall n, heads !! n = head_at n).

Lemma honest_latest r t :
  rp_ok (check_latest host agent url tree vk ctx (tree_size <$> latest_sth (sths b)) heads r t).2 = rp_ok r.
Proof.
  destruct (sealed_latest _ _ _ _ _ Hsealed) as (s & Hl & _ & Hlast). rewrite Hl. cbn [fmap option_fmap option_map check_latest].
  unfold fbind, fret. cbn [fst snd]. change (fmt [url; "/sth/latest.json"]) with (doc_path url DLatest).
  apply list_elem_of_lookup_2 in Hlast.
  rewrite (fetch_served host base files Hserves Sth agent prefix DLatest t s) by
    (done || (rewrite (Hholds DLatest); cbn [tree_doc]; by rewrite Hl)).
  unfold check. cbn [rp_ok]. rewrite sealed_verifies by done. rewrite N.eqb_refl, Hheads, head_at_elem by done.
  by rewrite bool_decide_eq_true_2.
Qed.

Lemma values_heads s : s ∈ values heads -> s ∈ sths b.
Proof. unfold values. intros (n & _ & Hn)%list_elem_of_omap. rewrite Hheads in Hn. by apply head_at_inv in Hn as [? _]. Qed.

Lemma honest_pairs r : rp_ok (check_pairs tree (values heads) r) = rp_ok r.
Proof.
  assert (no_equivocation (values heads)) as Hn.
  { intros i j x y _ Hx%list_elem_of_lookup_2%values_heads Hy%list_elem_of_lookup_2%values_heads. unfold is_equivocation.
    destruct (N.eqb_spec (tree_size x) (tree_size y)) as [E|]; [|done]. rewrite (sealed_sizes x y) by done.
    by rewrite bool_decide_eq_true_2. }
  pose proof (check_pairs_ok tree (values heads) r) as Hc. destruct (rp_ok r), (rp_ok (check_pairs tree (values heads) r)); naive_solver.
Qed.

Lemma fold_check_true {A} (f : A -> bool) (l : A -> Tree * Label) xs r :
  Forall (fun x => f x = true) xs -> rp_ok (fold_left (fun r x => check (f x) (l x) r) xs r) = rp_ok r.
Proof. intros Hf. revert r. induction Hf as [|x xs Hx _ IH]; intros r; [done|]. simpl. rewrite IH. unfold check. by rewrite Hx. Qed.

(** Replaying the bundle's entries into a fresh log that takes them gives the heads' roots. *)
Lemma honest_replay log0 log1 r : fresh log0 -> append_each log0 (bundle_entries b) = Ok log1 ->
  rp_ok (check_replay tree log0 (bundle_entries b) heads r) = rp_ok r.
Proof.
  intros [He0 Hl0] E. unfold check_replay. rewrite (append_each_replay _ _ _ E).
  apply append_each_ok in E as (Ee & _ & Hw & _). rewrite He0, (sealed_entries _ _ _ _ _ Hsealed) in Ee. simpl in Ee.
  assert (leaves log1 = leaves log) as El.
  { rewrite Hwf, <- Ee. apply Hw. unfold log_wf. by rewrite He0, Hl0. }
  assert (forall ks r', rp_ok (fold_left (fun r size => match heads !! size with
      | Some s => check (head_root_matches log1 size s) (tree, RootMatches size) r | None => r end) ks r') = rp_ok r') as Hf.
  { clear r. induction ks as [|k ks IH]; intros r'; [done|]. simpl. rewrite IH, Hheads. destruct (head_at k) as [s|] eqn:Ek; [|done].
    apply head_at_inv in Ek as [Hs <-]. unfold check. cbn [rp_ok].
    assert (head_root_matches log1 (tree_size s) s = true) as ->; [|done].
    pose proof (sealed_roots _ _ _ _ _ Hsealed) as Hr. rewrite Forall_forall in Hr. specialize (Hr s Hs).
    unfold root_matches, root_at in Hr. unfold head_root_matches, root_at. by rewrite El. }
  by rewrite Hf.
Qed.

Lemma honest_files t : (for_each (check_entry_file host agent url) (imap pair (bundle_entries b)) true t).2 = true.
Proof.
  apply (for_each_rule _ (fun _ _ okv => okv = true)); [done|].
  intros _ [i e] okv T (j & e' & [= -> ->] & Hj)%elem_of_lookup_imap ->. unfold check_entry_file, fbind, fret. cbn [fst snd].
  change (fmt [url; "/entries/"; pretty (N.of_nat j); ".json"]) with (doc_path url (DEntry (N.of_nat j))).
  rewrite (fetch_served host base files Hserves Entry agent prefix (DEntry (N.of_nat j)) T e') by
    (done || (rewrite (Hholds (DEntry _)); cbn [tree_doc]; by rewrite Nat2N.id, Hj)).
  by rewrite bool_decide_eq_true_2.
Qed.

Lemma honest_entries log0 r t : fresh log0 -> (bundle_entries b <> [] -> exists log1, append_each log0 (bundle_entries b) = Ok log1) ->
  let f := check_entries_of host agent url tree (N.of_nat (length (bundle_entries b))) log0 heads r t in
  f.2.1 = bundle_entries b /\ rp_ok f.2.2 = rp_ok r.
Proof.
  intros Hf He f. subst f. unfold check_entries_of, fbind, fret. cbn [fst snd].
  change (fmt [url; "/entries.json"]) with (doc_path url DEntries).
  rewrite (fetch_served host base files Hserves (list Entry) agent prefix DEntries t (bundle_entries b)) by
    (done || by rewrite (Hholds DEntries)). cbn [fst snd]. split; [done|].
  rewrite honest_files, N.eqb_refl. case_bool_decide as Eb; [done|]. destruct (He Eb) as [log1 E].
  by rewrite (honest_replay log0 log1).
Qed.

(** The head a proof of the bundle refers to is the head at the proof's size. *)
Lemma honest_inclusions r t :
  let refs := map (fun c => mkInclusionRef (ip_tree_size (ic_proof c)) (leaf_index (ic_proof c))) (inclusion b) in
  rp_ok (for_each (check_inclusion host agent url tree (bundle_entries b) heads) refs r t).2 = rp_ok r.
Proof.
  intros refs. apply (for_each_rule _ (fun _ _ r' => rp_ok r' = rp_ok r)); [done|].
  intros _ x r' T (c & -> & Hc)%list_elem_of_fmap IH. unfold check_inclusion, fbind, fret. cbn [fst snd ir_tree_size ir_leaf_index].
  change (fmt [url; "/proof/inclusion/"; pretty (ip_tree_size (ic_proof c)); "/"; pretty (leaf_index (ic_proof c)); ".json"])
    with (doc_path url (DInclusion (ip_tree_size (ic_proof c)) (leaf_index (ic_proof c)))).
  destruct (sealed_inclusion _ _ _ _ _ Hsealed) as [_ Hi]. apply list_elem_of_lookup in Hc as [i Hic].
  destruct (Hi i c Hic) as (He & Hli & Hts & _ & Hp).
  rewrite (fetch_served host base files Hserves InclusionProof agent prefix _ T (ic_proof c)).
  2: done.
  2: { rewrite (Hholds (DInclusion _ _)). cbn [tree_doc]. rewrite (find_last_unique _ _ c); [done|by eapply list_elem_of_lookup_2| |].
       - by apply bool_decide_eq_true.
       - intros c' [j Hj]%list_elem_of_lookup Hf. breflect. destruct Hf as [_ Hf]. destruct (Hi j c' Hj) as (_ & Hlj & _).
         assert (i = j) as -> by lia. congruence. }
  unfold inclusion_passed in Hp. destruct (sths b !! sth_index c) as [s|] eqn:Es; [|done]. apply list_elem_of_lookup_2 in Es.
  assert (ip_tree_size (ic_proof c) = tree_size s) as Ets.
  { unfold verify_inclusion_proof in Hp. destruct (N.eqb_spec (ip_tree_size (ic_proof c)) (tree_size s)); done. }
  rewrite Hheads, Ets, head_at_elem, Hli, Nat2N.id, (sealed_entries _ _ _ _ _ Hsealed), He, Hp by done.
  unfold check. cbn [rp_ok]. exact IH.
Qed.

Lemma honest_consistencies r t :
  let refs := map (fun c => mkConsistencyRef (first_size (cc_proof c)) (second_size (cc_proof c))) (consistency b) in
  rp_ok (for_each (check_consistency host agent url tree heads) refs r t).2 = rp_ok r.
Proof.
  intros refs. apply (for_each_rule _ (fun _ _ r' => rp_ok r' = rp_ok r)); [done|].
  intros _ x r' T (c & -> & Hc)%list_elem_of_fmap IH. unfold check_consistency, fbind, fret. cbn [fst snd cr_first cr_second].
  change (fmt [url; "/proof/consistency/"; pretty (first_size (cc_proof c)); "-"; pretty (second_size (cc_proof c)); ".json"])
    with (doc_path url (DConsistency (first_size (cc_proof c)) (second_size (cc_proof c)))).
  destruct (find_last_elem (fun c' => bool_decide (first_size (cc_proof c') = first_size (cc_proof c) /\
    second_size (cc_proof c') = second_size (cc_proof c))) (consistency b) c) as [c' Ef]; [done|by apply bool_decide_eq_true|].
  rewrite (fetch_served host base files Hserves ConsistencyProof agent prefix _ T (cc_proof c')).
  2: done.
  2: { rewrite (Hholds (DConsistency _ _)). cbn [tree_doc]. by rewrite Ef. }
  apply find_last_Some in Ef as [Hc' Ef]. breflect. destruct Ef as [<- <-].
  pose proof (sealed_consistency _ _ _ _ _ Hsealed) as Hp. rewrite Forall_forall in Hp. specialize (Hp c' Hc').
  unfold consistency_passed in Hp. destruct (sths b !! old_index c') as [o|] eqn:Eo; [|done].
  destruct (sths b !! new_index c') as [n|] eqn:En; [|done]. apply list_elem_of_lookup_2 in Eo, En.
  assert (first_size (cc_proof c') = tree_size o /\ second_size (cc_proof c') = tree_size n) as [E1 E2].
  { unfold verify_consistency_proof in Hp. destruct (N.eqb_spec (first_size (cc_proof c')) (tree_size o)),
      (N.eqb_spec (second_size (cc_proof c')) (tree_size n)); done. }
  rewrite !Hheads, E1, E2, !head_at_elem, Hp by done. unfold check. cbn [rp_ok]. exact IH.
Qed.
End Heads.

(** The whole check of a published tree changes no verdict. *)
Lemma honest_tree log0 r t : fresh log0 -> (bundle_entries b <> [] -> exists log1, append_each log0 (bundle_entries b) = Ok log1) ->
  rp_ok (check_tree host agent url tree vk ctx (tree_index b) log0 r t).2 = rp_ok r.
Proof.
  intros Hf He. unfold check_tree, fbind. cbn [fst snd tree_index ti_sth_sizes ti_latest_tree_size ti_entry_count ti_inclusion ti_consistency].
  pose proof (honest_heads r t) as Hh. cbv zeta in Hh.
  destruct (for_each (check_head host agent url tree vk ctx) (sorted_sizes (sths b)) (∅, r) t) as [t1 [heads r1]].
  cbn [fst snd] in *. destruct Hh as [Hr1 Hh].
  set (r2 := check_latest _ _ _ _ _ _ _ heads r1 t1).
  pose proof (honest_entries heads Hh log0 (check_pairs tree (values heads) r2.2) r2.1 Hf He) as Hn. cbv zeta in Hn.
  destruct (check_entries_of host agent url tree _ log0 heads _ r2.1) as [t3 [es r3]]. cbn [fst snd] in *. destruct Hn as [-> Hr3].
  rewrite honest_consistencies by done. rewrite honest_inclusions by done. rewrite Hr3, honest_pairs by done.
  unfold r2. by rewrite honest_latest.
Qed.
End OneTree.
End Honest.

(** ** Generated sites pass the audit *)

Section Pass.
Context `{SerdePretty PublicKeyDoc, !SerdePrettyLaws PublicKeyDoc} `{SerdePretty Sth, !SerdePrettyLaws Sth}.
Context `{SerdePretty (list Entry), !SerdePrettyLaws (list Entry)} `{SerdePretty Entry, !SerdePrettyLaws Entry}.
Context `{SerdePretty InclusionProof, !SerdePrettyLaws InclusionProof}.
Context `{SerdePretty ConsistencyProof, !SerdePrettyLaws ConsistencyProof}.
Context `{Sha256, !Sha256Laws} `{Hex, !HexLaws} `{Ed25519, !Ed25519Laws}.
Context `{JC : !SerdeJson CommitLog.CommitLeaf, !SerdeJsonLaws CommitLog.CommitLeaf}.
Context `{JA : !SerdeJson AccountKey.AccountKeyLeaf, !SerdeJsonLaws AccountKey.AccountKeyLeaf}.
Context `{JB : !SerdeJson Binaries.BinaryRecord, !SerdeJsonLaws Binaries.BinaryRecord}.
Context `{SerdePretty Manifest, !SerdePrettyLaws Manifest} `{SerdePretty AccountManifest, !SerdePrettyLaws AccountManifest}.
Context `{SerdePretty BinaryManifest, !SerdePrettyLaws BinaryManifest}.
Context `{J1 : !SerdeJson (Group.GroupReport (JsonError (A:=CommitLog.CommitLeaf))), !SerdeJsonLaws (Group.GroupReport (JsonError (A:=CommitLog.CommitLeaf)))}.
Context `{J2 : !SerdeJson (Account.AccountReport (JsonError (A:=AccountKey.AccountKeyLeaf))), !SerdeJsonLaws (Account.AccountReport (JsonError (A:=AccountKey.AccountKeyLeaf)))}.
Context `{J3 : !SerdeJson Release.ReleaseReport, !SerdeJsonLaws Release.ReleaseReport}.

(** A tree that its own rules accept when replayed from scratch. *)
Lemma replays_fresh t inv Rule `{!TenantRule inv Rule} es : Forall (fun e => tenant e = t) es -> Rule es ->
  exists log1, append_each (fresh_log t inv) es = Ok log1.
Proof.
  intros Ht HR. apply (append_each_rule inv Rule t es (fresh_log t inv)); [by apply lookup_insert_eq|apply (rule_nil (inv:=inv))|done|done].
Qed.

(** A sibling tree on a serving host. *)
Lemma honest_sibling {M} `{SerdePretty M, !SerdePrettyLaws M} host base files prefix tree ctx (index : M -> TreeIndex) m b log enforce sk
    log0 agent r t :
  serves host base files -> prefix ∈ [API_VERSION; ACCOUNT_API_PREFIX; BINARIES_API_PREFIX] ->
  holds_tree prefix b (json_of m) files -> index m = tree_index b -> sealed b log enforce sk ctx -> log_wf log ->
  fresh log0 -> (exists log1, append_each log0 (bundle_entries b) = Ok log1) ->
  rp_ok (verify_sibling host agent (fmt [base; "/"; prefix]) tree ctx index log0 r t).2 = rp_ok r.
Proof.
  intros Hs Hp Hh Hi Hb Hw Hf He. unfold verify_sibling, fbind.
  change (fmt [fmt [base; "/"; prefix]; "/index.json"]) with (doc_path (fmt [base; "/"; prefix]) DIndex).
  change (fmt [fmt [base; "/"; prefix]; "/public_key.json"]) with (doc_path (fmt [base; "/"; prefix]) DPublicKey).
  assert ((fetch_json_opt host M agent (doc_path (fmt [base; "/"; prefix]) DIndex) t).2 = Ok (Some m)) as ->.
  { pose proof (Hs t agent prefix DIndex Hp) as Ha. rewrite (Hh DIndex) in Ha.
    unfold fetch_json_opt, fbind, fret, parse_page, http_get. cbn [fst snd]. rewrite doc_url, Ha. by rewrite from_slice_json_of. }
  rewrite (fetch_served host base files Hs PublicKeyDoc agent prefix DPublicKey _ (mkPublicKeyDoc (public_key b))) by
    (done || by rewrite (Hh DPublicKey)). cbn [pk_public_key]. rewrite (sealed_public_key _ _ _ _ _ Hb), Hi.
  by apply (honest_tree host base files Hs agent prefix tree b log enforce sk ctx (json_of m)).
Qed.

Lemma generated_site_passes `{!SerdeJson Bundle} (host : Host) (base_url : string)
    (rows : list CommitRow) (keys : list AccountKeyRow) (records : list Binaries.BinaryRecord)
    (sk1 sk2 sk3 : SigningKey) (ts1 ts2 ts3 : N) (b1 b2 b3 : Bundle) (raw1 raw2 raw3 : bytes) (files : Artifacts) (t : Transcript) :
  build_bundle rows sk1 ts1 = Ok b1 -> build_account_bundle keys sk2 ts2 = Ok b2 -> build_binaries_bundle records sk3 ts3 = Ok b3 ->
  from_slice raw1 = Ok b1 -> from_slice raw2 = Ok b2 -> from_slice raw3 = Ok b3 ->
  run_generate raw1 (Some raw2) (Some raw3) ∅ = (files, Ok tt) -> serves host (trim_end_slashes base_url) files ->
  (run_verify_remote host base_url t).2 = Ok true.
Proof.
  intros B1 B2 B3 E1 E2 E3 Eg Hs. rewrite (run_generate_ok _ _ _ _ _ _ E1 E2 E3) in Eg. injection Eg as <-.
  destruct (whole_site_of b1 b2 b3) as [T1 T2 T3 _ _ _]. set (base := trim_end_slashes base_url) in *.
  destruct (build_bundle_built _ _ _ _ B1) as [log1 L1]. destruct (build_account_bundle_built _ _ _ _ B2) as [log2 L2].
  destruct (build_binaries_bundle_built _ _ _ _ B3) as [log3 L3].
  pose proof (built_sealed _ _ _ _ _ _ _ _ _ _ L1) as S1. pose proof (built_sealed _ _ _ _ _ _ _ _ _ _ L2) as S2.
  pose proof (built_sealed _ _ _ _ _ _ _ _ _ _ L3) as S3.
  unfold run_verify_remote, verify_remote. fold base. unfold ftry, fbind, fret. cbn [fst snd].
  change (fmt [base; "/v1"]) with (fmt [base; "/"; API_VERSION]).
  change (fmt [fmt [base; "/"; API_VERSION]; "/public_key.json"]) with (doc_path (fmt [base; "/"; API_VERSION]) DPublicKey).
  change (fmt [fmt [base; "/"; API_VERSION]; "/index.json"]) with (doc_path (fmt [base; "/"; API_VERSION]) DIndex).
  rewrite (fetch_served host base _ Hs PublicKeyDoc Direct API_VERSION DPublicKey _ (mkPublicKeyDoc (public_key b1)))
    by (apply (tree_prefix_known Commit) || by rewrite (T1 DPublicKey)).
  cbn [pk_public_key]. rewrite (sealed_public_key _ _ _ _ _ S1). cbn [map_err fst snd].
  rewrite (fetch_served host base _ Hs Manifest Direct API_VERSION DIndex _ (mkManifest (tree_index b1) (conversations_of b1)))
    by (apply (tree_prefix_known Commit) || by rewrite (T1 DIndex)).
  cbn [fst snd m_index]. f_equal. unfold verify_binaries_tree, verify_account_tree.
  change (fmt [base; "/v1/account-keys"]) with (fmt [base; "/"; ACCOUNT_API_PREFIX]).
  change (fmt [base; "/v1/binaries"]) with (fmt [base; "/"; BINARIES_API_PREFIX]).
  erewrite (honest_sibling host base _ BINARIES_API_PREFIX BinariesTree Binaries.STH_CONTEXT bm_index _ b3 log3);
    [|exact Hs|apply (tree_prefix_known Binary)|exact T3|reflexivity|exact S3|exact (built_wf _ _ _ _ _ _ _ _ _ _ L3)|apply fresh_register|].
  2: { rewrite (sealed_entries _ _ _ _ _ S3). apply (replays_fresh _ _ BinaryRule); [exact (built_tenant _ _ _ _ _ _ _ _ _ _ L3)|].
       eexists. split; [exact (built_parse _ _ _ _ _ _ _ _ _ _ L3)|]. exact (built_rule _ _ _ _ _ _ _ _ _ _ L3). }
  erewrite (honest_sibling host base _ ACCOUNT_API_PREFIX AccountTree AccountKey.STH_CONTEXT am_index _ b2 log2);
    [|exact Hs|apply (tree_prefix_known Accounts)|exact T2|reflexivity|exact S2|exact (built_wf _ _ _ _ _ _ _ _ _ _ L2)|apply fresh_register|].
  2: { rewrite (sealed_entries _ _ _ _ _ S2). apply (replays_fresh _ _ AccountRule); [exact (built_tenant _ _ _ _ _ _ _ _ _ _ L2)|].
       eexists. split; [exact (built_parse _ _ _ _ _ _ _ _ _ _ L2)|]. exact (built_rule _ _ _ _ _ _ _ _ _ _ L2). }
  erewrite (honest_tree host base _ Hs Direct API_VERSION CommitTree b1 log1); [reflexivity|apply (tree_prefix_known Commit)|exact T1|exact S1|exact (built_wf _ _ _ _ _ _ _ _ _ _ L1)|apply fresh_register_all|].
  intros _. unfold tree_index. cbn [ti_enforce_unique]. rewrite (sealed_enforce _ _ _ _ _ S1), (sealed_entries _ _ _ _ _ S1).
  apply (replays_fresh _ UniqueDataInvariant (fun es => NoDup (map data es))); [exact (built_tenant _ _ _ _ _ _ _ _ _ _ L1)|].
  eapply (leaves_unique _ _ commit_before); [apply commit_before_irrefl|exact (built_parse _ _ _ _ _ _ _ _ _ _ L1)|exact (built_rule _ _ _ _ _ _ _ _ _ _ L1)].
Qed.

(** A site the pipeline published: rows built into the three bundles, under whatever keys
    and times, and the bundles as files given to the generate command. *)
Definition honestly_published `{!SerdeJson Bundle} (files : Artifacts) : Prop :=
  exists rows keys records sk1 sk2 sk3 ts1 ts2 ts3 b1 b2 b3 raw1 raw2 raw3,
    build_bundle rows sk1 ts1 = Ok b1 /\ build_account_bundle keys sk2 ts2 = Ok b2 /\
    build_binaries_bundle records sk3 ts3 = Ok b3 /\
    from_slice raw1 = Ok b1 /\ from_slice raw2 = Ok b2 /\ from_slice raw3 = Ok b3 /\
    run_generate raw1 (Some raw2) (Some raw3) ∅ = (files, Ok tt).

(** Everything published honestly verifies, under any key.  Whatever commit rows,
    account-key rows and release records build into bundles, under whatever signing keys
    and timestamps, the site generated from them passes the remote audit when served: the
    audit ends with a report and every check in it has passed. *)
Theorem honest_site_passes `{!SerdeJson Bundle} (host : Host) (base_url : string) (files : Artifacts) (t : Transcript) :
  honestly_published files -> serves host (trim_end_slashes base_url) files -> (run_verify_remote host base_url t).2 = Ok true.
Proof.
  intros (rows & keys & records & sk1 & sk2 & sk3 & ts1 & ts2 & ts3 & b1 & b2 & b3 & raw1 & raw2 & raw3 & B1 & B2 & B3 & E1 & E2 & E3 & Eg) Hs.
  exact (generated_site_passes host base_url rows keys records sk1 sk2 sk3 ts1 ts2 ts3 b1 b2 b3 raw1 raw2 raw3 files t B1 B2 B3 E1 E2 E3 Eg Hs).
Qed.
End Pass.

(** ** Evaluation, and what a passing audit does not establish *)

Section Concrete.
Import WireJson.

#[local] Definition site_key : SigningKey := ClearSig.repeat_seed Byte.x03.

#[local] Definition built_or_empty {J} (r : Result Bundle (BuilderError J)) : Bundle :=
  match r with Ok b => b | Err _ => mkBundle "" [] [] [] [] [] end.

#[local] Definition site_rows : list CommitRow := [mkCommitRow 1 "dm" 0 "al" "0"; mkCommitRow 2 "dm" 1 "bo" "1"].

#[local] Definition site_commits : Bundle := built_or_empty (build_bundle site_rows site_key 9).

#[local] Definition site_keys : Bundle := built_or_empty (build_account_bundle [mkAccountKeyRow 1 "al" 1 "0"] site_key 9).

#[local] Definition site_record : Binaries.BinaryRecord :=
  Binaries.mkBinaryRecord "v1" "c" "mac" "arm" "dmg" "a" Binaries.Payload "ps" "ps" (Binaries.mkToolchain "1" "2" "3" "4" 5) "u".

#[local] Definition site_binaries' : Bundle := built_or_empty (build_binaries_bundle [site_record] site_key 9).

#[local] Definition site_host : Host := static_host "https://v.test" (whole_site site_commits site_keys site_binaries').

Lemma honest_site_passes_witness : (run_verify_remote site_host "https://v.test" []).2 = Ok true.
Proof.
  refine (honest_site_passes site_host "https://v.test" (whole_site site_commits site_keys site_binaries') [] _ _).
  - exists site_rows, [mkAccountKeyRow 1 "al" 1 "0"], [site_record], site_key, site_key, site_key, 9%N, 9%N, 9%N,
      site_commits, site_keys, site_binaries', (compact_of site_commits), (compact_of site_keys), (compact_of site_binaries').
    split; [vm_compute; reflexivity|]. split; [vm_compute; reflexivity|]. split; [vm_compute; reflexivity|].
    split; [apply from_slice_raw|]. split; [apply from_slice_raw|]. split; [apply from_slice_raw|].
    apply run_generate_ok; apply from_slice_raw.
  - apply (static_host_serves "https://v.test").
Defined.

#[local] Definition audited : Transcript * Result Report ServeError := verify_remote site_host "https://v.test" [].

Lemma audit_sound_witness : exists r, audited.2 = Ok r /\
  exists m : Manifest, fetched audited.1 "https://v.test/v1/index.json" m /\
    tree_sound audited.1 "https://v.test/v1" STH_DOMAIN (m_index m) (unique_tenants (ti_enforce_unique (m_index m))).
Proof.
  assert ((run_verify_remote site_host "https://v.test" []).2 = Ok true) as Hp.
  { apply (generated_site_passes site_host "https://v.test" site_rows [mkAccountKeyRow 1 "al" 1 "0"] [site_record]
      site_key site_key site_key 9 9 9 site_commits site_keys site_binaries'
      (compact_of site_commits) (compact_of site_keys) (compact_of site_binaries') (whole_site site_commits site_keys site_binaries')).
    - vm_compute. reflexivity.
    - vm_compute. reflexivity.
    - vm_compute. reflexivity.
    - apply from_slice_raw.
    - apply from_slice_raw.
    - apply from_slice_raw.
    - apply run_generate_ok; apply from_slice_raw.
    - apply (static_host_serves "https://v.test"). }
  unfold run_verify_remote, ftry, fbind in Hp. fold audited in Hp.
  destruct audited as [T [r|e]] eqn:E; cbn [fst snd fret] in Hp; [|discriminate Hp].
  injection Hp as Hp. exists r. split; [reflexivity|]. exact (proj1 (audit_sound site_host "https://v.test" [] T r E Hp)).
Defined.

(** A site that withholds every entry: the heads of a log of two, an index that advertises
    no entry and no proof. *)
#[local] Definition withheld : Bundle :=
  mkBundle (public_key site_commits) (sths site_commits) [] (enforce_unique site_commits) [] [].

(** The roots are compared only when entries were served, so heads over entries nobody can
    fetch pass: the advertised sizes are 1 and 2, the entries are none, and the audit
    succeeds. *)
Example audit_misses_withheld_entries :
  ti_sth_sizes (tree_index withheld) = [1; 2]%N /\ bundle_entries withheld = [] /\
  (run_verify_remote (static_host "https://v.test" (commit_site withheld)) "https://v.test" []).2 = Ok true.
Proof. split_and!; vm_compute; reflexivity. Qed.

(** A second head for the full log, over other entries, signed by the same key. *)
#[local] Definition forged_head : Sth :=
  default (mkSth 0 "" 0 "") (latest_sth (sths (built_or_empty (build_bundle
    [mkCommitRow 1 "dm" 0 "ev" "9"; mkCommitRow 2 "dm" 1 "ev" "8"] site_key 9)))).

#[local] Definition head_url : string := "https://v.test/v1/sth/2.json".

(** The host advertises size 2 twice and answers the first request with the other head. *)
#[local] Definition two_faced : Host := fun t agent url =>
  if bool_decide (url = head_url) && bool_decide (Forall (fun ex => ex_url ex <> head_url) t) then Page (json_of forged_head)
  else if bool_decide (url = "https://v.test/v1/index.json")
  then Page (json_of (mkManifest (mkTreeIndex API_VERSION (public_key site_commits) 2 (Some 2%N) [2; 2; 1]%N
         (ti_inclusion (tree_index site_commits)) (ti_consistency (tree_index site_commits)) (enforce_unique site_commits)) []))
  else static_host "https://v.test" (commit_site site_commits) t agent url.

(** Heads are kept in a map by size, so of two heads at one size only the last is compared:
    the audit is served two signed heads of the same size with different roots, and
    succeeds. *)
Example audit_misses_equivocation :
  is_equivocation forged_head (default (mkSth 0 "" 0 "") (latest_sth (sths site_commits))) = true /\
  List.filter (fun ex => bool_decide (ex_url ex = head_url)) (run_verify_remote two_faced "https://v.test" []).1 =
    [mkExchange Direct head_url (Page (json_of forged_head));
     mkExchange Direct head_url (Page (json_of (default (mkSth 0 "" 0 "") (latest_sth (sths site_commits)))))] /\
  (run_verify_remote two_faced "https://v.test" []).2 = Ok true.
Proof. split_and!; vm_compute; reflexivity. Qed.
End Concrete.
