(* ===== verification/Server.v ===== *)
(** * verifiable-log-serve: the development server

    Models the request handling of [server.rs]: path and method routing, the static file
    lookup with its cache policy, the dynamic [/verify/group/<id>] endpoint (which runs the
    shared verifier against the server's own base URL), percent-decoding and the JSON
    escaping of messages.  Sockets, worker threads and shutdown are left out; a request is
    a method and a URL, a response its status, body and headers.

    [dev_server_serves] says that the server is a host of its directory in the sense of
    [Layout], so the audits of a generated site apply to it ([dev_server_audited]);
    [percent_decode_spec] describes the decoding of ids. *)

From stdpp Require Import base list strings gmap pretty.
From Stdlib Require Import NArith ZArith Lia ZifyNat ZifyN.
From Stdlib Require Import Strings.Byte.
From S2P Require Import Prelude Crypto Merkle Log Tenants Monitor Builder Verifiers Release Text Fetch Wire Layout Remote Site.

#[local] Arguments fmt : simpl never.
#[local] Arguments doc_path : simpl never.
#[local] Open Scope fetch_scope.

(** ** Requests and responses *)

Inductive Method : Type := Get | Head | Options | OtherMethod.

Record Response := mkResponse {
  rs_status : N;
  rs_body : bytes;
  rs_headers : list (string * string)
}.

Definition IMMUTABLE_CACHE : string := "public, max-age=31536000, immutable".

Definition SHORT_CACHE : string := "no-cache".

Definition VERIFY_GROUP_PREFIX : string := "/verify/group/".

Definition quote : string := String (Ascii.ascii_of_byte x22) "".

Definition backslash : string := String (Ascii.ascii_of_byte x5c) "".

Definition header (name value : string) : string * string := (name, value).

Definition cors_preflight : Response :=
  mkResponse 204 [] [header "Access-Control-Allow-Origin" "*"; header "Access-Control-Allow-Methods" "GET, OPTIONS";
    header "Access-Control-Allow-Headers" "*"; header "Access-Control-Max-Age" "86400"].

Definition respond_json (status : N) (body : bytes) : Response :=
  mkResponse status body [header "Content-Type" "application/json"; header "Access-Control-Allow-Origin" "*";
    header "Cache-Control" SHORT_CACHE].

(** A JSON object with the one field [error]. *)
Definition error_body (message : string) : bytes :=
  as_bytes (fmt ["{"; quote; "error"; quote; ":"; quote; message; quote; "}"]).

(** The message is embedded as it is. *)
Definition respond_status (status : N) (message : string) : Response :=
  mkResponse status (error_body message) [header "Content-Type" "application/json"].

(** [str::ends_with]. *)
Definition ends_with_bytes (s suffix : bytes) : bool :=
  bool_decide (drop (length s - length suffix) s = suffix) && (length suffix <=? length s).

Definition cache_control_for (path : string) : string :=
  if ends_with_bytes (as_bytes path) (as_bytes "/latest.json") || ends_with_bytes (as_bytes path) (as_bytes "/index.json")
  then SHORT_CACHE else IMMUTABLE_CACHE.

(** ** Percent-decoding *)

Definition hex_nibble (b : byte) : option N :=
  if in_range b 0x30 0x39 then Some (N_of_byte b - 0x30)%N
  else if in_range b 0x61 0x66 then Some (N_of_byte b - 0x61 + 10)%N
  else if in_range b 0x41 0x46 then Some (N_of_byte b - 0x41 + 10)%N
  else None.

(** A per-cent sign with two bytes after it that are hex digits is an escape; any other
    byte stands for itself. *)
Fixpoint unescape (b : bytes) : bytes :=
  match b with
  | [] => []
  | x :: b1 =>
      match b1 with
      | h :: l :: b3 =>
          if bool_decide (x = x25) then
            match hex_nibble h, hex_nibble l with
            | Some hv, Some lv => byte_of_N (hv * 16 + lv) :: unescape b3
            | _, _ => x :: unescape b1
            end
          else x :: unescape b1
      | _ => x :: unescape b1
      end
  end.

Definition percent_decode (s : string) : string := of_bytes (from_utf8_lossy (unescape (as_bytes s))).

(** The three [replace] calls (backslash, double quote, line feed), byte by byte: no
    replacement introduces a byte a later one replaces. *)
Definition escape_byte (x : byte) : bytes :=
  if bool_decide (x = x5c) then [x5c; x5c]
  else if bool_decide (x = x22) then [x5c; x22]
  else if bool_decide (x = x0a) then [x20] else [x].

Definition escape (s : string) : string := of_bytes (flat_map escape_byte (as_bytes s)).

(** ** Static files *)

Definition segments (rel : bytes) : list bytes := split_on x2f rel.

Definition plain_segment (seg : bytes) : bool := negb (bool_decide (seg = [])) && negb (bool_decide (seg = [x2e])).

(** [fs::read(root.join(rel))] on a directory of regular files: repeated slashes and single
    dots do not count, a path that ends in one names no file. *)
Definition read_file (root : Artifacts) (rel : bytes) : option bytes :=
  match last (segments rel) with
  | Some seg => if plain_segment seg
                then root !! String.concat "/" (map of_bytes (List.filter plain_segment (segments rel)))
                else None
  | None => None
  end.

Section Handler.
Context (host : Host) (proxy_new : string -> Result unit string).
Context `{!SerdeJson PublicKeyDoc, !SerdeJson Sth, !SerdeJson (list Entry), !SerdeJson InclusionProof}.
Context `{Sha256} `{Hex} `{Ed25519} `{!SerdeJson CommitLog.CommitLeaf}.
Context `{!SerdeJson (Group.GroupReport (JsonError (A:=CommitLog.CommitLeaf)))}.
(** The text an error prints. *)
Context (serve_error_display : ServeError -> string).

Definition handle_verify_group (base_url encoded_id : string) : Fetch Response :=
  let id := percent_decode encoded_id in
  if bool_decide (id = "") then fret (respond_json 400 (error_body "missing group id"))
  else
    let> r := verify_group host proxy_new base_url id in
    fret match r with
         | Ok report =>
             match to_vec report with
             | Ok body => respond_json 200 body
             | Err e => respond_json 500 (error_body (fmt ["failed to serialize report: "; escape (json_error_display e)]))
             end
         | Err e => respond_json 502 (error_body (escape (serve_error_display e)))
         end.

Definition handle_request (root : Artifacts) (base_url : string) (method : Method) (url : string) : Fetch Response :=
  let path := split_first x3f url in
  match method with
  | Options => fret cors_preflight
  | _ =>
      match strip_prefix_bytes (as_bytes VERIFY_GROUP_PREFIX) (as_bytes path) with
      | Some encoded =>
          match method with
          | Get => handle_verify_group base_url (of_bytes encoded)
          | _ => fret (respond_status 405 "method not allowed")
          end
      | None =>
          match method with
          | Get | Head =>
              let rel := drop_slashes (as_bytes path) in
              if bool_decide (rel = []) || bool_decide ([x2e; x2e] ∈ segments rel)
              then fret (respond_status 404 "not found")
              else match read_file root rel with
                   | None => fret (respond_status 404 "not found")
                   | Some body => fret (mkResponse 200 body [header "Content-Type" "application/json";
                       header "Cache-Control" (cache_control_for path)])
                   end
          | _ => fret (respond_status 405 "method not allowed")
          end
      end
  end.
End Handler.

(** ** Decoding ids *)

Section Decoding.

(** Every byte as an escape. *)
Definition escape_all (b : bytes) : bytes :=
  flat_map (fun x => [x25; LowerHex.hex_digit (N.shiftr (N_of_byte x) 4); LowerHex.hex_digit (N.land (N_of_byte x) 15)]) b.

Lemma unescape_digits (x : byte) :
  hex_nibble (LowerHex.hex_digit (N.shiftr (N_of_byte x) 4)) = Some (N.shiftr (N_of_byte x) 4) /\
  hex_nibble (LowerHex.hex_digit (N.land (N_of_byte x) 15)) = Some (N.land (N_of_byte x) 15) /\
  byte_of_N (N.shiftr (N_of_byte x) 4 * 16 + N.land (N_of_byte x) 15) = x.
Proof. destruct x; vm_compute; done. Qed.

Lemma unescape_escape_all b : unescape (escape_all b) = b.
Proof.
  induction b as [|x b IH]; [done|]. cbn [escape_all flat_map app unescape]. rewrite bool_decide_eq_true_2 by done.
  destruct (unescape_digits x) as (-> & -> & ->). f_equal. exact IH.
Qed.

(** Decoding an id.  Whatever the request path holds, the decoded id is well-formed
    UTF-8, as Rust's strings must be; text without escapes is unchanged, and every id,
    including one with slashes, question marks or per-cent signs, is the decoding of some
    path segment, so no conversation is out of the endpoint's reach. *)
Theorem percent_decode_spec (s : string) :
  utf8_valid (as_bytes (percent_decode s)) = true /\
  (utf8_valid (as_bytes s) = true -> x25 ∉ as_bytes s -> percent_decode s = s) /\
  (utf8_valid (as_bytes s) = true -> percent_decode (of_bytes (escape_all (as_bytes s))) = s).
Proof.
  unfold percent_decode. split_and!.
  - rewrite as_bytes_of_bytes. apply from_utf8_lossy_valid.
  - intros Hv Hp. assert (unescape (as_bytes s) = as_bytes s) as ->.
    { clear Hv. induction (as_bytes s) as [|x b IH]; [done|]. rewrite not_elem_of_cons in Hp. destruct Hp as [Hx Hp].
      cbn [unescape]. rewrite IH by done. destruct b as [|h [|l b3]]; [done..|]. by rewrite bool_decide_eq_false_2. }
    by rewrite from_utf8_lossy_id, of_bytes_as_bytes.
  - intros Hv. by rewrite as_bytes_of_bytes, unescape_escape_all, from_utf8_lossy_id, of_bytes_as_bytes.
Qed.
End Decoding.

(** ** The server is a host of its directory *)

Section Segments.

(** A path segment the server takes as it is. *)
Definition good_segment (s : string) : Prop :=
  Forall (fun x => x <> x2f /\ x <> x3f) (as_bytes s) /\ Exists (fun x => x <> x2e) (as_bytes s).

Lemma good_segment_free s : good_segment s -> x2f ∉ as_bytes s.
Proof. intros [Hf _] Hin. rewrite Forall_forall in Hf. by destruct (Hf _ Hin). Qed.

Lemma good_segment_plain s : good_segment s -> plain_segment (as_bytes s) = true /\ as_bytes s <> [x2e; x2e].
Proof.
  intros [_ He]. unfold plain_segment. assert (as_bytes s <> [] /\ as_bytes s <> [x2e] /\ as_bytes s <> [x2e; x2e]) as (? & ? & ?).
  { split_and!; intros E; rewrite E in He; rewrite ?Exists_cons, ?Exists_nil in He; tauto. }
  by rewrite !bool_decide_eq_false_2.
Qed.

Lemma concat_cons s ss : ss <> [] -> String.concat "/" (s :: ss) = s +:+ "/" +:+ String.concat "/" ss.
Proof. by destruct ss. Qed.

(** Splitting a joined path gives its segments back. *)
Lemma segments_concat ss : ss <> [] -> Forall good_segment ss -> segments (as_bytes (String.concat "/" ss)) = map as_bytes ss.
Proof.
  intros Hne Hg. induction Hg as [|s ss Hs Hg IH]; [done|]. destruct ss as [|s' ss].
  - apply split_on_free, good_segment_free, Hs.
  - rewrite concat_cons by done. rewrite !as_bytes_append. change (as_bytes "/") with [x2f]. cbn [app].
    unfold segments. rewrite split_on_app by by apply good_segment_free. cbn [map]. f_equal. by apply IH.
Qed.

Lemma map_of_as_bytes ss : map of_bytes (map as_bytes ss) = ss.
Proof. induction ss as [|s ss IH]; [done|]. simpl. by rewrite of_bytes_as_bytes, IH. Qed.

Lemma read_good_path root ss : ss <> [] -> Forall good_segment ss ->
  read_file root (as_bytes (String.concat "/" ss)) = root !! String.concat "/" ss.
Proof.
  intros Hne Hg. unfold read_file. rewrite segments_concat by done.
  assert (List.filter plain_segment (map as_bytes ss) = map as_bytes ss) as ->.
  { clear Hne. induction Hg as [|s ss Hs _ IH]; [done|]. simpl. destruct (good_segment_plain s Hs) as [-> _]. by rewrite IH. }
  rewrite map_of_as_bytes. destruct (last (map as_bytes ss)) as [seg|] eqn:El.
  - assert (plain_segment seg = true) as ->; [|done]. apply last_Some in El as [l' El].
    assert (seg ∈ map as_bytes ss) as (s & -> & Hs)%list_elem_of_fmap by (rewrite El; set_solver).
    rewrite Forall_forall in Hg. by destruct (good_segment_plain s (Hg s Hs)).
  - apply last_None in El. by destruct ss.
Qed.

Lemma good_no_query ss : Forall good_segment ss -> x3f ∉ as_bytes (String.concat "/" ss).
Proof.
  induction 1 as [|s ss Hs Hg IH]; [by intros ?%elem_of_nil|].
  assert (x3f ∉ as_bytes s) as Hf. { destruct Hs as [Hf _]. intros Hin. rewrite Forall_forall in Hf. by destruct (Hf _ Hin). }
  destruct ss as [|s' ss]; [done|]. rewrite concat_cons, !as_bytes_append, !not_elem_of_app by done. set_solver.
Qed.

(** *** The segments of a document path *)

Definition doc_segments (d : Doc) : list string :=
  match d with
  | DPublicKey => ["public_key.json"]
  | DIndex => ["index.json"]
  | DLatest => ["sth"; "latest.json"]
  | DSth n => ["sth"; pretty n +:+ ".json"]
  | DEntries => ["entries.json"]
  | DEntry i => ["entries"; pretty i +:+ ".json"]
  | DInclusion n i => ["proof"; "inclusion"; pretty n; pretty i +:+ ".json"]
  | DConsistency m n => ["proof"; "consistency"; pretty m +:+ "-" +:+ pretty n +:+ ".json"]
  end.

Definition prefix_segments (k : Place) : list string :=
  match k with Commit => ["v1"] | Accounts => ["v1"; "account-keys"] | Binary => ["v1"; "binaries"] end.

Lemma doc_path_segments k d : doc_path (tree_prefix k) d = String.concat "/" (prefix_segments k ++ doc_segments d).
Proof. destruct k, d; unfold doc_path, fmt; cbn -[pretty]; rewrite ?append_cons, ?append_nil; reflexivity. Qed.

Lemma good_append s t : good_segment s -> Forall (fun x => x <> x2f /\ x <> x3f) (as_bytes t) -> good_segment (s +:+ t).
Proof. intros [Hf He] Ht. split; rewrite as_bytes_append; [by apply Forall_app|]. apply Exists_app. by left. Qed.

Lemma good_pretty (n : N) : good_segment (pretty n).
Proof.
  split.
  - eapply Forall_impl; [apply pretty_digits|]. simpl. intros x Hd. split; intros ->; discriminate Hd.
  - destruct (parse_magnitude_pretty n) as (d & rest & -> & Hd & _). apply Exists_cons_hd. intros ->. discriminate Hd.
Qed.

Lemma safe_literal s : forallb (fun x => negb (bool_decide (x = x2f)) && negb (bool_decide (x = x3f))) (as_bytes s) = true ->
  Forall (fun x => x <> x2f /\ x <> x3f) (as_bytes s).
Proof. rewrite forallb_Forall. intros Hf. eapply Forall_impl; [exact Hf|]. simpl. intros x. rewrite andb_true_iff, !negb_true_iff, !bool_decide_eq_false. done. Qed.

Lemma good_literal s : forallb (fun x => negb (bool_decide (x = x2f)) && negb (bool_decide (x = x3f))) (as_bytes s) = true ->
  existsb (fun x => negb (bool_decide (x = x2e))) (as_bytes s) = true -> good_segment s.
Proof.
  intros Hf He. split; [by apply safe_literal|]. apply existsb_exists in He as (x & Hx%list_elem_of_In & Hd).
  apply Exists_exists. exists x. split; [done|]. by apply negb_true_iff, bool_decide_eq_false in Hd.
Qed.

Lemma doc_segments_good k d : Forall good_segment (prefix_segments k ++ doc_segments d).
Proof.
  apply Forall_app. split; [destruct k; repeat apply Forall_cons_2; try apply Forall_nil_2; apply good_literal; reflexivity|].
  destruct d; repeat apply Forall_cons_2; try apply Forall_nil_2; try (apply good_literal; reflexivity); try apply good_pretty;
    (apply good_append; [apply good_pretty|]); rewrite ?as_bytes_append; rewrite ?Forall_app; split_and?;
    try (apply safe_literal; reflexivity); apply good_pretty.
Qed.

(** How the handlers see the URL of a document. *)
Lemma doc_request k d : let p := doc_path (tree_prefix k) d in
  split_first x3f ("/" +:+ p) = "/" +:+ p /\
  strip_prefix_bytes (as_bytes VERIFY_GROUP_PREFIX) (as_bytes ("/" +:+ p)) = None /\
  drop_slashes (as_bytes ("/" +:+ p)) = as_bytes p /\ as_bytes p <> [] /\ [x2e; x2e] ∉ segments (as_bytes p) /\
  forall root, read_file root (as_bytes p) = root !! p.
Proof.
  intros p. pose proof (doc_segments_good k d) as Hg. pose proof (doc_path_segments k d) as Hd.
  assert (prefix_segments k ++ doc_segments d <> []) as Hne by by destruct k.
  set (ss := prefix_segments k ++ doc_segments d) in *. fold p in Hd.
  assert (exists rest, as_bytes p = as_bytes "v1" ++ rest) as [rest Hr].
  { unfold p. destruct (doc_path_step (tree_prefix k) d) as [r ->]. rewrite as_bytes_append.
    destruct k; [exists (as_bytes r)|exists (as_bytes "/account-keys" ++ as_bytes r)|exists (as_bytes "/binaries" ++ as_bytes r)]; done. }
  split_and!.
  - unfold split_first. rewrite take_until_free; [apply of_bytes_as_bytes|]. rewrite Hd.
    rewrite as_bytes_append, not_elem_of_app. split; [set_solver|by apply good_no_query].
  - by rewrite as_bytes_append, Hr.
  - by rewrite as_bytes_append, Hr.
  - by rewrite Hr.
  - rewrite Hd, segments_concat by done. intros (s & E & Hs)%list_elem_of_fmap.
    rewrite Forall_forall in Hg. by destruct (good_segment_plain s (Hg s Hs)).
  - intros root. rewrite Hd. by apply read_good_path.
Qed.
End Segments.

Section Serving.
Context (inner : Host) (proxy_new : string -> Result unit string).
Context `{!SerdeJson PublicKeyDoc, !SerdeJson Sth, !SerdeJson (list Entry), !SerdeJson InclusionProof}.
Context `{Sha256} `{Hex} `{Ed25519} `{!SerdeJson CommitLog.CommitLeaf}.
Context `{!SerdeJson (Group.GroupReport (JsonError (A:=CommitLog.CommitLeaf)))} (serve_error_display : ServeError -> string).

(** What a client's GET sees of a response. *)
Definition answer_of (r : Response) : Answer :=
  if (rs_status r <? 400)%N then Page (rs_body r) else ErrorStatus (rs_status r) "".

(** The server on [root] as a host ([inner] is what its own verify endpoint fetches from). *)
Definition dev_host (base : string) (root : Artifacts) : Host := fun t agent url =>
  match strip_base base url with
  | Some path => answer_of (handle_request inner proxy_new serve_error_display root base Get path t).2
  | None => Unreachable "no such host"
  end.

(** The server answers each document path from its file. *)
Lemma dev_server_serves base root : serves (dev_host base root) base root.
Proof.
  intros t agent prefix d Hp. assert (exists k, prefix = tree_prefix k) as [k ->].
  { rewrite !elem_of_cons in Hp. destruct Hp as [->|[->|[->|[]%elem_of_nil]]];
      [by exists Commit|by exists Accounts|by exists Binary]. }
  destruct (doc_request k d) as (Hq & Hv & Hs & Hne & Hdd & Hrd). unfold dev_host.
  change (fmt [base; "/"; doc_path (tree_prefix k) d]) with (base +:+ "/" +:+ doc_path (tree_prefix k) d).
  rewrite strip_base_append. unfold handle_request. rewrite Hq, Hv, Hs, !bool_decide_eq_false_2 by done. cbn [orb].
  rewrite Hrd. destruct (root !! _); cbn; eauto.
Qed.
End Serving.

(** ** Evaluation *)

Section Concrete.
Import WireJson.

#[local] Definition dev_key : SigningKey := ClearSig.repeat_seed Byte.x03.

#[local] Definition log_of_rows (rows : list CommitRow) (ts : N) : Bundle :=
  match build_bundle rows dev_key ts with Ok b => b | Err _ => mkBundle "" [] [] [] [] [] end.

#[local] Definition today : Bundle := log_of_rows [mkCommitRow 1 "dm" 0 "al" "0"] 5.

#[local] Definition tomorrow : Bundle := log_of_rows [mkCommitRow 1 "dm" 0 "al" "0"; mkCommitRow 2 "dm" 1 "bo" "1"] 9.

(** Documents served as immutable for a year that the next publish of a longer log rewrites:
    the list of entries, the head at a size that becomes the new midpoint (signed again at
    the new time), and every precomputed account or release report. *)
Example immutable_documents_move :
  cache_control_for "/v1/entries.json" = IMMUTABLE_CACHE /\ cache_control_for "/v1/sth/1.json" = IMMUTABLE_CACHE /\
  cache_control_for "/verify/account/al" = IMMUTABLE_CACHE /\
  bool_decide (commit_site today !! "v1/entries.json" = commit_site tomorrow !! "v1/entries.json") = false /\
  bool_decide (commit_site today !! "v1/sth/1.json" = commit_site tomorrow !! "v1/sth/1.json") = false /\
  map (fun s => (tree_size s, timestamp s)) (sths today) = [(1, 5)]%N /\
  map (fun s => (tree_size s, timestamp s)) (sths tomorrow) = [(1, 9); (2, 9)]%N.
Proof. split_and!; vm_compute; reflexivity. Qed.

#[local] Definition tree_of (b : Bundle) : Artifacts := commit_site b.

(** The routes: a document, a traversal attempt, a forbidden method, a preflight and an
    empty group id. *)
Example dev_routes :
  let run m url := rs_status (handle_request (fun _ _ _ => Unreachable "") (fun _ => Ok tt) (fun _ => "") (tree_of today) "http://h" m url []).2 in
  map (run Get) ["/v1/index.json?x=1"; "//v1//./index.json"; "/v1/index.json/"; "/v1/../v1/index.json"; "/"; "/verify/group/"; "/verify/group/dm"] =
    [200; 200; 404; 404; 404; 400; 502]%N /\
  run OtherMethod "/v1/index.json" = 405%N /\ run Options "/anything" = 204%N /\
  map percent_decode ["conv-a"; "group%20one"; "a%2Fb"; "100%"; "%zz"] = ["conv-a"; "group one"; "a/b"; "100%"; "%zz"].
Proof. vm_compute. done. Qed.

#[local] Definition dev_record : Binaries.BinaryRecord :=
  Binaries.mkBinaryRecord "v1" "c" "mac" "arm" "dmg" "a" Binaries.Payload "ps" "ps" (Binaries.mkToolchain "1" "2" "3" "4" 5) "u".

(** End to end on the development server: built, generated, served and audited. *)
Example dev_server_audited :
  exists b2 b3, build_account_bundle [mkAccountKeyRow 1 "al" 1 "0"] dev_key 9 = Ok b2 /\
    build_binaries_bundle [dev_record] dev_key 9 = Ok b3 /\
    forall inner proxy_new display t,
      (run_verify_remote (dev_host inner proxy_new display "http://127.0.0.1:8787" (whole_site tomorrow b2 b3))
         "http://127.0.0.1:8787/" t).2 = Ok true.
Proof.
  destruct (build_account_bundle [mkAccountKeyRow 1 "al" 1 "0"] dev_key 9) as [b2|] eqn:E2; [|vm_compute in E2; discriminate E2].
  destruct (build_binaries_bundle [dev_record] dev_key 9) as [b3|] eqn:E3; [|vm_compute in E3; discriminate E3].
  exists b2, b3. split; [done|]. split; [done|]. intros inner proxy_new display t.
  eapply (generated_site_passes _ _ [mkCommitRow 1 "dm" 0 "al" "0"; mkCommitRow 2 "dm" 1 "bo" "1"] _ _ dev_key _ _ 9 _ _ tomorrow b2 b3
    (compact_of tomorrow) (compact_of b2) (compact_of b3)); [vm_compute; reflexivity|exact E2|exact E3|apply from_slice_raw..| |].
  - apply run_generate_ok; apply from_slice_raw.
  - apply dev_server_serves.
Qed.
End Concrete.
