(* ===== verification/Live.v ===== *)
(** * verifiable-log-serve: the live server

    Models [live.rs]: the cached bundle with its artifacts, [is_fresh], [rebuild],
    [ensure_fresh] and the request handler over it, and the interleavings of worker threads
    inside [ensure_fresh]: the fast check, the single-flight lock, the second check, the
    pull and the swap are separate steps of any number of threads, with a clock that only
    moves forward.  What a pull reads from the database (rows, or an error) is chosen by
    the environment at each pull.

    [live_single_flight] bounds the pulls; [live_answers] says what is served.
    [failed_rebuilds_unbounded] shows the case the bound leaves out. *)

From stdpp Require Import base list strings gmap pretty relations.
From Stdlib Require Import NArith ZArith Lia ZifyNat ZifyN.
From Stdlib Require Import Strings.Byte.
From S2P Require Import Prelude Crypto Merkle Log Tenants Monitor Builder Verifiers Release Text Fetch Wire Layout Remote Site Server.

#[local] Arguments fmt : simpl never.

Record Cache := mkCache { ca_bundle : Bundle; ca_artifacts : Artifacts; ca_built_at : N }.

Section Live.
Context `{SerdePretty PublicKeyDoc} `{SerdePretty Sth} `{SerdePretty (list Entry)} `{SerdePretty Entry}.
Context `{SerdePretty InclusionProof} `{SerdePretty ConsistencyProof} `{SerdePretty Manifest}.
Context `{Sha256} `{Hex} `{Ed25519} `{!SerdeJson CommitLog.CommitLeaf} `{!SerdeJson Bundle}.
Context `{!SerdeJson (Group.GroupReport (JsonError (A:=CommitLog.CommitLeaf)))}.
Context (builder_error_display : BuilderError (JsonError (A:=CommitLog.CommitLeaf)) -> string).

(** The signing key and the time to live, in nanoseconds. *)
Context (signing_key : SigningKey) (ttl : N).

(** [Instant::elapsed] saturates at zero. *)
Definition is_fresh (now : N) (c : Cache) : bool := negb (ttl =? 0)%N && (now - ca_built_at c <? ttl)%N.

Definition json_err {A} `{!SerdeJson A} (e : JsonError (A:=A)) : ServeError := SeJson (json_error_display e).

(** [pull] is what the database read gave, [ts] the wall clock in milliseconds for the head,
    [now] the instant the cache is put together. *)
Definition rebuild (pull : Result (list CommitRow) string) (ts now : N) : Result Cache ServeError :=
  let? rows := map_err SeBuilder pull in
  let? b := map_err (fun e => SeBuilder (builder_error_display e)) (build_bundle rows signing_key ts) in
  let? raw := map_err json_err (to_vec b) in
  let? b := map_err json_err (from_slice raw) in
  let? ma := generate_artifacts b in
  Ok (mkCache b ma.2 now).

(** [Shared]: the cache and the count of pulls (the lock is a thread's phase below). *)
Record Shared := mkShared { sh_cache : option Cache; sh_rebuild_count : N }.

Definition fresh_cache (now : N) (s : Shared) : option Cache :=
  match sh_cache s with Some c => if is_fresh now c then Some c else None | None => None end.

(** The end of a rebuild: swap in the new cache, or fall back to the last good one. *)
Definition finish_rebuild (res : Result Cache ServeError) (s : Shared) : Shared * Result Cache ServeError :=
  match res with
  | Ok c => (mkShared (Some c) (sh_rebuild_count s), Ok c)
  | Err e => (s, match sh_cache s with Some c => Ok c | None => Err e end)
  end.

(** [ensure_fresh] run alone: [now1] and [now2] are the instants of the two checks. *)
Definition ensure_fresh (now1 now2 : N) (pull : Result (list CommitRow) string) (ts now3 : N) (s : Shared)
    : Shared * Result Cache ServeError :=
  match fresh_cache now1 s with
  | Some c => (s, Ok c)
  | None =>
      match fresh_cache now2 s with
      | Some c => (s, Ok c)
      | None => finish_rebuild (rebuild pull ts now3) (mkShared (sh_cache s) (sh_rebuild_count s + 1))
      end
  end.

(** ** Request handling on the result of [ensure_fresh] *)

Section Handler.
Context (serve_error_display : ServeError -> string).

Definition verify_group_response (encoded_id : string) (fresh : Result Cache ServeError) : Response :=
  let id := percent_decode encoded_id in
  if bool_decide (id = "") then respond_json 400 (error_body "missing group id")
  else match fresh with
       | Err e => respond_json 503 (error_body (fmt ["log unavailable: "; escape (serve_error_display e)]))
       | Ok c =>
           match to_vec (Group.verify_group_in_bundle (ca_bundle c) id) with
           | Ok body => respond_json 200 body
           | Err e => respond_json 500 (error_body (fmt ["failed to serialize report: "; escape (json_error_display e)]))
           end
       end.

(** The handler; [fresh] is what [ensure_fresh] returns on the paths that call it. *)
Definition live_response (method : Method) (url : string) (fresh : Result Cache ServeError) : Response :=
  let path := split_first x3f url in
  match method with
  | Options => cors_preflight
  | _ =>
      match strip_prefix_bytes (as_bytes VERIFY_GROUP_PREFIX) (as_bytes path) with
      | Some encoded =>
          match method with
          | Get => verify_group_response (of_bytes encoded) fresh
          | _ => respond_status 405 "method not allowed"
          end
      | None =>
          match method with
          | Get | Head =>
              let rel := drop_slashes (as_bytes path) in
              if bool_decide (rel = []) then respond_status 404 "not found"
              else match fresh with
                   | Err e => respond_status 503 (fmt ["log unavailable: "; serve_error_display e])
                   | Ok c =>
                       match ca_artifacts c !! of_bytes rel with
                       | None => respond_status 404 "not found"
                       | Some body => mkResponse 200 body [header "Content-Type" "application/json";
                           header "Cache-Control" (cache_control_for path)]
                       end
                   end
          | _ => respond_status 405 "method not allowed"
          end
      end
  end.

End Handler.

(** ** Interleaved worker threads *)

Inductive Phase : Type :=
| Arrived
| Waiting
| Holding
| Pulling
| Swapping (res : Result Cache ServeError)
| Returned (r : Result Cache ServeError).

(** What happened to the database, in order. *)
Inductive Event : Type :=
| Pulled (start : N)
| Built (c : Cache)
| Failed.

Record System := mkSystem {
  sy_clock : N;
  sy_shared : Shared;
  sy_threads : list Phase;
  sy_history : list Event
}.

(** The phases inside the rebuild lock. *)
Definition in_flight (p : Phase) : bool :=
  match p with Holding | Pulling | Swapping _ => true | Arrived | Waiting | Returned _ => false end.

Definition locked (ts : list Phase) : Prop := exists i p, ts !! i = Some p /\ in_flight p = true.

Inductive step : System -> System -> Prop :=
| step_tick clock clock' s ts h : (clock <= clock')%N ->
    step (mkSystem clock s ts h) (mkSystem clock' s ts h)
| step_arrive clock s ts h :
    step (mkSystem clock s ts h) (mkSystem clock s (ts ++ [Arrived]) h)
| step_check clock s ts h i : ts !! i = Some Arrived ->
    step (mkSystem clock s ts h)
      (mkSystem clock s (<[i := match fresh_cache clock s with Some c => Returned (Ok c) | None => Waiting end]> ts) h)
| step_lock clock s ts h i : ts !! i = Some Waiting -> ~ locked ts ->
    step (mkSystem clock s ts h) (mkSystem clock s (<[i := Holding]> ts) h)
| step_recheck_fresh clock s ts h i c : ts !! i = Some Holding -> fresh_cache clock s = Some c ->
    step (mkSystem clock s ts h) (mkSystem clock s (<[i := Returned (Ok c)]> ts) h)
| step_pull clock s ts h i : ts !! i = Some Holding -> fresh_cache clock s = None ->
    step (mkSystem clock s ts h)
      (mkSystem clock (mkShared (sh_cache s) (sh_rebuild_count s + 1)) (<[i := Pulling]> ts) (h ++ [Pulled clock]))
| step_built clock s ts h i pull wall : ts !! i = Some Pulling ->
    let res := rebuild pull wall clock in
    step (mkSystem clock s ts h)
      (mkSystem clock s (<[i := Swapping res]> ts) (h ++ [match res with Ok c => Built c | Err _ => Failed end]))
| step_swap clock s ts h i res : ts !! i = Some (Swapping res) ->
    step (mkSystem clock s ts h)
      (mkSystem clock (finish_rebuild res s).1 (<[i := Returned (finish_rebuild res s).2]> ts) h).

(** A cold server, no request yet. *)
Definition cold (clock : N) : System := mkSystem clock (mkShared None 0) [] [].
(** ** The invariant

    A history is read as a paced sequence of flights: each pull starts when no other is
    open and, if a cache was built before, not before that cache has outlived the TTL. *)

(** How many pulls were started, and how many flights ended without a cache. *)
Definition pulls (h : list Event) : nat := length (List.filter (fun e => match e with Pulled _ => true | _ => false end) h).
Definition failures (h : list Event) : nat := length (List.filter (fun e => match e with Failed => true | _ => false end) h).
#[local] Arguments pulls : simpl never.
#[local] Arguments failures : simpl never.

(** [paced t0 h c open last]: [c] is the last cache built, [open] says whether a pull has
    started and not ended, [last] the instant of the last event that carries one. *)
Inductive paced (t0 : N) : list Event -> option Cache -> bool -> N -> Prop :=
| paced_nil : paced t0 [] None false t0
| paced_pull h c last s : paced t0 h c false last -> (last <= s)%N ->
    (forall c0, c = Some c0 -> ttl = 0%N \/ (ca_built_at c0 + ttl <= s)%N) ->
    paced t0 (h ++ [Pulled s]) c true s
| paced_built h c c' last pull wall : paced t0 h c true last -> (last <= ca_built_at c')%N ->
    rebuild pull wall (ca_built_at c') = Ok c' ->
    paced t0 (h ++ [Built c']) (Some c') false (ca_built_at c')
| paced_failed h c last : paced t0 h c true last -> paced t0 (h ++ [Failed]) c false last.

Definition holder_ok (p : Phase) (h : list Event) (cached built : option Cache) (open : bool) : Prop :=
  match p with
  | Holding => open = false /\ cached = built
  | Pulling => open = true /\ cached = built
  | Swapping (Ok c) => open = false /\ built = Some c /\ last h = Some (Built c)
  | Swapping (Err _) => open = false /\ cached = built /\ last h = Some Failed
  | _ => False
  end.

(** The thread inside the lock explains how far the history is ahead of the cache. *)
Definition flight_ok (ts : list Phase) (h : list Event) (cached built : option Cache) (open : bool) : Prop :=
  (~ locked ts /\ open = false /\ cached = built) \/
  (exists i p, ts !! i = Some p /\ in_flight p = true /\ (forall j q, ts !! j = Some q -> in_flight q = true -> j = i) /\
   holder_ok p h cached built open).

Record live_inv (t0 : N) (sy : System) : Prop := {
  li_paced : exists built open l, paced t0 (sy_history sy) built open l /\ (l <= sy_clock sy)%N /\
    flight_ok (sy_threads sy) (sy_history sy) (sh_cache (sy_shared sy)) built open;
  li_cached : forall c, sh_cache (sy_shared sy) = Some c -> Built c ∈ sy_history sy;
  li_count : sh_rebuild_count (sy_shared sy) = N.of_nat (pulls (sy_history sy));
  li_answers : forall i c, sy_threads sy !! i = Some (Returned (Ok c)) -> Built c ∈ sy_history sy
}.

Lemma pulls_snoc h e : pulls (h ++ [e]) = pulls h + match e with Pulled _ => 1 | _ => 0 end.
Proof. unfold pulls. rewrite List.filter_app, length_app. by destruct e. Qed.

Lemma failures_snoc h e : failures (h ++ [e]) = failures h + match e with Failed => 1 | _ => 0 end.
Proof. unfold failures. rewrite List.filter_app, length_app. by destruct e. Qed.

Lemma rebuild_built_at pull wall now c : rebuild pull wall now = Ok c -> ca_built_at c = now.
Proof.
  unfold rebuild. intros Hr.
  repeat match type of Hr with context [let? _ := ?m in _] => destruct m; cbn in Hr; [|done] end.
  by simplify_eq.
Qed.

Lemma fresh_cache_some now s c : fresh_cache now s = Some c -> sh_cache s = Some c /\ is_fresh now c = true.
Proof. unfold fresh_cache. destruct (sh_cache s) as [c0|]; [destruct (is_fresh now c0) eqn:E|]; naive_solver. Qed.

Lemma fresh_cache_none now s : fresh_cache now s = None ->
  forall c, sh_cache s = Some c -> ttl = 0%N \/ (ca_built_at c + ttl <= now)%N.
Proof.
  unfold fresh_cache, is_fresh. intros Hn c Hc. rewrite Hc in Hn.
  destruct (N.eqb_spec ttl 0); [by left|right]. cbn in Hn.
  destruct (N.ltb_spec (now - ca_built_at c) ttl); [done|]. lia.
Qed.

(** A thread outside the lock that moves to another phase outside it. *)
Lemma flight_outside ts h cached built open i p p' :
  flight_ok ts h cached built open -> ts !! i = Some p -> in_flight p = false -> in_flight p' = false ->
  flight_ok (<[i := p']> ts) h cached built open.
Proof.
  intros Hf Hi Hp Hp'.
  assert (Hsame : forall j q, <[i := p']> ts !! j = Some q -> in_flight q = true -> ts !! j = Some q).
  { intros j q Hj Hq. destruct (decide (i = j)) as [->|Hne]; [|by rewrite list_lookup_insert_ne in Hj].
    rewrite list_lookup_insert_eq in Hj by (by eapply lookup_lt_Some). simplify_eq; congruence. }
  destruct Hf as [(Hl & Ho)|(k & q & Hk & Hq & Huni & Hm)].
  - left. split; [|done]. intros (j & q & Hj & Hq). apply Hl. exists j, q. eauto.
  - right. exists k, q. split; [|split; [done|split; [|done]]].
    + rewrite list_lookup_insert_ne; [done|]. intros ->. congruence.
    + intros j q' Hj Hq'. eauto.
Qed.

Lemma flight_arrive ts h cached built open :
  flight_ok ts h cached built open -> flight_ok (ts ++ [Arrived]) h cached built open.
Proof.
  intros Hf.
  assert (Hsame : forall j q, (ts ++ [Arrived]) !! j = Some q -> in_flight q = true -> ts !! j = Some q).
  { intros j q Hj Hq. apply lookup_app_Some in Hj as [Hj|[_ Hj]]; [done|].
    apply list_lookup_singleton_Some in Hj as [_ <-]. done. }
  destruct Hf as [(Hl & Ho)|(k & q & Hk & Hq & Huni & Hm)].
  - left. split; [|done]. intros (j & q & Hj & Hq). apply Hl. exists j, q. eauto.
  - right. exists k, q. split; [by apply lookup_app_l_Some|]. split; [done|]. split; [|done]. eauto.
Qed.

(** The thread inside the lock is the one the flight speaks of. *)
Lemma flight_of ts h cached built open i p :
  flight_ok ts h cached built open -> ts !! i = Some p -> in_flight p = true ->
  (forall j q, ts !! j = Some q -> in_flight q = true -> j = i) /\
  holder_ok p h cached built open.
Proof.
  intros [(Hl & _)|(k & q & Hk & Hq & Huni & Hm)] Hi Hp; [destruct Hl; by exists i, p|].
  assert (i = k) as -> by eauto. simplify_eq. done.
Qed.

Lemma unique_insert (ts : list Phase) i p' :
  (forall j q, ts !! j = Some q -> in_flight q = true -> j = i) ->
  forall j q, <[i := p']> ts !! j = Some q -> in_flight q = true -> j = i.
Proof.
  intros Hu j q Hj Hq. destruct (decide (i = j)); [done|]. rewrite list_lookup_insert_ne in Hj by done. eauto.
Qed.

(** The thread inside the lock leaves it. *)
Lemma flight_release (ts : list Phase) h i r built : i < length ts ->
  (forall j q, ts !! j = Some q -> in_flight q = true -> j = i) ->
  flight_ok (<[i := Returned r]> ts) h built built false.
Proof.
  intros Hi Hu. left. split; [|done]. intros (j & q & Hj & Hq).
  assert (j = i) as -> by (by eapply unique_insert). rewrite list_lookup_insert_eq in Hj by done. by simplify_eq.
Qed.

Lemma flight_stays (ts : list Phase) h cached built open i p : i < length ts ->
  (forall j q, ts !! j = Some q -> in_flight q = true -> j = i) -> in_flight p = true ->
  holder_ok p h cached built open ->
  flight_ok (<[i := p]> ts) h cached built open.
Proof.
  intros Hi Hu Hp Hm. right. exists i, p. rewrite list_lookup_insert_eq by done.
  split; [done|]. split; [done|]. split; [by apply unique_insert|done].
Qed.

Lemma answers_insert (ts : list Phase) (h h' : list Event) i p : (forall e, e ∈ h -> e ∈ h') ->
  (forall j c, ts !! j = Some (Returned (Ok c)) -> Built c ∈ h) ->
  (forall c, p = Returned (Ok c) -> Built c ∈ h') ->
  forall j c, <[i := p]> ts !! j = Some (Returned (Ok c)) -> Built c ∈ h'.
Proof.
  intros Hsub Hts Hp j c Hj. apply list_lookup_insert_Some in Hj as [(_ & Hj & _)|[_ Hj]]; eauto.
Qed.

Lemma live_inv_step t0 sy sy' : live_inv t0 sy -> step sy sy' -> live_inv t0 sy'.
Proof.
  intros [(built & open & l & Hpa & Hl & Hf) Hca Hco Han] Hst.
  destruct Hst as [clock clock' s ts h Hle|clock s ts h|clock s ts h i Hi|clock s ts h i Hi Hnl
    |clock s ts h i c Hi Hfr|clock s ts h i Hi Hfr|clock s ts h i pull wall Hi|clock s ts h i res Hi];
    cbn in *; try (pose proof (lookup_lt_Some _ _ _ Hi) as Hlt).
  - split; cbn; [exists built, open, l; split_and!; [done|lia|done]|done..].
  - split; cbn; [exists built, open, l; split_and!; [done..|by apply flight_arrive]|done..|].
    intros i c [Hj|[_ Hj]]%lookup_app_Some; [eauto|]. by apply list_lookup_singleton_Some in Hj as [_ ?].
  - assert (Hout : in_flight (match fresh_cache clock s with Some c => Returned (Ok c) | None => Waiting end) = false)
      by (by destruct (fresh_cache clock s)).
    split; cbn; [exists built, open, l; split_and!; [done..|by eapply flight_outside]|done..|].
    apply (answers_insert ts h); [done..|]. intros c. destruct (fresh_cache clock s) as [c0|] eqn:E; [|done].
    intros [= ->]. apply Hca. by apply fresh_cache_some in E as [].
  - split; cbn; [|done..|apply (answers_insert ts h); done].
    destruct Hf as [(_ & -> & ->)|(k & q & Hk & Hq & _)]; [|destruct Hnl; by exists k, q].
    exists built, false, l. split_and!; [done..|]. apply flight_stays; [done| |done..].
    intros j q Hj Hq. destruct Hnl. by exists j, q.
  - apply fresh_cache_some in Hfr as [Hc _].
    destruct (flight_of _ _ _ _ _ _ _ Hf Hi eq_refl) as (Hu & -> & <-).
    split; cbn; [|done..|apply (answers_insert ts h); [done..|by intros ? [= <-]; apply Hca]].
    eexists _, false, l. split_and!; [done..|]. by apply flight_release.
  - destruct (flight_of _ _ _ _ _ _ _ Hf Hi eq_refl) as (Hu & -> & <-).
    split; cbn.
    + eexists _, true, clock. split_and!; [|lia|by apply flight_stays].
      econstructor; [done|done|]. intros c0 Hc. by apply (fresh_cache_none _ _ Hfr).
    + intros c Hc. apply elem_of_app. left. eauto.
    + rewrite pulls_snoc, Hco. lia.
    + apply (answers_insert ts h); [set_solver|done..].
  - destruct (flight_of _ _ _ _ _ _ _ Hf Hi eq_refl) as (Hu & -> & <-).
    destruct (rebuild pull wall clock) as [c|e] eqn:Hr; split; cbn.
    all: try (intros c0 Hc0; apply elem_of_app; left; by eauto).
    all: try (rewrite pulls_snoc, Hco; cbn; lia).
    all: try (apply (answers_insert ts h); [set_solver|done..]).
    + pose proof (rebuild_built_at _ _ _ _ Hr) as Hb. rewrite <- Hb in Hr, Hl.
      exists (Some c), false, (ca_built_at c). split_and!; [by econstructor|lia|].
      apply flight_stays; [done..|]. cbn. by rewrite last_snoc.
    + eexists _, false, l. split_and!; [by econstructor|lia|].
      apply flight_stays; [done..|]. cbn. by rewrite last_snoc.
  - destruct (flight_of _ _ _ _ _ _ _ Hf Hi eq_refl) as (Hu & Hm).
    destruct res as [c|e]; cbn in Hm; destruct Hm as (-> & Hb & Hla).
    + assert (Hin : Built c ∈ h).
      { apply last_Some in Hla as [h' ->]. set_solver. }
      split; cbn; [|by intros ? [= <-]|done|apply (answers_insert ts h); [done..|by intros ? [= <-]]].
      exists built, false, l. rewrite <- Hb. split_and!; [done..|by apply flight_release].
    + split; cbn; [|done..|].
      * exists built, false, l. rewrite Hb. split_and!; [done..|by apply flight_release].
      * apply (answers_insert ts h); [done..|]. intros c. destruct (sh_cache s) as [c0|]; [|done].
        intros [= ->]. by apply Hca.
Qed.

Lemma live_inv_cold t0 : live_inv t0 (cold t0).
Proof.
  split; cbn; [|done..]. exists None, false, t0. split_and!; [constructor|lia|]. left.
  split; [|done]. intros (i & p & Hi & _). done.
Qed.

Lemma live_inv_reach t0 sy : rtc step (cold t0) sy -> live_inv t0 sy.
Proof.
  intros Hr. apply (rtc_ind_r (R:=step) (fun sy => live_inv t0 sy) (cold t0)); [apply live_inv_cold| |done].
  intros y z _ Hyz Hy. by eapply live_inv_step.
Qed.

(** Every finished flight that gave a cache has used up a TTL before the next one starts. *)
Lemma paced_bound t0 h c open l : paced t0 h c open l ->
  exists b : N, N.of_nat (pulls h) = (N.of_nat (failures h) + b + (if open then 1 else 0))%N /\ (t0 <= l)%N /\
    (if open then (ttl * (b + 1) + t0 <= l + ttl)%N else True) /\
    match c with None => b = 0%N | Some c0 => (ttl * b + t0 <= ca_built_at c0 + ttl)%N /\ (ca_built_at c0 <= l)%N end.
Proof.
  induction 1 as [|h c l s Hpa IH Hls Hc|h c c' l pull wall Hpa IH Hlc Hr|h c l Hpa IH].
  - exists 0%N. cbn. split_and!; done || lia.
  - destruct IH as (b & Hp & Ht & _ & Hm). exists b. rewrite pulls_snoc, failures_snoc.
    destruct c as [c0|]; [|subst b; split_and!; lia].
    destruct Hm as [Hm Hle]. destruct (Hc c0 eq_refl) as [->|Hd]; split_and!; lia.
  - destruct IH as (b & Hp & Ht & Ho & Hm). exists (b + 1)%N. rewrite pulls_snoc, failures_snoc. split_and!; done || lia.
  - destruct IH as (b & Hp & Ht & Ho & Hm). exists b. rewrite pulls_snoc, failures_snoc. split_and!; done || lia.
Qed.

(** The last cache built is the newest. *)
Lemma paced_newest t0 h c open l : paced t0 h c open l -> forall c1, Built c1 ∈ h ->
  exists c0, c = Some c0 /\ (ca_built_at c1 <= ca_built_at c0)%N /\ (ca_built_at c0 <= l)%N.
Proof.
  induction 1 as [|h c l s Hpa IH Hls Hc|h c c' l pull wall Hpa IH Hlc Hr|h c l Hpa IH]; intros c1 Hin; [by apply elem_of_nil in Hin|..];
    apply elem_of_app in Hin as [Hin|Hin%list_elem_of_singleton]; try (destruct (IH c1 Hin) as (c0 & Hc0 & H1' & H2')); try discriminate Hin.
  - exists c0. split_and!; done || lia.
  - exists c'. split_and!; done || lia.
  - injection Hin as ->. exists c'. split_and!; done || lia.
  - eauto.
Qed.

Lemma snoc_split (h h1 h2 : list Event) e s : h ++ [e] = h1 ++ Pulled s :: h2 ->
  (h1 = h /\ e = Pulled s) \/ exists h2', h2 = h2' ++ [e] /\ h = h1 ++ Pulled s :: h2'.
Proof.
  destruct h2 as [|x h2] using rev_ind; intros Heq.
  - apply app_inj_tail in Heq as [-> ->]. by left.
  - right. change (Pulled s :: h2 ++ [x]) with ((Pulled s :: h2) ++ [x]) in Heq. rewrite app_assoc in Heq.
    apply app_inj_tail in Heq as [-> ->]. eauto.
Qed.

Lemma paced_spacing t0 h c open l : paced t0 h c open l -> forall h1 s h2 c1, h = h1 ++ Pulled s :: h2 ->
  Built c1 ∈ h1 -> ttl = 0%N \/ (ca_built_at c1 + ttl <= s)%N.
Proof.
  induction 1 as [|h c l s' Hpa IH Hls Hc|h c c' l pull wall Hpa IH Hlc Hr|h c l Hpa IH]; intros h1 s h2 c1 Heq Hin;
    [by destruct h1|..]; apply snoc_split in Heq as [[-> Heq]|(h2' & -> & Heq)]; try discriminate Heq; try (by eapply IH).
  injection Heq as ->. destruct (paced_newest _ _ _ _ _ Hpa _ Hin) as (c0 & -> & ? & ?).
  destruct (Hc c0 eq_refl); [by left|right; lia].
Qed.

(** Single flight, for any number of worker threads and any interleaving of them from a
    cold start: at most one thread is inside the rebuild lock; the exported count is the
    number of database pulls; a pull never starts while a cache built earlier is younger
    than the TTL; and the pulls are bounded by one, plus one per TTL elapsed, plus one per
    rebuild that failed. *)
Theorem live_single_flight t0 sy : rtc step (cold t0) sy ->
  (forall i j p q, sy_threads sy !! i = Some p -> sy_threads sy !! j = Some q ->
     in_flight p = true -> in_flight q = true -> i = j) /\
  sh_rebuild_count (sy_shared sy) = N.of_nat (pulls (sy_history sy)) /\
  (forall h1 s h2 c, sy_history sy = h1 ++ Pulled s :: h2 -> Built c ∈ h1 -> ttl <> 0%N -> (ca_built_at c + ttl <= s)%N) /\
  (ttl * sh_rebuild_count (sy_shared sy) + t0 <= ttl * (N.of_nat (failures (sy_history sy)) + 1) + sy_clock sy)%N.
Proof.
  intros [(built & open & l & Hpa & Hl & Hf) _ Hco _]%live_inv_reach. split_and!.
  - intros i j p q Hi Hj Hp Hq. destruct (flight_of _ _ _ _ _ _ _ Hf Hi Hp) as [Hu _]. symmetry. eauto.
  - done.
  - intros h1 s h2 c Heq Hin Hz. by destruct (paced_spacing _ _ _ _ _ Hpa _ _ _ _ Heq Hin).
  - destruct (paced_bound _ _ _ _ _ Hpa) as (b & Hp & Ht & Ho & Hm). rewrite Hco, Hp.
    destruct open, built as [c0|]; lia.
Qed.

Lemma paced_built_from t0 h c open l : paced t0 h c open l -> forall c1, Built c1 ∈ h ->
  exists pull wall, rebuild pull wall (ca_built_at c1) = Ok c1.
Proof.
  induction 1 as [|h c l s Hpa IH Hls Hc|h c c' l pull wall Hpa IH Hlc Hr|h c l Hpa IH]; intros c1 Hin; [by apply elem_of_nil in Hin|..];
    apply elem_of_app in Hin as [Hin|Hin%list_elem_of_singleton]; try discriminate Hin; eauto.
  injection Hin as ->. eauto.
Qed.

(** A cache is the signed bundle of the rows read and the documents generated from it. *)
Lemma rebuild_ok `{!SerdeJsonLaws Bundle} pull wall now c : rebuild pull wall now = Ok c ->
  exists rows m, pull = Ok rows /\ build_bundle rows signing_key wall = Ok (ca_bundle c) /\
    generate_artifacts (ca_bundle c) = Ok (m, ca_artifacts c) /\ ca_built_at c = now.
Proof.
  unfold rebuild. intros Hr. destruct pull as [rows|]; cbn in Hr; [|done].
  destruct (build_bundle rows signing_key wall) as [b|] eqn:Hb; cbn in Hr; [|done].
  destruct (to_vec b) as [raw|] eqn:Hv; cbn in Hr; [|done].
  rewrite (from_slice_to_vec _ _ Hv) in Hr. cbn in Hr.
  destruct (generate_artifacts b) as [[m arts]|] eqn:Hg; cbn in Hr; [|done].
  simplify_eq. cbn. eauto 7.
Qed.

(** What a request is answered from: a cache some earlier pull of this server built from
    the rows it read, signed by the server's key; it is younger than the TTL, or it is the
    one this very flight built, or the flight's rebuild failed and nothing newer exists.
    An error is returned only when the flight failed and no rebuild ever succeeded. *)
Theorem live_answers `{!SerdeJsonLaws Bundle} t0 sy sy' i r : rtc step (cold t0) sy -> step sy sy' ->
  (forall r', sy_threads sy !! i <> Some (Returned r')) -> sy_threads sy' !! i = Some (Returned r) ->
  match r with
  | Ok c =>
      (exists rows wall m, build_bundle rows signing_key wall = Ok (ca_bundle c) /\
        generate_artifacts (ca_bundle c) = Ok (m, ca_artifacts c)) /\
      (is_fresh (sy_clock sy') c = true \/ last (sy_history sy') = Some (Built c) \/
       last (sy_history sy') = Some Failed /\
         forall c1, Built c1 ∈ sy_history sy' -> (ca_built_at c1 <= ca_built_at c)%N)
  | Err _ => last (sy_history sy') = Some Failed /\ forall c1, Built c1 ∉ sy_history sy'
  end.
Proof.
  intros Hr Hst Hno Hi'. pose proof (live_inv_reach _ _ Hr) as Hinv.
  pose proof (live_inv_step _ _ _ Hinv Hst) as [(built' & open' & l' & Hpa' & _) _ _ Han'].
  assert (Hfrom : forall c, r = Ok c -> exists rows wall m, build_bundle rows signing_key wall = Ok (ca_bundle c) /\
     generate_artifacts (ca_bundle c) = Ok (m, ca_artifacts c)).
  { intros c ->. destruct (paced_built_from _ _ _ _ _ Hpa' c (Han' _ _ Hi')) as (pull & wall & Hre).
    destruct (rebuild_ok _ _ _ _ Hre) as (rows & m & _ & ? & ? & _). eauto. }
  destruct Hinv as [(built & open & l & Hpa & Hl & Hf) _ _ _].
  destruct Hst as [clock clock' s ts h Hle|clock s ts h|clock s ts h k Hk|clock s ts h k Hk Hnl
    |clock s ts h k c Hk Hfr|clock s ts h k Hk Hfr|clock s ts h k pull wall Hk|clock s ts h k res Hk]; cbn in *.
  - by destruct (Hno r).
  - apply lookup_app_Some in Hi' as [Hi'|[_ Hi']]; [by destruct (Hno r)|].
    by apply list_lookup_singleton_Some in Hi' as [_ ?].
  - apply list_lookup_insert_Some in Hi' as [(_ & Hi' & _)|[_ Hi']]; [|by destruct (Hno r)].
    destruct (fresh_cache clock s) as [c|] eqn:E; [|done]. injection Hi' as <-.
    split; [by apply Hfrom|]. left. by apply fresh_cache_some in E as [].
  - apply list_lookup_insert_Some in Hi' as [(_ & ? & _)|[_ Hi']]; [done|by destruct (Hno r)].
  - apply list_lookup_insert_Some in Hi' as [(_ & Hi' & _)|[_ Hi']]; [|by destruct (Hno r)].
    injection Hi' as <-. split; [by apply Hfrom|]. left. by apply fresh_cache_some in Hfr as [].
  - apply list_lookup_insert_Some in Hi' as [(_ & ? & _)|[_ Hi']]; [done|by destruct (Hno r)].
  - apply list_lookup_insert_Some in Hi' as [(_ & ? & _)|[_ Hi']]; [done|by destruct (Hno r)].
  - apply list_lookup_insert_Some in Hi' as [(_ & Hi' & _)|[_ Hi']]; [|by destruct (Hno r)].
    injection Hi' as <-. destruct (flight_of _ _ _ _ _ _ _ Hf Hk eq_refl) as (_ & Hm).
    destruct res as [c|e]; cbn in Hm |- *; destruct Hm as (-> & Hb & Hla).
    + split; [by apply Hfrom|]. right. by left.
    + destruct (sh_cache s) as [c|] eqn:Hc.
      * split; [apply Hfrom; cbn; by rewrite Hc|]. right. right. split; [done|]. intros c1 Hin.
        destruct (paced_newest _ _ _ _ _ Hpa _ Hin) as (c0 & ? & ? & ?). by simplify_eq.
      * split; [assumption|]. intros c1 Hin. destruct (paced_newest _ _ _ _ _ Hpa _ Hin) as (c0 & ? & _). by simplify_eq.
Qed.

(** The live server answers a document the way the static one does on the same files. *)
Lemma live_serves_static `{SerdeJson (list Entry)} inner proxy_new serve_error_display c k d base t :
  let url := "/" +:+ doc_path (tree_prefix k) d in
  live_response serve_error_display Get url (Ok c) =
    (handle_request inner proxy_new serve_error_display (ca_artifacts c) base Get url t).2.
Proof.
  intros url. destruct (doc_request k d) as (Hq & Hv & Hs & Hne & Hdd & Hrd). fold url in Hq, Hv, Hs.
  unfold live_response, handle_request. rewrite Hq, Hv, Hs, !bool_decide_eq_false_2 by done. cbn [orb].
  rewrite Hrd, of_bytes_as_bytes. by destruct (ca_artifacts c !! _).
Qed.

(** While the database is unreachable every request pulls again: any number of pulls at one
    instant, whatever the TTL. *)
Lemma failed_rebuilds_unbounded t0 n : exists ts h,
  rtc step (cold t0) (mkSystem t0 (mkShared None (N.of_nat n)) ts h) /\ failures h = n /\ ~ locked ts.
Proof.
  induction n as [|n (ts & h & Hr & Hn & Hl)].
  - exists [], []. split; [apply rtc_refl|]. split; [done|]. intros (i & p & Hi & _). done.
  - set (i := length ts).
    assert (Hnl : forall p, in_flight p = false -> ~ locked (ts ++ [p])).
    { intros p Hp (j & q & [Hj|[_ Hj]]%lookup_app_Some & Hq); [apply Hl; by exists j, q|].
      apply list_lookup_singleton_Some in Hj as [_ <-]. congruence. }
    assert (Hi : forall p, (ts ++ [p]) !! i = Some p) by (intros; by apply list_lookup_middle).
    assert (Hins : forall p q, <[i := q]> (ts ++ [p]) = ts ++ [q]).
    { intros p q. unfold i. by rewrite insert_app_r_alt, Nat.sub_diag by lia. }
    exists (ts ++ [Returned (Err (SeBuilder "database down"))]), ((h ++ [Pulled t0]) ++ [Failed]). split_and!; [|rewrite failures_snoc, failures_snoc; cbn; lia|by apply Hnl].
    pose proof (rtc_r _ _ _ Hr (step_arrive _ _ _ _)) as R.
    pose proof (rtc_r _ _ _ R (step_check _ _ _ _ i (Hi _))) as R1. cbn in R1. rewrite Hins in R1.
    pose proof (rtc_r _ _ _ R1 (step_lock _ _ _ _ i (Hi _) (Hnl Waiting eq_refl))) as R2. rewrite Hins in R2.
    pose proof (rtc_r _ _ _ R2 (step_pull _ (mkShared None _) _ _ i (Hi _) eq_refl)) as R3. cbn in R3. rewrite Hins in R3.
    pose proof (rtc_r _ _ _ R3 (step_built _ _ _ _ i (Err "database down") 0 (Hi _))) as R4. cbn in R4. rewrite Hins in R4.
    pose proof (rtc_r _ _ _ R4 (step_swap _ _ _ _ i _ (Hi _))) as R5. cbn in R5. rewrite Hins in R5.
    by replace (N.of_nat (S n)) with (N.of_nat n + 1)%N by lia.
Qed.
End Live.

(** ** Evaluation *)

Section Concrete.
Import WireJson.

#[local] Definition live_key : SigningKey := ClearSig.repeat_seed Byte.x03.

#[local] Definition live_cache : Cache :=
  match rebuild (fun _ => "") live_key (Ok [mkCommitRow 1 "dm" 0 "al" "0"]) 5 7 with
  | Ok c => c
  | Err _ => mkCache (mkBundle "" [] [] [] [] []) ∅ 0
  end.

#[local] Definition live_step := step (fun _ => "") live_key 3.

(** One request on a cold server: up to the swap, and the answer. *)
#[local] Definition before_swap : System :=
  mkSystem 7 (mkShared None 1) [Swapping (Ok live_cache)] [Pulled 7; Built live_cache].
#[local] Definition after_swap : System :=
  mkSystem 7 (mkShared (Some live_cache) 1) [Returned (Ok live_cache)] [Pulled 7; Built live_cache].

#[local] Lemma live_cache_built : rebuild (fun _ => "") live_key (Ok [mkCommitRow 1 "dm" 0 "al" "0"]) 5 7 = Ok live_cache.
Proof. vm_compute. reflexivity. Qed.

#[local] Lemma first_request : rtc live_step (cold 7) before_swap.
Proof.
  eapply rtc_l; [apply step_arrive|]. eapply rtc_l; [by apply (step_check _ _ _ _ _ _ _ 0)|].
  eapply rtc_l; [apply (step_lock _ _ _ _ _ _ _ 0); [done|]|].
  { intros ([|i] & p & Hi & Hp); [|done]. cbn in Hi. injection Hi as <-. done. }
  eapply rtc_l; [by apply (step_pull _ _ _ _ _ _ _ 0)|].
  eapply rtc_l; [apply (step_built _ _ _ _ _ _ _ 0 (Ok [mkCommitRow 1 "dm" 0 "al" "0"]) 5); done|].
  rewrite live_cache_built. apply rtc_refl.
Qed.

Lemma live_single_flight_witness : rtc live_step (cold 7) before_swap /\
  (3 * sh_rebuild_count (sy_shared before_swap) + 7 <= 3 * (N.of_nat (failures (sy_history before_swap)) + 1) + sy_clock before_swap)%N.
Proof.
  pose proof (live_single_flight (fun _ => "") live_key 3 7 before_swap first_request) as (_ & _ & _ & Hb).
  split; [apply first_request|exact Hb].
Defined.

Lemma live_answers_witness : last (sy_history after_swap) = Some (Built live_cache) /\
  exists rows wall m, build_bundle rows live_key wall = Ok (ca_bundle live_cache) /\
    generate_artifacts (ca_bundle live_cache) = Ok (m, ca_artifacts live_cache).
Proof.
  split; [reflexivity|].
  refine (proj1 (live_answers (fun _ => "") live_key 3 7 before_swap after_swap 0 (Ok live_cache) first_request _ _ eq_refl)).
  - apply (step_swap _ _ _ 7 (mkShared None 1) [Swapping (Ok live_cache)] _ 0 (Ok live_cache)). reflexivity.
  - intros r'. cbn. discriminate.
Defined.
End Concrete.
