(* ===== verification/Transparency.v ===== *)
(** * pollis-core: the transparency audits

    Models [commands/transparency.rs]: the self-audit of the user's own account key, the
    audit of a pinned peer's key and the check of the running build, each from the fetches
    over HTTP to the status shown.  The shared verifiers are those of [Fetch.v]; the host
    answers each request as it likes, knowing all earlier ones.

    A detail line is the value it prints rather than its text.  A panic ([short_hex] slices
    a served string at byte positions) is [None].

    [self_audit_sound], [peer_audit_sound] and [build_verified_sound] say what [AuditOk] and
    [Verified] establish, whatever the host does; [honest_log_no_alarm] that the account log
    of the delivery service, published honestly, never alarms a user.  The evaluations at the
    end show what the audits do not notice. *)

From stdpp Require Import base list strings gmap pretty.
From Stdlib Require Import NArith ZArith Lia ZifyNat ZifyN.
From Stdlib Require Import Strings.Byte.
From S2P Require Import Prelude Crypto Merkle Log Tenants Monitor Builder Verifiers Relay Overlay Delivery Text Stores Access.
From S2P Require Import Tables Groups Accounts Service EmailChange Router Release Fetch Wire Layout.

#[local] Arguments fmt : simpl never.
#[local] Arguments doc_path : simpl never.
#[local] Open Scope fetch_scope.

Definition PINNED_LOG_PUBLIC_KEY : string := "175ebfef98fc6b20c67c4cba9d4a36a4f85f05afa4e31f707e7d7e3c02227148".

Definition DEFAULT_TRANSPARENCY_URL : string := "https://verify.pollis.com".

(** [compiled]: the variable at build time, [runtime]: at run time. *)
Definition transparency_base_url (compiled runtime : option string) : string :=
  match compiled with Some s => s | None => default DEFAULT_TRANSPARENCY_URL runtime end.

(** ** Reports *)

Inductive AuditStatus : Type := AuditOk | Pending | Alarm | Unavailable.

Inductive BuildVerifyStatus : Type := Verified | BuildPending | Mismatch | BuildUnavailable.

(** The detail lines, with the values they print. *)
Inductive Detail {J : Type} : Type :=
| PinMismatch (served pinned : string)
| ChainViolation (v : Violation J)
| ReleaseViolation (v : Release.ReleaseViolation)
| ChainFailed
| HistoryNotPublished
| VersionNotPublished (mine : Z) (newest : N)
| KeyPublished (mine : Z)
| DifferentKey (mine : Z)
| NewerVersion (newest : N) (mine : Z)
| NotPinned
| PeerNotPublished
| PinnedKeyAbsent
| PeerRotated (newest : N)
| PinnedKeyPublished
| TagNotPublished (tag : string)
| NothingComparable (tag : string)
| FingerprintPublished (tag : string)
| FingerprintAbsent (tag : string)
| KeyNotFetched (msg : string)
| VerifierFailed (e : ServeError)
| HashFailed (msg : string).
Arguments Detail J : clear implicits.

Section Reports.
Context {J : Type}.

Record SelfAuditReport := mkSelfAudit {
  sa_status : AuditStatus;
  sa_detail : Detail J;
  sa_my_identity_version : Z;
  sa_my_account_id_pub : string;
  sa_report : option (Account.AccountReport J)
}.

Record PeerAuditReport := mkPeerAudit {
  pa_status : AuditStatus;
  pa_detail : Detail J;
  pa_peer_user_id : string;
  pa_pinned_identity_version : option Z;
  pa_key_rotated : bool;
  pa_report : option (Account.AccountReport J)
}.

Record BuildVerifyReport := mkBuildVerify {
  bv_status : BuildVerifyStatus;
  bv_detail : Detail J;
  bv_version : string;
  bv_commit : option string;
  bv_my_payload_sha256 : string;
  bv_report : option Release.ReleaseReport
}.
End Reports.
Arguments SelfAuditReport J : clear implicits.
Arguments PeerAuditReport J : clear implicits.
Arguments BuildVerifyReport J : clear implicits.

(** ** Strings *)

Definition eq_ignore_ascii_case (a b : string) : bool :=
  bool_decide (Hosts.to_ascii_lowercase a = Hosts.to_ascii_lowercase b).

(** [str::is_char_boundary]. *)
Definition is_char_boundary (b : bytes) (i : nat) : bool :=
  (i =? length b) || match b !! i with Some x => negb (cont x) | None => false end.

(** [&s[..6]] and [&s[len-4..]]; [None] where the slice panics. *)
Definition short_hex (s : string) : option string :=
  let b := as_bytes s in
  if length b <=? 12 then Some s
  else if is_char_boundary b 6 && is_char_boundary b (length b - 4)
       then Some (of_bytes (take 6 b ++ [xe2; x80; xa6] ++ drop (length b - 4) b))
       else None.

Definition served_key_matches_pin (served : string) : bool := eq_ignore_ascii_case served PINNED_LOG_PUBLIC_KEY.

Definition pin_mismatch_detail {J} (served : string) : option (Detail J) :=
  s ← short_hex served; p ← short_hex PINNED_LOG_PUBLIC_KEY; Some (PinMismatch s p).

(** ** Status derivation *)

(** [max_by_key]: the last of the maximal elements. *)
Definition latest_version {J} (r : Account.AccountReport J) : option Account.AccountKeyVersion :=
  fold_left (fun m k => match m with
    | Some l => if (Account.kv_identity_version k <? Account.kv_identity_version l)%N then Some l else Some k
    | None => Some k
    end) (Account.ar_keys r) None.

Definition first_violation_detail {J} (r : Account.AccountReport J) (fallback : Detail J) : Detail J :=
  match Account.ar_violations r with v :: _ => ChainViolation v | [] => fallback end.

Definition first_release_violation {J} (r : Release.ReleaseReport) (fallback : Detail J) : Detail J :=
  match Release.rr_violations r with v :: _ => ReleaseViolation v | [] => fallback end.

Section Derive.
Context {J : Type}.

Definition derive_self_audit (report : Account.AccountReport J) (served_public_key my_account_id_pub : string)
    (my_identity_version : Z) : option (SelfAuditReport J) :=
  let mk status detail := mkSelfAudit status detail my_identity_version my_account_id_pub (Some report) in
  if negb (served_key_matches_pin served_public_key) then
    d ← pin_mismatch_detail served_public_key; Some (mk Alarm d)
  else if negb (Account.ar_chain_valid report) then Some (mk Alarm (first_violation_detail report ChainFailed))
  else match latest_version report with
       | None => Some (mk Pending HistoryNotPublished)
       | Some latest =>
           let v := u64_to_i64 (Account.kv_identity_version latest) in
           Some match (v ?= my_identity_version)%Z with
                | Lt => mk Pending (VersionNotPublished my_identity_version (Account.kv_identity_version latest))
                | Eq => if eq_ignore_ascii_case (Account.kv_account_id_pub latest) my_account_id_pub
                        then mk AuditOk (KeyPublished my_identity_version)
                        else mk Alarm (DifferentKey my_identity_version)
                | Gt => mk Alarm (NewerVersion (Account.kv_identity_version latest) my_identity_version)
                end
       end.

Definition derive_peer_audit (report : Account.AccountReport J) (served_public_key peer_user_id : string)
    (pinned : option (string * Z)) : option (PeerAuditReport J) :=
  let mk status detail rotated := mkPeerAudit status detail peer_user_id (snd <$> pinned) rotated (Some report) in
  if negb (served_key_matches_pin served_public_key) then
    d ← pin_mismatch_detail served_public_key; Some (mk Alarm d false)
  else if negb (Account.ar_chain_valid report) then Some (mk Alarm (first_violation_detail report ChainFailed) false)
  else match pinned with
       | None => Some (mk Pending NotPinned false)
       | Some (pinned_pub, pinned_version) =>
           if negb (Account.ar_found report) || bool_decide (Account.ar_keys report = []) then
             Some (mk Pending PeerNotPublished false)
           else if negb (existsb (fun k => eq_ignore_ascii_case (Account.kv_account_id_pub k) pinned_pub) (Account.ar_keys report)) then
             Some (mk Alarm PinnedKeyAbsent false)
           else
             let latest := latest_version report in
             let rotated := match latest with
                            | Some l => (pinned_version <? u64_to_i64 (Account.kv_identity_version l))%Z
                            | None => false
                            end in
             let detail := if rotated
                           then PeerRotated (match latest with Some l => Account.kv_identity_version l | None => 0%N end)
                           else PinnedKeyPublished in
             Some (mk AuditOk detail rotated)
       end.

(** This build's hash and the layer it is comparable with. *)
Inductive MyPayload : Type :=
| PayloadHash (h : string)
| ExeHash (h : string).

Definition payload_sha256 (p : MyPayload) : string := match p with PayloadHash h | ExeHash h => h end.

Definition payload_layer (p : MyPayload) : Binaries.Layer :=
  match p with PayloadHash _ => Binaries.Payload | ExeHash _ => Binaries.Exe end.

Definition comparable (report : Release.ReleaseReport) (p : MyPayload) : list string :=
  map (fun a => match payload_layer p with
                | Binaries.Exe => Release.ra_artifact_sha256 a
                | _ => Release.ra_payload_sha256 a
                end)
    (List.filter (fun a => bool_decide (Release.ra_layer a = payload_layer p)) (Release.rr_artifacts report)).

Definition derive_build_verify (report : Release.ReleaseReport) (p : MyPayload) (version : string) (commit : option string)
    : BuildVerifyReport J :=
  let mk status detail := mkBuildVerify status detail version commit (payload_sha256 p) (Some report) in
  let tag := Release.rr_release_tag report in
  if negb (Release.rr_chain_valid report) then mk Mismatch (first_release_violation report ChainFailed)
  else if negb (Release.rr_found report) then mk BuildPending (TagNotPublished tag)
  else
    let cs := comparable report p in
    if bool_decide (cs = []) then mk BuildUnavailable (NothingComparable tag)
    else if existsb (fun h => eq_ignore_ascii_case h (payload_sha256 p)) cs then mk Verified (FingerprintPublished tag)
    else mk Mismatch (FingerprintAbsent tag).
End Derive.

(** ** Fetching *)

(** The text of the overlay's loopback address, when the overlay is on. *)
Definition OverlayHandle : Type := string.

Definition overlay_proxy (overlay : option OverlayHandle) : option string :=
  (fun addr => fmt ["socks5://"; addr]) <$> overlay.

(** [http_client] of [net/overlay.rs]: all requests through the shim, or direct. *)
Definition http_client (overlay : option OverlayHandle) : Agent :=
  match overlay with Some addr => Through (fmt ["socks5h://"; addr]) | None => Direct end.

Section Commands.
Context (host : Host) (proxy_new : string -> Result unit string).
Context `{!SerdeJson PublicKeyDoc, !SerdeJson Sth, !SerdeJson (list Entry), !SerdeJson InclusionProof}.
Context `{Sha256} `{Hex} `{Ed25519} `{Lowercase}.
Context `{!SerdeJson AccountKey.AccountKeyLeaf, !SerdeJson Binaries.BinaryRecord}.

#[local] Notation J := (JsonError (A:=AccountKey.AccountKeyLeaf)).

(** The key document through the async client, lowercased. *)
Definition fetch_key (overlay : option OverlayHandle) (url : string) : Fetch (Result string string) :=
  let> a := http_get host (http_client overlay) url in
  fret match a with
       | Page body => match from_slice body with
                      | Ok doc => Ok (to_lowercase (pk_public_key doc))
                      | Err e => Err (json_error_display e)
                      end
       | ErrorStatus _ m | Unreachable m | Unreadable m => Err m
       end.

Definition fetch_served_public_key (overlay : option OverlayHandle) (base : string) : Fetch (Result string string) :=
  fetch_key overlay (fmt [trim_end_slashes base; "/v1/account-keys/public_key.json"]).

Definition fetch_served_binaries_public_key (overlay : option OverlayHandle) (base : string) : Fetch (Result string string) :=
  fetch_key overlay (fmt [trim_end_slashes base; "/v1/binaries/public_key.json"]).

Definition fetch_and_verify (overlay : option OverlayHandle) (base user_id : string)
    : Fetch (Result (Account.AccountReport J * string) (Detail J)) :=
  let> k := fetch_served_public_key overlay base in
  match k with
  | Err e => fret (Err (KeyNotFetched e))
  | Ok served_key =>
      let> r := verify_account_via host proxy_new base user_id (overlay_proxy overlay) in
      fret match r with
           | Ok report => Ok (report, served_key)
           | Err e => Err (VerifierFailed e)
           end
  end.

(** *** The commands *)

(** [answer]: the rows the query gave, a row with nullable columns. *)
Definition fetch_account_key (answer : Result (option (option bytes * option Z)) string) (user_id : string)
    : Result (bytes * Z) string :=
  let? row := answer in
  match row with
  | None => Err (fmt ["user "; user_id; " not found"])
  | Some (None, _) => Err (fmt ["user "; user_id; " has no account_id_pub"])
  | Some (Some k, v) => Ok (k, default 0%Z v)
  end.

Definition self_audit_account_key (overlay : option OverlayHandle) (base my_user_id : string)
    (answer : Result (option (option bytes * option Z)) string) : Fetch (option (Result (SelfAuditReport J) string)) :=
  match fetch_account_key answer my_user_id with
  | Err e => fret (Some (Err e))
  | Ok (my_pub, my_version) =>
      let my_pub_hex := hex_encode my_pub in
      let> r := fetch_and_verify overlay base my_user_id in
      fret match r with
           | Ok (report, served_key) => Ok <$> derive_self_audit report served_key my_pub_hex my_version
           | Err detail => Some (Ok (mkSelfAudit Unavailable detail my_version my_pub_hex None))
           end
  end.

(** [query]: the row of [contact_verification], or why there is none. *)
Definition load_pinned_key (signed_in : bool) (query : Result (bytes * Z) string) : Result (option (bytes * Z)) string :=
  if signed_in then Ok (ok query) else Err "Not signed in".

Definition audit_peer_account_key (overlay : option OverlayHandle) (base peer_user_id : string) (signed_in : bool)
    (query : Result (bytes * Z) string) : Fetch (option (Result (PeerAuditReport J) string)) :=
  match load_pinned_key signed_in query with
  | Err e => fret (Some (Err e))
  | Ok pinned =>
      let pin := (fun p : bytes * Z => (hex_encode p.1, p.2)) <$> pinned in
      let> r := fetch_and_verify overlay base peer_user_id in
      fret match r with
           | Ok (report, served_key) => Ok <$> derive_peer_audit report served_key peer_user_id pin
           | Err detail => Some (Ok (mkPeerAudit Unavailable detail peer_user_id (snd <$> pinned) false None))
           end
  end.

(** *** This build *)

(** The running process: [appimage] is the variable on Linux, [current_exe] what the system
    says, [read] the bytes of a file or the message why it could not be opened or read. *)
Record Process := mkProcess {
  pr_linux : bool;
  pr_appimage : option string;
  pr_current_exe : Result string string;
  pr_read : string -> Result bytes string
}.

Definition sha256_file (pr : Process) (path : string) : Result string string :=
  let? b := pr_read pr path in Ok (hex_encode (sha256 b)).

Definition compute_my_payload (pr : Process) : Result MyPayload string :=
  match (if pr_linux pr then pr_appimage pr else None) with
  | Some path => let? h := sha256_file pr path in Ok (PayloadHash h)
  | None =>
      let? exe := map_err (fun e => fmt ["could not locate the running executable: "; e]) (pr_current_exe pr) in
      let? h := sha256_file pr exe in Ok (ExeHash h)
  end.

Definition verify_own_build (pr : Process) (version : string) (commit : option string) (overlay : option OverlayHandle)
    (base : string) : Fetch (option (BuildVerifyReport J)) :=
  let unavailable detail my_hash := Some (mkBuildVerify BuildUnavailable detail version commit my_hash None) in
  match compute_my_payload pr with
  | Err msg => fret (unavailable (HashFailed msg) "")
  | Ok my_payload =>
      let my_hash := payload_sha256 my_payload in
      let> k := fetch_served_binaries_public_key overlay base in
      match k with
      | Err msg => fret (unavailable (KeyNotFetched msg) my_hash)
      | Ok served =>
          if negb (served_key_matches_pin served) then
            fret (d ← pin_mismatch_detail served; Some (mkBuildVerify Mismatch d version commit my_hash None))
          else
            let> r := verify_release_via host proxy_new base (fmt ["v"; version]) (overlay_proxy overlay) in
            fret match r with
                 | Ok report => Some (derive_build_verify report my_payload version commit)
                 | Err e => unavailable (VerifierFailed e) my_hash
                 end
      end
  end.
End Commands.

(** ** What a status establishes *)

Lemma latest_version_spec {J} (r : Account.AccountReport J) :
  match latest_version r with
  | None => Account.ar_keys r = []
  | Some l => l ∈ Account.ar_keys r /\
      forall k, k ∈ Account.ar_keys r -> (Account.kv_identity_version k <= Account.kv_identity_version l)%N
  end.
Proof.
  unfold latest_version. induction (Account.ar_keys r) as [|k ks IH] using rev_ind; [done|].
  rewrite fold_left_app. cbn [fold_left]. destruct (fold_left _ ks None) as [l|].
  - destruct IH as [Hl Hm]. destruct (N.ltb_spec (Account.kv_identity_version k) (Account.kv_identity_version l)).
    + split; [set_solver|]. intros k' [Hk| ->%list_elem_of_singleton]%elem_of_app; [by apply Hm|lia].
    + split; [set_solver|]. intros k' [Hk| ->%list_elem_of_singleton]%elem_of_app; [specialize (Hm _ Hk); lia|lia].
  - subst ks. split; [set_solver|]. intros k' Hk. apply list_elem_of_singleton in Hk as ->. lia.
Qed.

(** The self-audit says [AuditOk] for nothing less than this. *)
Lemma self_audit_ok {J} (report : Account.AccountReport J) served mine v r :
  derive_self_audit report served mine v = Some r -> sa_status r = AuditOk ->
  served_key_matches_pin served = true /\ Account.ar_chain_valid report = true /\
  exists k, k ∈ Account.ar_keys report /\ u64_to_i64 (Account.kv_identity_version k) = v /\
    eq_ignore_ascii_case (Account.kv_account_id_pub k) mine = true /\
    forall k', k' ∈ Account.ar_keys report -> (Account.kv_identity_version k' <= Account.kv_identity_version k)%N.
Proof.
  unfold derive_self_audit. intros Hd Hs. pose proof (latest_version_spec report) as Hl.
  destruct (served_key_matches_pin served); cbn [negb] in Hd; [|destruct (pin_mismatch_detail served); by simplify_eq/=].
  destruct (Account.ar_chain_valid report); cbn [negb] in Hd; [|by simplify_eq/=].
  destruct (latest_version report) as [l|]; [|by simplify_eq/=]. destruct Hl as [Hin Hmax].
  destruct (Z.compare_spec (u64_to_i64 (Account.kv_identity_version l)) v) as [Hv|Hv|Hv]; [|by simplify_eq/=..].
  destruct (eq_ignore_ascii_case _ mine) eqn:He; [|by simplify_eq/=]. eauto 10.
Qed.

(** So does the peer audit. *)
Lemma peer_audit_ok {J} (report : Account.AccountReport J) served peer pinned r :
  derive_peer_audit report served peer pinned = Some r -> pa_status r = AuditOk ->
  served_key_matches_pin served = true /\ Account.ar_chain_valid report = true /\
  exists pub v k, pinned = Some (pub, v) /\ k ∈ Account.ar_keys report /\
    eq_ignore_ascii_case (Account.kv_account_id_pub k) pub = true.
Proof.
  unfold derive_peer_audit. intros Hd Hs.
  destruct (served_key_matches_pin served); cbn [negb] in Hd; [|destruct (pin_mismatch_detail served); by simplify_eq/=].
  destruct (Account.ar_chain_valid report); cbn [negb] in Hd; [|by simplify_eq/=].
  destruct pinned as [[pub v]|]; [|by simplify_eq/=].
  destruct (negb (Account.ar_found report) || _); [by simplify_eq/=|].
  destruct (existsb _ (Account.ar_keys report)) eqn:Ee; cbn [negb] in Hd; [|by simplify_eq/=].
  apply existsb_exists in Ee as (k & Hk%list_elem_of_In & He). split; [done|]. split; [done|]. by exists pub, v, k.
Qed.

Lemma build_verified {J} report p version commit :
  bv_status (derive_build_verify (J:=J) report p version commit) = Verified ->
  Release.rr_chain_valid report = true /\ exists a, a ∈ Release.rr_artifacts report /\ Release.ra_layer a = payload_layer p /\
    eq_ignore_ascii_case (match p with ExeHash _ => Release.ra_artifact_sha256 a | PayloadHash _ => Release.ra_payload_sha256 a end)
      (payload_sha256 p) = true.
Proof.
  unfold derive_build_verify. destruct (Release.rr_chain_valid report); [|done]. destruct (Release.rr_found report); [|done].
  cbn [negb]. destruct (bool_decide (comparable report p = [])); [done|].
  destruct (existsb _ (comparable report p)) eqn:Ee; [|done]. intros _. split; [done|].
  apply existsb_exists in Ee as (h & (a & <- & Hf)%in_map_iff & He). apply List.filter_In in Hf as [Ha Hl].
  apply bool_decide_eq_true in Hl. exists a. split; [by apply list_elem_of_In|]. split; [done|]. by destruct p.
Qed.

Section Sound.
Context (host : Host) (proxy_new : string -> Result unit string).
Context `{!SerdeJson PublicKeyDoc, !SerdeJson Sth, !SerdeJson (list Entry), !SerdeJson InclusionProof}.
Context `{Sha256, !Sha256Laws} `{Hex} `{Ed25519} `{Lowercase}.
Context `{!SerdeJson AccountKey.AccountKeyLeaf, !SerdeJson Binaries.BinaryRecord}.

Lemma ftry_ret {A B} (a : A) (k : A -> Fetch (Result B ServeError)) t : ftry (fret (Ok a)) k t = k a t.
Proof. reflexivity. Qed.

Lemma routed_fetch_key overlay url : routed (http_client overlay) (fetch_key host overlay url).
Proof. unfold fetch_key. route. Qed.

Lemma fetch_key_ok overlay url t k : (fetch_key host overlay url t).2 = Ok k ->
  exists doc : PublicKeyDoc, fetched (fetch_key host overlay url t).1 url doc /\ k = to_lowercase (pk_public_key doc).
Proof.
  unfold fetch_key, fbind, fret, http_get. simpl. destruct (host t (http_client overlay) url) as [body| | |] eqn:Eh; try done.
  destruct (from_slice body) as [doc|] eqn:Ef; [|done]. intros [= <-]. exists doc. split; [|done].
  eexists _, body. split; [apply elem_of_app; right; by apply list_elem_of_singleton|done].
Qed.

Lemma verify_account_via_ok base user proxy t report : (verify_account_via host proxy_new base user proxy t).2 = Ok report ->
  exists b s, report = Account.verify_account_in_bundle b user /\
    fetched_bundle (verify_account_via host proxy_new base user proxy t).1 (fmt [trim_end_slashes base; "/v1/account-keys"]) b s.
Proof.
  unfold verify_account_via. destruct (build_agent proxy_new proxy) as [agent|]; [|done]. rewrite ftry_ret. unfold ftry, fbind.
  set (r := fetch_tree _ _ _ _ _ t). destruct r.2 as [b|] eqn:E; [|done]. cbn. intros [= <-].
  destruct (fetch_tree_ok _ _ _ _ _ _ _ E) as [s Hs]. by exists b, s.
Qed.

Lemma verify_release_via_ok base tag proxy t report : (verify_release_via host proxy_new base tag proxy t).2 = Ok report ->
  exists b s, report = Release.verify_release_in_bundle b tag /\
    fetched_bundle (verify_release_via host proxy_new base tag proxy t).1 (fmt [trim_end_slashes base; "/v1/binaries"]) b s.
Proof.
  unfold verify_release_via. destruct (build_agent proxy_new proxy) as [agent|]; [|done]. rewrite ftry_ret. unfold ftry, fbind.
  set (r := fetch_tree _ _ _ _ _ t). destruct r.2 as [b|] eqn:E; [|done]. cbn. intros [= <-].
  destruct (fetch_tree_ok _ _ _ _ _ _ _ E) as [s Hs]. by exists b, s.
Qed.

Lemma account_via_keeps {B} `{!SerdeJson B} base user proxy t url (x : B) : fetched t url x ->
  fetched (verify_account_via host proxy_new base user proxy t).1 url x.
Proof.
  intros Hf. unfold verify_account_via. destruct (build_agent proxy_new proxy) as [agent|]; [|done]. rewrite ftry_ret.
  apply (routed_keeps agent); [|done]. apply routed_try; [apply routed_fetch_tree|intros; apply routed_ret].
Qed.

Lemma release_via_keeps {B} `{!SerdeJson B} base tag proxy t url (x : B) : fetched t url x ->
  fetched (verify_release_via host proxy_new base tag proxy t).1 url x.
Proof.
  intros Hf. unfold verify_release_via. destruct (build_agent proxy_new proxy) as [agent|]; [|done]. rewrite ftry_ret.
  apply (routed_keeps agent); [|done]. apply routed_try; [apply routed_fetch_tree|intros; apply routed_ret].
Qed.

(** The host answered all requests for [url] alike. *)
Definition one_answer (t : Transcript) (url : string) : Prop :=
  forall ex ex', ex ∈ t -> ex' ∈ t -> ex_url ex = url -> ex_url ex' = url -> ex_answer ex = ex_answer ex'.

(** What was fetched for an audit: a key document that passed the pin, and a bundle; if the
    host served one key document, the bundle's key passed the pin. *)
Definition pinned_fetch (t : Transcript) (prefix : string) (b : Bundle) (s : Sth) : Prop :=
  let key_url := fmt [prefix; "/public_key.json"] in
  fetched_bundle t prefix b s /\
  (exists doc : PublicKeyDoc, fetched t key_url doc /\ served_key_matches_pin (to_lowercase (pk_public_key doc)) = true) /\
  (one_answer t key_url -> served_key_matches_pin (to_lowercase (public_key b)) = true).

Lemma pinned_fetch_intro t prefix b s (doc : PublicKeyDoc) : fetched_bundle t prefix b s ->
  fetched t (fmt [prefix; "/public_key.json"]) doc -> served_key_matches_pin (to_lowercase (pk_public_key doc)) = true ->
  pinned_fetch t prefix b s.
Proof.
  intros Hb Hd Hp. split; [done|]. split; [by exists doc|]. intros Ho.
  destruct Hd as (ex & body & Hin & Hu & Ha & Hf). destruct (fb_key _ _ _ _ Hb) as (ex' & body' & Hin' & Hu' & Ha' & Hf').
  pose proof (Ho _ _ Hin Hin' Hu Hu') as He. rewrite Ha, Ha' in He. injection He as ->. rewrite Hf in Hf'. by injection Hf' as ->.
Qed.

Lemma key_url prefix rest : fmt [prefix; rest; "/public_key.json"] = fmt [fmt [prefix; rest]; "/public_key.json"].
Proof. unfold fmt. simpl. by rewrite !append_assoc. Qed.

Lemma key_url_tree base tree : fmt [base; tree +:+ "/public_key.json"] = fmt [fmt [base; tree]; "/public_key.json"].
Proof. rewrite <- key_url. unfold fmt. simpl. by rewrite !append_nil. Qed.

Lemma fetch_and_verify_ok overlay base user t report served :
  let run := fetch_and_verify host proxy_new overlay base user t in
  run.2 = Ok (report, served) -> served_key_matches_pin served = true ->
  exists b s, report = Account.verify_account_in_bundle b user /\
    pinned_fetch run.1 (fmt [trim_end_slashes base; "/v1/account-keys"]) b s.
Proof.
  unfold fetch_and_verify, fbind. set (r1 := fetch_served_public_key host overlay base t).
  destruct r1.2 as [k|] eqn:E1; [|done]. set (r2 := verify_account_via _ _ _ _ _ _).
  destruct r2.2 as [rep|] eqn:E2; [|done]. cbn [fret fst snd]. intros [= -> ->] Hp.
  destruct (verify_account_via_ok _ _ _ _ _ E2) as (b & s & -> & Hb). exists b, s. split; [done|].
  destruct (fetch_key_ok _ _ _ _ E1) as (doc & Hd & ->). apply (pinned_fetch_intro _ _ _ _ doc); [exact Hb| |done].
  rewrite <- key_url_tree. apply account_via_keeps, Hd.
Qed.

Context `{!SerdeJsonLaws AccountKey.AccountKeyLeaf, !SerdeJsonLaws Binaries.BinaryRecord} `{!HexLaws} `{!Ed25519Laws}.

(** The tree head [s] commits to the log [es], and SHA-256 does not collide on what the
    verification of [b] hashed. *)
Record commits_to (s : Sth) (es : list Entry) (b : Bundle) : Prop := {
  ct_root : root_bytes s = Ok (entries_root es);
  ct_size : tree_size s = N.of_nat (length es);
  ct_fit : Forall tenant_fits es;
  ct_fit_served : Forall tenant_fits (bundle_entries b);
  ct_free : bundle_collision_free es b
}.

(** The log holds an account-key leaf of [user]. *)
Definition logged_key (es : list Entry) (user : string) (P : AccountKey.AccountKeyLeaf -> Prop) : Prop :=
  exists i e leaf, es !! i = Some e /\ tenant e = AccountKey.TENANT /\ AccountKey.decode (data e) = Ok leaf /\
    AccountKey.user_id leaf = user /\ P leaf.

Definition head_signed (b : Bundle) (s : Sth) (ctx : bytes) : Prop :=
  exists vk, verifying_key_from_hex (public_key b) = Ok vk /\ verify_with_context s vk ctx = true.

(** A listed key of a valid report is in the log the head commits to. *)
Lemma listed_key_logged t prefix b s user k : fetched_bundle t prefix b s ->
  Account.ar_chain_valid (Account.verify_account_in_bundle b user) = true ->
  k ∈ Account.ar_keys (Account.verify_account_in_bundle b user) ->
  head_signed b s AccountKey.STH_CONTEXT /\
  forall es, commits_to s es b -> logged_key es user (fun leaf =>
    AccountKey.identity_version leaf = Account.kv_identity_version k /\ AccountKey.account_id_pub leaf = Account.kv_account_id_pub k).
Proof.
  intros Hb Hv Hk. assert (latest_sth (sths b) = Some s) as Hl by (by rewrite (fb_sths _ _ _ _ Hb)).
  destruct (account_chain_valid _ _ Hv) as ((s' & vk & Hl' & Hvk & Hsig) & _). rewrite Hl in Hl'. injection Hl' as <-.
  split; [by exists vk|]. intros es [C1 C2 C3 C4 C5].
  destruct (account_report_sound b user s es Hv Hl C1 C2 C3 C4 C5) as (_ & Hall & _).
  rewrite Forall_forall in Hall. destruct (Hall k Hk) as (i & e & leaf & He & Ht & Hd & Hu & ->). by exists i, e, leaf.
Qed.

(** C31: what a clean self-audit establishes, whatever the host does.  The key document
    fetched first passed the pin; the head verifies under the key fetched with the tree,
    which is the pinned one if the host served a single key document; and every log that
    head commits to holds this user's own key at this device's version. *)
Theorem self_audit_sound overlay base user answer t t' r :
  self_audit_account_key host proxy_new overlay base user answer t = (t', Some (Ok r)) -> sa_status r = AuditOk ->
  exists my_pub b s, fetch_account_key answer user = Ok (my_pub, sa_my_identity_version r) /\
    pinned_fetch t' (fmt [trim_end_slashes base; "/v1/account-keys"]) b s /\ head_signed b s AccountKey.STH_CONTEXT /\
    forall es, commits_to s es b -> logged_key es user (fun leaf =>
      u64_to_i64 (AccountKey.identity_version leaf) = sa_my_identity_version r /\
      eq_ignore_ascii_case (AccountKey.account_id_pub leaf) (hex_encode my_pub) = true).
Proof.
  unfold self_audit_account_key. intros Hr Hs. destruct (fetch_account_key answer user) as [[my_pub v]|e] eqn:Ea.
  2: { unfold fret in Hr. by simplify_eq. }
  unfold fbind in Hr. destruct ((fetch_and_verify host proxy_new overlay base user t).2) as [[report served]|d] eqn:E.
  2: { unfold fret in Hr. by simplify_eq/=. }
  unfold fret in Hr. destruct (derive_self_audit report served (hex_encode my_pub) v) as [r'|] eqn:Ed; cbn in Hr; [|done].
  injection Hr as <- <-. destruct (self_audit_ok _ _ _ _ _ Ed Hs) as (Hp & Hv & k & Hk & Hver & Heq & _).
  destruct (fetch_and_verify_ok _ _ _ _ _ _ E Hp) as (b & s & -> & Hf).
  destruct (listed_key_logged _ _ _ _ _ _ (proj1 Hf) Hv Hk) as [Hsig Hlog].
  assert (sa_my_identity_version r' = v) as ->.
  { unfold derive_self_audit in Ed. repeat case_match; simplify_eq/=; try done; by destruct (pin_mismatch_detail served); simplify_eq/=. }
  exists my_pub, b, s. split_and!; [done..|]. intros es Hc. destruct (Hlog es Hc) as (i & e & leaf & ? & ? & ? & ? & Hvv & Hpp).
  exists i, e, leaf. rewrite Hvv, Hpp. done.
Qed.

(** What a clean peer audit establishes: the pinned key is a key of that peer in every log
    the head commits to. *)
Theorem peer_audit_sound overlay base peer signed_in query t t' r :
  audit_peer_account_key host proxy_new overlay base peer signed_in query t = (t', Some (Ok r)) -> pa_status r = AuditOk ->
  exists pub v b s, query = Ok (pub, v) /\
    pinned_fetch t' (fmt [trim_end_slashes base; "/v1/account-keys"]) b s /\ head_signed b s AccountKey.STH_CONTEXT /\
    forall es, commits_to s es b -> logged_key es peer (fun leaf =>
      eq_ignore_ascii_case (AccountKey.account_id_pub leaf) (hex_encode pub) = true).
Proof.
  unfold audit_peer_account_key. intros Hr Hs. destruct (load_pinned_key signed_in query) as [pinned|e] eqn:Ea.
  2: { unfold fret in Hr. by simplify_eq. }
  unfold fbind in Hr. destruct ((fetch_and_verify host proxy_new overlay base peer t).2) as [[report served]|d] eqn:E.
  2: { unfold fret in Hr. by simplify_eq/=. }
  unfold fret in Hr. destruct (derive_peer_audit report served peer _) as [r'|] eqn:Ed; cbn in Hr; [|done].
  injection Hr as <- <-. destruct (peer_audit_ok _ _ _ _ _ Ed Hs) as (Hp & Hv & hex & v & k & Hpin & Hk & Heq).
  destruct pinned as [[pub v']|]; [|done]. cbn in Hpin. injection Hpin as <- <-.
  assert (query = Ok (pub, v')) as -> by (unfold load_pinned_key in Ea; destruct signed_in, query; naive_solver).
  destruct (fetch_and_verify_ok _ _ _ _ _ _ E Hp) as (b & s & -> & Hf).
  destruct (listed_key_logged _ _ _ _ _ _ (proj1 Hf) Hv Hk) as [Hsig Hlog].
  exists pub, v', b, s. split_and!; [done..|]. intros es Hc.
  destruct (Hlog es Hc) as (i & e & leaf & ? & ? & ? & ? & _ & Hpp). exists i, e, leaf. by rewrite Hpp.
Qed.

(** A verified build is an attested one, whatever the host does.  The hash compared is
    that of the file the process reads as itself; every log the head commits to holds, under
    this version's tag, a record of the layer that hash is comparable with, carrying it. *)
Theorem build_verified_sound pr version commit overlay base t t' r :
  verify_own_build host proxy_new pr version commit overlay base t = (t', Some r) -> bv_status r = Verified ->
  exists p b s, compute_my_payload pr = Ok p /\ bv_my_payload_sha256 r = payload_sha256 p /\
    pinned_fetch t' (fmt [trim_end_slashes base; "/v1/binaries"]) b s /\ head_signed b s Binaries.STH_CONTEXT /\
    forall es, commits_to s es b -> exists i e rc, es !! i = Some e /\ tenant e = Binaries.TENANT /\
      Binaries.decode (data e) = Ok rc /\ Binaries.release_tag rc = fmt ["v"; version] /\
      Binaries.layer rc = payload_layer p /\
      eq_ignore_ascii_case (match p with ExeHash _ => Binaries.artifact_sha256 rc | PayloadHash _ => Binaries.payload_sha256 rc end)
        (payload_sha256 p) = true.
Proof.
  unfold verify_own_build. intros Hr Hs. destruct (compute_my_payload pr) as [p|e] eqn:Ep.
  2: { unfold fret in Hr. by simplify_eq/=. }
  unfold fbind in Hr. set (r1 := fetch_served_binaries_public_key host overlay base t) in Hr.
  destruct r1.2 as [served|e] eqn:E1; [|unfold fret in Hr; by simplify_eq/=].
  destruct (served_key_matches_pin served) eqn:Hp; cbn [negb] in Hr.
  2: { unfold fret in Hr. destruct (pin_mismatch_detail served); by simplify_eq/=. }
  set (r2 := verify_release_via _ _ _ _ _ _) in Hr. destruct r2.2 as [report|e] eqn:E2; [|unfold fret in Hr; by simplify_eq/=].
  unfold fret in Hr. injection Hr as <- <-. destruct (build_verified _ _ _ _ Hs) as (Hv & a & Ha & Hlay & Heq).
  destruct (verify_release_via_ok _ _ _ _ _ E2) as (b & s & -> & Hb). exists p, b, s.
  destruct (fetch_key_ok _ _ _ _ E1) as (doc & Hd & ->).
  assert (latest_sth (sths b) = Some s) as Hl by (by rewrite (fb_sths _ _ _ _ Hb)).
  split_and!; [done|unfold derive_build_verify; by repeat case_match| | |].
  - apply (pinned_fetch_intro _ _ _ _ doc); [exact Hb| |done]. rewrite <- key_url_tree. apply release_via_keeps, Hd.
  - destruct (trust_anchor Binaries.STH_CONTEXT b) as [[size root] okv] eqn:Ea.
    destruct (verify_release_eq b (fmt ["v"; version]) _ _ _ Ea) as (_ & _ & _ & _ & _ & Hc & _).
    apply Hc in Hv as (-> & _). destruct (trust_anchor_true _ _ _ _ Ea) as (s' & vk & Hl' & Hk & Hsig & _).
    rewrite Hl in Hl'. injection Hl' as <-. by exists vk.
  - intros es [C1 C2 C3 C4 C5]. destruct (release_sound b _ s es Hv Hl C1 C2 C3 C4 C5) as (_ & Hall & _).
    rewrite Forall_forall in Hall. destruct (Hall a Ha) as (i & e & rc & He & Ht & Hdec & Htag & ->).
    exists i, e, rc. by destruct p.
Qed.
End Sound.

(** ** An honest log raises no alarm *)

#[global] Instance KeyLogRow_eq_dec : EqDecision KeyLogRow.
Proof. solve_decision. Defined.

Lemma u64_to_i64_small (z : Z) : (0 <= z < 2 ^ 63)%Z -> u64_to_i64 (Z.to_N z) = z.
Proof.
  intros Hz. rewrite <- (i64_roundtrip z) at 2 by (unfold i64_range; lia). unfold i64_to_u64. by rewrite Z.mod_small by lia.
Qed.

Lemma eq_ignore_case_refl s : eq_ignore_ascii_case s s = true.
Proof. by apply bool_decide_eq_true. Qed.

Section Honest.
Context `{SerdePretty PublicKeyDoc, !SerdePrettyLaws PublicKeyDoc} `{SerdePretty Sth, !SerdePrettyLaws Sth}.
Context `{SerdePretty (list Entry), !SerdePrettyLaws (list Entry)} `{SerdePretty Entry, !SerdePrettyLaws Entry}.
Context `{SerdePretty InclusionProof, !SerdePrettyLaws InclusionProof}.
Context `{SerdePretty ConsistencyProof, !SerdePrettyLaws ConsistencyProof}.
Context `{Sha256, !Sha256Laws} `{Hex, !HexLaws} `{Ed25519, !Ed25519Laws} `{Lowercase}.
Context `{!SerdeJson AccountKey.AccountKeyLeaf, !SerdeJsonLaws AccountKey.AccountKeyLeaf}.
Context (host : Host) (proxy_new : string -> Result unit string) (base : string) (files : Artifacts).
Context (overlay : option OverlayHandle) (agent : Agent).
Context (Hserves : serves host (trim_end_slashes base) files) (Hagent : build_agent proxy_new (overlay_proxy overlay) = Ok agent).
(** Lowercasing the pinned key, which is lowercase ASCII, changes nothing. *)
Context (Hlower : to_lowercase PINNED_LOG_PUBLIC_KEY = PINNED_LOG_PUBLIC_KEY).

Lemma served_key b m t : holds_tree ACCOUNT_API_PREFIX b m files -> public_key b = PINNED_LOG_PUBLIC_KEY ->
  (fetch_served_public_key host overlay base t).2 = Ok PINNED_LOG_PUBLIC_KEY.
Proof.
  intros Hh Hk. unfold fetch_served_public_key, fetch_key, fbind, fret, http_get. cbn [fst snd].
  pose proof (Hserves t (http_client overlay) ACCOUNT_API_PREFIX DPublicKey (tree_prefix_known Accounts)) as Ha.
  rewrite (Hh DPublicKey) in Ha. cbn [tree_doc] in Ha.
  change (fmt [trim_end_slashes base; "/v1/account-keys/public_key.json"])
    with (fmt [trim_end_slashes base; "/"; doc_path ACCOUNT_API_PREFIX DPublicKey]).
  rewrite Ha, from_slice_json_of. cbn [pk_public_key]. by rewrite Hk, Hlower.
Qed.

(** What the user's device must agree with: it knows a version at least as new as each
    published one, and its key is the one published at that version. *)
Definition device_current (rows : list AccountKeyRow) (user : string) (my_pub : bytes) (v : Z) : Prop :=
  forall r, r ∈ rows -> ar_user_id r = user -> (0 <= ar_identity_version r <= v)%Z /\
    (ar_identity_version r = v -> ar_account_id_pub r = hex_encode my_pub).

Definition published_at (rows : list AccountKeyRow) (user : string) (v : Z) : bool :=
  existsb (fun r => bool_decide (ar_user_id r = user) && (ar_identity_version r =? v)%Z) rows.

Lemma derive_honest rows sk ts b user my_pub v :
  build_account_bundle rows sk ts = Ok b -> ordered (fun x y => (ar_seq x <= ar_seq y)%Z) rows ->
  device_current rows user my_pub v -> (v < 2 ^ 63)%Z ->
  exists r, derive_self_audit (Account.verify_account_in_bundle b user) PINNED_LOG_PUBLIC_KEY (hex_encode my_pub) v = Some r /\
    sa_status r = if published_at rows user v then AuditOk else Pending.
Proof.
  intros Hb Ho Hcur Hv. destruct (account_report_complete rows sk ts b user Hb Ho) as (Hc & _ & _ & _ & Hks).
  unfold derive_self_audit. change (served_key_matches_pin PINNED_LOG_PUBLIC_KEY) with true. cbn [negb]. rewrite Hc. cbn [negb].
  set (rep := Account.verify_account_in_bundle b user) in *. pose proof (latest_version_spec rep) as Hl.
  assert (forall r, r ∈ rows -> ar_user_id r = user -> exists k, k ∈ Account.ar_keys rep /\
    Account.kv_identity_version k = Z.to_N (ar_identity_version r)) as Hin.
  { intros r Hr Hu. destruct (Hcur r Hr Hu) as [Hrange _]. rewrite Hks.
    eexists. split; [apply list_elem_of_fmap; exists (AccountKeyRow_to_leaf r); split; [reflexivity|]|simpl; lia].
    apply list_elem_of_In, List.filter_In. split; [by apply in_map, list_elem_of_In|]. by apply bool_decide_eq_true. }
  destruct (latest_version rep) as [l|].
  - destruct Hl as [Hlk Hmax]. rewrite Hks in Hlk. apply list_elem_of_fmap in Hlk as (leaf & -> & Hleaf).
    apply list_elem_of_In, List.filter_In in Hleaf as [(r & <- & Hr%list_elem_of_In)%in_map_iff Hu%bool_decide_eq_true].
    cbn in Hu |- *. destruct (Hcur r Hr Hu) as [Hrange Hkey]. rewrite Z.max_l, u64_to_i64_small by lia.
    destruct (Z.compare_spec (ar_identity_version r) v) as [Hv'|Hv'|Hv']; [| |lia].
    + rewrite (Hkey Hv'), eq_ignore_case_refl. eexists. split; [done|]. cbn.
      assert (published_at rows user v = true) as ->; [|done].
      apply existsb_exists. exists r. split; [by apply list_elem_of_In|]. rewrite bool_decide_eq_true_2 by done. by apply Z.eqb_eq.
    + eexists. split; [done|]. cbn. destruct (published_at rows user v) eqn:Ep; [|done].
      apply existsb_exists in Ep as (r' & Hr'%list_elem_of_In & [Hu'%bool_decide_eq_true Hv''%Z.eqb_eq]%andb_true_iff).
      destruct (Hin r' Hr' Hu') as (k & Hk & Hkv). specialize (Hmax k Hk). cbn in Hmax. destruct (Hcur r' Hr' Hu'). lia.
  - eexists. split; [done|]. cbn. destruct (published_at rows user v) eqn:Ep; [|done].
    apply existsb_exists in Ep as (r' & Hr'%list_elem_of_In & [Hu'%bool_decide_eq_true _]%andb_true_iff).
    destruct (Hin r' Hr' Hu') as (k & Hk & _). rewrite Hl in Hk. by apply elem_of_nil in Hk.
Qed.

Lemma honest_self_audit rows sk ts b m user my_pub v answer t :
  build_account_bundle rows sk ts = Ok b -> ordered (fun x y => (ar_seq x <= ar_seq y)%Z) rows ->
  hex_encode (vk_to_bytes (verifying_key sk)) = PINNED_LOG_PUBLIC_KEY -> holds_tree ACCOUNT_API_PREFIX b m files ->
  fetch_account_key answer user = Ok (my_pub, v) -> device_current rows user my_pub v -> (v < 2 ^ 63)%Z ->
  exists r, (self_audit_account_key host proxy_new overlay base user answer t).2 = Some (Ok r) /\
    sa_status r = if published_at rows user v then AuditOk else Pending.
Proof.
  intros Hb Ho Hsk Hh Ha Hcur Hv. destruct (derive_honest rows sk ts b user my_pub v Hb Ho Hcur Hv) as (r & Hr & Hs).
  exists r. split; [|done]. destruct (build_account_bundle_built _ _ _ _ Hb) as [log Hlog].
  pose proof (built_sealed _ _ _ _ _ _ _ _ _ _ Hlog) as Hse.
  destruct (sealed_latest _ _ _ _ _ Hse) as (s & Hl & _).
  assert (sths b <> []) as Hn by (intros E; by rewrite E in Hl).
  unfold self_audit_account_key. rewrite Ha. unfold fbind, fetch_and_verify, fbind.
  rewrite (served_key b m t Hh) by (by rewrite (sealed_key _ _ _ _ _ Hse)).
  rewrite (account_via_served host proxy_new base _ agent files Hserves Hagent b m) by done.
  cbn [fret fst snd]. by rewrite Hr.
Qed.

Lemma ordered_take {A} (R : A -> A -> Prop) n (l : list A) : ordered R l -> ordered R (take n l).
Proof. intros Ho i j x y Hij [Hx _]%lookup_take_Some [Hy _]%lookup_take_Some. by apply (Ho i j). Qed.

(** The published rows of one user, as key-log rows. *)
Lemma account_row_elem db n r : r ∈ take n (account_rows db) <->
  exists i k, i < n /\ key_log (accounts db) !! i = Some k /\
    r = mkAccountKeyRow (Z.of_nat (S i)) (kl_user_id k) (kl_identity_version k) (hex_encode (kl_account_id_pub k)).
Proof.
  rewrite list_elem_of_lookup. split.
  - intros [i [Hr Hi]%lookup_take_Some]. unfold account_rows in Hr.
    apply list_lookup_imap_Some in Hr as (k & Hk & ->). by exists i, k.
  - intros (i & k & Hi & Hk & ->). exists i. apply lookup_take_Some. split; [|done].
    apply list_lookup_imap_Some. by exists k.
Qed.

Lemma live_key_newest db u row pub k : keys_ok db -> Tables.users db !! u = Some row -> prf_account_id_pub row = Some pub ->
  k ∈ key_log (accounts db) -> kl_user_id k = u ->
  (0 <= kl_identity_version k <= prf_identity_version row)%Z /\
  (kl_identity_version k = prf_identity_version row -> k = mkKeyLog u pub (prf_identity_version row)).
Proof.
  intros Hk Hrow Hpub Hin Hu. pose proof (ko_head _ Hk u row Hrow) as Hh. rewrite Hpub in Hh. destruct Hh as [l Hl].
  pose proof (chain_ordered _ (ko_chain _ Hk u)) as Ho. apply ordered_map in Ho.
  assert (k ∈ AccountRoutes.log_of u db) as Hku.
  { unfold AccountRoutes.log_of. apply list_elem_of_In, List.filter_In. split; [by apply list_elem_of_In|].
    by apply bool_decide_eq_true. }
  rewrite Hl in Hku, Ho. apply elem_of_app in Hku as [Hkl|Hkl%list_elem_of_singleton].
  - apply ordered_snoc in Ho as [_ Hlast]. rewrite Forall_forall in Hlast. specialize (Hlast k Hkl). cbn in Hlast. lia.
  - subst k. cbn in *. split; [|done].
    pose proof (ko_chain _ Hk u) as Hc. rewrite Hl, map_app in Hc. cbn [map kl_identity_version] in Hc.
    pose proof (chain_ordered _ Hc) as Ho2. apply ordered_snoc in Ho2 as [_ Hf].
    destruct (map kl_identity_version l) as [|x vs]; [cbn in Hc; lia|]. apply Forall_cons in Hf as [Hx _]. lia.
Qed.

Lemma published_prefix db n u row pub sk ts m t :
  keys_ok db -> Tables.users db !! u = Some row -> prf_account_id_pub row = Some pub -> (prf_identity_version row < 2 ^ 63)%Z ->
  hex_encode (vk_to_bytes (verifying_key sk)) = PINNED_LOG_PUBLIC_KEY ->
  exists b, build_account_bundle (take n (account_rows db)) sk ts = Ok b /\
    (holds_tree ACCOUNT_API_PREFIX b m files ->
     exists r, (self_audit_account_key host proxy_new overlay base u
                  (Ok (Some (prf_account_id_pub row, Some (prf_identity_version row)))) t).2 = Some (Ok r) /\
       sa_status r = if bool_decide (mkKeyLog u pub (prf_identity_version row) ∈ take n (key_log (accounts db)))
                     then AuditOk else Pending).
Proof.
  intros Hk Hrow Hpub Hv Hsk. set (rows := take n (account_rows db)).
  assert (exists b, build_account_bundle rows sk ts = Ok b) as [b Hb].
  { apply build_account_bundle_iff. unfold rows. rewrite <- firstn_map. apply ordered_take, account_rows_ordered, Hk. }
  exists b. split; [done|]. intros Hh.
  assert (device_current rows u pub (prf_identity_version row)) as Hcur.
  { intros r (i & k & Hi & Hki & ->)%account_row_elem Hu. cbn in *. apply list_elem_of_lookup_2 in Hki.
    destruct (live_key_newest db u row pub k Hk Hrow Hpub Hki Hu) as [Hr He]. split; [done|]. intros E. by rewrite (He E). }
  destruct (honest_self_audit rows sk ts b m u pub (prf_identity_version row)
    (Ok (Some (prf_account_id_pub row, Some (prf_identity_version row)))) t) as (r & Hr & Hs); try done.
  - apply ordered_take, account_rows_seq.
  - cbn. by rewrite Hpub.
  - exists r. split; [done|]. rewrite Hs.
    assert (published_at rows u (prf_identity_version row) =
      bool_decide (mkKeyLog u pub (prf_identity_version row) ∈ take n (key_log (accounts db)))) as ->; [|done].
    apply Bool.eq_iff_eq_true. rewrite bool_decide_eq_true. unfold published_at. rewrite existsb_exists. split.
    + intros (x & Hx%list_elem_of_In & [Hu%bool_decide_eq_true Hxv%Z.eqb_eq]%andb_true_iff).
      apply account_row_elem in Hx as (i & k & Hi & Hki & ->). cbn in *.
      destruct (live_key_newest db u row pub k Hk Hrow Hpub (list_elem_of_lookup_2 _ _ _ Hki) Hu) as [_ He].
      rewrite <- (He Hxv). apply list_elem_of_lookup. exists i. by apply lookup_take_Some.
    + intros [i [Hki Hi]%lookup_take_Some]%list_elem_of_lookup. eexists. split.
      * apply list_elem_of_In, account_row_elem. by exists i, (mkKeyLog u pub (prf_identity_version row)).
      * cbn. by rewrite bool_decide_eq_true_2, Z.eqb_refl.
Qed.

(** C32: an honestly published log alarms no one.  Take any state the account routes can leave
    ([keys_ok], which every sequence of requests to the service keeps), publish the account
    log as it was after its first [n] rows, under the pinned key, on any host that serves the
    generated tree.  The log builds, and the self-audit of every user with an identity, run
    against the user's current row, ends in [AuditOk] if the published prefix holds the
    current key and in [Pending] if it does not yet. *)
Theorem honest_log_no_alarm db n u row pub sk ts m t :
  keys_ok db -> Tables.users db !! u = Some row -> prf_account_id_pub row = Some pub -> (prf_identity_version row < 2 ^ 63)%Z ->
  hex_encode (vk_to_bytes (verifying_key sk)) = PINNED_LOG_PUBLIC_KEY ->
  exists b, build_account_bundle (take n (account_rows db)) sk ts = Ok b /\
    (holds_tree ACCOUNT_API_PREFIX b m files ->
     exists r, (self_audit_account_key host proxy_new overlay base u
                  (Ok (Some (prf_account_id_pub row, Some (prf_identity_version row)))) t).2 = Some (Ok r) /\
       sa_status r = if bool_decide (mkKeyLog u pub (prf_identity_version row) ∈ take n (key_log (accounts db)))
                     then AuditOk else Pending).
Proof. exact (published_prefix db n u row pub sk ts m t). Qed.
End Honest.

(** After any sequence of requests to the service, so is every user of the published log. *)
Lemma served_log_no_alarm `{SerdePretty PublicKeyDoc, !SerdePrettyLaws PublicKeyDoc} `{SerdePretty Sth, !SerdePrettyLaws Sth}
    `{SerdePretty (list Entry), !SerdePrettyLaws (list Entry)} `{SerdePretty Entry, !SerdePrettyLaws Entry}
    `{SerdePretty InclusionProof, !SerdePrettyLaws InclusionProof} `{SerdePretty ConsistencyProof, !SerdePrettyLaws ConsistencyProof}
    `{Sha256, !Sha256Laws} `{Hex, !HexLaws} `{!Ed25519, !Ed25519Laws} `{!Base64} `{!MainBodies} `{!JsonBodies} `{!OtpBodies} `{!Lowercase}
    `{!SerdeJson AccountKey.AccountKeyLeaf, !SerdeJsonLaws AccountKey.AccountKeyLeaf}
    host proxy_new base files overlay agent rqs s u row pub sk ts m t :
  serves host (trim_end_slashes base) files -> build_agent proxy_new (overlay_proxy overlay) = Ok agent ->
  to_lowercase PINNED_LOG_PUBLIC_KEY = PINNED_LOG_PUBLIC_KEY -> hex_encode (vk_to_bytes (verifying_key sk)) = PINNED_LOG_PUBLIC_KEY ->
  require_auth (app s) = true -> Forall (fun q => in_range q.2) rqs -> fresh_ids rqs s -> identities_ok (tables s) ->
  let db := tables (serve_all rqs s) in
  Tables.users db !! u = Some row -> prf_account_id_pub row = Some pub -> (prf_identity_version row < 2 ^ 63)%Z ->
  exists b, build_account_bundle (account_rows db) sk ts = Ok b /\
    (holds_tree ACCOUNT_API_PREFIX b m files ->
     exists r, (self_audit_account_key host proxy_new overlay base u
                  (Ok (Some (prf_account_id_pub row, Some (prf_identity_version row)))) t).2 = Some (Ok r) /\
       sa_status r = AuditOk).
Proof.
  intros Hs Ha Hlow Hsk Hau Hr Hf Hi db Hrow Hpub Hv. destruct (serve_all_identities rqs s Hau Hr Hf Hi) as [_ [Hk _]].
  destruct (published_prefix host proxy_new base files overlay agent Hs Ha Hlow db (length (account_rows db)) u row pub sk ts m t
    Hk Hrow Hpub Hv Hsk) as (b & Hb & Haudit).
  rewrite take_ge in Hb by done. exists b. split; [done|]. intros Hh. destruct (Haudit Hh) as (r & Hr' & Hst).
  exists r. split; [done|]. rewrite Hst, take_ge by (unfold account_rows; by rewrite length_imap).
  rewrite bool_decide_eq_true_2; [done|]. pose proof (ko_head _ Hk u row Hrow) as Hh'. rewrite Hpub in Hh'.
  destruct Hh' as [l Hl]. fold db in Hl. assert (mkKeyLog u pub (prf_identity_version row) ∈ AccountRoutes.log_of u db) as Hin by (rewrite Hl; set_solver).
  apply list_elem_of_In, List.filter_In in Hin as [Hin _]. by apply list_elem_of_In.
Qed.

(** ** Evaluation *)

Section Concrete.
Import WireJson.
#[local] Instance no_case : Lowercase := {| to_lowercase s := s |}.

#[local] Definition pinned_bytes : bytes := match hex_decode PINNED_LOG_PUBLIC_KEY with Ok b => b | Err _ => [] end.

(** In the stand-in for signatures a key is its own verifying key, so the pinned key signs. *)
#[local] Definition log_key : SigningKey := ClearSig.Seed pinned_bytes eq_refl.

#[local] Definition other_key : SigningKey := ClearSig.repeat_seed Byte.x66.

#[local] Definition key_tree (rows : list AccountKeyRow) (sk : SigningKey) : Bundle :=
  match build_account_bundle rows sk 9 with Ok b => b | Err _ => mkBundle "" [] [] [] [] [] end.

#[local] Definition host_of_tree (b : Bundle) : Host := static_host "https://v.test" (account_site b).

#[local] Definition any_proxy (_ : string) : Result unit string := Ok tt.

(** *** A user, the service's tables and the published log *)

#[local] Definition al_row : ProfileRow := mkProfile "al" None None None "a@x.io" (Some [x01]) 1.

#[local] Definition service_db : MsgDb :=
  mkMsgDb {["al" := al_row]} ∅ [] ∅ ∅ ∅ ∅ ∅ ∅ ∅ ∅ ∅ ∅ ∅ ∅ (mkAccountDb [mkKeyLog "al" [x01] 1] ∅ [] ∅ ∅ ∅ ∅).

#[local] Lemma service_keys : keys_ok service_db.
Proof.
  split.
  - intros u. unfold AccountRoutes.log_of, AccountRoutes.of_user. cbn. case_bool_decide; cbn; [|done]. split; [lia|]. by split.
  - intros u r Hr. cbn in Hr. apply lookup_singleton_Some in Hr as [<- <-]. by exists [].
Qed.

#[local] Definition al_tree : Bundle := key_tree (account_rows service_db) log_key.

#[local] Definition al_answer : Result (option (option bytes * option Z)) string := Ok (Some (Some [x01], Some 1%Z)).

#[local] Definition al_index : bytes := json_of (mkAccountManifest (tree_index al_tree) (users_of al_tree)).

#[local] Lemma al_tree_built : build_account_bundle (take 1 (account_rows service_db)) log_key 9 = Ok al_tree.
Proof. vm_compute. reflexivity. Qed.

#[local] Lemma al_tree_held : holds_tree ACCOUNT_API_PREFIX al_tree al_index (account_site al_tree).
Proof. apply (tree_with_holds ACCOUNT_API_PREFIX al_tree "verify/account/"). exact (reports_apart Accounts Accounts). Qed.

#[local] Lemma log_key_pinned : hex_encode (vk_to_bytes (verifying_key log_key)) = PINNED_LOG_PUBLIC_KEY.
Proof. vm_compute. reflexivity. Qed.

Lemma honest_log_no_alarm_witness : exists r,
  (self_audit_account_key (host_of_tree al_tree) any_proxy (Some "127.0.0.1:9") "https://v.test/" "al" al_answer []).2 =
    Some (Ok r) /\ sa_status r = AuditOk.
Proof.
  destruct (honest_log_no_alarm (host_of_tree al_tree) any_proxy "https://v.test/" (account_site al_tree) (Some "127.0.0.1:9")
    (Through "socks5://127.0.0.1:9") (static_host_serves "https://v.test" (account_site al_tree)) eq_refl
    (eq_refl : @to_lowercase no_case PINNED_LOG_PUBLIC_KEY = PINNED_LOG_PUBLIC_KEY)
    service_db 1 "al" al_row [x01] log_key 9 al_index [] service_keys eq_refl eq_refl eq_refl log_key_pinned) as (b & Hb & Haudit).
  assert (b = al_tree) as Eb by (rewrite al_tree_built in Hb; by injection Hb). subst b. exact (Haudit al_tree_held).
Defined.

(** *** A clean audit and a verified build, and what they establish *)

#[local] Definition al_audit := self_audit_account_key (host_of_tree al_tree) any_proxy None "https://v.test" "al" al_answer [].

#[local] Definition al_report := match al_audit.2 with Some (Ok r) => r | _ => mkSelfAudit Unavailable ChainFailed 0 "" None end.

#[local] Lemma al_audit_ok : al_audit = (al_audit.1, Some (Ok al_report)).
Proof.
  assert (match al_audit.2 with Some (Ok _) => true | _ => false end = true) as Hs by (vm_compute; reflexivity).
  unfold al_report. destruct al_audit as [t' [[r|]|]]; done.
Qed.

Lemma self_audit_sound_witness : exists my_pub b s, fetch_account_key al_answer "al" = Ok (my_pub, 1%Z) /\
  pinned_fetch al_audit.1 "https://v.test/v1/account-keys" b s /\ head_signed b s AccountKey.STH_CONTEXT.
Proof.
  destruct (self_audit_sound (host_of_tree al_tree) any_proxy None "https://v.test" "al" al_answer [] al_audit.1 al_report
    al_audit_ok ltac:(vm_compute; reflexivity)) as (my_pub & b & s & Ha & Hp & Hs & _).
  exists my_pub, b, s. split; [exact Ha|]. split; [exact Hp|exact Hs].
Defined.

#[local] Definition exe_process : Process := mkProcess true (Some "/p.AppImage") (Ok "/opt/p") (fun _ => Ok [x01; x02]).

#[local] Definition exe_hash : string := hex_encode (sha256 [x01; x02]).

#[local] Definition released : list Binaries.BinaryRecord :=
  [Binaries.mkBinaryRecord "v1" "c" "l" "a" "i" "a" Binaries.Payload exe_hash "p" (Binaries.mkToolchain "" "" "" "" 5) "u"].

#[local] Definition release_tree : Bundle :=
  match build_binaries_bundle released log_key 9 with Ok b => b | Err _ => mkBundle "" [] [] [] [] [] end.

#[local] Definition build_run := verify_own_build (static_host "https://v.test" (binaries_site release_tree)) any_proxy exe_process
  "1" None None "https://v.test" [].

#[local] Definition build_report :=
  match build_run.2 with Some r => r | None => mkBuildVerify BuildUnavailable ChainFailed "" None "" None end.

#[local] Lemma build_run_ok : verify_own_build (static_host "https://v.test" (binaries_site release_tree)) any_proxy exe_process
  "1" None None "https://v.test" [] = (build_run.1, Some build_report).
Proof.
  fold build_run. assert (match build_run.2 with Some _ => true | None => false end = true) as Hs by (vm_compute; reflexivity).
  unfold build_report. destruct build_run as [t' [r|]]; done.
Qed.

#[local] Lemma build_report_verified : bv_status build_report = Verified.
Proof. vm_compute. reflexivity. Qed.

Lemma build_verified_sound_witness : exists p b s, compute_my_payload exe_process = Ok p /\
  pinned_fetch build_run.1 "https://v.test/v1/binaries" b s /\ head_signed b s Binaries.STH_CONTEXT.
Proof.
  destruct (build_verified_sound (static_host "https://v.test" (binaries_site release_tree)) any_proxy exe_process "1" None None
    "https://v.test" [] build_run.1 build_report build_run_ok build_report_verified) as (p & b & s & Hp & _ & Hf & Hs & _).
  exists p, b, s. split; [exact Hp|]. split; [exact Hf|exact Hs].
Defined.

(** *** What the audits do not notice *)

#[local] Definition status_of (r : option (Result (SelfAuditReport (JsonError (A:=AccountKey.AccountKeyLeaf))) string)) : option AuditStatus :=
  match r with Some (Ok rep) => Some (sa_status rep) | _ => None end.

#[local] Definition peer_status (r : option (Result (PeerAuditReport (JsonError (A:=AccountKey.AccountKeyLeaf))) string)) : option AuditStatus :=
  match r with Some (Ok rep) => Some (pa_status rep) | _ => None end.

(** The pin is checked on one fetch of the key document and the tree on another.  A host that
    serves the pinned key first and its own tree afterwards has a forged key of a peer
    confirmed. *)
#[local] Definition forged_tree : Bundle := key_tree [mkAccountKeyRow 1 "bo" 1 "ff"] other_key.

#[local] Definition two_faced : Host := fun t agent url =>
  match t with
  | [] => Page (compact_of (mkPublicKeyDoc PINNED_LOG_PUBLIC_KEY))
  | _ => host_of_tree forged_tree t agent url
  end.

Example pin_checked_on_another_fetch :
  served_key_matches_pin (public_key forged_tree) = false /\
  peer_status (audit_peer_account_key two_faced any_proxy None "https://v.test" "bo" true (Ok ([xff], 1%Z)) []).2 = Some AuditOk /\
  peer_status (audit_peer_account_key (host_of_tree forged_tree) any_proxy None "https://v.test" "bo" true (Ok ([xff], 1%Z)) []).2 =
    Some Alarm.
Proof. split_and!; vm_compute; reflexivity. Qed.

(** The entries served are not checked against the size of the head.  A host that leaves out
    the entry of a rotation the user never made has that user's self-audit pass. *)
#[local] Definition rotated_tree : Bundle :=
  key_tree [mkAccountKeyRow 1 "al" 1 "01"; mkAccountKeyRow 2 "al" 2 "66"] log_key.

#[local] Definition withholding : Artifacts :=
  <["v1/account-keys/entries.json" := json_of (take 1 (bundle_entries rotated_tree))]> (account_site rotated_tree).

Example rotation_withheld :
  status_of (self_audit_account_key (static_host "https://v.test" withholding) any_proxy None "https://v.test" "al" al_answer []).2 =
    Some AuditOk /\
  status_of (self_audit_account_key (host_of_tree rotated_tree) any_proxy None "https://v.test" "al" al_answer []).2 = Some Alarm /\
  map tree_size (sths rotated_tree) = [1; 2]%N.
Proof. split_and!; vm_compute; reflexivity. Qed.

(** A wrong key raises the alarm, unless it is long enough and has a multi-byte character
    across the sixth byte: then the audit panics while printing it. *)
#[local] Definition key_host (key : string) : Host := fun t agent url =>
  match t with [] => Page (compact_of (mkPublicKeyDoc key)) | _ => host_of_tree al_tree t agent url end.

Example alarm_panics :
  status_of (self_audit_account_key (key_host "66666666666666") any_proxy None "https://v.test" "al" al_answer []).2 = Some Alarm /\
  (self_audit_account_key (key_host "66666é6666666") any_proxy None "https://v.test" "al" al_answer []).2 = None.
Proof. split; vm_compute; reflexivity. Qed.
End Concrete.
