(* ===== verification/Socks.v ===== *)
(** * pollis-relay and pollis-core: the two ends of the loopback SOCKS5 shim

    Models [serve_conn] of [pollis-relay/src/shim.rs] and [socks5_connect] of
    [pollis-core/src/net/overlay.rs].  Each end is a process that writes bytes, waits for an
    exact number of bytes, or stops; [step] lets either end move, with the bytes in flight
    in between, so a run is any interleaving of the two.

    [step_diamond] says that the order of moves does not matter; with it [socks_agree] says
    that every run of the client against the shim ends, without deadlock, with the host and
    port the client asked for routed by the policy, and the client told the truth about it. *)

From stdpp Require Import base list strings relations.
From Stdlib Require Import NArith ZArith Lia ZifyNat ZifyN.
From Stdlib Require Import Strings.Byte.
From S2P Require Import Prelude Crypto Relay Overlay.

(** ** Processes on a socket *)

Inductive Sock (A : Type) : Type :=
| Done (a : A)
| Bail (msg : string)
| ReadExact (n : nat) (k : bytes -> Sock A)
| WriteAll (b : bytes) (k : Sock A).
Arguments Done {A}.
Arguments Bail {A}.
Arguments ReadExact {A}.
Arguments WriteAll {A}.

Definition read_u8 {A} (k : byte -> Sock A) : Sock A :=
  ReadExact 1 (fun b => match b with [x] => k x | _ => Bail "short read" end).

Definition read_u16 {A} (k : N -> Sock A) : Sock A := ReadExact 2 (fun b => k (be_value b)).

(** ** The shim *)

Definition SOCKS5_VERSION : byte := x05.
Definition SOCKS5_NO_AUTH : byte := x00.
Definition SOCKS5_CMD_CONNECT : byte := x01.
Definition ATYP_IPV4 : byte := x01.
Definition ATYP_DOMAIN : byte := x03.
Definition ATYP_IPV6 : byte := x04.
Definition REP_SUCCESS : byte := x00.
Definition REP_GENERAL_FAILURE : byte := x01.
Definition REP_HOST_UNREACHABLE : byte := x04.
Definition REP_CMD_NOT_SUPPORTED : byte := x07.

(** [reply]: the bound address is 0.0.0.0:0. *)
Definition reply {A} (code : byte) (k : Sock A) : Sock A :=
  WriteAll [SOCKS5_VERSION; code; x00; ATYP_IPV4; x00; x00; x00; x00; x00; x00] k.

(** What the shim did for a connection: nothing, or routed a request. *)
Inductive Served (Stream : Type) : Type :=
| NoRequest
| Routed (host : string) (port : N) (dials : list Policy.Dial) (res : Result Stream Policy.FinalAction).
Arguments NoRequest {Stream}.
Arguments Routed {Stream}.

Section Shim.
Context {Stream : Type} (circuit direct : string -> N -> option Stream) (policy : Policy.RoutingPolicy).
(** [Ipv4Addr] and [Ipv6Addr] as text. *)
Context (ipv4_text ipv6_text : bytes -> string).

(** The request once host, port and command are read. *)
Definition serve_request (cmd : byte) (host : string) (port : N) : Sock (Served Stream) :=
  if negb (bool_decide (cmd = SOCKS5_CMD_CONNECT)) then reply REP_CMD_NOT_SUPPORTED (Done NoRequest)
  else
    let up := Policy.establish_upstream circuit direct (Policy.plan policy host) host port in
    let served := Routed host port up.1 up.2 in
    match up.2 with
    | Ok _ => reply REP_SUCCESS (Done served)
    | Err Policy.Degraded => reply REP_GENERAL_FAILURE (Done served)
    | Err _ => reply REP_HOST_UNREACHABLE (Done served)
    end.

Definition read_target (atyp : byte) (k : string -> Sock (Served Stream)) : Sock (Served Stream) :=
  if bool_decide (atyp = ATYP_IPV4) then ReadExact 4 (fun a => k (ipv4_text a))
  else if bool_decide (atyp = ATYP_IPV6) then ReadExact 16 (fun a => k (ipv6_text a))
  else if bool_decide (atyp = ATYP_DOMAIN) then
    read_u8 (fun len => ReadExact (N.to_nat (N_of_byte len)) (fun name =>
      if utf8_valid name then k (of_bytes name) else Bail "invalid domain in SOCKS request"))
  else reply REP_CMD_NOT_SUPPORTED (Bail "unsupported ATYP").

Definition serve_conn : Sock (Served Stream) :=
  read_u8 (fun ver =>
  if negb (bool_decide (ver = SOCKS5_VERSION)) then Bail "unsupported SOCKS version"
  else read_u8 (fun nmethods => ReadExact (N.to_nat (N_of_byte nmethods)) (fun methods =>
  if negb (bool_decide (SOCKS5_NO_AUTH ∈ methods)) then WriteAll [SOCKS5_VERSION; xff] (Done NoRequest)
  else WriteAll [SOCKS5_VERSION; SOCKS5_NO_AUTH] (
  read_u8 (fun ver => read_u8 (fun cmd => read_u8 (fun _rsv => read_u8 (fun atyp =>
  if negb (bool_decide (ver = SOCKS5_VERSION)) then Bail "unsupported SOCKS version in request"
  else read_target atyp (fun host => read_u16 (fun port => serve_request cmd host port)))))))))).
End Shim.

(** ** The client *)

(** Skipping the bound address and port of a reply. *)
Definition drain (atyp : byte) : Sock unit :=
  let port := ReadExact 2 (fun _ => Done tt) in
  if bool_decide (atyp = x01) then ReadExact 4 (fun _ => port)
  else if bool_decide (atyp = x04) then ReadExact 16 (fun _ => port)
  else if bool_decide (atyp = x03) then read_u8 (fun len => ReadExact (N.to_nat (N_of_byte len)) (fun _ => port))
  else Bail "overlay shim replied with unknown ATYP".

Definition socks5_request (host_bytes : bytes) (port : N) : bytes :=
  [x05; x01; x00; x03; byte_of_N (N.of_nat (length host_bytes))] ++ host_bytes ++ be_bytes 2 port.

Definition socks5_connect (host : string) (port : N) : Sock unit :=
  WriteAll [x05; x01; x00] (ReadExact 2 (fun method =>
  if bool_decide (method = [x05; x00]) then
    let host_bytes := as_bytes host in
    if 255 <? length host_bytes then Bail "overlay connector: host too long for SOCKS5"
    else WriteAll (socks5_request host_bytes port) (ReadExact 4 (fun head =>
      match head with
      | [_; rep; _; atyp] =>
          if negb (bool_decide (rep = x00)) then Bail "overlay shim CONNECT failed"
          else drain atyp
      | _ => Bail "short read"
      end))
  else Bail "overlay shim declined SOCKS5 no-auth")).

(** ** Running the two ends *)

Record Conv (A B : Type) : Type := mkConv {
  cv_client : Sock A;
  cv_server : Sock B;
  cv_to_server : bytes;
  cv_to_client : bytes
}.
Arguments mkConv {A B}.
Arguments cv_client {A B}.
Arguments cv_server {A B}.
Arguments cv_to_server {A B}.
Arguments cv_to_client {A B}.

(** One move of a process: the bytes it has read from and written to the wire. *)
Inductive move {A} : Sock A -> bytes -> bytes -> Sock A -> bytes -> bytes -> Prop :=
| move_write b k inp out : move (WriteAll b k) inp out k inp (out ++ b)
| move_read n k got inp out : length got = n -> move (ReadExact n k) (got ++ inp) out (k got) inp out.

Inductive step {A B} : Conv A B -> Conv A B -> Prop :=
| step_client c c' s to_s to_s' to_c to_c' : move c to_c to_s c' to_c' to_s' ->
    step (mkConv c s to_s to_c) (mkConv c' s to_s' to_c')
| step_server c s s' to_s to_s' to_c to_c' : move s to_s to_c s' to_s' to_c' ->
    step (mkConv c s to_s to_c) (mkConv c s' to_s' to_c').

Definition start {A B} (c : Sock A) (s : Sock B) : Conv A B := mkConv c s [] [].

(** ** The order of moves does not matter *)

Section Order.
Context {A B : Type}.

Lemma move_det {C} (c c1 c2 : Sock C) inp out inp1 out1 inp2 out2 :
  move c inp out c1 inp1 out1 -> move c inp out c2 inp2 out2 -> c1 = c2 /\ inp1 = inp2 /\ out1 = out2.
Proof.
  destruct 1 as [b k inp out|n k got inp out Hn]; intros Hm; inversion Hm as [|n' k' got' inp' out' Hn' E1 E2]; subst; [done|].
  symmetry in E2. apply app_inj_1 in E2 as [-> ->]; [done|congruence].
Qed.

(** A move does not depend on what is queued behind its input or already written. *)
Lemma move_frame {C} (c c' : Sock C) inp out inp' out' more pre :
  move c inp out c' inp' out' -> exists w, out' = out ++ w /\ move c (inp ++ more) pre c' (inp' ++ more) (pre ++ w).
Proof.
  destruct 1 as [b k inp out|n k got inp out Hn].
  - exists b. split; [done|]. constructor.
  - exists []. rewrite !app_nil_r. split; [done|]. rewrite <- app_assoc. by constructor.
Qed.

Lemma step_diamond (x y z : Conv A B) : step x y -> step x z -> y = z \/ exists w, step y w /\ step z w.
Proof.
  destruct 1 as [c c' s to_s to_s' to_c to_c' M1|c s s' to_s to_s' to_c to_c' M1];
    inversion 1 as [c2 c2' s2 ts ts' tc tc' M2|c2 s2 s2' ts ts' tc tc' M2]; subst.
  - destruct (move_det _ _ _ _ _ _ _ _ _ M1 M2) as (-> & -> & ->). by left.
  - right. destruct (move_frame _ _ _ _ _ _ [] to_s M1) as (w1 & -> & _).
    destruct (move_frame _ _ _ _ _ _ w1 to_c' M2) as (w2 & -> & M2').
    destruct (move_frame _ _ _ _ _ _ w2 ts' M1) as (w1' & E & M1'). apply app_inv_head in E as <-.
    exists (mkConv c' s2' (ts' ++ w1) (to_c' ++ w2)). split; by constructor.
  - right. destruct (move_frame _ _ _ _ _ _ [] to_c M1) as (w1 & -> & _).
    destruct (move_frame _ _ _ _ _ _ w1 to_s' M2) as (w2 & -> & M2').
    destruct (move_frame _ _ _ _ _ _ w2 tc' M1) as (w1' & E & M1'). apply app_inv_head in E as <-.
    exists (mkConv c2' s' (to_s' ++ w2) (tc' ++ w1)). split; by constructor.
  - destruct (move_det _ _ _ _ _ _ _ _ _ M1 M2) as (-> & -> & ->). by left.
Qed.

Lemma step_first (k : nat) (x y n : Conv A B) : nsteps step (S k) x n -> nf step n -> step x y -> nsteps step k y n.
Proof.
  revert x y. induction k as [|k IH]; intros x y Hx Hn Hy; inversion Hx as [|? ? z ? Hz Hzn]; subst;
    destruct (step_diamond x y z Hy Hz) as [->|(w & Hw & Hzw)]; try done.
  - inversion Hzn; subst. destruct Hn. by exists w.
  - econstructor; [done|]. by eapply IH.
Qed.

(** One run that ends decides all of them: each can be continued to the same end, in the
    same number of steps. *)
Lemma runs_agree (k : nat) (x n : Conv A B) : nsteps step k x n -> nf step n ->
  forall j y, nsteps step j x y -> j <= k /\ nsteps step (k - j) y n.
Proof.
  intros Hk Hn j. revert k x Hk. induction j as [|j IH]; intros k x Hk y Hj; inversion Hj as [|? ? z ? Hz Hzy]; subst.
  - by rewrite Nat.sub_0_r; split; [lia|].
  - destruct k as [|k]; [inversion Hk; subst; destruct Hn; by exists z|].
    destruct (IH k z (step_first _ _ _ _ Hk Hn Hz) y Hzy). split; [lia|done].
Qed.
End Order.

Section Moves.
Context {A B : Type}.

Lemma client_write (b : bytes) (k : Sock A) (s : Sock B) to_s to_c :
  step (mkConv (WriteAll b k) s to_s to_c) (mkConv k s (to_s ++ b) to_c).
Proof. apply step_client. constructor. Qed.

Lemma server_write (b : bytes) (c : Sock A) (k : Sock B) to_s to_c :
  step (mkConv c (WriteAll b k) to_s to_c) (mkConv c k to_s (to_c ++ b)).
Proof. apply step_server. constructor. Qed.

Lemma client_read n (k : bytes -> Sock A) (s : Sock B) got to_s to_c : length got = n ->
  step (mkConv (ReadExact n k) s to_s (got ++ to_c)) (mkConv (k got) s to_s to_c).
Proof. intros Hn. apply step_client. by constructor. Qed.

Lemma server_read n (c : Sock A) (k : bytes -> Sock B) got to_s to_c : length got = n ->
  step (mkConv c (ReadExact n k) (got ++ to_s) to_c) (mkConv c (k got) to_s to_c).
Proof. intros Hn. apply step_server. by constructor. Qed.

Lemma server_read_u8 (c : Sock A) (k : byte -> Sock B) x to_s to_c :
  step (mkConv c (read_u8 k) (x :: to_s) to_c) (mkConv c (k x) to_s to_c).
Proof. exact (server_read 1 c (fun b => match b with [x] => k x | _ => Bail "short read" end) [x] to_s to_c eq_refl). Qed.
End Moves.

(** One move of a run, by the lemma that makes it. *)
Tactic Notation "advance" open_constr(l) := eapply rtc_l; [eapply l; reflexivity|]; cbv beta iota.

Section Agreement.
Context {Stream : Type} (circuit direct : string -> N -> option Stream) (policy : Policy.RoutingPolicy).
Context (ipv4_text ipv6_text : bytes -> string).

#[local] Notation shim := (serve_conn circuit direct policy ipv4_text ipv6_text).

(** Both ends after the greeting. *)
Lemma greeting host port :
  rtc step (start (socks5_connect host port) shim)
    (mkConv (if 255 <? length (as_bytes host) then Bail "overlay connector: host too long for SOCKS5"
             else WriteAll (socks5_request (as_bytes host) port) (ReadExact 4 (fun head =>
               match head with
               | [_; rep; _; atyp] => if negb (bool_decide (rep = x00)) then Bail "overlay shim CONNECT failed" else drain atyp
               | _ => Bail "short read"
               end)))
       (read_u8 (fun ver => read_u8 (fun cmd => read_u8 (fun _rsv => read_u8 (fun atyp =>
          if negb (bool_decide (ver = SOCKS5_VERSION)) then Bail "unsupported SOCKS version in request"
          else read_target ipv4_text ipv6_text atyp (fun host => read_u16 (fun port =>
            serve_request circuit direct policy cmd host port))))))) [] []).
Proof.
  unfold start, socks5_connect. advance client_write. unfold serve_conn at 1.
  advance server_read_u8. rewrite bool_decide_eq_true_2 by done. cbn [negb].
  advance server_read_u8. change (N.to_nat (N_of_byte x01)) with 1.
  advance (server_read 1 _ _ [x00]). rewrite bool_decide_eq_true_2 by set_solver. cbn [negb].
  advance server_write. advance (client_read 2 _ _ [x05; x00]).
  rewrite bool_decide_eq_true_2 by done. apply rtc_refl.
Qed.

(** The request and its answer. *)
Definition told (res : Result Stream Policy.FinalAction) : Sock unit :=
  match res with Ok _ => Done tt | Err _ => Bail "overlay shim CONNECT failed" end.

Definition unread (res : Result Stream Policy.FinalAction) : bytes :=
  match res with Ok _ => [] | Err _ => [x00; x00; x00; x00; x00; x00] end.

Lemma request host port : length (as_bytes host) <= 255 -> utf8_valid (as_bytes host) = true -> (port < 65536)%N ->
  let up := Policy.establish_upstream circuit direct (Policy.plan policy host) host port in
  rtc step (start (socks5_connect host port) shim)
    (mkConv (told up.2) (Done (Routed host port up.1 up.2)) [] (unread up.2)).
Proof.
  intros Hl Hu Hp up. etransitivity; [apply greeting|].
  destruct (Nat.ltb_spec 255 (length (as_bytes host))); [lia|]. advance client_write.
  do 4 advance server_read_u8. rewrite bool_decide_eq_true_2 by done. cbn [negb].
  change (read_target ipv4_text ipv6_text x03) with (fun k : string -> Sock (Served Stream) =>
    read_u8 (fun len => ReadExact (N.to_nat (N_of_byte len)) (fun name =>
      if utf8_valid name then k (of_bytes name) else Bail "invalid domain in SOCKS request"))). cbv beta.
  advance server_read_u8. rewrite N_of_byte_of_N, N.mod_small, Nat2N.id by lia.
  advance (server_read (length (as_bytes host)) _ _ (as_bytes host)). rewrite Hu, of_bytes_as_bytes.
  unfold read_u16. rewrite <- (app_nil_r (be_bytes 2 port)).
  eapply rtc_l; [apply server_read, length_be_bytes|]. cbv beta.
  rewrite be_value_bytes, N.mod_small by (cbn; lia). unfold serve_request.
  change (bool_decide (x01 = SOCKS5_CMD_CONNECT)) with true. cbn [negb].
  fold up. destruct up as [ds [st|f]]; cbn [fst snd].
  - advance server_write. advance (client_read 4 _ _ [x05; x00; x00; x01]). rewrite bool_decide_eq_true_2 by done. cbn [negb].
    unfold drain. rewrite bool_decide_eq_true_2 by done.
    advance (client_read 4 _ _ [x00; x00; x00; x00]). advance (client_read 2 _ _ [x00; x00]). apply rtc_refl.
  - destruct f.
    + advance server_write. advance (client_read 4 _ _ [x05; x04; x00; x01]). rewrite bool_decide_eq_false_2 by done. apply rtc_refl.
    + advance server_write. advance (client_read 4 _ _ [x05; x04; x00; x01]). rewrite bool_decide_eq_false_2 by done. apply rtc_refl.
    + advance server_write. advance (client_read 4 _ _ [x05; x01; x00; x01]). rewrite bool_decide_eq_false_2 by done. apply rtc_refl.
Qed.

Lemma ended_nf {A B} (c : Sock A) (s : Sock B) to_s to_c :
  match c with Done _ | Bail _ => True | _ => False end -> match s with Done _ | Bail _ => True | _ => False end ->
  nf step (mkConv c s to_s to_c).
Proof.
  intros Hc Hs [y Hy]. inversion Hy as [? ? ? ? ? ? ? M|? ? ? ? ? ? ? M]; subst; inversion M; subst; done.
Qed.

(** C33: the conversation with the shim.  For a host name that fits a SOCKS5 request and any
    port, every interleaving of the client and the shim ends after the same number of moves:
    the shim has routed exactly the host and port asked for, as its policy plans, and the
    client has its stream exactly if that succeeded; no run is stuck before. *)
Theorem socks_agree (host : string) (port : N) :
  length (as_bytes host) <= 255 -> utf8_valid (as_bytes host) = true -> (port < 65536)%N ->
  let up := Policy.establish_upstream circuit direct (Policy.plan policy host) host port in
  let final := mkConv (told up.2) (Done (Routed host port up.1 up.2)) [] (unread up.2) in
  nf step final /\ exists k, forall j y, nsteps step j (start (socks5_connect host port) shim) y ->
    j <= k /\ nsteps step (k - j) y final.
Proof.
  intros Hl Hu Hp up final. assert (nf step final) as Hn by (apply ended_nf; [by destruct up as [? []]|done]).
  split; [done|]. destruct (proj1 (rtc_nsteps _ _) (request host port Hl Hu Hp)) as [k Hk].
  exists k. by apply runs_agree.
Qed.

(** A longer host name is refused by the client before anything is routed. *)
Lemma long_host_refused host port : 255 < length (as_bytes host) ->
  exists s, rtc step (start (socks5_connect host port) shim) (mkConv (Bail "overlay connector: host too long for SOCKS5") s [] []) /\
    nf step (mkConv (Bail (A:=unit) "overlay connector: host too long for SOCKS5") s [] []).
Proof.
  intros Hl. pose proof (greeting host port) as Hg. destruct (Nat.ltb_spec 255 (length (as_bytes host))); [|lia].
  eexists. split; [exact Hg|]. intros [y Hy]. inversion Hy as [? ? ? ? ? ? ? M|? ? ? ? ? ? ? M]; subst; inversion M as [|? ? got ? ? Hn E]; subst.
  destruct got; [|done]. done.
Qed.
End Agreement.

(** ** Evaluation *)

Section Concrete.
#[local] Definition strict : Policy.RoutingPolicy :=
  Policy.RoutingPolicy_new Policy.Strict (Hosts.from_patterns ["api.pollis.com"]) [].

#[local] Definition no_circuit (_ : string) (_ : N) : option unit := None.
#[local] Definition dialed (_ : string) (_ : N) : option unit := Some tt.

(** In strict mode without a relay the client is refused and nothing is dialed directly. *)
Lemma socks_agree_witness :
  let final := mkConv (Bail (A:=unit) "overlay shim CONNECT failed")
    (Done (Routed "api.pollis.com" 443 [Policy.CircuitDial "api.pollis.com" 443] (Err (A:=unit) Policy.Degraded)))
    [] [x00; x00; x00; x00; x00; x00] in
  exists k, forall j y, nsteps step j (start (socks5_connect "api.pollis.com" 443)
    (serve_conn no_circuit dialed strict (fun _ => "") (fun _ => ""))) y -> j <= k /\ nsteps step (k - j) y final.
Proof.
  refine (proj2 (socks_agree no_circuit dialed strict (fun _ => "") (fun _ => "") "api.pollis.com" 443 _ _ _)).
  - vm_compute. lia.
  - vm_compute. reflexivity.
  - reflexivity.
Defined.
End Concrete.
