(* ===== verification/Pool.v ===== *)
(** * pollis-core: the client side of the relay overlay

    Models [net/directory.rs] (verification of the signed relay directory), the overlay part
    of [config.rs], and of [net/overlay.rs] the routing policy, the relay pool with its
    health marks and failover, and the directory refresh loop; and [commands/overlay.rs],
    the engine that turns the overlay on, off and between its modes, with the [RemoteDb]
    handles it repoints.

    A dial is answered by the environment, per endpoint; instants are nanoseconds, the wall
    clock is in seconds.

    [pool_connect_exact]: a connect fails only if every endpoint was tried and failed.
    [refresh_loop_sound]: the pool is that of the last directory received that verified, and
    fetches keep their distance.  [overlay_planes]: which hosts go which way.
    [apply_mode_consistent]: a change of mode that returns leaves no half-routed state. *)

From stdpp Require Import countable base list strings.
From Stdlib Require Import NArith ZArith Lia ZifyNat ZifyN.
From Stdlib Require Import Strings.Byte.
From S2P Require Import Prelude Crypto Merkle Log Tenants Relay Overlay Delivery Text.

(** ** directory.rs *)

Inductive DirectoryError : Type :=
| DeFetch (msg : string)
| MalformedEnvelope
| MalformedPayload
| BadBase64 (what : string)
| BadPinnedKey
| BadSignatureLen
| BadSignature
| UnsupportedVersion (v : N)
| Expired (now expires_at : Z)
| EmptyRelays.

Record Envelope := mkEnvelope { payload_b64 : string; signature_b64 : string }.

Record DirectoryRelay := mkDirectoryRelay { dr_addr : string; dr_region : string; dr_cert_b64 : string }.

Record Directory := mkDirectory {
  dir_version : N;
  dir_issued_at : Z;
  dir_expires_at : Z;
  dir_relays : list DirectoryRelay
}.

Record RelayEndpoint := mkEndpoint { ep_addr : string; ep_cert : bytes }.

#[global] Instance RelayEndpoint_eq_dec : EqDecision RelayEndpoint.
Proof. solve_decision. Defined.

Section DirectoryOps.
Context `{Ed25519} `{!Base64} `{!SerdeJson Envelope} `{!SerdeJson Directory}.

(** [answer]: the bytes of the body, or why there are none. *)
Definition fetch_directory (answer : Result bytes string) : Result bytes DirectoryError := map_err DeFetch answer.

Definition verifying_key_from_b64 (pinned_pubkey_b64 : string) : Result VerifyingKey DirectoryError :=
  let? raw := ok_or (b64_decode_opt (trim pinned_pubkey_b64)) (BadBase64 "pinned key") in
  if length raw =? 32 then ok_or (vk_from_bytes raw) BadPinnedKey else Err BadPinnedKey.

Definition verify_directory (envelope_bytes : bytes) (pinned_pubkey_b64 : string) (now_secs : Z) : Result Directory DirectoryError :=
  let? envelope := map_err (fun _ => MalformedEnvelope) (from_slice (A:=Envelope) envelope_bytes) in
  let? payload := ok_or (b64_decode_opt (payload_b64 envelope)) (BadBase64 "payload_b64") in
  let? signature := ok_or (b64_decode_opt (signature_b64 envelope)) (BadBase64 "signature_b64") in
  let? vk := verifying_key_from_b64 pinned_pubkey_b64 in
  if negb (length signature =? 64) then Err BadSignatureLen
  else if negb (ed_verify vk payload signature) then Err BadSignature
  else
    let? directory := map_err (fun _ => MalformedPayload) (from_slice (A:=Directory) payload) in
    if negb (dir_version directory =? 1)%N then Err (UnsupportedVersion (dir_version directory))
    else if (dir_expires_at directory <=? now_secs)%Z then Err (Expired now_secs (dir_expires_at directory))
    else if bool_decide (length (dir_relays directory) = 0) then Err EmptyRelays
    else Ok directory.

(** Entries whose certificate does not decode are skipped. *)
Definition endpoint_of (r : DirectoryRelay) : option RelayEndpoint :=
  mkEndpoint (dr_addr r) <$> b64_decode_opt (trim (dr_cert_b64 r)).

Definition directory_to_endpoints (dir : Directory) : list RelayEndpoint := omap endpoint_of (dir_relays dir).
End DirectoryOps.

(** ** config.rs, the overlay fields *)

Record Config := mkConfig {
  turso_url : string;
  turso_token : string;
  log_db_url : option string;
  log_db_token : option string;
  r2_endpoint : string;
  r2_public_url : string;
  livekit_url : string;
  pollis_delivery_url : option string;
  overlay_mode : Policy.OverlayMode;
  overlay_relay_url : option string;
  overlay_relay_cert : option string;
  overlay_directory_url : option string;
  overlay_directory_key : option string
}.

Definition overlay_directory_configured (c : Config) : bool :=
  match overlay_directory_url c, overlay_directory_key c with Some _, Some _ => true | _, _ => false end.

Definition overlay_relay_endpoints (c : Config) : list string :=
  match overlay_relay_url c with
  | Some s => List.filter (fun e => negb (bool_decide (e = ""))) (map (fun e => trim (of_bytes e)) (split_on x2c (as_bytes s)))
  | None => []
  end.

Definition parse_overlay_mode (s : string) : Policy.OverlayMode :=
  let m := Hosts.to_ascii_lowercase (trim s) in
  if bool_decide (m = "prefer") then Policy.Prefer
  else if bool_decide (m = "strict") then Policy.Strict else Policy.Off.

(** ** overlay.rs: the policy *)

(** [split_once("://")]: what follows the first occurrence. *)
Fixpoint after_scheme (b : bytes) : option bytes :=
  match b with
  | [] => None
  | _ :: b' => match strip_prefix_bytes (as_bytes "://") b with Some rest => Some rest | None => after_scheme b' end
  end.

Fixpoint take_host (b : bytes) : bytes :=
  match b with
  | [] => []
  | x :: b' => if bool_decide (x ∈ as_bytes "/:?#") then [] else x :: take_host b'
  end.

Definition host_of (url : string) : option string :=
  let host := take_host (default (as_bytes url) (after_scheme (as_bytes url))) in
  if bool_decide (host = []) then None else Some (Hosts.to_ascii_lowercase (of_bytes host)).

Definition control_urls (c : Config) : list string :=
  omap id [Some (turso_url c); log_db_url c; pollis_delivery_url c; Some (r2_endpoint c); Some (r2_public_url c)].

Definition push_host (hosts : list string) (url : string) : list string :=
  match host_of url with
  | Some host => if bool_decide (host ∈ hosts) then hosts else hosts ++ [host]
  | None => hosts
  end.

Definition overlay_policy (c : Config) (mode : Policy.OverlayMode) : Policy.RoutingPolicy :=
  Policy.RoutingPolicy_new mode (Hosts.from_patterns (fold_left push_host (control_urls c) []))
    (Hosts.from_patterns (match host_of (livekit_url c) with Some h => [h] | None => [] end)).

(** [load_pinned_cert]: [is_file] and [read] stand for the file system. *)
Section StaticPool.
Context `{!Base64} (is_file : string -> bool) (read : string -> option bytes).

Definition load_pinned_cert (s : string) : option bytes :=
  let s := trim s in
  if bool_decide (s = "") then None
  else if is_file s then read s else b64_decode_opt s.

Definition load_relay_endpoints (c : Config) : list RelayEndpoint :=
  let addrs := overlay_relay_endpoints c in
  if bool_decide (addrs = []) then []
  else match overlay_relay_cert c ≫= load_pinned_cert with
       | Some cert => map (fun addr => mkEndpoint addr cert) addrs
       | None => []
       end.
End StaticPool.

(** ** overlay.rs: the relay pool *)

Definition RELAY_DEAD_COOLDOWN : N := 30 * 1000000000.

Definition RELAY_DIAL_TIMEOUT : N := 8 * 1000000000.

(** [fa_health]: the instant until which an endpoint counts as dead. *)
Record RelayFactory {Identity : Type} := mkFactory {
  fa_endpoints : list RelayEndpoint;
  fa_identity : option Identity;
  fa_health : list (option N);
  fa_next_start : N;
  fa_cooldown : N
}.
Arguments RelayFactory Identity : clear implicits.
Arguments mkFactory {Identity}.

Section Factory.
Context {Identity Stream : Type}.

Definition RealRelayFactory_new (endpoints : list RelayEndpoint) (cooldown : N) : RelayFactory Identity :=
  mkFactory endpoints None (repeat None (length endpoints)) 0 cooldown.

Definition in_cooldown (health : list (option N)) (now : N) (idx : nat) : bool :=
  match health !! idx with Some (Some until) => (now <? until)%N | _ => false end.

(** [next_start] is a [usize] counter that wraps around; [% n] panics on an empty pool. *)
Definition candidate_order (now : N) (f : RelayFactory Identity) : RelayFactory Identity * list nat :=
  let n := length (fa_endpoints f) in
  let start := N.to_nat (fa_next_start f mod N.of_nat n) in
  let order := map (fun i => (start + i) mod n) (seq 0 n) in
  (mkFactory (fa_endpoints f) (fa_identity f) (fa_health f) ((fa_next_start f + 1) mod 2 ^ 64) (fa_cooldown f),
   List.filter (fun idx => negb (in_cooldown (fa_health f) now idx)) order ++
   List.filter (in_cooldown (fa_health f) now) order).

Definition set_health (idx : nat) (h : option N) (f : RelayFactory Identity) : RelayFactory Identity :=
  mkFactory (fa_endpoints f) (fa_identity f) (<[idx := h]> (fa_health f)) (fa_next_start f) (fa_cooldown f).

Definition mark_dead (now : N) (idx : nat) (f : RelayFactory Identity) : RelayFactory Identity :=
  set_health idx (Some (now + fa_cooldown f)%N) f.

Definition mark_healthy (idx : nat) (f : RelayFactory Identity) : RelayFactory Identity := set_health idx None f.

(** What a dial of one endpoint comes to, and the instant it is known. *)
Inductive DialOutcome : Type :=
| Connected (s : Stream)
| DialFailed (e : string)
| TimedOut.

Context (dial : RelayEndpoint -> Identity -> N * DialOutcome).

(** The loop over the candidates: the endpoints tried, and the first success. *)
Fixpoint try_candidates (id : Identity) (order : list nat) (last_err : string) (f : RelayFactory Identity)
    : RelayFactory Identity * list nat * Result Stream string :=
  match order with
  | [] => (f, [], Err last_err)
  | idx :: order' =>
      match fa_endpoints f !! idx with
      | None => (f, [], Err "index out of bounds")
      | Some ep =>
          let (now, outcome) := dial ep id in
          let failed e :=
            let '(f', tried, r) := try_candidates id order' e (mark_dead now idx f) in (f', idx :: tried, r) in
          match outcome with
          | Connected s => (mark_healthy idx f, [idx], Ok s)
          | DialFailed e => failed e
          | TimedOut => failed (fmt ["overlay: relay "; ep_addr ep; " dial timed out"])
          end
      end
  end.

(** [build]: the identity put together from local state when none is cached. *)
Definition identity (build : Result Identity string) (f : RelayFactory Identity) : RelayFactory Identity * Result Identity string :=
  match fa_identity f with
  | Some id => (f, Ok id)
  | None =>
      match build with
      | Ok id => (mkFactory (fa_endpoints f) (Some id) (fa_health f) (fa_next_start f) (fa_cooldown f), Ok id)
      | Err e => (f, Err e)
      end
  end.

Definition connect (now : N) (build : Result Identity string) (f : RelayFactory Identity)
    : RelayFactory Identity * list nat * Result Stream string :=
  if bool_decide (fa_endpoints f = []) then (f, [], Err "overlay: no relay endpoint / pinned cert configured")
  else
    match identity build f with
    | (f1, Err e) => (f1, [], Err e)
    | (f1, Ok id) =>
        let (f2, order) := candidate_order now f1 in
        try_candidates id order "overlay: relay pool exhausted with no endpoints" f2
    end.

(** A connect through the swappable factory: whether it nudges the refresh loop. *)
Definition SwappableFactory_connect (now : N) (build : Result Identity string) (current : RelayFactory Identity)
    : RelayFactory Identity * Result Stream string * bool :=
  let '(f', _, r) := connect now build current in (f', r, negb (is_ok r)).
End Factory.

(** ** overlay.rs: the directory refresh loop *)

(** Seconds as nanoseconds. *)
Definition secs (n : N) : N := n * 1000000000.

Definition DIRECTORY_REFRESH_SKEW : Z := 5 * 60.
Definition DIRECTORY_MIN_REFRESH : N := 30.
Definition DIRECTORY_MAX_REFRESH : N := 55 * 60.
Definition DIRECTORY_RETRY_BACKOFF : N := 60.
Definition DIRECTORY_MIN_REFETCH : N := 15.

Definition saturate_i64 (z : Z) : Z := Z.max (- 2 ^ 63) (Z.min z (2 ^ 63 - 1)).

(** Seconds to sleep; [now] is the wall clock. *)
Definition until_refresh (now expires_at : Z) : N :=
  let s := saturate_i64 (wrap_i64 (expires_at - now) - DIRECTORY_REFRESH_SKEW) in
  N.max DIRECTORY_MIN_REFRESH (N.min (Z.to_N (Z.max s 0)) DIRECTORY_MAX_REFRESH).

Section Refresh.
Context `{Ed25519} `{!Base64} `{!SerdeJson Envelope} `{!SerdeJson Directory} (key : string).

(** A fetch: what the host answered, and the wall clock when it was verified. *)
Definition fetch_and_build_pool (answer : Result bytes string) (now : Z) : Result (list RelayEndpoint * Z) DirectoryError :=
  let? bytes := fetch_directory answer in
  let? dir := verify_directory bytes key now in
  let endpoints := directory_to_endpoints dir in
  if bool_decide (endpoints = []) then Err (DeFetch "overlay: directory verified but no relay had a usable pinned cert")
  else Ok (endpoints, dir_expires_at dir).

Record Loop := mkLoop {
  lp_pool : list RelayEndpoint;
  lp_from : N;
  lp_next_sleep : N;
  lp_last_fetch : N
}.

(** One turn of the loop, as its environment has it: when a connect that exhausted the pool
    notifies it, if one does, how late it is run after it is woken and after the debounce, how
    long the fetch takes, what the host answers, and the wall clock when the answer is verified
    and when the next sleep is computed. *)
Record Turn := mkTurn {
  tn_notified : option N;
  tn_lag : N;
  tn_late : N;
  tn_took : N;
  tn_answer : Result bytes string;
  tn_now : Z;
  tn_later : Z
}.

(** [build_directory_factory]: the first fetch, and the loop it starts at instant [at0]. *)
Definition build_directory_factory (at0 : N) (answer : Result bytes string) (now later : Z) : Loop :=
  match fetch_and_build_pool answer now with
  | Ok (endpoints, expires_at) => mkLoop endpoints at0 (until_refresh later expires_at) at0
  | Err _ => mkLoop [] at0 DIRECTORY_RETRY_BACKOFF at0
  end.

(** [select!]: the timer, or a notification, which may have come before the loop waits. *)
Definition woken (l : Loop) (t : Turn) : N :=
  let timer := (lp_from l + secs (lp_next_sleep l))%N in
  (match tn_notified t with Some n => N.min timer (N.max n (lp_from l)) | None => timer end + tn_lag t)%N.

(** The debounce: the instant after the sleep, if there is one. *)
Definition debounced (last_fetch now : N) : N :=
  let since := (now - last_fetch)%N in
  if (since <? secs DIRECTORY_MIN_REFETCH)%N then (now + (secs DIRECTORY_MIN_REFETCH - since))%N else now.

(** One round: the instant of its fetch, and the loop after it. *)
Definition refresh_round (l : Loop) (t : Turn) : N * Loop :=
  let at_ := (debounced (lp_last_fetch l) (woken l t) + tn_late t)%N in
  let done_at := (at_ + tn_took t)%N in
  (at_, match fetch_and_build_pool (tn_answer t) (tn_now t) with
        | Ok (endpoints, expires_at) => mkLoop endpoints done_at (until_refresh (tn_later t) expires_at) at_
        | Err _ => mkLoop (lp_pool l) done_at DIRECTORY_RETRY_BACKOFF at_
        end).

(** The instants of the fetches and the loop after these turns.  It goes round until the factory
    it feeds is dropped. *)
Fixpoint directory_refresh_loop (l : Loop) (ts : list Turn) : list N * Loop :=
  match ts with
  | [] => ([], l)
  | t :: ts' => let (at_, l') := refresh_round l t in let (times, l'') := directory_refresh_loop l' ts' in (at_ :: times, l'')
  end.
End Refresh.

(** ** The mode engine *)

#[global] Instance OverlayMode_eq_dec : EqDecision Policy.OverlayMode.
Proof. solve_decision. Defined.

(** [RemoteDb]: [rd_cell] is the shim it is set to use, [rd_handle] the one its present
    libsql handle was built with; [rd_local] is the file-backed test backend. *)
Record RemoteDb := mkRemoteDb { rd_local : bool; rd_cell : option N; rd_handle : option N }.

Definition set_overlay_shim (reconnect_fails : bool) (shim : option N) (db : RemoteDb) : RemoteDb * Result unit string :=
  if rd_local db then (db, Ok tt)
  else if bool_decide (rd_cell db = shim) then (db, Ok tt)
  else if reconnect_fails then (mkRemoteDb (rd_local db) shim (rd_handle db), Err "reconnect")
  else (mkRemoteDb (rd_local db) shim shim, Ok tt).

(** [ap_overlay]: the running shim, its loopback address and its mode cell; [ap_log_db] is
    [None] when it is the same handle as [ap_remote_db]. *)
Record App := mkApp { ap_overlay : option (N * Policy.OverlayMode); ap_remote_db : RemoteDb; ap_log_db : option RemoteDb }.

Definition set_overlay (o : option (N * Policy.OverlayMode)) (a : App) : App := mkApp o (ap_remote_db a) (ap_log_db a).

(** [fails]: whether rebuilding either handle fails. *)
Definition reconnect_dbs (fails : bool * bool) (shim : option N) (a : App) : App * Result unit string :=
  match set_overlay_shim fails.1 shim (ap_remote_db a) with
  | (db, Err e) => (mkApp (ap_overlay a) db (ap_log_db a), Err e)
  | (db, Ok _) =>
      match ap_log_db a with
      | None => (mkApp (ap_overlay a) db None, Ok tt)
      | Some log => let (log', r) := set_overlay_shim fails.2 shim log in (mkApp (ap_overlay a) db (Some log'), r)
      end
  end.

Definition current_mode (a : App) : Policy.OverlayMode :=
  match ap_overlay a with Some (_, m) => m | None => Policy.Off end.

(** What the system does during a change of mode: the address the shim binds, and which
    rebuilds fail, of the change itself and of its roll-back. *)
Record Weather := mkWeather { shim_start : Result N string; first_fails : bool * bool; rollback_fails : bool * bool }.

Definition start_and_route (w : Weather) (mode : Policy.OverlayMode) (a : App) : App * Result unit string :=
  match shim_start w with
  | Err e => (a, Err e)
  | Ok addr =>
      match reconnect_dbs (first_fails w) (Some addr) (set_overlay (Some (addr, mode)) a) with
      | (a1, Ok _) => (a1, Ok tt)
      | (a1, Err e) => ((reconnect_dbs (rollback_fails w) None (set_overlay None a1)).1, Err e)
      end
  end.

Definition stop_and_go_direct (w : Weather) (a : App) : App * Result unit string :=
  match reconnect_dbs (first_fails w) None a with
  | (a1, Err e) => (a1, Err e)
  | (a1, Ok _) => (set_overlay None a1, Ok tt)
  end.

Definition apply_overlay_mode (w : Weather) (mode : Policy.OverlayMode) (a : App) : App * Result unit string :=
  if bool_decide (current_mode a = mode) then (a, Ok tt)
  else match current_mode a, mode with
       | Policy.Off, _ => start_and_route w mode a
       | _, Policy.Off => stop_and_go_direct w a
       | _, _ =>
           match ap_overlay a with
           | Some (addr, _) => (set_overlay (Some (addr, mode)) a, Ok tt)
           | None => start_and_route w mode a
           end
       end.

(** The message also quotes the mode. *)
Definition parse_mode (s : string) : Result Policy.OverlayMode string :=
  let m := Hosts.to_ascii_lowercase (trim s) in
  if bool_decide (m = "off") then Ok Policy.Off
  else if bool_decide (m = "prefer") then Ok Policy.Prefer
  else if bool_decide (m = "strict") then Ok Policy.Strict
  else Err (fmt ["invalid overlay mode "; m; " (expected off | prefer | strict)"]).

Definition mode_to_str (m : Policy.OverlayMode) : string :=
  match m with Policy.Off => "off" | Policy.Prefer => "prefer" | Policy.Strict => "strict" end.

Definition get_overlay_mode (a : App) : string := mode_to_str (current_mode a).

Definition set_overlay_mode (w : Weather) (s : string) (a : App) : App * Result unit string :=
  match parse_mode s with Ok mode => apply_overlay_mode w mode a | Err e => (a, Err e) end.

(** ** The pool: order, failover and health *)

Section PoolFacts.
Context {Identity Stream : Type} (dial : RelayEndpoint -> Identity -> N * @DialOutcome Stream).
Implicit Types f : RelayFactory Identity.

Definition pool_wf f : Prop := length (fa_health f) = length (fa_endpoints f).

Lemma pool_wf_new endpoints cooldown : pool_wf (RealRelayFactory_new (Identity:=Identity) endpoints cooldown).
Proof. apply repeat_length. Qed.

Lemma rotation_permutation start n : start < n -> map (fun i => (start + i) mod n) (seq 0 n) ≡ₚ seq 0 n.
Proof.
  intros Hn. symmetry. apply submseteq_length_Permutation; [|rewrite length_map; lia].
  apply NoDup_submseteq; [apply NoDup_ListNoDup, seq_NoDup|]. intros k [_ Hk]%elem_of_seq. apply list_elem_of_In, in_map_iff.
  destruct (decide (start <= k)).
  - exists (k - start). split; [rewrite Nat.mod_small; lia|]. apply in_seq. lia.
  - exists (n + k - start). split; [|apply in_seq; lia].
    replace (start + (n + k - start)) with (k + 1 * n) by lia.
    rewrite Nat.Div0.mod_add. apply Nat.mod_small. lia.
Qed.

Lemma partition_permutation {A} (p : A -> bool) l : List.filter (fun x => negb (p x)) l ++ List.filter p l ≡ₚ l.
Proof. induction l as [|x l IH]; simpl; [done|]. destruct (p x); simpl; rewrite <- IH at 3; [apply Permutation_sym, Permutation_middle|done]. Qed.

Lemma candidate_order_permutation now f : fa_endpoints f <> [] ->
  (candidate_order now f).2 ≡ₚ seq 0 (length (fa_endpoints f)).
Proof.
  intros Hn. unfold candidate_order. cbn [snd]. rewrite partition_permutation. apply rotation_permutation.
  assert (fa_next_start f mod N.of_nat (length (fa_endpoints f)) < N.of_nat (length (fa_endpoints f)))%N; [|lia].
  apply N.mod_lt. destruct (fa_endpoints f); simpl; [done|lia].
Qed.

(** The endpoints outside their cooldown come first. *)
Lemma candidate_order_split now f : exists healthy dead,
  (candidate_order now f).2 = healthy ++ dead /\
  Forall (fun i => in_cooldown (fa_health f) now i = false) healthy /\
  Forall (fun i => in_cooldown (fa_health f) now i = true) dead.
Proof.
  unfold candidate_order. cbn [snd]. eexists _, _. split; [reflexivity|].
  split; apply List.Forall_forall; intros i [_ Hi]%filter_In; by breflect.
Qed.

(** Endpoint [i] was dialled without success and is marked dead for the cooldown. *)
Definition failed id f f' (i : nat) : Prop := exists ep,
  fa_endpoints f !! i = Some ep /\ (forall s, (dial ep id).2 <> Connected s) /\
  fa_health f' !! i = Some (Some ((dial ep id).1 + fa_cooldown f)%N).

(** What a run over the candidates comes to. *)
Definition tried_spec id f f' (order tried : list nat) (r : Result Stream string) : Prop :=
  match r with
  | Ok s => exists before i after ep, order = before ++ i :: after /\ tried = before ++ [i] /\
      Forall (failed id f f') before /\
      fa_endpoints f !! i = Some ep /\ (dial ep id).2 = Connected s /\ fa_health f' !! i = Some None
  | Err _ => tried = order /\ Forall (failed id f f') order
  end.

Definition same_pool f f' : Prop :=
  fa_endpoints f' = fa_endpoints f /\ fa_cooldown f' = fa_cooldown f /\ length (fa_health f') = length (fa_health f).

Lemma same_pool_set_health i h f : same_pool f (set_health i h f).
Proof. split_and!; try done. apply length_insert. Qed.

Lemma tried_incl id f f' order tried r j : tried_spec id f f' order tried r -> j ∈ tried -> j ∈ order.
Proof. destruct r; [|by intros [-> _]]. intros (before & i & after & ep & -> & -> & _). rewrite !elem_of_app, !elem_of_cons, elem_of_nil. tauto. Qed.

Lemma try_candidates_step id i order now ep f f' tried r : pool_wf f ->
  fa_endpoints f !! i = Some ep -> now = (dial ep id).1 -> (forall s, (dial ep id).2 <> Connected s) ->
  i ∉ order -> (forall j, j ∉ tried -> fa_health f' !! j = fa_health (mark_dead now i f) !! j) ->
  tried_spec id (mark_dead now i f) f' order tried r ->
  tried_spec id f f' (i :: order) (i :: tried) r.
Proof.
  intros Hwf Hep -> Hd Hi Hfr Hs.
  assert (failed id f f' i).
  { exists ep. split_and!; [done..|]. rewrite Hfr by (intros ?; eapply Hi, tried_incl; done). apply list_lookup_insert_eq. rewrite Hwf. by eapply lookup_lt_Some. }
  destruct r as [s|]; simpl in *.
  - destruct Hs as (before & j & after & ep' & -> & -> & ? & ? & ? & ?).
    exists (i :: before), j, after, ep'. split_and!; try done. by constructor.
  - destruct Hs as [-> ?]. split; [done|by constructor].
Qed.

Lemma try_candidates_spec id order : forall e f f' tried r, pool_wf f -> NoDup order ->
  Forall (fun i => i < length (fa_endpoints f)) order ->
  try_candidates dial id order e f = (f', tried, r) ->
  same_pool f f' /\ (forall j, j ∉ tried -> fa_health f' !! j = fa_health f !! j) /\ tried_spec id f f' order tried r.
Proof.
  induction order as [|i order IH]; intros e f f' tried r Hwf Hnd Hlt; simpl.
  { intros [= <- <- <-]. done. }
  apply NoDup_cons in Hnd as [Hi Hnd]. apply Forall_cons in Hlt as [Hl Hlt].
  destruct (lookup_lt_is_Some_2 _ _ Hl) as [ep Hep]. rewrite Hep.
  destruct (dial ep id) as [now out] eqn:Hd.
  assert (Hgo : forall e', (forall s, out <> Connected s) ->
      (let '(g, t, q) := try_candidates dial id order e' (mark_dead now i f) in (g, i :: t, q)) = (f', tried, r) ->
      same_pool f f' /\ (forall j, j ∉ tried -> fa_health f' !! j = fa_health f !! j) /\ tried_spec id f f' (i :: order) tried r).
  { intros e' Hout He. destruct (try_candidates dial id order e' (mark_dead now i f)) as [[g t] q] eqn:Ht. injection He as <- <- <-.
    assert (Hwf' : pool_wf (mark_dead now i f)) by (unfold pool_wf; simpl; by rewrite length_insert).
    destruct (IH _ _ _ _ _ Hwf' Hnd Hlt Ht) as ((? & ? & Hlen) & Hfr & Hs). split_and!.
    - split_and!; [done..|]. rewrite Hlen. apply length_insert.
    - intros j [Hj Hjo]%not_elem_of_cons. rewrite (Hfr j Hjo). by apply list_lookup_insert_ne.
    - eapply (try_candidates_step id i order now ep); try done; rewrite Hd; done. }
  destruct out as [s| |]; [|by apply Hgo..]. intros [= <- <- <-]. split_and!.
  - apply same_pool_set_health.
  - intros j [Hj _]%not_elem_of_cons. by apply list_lookup_insert_ne.
  - exists [], i, order, ep. rewrite Hd. split_and!; try done. apply list_lookup_insert_eq. by rewrite Hwf.
Qed.

Definition reachable id f : Prop := exists ep s, ep ∈ fa_endpoints f /\ (dial ep id).2 = Connected s.

Lemma tried_reachable id f f' order tried r : order ≡ₚ seq 0 (length (fa_endpoints f)) ->
  tried_spec id f f' order tried r -> is_ok r = true <-> reachable id f.
Proof.
  intros Hp Hs. destruct r as [s|e]; simpl in Hs |- *.
  - destruct Hs as (_ & i & _ & ep & _ & _ & _ & Hi & Hd & _). split; [|done]. intros _. exists ep, s.
    split; [by eapply list_elem_of_lookup_2|done].
  - split; [done|]. intros (ep & s & [i Hi]%list_elem_of_lookup & Hd). destruct Hs as [_ Hall].
    rewrite Hp in Hall. pose proof (lookup_lt_Some _ _ _ Hi).
    eapply (Forall_forall _ _) with (x:=i) in Hall as (ep' & Hep' & Hno & _); [|apply elem_of_seq; lia].
    simplify_eq. by destruct (Hno s).
Qed.

(** What [connect] promises of a pool with an identity: it answers with a stream exactly when
    some endpoint can be reached, dials each endpoint at most once, those out of their cooldown
    first, marks dead exactly the ones that failed, and gives up only when all were tried. *)
Definition connects id now f f' (tried : list nat) (r : Result Stream string) : Prop :=
  same_pool f f' /\ (is_ok r = true <-> reachable id f) /\
  exists healthy dead, healthy ++ dead ≡ₚ seq 0 (length (fa_endpoints f)) /\
    Forall (fun i => in_cooldown (fa_health f) now i = false) healthy /\
    Forall (fun i => in_cooldown (fa_health f) now i = true) dead /\
    (forall j, j ∉ tried -> fa_health f' !! j = fa_health f !! j) /\
    tried_spec id f f' (healthy ++ dead) tried r.

Lemma identity_pool build f f1 r : identity build f = (f1, r) ->
  fa_endpoints f1 = fa_endpoints f /\ fa_health f1 = fa_health f /\ fa_next_start f1 = fa_next_start f /\ fa_cooldown f1 = fa_cooldown f.
Proof. unfold identity. intros E. cases; split_and!; done. Qed.

(** [RealRelayFactory::connect] with a usable identity returns a stream exactly when some
    endpoint of the pool answers its dial; every endpoint is dialled at most once, the ones
    not in their cooldown before the others; the ones that failed are marked dead for the
    cooldown, the one that answered is marked healthy, no other mark changes, and an error
    means that the whole pool was tried. *)
Theorem pool_connect_exact now build f id : pool_wf f -> fa_endpoints f <> [] -> (identity build f).2 = Ok id ->
  let '(f', tried, r) := connect dial now build f in connects id now f f' tried r.
Proof.
  intros Hwf Hne Hid. unfold connect. rewrite bool_decide_eq_false_2 by done.
  destruct (identity build f) as [f1 q] eqn:Hi. simpl in Hid. subst q. apply identity_pool in Hi as (He & Hh & _ & Hc).
  destruct (candidate_order now f1) as [f2 order] eqn:Ho.
  pose proof (candidate_order_permutation now f1 ltac:(by rewrite He)) as Hp.
  destruct (candidate_order_split now f1) as (healthy & dead & Hsp & Hhl & Hdd).
  rewrite Ho in Hp, Hsp. simpl in Hp, Hsp. subst order. rewrite Hh in Hhl, Hdd. rewrite He in Hp.
  assert (Hf2 : fa_endpoints f2 = fa_endpoints f /\ fa_health f2 = fa_health f /\ fa_cooldown f2 = fa_cooldown f).
  { unfold candidate_order in Ho. injection Ho as <- _. by rewrite <- He, <- Hh, <- Hc. }
  destruct Hf2 as (He2 & Hh2 & Hc2).
  destruct (try_candidates dial id (healthy ++ dead) _ f2) as [[f' tried] r] eqn:Ht.
  apply try_candidates_spec in Ht as ((Ha & Hb & Hl) & Hfr & Hs);
    [|unfold pool_wf; by rewrite He2, Hh2|rewrite Hp; apply NoDup_ListNoDup, seq_NoDup
     |rewrite Hp, He2; apply Forall_forall; intros i [_ ?]%elem_of_seq; lia].
  assert (Hs' : tried_spec id f f' (healthy ++ dead) tried r).
  { unfold tried_spec, failed in Hs |- *. by rewrite He2, Hc2 in Hs. }
  split_and!; [split_and!; congruence|by eapply tried_reachable|].
  exists healthy, dead. split_and!; try done. by rewrite <- Hh2.
Qed.
End PoolFacts.

(** ** The refresh loop *)

Lemma until_refresh_bounds now expires_at :
  (DIRECTORY_MIN_REFRESH <= until_refresh now expires_at <= DIRECTORY_MAX_REFRESH)%N.
Proof. unfold until_refresh, DIRECTORY_MIN_REFRESH, DIRECTORY_MAX_REFRESH. lia. Qed.

(** A directory that is good for five and a half minutes is refreshed five minutes early. *)
Lemma until_refresh_early now expires_at : (0 <= now)%Z -> (now + 330 <= expires_at < 2 ^ 63)%Z ->
  (now + Z.of_N (until_refresh now expires_at) <= expires_at - 300)%Z.
Proof.
  intros ??. unfold until_refresh, saturate_i64, DIRECTORY_MIN_REFRESH, DIRECTORY_MAX_REFRESH, DIRECTORY_REFRESH_SKEW.
  rewrite wrap_i64_id by (unfold i64_range; lia). lia.
Qed.

Section RefreshFacts.
Context `{Ed25519} `{!Base64} `{!SerdeJson Envelope} `{!SerdeJson Directory} (key : string).

(** What the host answered, with the wall clock when it was verified and when the next sleep was
    computed. *)
Definition Answer : Type := Result bytes string * Z * Z.

(** The answer is an envelope with a signature under the pinned key over the bytes of this
    directory, of version 1, not expired, and with relays. *)
Definition offers (a : Answer) (dir : Directory) : Prop := exists bytes envelope payload signature vk,
  a.1.1 = Ok bytes /\ from_slice (A:=Envelope) bytes = Ok envelope /\
  b64_decode_opt (payload_b64 envelope) = Some payload /\ b64_decode_opt (signature_b64 envelope) = Some signature /\
  verifying_key_from_b64 key = Ok vk /\ length signature = 64 /\ ed_verify vk payload signature = true /\
  from_slice (A:=Directory) payload = Ok dir /\ dir_version dir = 1%N /\ (a.1.2 < dir_expires_at dir)%Z /\ dir_relays dir <> [].

(** And at least one of them has a certificate. *)
Definition usable (a : Answer) (dir : Directory) : Prop := offers a dir /\ directory_to_endpoints dir <> [].

Definition unusable (a : Answer) : Prop := forall dir, ~ usable a dir.

Lemma verify_directory_exact envelope now later dir : verify_directory envelope key now = Ok dir <-> offers (Ok envelope, now, later) dir.
Proof.
  unfold verify_directory, map_err, ok_or. split.
  - intros Hv. rinv Hv. cases. breflect. eexists _, _, _, _, _. cbn [fst snd].
    split_and!; try done. by destruct (dir_relays dir).
  - intros (b & env & payload & sg & vk & [= <-] & -> & Hp & Hs & Hk & Hl & Hv & Hd & Hver & Hexp & Hr). cbn [rbind]. rewrite Hp. cbn [rbind].
    rewrite Hs. cbn [rbind]. rewrite Hk. cbn [rbind]. rewrite Hl, Hv. cbn [Nat.eqb negb rbind]. rewrite Hd. cbn [rbind]. rewrite Hver.
    cbn [fst snd] in Hexp. rewrite (proj2 (Z.leb_gt _ _) Hexp). cbn [N.eqb Pos.eqb negb]. rewrite bool_decide_eq_false_2; [done|]. by destruct (dir_relays dir).
Qed.

(** When a fetch is a success. *)
Lemma fetch_exact answer now later :
  match fetch_and_build_pool key answer now with
  | Ok (endpoints, expires_at) => exists dir, usable (answer, now, later) dir /\ endpoints = directory_to_endpoints dir /\ expires_at = dir_expires_at dir
  | Err _ => unusable (answer, now, later)
  end.
Proof.
  unfold fetch_and_build_pool, fetch_directory, map_err. destruct answer as [b|e]; cbn [rbind].
  2: { intros dir [(? & ? & ? & ? & ? & [=] & _) _]. }
  destruct (verify_directory b key now) as [dir|e] eqn:Hv; cbn [rbind].
  - destruct (bool_decide (directory_to_endpoints dir = [])) eqn:He; cbv iota; breflect.
    + intros dir' [Ho Hne]. apply verify_directory_exact in Ho. rewrite Hv in Ho. by injection Ho as <-.
    + exists dir. split_and!; [|done..]. split; [|done]. by apply verify_directory_exact.
  - intros dir [Ho _]. apply verify_directory_exact in Ho. congruence.
Qed.

(** [pool] is that of the last usable answer of the history, oldest first. *)
Definition last_usable (history : list Answer) (pool : list RelayEndpoint) : Prop :=
  pool = [] /\ Forall unusable history \/
  exists before a dir after, history = before ++ a :: after /\ usable a dir /\ pool = directory_to_endpoints dir /\ Forall unusable after.

(** The sleep after answer [a]: a minute after a failure, otherwise so that the directory is
    fetched again five minutes before it expires. *)
Definition next_due (a : Answer) (sleep : N) : Prop :=
  (DIRECTORY_MIN_REFRESH <= sleep <= DIRECTORY_MAX_REFRESH)%N /\
  (unusable a -> sleep = DIRECTORY_RETRY_BACKOFF) /\
  forall dir, usable a dir -> (0 <= a.2)%Z -> (a.2 + 330 <= dir_expires_at dir < 2 ^ 63)%Z -> (a.2 + Z.of_N sleep <= dir_expires_at dir - 300)%Z.

Definition loop_ok (history : list Answer) (l : Loop) : Prop :=
  (lp_last_fetch l <= lp_from l)%N /\ last_usable history (lp_pool l) /\ forall a, last history = Some a -> next_due a (lp_next_sleep l).

Lemma usable_unique a dir dir' : usable a dir -> usable a dir' -> dir = dir'.
Proof.
  destruct a as [[[b|e] now] later]; [|by intros [(? & ? & ? & ? & ? & [=] & _) _]].
  intros [H1%verify_directory_exact _] [H2%verify_directory_exact _]. congruence.
Qed.

(** The pool and the sleep an answer leaves. *)
Definition taken (answer : Result bytes string) (now later : Z) (old : list RelayEndpoint) : list RelayEndpoint * N :=
  match fetch_and_build_pool key answer now with
  | Ok (endpoints, expires_at) => (endpoints, until_refresh later expires_at)
  | Err _ => (old, DIRECTORY_RETRY_BACKOFF)
  end.

Lemma taken_ok history answer now later old : last_usable history old ->
  let (pool, sleep) := taken answer now later old in
  last_usable (history ++ [(answer, now, later)]) pool /\ next_due (answer, now, later) sleep.
Proof.
  intros Hl. unfold taken. pose proof (fetch_exact answer now later) as Hf.
  destruct (fetch_and_build_pool key answer now) as [[eps exp]|e].
  - destruct Hf as (dir & Hu & -> & ->). split.
    + right. exists history, (answer, now, later), dir, []. split_and!; done.
    + split_and!; [apply until_refresh_bounds..|by intros []%(fun H => H dir)|].
      intros dir' Hu'. rewrite (usable_unique _ _ _ Hu Hu'). apply until_refresh_early.
  - split.
    + destruct Hl as [[-> Hn]|(before & a & dir & after & -> & Hu & -> & Hn)].
      * left. split; [done|]. apply Forall_app. by split; [|apply Forall_singleton].
      * right. exists before, a, dir, (after ++ [(answer, now, later)]). split_and!; [by rewrite <- app_assoc|done..|].
        apply Forall_app. by split; [|apply Forall_singleton].
    + split_and!; [done..|]. intros dir Hu. by destruct (Hf dir).
Qed.

Definition answered (t : Turn) : Answer := (tn_answer t, tn_now t, tn_later t).

(** A fetch is no sooner than the debounce after the one before. *)
Lemma debounced_spaced last_fetch now : (last_fetch <= now)%N -> (last_fetch + secs DIRECTORY_MIN_REFETCH <= debounced last_fetch now)%N.
Proof. intros Hle. unfold debounced. destruct (N.ltb_spec (now - last_fetch) (secs DIRECTORY_MIN_REFETCH)); lia. Qed.

Lemma woken_after l t : (lp_from l <= woken l t)%N.
Proof. unfold woken. destruct (tn_notified t); lia. Qed.

Lemma refresh_round_ok history l t : loop_ok history l -> let (at_, l') := refresh_round key l t in
  loop_ok (history ++ [answered t]) l' /\ lp_last_fetch l' = at_ /\ (lp_last_fetch l + secs DIRECTORY_MIN_REFETCH <= at_)%N.
Proof.
  intros (Hle & Hl & _). pose proof (taken_ok history (tn_answer t) (tn_now t) (tn_later t) (lp_pool l) Hl) as Ht. unfold taken in Ht.
  pose proof (debounced_spaced (lp_last_fetch l) (woken l t) (N.le_trans _ _ _ Hle (woken_after l t))) as Hd. unfold refresh_round, loop_ok.
  destruct (fetch_and_build_pool key (tn_answer t) (tn_now t)) as [[eps exp]|e]; destruct Ht as [Hp Hn];
    (split_and!; [cbn; lia|done| |done|lia]); cbn [lp_next_sleep]; intros a; rewrite last_snoc; by intros [= <-].
Qed.

(** Instants that are at least the debounce apart. *)
Definition spaced (times : list N) : Prop :=
  forall i a b, times !! i = Some a -> times !! S i = Some b -> (a + secs DIRECTORY_MIN_REFETCH <= b)%N.

Lemma refresh_loop_ok ts : forall history l, loop_ok history l -> let run := directory_refresh_loop key l ts in
  loop_ok (history ++ map answered ts) run.2 /\ spaced (lp_last_fetch l :: run.1) /\ length run.1 = length ts.
Proof.
  induction ts as [|t ts IH]; intros history l Hl; cbn [directory_refresh_loop map].
  { rewrite app_nil_r. split_and!; [done| |done]. intros [|i] a b; done. }
  pose proof (refresh_round_ok history l t Hl) as Hr. destruct (refresh_round key l t) as [at_ l'].
  destruct Hr as (Hl' & Hat & Hd). specialize (IH _ _ Hl'). destruct (directory_refresh_loop key l' ts) as [times l''].
  destruct IH as (Hlast & Hs & Hlen). cbn [fst snd] in *. rewrite <- app_assoc in Hlast. split_and!; [done| |by cbn; rewrite Hlen].
  intros [|i] a b; [|rewrite <- Hat; apply Hs]. cbn. intros [= <-] [= <-]. done.
Qed.

(** C34: The refresh loop, whatever the host answers and whenever it is woken, by its timer or by
    connects that exhaust the pool.  The pool in use is exactly that of the last answer received
    that carries a directory signed under the pinned key, of version 1, unexpired when it was
    received, with a relay that has a certificate; while no answer did, the pool is empty.  A
    rejected answer leaves the pool as it is, also when its own directory has expired since, and
    an answer issued earlier than the one in use counts like any other.  Every turn fetches once
    and any two fetches are at least fifteen seconds apart; the sleep is between 30 seconds and
    55 minutes: a minute after a failure, and after a success such that the directory is fetched
    again five minutes before it expires, when it is good for five and a half. *)
Theorem refresh_loop_sound at0 answer now later (ts : list Turn) :
  let run := directory_refresh_loop key (build_directory_factory key at0 answer now later) ts in
  let history := (answer, now, later) :: map answered ts in
  last_usable history (lp_pool run.2) /\ spaced (at0 :: run.1) /\ length run.1 = length ts /\
  forall a, last history = Some a -> next_due a (lp_next_sleep run.2).
Proof.
  assert (loop_ok [(answer, now, later)] (build_directory_factory key at0 answer now later) /\
          lp_last_fetch (build_directory_factory key at0 answer now later) = at0) as [H0' Hat].
  { pose proof (taken_ok [] answer now later [] (or_introl (conj eq_refl (Forall_nil_2 _)))) as Ht. unfold taken in Ht.
    unfold build_directory_factory, loop_ok. destruct (fetch_and_build_pool key answer now) as [[eps exp]|e]; destruct Ht as [Hp Hn];
      (split; [split_and!; [done..|]; by intros a [= <-]|done]). }
  destruct (refresh_loop_ok ts _ _ H0') as ((_ & Hl & Hn) & Hs & Hlen). rewrite Hat in Hs. done.
Qed.
End RefreshFacts.

(** ** The planes *)

(** A host name that is not read as a pattern. *)
Definition plain (h : string) : Prop := h <> "*" /\ Hosts.strip_prefix "*." h = None.

Lemma ascii_lower_idem b : Hosts.ascii_lower (Hosts.ascii_lower b) = Hosts.ascii_lower b.
Proof. by destruct b. Qed.

Lemma to_ascii_lowercase_idem s : Hosts.to_ascii_lowercase (Hosts.to_ascii_lowercase s) = Hosts.to_ascii_lowercase s.
Proof.
  unfold Hosts.to_ascii_lowercase. rewrite as_bytes_of_bytes, map_map. f_equal. apply map_ext, ascii_lower_idem.
Qed.

Lemma host_of_lower url h : host_of url = Some h -> Hosts.to_ascii_lowercase h = h.
Proof. unfold host_of. case_bool_decide; intros [= <-]. apply to_ascii_lowercase_idem. Qed.

Lemma parse_plain h : plain h -> Hosts.to_ascii_lowercase h = h -> Hosts.parse h = Hosts.Exact h.
Proof. intros [Ha Hb] Hl. unfold Hosts.parse. rewrite bool_decide_eq_false_2, Hb, Hl by done. done. Qed.

Lemma matches_plain hosts host : Forall (fun h => plain h /\ Hosts.to_ascii_lowercase h = h) hosts ->
  existsb (fun p => Hosts.matches p host) (Hosts.from_patterns hosts) = bool_decide (Hosts.to_ascii_lowercase host ∈ hosts).
Proof.
  induction 1 as [|h hosts [Hp Hl] _ IH]; simpl; [done|].
  rewrite IH, (parse_plain h Hp Hl). unfold Hosts.matches.
  apply eq_true_iff_eq. rewrite orb_true_iff, !bool_decide_eq_true, elem_of_cons. intuition congruence.
Qed.

Lemma elem_of_push_host h urls : forall hosts,
  h ∈ fold_left push_host urls hosts <-> h ∈ hosts \/ exists url, url ∈ urls /\ host_of url = Some h.
Proof.
  induction urls as [|u urls IH]; intros hosts; simpl.
  { split; [by left|]. intros [?|(url & []%not_elem_of_nil & _)]; done. }
  rewrite IH. setoid_rewrite elem_of_cons. unfold push_host. destruct (host_of u) as [hu|] eqn:Hu.
  - case_bool_decide as Hin; [|rewrite elem_of_app, list_elem_of_singleton]; naive_solver.
  - naive_solver.
Qed.

(** The host is the media server's. *)
Definition media_host (c : Config) (host : string) : bool :=
  bool_decide (host_of (livekit_url c) = Some (Hosts.to_ascii_lowercase host)).

(** The host is one of the control-plane services'. *)
Definition control_host (c : Config) (host : string) : bool :=
  existsb (fun url => bool_decide (host_of url = Some (Hosts.to_ascii_lowercase host))) (control_urls c).

Lemma control_hosts_exact c host :
  bool_decide (Hosts.to_ascii_lowercase host ∈ fold_left push_host (control_urls c) []) = control_host c host.
Proof.
  unfold control_host. apply eq_true_iff_eq. rewrite bool_decide_eq_true, elem_of_push_host, existsb_exists, elem_of_nil.
  setoid_rewrite bool_decide_eq_true. setoid_rewrite list_elem_of_In. naive_solver.
Qed.

Lemma media_host_exact c host :
  bool_decide (Hosts.to_ascii_lowercase host ∈ match host_of (livekit_url c) with Some h => [h] | None => [] end) = media_host c host.
Proof.
  unfold media_host. apply bool_decide_ext.
  destruct (host_of (livekit_url c)); rewrite ?list_elem_of_singleton, ?elem_of_nil; naive_solver.
Qed.

(** Under the policy of a configuration whose service URLs name plain hosts, a connection
    to the LiveKit host is direct in every mode; one to a control-plane host goes over the
    overlay whenever the mode is not off, falling back only under prefer; every other
    host is direct. *)
Theorem overlay_planes c m host :
  (forall url h, url ∈ livekit_url c :: control_urls c -> host_of url = Some h -> plain h) ->
  Policy.plan (overlay_policy c m) host =
    match m with
    | Policy.Off => Policy.Direct
    | _ => if media_host c host then Policy.Direct
           else if control_host c host then Policy.Overlay (bool_decide (m = Policy.Prefer)) else Policy.Direct
    end.
Proof.
  intros Hplain. unfold Policy.plan, Policy.is_direct_host, Policy.is_overlay_host, overlay_policy, Policy.RoutingPolicy_new, Policy.mode.
  cbn [Policy.mode_cell Policy.overlay_hosts Policy.direct_hosts]. rewrite !matches_plain.
  - rewrite control_hosts_exact, media_host_exact. by destruct m, (media_host c host), (control_host c host).
  - apply Forall_forall. intros h [[]%not_elem_of_nil|(url & Hu & Hh)]%elem_of_push_host.
    split; [eapply (Hplain url); [by right|done]|by eapply host_of_lower].
  - destruct (host_of (livekit_url c)) as [lk|] eqn:Hlk; [|constructor]. constructor; [|constructor].
    split; [by eapply (Hplain _ _ ltac:(by left))|by eapply host_of_lower].
Qed.

(** ** The mode engine *)

(** [db] dials through [shim], now and after any reconnect. *)
Definition routed (shim : option N) (db : RemoteDb) : Prop := rd_local db = true \/ rd_cell db = shim /\ rd_handle db = shim.

(** Nothing is half routed: both databases dial through the running shim, or directly when
    none runs; a shim that runs is not off. *)
Definition consistent (a : App) : Prop :=
  let shim := fst <$> ap_overlay a in
  routed shim (ap_remote_db a) /\ (forall log, ap_log_db a = Some log -> routed shim log) /\
  (forall addr m, ap_overlay a = Some (addr, m) -> m <> Policy.Off).

(** The cell and the handle agree, so that moving the cell rebuilds the handle. *)
Definition settled (db : RemoteDb) : Prop := rd_local db = true \/ rd_cell db = rd_handle db.

Lemma routed_settled shim db : routed shim db -> settled db.
Proof. unfold routed, settled. intuition congruence. Qed.

Lemma set_overlay_shim_routed fails shim db : settled db -> (set_overlay_shim fails shim db).2 = Ok tt ->
  routed shim (set_overlay_shim fails shim db).1.
Proof.
  unfold settled, routed, set_overlay_shim. destruct db as [[] cell handle]; simpl; [by left|].
  case_bool_decide; destruct fails; simpl; intuition congruence.
Qed.

(** A rebuild that fails leaves the handle and moves the cell. *)
Lemma set_overlay_shim_rollback fails shim db : routed None db -> shim <> None ->
  routed None (set_overlay_shim false None (set_overlay_shim fails shim db).1).1.
Proof.
  unfold routed, set_overlay_shim. destruct db as [[] cell handle]; simpl; [by left|]. intros [|[-> ->]] Hs; [done|].
  rewrite bool_decide_eq_false_2 by done. destruct fails; simpl; rewrite bool_decide_eq_false_2 by done; by right.
Qed.

Lemma set_overlay_shim_same fails shim db : routed shim db -> set_overlay_shim fails shim db = (db, Ok tt).
Proof.
  unfold routed, set_overlay_shim. destruct db as [[] cell handle]; simpl; [done|]. intros [|[-> ->]]; [done|].
  by rewrite bool_decide_eq_true_2.
Qed.

Lemma set_overlay_shim_succeeds shim db : (set_overlay_shim false shim db).2 = Ok tt.
Proof. unfold set_overlay_shim. by cases. Qed.

Definition dbs (a : App) : list RemoteDb := ap_remote_db a :: option_list (ap_log_db a).

#[local] Arguments set_overlay_shim : simpl never.

Lemma reconnect_dbs_overlay fails shim a : ap_overlay (reconnect_dbs fails shim a).1 = ap_overlay a.
Proof. unfold reconnect_dbs. cases. Qed.

Lemma reconnect_dbs_routed fails shim a : Forall settled (dbs a) -> (reconnect_dbs fails shim a).2 = Ok tt ->
  Forall (routed shim) (dbs (reconnect_dbs fails shim a).1).
Proof.
  unfold reconnect_dbs, dbs. intros [Hr Hl]%Forall_cons Hok.
  pose proof (set_overlay_shim_routed fails.1 shim _ Hr) as Hs.
  destruct (set_overlay_shim fails.1 shim (ap_remote_db a)) as [db [[]|]]; [|done]. specialize (Hs eq_refl).
  destruct (ap_log_db a) as [log|]; simpl in *; [|by apply Forall_singleton].
  apply Forall_cons in Hl as [Hl _]. pose proof (set_overlay_shim_routed fails.2 shim _ Hl) as Hs'.
  destruct (set_overlay_shim fails.2 shim log) as [log' r]; simpl in *. apply Forall_cons; split; [done|]. apply Forall_singleton. auto.
Qed.

Lemma consistent_dbs a : consistent a <->
  Forall (routed (fst <$> ap_overlay a)) (dbs a) /\ (forall addr m, ap_overlay a = Some (addr, m) -> m <> Policy.Off).
Proof.
  unfold consistent, dbs. rewrite Forall_cons. destruct (ap_log_db a) as [log|]; simpl.
  - rewrite Forall_singleton. naive_solver.
  - rewrite Forall_nil. naive_solver.
Qed.

Lemma reconnect_dbs_clean shim a : dbs (reconnect_dbs (false, false) shim a).1 = map (fun db => (set_overlay_shim false shim db).1) (dbs a).
Proof.
  unfold reconnect_dbs, dbs. pose proof (set_overlay_shim_succeeds shim (ap_remote_db a)) as Hs.
  cbn [fst snd map]. destruct (set_overlay_shim false shim (ap_remote_db a)) as [db r] eqn:E; simpl in Hs. subst r.
  destruct (ap_log_db a) as [log|]; simpl; [|done]. by destruct (set_overlay_shim false shim log).
Qed.

Lemma reconnect_dbs_rollback fails addr a o : Forall (routed None) (dbs a) ->
  Forall (routed None) (dbs (reconnect_dbs (false, false) None (set_overlay o (reconnect_dbs fails (Some addr) a).1)).1).
Proof.
  intros Ha. rewrite reconnect_dbs_clean. apply Forall_map.
  assert (Hn : forall db, routed None db -> routed None (set_overlay_shim false None db).1) by (intros db Hdb; by rewrite set_overlay_shim_same).
  assert (Hs : forall f db, routed None db -> routed None (set_overlay_shim false None (set_overlay_shim f (Some addr) db).1).1)
    by (intros f db Hdb; by apply set_overlay_shim_rollback).
  unfold dbs, set_overlay, reconnect_dbs in *. apply Forall_cons in Ha as [Hr Hl]. specialize (Hs fails.1 _ Hr) as Hr'.
  destruct (set_overlay_shim fails.1 (Some addr) (ap_remote_db a)) as [db [[]|]]; cbn [fst] in Hr'; destruct (ap_log_db a) as [log|];
    simpl in Hl; try apply (proj1 (Forall_singleton _ _)) in Hl.
  - specialize (Hs fails.2 _ Hl). destruct (set_overlay_shim fails.2 (Some addr) log) as [log' q]. apply Forall_cons; split; [done|]. by apply Forall_singleton.
  - by apply Forall_singleton.
  - apply Forall_cons; split; [done|]. by apply Forall_singleton, Hn.
  - by apply Forall_singleton.
Qed.

Lemma current_off a : consistent a -> current_mode a = Policy.Off -> ap_overlay a = None.
Proof. intros (_ & _ & Hn). unfold current_mode. destruct (ap_overlay a) as [[addr m]|]; [|done]. intros ->. by destruct (Hn addr Policy.Off). Qed.

Lemma live_shim a : current_mode a <> Policy.Off -> exists addr, ap_overlay a = Some (addr, current_mode a).
Proof. unfold current_mode. destruct (ap_overlay a) as [[addr m]|]; [|done]. intros _. by exists addr. Qed.

Lemma start_and_route_ok w mode a : consistent a -> current_mode a = Policy.Off -> mode <> Policy.Off ->
  let '(a', r) := start_and_route w mode a in
  (r = Ok tt -> consistent a' /\ current_mode a' = mode) /\
  (is_ok r = false -> rollback_fails w = (false, false) -> consistent a' /\ ap_overlay a' = None) /\
  (is_ok (shim_start w) = false -> a' = a).
Proof.
  intros Hc Hoff Hm. pose proof (current_off a Hc Hoff) as Ho. unfold start_and_route.
  destruct (shim_start w) as [addr|e]; [|split_and!; done].
  apply consistent_dbs in Hc as [Hd _]. rewrite Ho in Hd. change (dbs a) with (dbs (set_overlay (Some (addr, mode)) a)) in Hd.
  pose proof (reconnect_dbs_routed (first_fails w) (Some addr) _ (Forall_impl _ _ _ Hd (routed_settled None))) as Hok.
  pose proof (reconnect_dbs_overlay (first_fails w) (Some addr) (set_overlay (Some (addr, mode)) a)) as Hov.
  pose proof (reconnect_dbs_rollback (first_fails w) addr _ None Hd) as Hrb.
  destruct (reconnect_dbs (first_fails w) (Some addr) _) as [a1 [[]|e]]; cbn [fst snd] in *; split_and!; try done.
  - intros _. rewrite consistent_dbs. unfold current_mode. rewrite Hov. simpl. split_and!; [by apply Hok| |done]. congruence.
  - intros _ ->. rewrite consistent_dbs, reconnect_dbs_overlay. simpl. split_and!; [done..|]. congruence.
Qed.

Lemma stop_and_go_direct_ok w a : consistent a -> let '(a', r) := stop_and_go_direct w a in
  (r = Ok tt -> consistent a' /\ current_mode a' = Policy.Off) /\ (is_ok r = false -> ap_overlay a' = ap_overlay a).
Proof.
  intros [Hd _]%consistent_dbs. unfold stop_and_go_direct.
  pose proof (reconnect_dbs_routed (first_fails w) None _ (Forall_impl _ _ _ Hd (routed_settled _))) as Hok.
  pose proof (reconnect_dbs_overlay (first_fails w) None a) as Hov.
  destruct (reconnect_dbs (first_fails w) None a) as [a1 [[]|e]]; cbn [fst snd] in *; split; try done.
  intros _. rewrite consistent_dbs. simpl. split_and!; [by apply Hok|done..].
Qed.

(** A change of mode from a state in which nothing is half routed: if it succeeds, the new
    mode is live and nothing is half routed; if it fails while turning the overlay on and the
    roll-back can rebuild the handles, the app is consistent and direct as before; if it
    fails while turning it off, the shim runs on in its mode; and a shim that does not start
    changes nothing. *)
Theorem apply_mode_consistent w mode a : consistent a -> let '(a', r) := apply_overlay_mode w mode a in
  (r = Ok tt -> consistent a' /\ current_mode a' = mode) /\
  (is_ok r = false -> current_mode a = Policy.Off -> rollback_fails w = (false, false) -> consistent a' /\ ap_overlay a' = None) /\
  (is_ok r = false -> current_mode a <> Policy.Off -> mode = Policy.Off /\ ap_overlay a' = ap_overlay a) /\
  (is_ok (shim_start w) = false -> current_mode a = Policy.Off -> a' = a).
Proof.
  intros Hc. unfold apply_overlay_mode. case_bool_decide as Hm; [naive_solver|].
  destruct (current_mode a) eqn:Hcur.
  1: { pose proof (start_and_route_ok w mode a Hc Hcur ltac:(congruence)) as Hs.
    destruct (start_and_route w mode a) as [a1 r]. destruct Hs as (? & ? & ?). split_and!; auto; congruence. }
  all: destruct (live_shim a ltac:(congruence)) as [addr Ho]; rewrite Hcur in Ho.
  all: destruct mode; try done;
    [pose proof (stop_and_go_direct_ok w a Hc) as Hs; destruct (stop_and_go_direct w a) as [a' r]; destruct Hs;
     split_and!; auto; congruence|].
  all: rewrite Ho; split_and!; try done; intros _; split; [|done]; apply consistent_dbs in Hc as [Hd _]; apply consistent_dbs;
    rewrite Ho in Hd; split; [done|]; simpl; congruence.
Qed.

Lemma parse_mode_to_str m : parse_mode (mode_to_str m) = Ok m.
Proof. by destruct m. Qed.

(** ** The theorems at concrete inputs *)

Section Witnesses.
#[local] Existing Instance clear_base64.

#[local] Instance Envelope_eq_dec : EqDecision Envelope.
Proof. solve_decision. Defined.
#[local] Instance Envelope_countable : Countable Envelope :=
  inj_countable' (fun e => (payload_b64 e, signature_b64 e)) (fun '(p, g) => mkEnvelope p g) (fun e => match e with mkEnvelope _ _ => eq_refl end).
#[local] Instance DirectoryRelay_eq_dec : EqDecision DirectoryRelay.
Proof. solve_decision. Defined.
#[local] Instance DirectoryRelay_countable : Countable DirectoryRelay :=
  inj_countable' (fun r => (dr_addr r, dr_region r, dr_cert_b64 r)) (fun '(a, g, c) => mkDirectoryRelay a g c)
    (fun r => match r with mkDirectoryRelay _ _ _ => eq_refl end).
#[local] Instance Directory_eq_dec : EqDecision Directory.
Proof. solve_decision. Defined.
#[local] Instance Directory_countable : Countable Directory :=
  inj_countable' (fun d => (dir_version d, dir_issued_at d, dir_expires_at d, dir_relays d)) (fun '(v, i, e, r) => mkDirectory v i e r)
    (fun d => match d with mkDirectory _ _ _ _ => eq_refl end).
#[local] Instance envelope_json : SerdeJson Envelope := ClearJson.instance.
#[local] Instance directory_json : SerdeJson Directory := ClearJson.instance.

#[local] Definition pinned : SigningKey := ClearSig.repeat_seed x41.
#[local] Definition pinned_b64 : string := b64_encode (vk_to_bytes (verifying_key pinned)).

#[local] Definition published (d : Directory) : bytes :=
  match to_vec d with
  | Ok payload =>
      match to_vec (mkEnvelope (b64_encode payload) (b64_encode (ed_sign pinned payload))) with Ok b => b | Err _ => [] end
  | Err _ => []
  end.

#[local] Definition relay (a : string) : DirectoryRelay := mkDirectoryRelay a "eu" "cert".
#[local] Definition morning : Directory := mkDirectory 1 1000 4600 [relay "a:1"; relay "b:1"].
#[local] Definition evening : Directory := mkDirectory 1 3000 6600 [relay "c:1"].

#[local] Definition ep (a : string) : RelayEndpoint := mkEndpoint a (as_bytes "cert").

Example directory_accepted : verify_directory (published morning) pinned_b64 2000 = Ok morning.
Proof. vm_compute. reflexivity. Qed.

Example directory_expired : verify_directory (published morning) pinned_b64 4600 = Err (Expired 4600 4600).
Proof. vm_compute. reflexivity. Qed.

#[local] Notation first_loop := (build_directory_factory pinned_b64 0 (Ok (published evening)) 3100 3100).

#[local] Definition outage : Turn := mkTurn None 0 0 0 (Err "unreachable") 7000 7000.

#[local] Definition replayed : Turn := mkTurn (Some (secs 3)) 0 0 0 (Ok (published morning)) 3120 3120.

(** The pool of an expired directory stays in use while the host cannot be reached. *)
Example expired_pool_kept : lp_pool (directory_refresh_loop pinned_b64 first_loop [outage]).2 = [ep "c:1"] /\
  (dir_expires_at evening < tn_now outage)%Z.
Proof. split; vm_compute; reflexivity. Qed.

(** A directory issued before the one in use, not yet expired, takes its place. *)
Example older_directory_accepted : lp_pool (directory_refresh_loop pinned_b64 first_loop [replayed]).2 = [ep "a:1"; ep "b:1"] /\
  (dir_issued_at morning < dir_issued_at evening)%Z.
Proof. split; vm_compute; reflexivity. Qed.

(** Connects that keep failing bring fetches forward, to one in fifteen seconds. *)
Example notify_storm : (directory_refresh_loop pinned_b64 first_loop [replayed; replayed; replayed; outage]).1 = [secs 15; secs 30; secs 45; secs 1225].
Proof. vm_compute. reflexivity. Qed.

(** A dial of "a:1" times out, of any other endpoint it succeeds. *)
#[local] Definition one_down (e : RelayEndpoint) (_ : unit) : N * @DialOutcome string :=
  if bool_decide (ep_addr e = "a:1") then (secs 8, TimedOut) else (secs 9, Connected (ep_addr e)).

#[local] Definition two_relays : RelayFactory unit := RealRelayFactory_new [ep "a:1"; ep "b:1"] RELAY_DEAD_COOLDOWN.

Lemma pool_connect_exact_witness :
  let '(f', tried, r) := connect one_down 0 (Ok tt) two_relays in
  connects one_down tt 0 two_relays f' tried r /\ tried = [0; 1] /\ r = Ok "b:1" /\ fa_health f' = [Some (secs 38); None].
Proof.
  pose proof (pool_connect_exact one_down 0 (Ok tt) two_relays tt eq_refl ltac:(done) eq_refl) as Hc.
  destruct (connect one_down 0 (Ok tt) two_relays) as [[f' tried] r] eqn:E.
  vm_compute in E. injection E as <- <- <-. by split_and!.
Defined.

#[local] Definition production : Config :=
  mkConfig "libsql://db.pollis.com" "token" None None "https://r2.pollis.com" "https://cdn.pollis.com" "wss://media.pollis.com:7880"
    (Some "https://ds.pollis.com/") Policy.Off None None None None.

Lemma overlay_planes_witness : Policy.plan (overlay_policy production Policy.Strict) "DS.pollis.com" = Policy.Overlay false /\
  Policy.plan (overlay_policy production Policy.Strict) "media.pollis.com" = Policy.Direct.
Proof.
  split; (rewrite overlay_planes; [reflexivity|]); intros url h Hu; repeat apply elem_of_cons in Hu as [->|Hu];
    try by apply not_elem_of_nil in Hu.
  all: intros [= <-]; by split.
Defined.

(** The transparency site is not on the control plane: its requests are dialled directly in
    every mode. *)
Example verify_host_direct m : Policy.plan (overlay_policy production m) "verify.pollis.com" = Policy.Direct.
Proof. by destruct m. Qed.

#[local] Definition calm (port : N) : Weather := mkWeather (Ok port) (false, false) (false, false).

#[local] Definition direct : RemoteDb := mkRemoteDb false None None.
#[local] Definition fresh : App := mkApp None direct (Some direct).
#[local] Definition strict : App := (apply_overlay_mode (calm 1080) Policy.Strict fresh).1.

Lemma apply_mode_consistent_witness : consistent strict /\ current_mode strict = Policy.Strict.
Proof.
  assert (consistent fresh) as Hf by (split_and!; [by right|intros log [= <-]; by right|done]).
  pose proof (apply_mode_consistent (calm 1080) Policy.Strict fresh Hf) as Hc. simpl in Hc.
  apply (proj1 Hc). reflexivity.
Defined.

(** Turning the overlay off stops half way when the second handle cannot be rebuilt: the
    mode reads strict while the first database is dialled directly, and asking for strict
    again changes nothing. *)
Example stop_half_way : let w := mkWeather (Err "unused") (false, true) (false, false) in
  let '(a, r) := apply_overlay_mode w Policy.Off strict in
  is_ok r = false /\ get_overlay_mode a = "strict" /\ rd_handle (ap_remote_db a) = None /\
  apply_overlay_mode (calm 1081) Policy.Strict a = (a, Ok tt).
Proof. by vm_compute. Qed.

(** When the first handle cannot be rebuilt, the next attempt finds its cell already moved,
    rebuilds nothing, drops the shim and leaves the handle dialling a shim that is gone. *)
Example retried_stop_keeps_dead_handle : let w := mkWeather (Err "unused") (true, false) (false, false) in
  let a := (apply_overlay_mode w Policy.Off strict).1 in
  let '(a', r) := apply_overlay_mode (calm 1081) Policy.Off a in
  r = Ok tt /\ ap_overlay a' = None /\ rd_handle (ap_remote_db a') = Some 1080%N.
Proof. by vm_compute. Qed.
End Witnesses.
