(* ===== verification/Vault.v ===== *)
(** * pollis-core: the PIN vault and the accounts index

    Models [commands/pin.rs]: the blobs a PIN protects, their codecs, the attempt counter
    and lock-out, setting and changing the PIN, unlocking and locking the app; the
    [Keystore] trait of [keystore.rs] as a map of named slots of which any call may fail;
    and [accounts.rs], the index of accounts on the device.

    Argon2id and XChaCha20-Poly1305 are interfaces.  [fails n] says whether the [n]-th
    keystore call fails, so a crash is a keystore that fails from some call on.

    [pin_roundtrip]: what a PIN seals, it opens.  [pin_lockout_exact]: ten wrong PINs in a row
    wipe the blobs, fewer leave them usable.  [accounts_inv]: the active user is always one of
    the accounts, and what becomes of a corrupt index. *)

From stdpp Require Import base list strings gmap.
From Stdlib Require Import NArith ZArith Lia ZifyNat ZifyN.
From Stdlib Require Import Strings.Byte.
From S2P Require Import Prelude Crypto Tenants.

(** ** Interfaces *)

Class PinCrypto := {
  (** [Argon2id]: password, salt, memory in KiB, passes, lanes. *)
  argon2id : bytes -> bytes -> N -> N -> N -> option bytes;
  (** [XChaCha20Poly1305]: key, nonce, text. *)
  aead_encrypt : bytes -> bytes -> bytes -> option bytes;
  aead_decrypt : bytes -> bytes -> bytes -> option bytes
}.

Class PinCryptoLaws `{PinCrypto} : Prop := {
  aead_roundtrip : forall key nonce pt ct, aead_encrypt key nonce pt = Some ct -> aead_decrypt key nonce ct = Some pt;
  aead_length : forall key nonce pt ct, aead_encrypt key nonce pt = Some ct -> length ct = length pt + 16;
  aead_total : forall key nonce pt, (N.of_nat (length pt) < 2 ^ 32)%N -> is_Some (aead_encrypt key nonce pt);
  argon2_total : forall pin salt, length salt = 16 -> is_Some (argon2id pin salt 65536 3 1)
}.

Inductive CoreError : Type :=
| CryptoError (msg : string)
| OtherError (msg : string)
| KeystoreError
| IndexCorrupt (backup : string).

(** ** keystore.rs *)

Record Store := mkStore { slots : gmap string bytes; calls : nat }.

Definition M (A : Type) : Type := Store -> Store * Result A CoreError.

Definition mret {A} (r : Result A CoreError) : M A := fun s => (s, r).

Definition mbind {A B} (m : M A) (k : A -> M B) : M B :=
  fun s => match m s with (s1, Ok a) => k a s1 | (s1, Err e) => (s1, Err e) end.

(** [let _ = ...]: the outcome is dropped. *)
Definition attempt {A} (m : M A) : M unit := fun s => ((m s).1, Ok tt).

Notation "'let!' x := m 'in' k" := (mbind m (fun x => k))
  (at level 10, x name, m at level 100, k at level 200) : rust_scope.

Section Keystore.
Context (fails : nat -> bool).

Definition call {A} (f : gmap string bytes -> gmap string bytes * A) : M A :=
  fun s =>
    if fails (calls s) then (mkStore (slots s) (S (calls s)), Err KeystoreError)
    else let (m, a) := f (slots s) in (mkStore m (S (calls s)), Ok a).

Definition slot (key user_id : string) : string := String.append key (String.append "_" user_id).

Definition store_for_user (key user_id : string) (value : bytes) : M unit :=
  call (fun m => (<[slot key user_id := value]> m, tt)).

Definition load_for_user (key user_id : string) : M (option bytes) := call (fun m => (m, m !! slot key user_id)).

Definition delete_for_user (key user_id : string) : M unit := call (fun m => (delete (slot key user_id) m, tt)).
End Keystore.

(** ** pin.rs: the blobs *)

Definition PIN_META_SLOT : string := "pin_meta".
Definition DB_KEY_WRAPPED_SLOT : string := "db_key_wrapped".
Definition ACCOUNT_ID_KEY_WRAPPED_SLOT : string := "account_id_key_wrapped".
Definition DB_KEY_SLOT_LEGACY : string := "db_key".
Definition ACCOUNT_ID_KEY_SLOT_LEGACY : string := "account_id_key".
Definition SESSION_SLOT_LEGACY : string := "session".

Definition ARGON2_M_COST_KIB : N := 64 * 1024.
Definition ARGON2_T_COST : N := 3.
Definition ARGON2_P_COST : N := 1.
Definition SALT_LEN : nat := 16.
Definition VERIFIER_PLAINTEXT : bytes := as_bytes "pollis-pin-ok" ++ [x00; x00; x00].
Definition MAX_FAILED_ATTEMPTS : N := 10.
Definition PIN_META_VERSION : byte := x01.
Definition WRAPPED_VERSION : byte := x01.

Record PinMeta := mkMeta {
  m_cost_kib : N;
  t_cost : N;
  p_cost : N;
  salt : bytes;
  verifier_nonce : bytes;
  verifier_ct : bytes;
  failed_attempts : N;
  last_attempt_unix : N
}.

Definition to_bytes (m : PinMeta) : bytes :=
  PIN_META_VERSION :: be_bytes 4 (m_cost_kib m) ++ [byte_of_N (t_cost m); byte_of_N (p_cost m)] ++
  salt m ++ verifier_nonce m ++ be_bytes 2 (as_u16 (N.of_nat (length (verifier_ct m)))) ++ verifier_ct m ++
  be_bytes 4 (failed_attempts m) ++ be_bytes 8 (last_attempt_unix m).

(** [&bytes[from..from + n]]. *)
Definition sub_bytes (from n : nat) (b : bytes) : bytes := take n (drop from b).

Definition byte_at (i : nat) (b : bytes) : byte := default x00 (b !! i).

Definition from_bytes (b : bytes) : Result PinMeta CoreError :=
  if length b <? 61 then Err (CryptoError "pin_meta: short blob")
  else if negb (bool_decide (byte_at 0 b = PIN_META_VERSION)) then Err (CryptoError "pin_meta: unknown version")
  else
    let ct_len := N.to_nat (be_value (sub_bytes 47 2 b)) in
    if length b <? 49 + ct_len + 12 then Err (CryptoError "pin_meta: truncated")
    else Ok (mkMeta (be_value (sub_bytes 1 4 b)) (N_of_byte (byte_at 5 b)) (N_of_byte (byte_at 6 b))
               (sub_bytes 7 16 b) (sub_bytes 23 24 b) (sub_bytes 49 ct_len b)
               (be_value (sub_bytes (49 + ct_len) 4 b)) (be_value (sub_bytes (49 + ct_len + 4) 8 b))).

Section Pin.
Context `{PinCrypto} (fails : nat -> bool).

(** The randomness of a call: what [OsRng] hands out, in order. *)
Definition wrap_bytes (kek nonce plaintext : bytes) : Result bytes CoreError :=
  let? ct := ok_or (aead_encrypt kek nonce plaintext) (CryptoError "wrap") in
  Ok (WRAPPED_VERSION :: nonce ++ be_bytes 2 (as_u16 (N.of_nat (length ct))) ++ ct).

Definition unwrap_bytes (kek blob : bytes) : Result bytes CoreError :=
  if length blob <? 27 then Err (CryptoError "wrapped: short blob")
  else if negb (bool_decide (byte_at 0 blob = WRAPPED_VERSION)) then Err (CryptoError "wrapped: unknown version")
  else
    let ct_len := N.to_nat (be_value (sub_bytes 25 2 blob)) in
    if length blob <? 27 + ct_len then Err (CryptoError "wrapped: truncated")
    else ok_or (aead_decrypt kek (sub_bytes 1 24 blob) (sub_bytes 27 ct_len blob)) (CryptoError "wrapped: decrypt failed").

Definition derive_kek (pin : string) (salt : bytes) (m t p : N) : Result bytes CoreError :=
  ok_or (argon2id (as_bytes pin) salt m t p) (CryptoError "argon2").

Definition is_ascii_digit (b : byte) : bool := in_range b 48 57.

(** A [char] is an ASCII digit exactly if it is one byte in that range. *)
Definition validate_pin (pin : string) : Result unit CoreError :=
  if (length (as_bytes pin) =? 4) && forallb is_ascii_digit (as_bytes pin) then Ok tt
  else Err (CryptoError "PIN must be 4 digits").

Definition load_pin_meta (user_id : string) : M (option PinMeta) :=
  let! found := load_for_user fails PIN_META_SLOT user_id in
  match found with
  | None => mret (Ok None)
  | Some b => let! meta := mret (from_bytes b) in mret (Ok (Some meta))
  end.

Definition store_pin_meta (user_id : string) (meta : PinMeta) : M unit :=
  store_for_user fails PIN_META_SLOT user_id (to_bytes meta).

Definition nuke_wrapped (user_id : string) : M unit :=
  let! _ := attempt (delete_for_user fails PIN_META_SLOT user_id) in
  let! _ := attempt (delete_for_user fails DB_KEY_WRAPPED_SLOT user_id) in
  attempt (delete_for_user fails ACCOUNT_ID_KEY_WRAPPED_SLOT user_id).

Record UnlockState := mkUnlock { un_user_id : string; un_db_key : bytes; un_account_id_key : bytes }.

(** [now]: the wall clock in seconds. *)
Definition set_attempts (attempts now : N) (m : PinMeta) : PinMeta :=
  mkMeta (m_cost_kib m) (t_cost m) (p_cost m) (salt m) (verifier_nonce m) (verifier_ct m) attempts now.

Definition verifier_ok (kek : bytes) (m : PinMeta) : bool :=
  match aead_decrypt kek (verifier_nonce m) (verifier_ct m) with
  | Some pt => bool_decide (pt = VERIFIER_PLAINTEXT)
  | None => false
  end.

Definition missing (what : string) (o : option bytes) : M bytes := mret (ok_or o (OtherError what)).

Definition unlock_inner (now : N) (user_id pin : string) : M UnlockState :=
  let! found := load_pin_meta user_id in
  let! meta := mret (ok_or found (OtherError "PIN not set for user")) in
  if (MAX_FAILED_ATTEMPTS <=? failed_attempts meta)%N then
    let! _ := nuke_wrapped user_id in mret (Err (OtherError "pin locked out; use Secret Key recovery"))
  else
    let! kek := mret (derive_kek pin (salt meta) (m_cost_kib meta) (t_cost meta) (p_cost meta)) in
    if negb (verifier_ok kek meta) then
      let meta := set_attempts (failed_attempts meta + 1) now meta in
      let! _ := store_pin_meta user_id meta in
      let! _ := (if (MAX_FAILED_ATTEMPTS <=? failed_attempts meta)%N then nuke_wrapped user_id else mret (Ok tt)) in
      mret (Err (OtherError "pin incorrect"))
    else
      let! db_blob := load_for_user fails DB_KEY_WRAPPED_SLOT user_id in
      let! db_key_blob := missing "db_key_wrapped missing" db_blob in
      let! id_blob := load_for_user fails ACCOUNT_ID_KEY_WRAPPED_SLOT user_id in
      let! account_id_key_blob := missing "account_id_key_wrapped missing" id_blob in
      let! db_key := mret (unwrap_bytes kek db_key_blob) in
      let! account_id_key := mret (unwrap_bytes kek account_id_key_blob) in
      let! _ := (if negb (failed_attempts meta =? 0)%N then store_pin_meta user_id (set_attempts 0 now meta) else mret (Ok tt)) in
      mret (Ok (mkUnlock user_id db_key account_id_key)).
End Pin.

(** ** accounts.rs *)

Record AccountInfo := mkAccount {
  ai_user_id : string;
  ai_username : string;
  ai_email : option string;
  ai_avatar_url : option string;
  ai_last_seen : string
}.

Record AccountsIndex := mkIndex { accounts : list AccountInfo; last_active_user : option string }.

Definition index_default : AccountsIndex := mkIndex [] None.

Class IndexJson := { index_from_str : bytes -> option AccountsIndex; index_to_string_pretty : AccountsIndex -> bytes }.

Class IndexJsonLaws `{IndexJson} : Prop := {
  index_json_roundtrip : forall i, index_from_str (index_to_string_pretty i) = Some i;
  index_json_text : forall i, utf8_valid (index_to_string_pretty i) = true
}.

(** [accounts.json], and the files set aside, by name. *)
Record IndexDisk := mkDisk { accounts_json : option bytes; set_aside : gmap string bytes }.

(** What the file system does: whether reading, the rename of a bad file and the atomic
    write fail; [fs_ts] and [fs_now] are the clock, as the file name and the index have it. *)
Record FileSystem := mkFs { read_fails : bool; rename_fails : bool; write_fails : bool; fs_ts : string; fs_now : string }.

Section Index.
Context `{IndexJson} (fs : FileSystem).

Definition backup_name : string := fmt ["accounts.bad-"; fs_ts fs; ".json"].

(** [read_to_string] is an error for bytes that are not UTF-8; a rename replaces a file of the
    same name. *)
Definition read_accounts_index (d : IndexDisk) : IndexDisk * Result AccountsIndex CoreError :=
  if read_fails fs then (d, Err (OtherError "read accounts.json"))
  else match accounts_json d with
       | None => (d, Ok index_default)
       | Some data =>
           if negb (utf8_valid data) then (d, Err (OtherError "read accounts.json"))
           else match index_from_str data with
                | Some idx => (d, Ok idx)
                | None =>
                    (if rename_fails fs then d else mkDisk None (<[backup_name := data]> (set_aside d)), Err (IndexCorrupt backup_name))
                end
       end.

Definition write_accounts_index (index : AccountsIndex) (d : IndexDisk) : IndexDisk * Result unit CoreError :=
  if write_fails fs then (d, Err (OtherError "write accounts.json"))
  else (mkDisk (Some (index_to_string_pretty index)) (set_aside d), Ok tt).

Definition read_or_default (d : IndexDisk) : IndexDisk * AccountsIndex :=
  match read_accounts_index d with (d1, Ok i) => (d1, i) | (d1, Err _) => (d1, index_default) end.

Definition is_account (user_id : string) (a : AccountInfo) : bool := bool_decide (ai_user_id a = user_id).

Definition update_account (username : string) (email avatar_url : option string) (a : AccountInfo) : AccountInfo :=
  mkAccount (ai_user_id a) username (match email with Some e => Some e | None => ai_email a end) avatar_url (fs_now fs).

(** [iter_mut().find(..)]: the first account of the user. *)
Fixpoint update_first (user_id : string) (f : AccountInfo -> AccountInfo) (l : list AccountInfo) : option (list AccountInfo) :=
  match l with
  | [] => None
  | a :: l' => if is_account user_id a then Some (f a :: l') else cons a <$> update_first user_id f l'
  end.

Definition upsert_account (user_id username : string) (email avatar_url : option string) (d : IndexDisk)
    : IndexDisk * Result unit CoreError :=
  match read_accounts_index d with
  | (d1, Err e) => (d1, Err e)
  | (d1, Ok index) =>
      let accounts' :=
        match update_first user_id (update_account username email avatar_url) (accounts index) with
        | Some l => l
        | None => accounts index ++ [mkAccount user_id username email avatar_url (fs_now fs)]
        end in
      write_accounts_index (mkIndex accounts' (Some user_id)) d1
  end.

(** [max_by_key] on the time last seen, a string: the last of the greatest. *)
Definition later (best : option AccountInfo) (a : AccountInfo) : option AccountInfo :=
  match best with
  | Some b => if String.leb (ai_last_seen b) (ai_last_seen a) then Some a else Some b
  | None => Some a
  end.

Definition most_recent (l : list AccountInfo) : option AccountInfo := fold_left later l None.

Definition remove_account (user_id : string) (d : IndexDisk) : IndexDisk * Result unit CoreError :=
  let (d1, index) := read_or_default d in
  let rest := List.filter (fun a => negb (is_account user_id a)) (accounts index) in
  write_accounts_index
    (mkIndex rest (if bool_decide (last_active_user index = Some user_id) then ai_user_id <$> most_recent rest
                   else last_active_user index)) d1.

Definition clear_last_active_user (d : IndexDisk) : IndexDisk * Result unit CoreError :=
  let (d1, index) := read_or_default d in write_accounts_index (mkIndex (accounts index) None) d1.
End Index.

(** ** pin.rs: the commands *)

(** The calls a command makes on the rest of the client, in order. *)
Inductive Effect : Type :=
| ClearMediaCache
| SpawnTursoTokenRefresh
| EnsureDeviceCert (user_id device_id : string)
| ResetWelcomeDelivery (user_id : string)
| ResignStaleDeviceCerts (user_id : string).

Record Client := mkClient {
  cl_store : Store;
  cl_disk : IndexDisk;
  cl_unlock : option UnlockState;
  cl_media_token : option string;
  cl_local_db : option (string * bytes);
  cl_cache_user : option string;
  cl_device_id : option string
}.

(** The keys of the open local database: user and key. *)
Definition with_store (s : Store) (c : Client) : Client :=
  mkClient s (cl_disk c) (cl_unlock c) (cl_media_token c) (cl_local_db c) (cl_cache_user c) (cl_device_id c).
Definition with_disk (d : IndexDisk) (c : Client) : Client :=
  mkClient (cl_store c) d (cl_unlock c) (cl_media_token c) (cl_local_db c) (cl_cache_user c) (cl_device_id c).
Definition with_unlock (u : option UnlockState) (token : option string) (c : Client) : Client :=
  mkClient (cl_store c) (cl_disk c) u token (cl_local_db c) (cl_cache_user c) (cl_device_id c).
Definition with_local_db (db : option (string * bytes)) (c : Client) : Client :=
  mkClient (cl_store c) (cl_disk c) (cl_unlock c) (cl_media_token c) db (fst <$> db) (cl_device_id c).

(** What a command meets: the clock, the random bytes and token it draws, the file system,
    and how opening a user's database under a key turns out ([true]: it was empty). *)
Record World := mkWorld {
  w_now : N;
  w_salt : bytes;
  w_nonce_verifier : bytes;
  w_nonce_db : bytes;
  w_nonce_account : bytes;
  w_token : string;
  w_fs : FileSystem;
  w_open_db : string -> bytes -> Result bool CoreError
}.

Section Commands.
Context `{PinCrypto} `{!IndexJson} (fails : nat -> bool) (w : World).

(** Run a keystore program on the client. *)
Definition on_store {A} (m : M A) (c : Client) : Client * Result A CoreError :=
  let (s, r) := m (cl_store c) in (with_store s c, r).

Definition load_user_db_with_key (user_id : string) (db_key : bytes) (c : Client) : Client * Result bool CoreError :=
  match w_open_db w user_id db_key with
  | Ok empty => (with_local_db (Some (user_id, db_key)) c, Ok empty)
  | Err e => (c, Err e)
  end.

Definition unload_user_db (c : Client) : Client := with_local_db None c.

Definition source_initial_keys (unlocked : option UnlockState) (user_id : string) : M (bytes * bytes) :=
  match (u ← unlocked; if bool_decide (un_user_id u = user_id) then Some u else None) with
  | Some u => mret (Ok (un_db_key u, un_account_id_key u))
  | None =>
      let! dk := load_for_user fails DB_KEY_SLOT_LEGACY user_id in
      let! aik := load_for_user fails ACCOUNT_ID_KEY_SLOT_LEGACY user_id in
      mret (match dk, aik with
            | Some dk, Some aik => Ok (dk, aik)
            | _, _ => Err (OtherError "no key material to wrap; sign in again")
            end)
  end.

Definition find_keys (user_id : string) (old_pin : option string) (unlocked : option UnlockState) : M (bytes * bytes) :=
  match old_pin with
  | Some old =>
      let! _ := mret (validate_pin old) in
      let! u := unlock_inner fails (w_now w) user_id old in mret (Ok (un_db_key u, un_account_id_key u))
  | None => source_initial_keys unlocked user_id
  end.

(** The keystore part of [set_pin]: the keys it found and sealed. *)
Definition seal_keys (user_id : string) (old_pin : option string) (new_pin : string) (unlocked : option UnlockState) : M (bytes * bytes) :=
  let! keys := find_keys user_id old_pin unlocked in
  let! kek := mret (derive_kek new_pin (w_salt w) ARGON2_M_COST_KIB ARGON2_T_COST ARGON2_P_COST) in
  let! ct := mret (ok_or (aead_encrypt kek (w_nonce_verifier w) VERIFIER_PLAINTEXT) (CryptoError "verifier encrypt")) in
  let! db_key_blob := mret (wrap_bytes kek (w_nonce_db w) keys.1) in
  let! account_id_key_blob := mret (wrap_bytes kek (w_nonce_account w) keys.2) in
  let meta := mkMeta ARGON2_M_COST_KIB ARGON2_T_COST ARGON2_P_COST (w_salt w) (w_nonce_verifier w) ct 0 (w_now w) in
  let! _ := store_for_user fails DB_KEY_WRAPPED_SLOT user_id db_key_blob in
  let! _ := store_for_user fails ACCOUNT_ID_KEY_WRAPPED_SLOT user_id account_id_key_blob in
  let! _ := store_pin_meta fails user_id meta in
  let! _ := attempt (delete_for_user fails DB_KEY_SLOT_LEGACY user_id) in
  let! _ := attempt (delete_for_user fails ACCOUNT_ID_KEY_SLOT_LEGACY user_id) in
  let! _ := (match old_pin with None => attempt (delete_for_user fails SESSION_SLOT_LEGACY user_id) | Some _ => mret (Ok tt) end) in
  mret (Ok keys).

(** What follows once the keys are known: the unlock state, a fresh media token, the local
    database and the best-effort calls. *)
Definition after_unlock (user_id : string) (empty : bool) (c : Client) : list Effect :=
  SpawnTursoTokenRefresh ::
  (match cl_device_id c with Some d => [EnsureDeviceCert user_id d] | None => [] end) ++
  (if empty then [ResetWelcomeDelivery user_id] else []).

Definition set_pin (old_pin : option string) (new_pin : string) (c : Client) : Client * list Effect * Result unit CoreError :=
  match validate_pin new_pin with
  | Err e => (c, [], Err e)
  | Ok _ =>
      let (d, index) := read_or_default (w_fs w) (cl_disk c) in
      let c := with_disk d c in
      match last_active_user index with
      | None => (c, [], Err (OtherError "no active user; call verify_otp first"))
      | Some user_id =>
          match on_store (seal_keys user_id old_pin new_pin (cl_unlock c)) c with
          | (c, Err e) => (c, [], Err e)
          | (c, Ok keys) =>
              let c := with_unlock (Some (mkUnlock user_id keys.1 keys.2)) (Some (w_token w)) c in
              match load_user_db_with_key user_id keys.1 c with
              | (c, Err e) => (c, [ClearMediaCache], Err e)
              | (c, Ok empty) => (c, ClearMediaCache :: after_unlock user_id empty c, Ok tt)
              end
          end
      end
  end.

Definition unlock (user_id pin : string) (c : Client) : Client * list Effect * Result string CoreError :=
  match validate_pin pin with
  | Err e => (c, [], Err e)
  | Ok _ =>
      match on_store (unlock_inner fails (w_now w) user_id pin) c with
      | (c, Err e) => (c, [], Err e)
      | (c, Ok u) =>
          let c := with_unlock (Some u) (Some (w_token w)) c in
          let (c, _) := on_store (let! _ := attempt (delete_for_user fails DB_KEY_SLOT_LEGACY user_id) in
                                  attempt (delete_for_user fails ACCOUNT_ID_KEY_SLOT_LEGACY user_id)) c in
          match load_user_db_with_key user_id (un_db_key u) c with
          | (c, Err e) => (c, [ClearMediaCache], Err e)
          | (c, Ok empty) =>
              (c, ClearMediaCache :: after_unlock user_id empty c ++ [ResignStaleDeviceCerts user_id], Ok (un_user_id u))
          end
      end
  end.

Definition lock (c : Client) : Client := unload_user_db (with_unlock None None c).

Record UnlockStateSnapshot := mkSnapshot { sn_last_active_user : option string; sn_is_unlocked : bool; sn_pin_set : bool }.

Definition get_unlock_state (c : Client) : Client * Result UnlockStateSnapshot CoreError :=
  let (d, index) := read_or_default (w_fs w) (cl_disk c) in
  let c := with_disk d c in
  let unlocked := bool_decide (is_Some (cl_unlock c)) in
  match last_active_user index with
  | None => (c, Ok (mkSnapshot None unlocked false))
  | Some uid =>
      match on_store (load_for_user fails PIN_META_SLOT uid) c with
      | (c, Ok found) => (c, Ok (mkSnapshot (Some uid) unlocked (bool_decide (is_Some found))))
      | (c, Err e) => (c, Err e)
      end
  end.
End Commands.

(** ** Codecs *)

Lemma sub_bytes_skip (a b : bytes) from n : length a <= from -> sub_bytes from n (a ++ b) = sub_bytes (from - length a) n b.
Proof. intros Hf. unfold sub_bytes. by rewrite drop_app_ge. Qed.

Lemma sub_bytes_hit (a b : bytes) from n : from = 0 -> n = length a -> sub_bytes from n (a ++ b) = a.
Proof. intros -> ->. unfold sub_bytes. by rewrite drop_0, take_app_length. Qed.

Lemma sub_bytes_all (a : bytes) from n : from = 0 -> n = length a -> sub_bytes from n a = a.
Proof. intros -> ->. unfold sub_bytes. by rewrite drop_0, firstn_all. Qed.

Lemma byte_at_skip (a b : bytes) i : length a <= i -> byte_at i (a ++ b) = byte_at (i - length a) b.
Proof. intros Hi. unfold byte_at. by rewrite lookup_app_r. Qed.

#[local] Opaque be_bytes.

#[local] Ltac len := repeat rewrite ?length_be_bytes, ?length_app; cbn [length]; lia.

(** Reads the field of a blob the goal names, skipping the ones before it. *)
#[local] Ltac read_field :=
  first [apply sub_bytes_hit; len|apply sub_bytes_all; len|rewrite sub_bytes_skip by len; read_field].

Definition meta_wf (m : PinMeta) : Prop :=
  (m_cost_kib m < 2 ^ 32)%N /\ (t_cost m < 256)%N /\ (p_cost m < 256)%N /\ length (salt m) = 16 /\ length (verifier_nonce m) = 24 /\
  (N.of_nat (length (verifier_ct m)) < 2 ^ 16)%N /\ (failed_attempts m < 2 ^ 32)%N /\ (last_attempt_unix m < 2 ^ 64)%N.

Lemma to_bytes_eq m : to_bytes m = [PIN_META_VERSION] ++ be_bytes 4 (m_cost_kib m) ++ [byte_of_N (t_cost m)] ++ [byte_of_N (p_cost m)] ++
  salt m ++ verifier_nonce m ++ be_bytes 2 (as_u16 (N.of_nat (length (verifier_ct m)))) ++ verifier_ct m ++
  be_bytes 4 (failed_attempts m) ++ be_bytes 8 (last_attempt_unix m).
Proof. done. Qed.

(** The fields of a written blob, at the offsets the reader uses. *)
Lemma to_bytes_fields m : meta_wf m -> let b := to_bytes m in let n := length (verifier_ct m) in
  length b = 61 + n /\ byte_at 0 b = PIN_META_VERSION /\ sub_bytes 1 4 b = be_bytes 4 (m_cost_kib m) /\
  byte_at 5 b = byte_of_N (t_cost m) /\ byte_at 6 b = byte_of_N (p_cost m) /\ sub_bytes 7 16 b = salt m /\
  sub_bytes 23 24 b = verifier_nonce m /\ sub_bytes 47 2 b = be_bytes 2 (as_u16 (N.of_nat n)) /\
  sub_bytes 49 n b = verifier_ct m /\ sub_bytes (49 + n) 4 b = be_bytes 4 (failed_attempts m) /\
  sub_bytes (49 + n + 4) 8 b = be_bytes 8 (last_attempt_unix m).
Proof.
  intros (_ & _ & _ & Hs & Hv & _). cbv zeta. rewrite to_bytes_eq.
  split_and!; [len|done|read_field| | |read_field..].
  - by rewrite !byte_at_skip by len.
  - by rewrite !byte_at_skip by len.
Qed.

Lemma pin_meta_roundtrip m : meta_wf m -> from_bytes (to_bytes m) = Ok m.
Proof.
  intros Hwf. destruct (to_bytes_fields m Hwf) as (Hlen & H0 & H1 & H5 & H6 & H7 & H23 & H47 & H49 & Ha & Hb).
  destruct Hwf as (? & ? & ? & ? & ? & Hct & ? & ?). unfold from_bytes.
  rewrite Hlen, H0, H1, H5, H6, H7, H23, H47, !be_value_bytes, !N_of_byte_of_N.
  assert (En : N.to_nat (as_u16 (N.of_nat (length (verifier_ct m))) mod 2 ^ (8 * N.of_nat 2)) = length (verifier_ct m)).
  { unfold as_u16. rewrite !N.mod_small; lia. }
  rewrite En, H49, Ha, Hb, !be_value_bytes.
  destruct (Nat.ltb_spec (61 + length (verifier_ct m)) 61) as [?|_]; [lia|].
  destruct (Nat.ltb_spec (61 + length (verifier_ct m)) (49 + length (verifier_ct m) + 12)) as [?|_]; [lia|].
  rewrite bool_decide_eq_true_2 by done. cbn [negb]. rewrite !N.mod_small by lia. by destruct m.
Qed.

Section Crypto.
Context `{PinCrypto} `{!PinCryptoLaws}.

Lemma wrap_roundtrip kek nonce pt blob : length nonce = 24 -> (N.of_nat (length pt) < 2 ^ 16 - 16)%N ->
  wrap_bytes kek nonce pt = Ok blob -> unwrap_bytes kek blob = Ok pt.
Proof.
  intros Hn Hl Hw. unfold wrap_bytes in Hw. destruct (aead_encrypt kek nonce pt) as [ct|] eqn:Hc; [|done]. injection Hw as <-.
  pose proof (aead_length _ _ _ _ Hc) as Hct. pose proof (aead_roundtrip _ _ _ _ Hc) as Hd.
  unfold unwrap_bytes. set (n := as_u16 (N.of_nat (length ct))). set (blob := WRAPPED_VERSION :: nonce ++ be_bytes 2 n ++ ct).
  assert (Eb : blob = [WRAPPED_VERSION] ++ nonce ++ be_bytes 2 n ++ ct) by done.
  assert (Hlen : length blob = 27 + length ct) by (rewrite Eb; len).
  assert (H25 : sub_bytes 25 2 blob = be_bytes 2 n) by (rewrite Eb; read_field).
  assert (H1 : sub_bytes 1 24 blob = nonce) by (rewrite Eb; read_field).
  assert (H27 : sub_bytes 27 (length ct) blob = ct) by (rewrite Eb; read_field).
  assert (En : N.to_nat (be_value (be_bytes 2 n)) = length ct).
  { rewrite be_value_bytes. unfold n, as_u16. rewrite !N.mod_small; lia. }
  rewrite Hlen, H25, En, H1, H27, Hd.
  destruct (Nat.ltb_spec (27 + length ct) 27) as [?|_]; [lia|].
  destruct (Nat.ltb_spec (27 + length ct) (27 + length ct)) as [?|_]; [lia|]. done.
Qed.

Lemma wrap_total kek nonce pt : (N.of_nat (length pt) < 2 ^ 16 - 16)%N -> exists blob, wrap_bytes kek nonce pt = Ok blob.
Proof.
  intros Hl. unfold wrap_bytes. destruct (aead_total kek nonce pt) as [ct ->]; [lia|]. simpl. eauto.
Qed.

(** ** A keystore that works *)

Context (works : nat -> bool) (Hworks : forall n, works n = false).

Lemma call_works {A} (f : gmap string bytes -> gmap string bytes * A) s :
  call works f s = (mkStore (f (slots s)).1 (S (calls s)), Ok (f (slots s)).2).
Proof. unfold call. rewrite Hworks. by destruct (f (slots s)). Qed.

Lemma slot_inj key key' u : slot key u = slot key' u -> key = key'.
Proof.
  unfold slot. intros E. apply (f_equal as_bytes) in E. rewrite !as_bytes_append in E.
  apply app_inj_2 in E as [E _]; [by apply as_bytes_inj|done].
Qed.

Definition wiped (u : string) (m : gmap string bytes) : gmap string bytes :=
  delete (slot ACCOUNT_ID_KEY_WRAPPED_SLOT u) (delete (slot DB_KEY_WRAPPED_SLOT u) (delete (slot PIN_META_SLOT u) m)).

Lemma nuke_wrapped_works u s : exists n, nuke_wrapped works u s = (mkStore (wiped u (slots s)) n, Ok tt).
Proof. unfold nuke_wrapped, attempt, mbind, delete_for_user. rewrite !call_works. eauto. Qed.

Lemma load_pin_meta_works u s meta : meta_wf meta -> slots s !! slot PIN_META_SLOT u = Some (to_bytes meta) ->
  exists n, load_pin_meta works u s = (mkStore (slots s) n, Ok (Some meta)).
Proof.
  intros Hwf Hs. unfold load_pin_meta, mbind, load_for_user, mret. rewrite call_works. cbn [fst snd]. rewrite Hs, pin_meta_roundtrip by done.
  eauto.
Qed.

Definition kek_of (pin : string) (meta : PinMeta) : Result bytes CoreError :=
  derive_kek pin (salt meta) (m_cost_kib meta) (t_cost meta) (p_cost meta).

(** A PIN the verifier turns down. *)
Definition rejects (meta : PinMeta) (pin : string) : Prop := exists kek, kek_of pin meta = Ok kek /\ verifier_ok kek meta = false.

(** The slots of [u] in [m]: [meta], and blobs that [pin] opens to the two keys. *)
Definition sealed (m : gmap string bytes) (u : string) (meta : PinMeta) (pin : string) (db_key id_key : bytes) : Prop :=
  exists kek db_blob id_blob,
  meta_wf meta /\ m !! slot PIN_META_SLOT u = Some (to_bytes meta) /\
  kek_of pin meta = Ok kek /\ verifier_ok kek meta = true /\
  m !! slot DB_KEY_WRAPPED_SLOT u = Some db_blob /\ unwrap_bytes kek db_blob = Ok db_key /\
  m !! slot ACCOUNT_ID_KEY_WRAPPED_SLOT u = Some id_blob /\ unwrap_bytes kek id_blob = Ok id_key.

Lemma sealed_attempts m u meta pin db_key id_key attempts now : (attempts < 2 ^ 32)%N -> (now < 2 ^ 64)%N ->
  sealed m u meta pin db_key id_key ->
  sealed (<[slot PIN_META_SLOT u := to_bytes (set_attempts attempts now meta)]> m) u (set_attempts attempts now meta) pin db_key id_key.
Proof.
  intros Ha Hn (kek & db_blob & id_blob & Hwf & Hm & Hk & Hv & Hd & Hdu & Hi & Hiu). exists kek, db_blob, id_blob.
  split_and!; try done.
  - unfold meta_wf in *. simpl. intuition.
  - by rewrite lookup_insert_eq.
  - rewrite lookup_insert_ne; [done|]. by intros E%slot_inj.
  - rewrite lookup_insert_ne; [done|]. by intros E%slot_inj.
Qed.

(** A wrong PIN is counted; the tenth wipes the blobs. *)
Lemma unlock_wrong now u pin s meta : (failed_attempts meta < MAX_FAILED_ATTEMPTS)%N -> meta_wf meta ->
  slots s !! slot PIN_META_SLOT u = Some (to_bytes meta) -> rejects meta pin ->
  let n := (failed_attempts meta + 1)%N in
  let counted := <[slot PIN_META_SLOT u := to_bytes (set_attempts n now meta)]> (slots s) in
  exists k, unlock_inner works now u pin s =
    (mkStore (if (MAX_FAILED_ATTEMPTS <=? n)%N then wiped u counted else counted) k, Err (OtherError "pin incorrect")).
Proof.
  intros Hlt Hwf Hs (kek & Hk & Hv). cbv zeta. unfold unlock_inner, mbind, mret.
  destruct (load_pin_meta_works u s meta Hwf Hs) as [n ->]. cbn [ok_or].
  destruct (N.leb_spec MAX_FAILED_ATTEMPTS (failed_attempts meta)) as [?|_]; [lia|].
  unfold kek_of in Hk. rewrite Hk, Hv. cbn [negb]. unfold store_pin_meta, store_for_user. rewrite call_works. cbn [fst snd slots calls].
  cbn [failed_attempts set_attempts]. destruct (N.leb_spec MAX_FAILED_ATTEMPTS (failed_attempts meta + 1)) as [_|_]; [|eauto].
  match goal with |- context [nuke_wrapped works u ?x] => destruct (nuke_wrapped_works u x) as [k ->] end. eauto.
Qed.

(** The right PIN opens the keys and resets the count. *)
Lemma unlock_right now u pin s meta db_key id_key : (failed_attempts meta < MAX_FAILED_ATTEMPTS)%N ->
  sealed (slots s) u meta pin db_key id_key ->
  exists k, unlock_inner works now u pin s =
    (mkStore (if (failed_attempts meta =? 0)%N then slots s else <[slot PIN_META_SLOT u := to_bytes (set_attempts 0 now meta)]> (slots s)) k,
     Ok (mkUnlock u db_key id_key)).
Proof.
  intros Hlt (kek & db_blob & id_blob & Hwf & Hs & Hk & Hv & Hd & Hdu & Hi & Hiu). unfold unlock_inner, mbind, mret, missing.
  destruct (load_pin_meta_works u s meta Hwf Hs) as [n ->]. cbn [ok_or].
  destruct (N.leb_spec MAX_FAILED_ATTEMPTS (failed_attempts meta)) as [?|_]; [lia|].
  unfold kek_of in Hk. rewrite Hk, Hv. cbn [negb]. unfold load_for_user. rewrite call_works. cbn [fst snd slots calls]. rewrite Hd. cbn [ok_or mret].
  rewrite call_works. cbn [fst snd slots calls]. rewrite Hi. cbn [ok_or mret]. rewrite Hdu, Hiu.
  destruct (failed_attempts meta =? 0)%N; cbn [negb]; [eauto|].
  unfold store_pin_meta, store_for_user. rewrite call_works. cbn [fst snd slots calls]. eauto.
Qed.
(** Nothing is left to open. *)
Definition empty_vault (u : string) (m : gmap string bytes) : Prop :=
  m !! slot PIN_META_SLOT u = None /\ m !! slot DB_KEY_WRAPPED_SLOT u = None /\ m !! slot ACCOUNT_ID_KEY_WRAPPED_SLOT u = None.

Lemma wiped_empty u m : empty_vault u (wiped u m).
Proof.
  unfold empty_vault, wiped. split_and!; repeat (rewrite lookup_delete_ne by (intros E%slot_inj; done)); apply lookup_delete_eq.
Qed.

Lemma unlock_absent now u pin s : slots s !! slot PIN_META_SLOT u = None ->
  exists k, unlock_inner works now u pin s = (mkStore (slots s) k, Err (OtherError "PIN not set for user")).
Proof.
  intros Hs. unfold unlock_inner, mbind, mret, load_pin_meta, mbind, load_for_user, mret. rewrite call_works. cbn [fst snd]. rewrite Hs. eauto.
Qed.

(** One attempt of a PIN at a time of the clock. *)
Definition guess (u : string) (s : Store) (g : N * string) : Store := (unlock_inner works g.1 u g.2 s).1.

Lemma guesses_absent u gs : forall s, slots s !! slot PIN_META_SLOT u = None -> slots (fold_left (guess u) gs s) = slots s.
Proof.
  induction gs as [|[now pin] gs IH]; intros s Hs; simpl; [done|]. unfold guess at 2. simpl.
  destruct (unlock_absent now u pin s Hs) as [k ->]. simpl. by rewrite IH.
Qed.

(** The slot of another name than the three of the vault. *)
Definition not_vault (u key : string) : Prop :=
  key <> slot PIN_META_SLOT u /\ key <> slot DB_KEY_WRAPPED_SLOT u /\ key <> slot ACCOUNT_ID_KEY_WRAPPED_SLOT u.

Lemma wiped_other u m key : not_vault u key -> wiped u m !! key = m !! key.
Proof. intros (? & ? & ?). unfold wiped. by rewrite !lookup_delete_ne. Qed.

Lemma meta_other u m key v : not_vault u key -> <[slot PIN_META_SLOT u := v]> m !! key = (m : gmap string bytes) !! key.
Proof. intros (? & _). by rewrite lookup_insert_ne. Qed.

Lemma guesses_spec u pin db_key id_key gs : forall s meta,
  sealed (slots s) u meta pin db_key id_key -> (failed_attempts meta < MAX_FAILED_ATTEMPTS)%N ->
  Forall (fun g => (g.1 < 2 ^ 64)%N /\ rejects meta g.2) gs ->
  let s' := fold_left (guess u) gs s in
  (forall key, not_vault u key -> slots s' !! key = slots s !! key) /\
  if (failed_attempts meta + N.of_nat (length gs) <? MAX_FAILED_ATTEMPTS)%N
  then exists meta', sealed (slots s') u meta' pin db_key id_key /\ failed_attempts meta' = (failed_attempts meta + N.of_nat (length gs))%N
  else empty_vault u (slots s').
Proof.
  induction gs as [|[now g] gs IH]; intros s meta Hs Hlt Hg; cbn [fold_left length].
  { split; [done|]. destruct (N.ltb_spec (failed_attempts meta + N.of_nat 0) MAX_FAILED_ATTEMPTS); [|lia]. exists meta. split; [done|lia]. }
  apply Forall_cons in Hg as [[Hnow Hrej] Hg]. pose proof Hs as (_ & _ & _ & Hwf & Hm & _).
  destruct (unlock_wrong now u g s meta Hlt Hwf Hm Hrej) as [k Hu].
  apply (f_equal fst) in Hu. change (unlock_inner works now u g s).1 with (guess u s (now, g)) in Hu. rewrite Hu. cbn [fst]. unfold MAX_FAILED_ATTEMPTS in *.
  destruct (N.leb_spec 10 (failed_attempts meta + 1)) as [Hten|Hmore].
  - rewrite guesses_absent by apply wiped_empty. simpl. split.
    + intros key Hk. rewrite wiped_other by done. by apply meta_other.
    + destruct (N.ltb_spec (failed_attempts meta + N.of_nat (S (length gs))) 10); [lia|]. apply wiped_empty.
  - destruct (IH (mkStore (<[slot PIN_META_SLOT u := to_bytes (set_attempts (failed_attempts meta + 1) now meta)]> (slots s)) k)
                (set_attempts (failed_attempts meta + 1) now meta)) as [Hk Hc]; [by apply sealed_attempts; [lia|..]|done|done|].
    split.
    + intros key Hkey. rewrite Hk by done. by apply meta_other.
    + cbn [failed_attempts set_attempts] in Hc.
      replace (failed_attempts meta + N.of_nat (S (length gs)))%N with (failed_attempts meta + 1 + N.of_nat (length gs))%N by lia. exact Hc.
Qed.

(** C35: While the keystore works, wrong PINs are counted across attempts: as long as fewer than
    ten have failed in a row the right PIN still opens the two keys; from the tenth on the
    three blobs are gone and no PIN opens anything.  No other slot of the keystore changes. *)
Theorem pin_lockout_exact u s meta pin db_key id_key guesses :
  sealed (slots s) u meta pin db_key id_key -> (failed_attempts meta < MAX_FAILED_ATTEMPTS)%N ->
  Forall (fun g => (g.1 < 2 ^ 64)%N /\ rejects meta g.2) guesses ->
  let s' := fold_left (guess u) guesses s in
  (forall key, not_vault u key -> slots s' !! key = slots s !! key) /\
  forall now p,
    if (failed_attempts meta + N.of_nat (length guesses) <? MAX_FAILED_ATTEMPTS)%N
    then (unlock_inner works now u pin s').2 = Ok (mkUnlock u db_key id_key)
    else empty_vault u (slots s') /\ (unlock_inner works now u p s').2 = Err (OtherError "PIN not set for user").
Proof.
  intros Hs Hlt Hg. destruct (guesses_spec u pin db_key id_key guesses s meta Hs Hlt Hg) as [Hk Hc]. split; [done|]. intros now p.
  destruct (N.ltb_spec (failed_attempts meta + N.of_nat (length guesses)) MAX_FAILED_ATTEMPTS) as [Hm|_].
  - destruct Hc as (meta' & Hs' & Hn). destruct (unlock_right now u pin _ meta' db_key id_key ltac:(lia) Hs') as [k ->]. done.
  - split; [done|]. destruct (unlock_absent now u p _ (proj1 Hc)) as [k ->]. done.
Qed.
(** ** What a PIN seals it opens *)

Definition world_ok (w : World) : Prop :=
  length (w_salt w) = 16 /\ length (w_nonce_verifier w) = 24 /\ length (w_nonce_db w) = 24 /\ length (w_nonce_account w) = 24 /\
  (w_now w < 2 ^ 64)%N.

Definition short_keys (keys : bytes * bytes) : Prop :=
  (N.of_nat (length keys.1) < 2 ^ 16 - 16)%N /\ (N.of_nat (length keys.2) < 2 ^ 16 - 16)%N.

(** No key of [u] lies about in the clear. *)
Definition no_plain_keys (u : string) (m : gmap string bytes) : Prop :=
  m !! slot DB_KEY_SLOT_LEGACY u = None /\ m !! slot ACCOUNT_ID_KEY_SLOT_LEGACY u = None.

Lemma fresh_meta_wf w ct : world_ok w -> length ct = 32 ->
  meta_wf (mkMeta ARGON2_M_COST_KIB ARGON2_T_COST ARGON2_P_COST (w_salt w) (w_nonce_verifier w) ct 0 (w_now w)).
Proof. intros (? & ? & _ & _ & ?) Hc. unfold meta_wf. simpl. rewrite Hc. split_and!; (done || lia). Qed.

(** The slots after the three writes and the deletes. *)
Definition resealed (u : string) (session : bool) (db_blob id_blob meta : bytes) (m : gmap string bytes) : gmap string bytes :=
  let m1 := <[slot PIN_META_SLOT u := meta]> (<[slot ACCOUNT_ID_KEY_WRAPPED_SLOT u := id_blob]> (<[slot DB_KEY_WRAPPED_SLOT u := db_blob]> m)) in
  let m2 := delete (slot ACCOUNT_ID_KEY_SLOT_LEGACY u) (delete (slot DB_KEY_SLOT_LEGACY u) m1) in
  if session then delete (slot SESSION_SLOT_LEGACY u) m2 else m2.

#[local] Ltac slots_of :=
  repeat first [rewrite lookup_insert_eq|rewrite lookup_delete_eq|rewrite lookup_insert_ne by (intros E%slot_inj; done)
               |rewrite lookup_delete_ne by (intros E%slot_inj; done)]; try done.

Lemma resealed_slots u session db_blob id_blob meta m : let m' := resealed u session db_blob id_blob meta m in
  m' !! slot PIN_META_SLOT u = Some meta /\ m' !! slot DB_KEY_WRAPPED_SLOT u = Some db_blob /\
  m' !! slot ACCOUNT_ID_KEY_WRAPPED_SLOT u = Some id_blob /\ no_plain_keys u m'.
Proof. unfold resealed, no_plain_keys. destruct session; split_and!; slots_of. Qed.

Lemma seal_keys_works w u old new unl s s0 keys : world_ok w -> short_keys keys ->
  find_keys works w u old unl s = (s0, Ok keys) ->
  exists s1 meta, seal_keys works w u old new unl s = (s1, Ok keys) /\
    sealed (slots s1) u meta new keys.1 keys.2 /\ failed_attempts meta = 0%N /\ no_plain_keys u (slots s1).
Proof.
  intros Hw [Hk1 Hk2] Hf. destruct (argon2_total (as_bytes new) (w_salt w) ltac:(apply Hw)) as [kek Hkek].
  change (argon2id (as_bytes new) (w_salt w) ARGON2_M_COST_KIB ARGON2_T_COST ARGON2_P_COST = Some kek) in Hkek.
  destruct (aead_total kek (w_nonce_verifier w) VERIFIER_PLAINTEXT ltac:(done)) as [ct Hct].
  destruct (wrap_total kek (w_nonce_db w) keys.1 Hk1) as [db_blob Hdb].
  destruct (wrap_total kek (w_nonce_account w) keys.2 Hk2) as [id_blob Hid].
  set (meta := mkMeta ARGON2_M_COST_KIB ARGON2_T_COST ARGON2_P_COST (w_salt w) (w_nonce_verifier w) ct 0 (w_now w)).
  assert (Hrun : exists k, seal_keys works w u old new unl s =
    (mkStore (resealed u (match old with None => true | Some _ => false end) db_blob id_blob (to_bytes meta) (slots s0)) k, Ok keys)).
  { unfold seal_keys, mbind, mret, attempt. rewrite Hf. unfold derive_kek. rewrite Hkek. cbn [ok_or]. rewrite Hct. cbn [ok_or]. rewrite Hdb, Hid.
    unfold store_pin_meta, store_for_user, delete_for_user. rewrite !call_works. cbn [fst snd slots calls].
    destruct old; rewrite ?call_works; cbn [fst snd slots calls]; eauto. }
  destruct Hrun as [k Hrun]. destruct (resealed_slots u (match old with None => true | Some _ => false end) db_blob id_blob (to_bytes meta) (slots s0)) as (Ha & Hb & Hc & Hp).
  eexists _, meta. split; [exact Hrun|]. split; [|by split].
  exists kek, db_blob, id_blob. split_and!; try done.
  - apply fresh_meta_wf; [done|]. by rewrite (aead_length _ _ _ _ Hct).
  - unfold kek_of, derive_kek, meta. cbn [salt m_cost_kib t_cost p_cost]. by rewrite Hkek.
  - unfold verifier_ok, meta. simpl. rewrite (aead_roundtrip _ _ _ _ Hct). by apply bool_decide_eq_true_2.
  - by apply (wrap_roundtrip _ (w_nonce_db w)); [apply Hw|..].
  - by apply (wrap_roundtrip _ (w_nonce_account w)); [apply Hw|..].
Qed.

Context `{!IndexJson}.

(** Whichever way the keys were found (in memory, in the old plain slots, or under the old
    PIN), setting a PIN succeeds while the keystore works and the database opens, leaves no
    key in the clear, and after the app is locked the new PIN unlocks the very same keys and
    opens the database under them. *)
Theorem pin_roundtrip w w' old new c u s0 keys e e' : world_ok w -> short_keys keys -> validate_pin new = Ok tt ->
  last_active_user (read_or_default (w_fs w) (cl_disk c)).2 = Some u ->
  find_keys works w u old (cl_unlock c) (cl_store c) = (s0, Ok keys) ->
  w_open_db w u keys.1 = Ok e -> w_open_db w' u keys.1 = Ok e' ->
  let '(c1, _, r1) := set_pin works w old new c in
  let '(c2, _, r2) := unlock works w' u new (lock c1) in
  r1 = Ok tt /\ r2 = Ok u /\ no_plain_keys u (slots (cl_store c1)) /\
  cl_unlock c1 = Some (mkUnlock u keys.1 keys.2) /\ cl_unlock c2 = cl_unlock c1 /\ cl_local_db c2 = Some (u, keys.1).
Proof.
  intros Hw Hk Hnew Ha Hf Ho Ho'. unfold set_pin. rewrite Hnew. destruct (read_or_default (w_fs w) (cl_disk c)) as [d index]. simpl in Ha. rewrite Ha.
  destruct (seal_keys_works w u old new (cl_unlock c) (cl_store c) s0 keys Hw Hk Hf) as (s1 & meta & Hs & Hsealed & Hz & Hplain).
  unfold on_store at 1. cbn [cl_unlock cl_store with_disk]. rewrite Hs. unfold load_user_db_with_key. rewrite Ho. cbn [fst snd].
  destruct (unlock_right (w_now w') u new s1 meta keys.1 keys.2 ltac:(rewrite Hz; done) Hsealed) as [k Hu].
  unfold unlock. rewrite Hnew. unfold on_store at 1. cbn [cl_store lock unload_user_db with_local_db with_unlock with_store]. rewrite Hu. cbn [fst snd].
  unfold on_store, mbind, attempt, delete_for_user. cbn [cl_store with_unlock with_store]. rewrite !call_works. cbn [fst snd slots calls un_db_key].
  unfold load_user_db_with_key. rewrite Ho'. split_and!; try done; apply Hplain.
Qed.
End Crypto.

(** ** The accounts index *)

Section IndexFacts.
Context `{IndexJson} `{!IndexJsonLaws}.

Definition ids (i : AccountsIndex) : list string := map ai_user_id (accounts i).

Definition index_wf (i : AccountsIndex) : Prop := NoDup (ids i) /\ (forall u, last_active_user i = Some u -> u ∈ ids i).

Definition disk_ok (d : IndexDisk) : Prop := forall b i, accounts_json d = Some b -> index_from_str b = Some i -> index_wf i.

Definition readable (d : IndexDisk) : Prop := forall b, accounts_json d = Some b -> utf8_valid b = true /\ is_Some (index_from_str b).

(** A text that is no index. *)
Definition corrupt (b : bytes) : Prop := utf8_valid b = true /\ index_from_str b = None.

Inductive IndexOp : Type :=
| Read
| Upsert (user_id username : string) (email avatar_url : option string)
| Remove (user_id : string)
| Clear.

Definition run_op (d : IndexDisk) (o : FileSystem * IndexOp) : IndexDisk :=
  match o.2 with
  | Read => (read_accounts_index o.1 d).1
  | Upsert u n e a => (upsert_account o.1 u n e a d).1
  | Remove u => (remove_account o.1 u d).1
  | Clear => (clear_last_active_user o.1 d).1
  end.

Definition works (fs : FileSystem) : Prop := rename_fails fs = false /\ read_fails fs = false.

(** What an operation does with the files: nothing; a good file is written, over a corrupt one
    only if reading or renaming failed; or a corrupt file is set aside and a good one, or none, is
    in its place. *)
Inductive replaced (fs : FileSystem) (d d' : IndexDisk) : Prop :=
| Untouched : accounts_json d' = accounts_json d -> set_aside d' = set_aside d -> replaced fs d d'
| Overwritten : set_aside d' = set_aside d -> readable d' ->
    (works fs -> forall b, accounts_json d = Some b -> ~ corrupt b) -> replaced fs d d'
| SetAside b : accounts_json d = Some b -> corrupt b -> set_aside d' = <[backup_name fs := b]> (set_aside d) -> readable d' -> replaced fs d d'.

Lemma index_default_wf : index_wf index_default.
Proof. split; [constructor|done]. Qed.

Definition sound (fs : FileSystem) (d d' : IndexDisk) : Prop := (disk_ok d -> disk_ok d') /\ replaced fs d d'.

Lemma sound_refl fs d : sound fs d d.
Proof. split; [done|by apply Untouched]. Qed.

Lemma read_sound fs d : sound fs d (read_accounts_index fs d).1.
Proof.
  unfold read_accounts_index. destruct (read_fails fs); [apply sound_refl|].
  destruct (accounts_json d) as [data|] eqn:Hd; [|apply sound_refl]. destruct (utf8_valid data) eqn:Ht; simpl; [|apply sound_refl].
  destruct (index_from_str data) eqn:Hp; [apply sound_refl|].
  destruct (rename_fails fs) eqn:Hr; simpl; [apply sound_refl|]. split; [by intros _ ???|]. by eapply SetAside.
Qed.

(** What a read that went well says of the file it leaves. *)
Lemma read_ok fs d i : (read_accounts_index fs d).2 = Ok i ->
  (read_accounts_index fs d).1 = d /\ readable d /\ (disk_ok d -> index_wf i).
Proof.
  unfold read_accounts_index. destruct (read_fails fs); [done|]. unfold readable, disk_ok.
  destruct (accounts_json d) as [data|] eqn:Hd.
  - destruct (utf8_valid data) eqn:Ht; simpl; [|done]. destruct (index_from_str data) as [j|] eqn:Hp; simpl; intros [= <-].
    split_and!; [done|naive_solver|naive_solver].
  - simpl. intros [= <-]. split_and!; [done..|]. intros _. apply index_default_wf.
Qed.

(** Writing a good index over a file that was read or set aside. *)
Lemma write_sound fs d0 d i : sound fs d0 d -> (disk_ok d0 -> index_wf i) ->
  (works fs -> forall b, accounts_json d = Some b -> ~ corrupt b) -> sound fs d0 (write_accounts_index fs i d).1.
Proof.
  intros [Hok Hrep] Hi Hr. unfold write_accounts_index. destruct (write_fails fs); [by split|]. split; simpl.
  - intros Hd b j [= <-] Hj. rewrite index_json_roundtrip in Hj. simplify_eq. auto.
  - assert (readable (mkDisk (Some (index_to_string_pretty i)) (set_aside d))) as Hgood.
    { intros b [= <-]. rewrite index_json_roundtrip, index_json_text. eauto. }
    destruct Hrep as [Ha Hs|Hs _ Hc|b Hb Hc Hs _]; [apply Overwritten|apply Overwritten|eapply SetAside]; try done. by rewrite <- Ha.
Qed.

Lemma readable_sound d b : readable d -> accounts_json d = Some b -> ~ corrupt b.
Proof. intros Hr Hb [_ Hn]. destruct (Hr b Hb) as [_ [? ?]]. congruence. Qed.

Lemma update_first_ids u f l l' : (forall a, ai_user_id (f a) = ai_user_id a) -> update_first u f l = Some l' ->
  map ai_user_id l' = map ai_user_id l /\ u ∈ map ai_user_id l.
Proof.
  intros Hf. revert l'. induction l as [|a l IH]; simpl; intros l' Hu; [done|]. unfold is_account in Hu. case_bool_decide as Ha.
  - injection Hu as <-. simpl. rewrite Hf. split; [done|]. rewrite Ha. by left.
  - destruct (update_first u f l) as [l1|]; [|done]. injection Hu as <-. destruct (IH l1 eq_refl) as [IH1 IH2]. simpl. rewrite IH1. split; [done|by right].
Qed.

Lemma update_first_none u f l : update_first u f l = None -> u ∉ map ai_user_id l.
Proof.
  induction l as [|a l IH]; simpl; intros Hu; [by apply not_elem_of_nil|]. unfold is_account in Hu. case_bool_decide as Ha; [done|].
  destruct (update_first u f l); [done|]. apply not_elem_of_cons. split; [congruence|auto].
Qed.

Lemma upsert_wf fs u n e a i : index_wf i ->
  index_wf (mkIndex (match update_first u (update_account fs n e a) (accounts i) with
                     | Some l => l | None => accounts i ++ [mkAccount u n e a (fs_now fs)] end) (Some u)).
Proof.
  intros [Hnd _]. unfold index_wf, ids in *. simpl. destruct (update_first _ _ _) as [l|] eqn:Hu.
  - apply update_first_ids in Hu as [-> ?]; [|done]. split; [done|]. by intros u' [= <-].
  - apply update_first_none in Hu. rewrite map_app. simpl. split; [|intros u' [= <-]; rewrite elem_of_app, list_elem_of_singleton; by right].
    apply NoDup_app. split_and!; [done| |apply NoDup_singleton]. intros x Hx Hx'%list_elem_of_singleton. by subst.
Qed.

(** The account promoted is one of the list, last seen no earlier than the others. *)
Lemma most_recent_fold l : forall best, match fold_left later l best with
  | Some a => (Some a = best \/ a ∈ l)
  | None => best = None /\ l = []
  end.
Proof.
  induction l as [|x l IH]; intros best; simpl; [destruct best; [by left|done]|]. specialize (IH (later best x)).
  destruct (fold_left later l (later best x)) as [a|].
  - destruct IH as [Ha|Ha]; [|right; by right]. destruct best as [b|]; simpl in Ha; [destruct (String.leb _ _)|]; simplify_eq; [right; by left|by left|right; by left].
  - destruct IH as [Hb _]. destruct best; simpl in Hb; [by destruct (String.leb _ _)|done].
Qed.

Lemma most_recent_elem l a : most_recent l = Some a -> a ∈ l.
Proof. intros Hm. pose proof (most_recent_fold l None) as Hf. unfold most_recent in Hm. rewrite Hm in Hf. by destruct Hf. Qed.

Lemma filter_ids (p : AccountInfo -> bool) l x : x ∈ map ai_user_id (List.filter p l) <-> exists a, a ∈ l /\ p a = true /\ ai_user_id a = x.
Proof.
  rewrite list_elem_of_In, in_map_iff. setoid_rewrite filter_In. setoid_rewrite list_elem_of_In. naive_solver.
Qed.

Lemma filter_ids_NoDup (p : AccountInfo -> bool) l : NoDup (map ai_user_id l) -> NoDup (map ai_user_id (List.filter p l)).
Proof.
  induction l as [|a l IH]; simpl; [done|]. intros [Ha Hl]%NoDup_cons. destruct (p a); simpl; [|auto].
  apply NoDup_cons. split; [|auto]. rewrite filter_ids. intros (b & Hb & _ & Hid). apply Ha. rewrite <- Hid. apply list_elem_of_In, in_map, list_elem_of_In, Hb.
Qed.

Lemma remove_wf u i : index_wf i ->
  let rest := List.filter (fun a => negb (is_account u a)) (accounts i) in
  index_wf (mkIndex rest (if bool_decide (last_active_user i = Some u) then ai_user_id <$> most_recent rest else last_active_user i)).
Proof.
  intros [Hnd Hl]. unfold index_wf, ids in *. simpl. split; [by apply filter_ids_NoDup|]. intros v. case_bool_decide as Hu.
  - intros Hm. apply fmap_Some in Hm as (a & Ha%most_recent_elem & ->). apply list_elem_of_In, in_map, list_elem_of_In, Ha.
  - intros Hv. specialize (Hl v Hv). apply list_elem_of_In, in_map_iff in Hl as (a & <- & Ha%list_elem_of_In).
    apply filter_ids. exists a. split_and!; [done| |done]. unfold is_account. apply negb_true_iff, bool_decide_eq_false. congruence.
Qed.

Lemma read_or_default_sound fs d : let (d1, i) := read_or_default fs d in
  sound fs d d1 /\ (disk_ok d -> index_wf i) /\ (works fs -> forall b, accounts_json d1 = Some b -> ~ corrupt b).
Proof.
  unfold read_or_default. pose proof (read_sound fs d) as Hs. pose proof (read_ok fs d) as Ho.
  destruct (read_accounts_index fs d) as [d1 [i|e]] eqn:Hr; simpl in *.
  - destruct (Ho i eq_refl) as (-> & ? & ?). split_and!; [done..|]. intros _ b. by apply readable_sound.
  - split_and!; [done|intros _; apply index_default_wf|]. intros [Hrn Hrf] b Hb [Ht Hn]. unfold read_accounts_index in Hr. rewrite Hrf, Hrn in Hr.
    destruct (accounts_json d) as [data|] eqn:Hd; [|done]. destruct (utf8_valid data) eqn:Et; simpl in Hr; [|congruence].
    by destruct (index_from_str data); simplify_eq.
Qed.

Lemma run_op_sound d o : sound o.1 d (run_op d o).
Proof.
  destruct o as [fs [|u n e a|u|]]; unfold run_op; cbn [fst snd].
  - apply read_sound.
  - unfold upsert_account. pose proof (read_sound fs d) as Hs. pose proof (read_ok fs d) as Ho.
    destruct (read_accounts_index fs d) as [d1 [i|err]]; cbn [fst snd] in *; [|exact Hs].
    destruct (Ho i eq_refl) as (-> & Hr & Hi). apply write_sound; [done| |intros _ b; by apply readable_sound]. intros Hd. by apply upsert_wf, Hi.
  - unfold remove_account. pose proof (read_or_default_sound fs d) as Hr. destruct (read_or_default fs d) as [d1 i].
    destruct Hr as (Hs & Hi & Hr). apply write_sound; [done| |done]. intros Hd. by apply remove_wf, Hi.
  - unfold clear_last_active_user. pose proof (read_or_default_sound fs d) as Hr. destruct (read_or_default fs d) as [d1 i].
    destruct Hr as (Hs & Hi & Hr). apply write_sound; [done| |done]. intros Hd. split; [apply Hi, Hd|done].
Qed.

(** Once the file is good it stays good, and nothing is set aside any more. *)
Lemma runs_readable ops : forall d, readable d -> let d' := fold_left run_op ops d in readable d' /\ set_aside d' = set_aside d.
Proof.
  induction ops as [|o ops IH]; intros d Hd; simpl; [done|]. destruct (run_op_sound d o) as [_ [Ha Hs|Hs Hr _|b Hb Hc _ _]].
  - destruct (IH (run_op d o)) as [? ->]; [|done]. unfold readable. by rewrite Ha.
  - destruct (IH (run_op d o) Hr) as [? ->]. done.
  - by destruct (readable_sound d b Hd Hb).
Qed.

(** What became of the file, and of those set aside. *)
Lemma runs_replaced ops : forall d, let d' := fold_left run_op ops d in
  (set_aside d' = set_aside d \/
   exists o b, o ∈ ops /\ accounts_json d = Some b /\ corrupt b /\ set_aside d' = <[backup_name o.1 := b]> (set_aside d)) /\
  (Forall (fun o => works o.1) ops -> forall b, accounts_json d = Some b -> corrupt b ->
   accounts_json d' = Some b \/ exists o, o ∈ ops /\ set_aside d' !! backup_name o.1 = Some b).
Proof.
  induction ops as [|o ops IH]; intros d; simpl; [split; [by left|]; intros _ b Hb _; by left|].
  destruct (run_op_sound d o) as [_ [Ha Hs|Hs Hr Hw|b Hb Hc Hs Hr]].
  - destruct (IH (run_op d o)) as [H1 H2]. rewrite Ha, Hs in *. split.
    + destruct H1 as [?|(o' & b & ? & ?)]; [by left|]. right. exists o', b. split; [by right|done].
    + intros [_ Hops]%Forall_cons b Hb Hc. destruct (H2 Hops b Hb Hc) as [?|(o' & ? & ?)]; [by left|]. right. exists o'. split; [by right|done].
  - destruct (runs_readable ops _ Hr) as [_ Hq]. rewrite Hq, Hs. split; [by left|]. intros [Hwo _]%Forall_cons b Hb Hc. by destruct (Hw Hwo b Hb).
  - destruct (runs_readable ops _ Hr) as [_ Hq]. rewrite Hq, Hs. split; [right; exists o, b; by split_and!; [left|..]|].
    intros _ b' Hb' _. right. exists o. split; [by left|]. simplify_eq. apply lookup_insert_eq.
Qed.

(** C36: Whatever the file system does, every index the code writes lists an account once and
    names an active user only if it is listed, and a file that can be read stays readable.
    Files set aside stay as they are, but for one that a corrupt index found by these operations
    is renamed to.  While reading and renaming work, the bytes of a corrupt index, a text that
    does not parse, are never lost: it is still there or set aside under the time of the
    operation that found it. *)
Theorem accounts_inv ops d : disk_ok d -> let d' := fold_left run_op ops d in
  disk_ok d' /\ (readable d -> readable d' /\ set_aside d' = set_aside d) /\
  (set_aside d' = set_aside d \/
   exists o b, o ∈ ops /\ accounts_json d = Some b /\ corrupt b /\ set_aside d' = <[backup_name o.1 := b]> (set_aside d)) /\
  (Forall (fun o => works o.1) ops -> forall b, accounts_json d = Some b -> corrupt b ->
   accounts_json d' = Some b \/ exists o, o ∈ ops /\ set_aside d' !! backup_name o.1 = Some b).
Proof.
  intros Hd. cbv zeta. split; [|split; [apply runs_readable|apply runs_replaced]].
  revert d Hd. induction ops as [|o ops IH]; intros d Hd; simpl; [done|]. by apply IH, run_op_sound.
Qed.
End IndexFacts.

(** ** The theorems at concrete inputs *)

Module ClearPin.

Definition tag (key : bytes) : bytes := take 16 (key ++ repeat x00 16).

(** A stand-in that shows everything: the key is PIN and salt, the tag a part of the key. *)
Definition instance : PinCrypto := {|
  argon2id pin salt _ _ _ := Some (pin ++ salt);
  aead_encrypt key _ pt := Some (pt ++ tag key);
  aead_decrypt key _ ct :=
    if bool_decide (drop (length ct - 16) ct = tag key) then Some (take (length ct - 16) ct) else None
|}.

Lemma tag_length key : length (tag key) = 16.
Proof. unfold tag. rewrite length_take, length_app, repeat_length. lia. Qed.

Lemma clear_pin_laws : @PinCryptoLaws instance.
Proof.
  constructor; simpl.
  - intros key _ pt ct [= <-]. rewrite length_app, tag_length.
    replace (length pt + 16 - 16) with (length pt) by lia. rewrite drop_app_length, take_app_length. by rewrite bool_decide_eq_true_2.
  - intros key _ pt ct [= <-]. by rewrite length_app, tag_length.
  - eauto.
  - eauto.
Qed.
End ClearPin.

Section Witnesses.
#[local] Existing Instance ClearPin.instance.
#[local] Existing Instance ClearPin.clear_pin_laws.

#[local] Instance AccountInfo_eq_dec : EqDecision AccountInfo.
Proof. solve_decision. Defined.
#[local] Instance AccountInfo_countable : Countable AccountInfo :=
  inj_countable' (fun a => (ai_user_id a, ai_username a, ai_email a, ai_avatar_url a, ai_last_seen a))
    (fun '(u, n, e, v, l) => mkAccount u n e v l) (fun a => match a with mkAccount _ _ _ _ _ => eq_refl end).
#[local] Instance AccountsIndex_eq_dec : EqDecision AccountsIndex.
Proof. solve_decision. Defined.
#[local] Instance AccountsIndex_countable : Countable AccountsIndex :=
  inj_countable' (fun i => (accounts i, last_active_user i)) (fun '(a, l) => mkIndex a l) (fun i => match i with mkIndex _ _ => eq_refl end).
#[local] Instance clear_index : IndexJson := {|
  index_from_str b := ClearJson.bits_pos b ≫= countable.decode;
  index_to_string_pretty i := ClearJson.pos_bits (countable.encode i)
|}.
#[local] Instance clear_index_laws : IndexJsonLaws.
Proof.
  constructor; intros i; simpl; [by rewrite ClearJson.bits_pos_bits; simpl; rewrite decode_encode|].
  generalize (countable.encode i). intros p. induction p as [p IH|p IH|]; simpl; done.
Qed.

#[local] Definition never (_ : nat) : bool := false.
#[local] Definition calm : FileSystem := mkFs false false false "17" "2026".
#[local] Definition opens (_ : string) (_ : bytes) : Result bool CoreError := Ok false.
#[local] Definition monday : World :=
  mkWorld 1700000000 (repeat x01 16) (repeat x02 24) (repeat x03 24) (repeat x04 24) "token" calm opens.
#[local] Definition alice_keys : UnlockState := mkUnlock "alice" (repeat x07 32) (repeat x09 32).
#[local] Definition signed_up : Client :=
  mkClient (mkStore ∅ 0) (upsert_account calm "alice" "Alice" None None (mkDisk None ∅)).1 (Some alice_keys) None None None (Some "phone").

#[local] Definition with_pin : Client := (set_pin never monday None "1234" signed_up).1.1.

Lemma pin_roundtrip_witness :
  let '(c1, _, r1) := set_pin never monday None "1234" signed_up in
  let '(c2, _, r2) := unlock never monday "alice" "1234" (lock c1) in
  r1 = Ok tt /\ r2 = Ok "alice" /\ no_plain_keys "alice" (slots (cl_store c1)) /\
  cl_unlock c1 = Some alice_keys /\ cl_unlock c2 = cl_unlock c1 /\ cl_local_db c2 = Some ("alice", repeat x07 32).
Proof.
  apply (pin_roundtrip never (fun _ => eq_refl) monday monday None "1234" signed_up "alice" (mkStore ∅ 0) (repeat x07 32, repeat x09 32) false false).
  - by split_and!.
  - by split.
  - vm_compute. reflexivity.
  - vm_compute. reflexivity.
  - reflexivity.
  - reflexivity.
  - reflexivity.
Defined.

#[local] Definition fresh_meta : PinMeta :=
  mkMeta 65536 3 1 (repeat x01 16) (repeat x02 24) (VERIFIER_PLAINTEXT ++ ClearPin.tag (as_bytes "1234" ++ repeat x01 16)) 0 1700000000.

#[local] Definition wrong (n : nat) : list (N * string) := repeat (1700000001%N, "9999") n.

#[local] Lemma with_pin_sealed : sealed (slots (cl_store with_pin)) "alice" fresh_meta "1234" (repeat x07 32) (repeat x09 32).
Proof.
  eexists (as_bytes "1234" ++ repeat x01 16), _, _. split_and!.
  1: by split_and!.
  all: vm_compute; reflexivity.
Qed.

#[local] Lemma wrong_rejected n : Forall (fun g => (g.1 < 2 ^ 64)%N /\ rejects fresh_meta g.2) (wrong n).
Proof.
  apply Forall_forall. intros g ->%list_elem_of_In%repeat_spec. split; [done|]. exists (as_bytes "9999" ++ repeat x01 16). by split.
Qed.

Lemma pin_lockout_exact_witness :
  (unlock_inner never 1700000002 "alice" "1234" (fold_left (guess never "alice") (wrong 9) (cl_store with_pin))).2 = Ok alice_keys /\
  empty_vault "alice" (slots (fold_left (guess never "alice") (wrong 10) (cl_store with_pin))).
Proof.
  split.
  - exact (proj2 (pin_lockout_exact never (fun _ => eq_refl) "alice" (cl_store with_pin) fresh_meta "1234" (repeat x07 32) (repeat x09 32) (wrong 9)
             with_pin_sealed eq_refl (wrong_rejected 9)) 1700000002%N "").
  - exact (proj1 (proj2 (pin_lockout_exact never (fun _ => eq_refl) "alice" (cl_store with_pin) fresh_meta "1234" (repeat x07 32) (repeat x09 32) (wrong 10)
             with_pin_sealed eq_refl (wrong_rejected 10)) 1700000002%N "")).
Defined.

Lemma accounts_inv_witness : disk_ok (fold_left run_op [(calm, Upsert "a" "A" None None); (calm, Remove "a")] (mkDisk None ∅)).
Proof. apply accounts_inv. by intros ???. Defined.

(** A change of PIN cut short after its first write: neither PIN opens the vault, and setting
    a PIN again finds no keys. *)
#[local] Definition tuesday : World :=
  mkWorld 1700090000 (repeat x05 16) (repeat x06 24) (repeat x07 24) (repeat x08 24) "token" calm opens.

Example torn_change_loses_keys :
  let before := lock with_pin in
  let torn := (set_pin (fun n => (n =? calls (cl_store before) + 4)) tuesday (Some "1234") "5678" before).1.1 in
  is_ok (unlock never tuesday "alice" "1234" torn).2 = false /\ is_ok (unlock never tuesday "alice" "5678" torn).2 = false /\
  is_ok (set_pin never tuesday (Some "1234") "5678" torn).2 = false /\ is_ok (set_pin never tuesday None "5678" torn).2 = false.
Proof. vm_compute. by split_and!. Qed.

(** A wrong PIN is not counted when its count cannot be stored. *)
Example uncounted_guess : let s := cl_store with_pin in
  bool_decide (slots (guess (fun n => (n =? calls s + 1)) "alice" s (1700000001%N, "9999")) = slots s) = true.
Proof. vm_compute. reflexivity. Qed.

(** An unlocked app replaces the PIN without being asked for the old one. *)
Example pin_replaced_unasked : let c := (set_pin never tuesday None "5678" with_pin).1.1 in
  (unlock never tuesday "alice" "5678" (lock c)).2 = Ok "alice" /\ is_ok (unlock never tuesday "alice" "1234" (lock c)).2 = false.
Proof. vm_compute. by split. Qed.

(** A database that does not open leaves the app unlocked as one user with the database of
    another. *)
#[local] Definition broken : World :=
  mkWorld 1700090000 [] [] [] [] "token2" calm (fun _ _ => Err (OtherError "file is not a database")).

Example failed_open_stays_unlocked :
  let c := mkClient (cl_store with_pin) (cl_disk with_pin) None None (Some ("bob", repeat x0b 32)) (Some "bob") None in
  let '(c', _, r) := unlock never broken "alice" "1234" c in
  is_ok r = false /\ cl_unlock c' = Some alice_keys /\ cl_local_db c' = Some ("bob", repeat x0b 32).
Proof. vm_compute. by split_and!. Qed.

(** The index is replaced by an empty one when it cannot be read, or is corrupt and cannot be
    renamed. *)
Example unreadable_index_wiped : let d := (upsert_account calm "alice" "Alice" None None (mkDisk None ∅)).1 in
  let d' := (clear_last_active_user (mkFs true false false "17" "2026") d).1 in
  read_accounts_index calm d' = (d', Ok index_default) /\ set_aside d' = ∅.
Proof. vm_compute. by split. Qed.

(** Bytes that are not UTF-8 are such a read error: they are never set aside. *)
Example unreadable_text_overwritten : let d := mkDisk (Some [xff]) ∅ in
  read_accounts_index calm d = (d, Err (OtherError "read accounts.json")) /\
  let d' := (remove_account calm "alice" d).1 in
  read_accounts_index calm d' = (d', Ok index_default) /\ set_aside d' = ∅.
Proof. vm_compute. by split_and!. Qed.

(** A second corrupt index in the same second takes the place of the first. *)
Example same_second_backup : let d := (read_accounts_index calm (mkDisk (Some [x7b]) ∅)).1 in
  let d' := (read_accounts_index calm (mkDisk (Some [x5b]) (set_aside d))).1 in
  map_to_list (set_aside d) = [("accounts.bad-17.json", [x7b])] /\ map_to_list (set_aside d') = [("accounts.bad-17.json", [x5b])].
Proof. vm_compute. by split. Qed.

Example corrupt_index_overwritten : let d := mkDisk (Some [x7b]) ∅ in
  let d' := (remove_account (mkFs false true false "17" "2026") "alice" d).1 in
  read_accounts_index calm d' = (d', Ok index_default) /\ set_aside d' = ∅.
Proof. vm_compute. by split. Qed.
End Witnesses.
