(* ===== verification/Capture.v ===== *)
(** * pollis-capture-proto: the capture helper's wire protocol

    Models every definition of [pollis-capture-proto/src/lib.rs]: the messages between the
    capture helpers and the app, their encoders, and [read_msg] on the bytes a peer sent
    before it closed the socket.  serde_json is an interface, one instance per JSON payload.

    [capture_stream_roundtrip]: any sequence of messages that fit is read back as it was
    written.  [frame_wire_exact]: a format or frame is read only from its own encoding.
    [large_frame_refused]: a frame above the cap is written without complaint and refused. *)

From stdpp Require Import base list strings countable.
From Stdlib Require Import NArith ZArith Lia ZifyNat ZifyN.
From Stdlib Require Import Strings.Byte.
From S2P Require Import Prelude Crypto Text.

Definition MSG_FORMAT : byte := x01.
Definition MSG_FRAME : byte := x02.
Definition MSG_SOURCES : byte := x03.
Definition MSG_SELECT : byte := x04.
Definition MSG_CAMERAS : byte := x05.
Definition MSG_SELECT_CAMERA : byte := x06.
Definition MSG_ERROR : byte := xff.

Definition MAX_PAYLOAD_LEN : N := 32 * 1024 * 1024.

(** ** Messages *)

Record DisplaySource := mkDisplay {
  ds_id : N;
  ds_width : N;
  ds_height : N;
  ds_name : string;
  ds_thumbnail_data_url : option string
}.

Record WindowSource := mkWindow {
  ws_id : N;
  ws_width : N;
  ws_height : N;
  ws_title : string;
  ws_app_name : string;
  ws_bundle_id : string;
  ws_thumbnail_data_url : option string
}.

Record SourceList := mkSources { displays : list DisplaySource; windows : list WindowSource }.

Inductive Selection : Type :=
| SelDisplay (id : N)
| SelWindow (id : N).

Record CameraSource := mkCamera { cs_id : string; cs_name : string }.

Record CameraList := mkCameras { cameras : list CameraSource }.

Record CameraSelection := mkCameraSelection { sel_id : string }.

Inductive CaptureMsg : Type :=
| Format (width height : N)
| Frame (width height stride : N) (timestamp_us : Z) (bgrx : bytes)
| Sources (list : SourceList)
| Select (sel : Selection)
| Cameras (list : CameraList)
| SelectCamera (sel : CameraSelection)
| ErrorMsg (message : string).

Inductive IoError : Type :=
| UnexpectedEof
| InvalidData (msg : string).

Section Codec.
Context `{!SerdeJson SourceList} `{!SerdeJson Selection} `{!SerdeJson CameraList} `{!SerdeJson CameraSelection}.

(** ** Encoding *)

Definition encode_format (width height : N) : bytes :=
  MSG_FORMAT :: le_bytes 4 8 ++ le_bytes 4 width ++ le_bytes 4 height.

Definition encode_frame_header (width height stride : N) (timestamp_us : Z) (bgrx_len : nat) : bytes :=
  let payload_len := as_u32 (4 + 4 + 4 + 8 + N.of_nat bgrx_len) in
  MSG_FRAME :: le_bytes 4 payload_len ++ le_bytes 4 width ++ le_bytes 4 height ++ le_bytes 4 stride ++
  le_bytes 8 (i64_to_u64 timestamp_us).

(** A tagged payload with its length. *)
Definition framed (kind : byte) (payload : bytes) : bytes :=
  kind :: le_bytes 4 (as_u32 (N.of_nat (length payload))) ++ payload.

(** [serde_json::to_vec(..).expect(..)]: the derived serialisers do not fail. *)
Definition json {A} `{!SerdeJson A} (a : A) : bytes := match to_vec a with Ok b => b | Err _ => [] end.

Definition encode_sources (list : SourceList) : bytes := framed MSG_SOURCES (json list).
Definition encode_select (sel : Selection) : bytes := framed MSG_SELECT (json sel).
Definition encode_cameras (list : CameraList) : bytes := framed MSG_CAMERAS (json list).
Definition encode_select_camera (sel : CameraSelection) : bytes := framed MSG_SELECT_CAMERA (json sel).
Definition encode_error (message : string) : bytes := framed MSG_ERROR (as_bytes message).

Definition write_msg (msg : CaptureMsg) : bytes :=
  match msg with
  | Format width height => encode_format width height
  | Frame width height stride timestamp_us bgrx =>
      encode_frame_header width height stride timestamp_us (length bgrx) ++ bgrx
  | Sources list => encode_sources list
  | Select sel => encode_select sel
  | Cameras list => encode_cameras list
  | SelectCamera sel => encode_select_camera sel
  | ErrorMsg message => encode_error message
  end.

(** ** Decoding *)

(** [read_exact]: all that is left is gone when it is not enough. *)
Definition read_exact {A} (n : nat) (b : bytes) (k : bytes -> bytes -> bytes * Result A IoError) : bytes * Result A IoError :=
  if length b <? n then ([], Err UnexpectedEof) else k (take n b) (drop n b).

Definition u32_at (i : nat) (b : bytes) : N := le_value (take 4 (drop i b)).

Definition read_json {A} `{!SerdeJson A} (what : string) (wrap : A -> CaptureMsg) (payload_len : nat) (b : bytes)
    : bytes * Result (option CaptureMsg) IoError :=
  read_exact payload_len b (fun payload rest =>
    (rest, match from_slice payload with Ok a => Ok (Some (wrap a)) | Err _ => Err (InvalidData what) end)).

Definition read_payload (msg_type : byte) (payload_len : nat) (b : bytes) : bytes * Result (option CaptureMsg) IoError :=
  if bool_decide (msg_type = MSG_FORMAT) then
    if negb (payload_len =? 8) then (b, Err (InvalidData "format payload != 8"))
    else read_exact 8 b (fun buf rest => (rest, Ok (Some (Format (u32_at 0 buf) (u32_at 4 buf)))))
  else if bool_decide (msg_type = MSG_FRAME) then
    if payload_len <? 20 then (b, Err (InvalidData "frame payload too short"))
    else read_exact 20 b (fun head rest =>
      read_exact (payload_len - 20) rest (fun bgrx rest =>
        (rest, Ok (Some (Frame (u32_at 0 head) (u32_at 4 head) (u32_at 8 head)
                           (u64_to_i64 (le_value (take 8 (drop 12 head)))) bgrx)))))
  else if bool_decide (msg_type = MSG_SOURCES) then read_json "sources json" Sources payload_len b
  else if bool_decide (msg_type = MSG_SELECT) then read_json "select json" Select payload_len b
  else if bool_decide (msg_type = MSG_CAMERAS) then read_json "cameras json" Cameras payload_len b
  else if bool_decide (msg_type = MSG_SELECT_CAMERA) then read_json "select_camera json" SelectCamera payload_len b
  else if bool_decide (msg_type = MSG_ERROR) then
    read_exact payload_len b (fun payload rest => (rest, Ok (Some (ErrorMsg (of_bytes (from_utf8_lossy payload))))))
  else (b, Err (InvalidData "unknown helper msg type")).

(** One message off the bytes still to come; [Ok None] at the end of the stream. *)
Definition read_msg (b : bytes) : bytes * Result (option CaptureMsg) IoError :=
  if length b <? 5 then ([], Ok None)
  else
    let msg_type := default x00 (b !! 0) in
    let payload_len := le_value (take 4 (drop 1 b)) in
    if (MAX_PAYLOAD_LEN <? payload_len)%N then (drop 5 b, Err (InvalidData "oversized helper message"))
    else read_payload msg_type (N.to_nat payload_len) (drop 5 b).

(** The reader's loop, until the stream ends or errs.  A message takes at least five bytes. *)
Fixpoint read_loop (fuel : nat) (b : bytes) : list CaptureMsg * option IoError :=
  match fuel with
  | O => ([], None)
  | S fuel' =>
      match read_msg b with
      | (_, Ok None) => ([], None)
      | (rest, Ok (Some m)) => let (ms, e) := read_loop fuel' rest in (m :: ms, e)
      | (_, Err e) => ([], Some e)
      end
  end.

Definition read_all (b : bytes) : list CaptureMsg * option IoError := read_loop (S (length b)) b.

(** ** Reading what was written *)

Context `{!SerdeJsonLaws SourceList} `{!SerdeJsonLaws Selection} `{!SerdeJsonLaws CameraList} `{!SerdeJsonLaws CameraSelection}.

Lemma read_exact_app {A} (a b : bytes) (k : bytes -> bytes -> bytes * Result A IoError) n : n = length a ->
  read_exact n (a ++ b) k = k a b.
Proof.
  intros ->. unfold read_exact. destruct (Nat.ltb_spec (length (a ++ b)) (length a)) as [Hl|_]; [rewrite length_app in Hl; lia|].
  by rewrite take_app_length, drop_app_length.
Qed.

(** A header followed by [b]. *)
Lemma read_msg_header kind n b : (n <= MAX_PAYLOAD_LEN)%N -> read_msg (kind :: le_bytes 4 n ++ b) = read_payload kind (N.to_nat n) b.
Proof.
  intros Hn. unfold read_msg. assert (Hl : length (le_bytes 4 n) = 4) by apply length_le_bytes.
  destruct (Nat.ltb_spec (length (kind :: le_bytes 4 n ++ b)) 5) as [Hs|_]; [rewrite length_cons, length_app, Hl in Hs; lia|].
  change (drop 1 (kind :: ?x)) with (drop 0 x). change (drop 5 (kind :: ?x)) with (drop 4 x). rewrite drop_0.
  rewrite <- Hl, take_app_length, drop_app_length, Hl. rewrite le_value_bytes. cbn [lookup list_lookup default].
  unfold MAX_PAYLOAD_LEN in *. rewrite N.mod_small by lia.
  destruct (N.ltb_spec (32 * 1024 * 1024) n) as [?|_]; [lia|]. done.
Qed.

Lemma read_framed kind payload rest : (N.of_nat (length payload) <= MAX_PAYLOAD_LEN)%N ->
  read_msg (framed kind payload ++ rest) = read_payload kind (length payload) (payload ++ rest).
Proof.
  intros Hl. unfold framed. rewrite <- app_comm_cons, <- app_assoc. unfold as_u32, MAX_PAYLOAD_LEN in *.
  rewrite N.mod_small by lia. rewrite read_msg_header by (unfold MAX_PAYLOAD_LEN; lia). by rewrite Nat2N.id.
Qed.

Lemma read_json_app {A} `{!SerdeJson A} `{!SerdeJsonLaws A} what wrap (a : A) rest :
  read_json what wrap (length (json a)) (json a ++ rest) = (rest, Ok (Some (wrap a))).
Proof.
  unfold read_json. rewrite read_exact_app by done. unfold json. destruct (to_vec_total a) as [b Hb]. rewrite Hb.
  by rewrite (from_slice_to_vec _ _ Hb).
Qed.

Definition payload_fits (b : bytes) : Prop := (N.of_nat (length b) <= MAX_PAYLOAD_LEN)%N.

(** The fields are of their machine types, text is UTF-8, and the payload is within the cap. *)
Definition fits (m : CaptureMsg) : Prop :=
  match m with
  | Format w h => (w < 2 ^ 32 /\ h < 2 ^ 32)%N
  | Frame w h s t bgrx =>
      (w < 2 ^ 32 /\ h < 2 ^ 32 /\ s < 2 ^ 32)%N /\ i64_range t /\ (20 + N.of_nat (length bgrx) <= MAX_PAYLOAD_LEN)%N
  | Sources l => payload_fits (json l)
  | Select l => payload_fits (json l)
  | Cameras l => payload_fits (json l)
  | SelectCamera l => payload_fits (json l)
  | ErrorMsg t => utf8_valid (as_bytes t) = true /\ payload_fits (as_bytes t)
  end.

Lemma take_le n w b : take w (le_bytes w n ++ b) = le_bytes w n.
Proof. rewrite <- (length_le_bytes w n) at 1. apply take_app_length. Qed.

Lemma u32_at_0 n b : (n < 2 ^ 32)%N -> u32_at 0 (le_bytes 4 n ++ b) = n.
Proof. intros Hn. unfold u32_at. rewrite drop_0, take_le, le_value_bytes. by apply N.mod_small. Qed.

Lemma drop_le i n w b : drop (w + i) (le_bytes w n ++ b) = drop i b.
Proof. rewrite <- (length_le_bytes w n) at 1. by rewrite drop_app_add. Qed.

Lemma u32_at_S i n b : u32_at (4 + i) (le_bytes 4 n ++ b) = u32_at i b.
Proof. unfold u32_at. by rewrite drop_le. Qed.

Lemma read_format w h rest : (w < 2 ^ 32)%N -> (h < 2 ^ 32)%N ->
  read_payload MSG_FORMAT 8 (le_bytes 4 w ++ le_bytes 4 h ++ rest) = (rest, Ok (Some (Format w h))).
Proof.
  intros Hw Hh. unfold read_payload. rewrite app_assoc. rewrite bool_decide_eq_true_2 by done. cbn [Nat.eqb negb].
  rewrite read_exact_app by (by rewrite length_app, !length_le_bytes).
  rewrite <- (app_nil_r (le_bytes 4 h)). rewrite (u32_at_0 w), (u32_at_S 0), u32_at_0 by done. done.
Qed.

Lemma read_frame w h s t bgrx rest : (w < 2 ^ 32)%N -> (h < 2 ^ 32)%N -> (s < 2 ^ 32)%N -> i64_range t ->
  read_payload MSG_FRAME (20 + length bgrx)
    ((le_bytes 4 w ++ le_bytes 4 h ++ le_bytes 4 s ++ le_bytes 8 (i64_to_u64 t)) ++ bgrx ++ rest) = (rest, Ok (Some (Frame w h s t bgrx))).
Proof.
  intros Hw Hh Hs Ht. rewrite <- (app_nil_r (le_bytes 8 _)). unfold read_payload. rewrite bool_decide_eq_false_2 by done. rewrite bool_decide_eq_true_2 by done.
  destruct (Nat.ltb_spec (20 + length bgrx) 20) as [?|_]; [lia|].
  rewrite read_exact_app by (by rewrite !length_app, !length_le_bytes).
  rewrite read_exact_app by lia. rewrite (u32_at_0 w), (u32_at_S 0), (u32_at_0 h), (u32_at_S 4), (u32_at_S 0), (u32_at_0 s) by done.
  rewrite (drop_le 8 _ 4), (drop_le 4 _ 4), (drop_le 0 _ 4), drop_0, take_le, le_value_bytes.
  rewrite N.mod_small by apply i64_to_u64_bound. by rewrite i64_roundtrip.
Qed.

Lemma read_write m rest : fits m -> read_msg (write_msg m ++ rest) = (rest, Ok (Some m)).
Proof.
  destruct m as [w h|w h s t bgrx|l|l|l|l|t]; cbn [fits write_msg].
  - intros [Hw Hh]. unfold encode_format. rewrite <- app_comm_cons, <- !app_assoc. rewrite read_msg_header by done. by apply read_format.
  - intros ((Hw & Hh & Hs) & Ht & Hl). unfold encode_frame_header. cbv zeta. rewrite <- !app_comm_cons, <- !app_assoc.
    unfold as_u32, MAX_PAYLOAD_LEN in *. rewrite N.mod_small by lia. rewrite read_msg_header by (unfold MAX_PAYLOAD_LEN; lia).
    replace (N.to_nat (4 + 4 + 4 + 8 + N.of_nat (length bgrx))) with (20 + length bgrx) by lia.
    rewrite <- read_frame by done. by rewrite <- !app_assoc.
  - intros Hl. unfold encode_sources. rewrite read_framed by done. apply read_json_app.
  - intros Hl. unfold encode_select. rewrite read_framed by done. apply read_json_app.
  - intros Hl. unfold encode_cameras. rewrite read_framed by done. apply read_json_app.
  - intros Hl. unfold encode_select_camera. rewrite read_framed by done. apply read_json_app.
  - intros [Hv Hl]. unfold encode_error. rewrite read_framed by done. unfold read_payload. rewrite !bool_decide_eq_false_2, bool_decide_eq_true_2 by done.
    rewrite read_exact_app by done. by rewrite from_utf8_lossy_id, of_bytes_as_bytes.
Qed.

Lemma write_msg_length m : 5 <= length (write_msg m).
Proof.
  destruct m; cbn [write_msg]; unfold encode_format, encode_frame_header, encode_sources, encode_select, encode_cameras,
    encode_select_camera, encode_error, framed; rewrite ?length_app, ?length_cons, ?length_app, ?length_le_bytes; lia.
Qed.

Lemma read_loop_written ms tail : Forall fits ms -> length tail < 5 ->
  forall fuel, length ms < fuel -> read_loop fuel (concat (map write_msg ms) ++ tail) = (ms, None).
Proof.
  intros Hms Ht. induction Hms as [|m ms Hm _ IH]; intros [|fuel] Hf; simpl in Hf; try lia; cbn [map concat app read_loop].
  - unfold read_msg. by destruct (Nat.ltb_spec (length tail) 5); [|lia].
  - rewrite <- app_assoc, read_write by done. rewrite IH by lia. done.
Qed.

(** Any sequence of messages whose payloads are within the cap, written one after the other,
    is read back as that sequence, whole and in order; what is left of a header that was cut
    short ends the stream without an error. *)
Theorem capture_stream_roundtrip ms tail : Forall fits ms -> length tail < 5 ->
  read_all (concat (map write_msg ms) ++ tail) = (ms, None).
Proof.
  intros Hms Ht. apply read_loop_written; [done..|]. rewrite length_app. apply Nat.lt_succ_r.
  enough (length ms <= length (concat (map write_msg ms))) by lia. clear. induction ms as [|m ms IH]; simpl; [lia|].
  rewrite length_app. pose proof (write_msg_length m). lia.
Qed.

Lemma read_exact_inv {A} n b (k : bytes -> bytes -> bytes * Result A IoError) rest a : read_exact n b k = (rest, Ok a) ->
  exists x y, b = x ++ y /\ length x = n /\ k x y = (rest, Ok a).
Proof.
  unfold read_exact. destruct (Nat.ltb_spec (length b) n) as [|Hl]; [done|]. intros Hk. exists (take n b), (drop n b).
  split_and!; [by rewrite take_drop|rewrite length_take; lia|done].
Qed.

Definition video (m : CaptureMsg) : bool := match m with Format _ _ | Frame _ _ _ _ _ => true | _ => false end.

Lemma read_msg_ok b rest m : read_msg b = (rest, Ok (Some m)) ->
  exists kind len body, b = kind :: len ++ body /\ length len = 4 /\ (le_value len <= MAX_PAYLOAD_LEN)%N /\
    read_payload kind (N.to_nat (le_value len)) body = (rest, Ok (Some m)).
Proof.
  unfold read_msg. destruct (Nat.ltb_spec (length b) 5) as [|Hl]; [done|]. destruct b as [|kind b]; [simpl in Hl; lia|]. simpl in Hl.
  change (drop 5 (kind :: b)) with (drop 4 b). change (drop 1 (kind :: b)) with (drop 0 b). rewrite drop_0.
  destruct (N.ltb_spec MAX_PAYLOAD_LEN (le_value (take 4 b))) as [|Hm]; [done|]. intros Hr.
  exists kind, (take 4 b), (drop 4 b). split_and!; [by rewrite take_drop|rewrite length_take; lia|done|done].
Qed.

Lemma le_split w b : w <= length b -> exists n b', b = le_bytes w n ++ b' /\ (n < 2 ^ (8 * N.of_nat w))%N /\ length b' = length b - w.
Proof.
  intros Hw. exists (le_value (take w b)), (drop w b). assert (Hl : length (take w b) = w) by (rewrite length_take; lia).
  pose proof (le_bytes_value (take w b)) as Hb. rewrite Hl in Hb. pose proof (le_value_bound (take w b)) as Hv. rewrite Hl in Hv.
  rewrite Hb, take_drop, length_drop. done.
Qed.

Lemma read_json_video {A} `{!SerdeJson A} what wrap n b rest m : (forall a : A, video (wrap a) = false) ->
  read_json what wrap n b = (rest, Ok (Some m)) -> video m = false.
Proof.
  intros Hw Hr. unfold read_json in Hr. apply read_exact_inv in Hr as (x & y & _ & _ & Hr).
  destruct (from_slice x); [|done]. injection Hr as _ <-. apply Hw.
Qed.

Lemma read_format_inv n body rest m : read_payload MSG_FORMAT n body = (rest, Ok (Some m)) ->
  exists w h, n = 8 /\ body = le_bytes 4 w ++ le_bytes 4 h ++ rest /\ m = Format w h /\ (w < 2 ^ 32)%N /\ (h < 2 ^ 32)%N.
Proof.
  intros Hr. pose proof Hr as Hr'. unfold read_payload in Hr. rewrite bool_decide_eq_true_2 in Hr by done.
  destruct (Nat.eqb_spec n 8) as [->|]; [|done]. cbn [negb] in Hr. apply read_exact_inv in Hr as (x & y & -> & Hx & Hk). injection Hk as -> _.
  destruct (le_split 4 x) as (w & x' & -> & Hw & Hl); [lia|]. destruct (le_split 4 x') as (h & x'' & -> & Hh & Hl'); [lia|].
  rewrite length_app, length_le_bytes in *. destruct x''; [|simpl in *; lia]. rewrite app_nil_r in *. rewrite <- app_assoc in *.
  change (8 * N.of_nat 4)%N with 32%N in *. rewrite read_format in Hr' by done. injection Hr' as <-. exists w, h. split_and!; done.
Qed.

Lemma read_frame_inv n body rest m : read_payload MSG_FRAME n body = (rest, Ok (Some m)) ->
  exists w h s t bgrx, n = 20 + length bgrx /\ m = Frame w h s t bgrx /\ (w < 2 ^ 32 /\ h < 2 ^ 32 /\ s < 2 ^ 32)%N /\ i64_range t /\
    body = (le_bytes 4 w ++ le_bytes 4 h ++ le_bytes 4 s ++ le_bytes 8 (i64_to_u64 t)) ++ bgrx ++ rest.
Proof.
  intros Hr. pose proof Hr as Hr'. unfold read_payload in Hr. rewrite bool_decide_eq_false_2, bool_decide_eq_true_2 in Hr by done.
  destruct (Nat.ltb_spec n 20) as [|Hn]; [done|]. apply read_exact_inv in Hr as (x & y & -> & Hx & Hk).
  apply read_exact_inv in Hk as (bgrx & z & -> & Hb & Hk). injection Hk as -> _.
  destruct (le_split 4 x) as (w & x1 & -> & Hw & H1); [lia|]. destruct (le_split 4 x1) as (h & x2 & -> & Hh & H2); [lia|].
  destruct (le_split 4 x2) as (s & x3 & -> & Hs & H3); [lia|]. destruct (le_split 8 x3) as (v & x4 & -> & Hv & H4); [lia|].
  rewrite !length_app, !length_le_bytes in *. destruct x4; [|simpl in *; lia]. rewrite app_nil_r in *.
  change (8 * N.of_nat 4)%N with 32%N in *. change (8 * N.of_nat 8)%N with 64%N in *.
  assert (exists t, v = i64_to_u64 t /\ i64_range t) as (t & -> & Hi) by (destruct (u64_i64_roundtrip v Hv); eauto).
  replace n with (20 + length bgrx) in * by lia. rewrite read_frame in Hr' by done. injection Hr' as <-.
  exists w, h, s, t, bgrx. split_and!; done.
Qed.

Lemma read_payload_video kind n body rest m : video m = true -> read_payload kind n body = (rest, Ok (Some m)) ->
  kind = MSG_FORMAT \/ kind = MSG_FRAME.
Proof.
  intros Hv Hr. unfold read_payload in Hr. case_bool_decide; [by left|]. case_bool_decide; [by right|].
  do 4 (case_bool_decide; [apply read_json_video in Hr; [congruence|done]|]).
  case_bool_decide; [|done]. apply read_exact_inv in Hr as (x & y & _ & _ & Hr). injection Hr as _ <-. done.
Qed.

(** The reader returns a format or a frame exactly when the bytes start with that message's
    own encoding and it fits; then it leaves what follows. *)
Theorem frame_wire_exact b rest m : video m = true ->
  read_msg b = (rest, Ok (Some m)) <-> b = write_msg m ++ rest /\ fits m.
Proof.
  intros Hv. split; [|intros [-> Hf]; by apply read_write]. intros Hr. apply read_msg_ok in Hr as (kind & len & body & -> & Hl & Hm & Hr).
  pose proof (le_bytes_value len) as Hlen. rewrite Hl in Hlen.
  destruct (read_payload_video _ _ _ _ _ Hv Hr) as [-> | ->].
  - apply read_format_inv in Hr as (w & h & Hn & -> & -> & Hw & Hh). split; [|done]. cbn [write_msg]. unfold encode_format.
    replace (le_value len) with 8%N in Hlen by lia. rewrite Hlen, <- app_comm_cons. by rewrite <- !app_assoc.
  - apply read_frame_inv in Hr as (w & h & s & t & bgrx & Hn & -> & Hb & Ht & ->). cbn [write_msg fits]. split; [|split_and!; try done; lia].
    unfold encode_frame_header, as_u32. cbv zeta. unfold MAX_PAYLOAD_LEN in Hm. rewrite N.mod_small by lia.
    replace (4 + 4 + 4 + 8 + N.of_nat (length bgrx))%N with (le_value len) by lia. rewrite Hlen.
    rewrite <- !app_comm_cons. by rewrite <- !app_assoc.
Qed.

(** A frame above the cap is written like any other, and the reader refuses its header. *)
Lemma large_frame_refused w h s t bgrx rest : (MAX_PAYLOAD_LEN < 20 + N.of_nat (length bgrx) < 2 ^ 32)%N ->
  (read_msg (write_msg (Frame w h s t bgrx) ++ rest)).2 = Err (InvalidData "oversized helper message").
Proof.
  intros Hl. cbn [write_msg]. unfold encode_frame_header, as_u32. cbv zeta. rewrite N.mod_small by lia.
  rewrite <- !app_comm_cons, <- !app_assoc. unfold read_msg. set (n := (4 + 4 + 4 + 8 + _)%N). set (b := le_bytes 4 w ++ _).
  destruct (Nat.ltb_spec (length (MSG_FRAME :: le_bytes 4 n ++ b)) 5) as [Hs|_]; [rewrite length_cons, length_app, length_le_bytes in Hs; lia|].
  change (drop 1 (MSG_FRAME :: ?x)) with (drop 0 x). rewrite drop_0, take_le, le_value_bytes, N.mod_small by (unfold n; lia).
  destruct (N.ltb_spec MAX_PAYLOAD_LEN n) as [_|Hn]; [done|unfold n in Hn; lia].
Qed.

(** A 5K display, 5120 by 2880 at four bytes a pixel, does not fit. *)
Lemma frame_5k_refused t bgrx rest : N.of_nat (length bgrx) = (2880 * 20480)%N ->
  (read_msg (write_msg (Frame 5120 2880 20480 t bgrx) ++ rest)).2 = Err (InvalidData "oversized helper message").
Proof. intros Hl. apply large_frame_refused. rewrite Hl. by split. Qed.
End Codec.

(** ** The theorems at concrete inputs *)

Section Witnesses.
#[local] Instance DisplaySource_eq_dec : EqDecision DisplaySource.
Proof. solve_decision. Defined.
#[local] Instance WindowSource_eq_dec : EqDecision WindowSource.
Proof. solve_decision. Defined.
#[local] Instance DisplaySource_countable : Countable DisplaySource :=
  inj_countable' (fun d => (ds_id d, ds_width d, ds_height d, ds_name d, ds_thumbnail_data_url d))
    (fun '(i, w, h, n, t) => mkDisplay i w h n t) (fun d => match d with mkDisplay _ _ _ _ _ => eq_refl end).
#[local] Instance WindowSource_countable : Countable WindowSource :=
  inj_countable' (fun d => (ws_id d, ws_width d, ws_height d, ws_title d, ws_app_name d, ws_bundle_id d, ws_thumbnail_data_url d))
    (fun '(i, w, h, n, a, b, t) => mkWindow i w h n a b t) (fun d => match d with mkWindow _ _ _ _ _ _ _ => eq_refl end).
#[local] Instance SourceList_eq_dec : EqDecision SourceList.
Proof. solve_decision. Defined.
#[local] Instance SourceList_countable : Countable SourceList :=
  inj_countable' (fun l => (displays l, windows l)) (fun '(d, w) => mkSources d w) (fun l => match l with mkSources _ _ => eq_refl end).
#[local] Instance Selection_eq_dec : EqDecision Selection.
Proof. solve_decision. Defined.
#[local] Instance Selection_countable : Countable Selection :=
  inj_countable' (fun s => match s with SelDisplay i => (true, i) | SelWindow i => (false, i) end)
    (fun p => if p.1 : bool then SelDisplay p.2 else SelWindow p.2) (fun s => match s with SelDisplay _ => eq_refl | SelWindow _ => eq_refl end).
#[local] Instance CameraSource_eq_dec : EqDecision CameraSource.
Proof. solve_decision. Defined.
#[local] Instance CameraSource_countable : Countable CameraSource :=
  inj_countable' (fun c => (cs_id c, cs_name c)) (fun '(i, n) => mkCamera i n) (fun c => match c with mkCamera _ _ => eq_refl end).
#[local] Instance CameraList_eq_dec : EqDecision CameraList.
Proof. solve_decision. Defined.
#[local] Instance CameraList_countable : Countable CameraList :=
  inj_countable' cameras mkCameras (fun l => match l with mkCameras _ => eq_refl end).
#[local] Instance CameraSelection_eq_dec : EqDecision CameraSelection.
Proof. solve_decision. Defined.
#[local] Instance CameraSelection_countable : Countable CameraSelection :=
  inj_countable' sel_id mkCameraSelection (fun l => match l with mkCameraSelection _ => eq_refl end).
#[local] Instance sources_json : SerdeJson SourceList := ClearJson.instance.
#[local] Instance sources_json_laws : SerdeJsonLaws SourceList := ClearJson.laws.
#[local] Instance selection_json : SerdeJson Selection := ClearJson.instance.
#[local] Instance selection_json_laws : SerdeJsonLaws Selection := ClearJson.laws.
#[local] Instance cameras_json : SerdeJson CameraList := ClearJson.instance.
#[local] Instance cameras_json_laws : SerdeJsonLaws CameraList := ClearJson.laws.
#[local] Instance camera_json : SerdeJson CameraSelection := ClearJson.instance.
#[local] Instance camera_json_laws : SerdeJsonLaws CameraSelection := ClearJson.laws.

#[local] Definition conversation : list CaptureMsg :=
  [Cameras (mkCameras [mkCamera "/dev/video0" "webcam"]); SelectCamera (mkCameraSelection "/dev/video0");
   Format 2 1; Frame 2 1 8 (-5) [x01; x02; x03; x00; x04; x05; x06; x00]; ErrorMsg "gone"].

Lemma capture_stream_roundtrip_witness : read_all (concat (map write_msg conversation) ++ [x02; x00]) = (conversation, None).
Proof.
  apply capture_stream_roundtrip; [|simpl; lia]. repeat constructor; vm_compute; congruence.
Defined.

Lemma frame_wire_exact_witness : read_msg (write_msg (Format 1920 1080) ++ [x00]) = ([x00], Ok (Some (Format 1920 1080))).
Proof. apply frame_wire_exact; [reflexivity|]. split; [reflexivity|]. by split. Defined.
End Witnesses.
