(* ===== verification/Enroll.v ===== *)
(** * pollis-core: account identities and the enrolment of devices

    Models [commands/account_identity.rs] (the Secret Key and its normal form, the recovery
    blob, generating, resetting, loading and wiping the account key, signing device
    certificates) and [commands/device_enrollment.rs] (asking an enrolled device for the
    account key, approving, rejecting and polling the request, recovery with the Secret Key,
    identity reset), over the service's tables and routes ([Accounts]) and the client state
    of [Vault].

    HKDF, AES-256-GCM, X25519 and Unicode upper-casing are interfaces.  A request to the
    service is its route applied to the database as the actor the gate let in; what a
    statement of the service does when it fails is in its environment, and a request may not
    arrive or its answer be lost.

    [enrollment_roundtrip], [recovery_roundtrip]: the account key gets across to a new device,
    through an enrolled one or with the Secret Key.  [approve_exact]: what an approval needs.
    [exchange_unauthenticated]: what comparing the codes does not ensure.  [finalize_joins]:
    which conversations a new device joins. *)

From stdpp Require Import base list strings gmap pretty.
From Stdlib Require Import NArith ZArith Lia ZifyNat ZifyN.
From Stdlib Require Import Strings.Byte.
From S2P Require Import Prelude Crypto Merkle Log Tenants Delivery Relay Overlay Text Stores Access Tables Accounts Vault.

(** ** Interfaces *)

Class KeyCrypto := {
  (** [Hkdf::<Sha256>]: salt, input key, info, to 32 bytes. *)
  hkdf : option bytes -> bytes -> bytes -> bytes;
  aes_encrypt : bytes -> bytes -> bytes -> option bytes;
  aes_decrypt : bytes -> bytes -> bytes -> option bytes;
  x25519_public : bytes -> bytes;
  diffie_hellman : bytes -> bytes -> bytes
}.

Class KeyCryptoLaws `{KeyCrypto} : Prop := {
  aes_roundtrip : forall key nonce pt ct, aes_encrypt key nonce pt = Some ct -> aes_decrypt key nonce ct = Some pt;
  aes_length : forall key nonce pt ct, aes_encrypt key nonce pt = Some ct -> length ct = length pt + 16;
  aes_total : forall key nonce pt, length pt = 32 -> is_Some (aes_encrypt key nonce pt);
  x25519_public_length : forall priv, length (x25519_public priv) = 32;
  diffie_hellman_agree : forall a b, diffie_hellman a (x25519_public b) = diffie_hellman b (x25519_public a)
}.

(** The 32-byte form of an Ed25519 private key. *)
Class SigningKeyBytes `{Ed25519} := { sk_from_bytes : bytes -> SigningKey; sk_to_bytes : SigningKey -> bytes }.

Class SigningKeyBytesLaws `{SigningKeyBytes} : Prop := {
  sk_to_bytes_length : forall sk, length (sk_to_bytes sk) = 32;
  sk_to_from_bytes : forall b, length b = 32 -> sk_to_bytes (sk_from_bytes b) = b;
  sk_from_to_bytes : forall sk, sk_from_bytes (sk_to_bytes sk) = sk
}.

Class Uppercase := { to_uppercase : string -> string }.

Definition ascii_upper (b : byte) : byte := if in_range b 97 122 then byte_of_N (N_of_byte b - 32) else b.

Definition is_ascii (b : byte) : bool := (N_of_byte b <=? 0x7F)%N.

Class UppercaseLaws `{Uppercase} : Prop := {
  to_uppercase_ascii : forall s, forallb is_ascii (as_bytes s) = true -> to_uppercase s = of_bytes (map ascii_upper (as_bytes s))
}.

(** ** account_identity.rs: the Secret Key *)

Definition SECRET_KEY_ALPHABET : bytes := as_bytes "0123456789ABCDEFGHJKMNPQRSTVWXYZ".
Definition SECRET_KEY_BODY_CHARS : nat := 30.
Definition SECRET_KEY_VERSION : string := "A3".
Definition HKDF_INFO : bytes := as_bytes "pollis-account-key-wrap-v1".
Definition NONCE_LEN : nat := 12.
Definition ED25519_PRIVATE_LEN : nat := 32.

Definition secret_char (random : byte) : byte :=
  default x00 (SECRET_KEY_ALPHABET !! N.to_nat (N.land (N_of_byte random) 0x1f)).

(** [chunks(n)]: fuel is the length. *)
Fixpoint chunks_fuel (fuel n : nat) (b : bytes) : list bytes :=
  match fuel, b with
  | O, _ | _, [] => []
  | S fuel', _ => take n b :: chunks_fuel fuel' n (drop n b)
  end.

Definition chunks (n : nat) (b : bytes) : list bytes := chunks_fuel (length b) n b.

(** [random]: the thirty bytes drawn. *)
Definition generate_secret_key_string (random : bytes) : string :=
  let body := map secret_char random in
  of_bytes (as_bytes SECRET_KEY_VERSION ++ concat (map (fun chunk => x2d :: chunk) (chunks 5 body))).

(** [chars().filter(|c| !c.is_whitespace())]; a pattern never starts inside a character. *)
Fixpoint drop_whitespace (fuel : nat) (b : bytes) : bytes :=
  match fuel with
  | O => b
  | S fuel' =>
      match b with
      | [] => []
      | x :: b' => match strip_any white_space b with Some rest => drop_whitespace fuel' rest | None => x :: drop_whitespace fuel' b' end
      end
  end.

(** [c as u8] of the characters of a text: the low byte of each code point. *)
Fixpoint char_low_bytes (b : bytes) : bytes :=
  match b with
  | [] => []
  | x :: b1 =>
      let n := N_of_byte x in
      let c y := N.land (N_of_byte y) 0x3F in
      if (n <=? 0x7F)%N then x :: char_low_bytes b1
      else if (n <=? 0xDF)%N then
        match b1 with y :: b2 => byte_of_N (N.land n 0x1F * 64 + c y) :: char_low_bytes b2 | _ => [] end
      else if (n <=? 0xEF)%N then
        match b1 with y :: z :: b3 => byte_of_N (c y * 64 + c z) :: char_low_bytes b3 | _ => [] end
      else
        match b1 with y :: z :: w :: b4 => byte_of_N (c z * 64 + c w) :: char_low_bytes b4 | _ => [] end
  end.

Section SecretKey.
Context `{Uppercase}.

Definition normalize_secret_key (input : string) : Result string CoreError :=
  let cleaned := to_uppercase (of_bytes (drop_whitespace (length (as_bytes input)) (as_bytes input))) in
  let? body_with_dashes := ok_or (strip_prefix_bytes (as_bytes SECRET_KEY_VERSION ++ [x2d]) (as_bytes cleaned))
                             (CryptoError "Secret Key must start with A3-") in
  let body := List.filter (fun c => negb (bool_decide (c = x2d))) body_with_dashes in
  if negb (length body =? SECRET_KEY_BODY_CHARS) then Err (CryptoError "Secret Key must contain exactly 30 alphanumeric characters")
  else if forallb (fun c => bool_decide (c ∈ SECRET_KEY_ALPHABET)) (char_low_bytes body) then Ok (of_bytes body)
  else Err (CryptoError "Secret Key contains invalid character").
End SecretKey.

(** ** account_identity.rs: the recovery blob and the account key *)

Section Identity.
Context `{KeyCrypto} `{!Uppercase} `{SigningKeyBytes} (fails : nat -> bool).

Definition derive_wrap_key (secret_key_body : string) (salt : bytes) : bytes := hkdf (Some salt) (as_bytes secret_key_body) HKDF_INFO.

Definition unwrap_recovery_blob (secret_key_input : string) (salt nonce wrapped_key : bytes) : Result bytes CoreError :=
  let? body := normalize_secret_key secret_key_input in
  let wrap_key := derive_wrap_key body salt in
  if negb (length nonce =? NONCE_LEN) then Err (CryptoError "recovery blob nonce has wrong length")
  else
    let? plaintext := ok_or (aes_decrypt wrap_key nonce wrapped_key) (CryptoError "aes-256-gcm decrypt") in
    if negb (length plaintext =? ED25519_PRIVATE_LEN) then Err (CryptoError "unwrapped account_id_key has wrong length")
    else Ok plaintext.

Record AccountIdentityMaterial := mkMaterial { am_account_id_pub : bytes; am_salt : bytes; am_nonce : bytes; am_wrapped_key : bytes }.

(** What is drawn: the key pair, the Secret Key's bytes, salt, nonce, and a database key. *)
Record IdentityDraw := mkDraw { dw_signing_key : SigningKey; dw_secret : bytes; dw_salt : bytes; dw_nonce : bytes; dw_db_key : bytes }.

Definition unlock_state_with_fresh_db_key (db_key : bytes) (user_id : string) (account_id_private : bytes) : UnlockState :=
  mkUnlock user_id db_key account_id_private.

(** The crypto shared by signup and reset.  [expect]: a fresh Secret Key normalises. *)
Definition wrap_fresh_identity (d : IdentityDraw) : Result (string * AccountIdentityMaterial) CoreError :=
  let display := generate_secret_key_string (dw_secret d) in
  let? body := normalize_secret_key display in
  let wrap_key := derive_wrap_key body (dw_salt d) in
  let? wrapped := ok_or (aes_encrypt wrap_key (dw_nonce d) (sk_to_bytes (dw_signing_key d))) (CryptoError "aes-256-gcm encrypt") in
  Ok (display, mkMaterial (vk_to_bytes (verifying_key (dw_signing_key d))) (dw_salt d) (dw_nonce d) wrapped).

Definition set_unlock (u : option UnlockState) (c : Client) : Client := with_unlock u (cl_media_token c) c.

Definition generate_account_identity_material (d : IdentityDraw) (user_id : string) (c : Client)
    : Client * Result (string * AccountIdentityMaterial) CoreError :=
  match wrap_fresh_identity d with
  | Ok dm => (set_unlock (Some (unlock_state_with_fresh_db_key (dw_db_key d) user_id (sk_to_bytes (dw_signing_key d)))) c, Ok dm)
  | Err e => (c, Err e)
  end.

Definition unlocked_as (user_id : string) (c : Client) : option UnlockState :=
  u ← cl_unlock c; if bool_decide (un_user_id u = user_id) then Some u else None.

Definition has_local_account_identity (user_id : string) (c : Client) : Client * Result bool CoreError :=
  match unlocked_as user_id c with
  | Some _ => (c, Ok true)
  | None =>
      on_store (let! wrapped := load_for_user fails ACCOUNT_ID_KEY_WRAPPED_SLOT user_id in
                if bool_decide (is_Some wrapped) then mret (Ok true)
                else let! plain := load_for_user fails ACCOUNT_ID_KEY_SLOT_LEGACY user_id in mret (Ok (bool_decide (is_Some plain)))) c
  end.

Definition account_id_pub_matches (private_bytes remote_pub : bytes) : bool :=
  (length private_bytes =? ED25519_PRIVATE_LEN) && bool_decide (vk_to_bytes (verifying_key (sk_from_bytes private_bytes)) = remote_pub).

Definition has_matching_local_account_identity (user_id : string) (remote_pub : bytes) (c : Client) : Client * Result bool CoreError :=
  match unlocked_as user_id c with
  | Some u => (c, Ok (account_id_pub_matches (un_account_id_key u) remote_pub))
  | None =>
      on_store (let! wrapped := load_for_user fails ACCOUNT_ID_KEY_WRAPPED_SLOT user_id in
                if bool_decide (is_Some wrapped) then mret (Ok true)
                else let! plain := load_for_user fails ACCOUNT_ID_KEY_SLOT_LEGACY user_id in
                     mret (Ok (match plain with Some b => account_id_pub_matches b remote_pub | None => false end))) c
  end.

Definition wipe_local_account_identity (user_id : string) (c : Client) : Client * Result unit CoreError :=
  let c := match unlocked_as user_id c with Some _ => set_unlock None c | None => c end in
  on_store (let! _ := attempt (delete_for_user fails ACCOUNT_ID_KEY_WRAPPED_SLOT user_id) in
            delete_for_user fails ACCOUNT_ID_KEY_SLOT_LEGACY user_id) c.

Definition signing_key_from_bytes (b : bytes) : Result SigningKey CoreError :=
  if negb (length b =? ED25519_PRIVATE_LEN) then Err (CryptoError "account_id_key has wrong length") else Ok (sk_from_bytes b).

Definition load_account_id_key (user_id : string) (c : Client) : Client * Result SigningKey CoreError :=
  match unlocked_as user_id c with
  | Some u => (c, signing_key_from_bytes (un_account_id_key u))
  | None =>
      on_store (let! wrapped := load_for_user fails ACCOUNT_ID_KEY_WRAPPED_SLOT user_id in
                if bool_decide (is_Some wrapped) then mret (Err (CryptoError "account_id_key locked: enter PIN to unlock"))
                else
                  let! plain := load_for_user fails ACCOUNT_ID_KEY_SLOT_LEGACY user_id in
                  let! b := mret (ok_or plain (CryptoError "account_id_key not in keystore")) in
                  mret (signing_key_from_bytes b)) c
  end.

Definition sign_device_cert (user_id device_id : string) (mls_signature_pub : bytes) (identity_version issued_at : N) (c : Client)
    : Client * Result bytes CoreError :=
  match load_account_id_key user_id c with
  | (c, Err e) => (c, Err e)
  | (c, Ok key) =>
      (c, match DeviceCert.device_cert_signed_payload device_id mls_signature_pub identity_version issued_at with
          | Ok payload => Ok (ed_sign key payload)
          | Err _ => Err (CryptoError "device cert payload")
          end)
  end.
End Identity.

(** ** device_enrollment.rs *)

Definition ENROLLMENT_TTL_SECS : Z := 10 * 60.
Definition ENROLL_HKDF_INFO : bytes := as_bytes "pollis-enrollment-wrap-v1".
Definition X25519_PUB_LEN : nat := 32.
Definition AES_NONCE_LEN : nat := 12.
Definition ACCOUNT_ID_PRIVATE_LEN : nat := 32.
Definition WRAPPED_ACCOUNT_KEY_LEN : nat := X25519_PUB_LEN + AES_NONCE_LEN + ACCOUNT_ID_PRIVATE_LEN + 16.

(** Times are nanoseconds since the epoch; the texts are RFC 3339. *)
Class Rfc3339 := { to_rfc3339 : Z -> string; parse_from_rfc3339 : string -> option Z }.

Class Rfc3339Laws `{Rfc3339} : Prop := {
  rfc3339_roundtrip : forall t, (0 <= t < 253402300800 * 10 ^ 9)%Z -> parse_from_rfc3339 (to_rfc3339 t) = Some t
}.

(** [{n:06}] for [n] below a million. *)
Definition format_code (n : N) : string :=
  of_bytes (map (fun d => byte_of_N (48 + n / d mod 10)) [100000; 10000; 1000; 100; 10; 1]%N).

Definition verification_code_of (random : bytes) : string := format_code (be_value random mod 1000000).

Definition constant_time_eq (a b : bytes) : bool :=
  if negb (length a =? length b) then false
  else (fold_left (fun diff '(x, y) => N.lor diff (N.lxor (N_of_byte x) (N_of_byte y))) (combine a b) 0 =? 0)%N.

Inductive EnrollmentStatus : Type := Pending | Approved | Rejected | Expired.

Record EnrollmentHandle := mkHandle { eh_request_id : string; eh_verification_code : string; eh_expires_at : string }.

(** A client with what enrolment keeps in memory: the enrolment and the bootstrap session of
    the last sign-in and the private keys of the requests it made. *)
Record Device := mkDevice {
  dv_client : Client;
  dv_session : option string;
  dv_bootstrap : option string;
  dv_keys : gmap string bytes
}.

Definition on_client (c : Client) (d : Device) : Device := mkDevice c (dv_session d) (dv_bootstrap d) (dv_keys d).
Definition on_keys (f : gmap string bytes -> gmap string bytes) (d : Device) : Device :=
  mkDevice (dv_client d) (dv_session d) (dv_bootstrap d) (f (dv_keys d)).

(** What becomes of a request to the service: it is answered, it never arrives, or it arrives and
    the answer is lost. *)
Inductive Wire : Type := Answered | Unsent | AnswerLost.

(** What a command meets: the statements of the service in the command's first write and in
    the ones after it, which reads of the main database fail, whom the service takes a session
    token and a signed request for, the clock, and what becomes of the command's requests. *)
Record Remote := mkRemote {
  rm_sql : SqlEnv;
  rm_read_fails : nat -> bool;
  rm_session : string -> option (string * string);
  rm_signer : option string;
  rm_later : SqlEnv;
  rm_now : Z;
  rm_wire : nat -> Wire
}.

(** What [OsRng] and [Ulid] hand out. *)
Record RequestDraw := mkRequestDraw { rd_private : bytes; rd_code : bytes; rd_request_id : string }.
Record ApproveDraw := mkApproveDraw { ad_private : bytes; ad_nonce : bytes }.

(** What follows outside the tables. *)
Inductive EnrollEffect : Type :=
| ResignCerts (user_id : string)
| PurgeWelcomes
| RemoveLocalDb (user_id : string)
| PublishDeviceCert (user_id device_id : string)
| PublishKeyPackage (user_id device_id : string)
| ExternalJoin (conv_id user_id : string).

Section Enrollment.
Context `{KeyCrypto} `{!Uppercase} `{!Lowercase} `{SigningKeyBytes} `{!Base64} `{!Rfc3339} (fails : nat -> bool) (rm : Remote).

Definition derive_enroll_key (shared_secret : bytes) : bytes := hkdf None shared_secret ENROLL_HKDF_INFO.

Definition x25519_private_from_bytes (b : bytes) : Result bytes CoreError :=
  if negb (length b =? 32) then Err (CryptoError "x25519 private key has wrong length") else Ok b.

Definition x25519_public_from_bytes (b : bytes) : Result bytes CoreError :=
  if negb (length b =? X25519_PUB_LEN) then Err (CryptoError "x25519 public key has wrong length") else Ok b.

Definition unwrap_account_key (wrapped requester_private : bytes) : Result bytes CoreError :=
  if negb (length wrapped =? WRAPPED_ACCOUNT_KEY_LEN) then Err (CryptoError "wrapped_account_key has wrong length")
  else
    let? requester_priv := x25519_private_from_bytes requester_private in
    let? approver_pub := x25519_public_from_bytes (take X25519_PUB_LEN wrapped) in
    let wrap_key := derive_enroll_key (diffie_hellman requester_priv approver_pub) in
    let nonce := take AES_NONCE_LEN (drop X25519_PUB_LEN wrapped) in
    let? pt := ok_or (aes_decrypt wrap_key nonce (drop (X25519_PUB_LEN + AES_NONCE_LEN) wrapped)) (CryptoError "enrollment aes-gcm decrypt") in
    if negb (length pt =? ACCOUNT_ID_PRIVATE_LEN) then Err (CryptoError "decrypted account_id_key has wrong length") else Ok pt.

(** The approver's side of the same exchange. *)
Definition wrap_account_key (draw : ApproveDraw) (ephemeral_pub account_id_private : bytes) : Result bytes CoreError :=
  let? requester_pub := x25519_public_from_bytes ephemeral_pub in
  let wrap_key := derive_enroll_key (diffie_hellman (ad_private draw) requester_pub) in
  let? ct := ok_or (aes_encrypt wrap_key (ad_nonce draw) account_id_private) (CryptoError "enrollment aes-gcm encrypt") in
  Ok (x25519_public (ad_private draw) ++ ad_nonce draw ++ ct).

(** The command's [n]th request, whose route is [m]. *)
Definition post {A} (n : nat) (m : Sql A) (db : MsgDb) : MsgDb * Result A CoreError :=
  match rm_wire rm n with
  | Unsent => (db, Err (OtherError "DS unreachable"))
  | AnswerLost => ((run_sql m db).1, Err (OtherError "DS unreachable"))
  | Answered => let '(db, r) := run_sql m db in (db, map_err (fun _ => OtherError "DS refused") r)
  end.

(** [ds_post_ok] of a signed request whose route answers [WriteOutcome]. *)
Definition ds_post_ok (n : nat) (route : option string -> Sql WriteOutcome) (db : MsgDb) : MsgDb * Result unit CoreError :=
  match rm_signer rm with
  | None => (db, Err (OtherError "not signed in for DS request signing"))
  | Some u =>
      match post n (route (Some u)) db with
      | (db, Ok Applied) => (db, Ok tt)
      | (db, Ok _) => (db, Err (OtherError "DS refused"))
      | (db, Err e) => (db, Err e)
      end
  end.

Definition record_event (kind : string) (device_id metadata : option string) (db : MsgDb) : MsgDb :=
  (ds_post_ok 1 (fun a => AccountRoutes.apply_record_security_event (rm_later rm) a
     (AccountRoutes.mkSecurityEvent kind device_id metadata None)) db).1.

(** A read of the main database. *)
Definition read {A} (n : nat) (a : A) : Result A CoreError := if rm_read_fails rm n then Err (OtherError "remote read") else Ok a.

Definition past (expires_at : string) : bool :=
  match parse_from_rfc3339 expires_at with Some t => (t <? rm_now rm)%Z | None => false end.

Definition start_device_enrollment (draw : RequestDraw) (user_id : string) (d : Device) (db : MsgDb)
    : Device * MsgDb * Result EnrollmentHandle CoreError :=
  match cl_device_id (dv_client d) with
  | None => (d, db, Err (OtherError "device_id not set: login incomplete"))
  | Some _ =>
      let code := verification_code_of (rd_code draw) in
      let expires_at := to_rfc3339 (rm_now rm + ENROLLMENT_TTL_SECS * 10 ^ 9) in
      match dv_session d with
      | None => (d, db, Err (OtherError "Your sign-in session expired. Please sign in again to enroll this device."))
      | Some token =>
          match rm_session rm token with
          | None => (d, db, Err (OtherError "DS refused"))
          | Some (u, device) =>
              match post 0 (AccountRoutes.apply_enrollment_request (rm_sql rm) u device (rd_request_id draw)
                              (x25519_public (rd_private draw)) code (to_rfc3339 (rm_now rm)) expires_at) db with
              | (db, Err e) => (d, db, Err e)
              | (db, Ok _) =>
                  (on_keys <[rd_request_id draw := rd_private draw]> d, db, Ok (mkHandle (rd_request_id draw) code expires_at))
              end
          end
      end
  end.

Definition install (db_key : bytes) (user_id : string) (account_id_private : bytes) (d : Device) : Device :=
  on_client (set_unlock (Some (unlock_state_with_fresh_db_key db_key user_id account_id_private)) (dv_client d)) d.

Definition forget (request_id : string) : Device -> Device := on_keys (delete request_id).

(** [db_key]: the fresh key of the local database. *)
Definition poll_enrollment_status (db_key : bytes) (request_id : string) (d : Device) (db : MsgDb) : Device * Result EnrollmentStatus CoreError :=
  match read 0 (enrollments (Tables.accounts db) !! request_id) with
  | Err e => (d, Err e)
  | Ok None => (d, Err (OtherError "enrollment request not found"))
  | Ok (Some row) =>
      if past (enr_expires_at row) then (forget request_id d, Ok Expired)
      else if bool_decide (enr_status row = "pending") then (d, Ok Pending)
      else if bool_decide (enr_status row = "rejected") then (forget request_id d, Ok Rejected)
      else if bool_decide (enr_status row = "expired") then (forget request_id d, Ok Expired)
      else if bool_decide (enr_status row = "approved") then
        match enr_wrapped_account_key row with
        | None => (d, Err (OtherError "enrollment request is approved but wrapped_account_key is NULL"))
        | Some wrapped =>
            match dv_keys d !! request_id with
            | None => (d, Err (OtherError "no in-memory ephemeral key for request"))
            | Some priv_bytes =>
                match unwrap_account_key wrapped priv_bytes with
                | Err e => (forget request_id d, Err e)
                | Ok account_id_private => (install db_key (enr_user_id row) account_id_private (forget request_id d), Ok Approved)
                end
            end
        end
      else (d, Err (OtherError "enrollment request has unexpected status"))
  end.

(** The row an approval acts on, once it may. *)
Definition approvable (request_id verification_code : string) (db : MsgDb) : Result EnrollmentRow CoreError :=
  let? found := read 0 (enrollments (Tables.accounts db) !! request_id) in
  let? row := ok_or found (OtherError "enrollment request not found") in
  if negb (bool_decide (enr_status row = "pending")) then Err (OtherError "enrollment request is not pending")
  else if past (enr_expires_at row) then Err (OtherError "enrollment request has expired")
  else if negb (constant_time_eq (as_bytes (enr_verification_code row)) (as_bytes verification_code))
       then Err (OtherError "verification code does not match")
  else Ok row.

Definition approve_device_enrollment (draw : ApproveDraw) (request_id verification_code : string) (d : Device) (db : MsgDb)
    : Device * MsgDb * Result unit CoreError :=
  match cl_device_id (dv_client d) with
  | None => (d, db, Err (OtherError "device_id not set: login incomplete"))
  | Some approver_device_id =>
      match approvable request_id verification_code db with
      | Err e => (d, db, Err e)
      | Ok row =>
          match load_account_id_key fails (enr_user_id row) (dv_client d) with
          | (c, Err e) => (on_client c d, db, Err e)
          | (c, Ok signing_key) =>
              let d := on_client c d in
              match (let? wrapped := wrap_account_key draw (enr_ephemeral_pub row) (sk_to_bytes signing_key) in
                     let? user := read 1 (users db !! enr_user_id row) in
                     let? _ := ok_or user (OtherError "user not found") in Ok wrapped) with
              | Err e => (d, db, Err e)
              | Ok wrapped =>
                  match ds_post_ok 0 (fun a => AccountRoutes.apply_approve_enrollment (rm_sql rm) a
                          (AccountRoutes.mkApproveEnrollment request_id (b64_encode wrapped) approver_device_id None)) db with
                  | (db, Err e) => (d, db, Err e)
                  | (db, Ok _) =>
                      (d, record_event "device_enrolled" (Some (enr_new_device_id row))
                            (Some (fmt ["via=approval,approver="; approver_device_id])) db, Ok tt)
                  end
              end
          end
      end
  end.

Definition reject_device_enrollment (request_id : string) (d : Device) (db : MsgDb) : MsgDb * Result unit CoreError :=
  match cl_device_id (dv_client d) with
  | None => (db, Err (OtherError "device_id not set: login incomplete"))
  | Some approver_device_id =>
      match read 0 (enrollments (Tables.accounts db) !! request_id) with
      | Err e => (db, Err e)
      | Ok None => (db, Err (OtherError "enrollment request not found"))
      | Ok (Some row) =>
          match ds_post_ok 0 (fun a => AccountRoutes.apply_reject_enrollment (rm_sql rm) a
                  (AccountRoutes.mkRejectEnrollment request_id approver_device_id None)) db with
          | (db, Err e) => (db, Err e)
          | (db, Ok _) => (record_event "device_rejected" (Some (enr_new_device_id row)) None db, Ok tt)
          end
      end
  end.

Definition recover_with_secret_key (db_key : bytes) (user_id secret_key : string) (d : Device) (db : MsgDb) : Device * Result unit CoreError :=
  match (let? found := read 0 (recovery (Tables.accounts db) !! user_id) in
         let? row := ok_or found (OtherError "No recovery blob found for user") in
         unwrap_recovery_blob secret_key (rec_salt row) (rec_nonce row) (rec_wrapped_key row)) with
  | Err e => (d, Err e)
  | Ok account_id_private => (install db_key user_id account_id_private d, Ok tt)
  end.

(** ** account_identity.rs: a new identity *)

(** [ds_post_signed_or_session]: whom the service takes the request for, signed if the local
    database is open, by the bootstrap session otherwise. *)
Definition signed_or_session (d : Device) : option string :=
  if bool_decide (is_Some (cl_local_db (dv_client d))) then rm_signer rm else token ← dv_bootstrap d; fst <$> rm_session rm token.

(** Sign-up without a delivery service: three statements of the client's own, in no
    transaction. *)
Definition generate_account_identity (env : SqlEnv) (draw : IdentityDraw) (user_id : string) (c : Client) (db : MsgDb)
    : Client * MsgDb * Result string CoreError :=
  match generate_account_identity_material draw user_id c with
  | (c, Err e) => (c, db, Err e)
  | (c, Ok (display, m)) =>
      let pub := am_account_id_pub m in
      let '(db, r) := run_sql (
        let* _ := write env (fun db => Some (set_users (alter (AccountRoutes.set_identity pub 1) user_id) db)) in
        let* _ := write env (fun db => if AccountRoutes.has_version user_id 1 db then None else Some (AccountRoutes.append_key user_id pub 1 db)) in
        write env (fun db =>
          match recovery (Tables.accounts db) !! user_id with
          | Some _ => None
          | None => AccountRoutes.put_recovery env user_id (mkRecovery 1 (am_salt m) (am_nonce m) (am_wrapped_key m)) db
          end)) db in
      (c, db, match r with Ok _ => Ok display | Err _ => Err (OtherError "remote write") end)
  end.

(** The certificates are signed again, and the event recorded, as far as the service allows. *)
Definition reset_identity (draw : IdentityDraw) (user_id : string) (d : Device) (db : MsgDb)
    : Device * MsgDb * list EnrollEffect * Result string CoreError :=
  match wrap_fresh_identity draw with
  | Err e => (d, db, [], Err e)
  | Ok (display, m) =>
      match (let? user := read 0 (users db !! user_id) in ok_or user (OtherError "user not found during reset_identity")) with
      | Err e => (d, db, [], Err e)
      | Ok user =>
          match signed_or_session d with
          | None => (d, db, [], Err (OtherError "DS refused"))
          | Some actor =>
              match post 0 (AccountRoutes.apply_rotate_identity (rm_sql rm) (Some actor)
                      (AccountRoutes.mkRotateIdentity (prf_identity_version user) (b64_encode (am_account_id_pub m)) (b64_encode (am_salt m))
                         (b64_encode (am_nonce m)) (b64_encode (am_wrapped_key m)) None)) db with
              | (db, Ok (AccountRoutes.RotateApplied v)) =>
                  let d := install (dw_db_key draw) user_id (sk_to_bytes (dw_signing_key draw)) d in
                  let db := record_event "identity_reset" None (Some (fmt ["new_identity_version="; pretty v])) db in
                  (d, db, [ResignCerts user_id], Ok display)
              | (db, Ok (AccountRoutes.RotateConflict _)) =>
                  (d, db, [], Err (OtherError "identity rotation lost a concurrent race (account_key_log CAS); retry"))
              | (db, _) => (d, db, [], Err (OtherError "DS rotate-identity"))
              end
          end
      end
  end.

Definition reset_identity_and_recover (draw : IdentityDraw) (user_id confirm_email : string) (d : Device) (db : MsgDb)
    : Device * MsgDb * list EnrollEffect * Result string CoreError :=
  match (let? user := read 1 (users db !! user_id) in ok_or user (OtherError "user not found")) with
  | Err e => (d, db, [], Err e)
  | Ok user =>
      if negb (constant_time_eq (as_bytes (to_lowercase (trim (prf_email user)))) (as_bytes (to_lowercase (trim confirm_email))))
      then (d, db, [], Err (OtherError "email confirmation does not match"))
      else
        match reset_identity draw user_id d db with
        | (d, db, es, Err e) => (d, db, es, Err e)
        | (d, db, es, Ok new_secret_key) =>
            match signed_or_session d with
            | None => (d, db, es, Err (OtherError "DS refused"))
            | Some actor =>
                match post 2 (AccountRoutes.apply_reset_recover (rm_later rm) (Some actor)
                        (AccountRoutes.mkResetRecover (cl_device_id (dv_client d)) None)) db with
                | (db, Ok Applied) =>
                    (on_client (unload_user_db (dv_client d)) d, db, es ++ [PurgeWelcomes; RemoveLocalDb user_id], Ok new_secret_key)
                | (db, _) => (d, db, es, Err (OtherError "DS refused"))
                end
            end
        end
  end.

(** ** device_enrollment.rs: finishing *)

Definition fetch_user_group_ids (db : MsgDb) (user_id : string) : list string :=
  omap (fun '((g, u), _) => if bool_decide (u = user_id) && bool_decide (is_Some (groups db !! g)) then Some g else None)
    (map_to_list (group_members db)).

Definition fetch_user_dm_ids (db : MsgDb) (user_id : string) : list string :=
  omap (fun '((c, u), _) => if bool_decide (u = user_id) && bool_decide (is_Some (dm_channels db !! c)) then Some c else None)
    (map_to_list (dm_members db)).

(** [has_local_group]: what the local database, if open, says of a conversation.  Each call
    is best effort, so all of them are made. *)
Definition finalize_enrollment (has_local_group : string -> bool) (user_id : string) (d : Device) (db : MsgDb)
    : list EnrollEffect * Result unit CoreError :=
  match cl_device_id (dv_client d) with
  | None => ([], Err (OtherError "device_id not set during finalize"))
  | Some device_id =>
      let published := [PublishDeviceCert user_id device_id; PublishKeyPackage user_id device_id] in
      match read 0 tt with
      | Err e => (published, Err e)
      | Ok _ =>
          let candidate_ids := fetch_user_group_ids db user_id ++ fetch_user_dm_ids db user_id in
          let joined conv := bool_decide (is_Some (cl_local_db (dv_client d))) && has_local_group conv in
          (published ++ map (fun conv => ExternalJoin conv user_id) (List.filter (fun conv => negb (joined conv)) candidate_ids), Ok tt)
      end
  end.
End Enrollment.

(** ** Codes *)

Lemma fold_diff_zero l d :
  fold_left (fun diff '(x, y) => N.lor diff (N.lxor (N_of_byte x) (N_of_byte y))) l d = 0%N <->
  d = 0%N /\ Forall (fun xy : byte * byte => xy.1 = xy.2) l.
Proof.
  revert d. induction l as [|[x y] l IH]; intros d; simpl; [split; [auto|by intros [? _]]|].
  rewrite IH, N.lor_eq_0_iff, N.lxor_eq_0_iff, Forall_cons. simpl. split.
  - intros [[-> Hxy] Hl]. split_and!; [done| |done]. by rewrite <- (byte_of_N_of_byte x), Hxy, byte_of_N_of_byte.
  - intros (-> & -> & Hl). done.
Qed.

(** The comparison without early exit is equality. *)
Lemma code_eq_exact a b : constant_time_eq a b = true <-> a = b.
Proof.
  unfold constant_time_eq. destruct (Nat.eqb_spec (length a) (length b)) as [Hl|Hl]; simpl; [|split; congruence].
  rewrite N.eqb_eq, fold_diff_zero. split; [|intros ->; split; [done|]].
  - intros [_ Hf]. revert b Hl Hf. induction a as [|x a IH]; intros [|y b] Hl Hf; simpl in *; try done.
    apply Forall_cons in Hf as [Hxy Hf]. simpl in Hxy. subst. f_equal. apply IH; [lia|done].
  - clear Hl. induction b; simpl; by constructor.
Qed.

Lemma format_code_shape n : length (as_bytes (format_code n)) = 6 /\ forallb is_ascii_digit (as_bytes (format_code n)) = true.
Proof.
  unfold format_code. rewrite as_bytes_of_bytes. split; [done|]. apply forallb_forall. intros x Hx.
  apply in_map_iff in Hx as (d & <- & _).
  assert (n / d mod 10 < 10)%N as Hd by (apply N.mod_lt; done). set (m := (n / d mod 10)%N) in *. clearbody m.
  unfold is_ascii_digit, in_range. rewrite N_of_byte_of_N, N.mod_small by lia. apply andb_true_iff. split; apply N.leb_le; lia.
Qed.

(** ** The Secret Key in any spelling *)

Definition is_ascii_space (b : byte) : bool := bool_decide (b ∈ [x09; x0a; x0b; x0c; x0d; x20]).

Definition not_dash (b : byte) : bool := negb (bool_decide (b = x2d)).

(** [typed] is the Secret Key [display] up to white space, letter case and the place of the
    dashes after the version. *)
Definition spells (typed display : string) : Prop :=
  forallb is_ascii (as_bytes typed) = true /\
  exists body, map ascii_upper (List.filter (fun b => negb (is_ascii_space b)) (as_bytes typed)) = as_bytes SECRET_KEY_VERSION ++ x2d :: body /\
    List.filter not_dash (as_bytes display) = (as_bytes SECRET_KEY_VERSION ++ List.filter not_dash body)%list.

Lemma strip_ascii x b : is_ascii x = true -> strip_any white_space (x :: b) = if is_ascii_space x then Some b else None.
Proof. destruct x; try discriminate; reflexivity. Qed.

Lemma drop_whitespace_ascii fuel b : length b <= fuel -> forallb is_ascii b = true ->
  drop_whitespace fuel b = List.filter (fun b => negb (is_ascii_space b)) b.
Proof.
  revert b. induction fuel as [|fuel IH]; intros [|x b] Hl Ha; try (simpl in *; done || lia).
  cbn [forallb] in Ha. apply andb_true_iff in Ha as [Hx Ha]. cbn [drop_whitespace]. rewrite strip_ascii by done.
  cbn [List.filter]. cbn [length] in Hl. destruct (is_ascii_space x); cbn [negb]; rewrite IH by (done || lia); done.
Qed.

Lemma char_low_bytes_ascii b : forallb is_ascii b = true -> char_low_bytes b = b.
Proof.
  induction b as [|x b IH]; [done|]. cbn [forallb char_low_bytes]. intros [Hx Hb]%andb_true_iff. unfold is_ascii in Hx.
  rewrite Hx. by rewrite IH.
Qed.

Lemma alphabet_ascii x : x ∈ SECRET_KEY_ALPHABET -> is_ascii x = true /\ not_dash x = true /\ ascii_upper x = x /\ is_ascii_space x = false.
Proof.
  intros Hx. assert (forallb (fun x => is_ascii x && not_dash x && Byte.eqb (ascii_upper x) x && negb (is_ascii_space x)) SECRET_KEY_ALPHABET = true)
    as Ha by reflexivity.
  rewrite forallb_forall in Ha. specialize (Ha x (proj1 (list_elem_of_In _ _) Hx)).
  apply andb_true_iff in Ha as [[[? ?]%andb_true_iff ?%Byte.byte_dec_bl]%andb_true_iff ?%negb_true_iff]. done.
Qed.

Lemma secret_char_in r : secret_char r ∈ SECRET_KEY_ALPHABET.
Proof. apply (bool_decide_eq_true_1 (_ ∈ _)). by destruct r. Qed.

Lemma filter_all {A} (p : A -> bool) l : forallb p l = true -> List.filter p l = l.
Proof. induction l as [|x l IH]; [done|]. cbn [forallb List.filter]. intros [-> Hl]%andb_true_iff. by rewrite IH. Qed.

Lemma alphabet_body r : forallb (fun c => bool_decide (c ∈ SECRET_KEY_ALPHABET)) (map secret_char r) = true /\
  forallb is_ascii (map secret_char r) = true /\ List.filter not_dash (map secret_char r) = map secret_char r.
Proof.
  split_and!; [| |apply filter_all]; apply forallb_forall; intros x (c & <- & _)%in_map_iff;
    try apply bool_decide_eq_true; first [apply secret_char_in|apply alphabet_ascii, secret_char_in].
Qed.

Lemma chunks_dashes fuel n b : length b <= fuel -> 0 < n ->
  List.filter not_dash (concat (map (fun chunk => x2d :: chunk) (chunks_fuel fuel n b))) = List.filter not_dash b.
Proof.
  revert b. induction fuel as [|fuel IH]; intros b Hl Hn; [by destruct b; [|simpl in Hl; lia]|].
  destruct b as [|x b]; [done|]. cbn [chunks_fuel map concat]. rewrite List.filter_app, IH; [|rewrite length_drop; simpl in *; lia|done].
  cbn [List.filter]. change (not_dash x2d) with false. cbv iota. by rewrite <- List.filter_app, take_drop.
Qed.

Lemma chunks_alphabet fuel n b : Forall (fun x => x ∈ SECRET_KEY_ALPHABET) b ->
  Forall (fun x => x = x2d \/ x ∈ SECRET_KEY_ALPHABET) (concat (map (fun chunk => x2d :: chunk) (chunks_fuel fuel n b))).
Proof.
  revert b. induction fuel as [|fuel IH]; intros [|x b] Hb; [constructor..|]. cbn [chunks_fuel map concat app].
  constructor; [by left|]. apply Forall_app. split; [|by apply IH, Forall_drop].
  eapply Forall_impl; [by apply Forall_take|]. auto.
Qed.

(** What the client displays is in normal form. *)
Lemma spells_generated r : 0 < length r -> spells (generate_secret_key_string r) (generate_secret_key_string r).
Proof.
  intros Hr. unfold spells, generate_secret_key_string. rewrite !as_bytes_of_bytes. set (dashed := concat _).
  assert (Forall (fun x => x = x2d \/ x ∈ SECRET_KEY_ALPHABET) (as_bytes SECRET_KEY_VERSION ++ dashed)) as Hd.
  { apply Forall_app. split; [repeat constructor; right; by apply bool_decide_eq_true_1|]. apply chunks_alphabet, Forall_map, Forall_true.
    apply secret_char_in. }
  assert (forall x, x = x2d \/ x ∈ SECRET_KEY_ALPHABET -> is_ascii x = true /\ ascii_upper x = x /\ is_ascii_space x = false) as Hx.
  { intros x [->|(? & ? & ? & ?)%alphabet_ascii]; done. }
  assert (exists body, dashed = x2d :: body) as [body Eb] by (destruct r; [simpl in Hr; lia|by eexists]).
  rewrite Forall_forall in Hd. split; [|exists body; rewrite <- Eb; split].
  - apply forallb_forall. intros x Hin%list_elem_of_In. by apply Hx, Hd.
  - rewrite filter_all; [|apply forallb_forall; intros x Hin%list_elem_of_In; by destruct (Hx x (Hd x Hin)) as (_ & _ & ->)].
    rewrite <- (map_id (_ ++ dashed)) at 2. apply map_ext_in. intros x Hin%list_elem_of_In. by apply Hx, Hd.
  - rewrite List.filter_app, Eb. reflexivity.
Qed.

Section Normal.
Context `{!Uppercase} `{!UppercaseLaws}.

Lemma normalize_spells r typed : length r = SECRET_KEY_BODY_CHARS -> spells typed (generate_secret_key_string r) ->
  normalize_secret_key typed = Ok (of_bytes (map secret_char r)).
Proof.
  intros Hr (Ha & body & Et & Ed). unfold normalize_secret_key. rewrite drop_whitespace_ascii by done.
  rewrite to_uppercase_ascii; rewrite !as_bytes_of_bytes.
  2: { apply forallb_forall. intros x [Hin _]%filter_In. by eapply forallb_forall in Ha. }
  rewrite Et.
  assert (strip_prefix_bytes (as_bytes SECRET_KEY_VERSION ++ [x2d]) (as_bytes SECRET_KEY_VERSION ++ x2d :: body) = Some body) as -> by done.
  cbn [rbind ok_or].
  assert (List.filter not_dash body = map secret_char r) as Eb.
  { unfold generate_secret_key_string in Ed. rewrite as_bytes_of_bytes, List.filter_app in Ed. unfold chunks in Ed.
    rewrite chunks_dashes in Ed by (done || lia). destruct (alphabet_body r) as (_ & _ & E3). rewrite E3 in Ed.
    change (List.filter not_dash (as_bytes SECRET_KEY_VERSION)) with (as_bytes SECRET_KEY_VERSION) in Ed. by apply app_inv_head in Ed. }
  change (fun c => negb (bool_decide (c = x2d))) with not_dash. rewrite Eb, length_map, Hr, Nat.eqb_refl. cbn [negb].
  destruct (alphabet_body r) as (E1 & E2 & _). by rewrite (char_low_bytes_ascii _ E2), E1.
Qed.
End Normal.

(** ** The key exchange *)

Section Transfer.
Context `{KeyCryptoLaws} `{!Uppercase} `{!UppercaseLaws} `{!Lowercase} `{SigningKeyBytesLaws} `{!Base64} `{!Base64Laws} `{!Rfc3339}.

Lemma wrap_account_key_total draw pub key : length pub = 32 -> length key = 32 -> exists w, wrap_account_key draw pub key = Ok w.
Proof.
  intros Hp Hk. unfold wrap_account_key, x25519_public_from_bytes, X25519_PUB_LEN. rewrite Hp. cbn [negb Nat.eqb rbind].
  destruct (aes_total (derive_enroll_key (diffie_hellman (ad_private draw) pub)) (ad_nonce draw) key Hk) as [ct ->]. by eexists.
Qed.

(** Whoever holds the private half of the key a blob was wrapped for opens it. *)
Lemma unwrap_wrapped draw priv key w :
  length priv = 32 -> length key = 32 -> length (ad_nonce draw) = AES_NONCE_LEN ->
  wrap_account_key draw (x25519_public priv) key = Ok w -> unwrap_account_key w priv = Ok key.
Proof.
  intros Hp Hk Hn. unfold wrap_account_key, x25519_public_from_bytes, X25519_PUB_LEN. rewrite x25519_public_length. cbn [negb Nat.eqb rbind].
  destruct (aes_encrypt _ _ _) as [ct|] eqn:Ec; cbn [ok_or rbind]; [|done]. intros [= <-].
  pose proof (aes_length _ _ _ _ Ec) as Hc. pose proof (x25519_public_length (ad_private draw)) as Hx.
  unfold unwrap_account_key, x25519_private_from_bytes, x25519_public_from_bytes, X25519_PUB_LEN, AES_NONCE_LEN in *.
  rewrite !length_app, Hx, Hn, Hc, Hk, Hp. cbn [negb Nat.eqb Nat.add AES_NONCE_LEN WRAPPED_ACCOUNT_KEY_LEN ACCOUNT_ID_PRIVATE_LEN X25519_PUB_LEN rbind].
  rewrite take_app_length', drop_app_length' by done. rewrite Hx. cbn [negb Nat.eqb rbind].
  rewrite take_app_length' by (by rewrite Hn). 
  assert (drop 44 (x25519_public (ad_private draw) ++ ad_nonce draw ++ ct) = ct) as ->
    by (rewrite app_assoc; apply drop_app_length'; by rewrite length_app, Hx, Hn).
  rewrite diffie_hellman_agree, (aes_roundtrip _ _ _ _ Ec). cbn [ok_or rbind]. by rewrite Hk.
Qed.

(** ** The service's routes *)

Lemma run_of_wp {A} (m : Sql A) db (Q : Result A SqlError -> MsgDb -> Prop) : wp m db Q -> Q (run_sql m db).2 (run_sql m db).1.
Proof. intros Hw. apply (Hw 0). Qed.

(** What a request that is answered, or not, does with a route of which [Q] holds. *)
Lemma post_of_wp {A} rm n (m : Sql A) db (Q : Result A SqlError -> MsgDb -> Prop) : wp m db Q ->
  match post rm n m db with
  | (db', Ok a) => Q (Ok a) db'
  | (db', Err _) => db' = db \/ (exists e, Q (Err e) db') \/ rm_wire rm n = AnswerLost /\ exists r, Q r db'
  end.
Proof.
  intros Hw%run_of_wp. unfold post. destruct (rm_wire rm n); [|by left|].
  - destruct (run_sql m db) as [db' [a|e]]; cbn in *; [done|]. right; left. by eexists.
  - right; right. split; [done|]. by eexists.
Qed.

(** [db'] is [db] with the security event in it, if it could be recorded. *)
Definition with_event (rm : Remote) (kind : string) (device metadata : option string) (db db' : MsgDb) : Prop :=
  db' = db \/ exists u, rm_signer rm = Some u /\ security_events (Tables.accounts db) !! new_ulid (rm_later rm) = None /\
    db' = set_security_events <[new_ulid (rm_later rm) := mkEvent u kind device metadata]> db.

Lemma record_event_exact rm kind device metadata db : with_event rm kind device metadata db (record_event rm kind device metadata db).
Proof.
  unfold record_event, ds_post_ok. destruct (rm_signer rm) as [u|] eqn:Es; [|by left].
  set (m := AccountRoutes.apply_record_security_event _ _ _).
  assert (wp m db (fun _ db' => with_event rm kind device metadata db db')) as Hw.
  { apply wp_as_actor; [by left|]. repeat wp_step; [by left|]. destruct (fk_holds _ _); [|done].
    match goal with H : _ <$> _ = Some _ |- _ => apply fmap_Some in H as (? & [Hn ->]%insert_new_Some & ->) end.
    right. exists u. split_and!; done. }
  apply (post_of_wp rm 1) in Hw. destruct (post rm 1 m db) as [db' [[]|e]]; try done.
  destruct Hw as [->|[[? Hw]|[_ [? Hw]]]]; [by left|done..].
Qed.

(** An event leaves the other tables alone. *)
Lemma with_event_frame rm kind device metadata db db' : with_event rm kind device metadata db db' ->
  users db' = users db /\ recovery (Tables.accounts db') = recovery (Tables.accounts db) /\
  enrollments (Tables.accounts db') = enrollments (Tables.accounts db).
Proof. by intros [->|(u & _ & _ & ->)]. Qed.

(** An approval the service applied. *)
Definition approved_row (wrapped : bytes) (by_device : string) (r : EnrollmentRow) : EnrollmentRow :=
  mkEnrollment (enr_user_id r) (enr_new_device_id r) (enr_ephemeral_pub r) (enr_verification_code r)
    (Some wrapped) "approved" (enr_created_at r) (enr_expires_at r) (Some by_device).

(** The row was the signer's, and it alone is now approved. *)
Definition row_approved (rm : Remote) (id : string) (wrapped : bytes) (device : string) (db db' : MsgDb) : Prop :=
  exists row, enrollments (Tables.accounts db) !! id = Some row /\ rm_signer rm = Some (enr_user_id row) /\
    db' = set_enrollments <[id := approved_row wrapped device row]> db.

Lemma post_approve rm id wrapped device db :
  match ds_post_ok rm 0 (fun a => AccountRoutes.apply_approve_enrollment (rm_sql rm) a
          (AccountRoutes.mkApproveEnrollment id (b64_encode wrapped) device None)) db with
  | (db', Ok _) => row_approved rm id wrapped device db db'
  | (db', Err _) => db' = db \/ rm_wire rm 0 = AnswerLost /\ row_approved rm id wrapped device db db'
  end.
Proof.
  unfold ds_post_ok. destruct (rm_signer rm) as [u|] eqn:Es; [|by left]. set (m := AccountRoutes.apply_approve_enrollment _ _ _).
  assert (wp m db (fun r db' => match r with Ok Applied => row_approved rm id wrapped device db db' | _ => db' = db end)) as Hw.
  { apply wp_as_actor; [done|]. cbn [AccountRoutes.ae_wrapped_account_key]. rewrite b64_decode_encode. repeat wp_step; try done.
    match goal with H : Some _ = Some _ |- _ => injection H as <- end.
    match goal with H : AccountRoutes.update_enrollment _ _ _ _ = Some _ |- _ => unfold AccountRoutes.update_enrollment in H;
      destruct (enrollments _ !! _) as [row|] eqn:Er in H; [case_bool_decide as Hu|]; injection H as <- <- end; try done.
    exists row. split_and!; [done|congruence|done]. }
  apply (post_of_wp rm 0) in Hw. destruct (post rm 0 m db) as [db' [[]|e]]; [done|by left..|].
  destruct Hw as [->|[[? ->]|[Hl [[[]|?] Hw]]]]; try (by left); subst; auto.
Qed.

(** ** Approval *)

Lemma approvable_inv rm id code db row : approvable rm id code db = Ok row ->
  enrollments (Tables.accounts db) !! id = Some row /\ enr_status row = "pending" /\
  past rm (enr_expires_at row) = false /\ enr_verification_code row = code.
Proof.
  unfold approvable, read. destruct (rm_read_fails rm 0); [done|]. cbn [rbind].
  destruct (enrollments _ !! id) as [r|]; cbn [ok_or rbind]; [|done]. case_bool_decide as Hs; cbn [negb]; [|done].
  destruct (past _ _) eqn:Hp; [done|]. destruct (constant_time_eq _ _) eqn:Hc; cbn [negb]; [|done].
  intros [= <-]. apply code_eq_exact in Hc. apply as_bytes_inj in Hc. done.
Qed.

(** What an approval of [row] by [device] needs, and the database it leaves before the event. *)
Definition approval (fails : nat -> bool) (rm : Remote) (draw : ApproveDraw) (id code : string) (d : Device) (db : MsgDb)
    (row : EnrollmentRow) (device : string) (db1 : MsgDb) : Prop :=
  exists key wrapped,
    enrollments (Tables.accounts db) !! id = Some row /\ enr_status row = "pending" /\
    past rm (enr_expires_at row) = false /\ enr_verification_code row = code /\
    cl_device_id (dv_client d) = Some device /\ rm_signer rm = Some (enr_user_id row) /\
    (load_account_id_key fails (enr_user_id row) (dv_client d)).2 = Ok key /\
    wrap_account_key draw (enr_ephemeral_pub row) (sk_to_bytes key) = Ok wrapped /\
    db1 = set_enrollments <[id := approved_row wrapped device row]> db.

Definition approval_event (rm : Remote) (row : EnrollmentRow) (device : string) : MsgDb -> MsgDb -> Prop :=
  with_event rm "device_enrolled" (Some (enr_new_device_id row)) (Some (fmt ["via=approval,approver="; device])).

Lemma approve_inv fails rm draw id code d db d' db' r :
  approve_device_enrollment fails rm draw id code d db = (d', db', r) ->
  match r with
  | Err _ => db' = db \/ rm_wire rm 0 = AnswerLost /\ exists row device, approval fails rm draw id code d db row device db'
  | Ok _ => exists row device db1, approval fails rm draw id code d db row device db1 /\ approval_event rm row device db1 db'
  end.
Proof.
  unfold approve_device_enrollment. destruct (cl_device_id (dv_client d)) as [device|] eqn:Ed; [|intros [= <- <- <-]; by left].
  destruct (approvable rm id code db) as [row|e] eqn:Ea; [|intros [= <- <- <-]; by left]. apply approvable_inv in Ea as (Hr & Hs & Hp & Hc).
  destruct (load_account_id_key _ _ _) as [c [key|e]] eqn:Ek; [|intros [= <- <- <-]; by left]. cbv zeta.
  destruct (wrap_account_key _ _ _) as [wrapped|e] eqn:Ew; cbn [rbind]; [|intros [= <- <- <-]; by left].
  destruct (read _ _ _) as [[user|]|e]; cbn [ok_or rbind]; [|intros [= <- <- <-]; by left..].
  assert (forall db1, row_approved rm id wrapped device db db1 -> approval fails rm draw id code d db row device db1) as Happ.
  { intros db1 (row' & Hr' & Hs' & ->). rewrite Hr in Hr'. injection Hr' as <-. exists key, wrapped. rewrite Ek. by split_and!. }
  pose proof (post_approve rm id wrapped device db) as Hpost. destruct (ds_post_ok _ _ _ _) as [db1 [[]|e]]; intros [= <- <- <-].
  - exists row, device, db1. split; [by apply Happ|apply record_event_exact].
  - destruct Hpost as [->|[Hl Hpost]]; [by left|]. right. split; [done|]. exists row, device. by apply Happ.
Qed.

(** When all of it holds and the service gets the request and works, the approval is made, and
    said to be if the answer comes. *)
Lemma approve_succeeds fails rm draw id row key u device (d : Device) db :
  reliable (rm_sql rm) -> rm_wire rm 0 <> Unsent -> (forall n, rm_read_fails rm n = false) ->
  enrollments (Tables.accounts db) !! id = Some row -> enr_user_id row = u -> is_Some (users db !! u) ->
  enr_status row = "pending" -> past rm (enr_expires_at row) = false -> length (enr_ephemeral_pub row) = 32 ->
  rm_signer rm = Some u -> cl_device_id (dv_client d) = Some device ->
  load_account_id_key fails u (dv_client d) = (dv_client d, Ok key) ->
  let '(_, db', r) := approve_device_enrollment fails rm draw id (enr_verification_code row) d db in
  (rm_wire rm 0 = Answered -> r = Ok tt) /\ exists wrapped, wrap_account_key draw (enr_ephemeral_pub row) (sk_to_bytes key) = Ok wrapped /\
    enrollments (Tables.accounts db') = <[id := approved_row wrapped device row]> (enrollments (Tables.accounts db)).
Proof.
  intros Hrel Hwire Hread Hr Hu [user Hus] Hs Hp Hl Hsig Hdev Hkey. unfold approve_device_enrollment. rewrite Hdev.
  unfold approvable, read. rewrite !Hread, Hr. cbn [rbind ok_or]. rewrite Hs, bool_decide_eq_true_2, Hp by done. cbn [negb].
  rewrite (proj2 (code_eq_exact _ _)) by done. cbn [negb]. rewrite Hu, Hkey. cbv zeta.
  destruct (wrap_account_key_total draw (enr_ephemeral_pub row) (sk_to_bytes key) Hl (sk_to_bytes_length _)) as [w ->]. cbn [rbind].
  rewrite Hus. cbn [ok_or rbind]. unfold ds_post_ok at 1. rewrite Hsig.
  set (m := AccountRoutes.apply_approve_enrollment _ _ _).
  assert (run_sql m db = (set_enrollments <[id := approved_row w device row]> db, Ok Applied)) as Hrun.
  { subst m. unfold AccountRoutes.apply_approve_enrollment, as_actor, resolve_actor, run_sql. cbn [AccountRoutes.ae_user_id AccountRoutes.ae_wrapped_account_key].
    rewrite b64_decode_encode. unfold bind, decoded. rewrite run_update by done. cbn [AccountRoutes.ae_request_id].
    unfold AccountRoutes.update_enrollment. rewrite Hr, bool_decide_eq_true_2 by done. done. }
  unfold post at 1. rewrite Hrun. destruct (rm_wire rm 0); [|done|].
  - cbn [map_err]. split; [done|]. exists w. split; [done|]. by rewrite (proj2 (proj2 (with_event_frame _ _ _ _ _ _ (record_event_exact _ _ _ _ _)))).
  - split; [done|]. by exists w.
Qed.

(** C38: an approval needs everything it says.  A device approves a request only if the request
    is pending and not past its time, the code given is the one in the row, the device holds
    the account key of the row's user and the service takes its request for that user's; then
    exactly that row of the whole database becomes approved, with the account key wrapped for
    the row's key in it, and a security event for it is added, if it could be recorded.  Any
    error leaves the database untouched, unless the answer of the service was lost: then the
    database is untouched or that row, under the same conditions, is approved.  With a service
    that works and answers these conditions are enough. *)
Theorem approve_exact (fails : nat -> bool) (rm : Remote) (draw : ApproveDraw) (id code : string) (d : Device) (db : MsgDb) :
  let '(d', db', r) := approve_device_enrollment fails rm draw id code d db in
  match r with
  | Err _ => db' = db \/ rm_wire rm 0 = AnswerLost /\ exists row device, approval fails rm draw id code d db row device db'
  | Ok _ => exists row device db1, approval fails rm draw id code d db row device db1 /\ approval_event rm row device db1 db'
  end /\
  (reliable (rm_sql rm) -> rm_wire rm 0 = Answered -> (forall n, rm_read_fails rm n = false) ->
   forall row key device,
     enrollments (Tables.accounts db) !! id = Some row -> is_Some (users db !! enr_user_id row) ->
     enr_status row = "pending" -> past rm (enr_expires_at row) = false -> enr_verification_code row = code ->
     length (enr_ephemeral_pub row) = 32 -> rm_signer rm = Some (enr_user_id row) -> cl_device_id (dv_client d) = Some device ->
     load_account_id_key fails (enr_user_id row) (dv_client d) = (dv_client d, Ok key) -> r = Ok tt).
Proof.
  destruct (approve_device_enrollment _ _ _ _ _ _ _) as [[d' db'] r] eqn:E. split; [by apply approve_inv in E|].
  intros Hrel Hwire Hread row key device Hr Hus Hs Hp <- Hl Hsig Hdev Hkey.
  pose proof (approve_succeeds fails rm draw id row key _ device d db Hrel ltac:(by rewrite Hwire) Hread Hr eq_refl Hus Hs Hp Hl Hsig Hdev Hkey) as Hok.
  rewrite E in Hok. by apply Hok.
Qed.

(** ** From one device to the other *)

Lemma poll_approved rm db_key id row w priv key (d : Device) db :
  rm_read_fails rm 0 = false -> enrollments (Tables.accounts db) !! id = Some row -> past rm (enr_expires_at row) = false ->
  enr_status row = "approved" -> enr_wrapped_account_key row = Some w -> dv_keys d !! id = Some priv ->
  unwrap_account_key w priv = Ok key ->
  poll_enrollment_status rm db_key id d db = (install db_key (enr_user_id row) key (forget id d), Ok Approved).
Proof.
  intros Hread Hr Hp Hs Hw Hk Hu. unfold poll_enrollment_status, read. rewrite Hread, Hr, Hp, Hs. cbn [bool_decide].
  rewrite !bool_decide_eq_false_2, bool_decide_eq_true_2 by done. by rewrite Hw, Hk, Hu.
Qed.

(** The row a request writes. *)
Definition request_row (rm : Remote) (draw : RequestDraw) (u device : string) : EnrollmentRow :=
  mkEnrollment u device (x25519_public (rd_private draw)) (verification_code_of (rd_code draw)) None "pending"
    (to_rfc3339 (rm_now rm)) (to_rfc3339 (rm_now rm + ENROLLMENT_TTL_SECS * 10 ^ 9)) None.

Lemma start_succeeds rm draw u device token user_id (d : Device) db :
  reliable (rm_sql rm) -> rm_wire rm 0 = Answered -> cl_device_id (dv_client d) = Some device -> dv_session d = Some token ->
  rm_session rm token = Some (u, device) -> is_Some (users db !! u) -> enrollments (Tables.accounts db) !! rd_request_id draw = None ->
  start_device_enrollment rm draw user_id d db =
    (on_keys <[rd_request_id draw := rd_private draw]> d,
     set_enrollments <[rd_request_id draw := request_row rm draw u device]> db,
     Ok (mkHandle (rd_request_id draw) (verification_code_of (rd_code draw)) (to_rfc3339 (rm_now rm + ENROLLMENT_TTL_SECS * 10 ^ 9)))).
Proof.
  intros Hrel Hwire Hdev Htok Hses Hus Hfresh. unfold start_device_enrollment, post. rewrite Hdev, Htok, Hses, Hwire.
  unfold AccountRoutes.apply_enrollment_request, run_sql. rewrite run_write by done. unfold is_user_row.
  destruct Hus as [r Hus]. rewrite Hus. unfold fk_holds. rewrite orb_true_r. unfold insert_new. rewrite Hfresh. done.
Qed.

Lemma not_past `{!Rfc3339Laws} rm rm0 : (0 <= rm_now rm0)%Z -> (rm_now rm0 + ENROLLMENT_TTL_SECS * 10 ^ 9 < 253402300800 * 10 ^ 9)%Z ->
  (rm_now rm <= rm_now rm0 + ENROLLMENT_TTL_SECS * 10 ^ 9)%Z ->
  past rm (to_rfc3339 (rm_now rm0 + ENROLLMENT_TTL_SECS * 10 ^ 9)) = false.
Proof. intros ???. unfold past. rewrite rfc3339_roundtrip; unfold ENROLLMENT_TTL_SECS in *; lia. Qed.

(** C37: enrolment hands over the account key.  If a new device of [u], signed in, asks for
    enrolment, an enrolled device that holds [u]'s account key approves with the code the new
    device shows, and the new device polls, all within ten minutes and with a service that
    works, then the request and the approval succeed and the new device ends up unlocked as
    [u] with the very same account key, having forgotten the key of the exchange; also when the
    answer to the approval is lost, which the approving device then reports as an error. *)
Theorem enrollment_roundtrip `{!Rfc3339Laws} (fails : nat -> bool) (rm1 rm2 rm3 : Remote) (rdraw : RequestDraw) (adraw : ApproveDraw)
    (u device token approver : string) (key : SigningKey) (fresh : bytes) (new old : Device) (db : MsgDb) :
  reliable (rm_sql rm1) -> reliable (rm_sql rm2) -> rm_wire rm1 0 = Answered -> rm_wire rm2 0 <> Unsent -> (forall n, rm_read_fails rm2 n = false) -> rm_read_fails rm3 0 = false ->
  (0 <= rm_now rm1)%Z -> (rm_now rm1 + ENROLLMENT_TTL_SECS * 10 ^ 9 < 253402300800 * 10 ^ 9)%Z ->
  (rm_now rm2 <= rm_now rm1 + ENROLLMENT_TTL_SECS * 10 ^ 9)%Z -> (rm_now rm3 <= rm_now rm1 + ENROLLMENT_TTL_SECS * 10 ^ 9)%Z ->
  is_Some (users db !! u) -> enrollments (Tables.accounts db) !! rd_request_id rdraw = None ->
  length (rd_private rdraw) = 32 -> length (ad_nonce adraw) = AES_NONCE_LEN ->
  cl_device_id (dv_client new) = Some device -> dv_session new = Some token -> rm_session rm1 token = Some (u, device) ->
  cl_device_id (dv_client old) = Some approver -> rm_signer rm2 = Some u ->
  load_account_id_key fails u (dv_client old) = (dv_client old, Ok key) ->
  exists h new1 db1,
    start_device_enrollment rm1 rdraw u new db = (new1, db1, Ok h) /\
    let '(_, db2, r2) := approve_device_enrollment fails rm2 adraw (eh_request_id h) (eh_verification_code h) old db1 in
    (rm_wire rm2 0 = Answered -> r2 = Ok tt) /\
    let '(new2, r3) := poll_enrollment_status rm3 fresh (eh_request_id h) new1 db2 in
    r3 = Ok Approved /\ cl_unlock (dv_client new2) = Some (mkUnlock u fresh (sk_to_bytes key)) /\
    dv_keys new2 !! eh_request_id h = None.
Proof.
  intros Hrel1 Hrel2 Hw1 Hw2 Hread2 Hread3 T0 T1 T2 T3 Hus Hfresh Hpriv Hnonce Hdev Htok Hses Happ Hsig Hkey.
  do 3 eexists. split; [by eapply start_succeeds|]. cbn [eh_request_id eh_verification_code].
  set (id := rd_request_id rdraw). set (row := request_row rm1 rdraw u device).
  set (db1 := set_enrollments <[id := row]> db). set (new1 := on_keys <[id := rd_private rdraw]> new).
  pose proof (not_past rm2 rm1 T0 T1 T2) as Hp2. pose proof (not_past rm3 rm1 T0 T1 T3) as Hp3.
  assert (enrollments (Tables.accounts db1) !! id = Some row) as Hrow by apply lookup_insert_eq.
  pose proof (approve_succeeds fails rm2 adraw id row key u approver old db1 Hrel2 Hw2 Hread2 Hrow eq_refl Hus eq_refl Hp2
    (x25519_public_length _) Hsig Happ Hkey) as Hok.
  change (verification_code_of (rd_code rdraw)) with (enr_verification_code row).
  destruct (approve_device_enrollment _ _ _ _ _ _ _) as [[old' db2] r2] eqn:Ea. destruct Hok as (Hok & w & Hw & He). split; [done|].
  rewrite (poll_approved rm3 fresh id (approved_row w approver row) w (rd_private rdraw) (sk_to_bytes key) new1 db2);
    [| done | rewrite He; apply lookup_insert_eq | exact Hp3 | done | done | apply lookup_insert_eq
     | by eapply unwrap_wrapped; eauto using sk_to_bytes_length].
  split_and!; [done|done|]. cbn. apply lookup_delete_eq.
Qed.

(** ** What the codes do not ensure *)

Definition with_ephemeral (pub : bytes) (r : EnrollmentRow) : EnrollmentRow :=
  mkEnrollment (enr_user_id r) (enr_new_device_id r) pub (enr_verification_code r) (enr_wrapped_account_key r) (enr_status r)
    (enr_created_at r) (enr_expires_at r) (enr_approved_by r).

(** The codes do not authenticate the exchange.  If a request's row holds another key than
    the new device's, with its code as it was, the approval of a user who compared the codes
    succeeds, and whoever has the private half of that key reads the account key from the row.
    In the other direction, a new device installs any 32-byte key that was wrapped for the
    public key in its row, from whoever wrapped it. *)
Theorem exchange_unauthenticated (fails : nat -> bool) (rm : Remote) (draw : ApproveDraw) (id device : string)
    (row : EnrollmentRow) (key : SigningKey) (mallory : bytes) (d : Device) (db : MsgDb) :
  reliable (rm_sql rm) -> rm_wire rm 0 = Answered -> (forall n, rm_read_fails rm n = false) -> length mallory = 32 -> length (ad_nonce draw) = AES_NONCE_LEN ->
  enrollments (Tables.accounts db) !! id = Some (with_ephemeral (x25519_public mallory) row) -> is_Some (users db !! enr_user_id row) ->
  enr_status row = "pending" -> past rm (enr_expires_at row) = false -> rm_signer rm = Some (enr_user_id row) ->
  cl_device_id (dv_client d) = Some device -> load_account_id_key fails (enr_user_id row) (dv_client d) = (dv_client d, Ok key) ->
  (let '(_, db', r) := approve_device_enrollment fails rm draw id (enr_verification_code row) d db in
   r = Ok tt /\ exists row' w, enrollments (Tables.accounts db') !! id = Some row' /\ enr_wrapped_account_key row' = Some w /\
     unwrap_account_key w mallory = Ok (sk_to_bytes key)) /\
  (forall (new : Device) priv forged fresh wrapped, length priv = 32 -> length forged = 32 -> dv_keys new !! id = Some priv ->
     wrap_account_key draw (x25519_public priv) forged = Ok wrapped ->
     let served := set_enrollments <[id := approved_row wrapped device row]> db in
     poll_enrollment_status rm fresh id new served = (install fresh (enr_user_id row) forged (forget id new), Ok Approved)).
Proof.
  intros Hrel Hwire Hread Hm Hn Hr Hus Hs Hp Hsig Hdev Hkey. split.
  - pose proof (approve_succeeds fails rm draw id _ key (enr_user_id row) device d db Hrel ltac:(by rewrite Hwire) Hread Hr eq_refl Hus Hs Hp
      (x25519_public_length _) Hsig Hdev Hkey) as Hok. cbn [enr_verification_code with_ephemeral] in Hok.
    destruct (approve_device_enrollment _ _ _ _ _ _ _) as [[d' db'] r] eqn:Ea. destruct Hok as (Hok & w & Hw & He). split; [by apply Hok|].
    do 2 eexists. rewrite He. split_and!; [apply lookup_insert_eq|done|]. by eapply unwrap_wrapped; eauto using sk_to_bytes_length.
  - intros new priv forged fresh wrapped Hpriv Hf Hk Hw. cbv zeta.
    refine (poll_approved rm fresh id (approved_row wrapped device row) wrapped priv forged new _ (Hread 0) (lookup_insert_eq _ _ _) Hp
      eq_refl eq_refl Hk _). by eapply unwrap_wrapped.
Qed.

(** ** Recovery with the Secret Key *)

Lemma fresh_identity (draw : IdentityDraw) display m : length (dw_secret draw) = SECRET_KEY_BODY_CHARS ->
  wrap_fresh_identity draw = Ok (display, m) ->
  display = generate_secret_key_string (dw_secret draw) /\ am_account_id_pub m = vk_to_bytes (verifying_key (dw_signing_key draw)) /\
  am_salt m = dw_salt draw /\ am_nonce m = dw_nonce draw /\
  aes_encrypt (derive_wrap_key (of_bytes (map secret_char (dw_secret draw))) (dw_salt draw)) (dw_nonce draw)
    (sk_to_bytes (dw_signing_key draw)) = Some (am_wrapped_key m).
Proof.
  intros Hl. unfold wrap_fresh_identity. rewrite (normalize_spells _ _ Hl (spells_generated _ ltac:(rewrite Hl; cbv; lia))). cbn [rbind].
  destruct (aes_encrypt _ _ _) as [w|] eqn:Ew; cbn [ok_or rbind]; [|done]. intros [= <- <-]. done.
Qed.

(** A fresh identity is always made. *)
Lemma fresh_identity_total (draw : IdentityDraw) : length (dw_secret draw) = SECRET_KEY_BODY_CHARS ->
  exists m, wrap_fresh_identity draw = Ok (generate_secret_key_string (dw_secret draw), m).
Proof.
  intros Hl. unfold wrap_fresh_identity. rewrite (normalize_spells _ _ Hl (spells_generated _ ltac:(rewrite Hl; cbv; lia))). cbn [rbind].
  edestruct aes_total as [w ->]; [apply (sk_to_bytes_length (dw_signing_key draw))|]. by eexists.
Qed.

Lemma recover_blob rm fresh u v typed display m (draw : IdentityDraw) (d : Device) db :
  length (dw_secret draw) = SECRET_KEY_BODY_CHARS -> length (dw_nonce draw) = NONCE_LEN -> rm_read_fails rm 0 = false ->
  wrap_fresh_identity draw = Ok (display, m) -> spells typed display ->
  recovery (Tables.accounts db) !! u = Some (mkRecovery v (am_salt m) (am_nonce m) (am_wrapped_key m)) ->
  recover_with_secret_key rm fresh u typed d db = (install fresh u (sk_to_bytes (dw_signing_key draw)) d, Ok tt).
Proof.
  intros Hl Hn Hread Hw Hs Hr. apply (fresh_identity _ _ _ Hl) in Hw as (-> & _ & Es & En & Hw). rewrite Es, En in Hr.
  unfold recover_with_secret_key, read. rewrite Hread. cbn [rbind]. rewrite Hr. cbn [ok_or rbind rec_salt rec_nonce rec_wrapped_key].
  unfold unwrap_recovery_blob. rewrite (normalize_spells _ _ Hl Hs). cbn [rbind]. rewrite Hn, Nat.eqb_refl. cbn [negb].
  rewrite (aes_roundtrip _ _ _ _ Hw). cbn [ok_or rbind]. by rewrite (sk_to_bytes_length (dw_signing_key draw)).
Qed.

Lemma pub_matches (draw : IdentityDraw) :
  account_id_pub_matches (sk_to_bytes (dw_signing_key draw)) (vk_to_bytes (verifying_key (dw_signing_key draw))) = true.
Proof.
  unfold account_id_pub_matches, ED25519_PRIVATE_LEN. rewrite sk_to_bytes_length, sk_from_to_bytes. cbn [Nat.eqb andb].
  by apply bool_decide_eq_true.
Qed.

Lemma wp_rotate_blob env u based pub salt nonce wrapped db :
  wp (AccountRoutes.apply_rotate_identity env (Some u)
        (AccountRoutes.mkRotateIdentity based (b64_encode pub) (b64_encode salt) (b64_encode nonce) (b64_encode wrapped) None)) db
    (fun r db' => forall v, r = Ok (AccountRoutes.RotateApplied v) ->
       recovery (Tables.accounts db') !! u = Some (mkRecovery v salt nonce wrapped) /\
       forall row, users db !! u = Some row -> users db' !! u = Some (AccountRoutes.set_identity pub v row)).
Proof.
  unfold AccountRoutes.apply_rotate_identity. cbn [resolve_actor AccountRoutes.ri_user_id AccountRoutes.ri_account_id_pub
    AccountRoutes.ri_salt AccountRoutes.ri_nonce AccountRoutes.ri_wrapped_key AccountRoutes.ri_based_on_version].
  rewrite !b64_decode_encode. do 8 (wp_step; [done..|]). simplify_eq. cbv zeta. wp_step; [done|]. wp_step; wp_step; [done|].
  match goal with H : AccountRoutes.cas_append _ _ _ _ _ = Some _ |- _ => unfold AccountRoutes.cas_append in H;
    destruct (_ && _) in H; injection H as <- <- end; cbn [Nat.eqb]; repeat wp_step; try done. simplify_eq.
  match goal with H : AccountRoutes.put_recovery _ _ _ _ = Some _ |- _ => unfold AccountRoutes.put_recovery in H;
    destruct (fk_holds _ _) in H; [injection H as <-|done] end.
  intros v [= <-]. split; [apply lookup_insert_eq|]. intros row Hr. cbn. by rewrite lookup_alter_eq, Hr.
Qed.

Lemma wp_establish_blob env u pub salt nonce wrapped db :
  wp (AccountRoutes.apply_establish_identity env u pub salt nonce wrapped) db
    (fun r db' => r = Ok AccountRoutes.EstablishApplied ->
       recovery (Tables.accounts db') !! u = Some (mkRecovery 1 salt nonce wrapped) /\
       exists row, users db' !! u = Some row /\ prf_account_id_pub row = Some pub).
Proof.
  unfold AccountRoutes.apply_establish_identity. wp_step; [done|]. wp_step; wp_step; [done|].
  match goal with H : AccountRoutes.claim_identity _ _ _ = Some _ |- _ => unfold AccountRoutes.claim_identity in H;
    destruct (users db !! u) as [r|] eqn:Eu; [destruct (prf_account_id_pub r) eqn:Ep|]; simplify_eq end; cbn [Nat.eqb]; repeat wp_step; try done.
  match goal with H : (if _ then None else Some _) = Some _ |- _ => destruct (AccountRoutes.has_version _ _ _) in H; [done|injection H as <-] end.
  match goal with H : match _ with Some _ => None | None => _ end = Some _ |- _ => destruct (recovery _ !! u) in H; [done|];
    unfold AccountRoutes.put_recovery in H; destruct (fk_holds _ _) in H; [injection H as <-|done] end.
  intros _. split; [apply lookup_insert_eq|]. eexists. split; [apply lookup_insert_eq|done].
Qed.

(** The published key of [u] is the public half of [key]. *)
Definition publishes (db : MsgDb) (u : string) (key : SigningKey) : Prop :=
  exists row pub, users db !! u = Some row /\ prf_account_id_pub row = Some pub /\ account_id_pub_matches (sk_to_bytes key) pub = true.

(** The Secret Key brings the account key back.  Whether the identity was made at sign-up
    and established at the service, or by a reset the service applied, any device that later
    types the Secret Key shown then, in any spacing, letter case and grouping, ends up unlocked
    as that user with exactly the account key that was made, the one whose public half the
    service publishes.  Making the identity itself never fails. *)
Theorem recovery_roundtrip (draw : IdentityDraw) (u typed : string) (fresh : bytes) (rm' : Remote) (d2 : Device) :
  length (dw_secret draw) = SECRET_KEY_BODY_CHARS -> length (dw_nonce draw) = NONCE_LEN -> rm_read_fails rm' 0 = false ->
  spells typed (generate_secret_key_string (dw_secret draw)) ->
  let recovered db' := recover_with_secret_key rm' fresh u typed d2 db' = (install fresh u (sk_to_bytes (dw_signing_key draw)) d2, Ok tt) /\
                       publishes db' u (dw_signing_key draw) in
  (forall c, exists c' m,
     generate_account_identity_material draw u c = (c', Ok (generate_secret_key_string (dw_secret draw), m)) /\
     cl_unlock c' = Some (mkUnlock u (dw_db_key draw) (sk_to_bytes (dw_signing_key draw))) /\
     forall env db db', run_sql (AccountRoutes.apply_establish_identity env u (am_account_id_pub m) (am_salt m) (am_nonce m) (am_wrapped_key m)) db
                        = (db', Ok AccountRoutes.EstablishApplied) -> recovered db') /\
  (forall rm d db d' db' effects display, signed_or_session rm d = Some u ->
     reset_identity rm draw u d db = (d', db', effects, Ok display) ->
     display = generate_secret_key_string (dw_secret draw) /\ recovered db' /\
     cl_unlock (dv_client d') = Some (mkUnlock u (dw_db_key draw) (sk_to_bytes (dw_signing_key draw)))).
Proof.
  intros Hl Hn Hread Hs recovered. destruct (fresh_identity_total draw Hl) as [m Hm].
  pose proof (fresh_identity _ _ _ Hl Hm) as (_ & Ep & _). split.
  - intros c. unfold generate_account_identity_material. rewrite Hm. do 2 eexists. split_and!; [done|done|].
    intros env db db' Hrun. pose proof (run_of_wp _ _ _ (wp_establish_blob env u (am_account_id_pub m) (am_salt m) (am_nonce m) (am_wrapped_key m) db)) as Hw.
    rewrite Hrun in Hw. destruct (Hw eq_refl) as (Hr & row & Hu & Hp). split; [by eapply recover_blob|].
    exists row, (am_account_id_pub m). split_and!; [done|done|]. rewrite Ep. apply pub_matches.
  - intros rm d db d' db' effects display Hsig. unfold reset_identity. rewrite Hm, Hsig.
    unfold read. destruct (rm_read_fails rm 0); cbn [rbind]; [done|]. destruct (users db !! u) as [user|] eqn:Eu; cbn [ok_or rbind]; [|done].
    set (prog := AccountRoutes.apply_rotate_identity _ _ _).
    pose proof (post_of_wp rm 0 _ _ _ (wp_rotate_blob (rm_sql rm) u (prf_identity_version user) (am_account_id_pub m) (am_salt m) (am_nonce m)
      (am_wrapped_key m) db)) as Hw. fold prog in Hw.
    destruct (post rm 0 prog db) as [db1 [[v| |]|e]] eqn:Epost; try done. intros [= <- <- <- <-]. destruct (Hw v eq_refl) as [Hr Hu].
    destruct (with_event_frame _ _ _ _ _ _ (record_event_exact rm "identity_reset" None (Some (fmt ["new_identity_version="; pretty v])) db1)) as (Fu & Fr & _).
    split_and!; [done| |done]. split; [eapply recover_blob; eauto; by rewrite Fr|].
    exists (AccountRoutes.set_identity (am_account_id_pub m) v user), (am_account_id_pub m). rewrite Fu. split_and!; [by apply Hu|done|].
    rewrite Ep. apply pub_matches.
Qed.
End Transfer.

(** ** Finishing *)

Lemma elem_of_group_ids db u g : g ∈ fetch_user_group_ids db u <-> is_Some (group_members db !! (g, u)) /\ is_Some (groups db !! g).
Proof.
  unfold fetch_user_group_ids. rewrite list_elem_of_omap. split.
  - intros ([[g' u'] role] & Hin%elem_of_map_to_list & Hs). destruct (bool_decide _ && bool_decide _) eqn:E; [|done].
    injection Hs as ->. apply andb_true_iff in E as [->%bool_decide_eq_true ?%bool_decide_eq_true]. split; [by eexists|done].
  - intros [[role Hm] Hg]. exists ((g, u), role). rewrite !bool_decide_eq_true_2 by done. split; [by apply elem_of_map_to_list|done].
Qed.

Lemma elem_of_dm_ids db u c : c ∈ fetch_user_dm_ids db u <-> is_Some (dm_members db !! (c, u)) /\ is_Some (dm_channels db !! c).
Proof.
  unfold fetch_user_dm_ids. rewrite list_elem_of_omap. split.
  - intros ([[c' u'] row] & Hin%elem_of_map_to_list & Hs). destruct (bool_decide _ && bool_decide _) eqn:E; [|done].
    injection Hs as ->. apply andb_true_iff in E as [->%bool_decide_eq_true ?%bool_decide_eq_true]. split; [by eexists|done].
  - intros [[row Hm] Hg]. exists ((c, u), row). rewrite !bool_decide_eq_true_2 by done. split; [by apply elem_of_map_to_list|done].
Qed.

(** A device that finishes its enrolment asks to join exactly the groups and DMs of its user it
    has no local state of; with no local database open, all of them. *)
Theorem finalize_joins (rm : Remote) (local : string -> bool) (u device conv : string) (d : Device) (db : MsgDb) :
  cl_device_id (dv_client d) = Some device -> rm_read_fails rm 0 = false ->
  ExternalJoin conv u ∈ (finalize_enrollment rm local u d db).1 <->
  (is_Some (group_members db !! (conv, u)) /\ is_Some (groups db !! conv) \/
   is_Some (dm_members db !! (conv, u)) /\ is_Some (dm_channels db !! conv)) /\
  (is_Some (cl_local_db (dv_client d)) -> local conv = false).
Proof.
  intros Hd Hr. unfold finalize_enrollment, read. rewrite Hd, Hr. cbn [fst]. rewrite elem_of_app, list_elem_of_In, (list_elem_of_In (map _ _)), in_map_iff.
  rewrite <- elem_of_group_ids, <- elem_of_dm_ids, <- elem_of_app. split.
  - intros [[?|[?|[]]]|(c & [= ->] & Hin)]; [done|done|]. apply filter_In in Hin as [Hin Hn]. split; [by apply list_elem_of_In|].
    intros Ho. rewrite bool_decide_eq_true_2 in Hn by done. by apply negb_true_iff in Hn.
  - intros [Hin Hn]. right. exists conv. split; [done|]. apply filter_In. split; [by apply list_elem_of_In|].
    case_bool_decide as Ho; [|done]. by rewrite Hn.
Qed.

(** ** At concrete inputs *)

Section Witnesses.

Definition resize32 (b : bytes) : bytes := take 32 (b ++ replicate 32 x00).

Definition clear_tag (key nonce pt : bytes) : bytes := take 16 (Fips180.digest (key ++ nonce ++ pt)).

#[local] Instance clear_keys : KeyCrypto := {|
  hkdf salt ikm info := Fips180.digest (default [] salt ++ ikm ++ info);
  aes_encrypt key nonce pt := Some (pt ++ clear_tag key nonce pt);
  aes_decrypt key nonce ct :=
    let pt := take (length ct - 16) ct in if bool_decide (ct = pt ++ clear_tag key nonce pt) then Some pt else None;
  x25519_public := resize32;
  diffie_hellman a b := zip_with (fun x y => byte_of_N (N.lxor (N_of_byte x) (N_of_byte y))) (resize32 a) b
|}.

#[local] Instance clear_keys_laws : KeyCryptoLaws.
Proof.
  assert (forall k n p, length (clear_tag k n p) = 16) as Ht.
  { intros k n p. unfold clear_tag. by rewrite length_take, Fips180.digest_length. }
  constructor.
  - intros key nonce pt ct [= <-]. cbn [aes_decrypt clear_keys]. rewrite length_app, Ht, Nat.add_sub, take_app_length.
    by rewrite bool_decide_eq_true_2.
  - intros key nonce pt ct [= <-]. by rewrite length_app, Ht.
  - intros key nonce pt _. by eexists.
  - intros priv. cbn. unfold resize32. rewrite length_take, length_app, length_replicate. lia.
  - intros a b. cbn [diffie_hellman x25519_public clear_keys]. generalize (resize32 b). induction (resize32 a) as [|x l IH]; intros [|y k]; cbn; [done..|].
    by rewrite N.lxor_comm, IH.
Qed.

#[local] Instance clear_sk_bytes : SigningKeyBytes := {|
  sk_from_bytes b := default (ClearSig.repeat_seed x00) (ClearSig.of_seed_bytes b);
  sk_to_bytes := ClearSig.seed_bytes
|}.

#[local] Instance clear_sk_bytes_laws : SigningKeyBytesLaws.
Proof.
  assert (forall sk, ClearSig.of_seed_bytes (ClearSig.seed_bytes sk) = Some sk) as Hof
    by exact (vk_from_to_bytes (H := clear_ed25519)).
  constructor; cbn.
  - apply ClearSig.seed_length.
  - intros b Hb. specialize (Hof (ClearSig.Seed b (proj2 (Nat.eqb_eq _ _) Hb))). cbn in Hof. by rewrite Hof.
  - intros sk. by rewrite Hof.
Qed.

#[local] Instance ascii_uppercase : Uppercase := {| to_uppercase s := of_bytes (map ascii_upper (as_bytes s)) |}.

#[local] Instance ascii_uppercase_laws : UppercaseLaws.
Proof. by constructor. Qed.

#[local] Instance same_lowercase : Lowercase := {| to_lowercase s := s |}.

#[local] Existing Instance clear_base64.

#[local] Instance clear_base64_roundtrip : Base64Laws.
Proof. split. intros b. simpl. by rewrite as_bytes_of_bytes. Qed.

#[local] Instance nine_bytes : Rfc3339 := {|
  to_rfc3339 t := of_bytes (be_bytes 9 (Z.to_N t));
  parse_from_rfc3339 s := Some (Z.of_N (be_value (as_bytes s)))
|}.

#[local] Instance nine_bytes_laws : Rfc3339Laws.
Proof.
  constructor. intros t Ht. cbn [to_rfc3339 parse_from_rfc3339 nine_bytes]. rewrite as_bytes_of_bytes, be_value_bytes, N.mod_small; [|change (2 ^ (8 * N.of_nat 9))%N with 4722366482869645213696%N; lia].
  f_equal. lia.
Qed.

#[local] Definition steady : SqlEnv :=
  mkSqlEnv (fun _ => false) true "2026-01-01 00:00:00" "2025-12-02 00:00:00" (Some 1767225600%N) "01J0" 0.

#[local] Definition down : SqlEnv :=
  mkSqlEnv (fun _ => true) true "2026-01-01 00:00:00" "2025-12-02 00:00:00" (Some 1767225600%N) "01J0" 0.

#[local] Definition remote (now : Z) : Remote :=
  mkRemote steady (fun _ => false) (fun t => if bool_decide (t = "tok") then Some ("alice", "laptop") else None) (Some "alice") steady now (fun _ => Answered).

#[local] Definition alice_db : MsgDb :=
  mkMsgDb {["alice" := mkProfile "alice" None None None "a@x.io" (Some [x01]) 1]} ∅ [] ∅ ∅ ∅ ∅ ∅ ∅ ∅ ∅ ∅ ∅ ∅ ∅
    (mkAccountDb [mkKeyLog "alice" [x01] 1] ∅ [] ∅ ∅ ∅ ∅).

#[local] Definition account_key : SigningKey := ClearSig.repeat_seed x07.

#[local] Definition client (device : string) (u : option UnlockState) : Client :=
  mkClient (mkStore ∅ 0) (mkDisk None ∅) u None ((fun s => (un_user_id s, un_db_key s)) <$> u) None (Some device).

#[local] Definition laptop : Device := mkDevice (client "laptop" None) (Some "tok") None ∅.

#[local] Definition phone : Device := mkDevice (client "phone" (Some (mkUnlock "alice" [x05] (sk_to_bytes account_key)))) None None ∅.

#[local] Definition request : RequestDraw := mkRequestDraw (replicate 32 x09) [x00; x01; xe2; x40] "req".

#[local] Definition reply : ApproveDraw := mkApproveDraw (replicate 32 x0b) (replicate 12 x0c).

(** The code is the number drawn, in six digits. *)
Example code_shown : verification_code_of (rd_code request) = "123456".
Proof. reflexivity. Qed.

#[local] Definition start_ns : Z := 1767225600 * 10 ^ 9.

Lemma enrollment_roundtrip_witness :
  exists h new1 db1,
    start_device_enrollment (remote start_ns) request "alice" laptop alice_db = (new1, db1, Ok h) /\
    let '(_, db2, r2) := approve_device_enrollment (fun _ => false) (remote (start_ns + 1)) reply (eh_request_id h) (eh_verification_code h) phone db1 in
    (rm_wire (remote (start_ns + 1)) 0 = Answered -> r2 = Ok tt) /\
    let '(new2, r3) := poll_enrollment_status (remote (start_ns + 2)) [x0d] (eh_request_id h) new1 db2 in
    r3 = Ok Approved /\ cl_unlock (dv_client new2) = Some (mkUnlock "alice" [x0d] (sk_to_bytes account_key)) /\
    dv_keys new2 !! eh_request_id h = None.
Proof.
  refine (enrollment_roundtrip (fun _ => false) (remote start_ns) (remote (start_ns + 1)) (remote (start_ns + 2)) request reply
    "alice" "laptop" "tok" "phone" account_key [x0d] laptop phone alice_db _ _ _ _ _ _ _ _ _ _ _ _ _ _ _ _ _ _ _ _);
    first [by intros n | by vm_compute | by eexists].
Defined.

#[local] Definition stolen : EnrollmentRow := request_row (remote start_ns) request "alice" "laptop".

#[local] Definition mallory_key : bytes := replicate 32 x66.

#[local] Definition substituted_db : MsgDb :=
  set_enrollments (fun _ => {["req" := with_ephemeral (x25519_public mallory_key) stolen]}) alice_db.

Lemma exchange_unauthenticated_witness :
  let '(_, db', r) := approve_device_enrollment (fun _ => false) (remote (start_ns + 1)) reply "req" (enr_verification_code stolen) phone substituted_db in
  r = Ok tt /\ exists row' w, enrollments (Tables.accounts db') !! "req" = Some row' /\ enr_wrapped_account_key row' = Some w /\
    unwrap_account_key w mallory_key = Ok (sk_to_bytes account_key).
Proof.
  pose proof (exchange_unauthenticated (fun _ => false) (remote (start_ns + 1)) reply "req" "phone" stolen account_key mallory_key phone
    substituted_db) as Hx.
  refine (proj1 (Hx _ _ _ _ _ _ _ _ _ _ _ _)).
  - by intros n.
  - done.
  - by intros n.
  - done.
  - done.
  - apply lookup_singleton_eq.
  - by eexists.
  - done.
  - by vm_compute.
  - done.
  - done.
  - by vm_compute.
Defined.

#[local] Definition fresh : IdentityDraw := mkDraw (ClearSig.repeat_seed x08) (map (fun n => byte_of_N (N.of_nat n)) (seq 0 30)) (replicate 16 x01) (replicate 12 x02) [x03].

(** The key displayed, and a sloppy spelling of it. *)
Example secret_shown : generate_secret_key_string (dw_secret fresh) = "A3-01234-56789-ABCDE-FGHJK-MNPQR-STVWX".
Proof. reflexivity. Qed.

#[local] Definition typed : string := " a3-0123456789 abcde-fghjkmnpqr-stvwx".

Lemma recovery_roundtrip_witness :
  spells typed (generate_secret_key_string (dw_secret fresh)) /\
  forall rm d db d' db' effects display, signed_or_session rm d = Some "alice" ->
    reset_identity rm fresh "alice" d db = (d', db', effects, Ok display) ->
    recover_with_secret_key (remote 0) [x0d] "alice" typed laptop db' = (install [x0d] "alice" (sk_to_bytes (dw_signing_key fresh)) laptop, Ok tt).
Proof.
  assert (spells typed (generate_secret_key_string (dw_secret fresh))) as Hs
    by (split; [by vm_compute|]; exists (as_bytes "0123456789ABCDE-FGHJKMNPQR-STVWX"); split; by vm_compute).
  split; [exact Hs|]. intros rm d db d' db' effects display Hsig Hr.
  exact (proj1 (proj1 (proj2 (proj2 (recovery_roundtrip fresh "alice" typed [x0d] (remote 0) laptop eq_refl eq_refl eq_refl Hs)
    rm d db d' db' effects display Hsig Hr)))).
Defined.

(** The reset in that witness can be applied. *)
Example reset_applies : (reset_identity (remote 0) fresh "alice" phone alice_db).2 = Ok (generate_secret_key_string (dw_secret fresh)).
Proof. vm_compute. reflexivity. Qed.

Lemma approve_exact_witness :
  let db := set_enrollments (fun _ => {["req" := stolen]}) alice_db in
  (approve_device_enrollment (fun _ => false) (remote (start_ns + 1)) reply "req" "123456" phone db).2 = Ok tt.
Proof.
  cbv zeta. pose proof (approve_exact (fun _ => false) (remote (start_ns + 1)) reply "req" "123456" phone
    (set_enrollments (fun _ => {["req" := stolen]}) alice_db)) as Ha.
  destruct (approve_device_enrollment _ _ _ _ _ _ _) as [[d' db'] r]. destruct Ha as [_ Ha].
  refine (Ha _ _ _ stolen account_key "phone" _ _ _ _ _ _ _ _ _);
    first [by intros n | by vm_compute | by eexists].
Defined.

(** ** What the code does that its comments do not say *)

#[local] Definition cut_off (n : nat) (now : Z) : Remote :=
  let rm := remote now in mkRemote (rm_sql rm) (rm_read_fails rm) (rm_session rm) (rm_signer rm) (rm_later rm) now
    (fun k => if k =? n then AnswerLost else Answered).

(** The answer to an approval is lost: the approving device reports an error, and the new device
    is let in. *)
Example lost_approval :
  let db := set_enrollments (fun _ => {["req" := stolen]}) alice_db in
  let '(_, db', r) := approve_device_enrollment (fun _ => false) (cut_off 0 (start_ns + 1)) reply "req" "123456" phone db in
  r = Err (OtherError "DS unreachable") /\ (enr_status <$> enrollments (Tables.accounts db') !! "req") = Some "approved" /\
  security_events (Tables.accounts db') = ∅.
Proof. vm_compute. split_and!; reflexivity. Qed.

(** The answer to a rotation is lost: the account has a new key that this device does not hold,
    and the Secret Key of its recovery blob was never shown. *)
Example lost_rotation :
  let '(d', db', _, r) := reset_identity (cut_off 0 0) fresh "alice" phone alice_db in
  r = Err (OtherError "DS rotate-identity") /\ (AccountRoutes.key_log_head "alice" db' = 2)%Z /\ cl_unlock (dv_client d') = cl_unlock (dv_client phone).
Proof. vm_compute. split_and!; reflexivity. Qed.

(** The rotation goes through and then the cleanup fails: the account's key and recovery blob
    are new, and the Secret Key that opens the blob was never returned. *)
Example failed_cleanup_hides_secret_key :
  let rm := mkRemote steady (fun _ => false) (fun _ => None) (Some "alice") down 0 (fun _ => Answered) in
  let '(_, db', _, r) := reset_identity_and_recover rm fresh "alice" "a@x.io" phone alice_db in
  r = Err (OtherError "DS refused") /\
  AccountRoutes.key_log_head "alice" db' = 2%Z /\
  (rec_wrapped_key <$> recovery (Tables.accounts db') !! "alice") =
    (match wrap_fresh_identity fresh with Ok (_, m) => Some (am_wrapped_key m) | Err _ => None end).
Proof. vm_compute. split_and!; reflexivity. Qed.

(** Without a delivery service, a sign-up whose second statement fails has published a key that
    is in no log and has no recovery blob. *)
Example torn_signup :
  let db := set_accounts (fun _ => no_accounts) (set_users (fun _ => {["bob" := mkProfile "bob" None None None "b@x.io" None 0]}) alice_db) in
  let env := mkSqlEnv (fun n => n =? 1) true "" "" None "01J0" 0 in
  let '(_, db', r) := generate_account_identity env fresh "bob" (client "phone" None) db in
  r = Err (OtherError "remote write") /\ (prf_account_id_pub <$> users db' !! "bob") = Some (Some (replicate 32 x08)) /\
  AccountRoutes.key_log_head "bob" db' = 0%Z /\ recovery (Tables.accounts db') !! "bob" = None.
Proof. vm_compute. split_and!; reflexivity. Qed.

(** A letter outside the alphabet whose code point ends in an alphabet letter's byte is let
    through: [c as u8] keeps the low byte only.  The letter here is U+0141. *)
Example foreign_letter_accepted :
  let body := as_bytes "0123456789ABCDEFGHJKMNPQRSTV" ++ [xc5; x81] in
  normalize_secret_key (of_bytes (as_bytes "A3-" ++ body)) = Ok (of_bytes body).
Proof. vm_compute. reflexivity. Qed.

(** A request with a date the client cannot read never expires. *)
Example unreadable_expiry_never_past (rm : Remote) : forall s, parse_from_rfc3339 s = None -> past rm s = false.
Proof. intros s Hs. unfold past. by rewrite Hs. Qed.
End Witnesses.
