(* ===== verification/Safety.v ===== *)
(** * pollis-core: safety numbers and pinned account keys

    Models [commands/safety.rs]: the fingerprint of an account key, the number two users
    compare, the pins of the keys of contacts, marking a contact verified, and the check of a
    contact's key on the message and the group path.

    SHA-512 is an interface.  The main database answers a query for a user's key however it
    likes each time, as the module's own comment demands: the server is not trusted.  Local
    statements may fail.

    [safety_number_symmetric]: both sides read the same number, and it determines both
    fingerprints.  [verified_sound]: what a contact shown as verified rests on.
    [batch_check_agrees]: the batch check is the single check for every member.
    [change_forgotten]: a change the client notices is not shown as one. *)

From stdpp Require Import base list strings gmap.
From Stdlib Require Import NArith ZArith Lia ZifyNat ZifyN.
From Stdlib Require Import Strings.Byte.
From S2P Require Import Prelude Crypto Tenants Text Vault Transparency Enroll.

Class Sha512 := { sha512 : bytes -> bytes }.

Class Sha512Laws `{Sha512} : Prop := { sha512_length : forall m, length (sha512 m) = 64 }.

(** ** The number *)

Definition FP_ITERATIONS : nat := 5200.
Definition FP_VERSION : N := 0.

(** [{:05}] for [n] below 100,000. *)
Definition five_digits (n : N) : bytes := map (fun d => byte_of_N (48 + n / d mod 10)) [10000; 1000; 100; 10; 1]%N.

(** The [k]-th block of five bytes. *)
Definition block_value (hash : bytes) (k : nat) : N :=
  fold_left (fun v j => N.lor (N.shiftl v 8) (N_of_byte (default x00 (hash !! (k * 5 + j))))) (seq 0 5) 0%N.

Section Number.
Context `{Sha512}.

(** Every further round hashes the last digest and the key. *)
Definition fingerprint (pubkey stable_id : bytes) : string :=
  let hash := Nat.iter (FP_ITERATIONS - 1) (fun hash => sha512 (hash ++ pubkey)) (sha512 (be_bytes 2 FP_VERSION ++ pubkey ++ stable_id)) in
  of_bytes (concat (map (fun k => five_digits (block_value hash k mod 100000)) (seq 0 6))).
End Number.

Definition ordered_pair (a b : string) : string * string := if String.leb a b then (a, b) else (b, a).

Definition combined (my_fp peer_fp : string) : string :=
  let (a, b) := ordered_pair my_fp peer_fp in
  String.concat " " (map of_bytes (chunks 5 (as_bytes (fmt [a; b])))).

(** ** The pins *)

Record ContactPin := mkPin { pin_account_id_pub : bytes; pin_identity_version : Z; pin_verified : Z }.

Inductive VerificationStatus : Type := Unverified | Verified | Changed.

Record SafetyNumberInfo := mkInfo {
  safety_number : string;
  status : VerificationStatus;
  peer_identity_version : Z;
  qr_payload : string
}.

Record PeerVerificationEntry := mkEntry { pe_peer_user_id : string; pe_verified : bool; pe_key_changed : bool }.

(** The row of a user the main database answers with, or why it does not. *)
Definition Server : Type := string -> Result (option (option bytes * option Z)) string.

Record KeyChanged := mkChanged { kc_peer_user_id : string; kc_peer_identity_version : Z }.

(** The table of pins of the open database, none before sign-in. *)
Definition Local : Type := option (gmap string ContactPin).

Section Pins.
Context `{Sha512} `{!Hex}.

(** [read_fails]: whether reading the pin fails, which the code takes for no pin. *)
Definition load_pin (read_fails : bool) (peer : string) (pins : gmap string ContactPin) : option ContactPin :=
  if read_fails then None else pins !! peer.

Definition pin_status (pin : option ContactPin) (peer_pub : bytes) : VerificationStatus :=
  match pin with
  | None => Unverified
  | Some p => if negb (bool_decide (pin_account_id_pub p = peer_pub)) then Changed
              else if negb (pin_verified p =? 0)%Z then Verified else Unverified
  end.

Definition get_safety_number (server : Server) (read_fails : bool) (my_user_id peer_user_id : string) (local : Local) : Result SafetyNumberInfo string :=
  let? mine := fetch_account_key (server my_user_id) my_user_id in
  let? peer := fetch_account_key (server peer_user_id) peer_user_id in
  let number := combined (fingerprint mine.1 (as_bytes my_user_id)) (fingerprint peer.1 (as_bytes peer_user_id)) in
  let (a, b) := ordered_pair (hex_encode mine.1) (hex_encode peer.1) in
  let qr := fmt ["pollis-key:v0:"; a; ":"; b] in
  let? pins := ok_or local "Not signed in" in
  Ok (mkInfo number (pin_status (load_pin read_fails peer_user_id pins) peer.1) peer.2 qr).

Definition entry_of (server : Server) (row : string * ContactPin) : PeerVerificationEntry :=
  let key_changed := match fetch_account_key (server row.1) row.1 with
                     | Ok (p, _) => negb (bool_decide (p = pin_account_id_pub row.2))
                     | Err _ => false
                     end in
  mkEntry row.1 (negb (pin_verified row.2 =? 0)%Z) key_changed.

Definition list_peer_verifications (server : Server) (conn_fails : bool) (local : Local) : Result (list PeerVerificationEntry) string :=
  let? pins := ok_or local "Not signed in" in
  if bool_decide (map_to_list pins = []) then Ok []
  else if conn_fails then Err "remote connection" else Ok (map (entry_of server) (map_to_list pins)).

Definition set_contact_verified (server : Server) (exec_fails : bool) (peer_user_id : string) (verified : bool) (local : Local)
    : Local * Result unit string :=
  match fetch_account_key (server peer_user_id) peer_user_id, local with
  | Err e, _ => (local, Err e)
  | Ok _, None => (local, Err "Not signed in")
  | Ok (peer_pub, peer_version), Some pins =>
      if exec_fails then (local, Err "local write")
      else (Some (<[peer_user_id := mkPin peer_pub peer_version (if verified then 1 else 0)]> pins), Ok tt)
  end.

(** UPDATE: only a row that is there. *)
Definition update_pin (peer : string) (pub : bytes) (version : Z) : gmap string ContactPin -> gmap string ContactPin :=
  alter (fun _ => mkPin pub version 0) peer.

(** INSERT OR IGNORE. *)
Definition insert_pin (peer : string) (pub : bytes) (version : Z) (pins : gmap string ContactPin) : gmap string ContactPin :=
  match pins !! peer with Some _ => pins | None => <[peer := mkPin pub version 0]> pins end.

(** What either check does with a key the server gave: the pins, and whether it changed. *)
Definition pin_key (pin : option ContactPin) (peer : string) (pub : bytes) (version : Z) (pins : gmap string ContactPin)
    : gmap string ContactPin * bool :=
  match pin with
  | Some p => if bool_decide (pin_account_id_pub p = pub) then (pins, false) else (update_pin peer pub version pins, true)
  | None => (insert_pin peer pub version pins, false)
  end.

(** Whether [pin_key] runs a statement, which may fail. *)
Definition writes (pin : option ContactPin) (pub : bytes) : bool :=
  match pin with Some p => negb (bool_decide (pin_account_id_pub p = pub)) | None => true end.

(** [conn_fails]: whether the main database cannot be reached at all; a query that fails is taken
    for a contact without a key.  [channel]: whether a frontend listens. *)
Definition check_and_pin_account_key (server : Server) (conn_fails read_fails exec_fails channel : bool) (peer_user_id : string) (local : Local)
    : Local * list KeyChanged * Result unit string :=
  if conn_fails then (local, [], Err "remote connection")
  else match fetch_account_key (server peer_user_id) peer_user_id with
  | Err _ => (local, [], Ok tt)
  | Ok (peer_pub, peer_version) =>
      match local with
      | None => (local, [], Err "Not signed in")
      | Some pins =>
          let pin := load_pin read_fails peer_user_id pins in
          if writes pin peer_pub && exec_fails then (local, [], Err "local write")
          else
            let (pins, changed) := pin_key pin peer_user_id peer_pub peer_version pins in
            (Some pins, if changed && channel then [mkChanged peer_user_id peer_version] else [], Ok tt)
      end
  end.

(** The keys of one query for many users; a row without a key is skipped. *)
Definition server_keys (server : Server) (peers : list string) : gmap string (bytes * Z) :=
  list_to_map (omap (fun peer => match server peer with Ok (Some (Some pub, v)) => Some (peer, (pub, default 0%Z v)) | _ => None end) peers).

(** The loop over the keys, against the pins read before it; stops at the first statement that
    fails, [n] the statements run. *)
Fixpoint pin_keys (fails : nat -> bool) (n : nat) (existing : gmap string ContactPin) (keys : list (string * (bytes * Z)))
    (pins : gmap string ContactPin) (changed : list KeyChanged) : gmap string ContactPin * list KeyChanged * Result unit string :=
  match keys with
  | [] => (pins, changed, Ok tt)
  | (peer, (pub, version)) :: keys =>
      let pin := existing !! peer in
      if writes pin pub && fails n then (pins, changed, Err "local write")
      else
        let (pins, c) := pin_key pin peer pub version pins in
        pin_keys fails (if writes pin pub then S n else n) existing keys pins
          (if c then changed ++ [mkChanged peer version] else changed)
  end.

(** [query_fails]: the query of the main database; [read_fails]: that of the pins. *)
Definition batch_check_and_pin_account_keys (server : Server) (query_fails read_fails : bool) (fails : nat -> bool) (channel : bool)
    (peers : list string) (local : Local) : Local * list KeyChanged * Result unit string :=
  if bool_decide (peers = []) then (local, [], Ok tt)
  else if query_fails then (local, [], Err "remote query")
  else
    let keys := server_keys server peers in
    if bool_decide (keys = ∅) then (local, [], Ok tt)
    else match local with
         | None => (local, [], Err "Not signed in")
         | Some pins =>
             if read_fails then (local, [], Err "local read")
             else match pin_keys fails 0 pins (map_to_list keys) pins [] with
                  | (pins, changed, Ok _) => (Some pins, if channel then changed else [], Ok tt)
                  | (pins, _, Err e) => (Some pins, [], Err e)
                  end
         end.
End Pins.

(** ** The number determines the fingerprints *)

Lemma ordered_pair_comm a b : ordered_pair a b = ordered_pair b a.
Proof.
  unfold ordered_pair. destruct (String.leb a b) eqn:E1, (String.leb b a) eqn:E2; try done.
  - by rewrite (String.leb_antisym a b E1 E2).
  - destruct (String.leb_total a b); congruence.
Qed.

Lemma ordered_pair_cases a b : ordered_pair a b = (a, b) \/ ordered_pair a b = (b, a).
Proof. unfold ordered_pair. destruct (String.leb a b); auto. Qed.

Definition not_space (b : byte) : bool := negb (bool_decide (b = x20)).

Lemma five_digits_shape n : length (five_digits n) = 5 /\ forallb is_ascii_digit (five_digits n) = true.
Proof.
  split; [done|]. apply forallb_forall. intros x (d & <- & _)%in_map_iff.
  assert (n / d mod 10 < 10)%N as Hd by (apply N.mod_lt; done). set (m := (n / d mod 10)%N) in *. clearbody m.
  unfold is_ascii_digit, in_range. rewrite N_of_byte_of_N, N.mod_small by lia. apply andb_true_iff. split; apply N.leb_le; lia.
Qed.

Lemma digit_not_space x : is_ascii_digit x = true -> not_space x = true.
Proof. by destruct x. Qed.

Lemma join_chunks (fuel n : nat) (b : bytes) : 0 < n -> length b <= fuel -> forallb is_ascii_digit b = true ->
  List.filter not_space (as_bytes (String.concat " " (map of_bytes (chunks_fuel fuel n b)))) = b.
Proof.
  intros Hn. revert b. induction fuel as [|fuel IH]; intros b Hl Hb; [by destruct b; [|simpl in Hl; lia]|].
  destruct b as [|x b]; [done|]. cbn [chunks_fuel map]. specialize (IH (drop n (x :: b))).
  assert (forall c, forallb is_ascii_digit c = true -> List.filter not_space c = c) as Hf.
  { intros c Hc. apply filter_all, forallb_forall. intros y Hy. eapply forallb_forall in Hc; [|done]. by apply digit_not_space. }
  assert (forallb is_ascii_digit (take n (x :: b)) = true /\ forallb is_ascii_digit (drop n (x :: b)) = true) as [Ht Hd].
  { rewrite <- (take_drop n (x :: b)), forallb_app in Hb. by apply andb_true_iff in Hb. }
  assert (length (drop n (x :: b)) <= fuel) as Hlen by (rewrite length_drop; simpl in *; lia). specialize (IH Hlen Hd).
  destruct (chunks_fuel fuel n (drop n (x :: b))) as [|c cs].
  - cbn [map String.concat] in *. rewrite as_bytes_of_bytes, Hf by done. rewrite <- (take_drop n (x :: b)) at 2.
    rewrite <- IH. by rewrite app_nil_r.
  - cbn [map]. change (String.concat " " (of_bytes (take n (x :: b)) :: of_bytes c :: map of_bytes cs)) with
      (String.append (of_bytes (take n (x :: b))) (String.append " " (String.concat " " (of_bytes c :: map of_bytes cs)))).
    cbn [map] in IH. rewrite !as_bytes_append, as_bytes_of_bytes, !List.filter_app, IH, Hf by done. cbn. apply take_drop.
Qed.

Section NumberFacts.
Context `{Sha512}.

Lemma fingerprint_shape k id : length (as_bytes (fingerprint k id)) = 30 /\ forallb is_ascii_digit (as_bytes (fingerprint k id)) = true.
Proof.
  unfold fingerprint. rewrite as_bytes_of_bytes. set (hash := Nat.iter _ _ _). clearbody hash.
  cbn [map seq concat]. rewrite !length_app, !forallb_app. rewrite !(proj1 (five_digits_shape _)), !(proj2 (five_digits_shape _)). done.
Qed.

Lemma combined_digits a b : forallb is_ascii_digit (as_bytes a) = true -> forallb is_ascii_digit (as_bytes b) = true ->
  List.filter not_space (as_bytes (combined a b)) = as_bytes (ordered_pair a b).1 ++ as_bytes (ordered_pair a b).2.
Proof.
  intros Ha Hb. unfold combined. destruct (ordered_pair a b) as [x y] eqn:E.
  assert (forallb is_ascii_digit (as_bytes x ++ as_bytes y) = true) as Hd.
  { destruct (ordered_pair_cases a b) as [E'|E']; rewrite E in E'; injection E' as -> ->; by rewrite forallb_app, Ha, Hb. }
  assert (as_bytes (fmt [x; y]) = as_bytes x ++ as_bytes y) as -> by (unfold fmt; cbn; by rewrite as_bytes_append).
  unfold chunks. apply join_chunks; [lia|done|done].
Qed.

Lemma combined_inj a b c d :
  combined (fingerprint a.1 a.2) (fingerprint b.1 b.2) = combined (fingerprint c.1 c.2) (fingerprint d.1 d.2) ->
  ordered_pair (fingerprint a.1 a.2) (fingerprint b.1 b.2) = ordered_pair (fingerprint c.1 c.2) (fingerprint d.1 d.2).
Proof.
  intros E%(f_equal (fun s => List.filter not_space (as_bytes s))).
  rewrite !combined_digits in E by apply fingerprint_shape.
  assert (forall x y : bytes * bytes, length (as_bytes (ordered_pair (fingerprint x.1 x.2) (fingerprint y.1 y.2)).1) = 30) as Hl.
  { intros x y. destruct (ordered_pair_cases (fingerprint x.1 x.2) (fingerprint y.1 y.2)) as [->| ->]; apply fingerprint_shape. }
  apply app_inj_1 in E as [E1 E2]; [|by rewrite !Hl]. apply as_bytes_inj in E1, E2.
  rewrite (surjective_pairing (ordered_pair (fingerprint a.1 a.2) _)), E1, E2. by destruct (ordered_pair (fingerprint c.1 c.2) _).
Qed.
End NumberFacts.

Section Facts.
Context `{Sha512} `{!Hex}.

Lemma get_inv server rf me peer local i : get_safety_number server rf me peer local = Ok i ->
  exists mine theirs pins, fetch_account_key (server me) me = Ok mine /\ fetch_account_key (server peer) peer = Ok theirs /\ local = Some pins /\
    safety_number i = combined (fingerprint mine.1 (as_bytes me)) (fingerprint theirs.1 (as_bytes peer)) /\
    status i = pin_status (load_pin rf peer pins) theirs.1 /\
    let (a, b) := ordered_pair (hex_encode mine.1) (hex_encode theirs.1) in qr_payload i = fmt ["pollis-key:v0:"; a; ":"; b].
Proof.
  unfold get_safety_number. destruct (fetch_account_key (server me) me) as [mine|]; cbn [rbind]; [|done].
  destruct (fetch_account_key (server peer) peer) as [theirs|]; cbn [rbind]; [|done].
  destruct (ordered_pair _ _) as [a b] eqn:E. destruct local as [pins|]; cbn [ok_or rbind]; [|done]. intros [= <-].
  exists mine, theirs, pins. rewrite E. done.
Qed.

(** The two sides of a conversation see one number.  Given the same keys, both users are
    shown the same safety number and the same code to scan, whoever opens whose profile and
    whatever each has pinned; the number is 60 digits besides the spaces; and two users who
    read the same number have, between them, the same two fingerprints, so no different pair of
    fingerprints passes the comparison. *)
Theorem safety_number_symmetric (server server' : Server) (rf rf' : bool) (me peer : string) (mine theirs : Local) (i j : SafetyNumberInfo) :
  get_safety_number server rf me peer mine = Ok i -> get_safety_number server' rf' peer me theirs = Ok j ->
  (server me = server' me -> server peer = server' peer -> safety_number i = safety_number j /\ qr_payload i = qr_payload j) /\
  length (List.filter not_space (as_bytes (safety_number i))) = 60 /\
  (safety_number i = safety_number j ->
   exists k l k' l', fetch_account_key (server me) me = Ok k /\ fetch_account_key (server peer) peer = Ok l /\
     fetch_account_key (server' me) me = Ok k' /\ fetch_account_key (server' peer) peer = Ok l' /\
     ordered_pair (fingerprint k.1 (as_bytes me)) (fingerprint l.1 (as_bytes peer)) =
     ordered_pair (fingerprint k'.1 (as_bytes me)) (fingerprint l'.1 (as_bytes peer))).
Proof.
  intros (k & l & pins & Hk & Hl & _ & Hi & _ & Hqi)%get_inv (l' & k' & pins' & Hl' & Hk' & _ & Hj & _ & Hqj)%get_inv. split_and!.
  - intros E1 E2. rewrite <- E1, Hk in Hk'. rewrite <- E2, Hl in Hl'. injection Hk' as <-. injection Hl' as <-. split.
    + rewrite Hi, Hj. unfold combined. by rewrite ordered_pair_comm.
    + rewrite ordered_pair_comm in Hqj. destruct (ordered_pair _ _). congruence.
  - rewrite Hi, combined_digits by apply fingerprint_shape. rewrite length_app.
    destruct (ordered_pair_cases (fingerprint k.1 (as_bytes me)) (fingerprint l.1 (as_bytes peer))) as [->| ->]; cbn [fst snd];
      by rewrite !(proj1 (fingerprint_shape _ _)).
  - rewrite Hi, Hj. intros E. exists k, l, k', l'. split_and!; [done..|].
    rewrite (ordered_pair_comm (fingerprint k'.1 _)). exact (combined_inj (k.1, as_bytes me) (l.1, as_bytes peer) (l'.1, as_bytes peer) (k'.1, as_bytes me) E).
Qed.

(** ** The pins over time *)

Inductive Op : Type :=
| MarkContact (server : Server) (exec_fails : bool) (peer : string) (verified : bool)
| CheckKey (server : Server) (conn_fails read_fails exec_fails channel : bool) (peer : string)
| BatchCheck (server : Server) (query_fails read_fails : bool) (fails : nat -> bool) (channel : bool) (peers : list string).

Definition step (local : Local) (op : Op) : Local :=
  match op with
  | MarkContact s ef p v => (set_contact_verified s ef p v local).1
  | CheckKey s cf rf ef ch p => (check_and_pin_account_key s cf rf ef ch p local).1.1
  | BatchCheck s qf rf fs ch ps => (batch_check_and_pin_account_keys s qf rf fs ch ps local).1.1
  end.

(** A signed-in client that has run [ops], from no pins. *)
Definition after (ops : list Op) : Local := fold_left step ops (Some ∅).

(** [op] marked [p] as verified, or not, with the key [k]. *)
Definition marks (p : string) (k : bytes) (verified : bool) (op : Op) : Prop :=
  exists s v, op = MarkContact s false p verified /\ fetch_account_key (s p) p = Ok (k, v).

(** [op] looked at the server's key for [p], all its statements went through, and it saw [k]. *)
Definition observes (p : string) (k : bytes) (op : Op) : Prop :=
  (exists s ch v, op = CheckKey s false false false ch p /\ fetch_account_key (s p) p = Ok (k, v)) \/
  (exists s fs ch ps v, op = BatchCheck s false false fs ch ps /\ (forall n, fs n = false) /\ server_keys s ps !! p = Some (k, v)).

Lemma pin_key_lookup pin peer pub version pins p :
  (pin_key pin peer pub version pins).1 !! p = pins !! p \/ p = peer /\ (pin_key pin peer pub version pins).1 !! p = Some (mkPin pub version 0).
Proof.
  unfold pin_key, update_pin, insert_pin. destruct pin as [r|].
  - case_bool_decide; [by left|]. cbn [fst]. destruct (decide (peer = p)) as [->|Hp]; [|left; by rewrite lookup_alter_ne].
    rewrite lookup_alter_eq. destruct (pins !! p); [by right|by left].
  - cbn [fst]. destruct (pins !! peer) eqn:E; [by left|]. destruct (decide (peer = p)) as [->|Hp]; [right|left; by rewrite lookup_insert_ne].
    by rewrite lookup_insert_eq.
Qed.

(** With the pin read from the table, the key is pinned. *)
Lemma pin_key_own peer pub version pins : exists r, (pin_key (pins !! peer) peer pub version pins).1 !! peer = Some r /\ pin_account_id_pub r = pub.
Proof.
  unfold pin_key, update_pin, insert_pin. destruct (pins !! peer) as [r|] eqn:E.
  - case_bool_decide as Hb; cbn [fst]; [by exists r|]. rewrite lookup_alter_eq, E. by eexists.
  - cbn [fst]. rewrite lookup_insert_eq. by eexists.
Qed.

(** The loop pins a key at [p] only if [p] is among the keys, never as verified, and pins all of
    them if no statement fails. *)
Lemma pin_keys_lookup fails n existing keys pins changed p :
  (pin_keys fails n existing keys pins changed).1.1 !! p = pins !! p \/
  exists k v, (p, (k, v)) ∈ keys /\ (pin_keys fails n existing keys pins changed).1.1 !! p = Some (mkPin k v 0).
Proof.
  revert n pins changed. induction keys as [|[peer [pub version]] keys IH]; intros n pins changed; cbn [pin_keys]; [by left|].
  destruct (_ && _); [by left|]. destruct (pin_key _ _ _ _ _) as [pins1 c] eqn:E.
  pose proof (pin_key_lookup (existing !! peer) peer pub version pins p) as Hl. rewrite E in Hl. cbn [fst] in Hl.
  destruct (IH (if writes (existing !! peer) pub then S n else n) pins1 (if c then changed ++ [mkChanged peer version] else changed))
    as [->|(k & v & Hin & ->)].
  - destruct Hl as [->|[-> ->]]; [by left|]. right. exists pub, version. split; [by left|done].
  - right. exists k, v. split; [by right|done].
Qed.

Lemma pin_keys_pinned fails n existing keys pins changed p k v : (forall n, fails n = false) -> NoDup keys.*1 ->
  (forall q, q ∈ keys.*1 -> existing !! q = pins !! q) -> (p, (k, v)) ∈ keys ->
  exists r, (pin_keys fails n existing keys pins changed).1.1 !! p = Some r /\ pin_account_id_pub r = k.
Proof.
  intros Hf. revert n pins changed. induction keys as [|[peer [pub version]] keys IH]; intros n pins changed Hnd Hex Hin; [by apply elem_of_nil in Hin|].
  cbn [fmap list_fmap fst] in Hnd. apply NoDup_cons in Hnd as [Hni Hnd]. cbn [pin_keys]. rewrite Hf, andb_false_r.
  destruct (pin_key _ _ _ _ _) as [pins1 c] eqn:E. rewrite (Hex peer) in E by (by left).
  pose proof (pin_key_own peer pub version pins) as (r & Hr & Hk). rewrite E in Hr. cbn [fst] in Hr.
  apply elem_of_cons in Hin as [[= -> -> ->]|Hin].
  - destruct (pin_keys_lookup fails (if writes (existing !! peer) pub then S n else n) existing keys pins1
      (if c then changed ++ [mkChanged peer version] else changed) peer) as [->|(k' & v' & Hin' & _)]; [by exists r|].
    exfalso. apply Hni. apply list_elem_of_fmap. by exists (peer, (k', v')).
  - apply IH; [done| |done]. intros q Hq. rewrite (Hex q) by (by right).
    destruct (pin_key_lookup (pins !! peer) peer pub version pins q) as [Hl|[-> _]]; [by rewrite E in Hl|done].
Qed.

Lemma elem_server_keys (s : Server) ps p k v : (p, (k, v)) ∈ map_to_list (server_keys s ps) <-> server_keys s ps !! p = Some (k, v).
Proof. apply elem_of_map_to_list. Qed.

(** One step: a verified row was just marked, or was there before and nothing contradicted it. *)
Lemma step_verified op pins pins' p r : step (Some pins) op = Some pins' -> pins' !! p = Some r -> pin_verified r <> 0%Z ->
  marks p (pin_account_id_pub r) true op \/
  pins !! p = Some r /\ (forall k, observes p k op -> k = pin_account_id_pub r) /\ (forall k b, ~ marks p k b op).
Proof.
  intros Hs Hr Hv. destruct op as [s ef q b|s cf rf ef ch q|s qf rf fs ch ps]; cbn [step] in Hs.
  - unfold set_contact_verified in Hs. destruct (fetch_account_key (s q) q) as [[k v]|e] eqn:Ef.
    + destruct ef; cbn [fst] in Hs; injection Hs as <-.
      * right. split_and!; [done|intros k' [(? & ? & ? & ? & _)|(? & ? & ? & ? & ? & ? & _)]; done|]. intros k' b' (? & ? & ? & _). done.
      * destruct (decide (q = p)) as [->|Hq].
        -- rewrite lookup_insert_eq in Hr. injection Hr as <-. cbn in Hv. destruct b; [|done]. left. by exists s, v.
        -- rewrite lookup_insert_ne in Hr by done. right. split_and!; [done|intros k' [(? & ? & ? & ? & _)|(? & ? & ? & ? & ? & ? & _)]; done|].
           intros k' b' (? & ? & [= -> -> ->] & _). done.
    + injection Hs as <-. right. split_and!; [done|intros k' [(? & ? & ? & ? & _)|(? & ? & ? & ? & ? & ? & _)]; done|].
      intros k' b' (? & ? & [= -> -> -> ->] & E). congruence.
  - right. unfold check_and_pin_account_key in Hs. destruct cf.
    { injection Hs as <-. split_and!; [done|intros k' [(? & ? & ? & ? & _)|(? & ? & ? & ? & ? & ? & _)]; done|intros ? ? (? & ? & ? & _); done]. }
    destruct (fetch_account_key (s q) q) as [[k v]|e] eqn:Ef.
    2: { injection Hs as <-. split_and!; [done| |intros ? ? (? & ? & ? & _); done].
         intros k' [(? & ? & ? & [= -> -> -> -> ->] & E)|(? & ? & ? & ? & ? & ? & _)]; [congruence|done]. }
    destruct (writes _ _ && ef) eqn:Ew; cbn [fst] in Hs.
    { injection Hs as <-. split_and!; [done| |intros ? ? (? & ? & ? & _); done].
      intros k' [(? & ? & ? & [= -> -> -> -> ->] & E)|(? & ? & ? & ? & ? & ? & _)]; [by rewrite andb_false_r in Ew|done]. }
    destruct (pin_key _ _ _ _ _) as [pins1 c] eqn:E. cbn [fst] in Hs. injection Hs as <-.
    pose proof (pin_key_lookup (load_pin rf q pins) q k v pins p) as Hl. rewrite E in Hl. cbn [fst] in Hl. rewrite Hr in Hl.
    destruct Hl as [Hl|[_ [= ->]]]; [|done]. split_and!; [done| |intros ? ? (? & ? & ? & _); done].
    intros k' [(? & ? & ? & [= -> -> -> -> ->] & E')|(? & ? & ? & ? & ? & ? & _)]; [|done].
    pose proof (pin_key_own p k v pins) as (r' & Hr' & Hk). unfold load_pin in E. rewrite E in Hr'. cbn [fst] in Hr'. congruence.
  - right. split_and!.
    + unfold batch_check_and_pin_account_keys in Hs. destruct (bool_decide (ps = [])); [by injection Hs as <-|].
      destruct qf; [by injection Hs as <-|]. destruct (bool_decide (_ = ∅)); [by injection Hs as <-|]. destruct rf; [by injection Hs as <-|].
      pose proof (pin_keys_lookup fs 0 pins (map_to_list (server_keys s ps)) pins [] p) as Hl.
      destruct (pin_keys fs 0 pins (map_to_list (server_keys s ps)) pins []) as [[pins1 c] [[]|e]]; cbn [fst] in *; injection Hs as ->;
        destruct Hl as [Hl|(? & ? & _ & Hl)]; rewrite Hr in Hl; [done|by injection Hl as ->|done|by injection Hl as ->].
    + intros k [(? & ? & ? & ? & _)|(s0 & fs0 & ch0 & ps0 & v & [= <- -> -> <- <- <-] & Hf & Hk)]; [done|].
      assert (ps <> []) as Hps by (by intros ->). assert (server_keys s ps <> ∅) as Hks by (intros E; by rewrite E, lookup_empty in Hk).
      unfold batch_check_and_pin_account_keys in Hs. rewrite !bool_decide_eq_false_2 in Hs by done.
      pose proof (pin_keys_pinned fs 0 pins (map_to_list (server_keys s ps)) pins [] p k v Hf (NoDup_fst_map_to_list _) (fun _ _ => eq_refl)
        (proj2 (elem_server_keys _ _ _ _ _) Hk)) as (r' & Hr' & Hk').
      destruct (pin_keys fs 0 pins (map_to_list (server_keys s ps)) pins []) as [[pins1 c] [[]|e]]; cbn [fst] in *; injection Hs as ->; congruence.
    + intros k b (? & ? & ? & _). done.
Qed.

Lemma step_signed_in pins op : exists pins', step (Some pins) op = Some pins'.
Proof.
  destruct op as [s ef q b|s cf rf ef ch q|s qf rf fs ch ps]; cbn [step].
  - unfold set_contact_verified. destruct (fetch_account_key _ _) as [[k v]|]; [destruct ef|]; by eexists.
  - unfold check_and_pin_account_key. destruct cf; [by eexists|]. destruct (fetch_account_key _ _) as [[k v]|]; [|by eexists].
    destruct (_ && _); [by eexists|]. destruct (pin_key _ _ _ _ _). by eexists.
  - unfold batch_check_and_pin_account_keys. destruct (bool_decide (ps = [])); [by eexists|]. destruct qf; [by eexists|].
    destruct (bool_decide (_ = ∅)); [by eexists|]. destruct rf; [by eexists|].
    destruct (pin_keys _ _ _ _ _ _) as [[pins1 c] [[]|e]]; by eexists.
Qed.

Lemma after_signed_in ops : exists pins, after ops = Some pins.
Proof.
  unfold after. induction ops as [|op ops IH] using rev_ind; [by eexists|]. rewrite fold_left_app. destruct IH as [pins ->]. apply step_signed_in.
Qed.

Lemma verified_marked ops pins p r : after ops = Some pins -> pins !! p = Some r -> pin_verified r <> 0%Z ->
  exists ops1 op ops2, ops = ops1 ++ op :: ops2 /\ marks p (pin_account_id_pub r) true op /\
    Forall (fun o => (forall k', observes p k' o -> k' = pin_account_id_pub r) /\ (forall k' b, ~ marks p k' b o)) ops2.
Proof.
  revert pins. induction ops as [|op ops IH] using rev_ind; intros pins' Ha Hr Hn; [injection Ha as <-; by rewrite lookup_empty in Hr|].
  destruct (after_signed_in ops) as [pins Hp]. unfold after in Ha. rewrite fold_left_app in Ha. fold (after ops) in Ha. rewrite Hp in Ha.
  destruct (step_verified op pins pins' p r Ha Hr Hn) as [Hm|(Hb & Ho & Hm)]; [by exists ops, op, []|].
  destruct (IH pins Hp Hb Hn) as (ops1 & o & ops2 & -> & Hmark & Hall). exists ops1, o, (ops2 ++ [op]).
  split_and!; [by rewrite <- app_assoc|done|]. apply Forall_app. by split; [|constructor].
Qed.

(** C39: what a verified contact rests on.  Whatever the server answered and whichever local
    statements failed, a contact shown as verified was marked so by the user, with exactly the
    key the server now gives pinned from the server's answer at that moment; since then the
    contact was not marked again, and every check of its key that went through, on the message
    path or in a batch, saw that same key. *)
Theorem verified_sound (ops : list Op) (server : Server) (rf : bool) (me p : string) (i : SafetyNumberInfo) :
  get_safety_number server rf me p (after ops) = Ok i -> status i = Verified ->
  exists k v ops1 op ops2, fetch_account_key (server p) p = Ok (k, v) /\ ops = ops1 ++ op :: ops2 /\ marks p k true op /\
    Forall (fun o => (forall k', observes p k' o -> k' = k) /\ (forall k' b, ~ marks p k' b o)) ops2.
Proof.
  intros (mine & [k v] & pins & _ & Hk & Ha & _ & Hs & _)%get_inv Hv. rewrite Hv in Hs. cbn [fst] in *.
  assert (exists r, pins !! p = Some r /\ pin_account_id_pub r = k /\ pin_verified r <> 0%Z) as (r & Hr & Hp & Hn).
  { unfold pin_status, load_pin in Hs. destruct rf; [done|]. destruct (pins !! p) as [r|]; [|done]. exists r.
    case_bool_decide; cbn [negb] in Hs; [|done]. destruct (Z.eqb_spec (pin_verified r) 0); [done|]. done. }
  subst k. exists (pin_account_id_pub r), v. destruct (verified_marked ops pins p r Ha Hr Hn) as (ops1 & op & ops2 & ? & ? & ?).
  by exists ops1, op, ops2.
Qed.

(** ** The batch check *)

(** What checking the keys of [ps] leaves at [p]. *)
Definition checked (s : Server) (ps : list string) (pins : gmap string ContactPin) (p : string) : option ContactPin :=
  match server_keys s ps !! p with
  | None => pins !! p
  | Some (k, v) => match pins !! p with
                   | Some r => if bool_decide (pin_account_id_pub r = k) then Some r else Some (mkPin k v 0)
                   | None => Some (mkPin k v 0)
                   end
  end.

Lemma server_keys_lookup (s : Server) ps p : server_keys s ps !! p =
  if bool_decide (p ∈ ps) then match s p with Ok (Some (Some k, v)) => Some (k, default 0%Z v) | _ => None end else None.
Proof.
  induction ps as [|q ps IH]; [done|]. unfold server_keys in *. cbn [omap list_omap].
  assert (bool_decide (p ∈ q :: ps) = bool_decide (p = q) || bool_decide (p ∈ ps)) as ->.
  { rewrite <- bool_decide_or. apply bool_decide_ext. by rewrite elem_of_cons. }
  destruct (s q) as [[[[k|] v]|]|e] eqn:Es; cbn [list_to_map foldr uncurry].
  1: destruct (decide (q = p)) as [->|Hq]; [by rewrite lookup_insert_eq, bool_decide_eq_true_2, Es by done|
       rewrite lookup_insert_ne, bool_decide_eq_false_2 by done; exact IH].
  all: destruct (decide (q = p)) as [->|Hq]; [rewrite bool_decide_eq_true_2 by done; cbn [orb]; etransitivity; [exact IH|];
    by rewrite Es; destruct (bool_decide _)|rewrite bool_decide_eq_false_2 by done; exact IH].
Qed.

Lemma fetch_server_key (s : Server) p k v : fetch_account_key (s p) p = Ok (k, v) <->
  match s p with Ok (Some (Some k, v)) => Some (k, default 0%Z v) | _ => None end = Some (k, v).
Proof.
  unfold fetch_account_key. destruct (s p) as [[[[k'|] v']|]|e]; cbn [rbind]; split; try done; by intros [= -> ->].
Qed.

(** The pin of a contact after its key was seen. *)
Definition seen (k : bytes) (v : Z) (pin : option ContactPin) : ContactPin :=
  match pin with Some r => if bool_decide (pin_account_id_pub r = k) then r else mkPin k v 0 | None => mkPin k v 0 end.

Lemma seen_seen k v pin : seen k v (Some (seen k v pin)) = seen k v pin.
Proof.
  assert (pin_account_id_pub (seen k v pin) = k) as E by (unfold seen; destruct pin; [case_bool_decide|]; done).
  unfold seen at 1. by rewrite bool_decide_eq_true_2.
Qed.

Lemma pin_key_exact q k v pins p :
  (pin_key (pins !! q) q k v pins).1 !! p = if bool_decide (p = q) then Some (seen k v (pins !! q)) else pins !! p.
Proof.
  unfold pin_key, update_pin, insert_pin, seen. destruct (pins !! q) as [r|] eqn:E; [case_bool_decide as Hb|]; cbn [fst]; case_bool_decide as Hp; subst;
    rewrite ?lookup_alter_eq, ?lookup_insert_eq, ?E; try done; by rewrite ?lookup_alter_ne, ?lookup_insert_ne by done.
Qed.

Lemma checked_seen s ps pins p : checked s ps pins p = match server_keys s ps !! p with Some (k, v) => Some (seen k v (pins !! p)) | None => pins !! p end.
Proof. unfold checked, seen. destruct (server_keys s ps !! p) as [[k v]|]; [|done]. destruct (pins !! p) as [r|]; [case_bool_decide|]; done. Qed.

Lemma check_lookup s ch q pins : exists pins1, (check_and_pin_account_key s false false false ch q (Some pins)).1.1 = Some pins1 /\
  forall p, pins1 !! p = checked s [q] pins p.
Proof.
  unfold check_and_pin_account_key. destruct (fetch_account_key (s q) q) as [[k v]|e] eqn:Ef.
  - rewrite andb_false_r. cbn [load_pin]. destruct (pin_key _ _ _ _ _) as [pins1 c] eqn:E. exists pins1. split; [done|]. intros p.
    pose proof (pin_key_exact q k v pins p) as Hp. rewrite E in Hp. cbn [fst] in Hp. rewrite Hp, checked_seen, server_keys_lookup.
    apply fetch_server_key in Ef. case_bool_decide as Hq; [subst; rewrite bool_decide_eq_true_2 by (by left); by rewrite Ef|].
    rewrite bool_decide_eq_false_2 by set_solver. done.
  - exists pins. split; [done|]. intros p. rewrite checked_seen, server_keys_lookup. case_bool_decide as Hq; [|done].
    apply list_elem_of_singleton in Hq as ->. destruct (match s q with Ok (Some (Some k, v)) => _ | _ => _ end) as [[k v]|] eqn:E; [|done].
    apply fetch_server_key in E. congruence.
Qed.

Lemma check_all_lookup s ch ps pins : exists pins',
  fold_left (fun l p => (check_and_pin_account_key s false false false ch p l).1.1) ps (Some pins) = Some pins' /\ forall p, pins' !! p = checked s ps pins p.
Proof.
  revert pins. induction ps as [|q ps IH]; intros pins; [by exists pins|]. cbn [fold_left].
  destruct (check_lookup s ch q pins) as (pins1 & -> & H1). destruct (IH pins1) as (pins' & -> & H2). exists pins'. split; [done|]. intros p.
  rewrite H2, !checked_seen, H1, checked_seen, !server_keys_lookup.
  destruct (match s p with Ok (Some (Some k, v)) => _ | _ => _ end) as [[k v]|]; [|by repeat case_bool_decide].
  destruct (decide (p = q)) as [->|Hq].
  - rewrite !(bool_decide_eq_true_2 (q ∈ _ :: _)) by (by left). case_bool_decide; [by rewrite seen_seen|done].
  - rewrite (bool_decide_eq_false_2 (p ∈ [q])) by set_solver. by rewrite (bool_decide_ext (p ∈ q :: ps) (p ∈ ps)) by set_solver.
Qed.

Definition key_changes (existing : gmap string ContactPin) (keys : list (string * (bytes * Z))) (e : KeyChanged) : Prop :=
  exists k r, (kc_peer_user_id e, (k, kc_peer_identity_version e)) ∈ keys /\ existing !! kc_peer_user_id e = Some r /\ pin_account_id_pub r <> k.

Lemma pin_keys_exact fails n existing keys pins changed : (forall n, fails n = false) -> NoDup keys.*1 ->
  (forall q, q ∈ keys.*1 -> existing !! q = pins !! q) ->
  exists pins' changed', pin_keys fails n existing keys pins changed = (pins', changed', Ok tt) /\
    (forall p k v, (p, (k, v)) ∈ keys -> pins' !! p = Some (seen k v (pins !! p))) /\ (forall p, p ∉ keys.*1 -> pins' !! p = pins !! p) /\
    (forall e, e ∈ changed' <-> e ∈ changed \/ key_changes existing keys e).
Proof.
  intros Hf. revert n pins changed. induction keys as [|[q [k v]] keys IH]; intros n pins changed Hnd Hex.
  { exists pins, changed. split_and!; [done|by intros ??? ?%elem_of_nil|done|]. intros e. split; [by left|].
    intros [?|(? & ? & ?%elem_of_nil & _)]; done. }
  cbn [fmap list_fmap fst] in Hnd. apply NoDup_cons in Hnd as [Hni Hnd]. cbn [pin_keys]. rewrite Hf, andb_false_r, (Hex q) by (by left).
  destruct (pin_key _ _ _ _ _) as [pins1 c] eqn:E.
  assert (forall p, pins1 !! p = if bool_decide (p = q) then Some (seen k v (pins !! q)) else pins !! p) as H1.
  { intros p. rewrite <- pin_key_exact, E. done. }
  edestruct (IH (if writes (pins !! q) k then S n else n) pins1 (if c then changed ++ [mkChanged q v] else changed) Hnd) as (pins' & changed' & Hrun & Hin & Hout & Hch).
  { intros q' Hq'. rewrite H1, bool_decide_eq_false_2 by (by intros ->). apply Hex. by right. }
  exists pins', changed'. split_and!; [done| | |].
  - intros p k' v' [[= -> -> ->]|Hp]%elem_of_cons.
    + rewrite Hout by done. by rewrite H1, bool_decide_eq_true_2.
    + rewrite (Hin _ _ _ Hp), H1, bool_decide_eq_false_2; [done|]. intros ->. apply Hni, list_elem_of_fmap. by exists (q, (k', v')).
  - intros p Hp. cbn [fmap list_fmap fst] in Hp. apply not_elem_of_cons in Hp as [Hq Hp]. by rewrite Hout, H1, bool_decide_eq_false_2.
  - intros e. rewrite Hch. unfold pin_key in E. unfold key_changes. setoid_rewrite elem_of_cons.
    assert (c = true <-> exists r, existing !! q = Some r /\ pin_account_id_pub r <> k) as Hc.
    { rewrite (Hex q) by (by left). destruct (pins !! q) as [r|]; [case_bool_decide|]; injection E as _ <-; naive_solver. }
    destruct e as [p w]. cbn [kc_peer_user_id kc_peer_identity_version]. destruct c.
    + destruct (proj1 Hc eq_refl) as (r & Hr & Hk). rewrite elem_of_app, list_elem_of_singleton. naive_solver.
    + split; [naive_solver|]. intros [?|(k' & r & [[= -> -> ->]|?] & Hr & Hk)]; [by left| |right; exists k', r; split_and!; done].
      exfalso. assert (false = true) by (apply Hc; exists r; split; done). done.
Qed.

(** The batch check is the single check, member by member.  When the statements go through,
    checking the keys of many contacts at once leaves exactly the pins that checking them one
    by one leaves, and reports a change for exactly the contacts whose pinned key differs from
    the one the server gives. *)
Theorem batch_check_agrees (server : Server) (fails : nat -> bool) (ch : bool) (peers : list string) (pins : gmap string ContactPin) :
  (forall n, fails n = false) ->
  let '(local, events, r) := batch_check_and_pin_account_keys server false false fails true peers (Some pins) in
  r = Ok tt /\ local = fold_left (fun l p => (check_and_pin_account_key server false false false ch p l).1.1) peers (Some pins) /\
  forall p v, mkChanged p v ∈ events <->
    exists k row, p ∈ peers /\ fetch_account_key (server p) p = Ok (k, v) /\ pins !! p = Some row /\ pin_account_id_pub row <> k.
Proof.
  intros Hf. destruct (check_all_lookup server ch peers pins) as (pins1 & -> & H1).
  assert (forall p v k, server_keys server peers !! p = Some (k, v) <-> p ∈ peers /\ fetch_account_key (server p) p = Ok (k, v)) as Hk.
  { intros p v k. rewrite server_keys_lookup, fetch_server_key. case_bool_decide; naive_solver. }
  unfold batch_check_and_pin_account_keys. case_bool_decide as Hn.
  { subst. split_and!; [done|by f_equal; apply map_eq; intros p; rewrite H1|]. intros p v. set_solver. }
  case_bool_decide as He.
  { split_and!; [done|f_equal; apply map_eq; intros p; by rewrite H1, checked_seen, He, lookup_empty|].
    intros p v. split; [by intros ?%elem_of_nil|]. intros (k & row & Hp & Hfe & _). exfalso.
    assert (server_keys server peers !! p = Some (k, v)) as Hl by (by apply Hk). by rewrite He, lookup_empty in Hl. }
  destruct (pin_keys_exact fails 0 pins (map_to_list (server_keys server peers)) pins [] Hf (NoDup_fst_map_to_list _) (fun _ _ => eq_refl))
    as (pins2 & changed & -> & Hin & Hout & Hch). split_and!; [done| |].
  - f_equal. apply map_eq. intros p. rewrite H1, checked_seen. destruct (server_keys server peers !! p) as [[k v]|] eqn:E.
    + by apply Hin, elem_server_keys.
    + apply Hout. intros ([q kv] & -> & Hq%elem_of_map_to_list)%list_elem_of_fmap. cbn in E. congruence.
  - intros p v. rewrite Hch. unfold key_changes. cbn [kc_peer_user_id kc_peer_identity_version]. setoid_rewrite elem_server_keys. setoid_rewrite Hk.
    split; [intros [?%elem_of_nil|(k & row & [? ?] & ? & ?)]; [done|by exists k, row]|]. intros (k & row & ? & ? & ? & ?). right. by exists k, row.
Qed.

(** A change of key is forgotten as soon as it is noticed.  Whenever a check of a contact's
    key, all statements going through, finds that it differs from the pinned one, the next
    look at the contact's profile shows it as unverified, never as changed, and the list of
    contacts does not mark it as changed either. *)
Theorem change_forgotten (server : Server) (ch : bool) (me p : string) (pins : gmap string ContactPin) (row : ContactPin) (mine : bytes * Z) (k : bytes) (v : Z) :
  pins !! p = Some row -> fetch_account_key (server p) p = Ok (k, v) -> pin_account_id_pub row <> k -> fetch_account_key (server me) me = Ok mine ->
  let '(local, events, r) := check_and_pin_account_key server false false false ch p (Some pins) in
  r = Ok tt /\
  (exists i, get_safety_number server false me p local = Ok i /\ status i = Unverified) /\
  (exists l, list_peer_verifications server false local = Ok l /\ forall e, e ∈ l -> pe_peer_user_id e = p -> pe_key_changed e = false).
Proof.
  intros Hr Hf Hk Hm. unfold check_and_pin_account_key. rewrite Hf, andb_false_r. cbn [load_pin].
  destruct (pin_key _ _ _ _ _) as [pins1 c] eqn:E. pose proof (pin_key_exact p k v pins p) as Hp. rewrite E, bool_decide_eq_true_2 in Hp by done. cbn [fst] in Hp.
  unfold seen in Hp. rewrite Hr, bool_decide_eq_false_2 in Hp by done. split_and!; [done| |].
  - unfold get_safety_number. rewrite Hm, Hf. cbn [rbind]. destruct (ordered_pair _ _). eexists. split; [done|]. cbn. rewrite Hp. cbn.
    by rewrite bool_decide_eq_true_2.
  - eexists. split; [unfold list_peer_verifications; cbn [ok_or rbind]; rewrite bool_decide_eq_false_2; [done|]|].
    { intros ->%map_to_list_empty_iff. by rewrite lookup_empty in Hp. }
    intros e ([q r] & -> & Hq%elem_of_map_to_list)%list_elem_of_fmap. cbn. intros ->. rewrite Hf.
    rewrite Hp in Hq. injection Hq as <-. cbn. by rewrite bool_decide_eq_true_2.
Qed.
End Facts.

(** ** At concrete inputs *)

Section Witnesses.
#[local] Instance padded : Sha512 := {| sha512 m := take 64 (m ++ replicate 64 x00) |}.

#[local] Instance padded_laws : Sha512Laws.
Proof. constructor. intros m. cbn [sha512 padded]. rewrite length_take, length_app, length_replicate. lia. Qed.

#[local] Definition answers (alice bob : bytes) : Server := fun u =>
  if bool_decide (u = "alice") then Ok (Some (Some alice, Some 1%Z)) else if bool_decide (u = "bob") then Ok (Some (Some bob, Some 1%Z)) else Ok None.

#[local] Definition honest : Server := answers [x01] [x02].
#[local] Definition swapped : Server := answers [x01] [x66].

Lemma safety_number_symmetric_witness :
  exists i j, get_safety_number honest false "alice" "bob" (Some ∅) = Ok i /\ get_safety_number honest false "bob" "alice" (Some ∅) = Ok j /\
    safety_number i = safety_number j.
Proof.
  destruct (get_safety_number honest false "alice" "bob" (Some ∅)) as [i|e] eqn:Ei; [|done].
  destruct (get_safety_number honest false "bob" "alice" (Some ∅)) as [j|e] eqn:Ej; [|done].
  exists i, j. split_and!; [done..|].
  exact (proj1 (proj1 (safety_number_symmetric honest honest false false "alice" "bob" (Some ∅) (Some ∅) i j Ei Ej) eq_refl eq_refl)).
Defined.

#[local] Definition marked : list Op := [MarkContact honest false "bob" true; CheckKey honest false false false true "bob"].

Lemma verified_sound_witness :
  exists i, get_safety_number honest false "alice" "bob" (after marked) = Ok i /\ status i = Verified /\
    exists k v ops1 op ops2, fetch_account_key (honest "bob") "bob" = Ok (k, v) /\ marked = ops1 ++ op :: ops2 /\ marks "bob" k true op.
Proof.
  destruct (get_safety_number honest false "alice" "bob" (after marked)) as [i|e] eqn:Ei; [|done].
  assert (status i = Verified) as Hs.
  { destruct (get_inv _ _ _ _ _ _ Ei) as (mine & theirs & pins & _ & Hk & Ha & _ & Hs & _). injection Hk as <-. injection Ha as <-. exact Hs. }
  exists i. split_and!; [done|done|].
  destruct (verified_sound marked honest false "alice" "bob" i Ei Hs) as (k & v & ops1 & op & ops2 & H1 & H2 & H3 & _). by exists k, v, ops1, op, ops2.
Defined.

#[local] Definition bob_pinned : gmap string ContactPin := {["bob" := mkPin [x02] 1 1]}.

Lemma batch_check_agrees_witness :
  let '(local, events, r) := batch_check_and_pin_account_keys swapped false false (fun _ => false) true ["bob"; "carol"; "alice"] (Some bob_pinned) in
  r = Ok tt /\ mkChanged "bob" 1 ∈ events.
Proof.
  pose proof (batch_check_agrees swapped (fun _ => false) true ["bob"; "carol"; "alice"] bob_pinned (fun _ => eq_refl)) as Hb.
  destruct (batch_check_and_pin_account_keys _ _ _ _ _ _ _) as [[local events] r]. destruct Hb as (Hr & _ & He). split; [done|].
  apply He. exists [x66], (mkPin [x02] 1 1). split_and!; [by left|done|done|done].
Defined.

Lemma change_forgotten_witness :
  let '(local, events, r) := check_and_pin_account_key swapped false false false true "bob" (Some bob_pinned) in
  exists i, get_safety_number swapped false "alice" "bob" local = Ok i /\ status i = Unverified.
Proof.
  pose proof (change_forgotten swapped true "alice" "bob" bob_pinned (mkPin [x02] 1 1) ([x01], 1%Z) [x66] 1 eq_refl eq_refl) as Hc.
  destruct (check_and_pin_account_key _ _ _ _ _ _ _) as [[local events] r]. apply Hc; [discriminate|reflexivity].
Defined.

(** ** What the code does that its comments do not say *)

(** Marking a contact pins the key the server gives then, not the one behind the number that was
    compared: the number was read for one key, the mark is on another. *)
Example other_key_verified :
  (pin_status (match after [MarkContact swapped false "bob" true] with Some pins => pins !! "bob" | None => None end) [x66]) = Verified /\
  fetch_account_key (honest "bob") "bob" <> fetch_account_key (swapped "bob") "bob".
Proof. split; [reflexivity|discriminate]. Qed.

(** A batch whose second statement fails has already moved the first contact's pin, and reports
    no change at all: neither this batch nor any later one tells the user. *)
Example change_never_reported :
  let pins : gmap string ContactPin := {["alice" := mkPin [x09] 1 1; "bob" := mkPin [x02] 1 1]} in
  let '(local, events, r) := batch_check_and_pin_account_keys swapped false false (fun n => n =? 1) true ["alice"; "bob"] (Some pins) in
  r = Err "local write" /\ events = [] /\
  exists p, (p = "alice" \/ p = "bob") /\
    (pin_verified <$> (match local with Some m => m !! p | None => None end)) = Some 0%Z /\
    (pin_account_id_pub <$> (match local with Some m => m !! p | None => None end)) <> (pin_account_id_pub <$> pins !! p).
Proof. vm_compute. split_and!; [reflexivity|reflexivity|]. first [exists "alice"; split_and!; [by left|reflexivity|discriminate] | exists "bob"; split_and!; [by right|reflexivity|discriminate]]. Qed.

(** A pin that cannot be read hides a change. *)
Example unreadable_pin_hides_change :
  pin_status (load_pin true "bob" bob_pinned) [x66] = Unverified /\ pin_status (load_pin false "bob" bob_pinned) [x66] = Changed.
Proof. split; reflexivity. Qed.
End Witnesses.
