(* ===== verification/Ingest.v ===== *)
(** * pollis-core: ingesting messages

    Models [commands/messages/ingest.rs]: fetching the envelopes of every conversation of an MLS
    group past the device's watermarks, decrypting each at the epoch it was sealed at while the
    commits are replayed, persisting messages, edits and redactions in the local table,
    applying tombstones, and moving the watermarks; with [try_mls_decrypt], [envelope_epoch]
    ([mls/group_state.rs]) and the credential format ([mls/provider.rs]).

    The MLS library is an interface with a store of its own: processing a message may change
    the store and gives the sender's credential.  The replay ([Client]) decides at which epochs
    the hook fires; here it is any list of epochs, with what the commits did to the store in
    between.  Local reads and writes may fail, one envelope at a time.  The main database is
    the service's ([Tables]), and the watermark and collection requests are its routes
    ([Messages]).

    [ingest_attribution]: nobody but its author edits or redacts a message, the service's
    tombstones aside, and a new message is its credential's.  [ingest_delivers]: what becomes of
    every envelope at an epoch the replay reached.  [catch_up_refetches]: what could not be
    decrypted yet is still there for the next pass.  [late_envelope_lost]: an envelope with an
    old date is never fetched. *)

From stdpp Require Import base list strings gmap.
From Stdlib Require Import NArith ZArith Lia ZifyNat ZifyN.
From Stdlib Require Import Strings.Byte.
From S2P Require Import Prelude Crypto Merkle Log Tenants Delivery Client Framing Text Access Tables Messages.

Class OpenMls := {
  MlsStore : Type;
  (** [MlsMessageIn::tls_deserialize], [try_into_protocol_message], [epoch]. *)
  mls_message_epoch : bytes -> option N;
  (** Load the group and [process_message]: the sender's credential, and the application data if
      it is an application message. *)
  mls_process_message : string -> bytes -> MlsStore -> MlsStore * option (bytes * option bytes)
}.

(** ** mls/provider.rs *)

Definition make_credential (user_id device_id : string) : bytes := as_bytes user_id ++ x3a :: as_bytes device_id.

(** Up to the first byte [c]. *)
Fixpoint until_byte (c : byte) (b : bytes) : bytes :=
  match b with [] => [] | x :: b' => if Byte.eqb x c then [] else x :: until_byte c b' end.

(** [split_once(':')], or all of it. *)
Definition parse_credential_user_id (cred : bytes) : string := of_bytes (until_byte x3a (from_utf8_lossy cred)).

(** ** mls/group_state.rs *)

Section Mls.
Context `{OpenMls}.

Definition envelope_epoch (ciphertext : bytes) : option N := mls_message_epoch ciphertext.

Definition try_mls_decrypt (group : string) (ciphertext : bytes) (store : MlsStore) : MlsStore * option (bytes * string) :=
  match mls_process_message group ciphertext store with
  | (store, Some (cred, Some plain)) => (store, Some (plain, parse_credential_user_id cred))
  | (store, _) => (store, None)
  end.
End Mls.

(** ** ingest.rs *)

(** A row of the local [message] table. *)
Record MessageRow := mkMessage {
  msg_conversation_id : string;
  msg_sender_id : string;
  msg_ciphertext : bytes;
  msg_content : option string;
  msg_reply_to_id : option string;
  msg_sent_at : string;
  msg_edited_at : option string;
  msg_deleted_at : option string
}.

(** A fetched envelope, with its id. *)
Definition Fetched : Type := string * EnvelopeRow.

Definition redact (now : string) (r : MessageRow) : MessageRow :=
  match msg_deleted_at r with
  | Some _ => r
  | None => mkMessage (msg_conversation_id r) (msg_sender_id r) (msg_ciphertext r) None (msg_reply_to_id r) (msg_sent_at r) (msg_edited_at r) (Some now)
  end.

Definition edit (now text : string) (r : MessageRow) : MessageRow :=
  match msg_deleted_at r with
  | Some _ => r
  | None => mkMessage (msg_conversation_id r) (msg_sender_id r) (msg_ciphertext r) (Some text) (msg_reply_to_id r) (msg_sent_at r) (Some now) None
  end.

(** Which envelopes' lookups and writes in the local database fail, and the clock. *)
Record LocalWorld := mkLocalWorld { lw_read_fails : string -> bool; lw_exec_fails : string -> bool; lw_now : string }.

Section Ingest.
Context `{OpenMls} `{!Hex} (lw : LocalWorld).

Record LocalDb := mkLocalDb { mls : MlsStore; messages : gmap string MessageRow }.

Definition on_messages (f : gmap string MessageRow -> gmap string MessageRow) (st : LocalDb) : LocalDb := mkLocalDb (mls st) (f (messages st)).

Definition ciphertext_bytes (ciphertext : string) : option bytes :=
  h ← strip_prefix_bytes (as_bytes "mls:") (as_bytes ciphertext);
  match hex_decode (of_bytes h) with Ok b => Some b | Err _ => None end.

(** The author of a stored message, if the lookup for envelope [id] works. *)
Definition author_of (id target : string) (st : LocalDb) : option string :=
  if lw_read_fails lw id then None else msg_sender_id <$> messages st !! target.

Definition write_local (id : string) (f : gmap string MessageRow -> gmap string MessageRow) (st : LocalDb) : LocalDb :=
  if lw_exec_fails lw id then st else on_messages f st.

(** INSERT OR IGNORE. *)
Definition insert_message (id : string) (row : MessageRow) (m : gmap string MessageRow) : gmap string MessageRow :=
  match m !! id with Some _ => m | None => <[id := row]> m end.

Definition decrypt_and_persist_one (conversation_id group : string) (env : Fetched) (st : LocalDb) : LocalDb :=
  let id := env.1 in
  let e := env.2 in
  if bool_decide (env_type e = "message") then
    if negb (lw_read_fails lw id) && bool_decide (is_Some (messages st !! id)) then st
    else match ciphertext_bytes (env_ciphertext e) with
         | None => st
         | Some b =>
             match try_mls_decrypt group b (mls st) with
             | (store, None) => mkLocalDb store (messages st)
             | (store, Some (plain, cred_sender)) =>
                 let st := mkLocalDb store (messages st) in
                 match classify_frame plain with
                 | Redaction target =>
                     if bool_decide (author_of id target st = Some cred_sender) then write_local id (alter (redact (lw_now lw)) target) st else st
                 | Text plaintext =>
                     match from_utf8 plaintext with
                     | Some text => write_local id (insert_message id
                         (mkMessage conversation_id cred_sender b (Some text) (env_reply_to_id e) (env_sent_at e) None None)) st
                     | None => st
                     end
                 end
             end
         end
  else if bool_decide (env_type e = "edit") then
    match env_target_message_id e, ciphertext_bytes (env_ciphertext e) with
    | Some tid, Some b =>
        match try_mls_decrypt group b (mls st) with
        | (store, None) => mkLocalDb store (messages st)
        | (store, Some (plain, cred_sender)) =>
            let st := mkLocalDb store (messages st) in
            if negb (bool_decide (author_of id tid st = Some cred_sender)) then st
            else match from_utf8 (strip plain) with
                 | Some text => write_local id (alter (edit (lw_now lw) text) tid) st
                 | None => st
                 end
        end
    | _, _ => st
    end
  else st.

Definition epoch_of (env : Fetched) : option N :=
  let t := env_type env.2 in
  if bool_decide (t = "message") || bool_decide (t = "edit") then b ← ciphertext_bytes (env_ciphertext env.2); envelope_epoch b else None.

(** The envelopes of every conversation, in order, each with its conversation. *)
Definition flat (per_conv : list (string * list Fetched)) : list (string * Fetched) :=
  concat (map (fun ce => map (fun e => (ce.1, e)) ce.2) per_conv).

(** The hook at an epoch, for the envelopes [by_epoch] holds under it. *)
Definition on_epoch (group : string) (per_conv : list (string * list Fetched)) (epoch : N) (st : LocalDb) : LocalDb :=
  fold_left (fun st ce => decrypt_and_persist_one ce.1 group ce.2 st)
    (List.filter (fun ce => bool_decide (epoch_of ce.2 = Some epoch)) (flat per_conv)) st.

Definition max_fired (fired : list N) : option N :=
  fold_left (fun m e => Some (match m with Some m => N.max m e | None => e end)) fired None.

(** [entered e]: what bringing the group to epoch [e] did to the store. *)
Definition replay_hooks (entered : N -> MlsStore -> MlsStore) (group : string) (per_conv : list (string * list Fetched)) (fired : list N) (st : LocalDb) : LocalDb :=
  fold_left (fun st e => on_epoch group per_conv e (mkLocalDb (entered e (mls st)) (messages st))) fired st.

Definition tombstone (env : Fetched) (st : LocalDb) : LocalDb :=
  if bool_decide (env_type env.2 = "delete") then
    match env_target_message_id env.2 with
    | Some tid => write_local env.1 (alter (redact (lw_now lw)) tid) st
    | None => st
    end
  else st.

Definition watermark_view (env : Fetched) : string * EnvKind * option N := (env_sent_at env.2, EnvKind_from_type (env_type env.2), epoch_of env).

#[export] Instance string_ord : Ord string := {| leb := String.leb |}.

Definition ingest_group_envelopes_interleaved (entered : N -> MlsStore -> MlsStore) (group : string) (fired : list N)
    (per_conv : list (string * list Fetched)) (st : LocalDb) : LocalDb * list (string * option string) :=
  let st := replay_hooks entered group per_conv fired st in
  let st := fold_left (fun st ce => tombstone ce.2 st) (flat per_conv) st in
  (st, map (fun ce => (ce.1, next_watermark (map watermark_view ce.2) (max_fired fired))) per_conv).
End Ingest.
Arguments LocalDb {_}.

(** ** Fetching and moving on *)

(** [ORDER BY sent_at ASC, id ASC]. *)
Definition row_leb (a b : Fetched) : bool :=
  text_lt (env_sent_at a.2) (env_sent_at b.2) || bool_decide (env_sent_at a.2 = env_sent_at b.2) && String.leb a.1 b.1.

Fixpoint insert_row (x : Fetched) (l : list Fetched) : list Fetched :=
  match l with [] => [x] | y :: l' => if row_leb x y then x :: l else y :: insert_row x l' end.

Definition sort_rows (l : list Fetched) : list Fetched := fold_right insert_row [] l.

Definition is_dm (db : MsgDb) (group : string) : bool := bool_decide (is_Some (dm_channels db !! group)).

Definition conversation_ids (db : MsgDb) (group : string) : list string :=
  if is_dm db group then [group]
  else omap (fun '(c, r) => if bool_decide (chn_group_id r = group) then Some c else None) (map_to_list (group_channels db)).

(** The envelopes strictly past the device's watermark. *)
Definition fetch_envelopes (db : MsgDb) (c user_id device_id : string) : list Fetched :=
  let from := default "" (watermarks db !! (c, user_id, device_id)) in
  sort_rows (List.filter (fun ie => bool_decide (env_conversation_id ie.2 = c) && text_lt from (env_sent_at ie.2)) (map_to_list (envelopes db))).

Section CatchUp.
Context `{OpenMls} `{!Hex} (lw : LocalWorld).

(** The [n]-th request to the service: whom it is taken for and how its statements turn out, or
    that it did not get there. *)
Definition Service : Type := nat -> option (string * SqlEnv).

Definition post (service : Service) (n : nat) (route : SqlEnv -> option string -> Sql WriteOutcome) (db : MsgDb) : MsgDb :=
  match service n with Some (signer, env) => (run_sql (route env (Some signer)) db).1 | None => db end.

(** After a conversation was ingested: both requests are best effort. *)
Definition settle (service : Service) (user_id : string) (device_id : option string) (dm : bool) (n : nat) (db : MsgDb)
    (mark : string * option string) : MsgDb :=
  let db := match mark.2, device_id with
            | Some ts, Some did => post service (2 * n) (fun env a => MessageRoutes.apply_advance_watermark env a
                (MessageRoutes.mkWatermark mark.1 (Some user_id) did ts)) db
            | _, _ => db
            end in
  post service (2 * n + 1) (fun env a => MessageRoutes.apply_envelope_gc env a (MessageRoutes.mkEnvelopeGc mark.1 dm None)) db.

Fixpoint settle_all (service : Service) (user_id : string) (device_id : option string) (dm : bool) (n : nat)
    (marks : list (string * option string)) (db : MsgDb) : MsgDb :=
  match marks with
  | [] => db
  | mark :: marks => settle_all service user_id device_id dm (S n) marks (settle service user_id device_id dm n db mark)
  end.

Definition per_conv_of (db : MsgDb) (group user_id : string) (device_id : option string) : list (string * list Fetched) :=
  map (fun c => (c, fetch_envelopes db c user_id (default "" device_id))) (conversation_ids db group).

Definition catch_up_mls_group_interleaved (service : Service) (entered : N -> MlsStore -> MlsStore) (fired : list N)
    (group user_id : string) (device_id : option string) (st : LocalDb) (db : MsgDb) : LocalDb * MsgDb :=
  let (st, marks) := ingest_group_envelopes_interleaved lw entered group fired (per_conv_of db group user_id device_id) st in
  (st, settle_all service user_id device_id (is_dm db group) 0 marks db).

(** Opening a channel: only for members of its group; [welcomed] is what polling for welcomes did. *)
Definition ingest_channel_envelopes_inner (service : Service) (welcomed : MlsStore -> MlsStore) (entered : N -> MlsStore -> MlsStore)
    (fired : list N) (user_id channel_id : string) (device_id : option string) (st : LocalDb) (db : MsgDb) : LocalDb * MsgDb :=
  match r ← group_channels db !! channel_id; _ ← group_members db !! (chn_group_id r, user_id); Some (chn_group_id r) with
  | None => (st, db)
  | Some group =>
      let st := match device_id with Some _ => mkLocalDb (welcomed (mls st)) (messages st) | None => st end in
      catch_up_mls_group_interleaved service entered fired group user_id device_id st db
  end.

(** Opening a DM; also the peers whose keys are checked on the way. *)
Definition ingest_dm_envelopes_inner (service : Service) (welcomed : MlsStore -> MlsStore) (entered : N -> MlsStore -> MlsStore)
    (fired : list N) (user_id dm_channel_id : string) (device_id : option string) (st : LocalDb) (db : MsgDb)
    : LocalDb * MsgDb * list string :=
  if negb (bool_decide (is_Some (dm_members db !! (dm_channel_id, user_id)))) then (st, db, [])
  else
    let st := match device_id with Some _ => mkLocalDb (welcomed (mls st)) (messages st) | None => st end in
    let peer_ids := omap (fun '((c, u), _) => if bool_decide (c = dm_channel_id) && negb (bool_decide (u = user_id)) then Some u else None)
      (map_to_list (dm_members db)) in
    let (st, db) := catch_up_mls_group_interleaved service entered fired dm_channel_id user_id device_id st db in
    (st, db, peer_ids).
End CatchUp.

(** ** Who may change a message *)

Section Attribution.
Context `{OpenMls} `{!Hex} (lw : LocalWorld) (group : string).

(** Some envelope of the batch decrypted, in some state of the store, to [plain] of [sender]. *)
Definition authentic (batch : list (string * Fetched)) (conv : string) (env : Fetched) (plain : bytes) (sender : string) : Prop :=
  (conv, env) ∈ batch /\ exists b store store', ciphertext_bytes (env_ciphertext env.2) = Some b /\
    try_mls_decrypt group b store = (store', Some (plain, sender)).

(** What never changes in a stored message. *)
Definition same_message (r r' : MessageRow) : Prop :=
  msg_conversation_id r' = msg_conversation_id r /\ msg_sender_id r' = msg_sender_id r /\ msg_ciphertext r' = msg_ciphertext r /\
  msg_reply_to_id r' = msg_reply_to_id r /\ msg_sent_at r' = msg_sent_at r.

(** [m] was redacted or edited by its author, or by the service's tombstone. *)
Definition altered (batch : list (string * Fetched)) (m : string) (author : string) : Prop :=
  (exists conv env plain, authentic batch conv env plain author /\
     (env_type env.2 = "message" /\ classify_frame plain = Redaction m \/ env_type env.2 = "edit" /\ env_target_message_id env.2 = Some m)) \/
  (exists conv env, (conv, env) ∈ batch /\ env_type env.2 = "delete" /\ env_target_message_id env.2 = Some m).

(** [r] is the message an envelope of the batch carries. *)
Definition received (batch : list (string * Fetched)) (m : string) (r : MessageRow) : Prop :=
  exists env plain text, authentic batch (msg_conversation_id r) env plain (msg_sender_id r) /\ env.1 = m /\ env_type env.2 = "message" /\
    classify_frame plain = Text text /\ is_Some (from_utf8 text) /\ msg_sent_at r = env_sent_at env.2.

Definition explained (batch : list (string * Fetched)) (m : string) (old new : option MessageRow) : Prop :=
  match old with
  | Some r => exists r', new = Some r' /\ same_message r r' /\ (r' = r \/ altered batch m (msg_sender_id r))
  | None => forall r', new = Some r' -> received batch m r'
  end.

Lemma same_message_refl r : same_message r r.
Proof. done. Qed.

Lemma same_message_trans r1 r2 r3 : same_message r1 r2 -> same_message r2 r3 -> same_message r1 r3.
Proof. unfold same_message. intros (? & ? & ? & ? & ?) (? & ? & ? & ? & ?). split_and!; congruence. Qed.

Lemma same_redact now r : same_message r (redact now r).
Proof. unfold redact. destruct (msg_deleted_at r); done. Qed.

Lemma same_edit now text r : same_message r (edit now text r).
Proof. unfold edit. destruct (msg_deleted_at r); done. Qed.

Lemma explained_refl batch m old : explained batch m old old.
Proof. destruct old as [r|]; simpl; [|done]. exists r. auto using same_message_refl. Qed.

Lemma explained_trans batch m a b c : explained batch m a b -> explained batch m b c -> explained batch m a c.
Proof.
  destruct a as [r1|]; simpl.
  - intros (r2 & -> & Hs & Ha). simpl. intros (r3 & -> & Hs' & Ha'). exists r3. split_and!; [done|by eapply same_message_trans|].
    destruct Hs as (_ & Hsend & _). rewrite Hsend in Ha'. destruct Ha as [->|Ha]; [|by right]. destruct Ha' as [->|Ha']; auto.
  - intros Hb Hc r3 ->. destruct b as [r2|]; simpl in Hc; [|by apply Hc]. destruct Hc as (r' & [= <-] & (Hcv & Hsd & _ & _ & Hst) & _).
    specialize (Hb r2 eq_refl). unfold received in *. by rewrite Hcv, Hsd, Hst.
Qed.

(** Rewriting one row that is there. *)
Lemma explained_alter batch f t (ms : gmap string MessageRow) m :
  (forall r, same_message r (f r)) -> (forall r, ms !! t = Some r -> altered batch t (msg_sender_id r)) ->
  explained batch m (ms !! m) (alter f t ms !! m).
Proof.
  intros Hs Ha. destruct (decide (t = m)) as [->|Hm]; [|rewrite lookup_alter_ne by done; apply explained_refl].
  rewrite lookup_alter_eq. destruct (ms !! m) as [r|] eqn:E; simpl; [|done]. exists (f r). auto.
Qed.

Lemma explained_insert batch id row (ms : gmap string MessageRow) m : received batch id row ->
  explained batch m (ms !! m) (insert_message id row ms !! m).
Proof.
  intros Hr. unfold insert_message. destruct (ms !! id) eqn:E; [apply explained_refl|].
  destruct (decide (id = m)) as [->|Hm]; [|rewrite lookup_insert_ne by done; apply explained_refl].
  rewrite lookup_insert_eq, E. simpl. by intros r' [= <-].
Qed.

Lemma explained_write batch id f st m : explained batch m (messages st !! m) (f (messages st) !! m) ->
  explained batch m (messages st !! m) (messages (write_local lw id f st) !! m).
Proof. unfold write_local. destruct (lw_exec_fails lw id); [intros _; apply explained_refl|done]. Qed.

Lemma persist_explained batch conv env st m : (conv, env) ∈ batch ->
  explained batch m (messages st !! m) (messages (decrypt_and_persist_one lw conv group env st) !! m).
Proof.
  intros Hin. unfold decrypt_and_persist_one. case_bool_decide as Ht.
  - destruct (_ && _); [apply explained_refl|]. destruct (ciphertext_bytes _) as [b|] eqn:Eb; [|apply explained_refl].
    destruct (try_mls_decrypt group b (mls st)) as [store [[plain sender]|]] eqn:Ed; [|apply explained_refl].
    assert (authentic batch conv env plain sender) as Hau by (split; [done|]; by exists b, (mls st), store).
    destruct (classify_frame plain) as [text|target] eqn:Ec.
    + destruct (from_utf8 text) as [t|] eqn:Eu; [|apply explained_refl]. apply (explained_write _ _ _ (mkLocalDb store (messages st))), explained_insert.
      exists env, plain, text. split_and!; [done..| |done]. by eexists.
    + case_bool_decide as Hau'; [|apply explained_refl].
      apply (explained_write _ _ _ (mkLocalDb store (messages st))), explained_alter; [apply same_redact|]. intros r Hr. left.
      unfold author_of in Hau'. destruct (lw_read_fails _ _); [done|]. simpl in Hau', Hr. rewrite Hr in Hau'. injection Hau' as ->.
      exists conv, env, plain. auto.
  - case_bool_decide as Ht'; [|apply explained_refl]. destruct (env_target_message_id env.2) as [tid|] eqn:Et; [|apply explained_refl].
    destruct (ciphertext_bytes _) as [b|] eqn:Eb; [|apply explained_refl].
    destruct (try_mls_decrypt group b (mls st)) as [store [[plain sender]|]] eqn:Ed; [|apply explained_refl].
    assert (authentic batch conv env plain sender) as Hau by (split; [done|]; by exists b, (mls st), store).
    case_bool_decide as Hau'; cbn [negb]; [|apply explained_refl]. destruct (from_utf8 _) as [text|]; [|apply explained_refl].
    apply (explained_write _ _ _ (mkLocalDb store (messages st))), explained_alter; [apply same_edit|]. intros r Hr. left.
    unfold author_of in Hau'. destruct (lw_read_fails _ _); [done|]. simpl in Hau', Hr. rewrite Hr in Hau'. injection Hau' as ->.
    exists conv, env, plain. auto.
Qed.

Lemma tombstone_explained batch conv env st m : (conv, env) ∈ batch ->
  explained batch m (messages st !! m) (messages (tombstone lw env st) !! m).
Proof.
  intros Hin. unfold tombstone. case_bool_decide as Ht; [|apply explained_refl].
  destruct (env_target_message_id env.2) as [tid|] eqn:Et; [|apply explained_refl].
  apply explained_write, explained_alter; [apply same_redact|]. intros r _. right. by exists conv, env.
Qed.

Lemma fold_explained {A} batch (f : LocalDb -> A -> LocalDb) l st m :
  (forall a st, a ∈ l -> explained batch m (messages st !! m) (messages (f st a) !! m)) ->
  explained batch m (messages st !! m) (messages (fold_left f l st) !! m).
Proof.
  revert st. induction l as [|a l IH]; intros st Hf; simpl; [apply explained_refl|].
  eapply explained_trans; [apply Hf; by left|]. apply IH. intros a' st' Ha'. apply Hf. by right.
Qed.

Lemma hooks_explained entered per_conv fired st m :
  explained (flat per_conv) m (messages st !! m) (messages (replay_hooks lw entered group per_conv fired st) !! m).
Proof.
  apply fold_explained. intros e st' _. change (messages st') with (messages (mkLocalDb (entered e (mls st')) (messages st'))).
  apply fold_explained. intros [conv env] st'' Hin. apply list_elem_of_In, filter_In in Hin as [Hin%list_elem_of_In _]. by apply persist_explained.
Qed.

(** C12: messages are their authors'.  Whatever the server put into the envelopes, whichever epochs
    the replay reached and whichever local statements failed: a stored message keeps its
    author, conversation, date and ciphertext; its text and its deletion change only through an
    envelope that the MLS layer decrypted as the author's own, an edit of that message or a
    redaction naming it, or through a tombstone of the service; and a message that appears is
    one that decrypted from the envelope with its id in that conversation, under the sender
    the credential names, with the envelope's date. *)
Theorem ingest_attribution (entered : N -> MlsStore -> MlsStore) (fired : list N) (per_conv : list (string * list Fetched)) (st : LocalDb) (m : string) :
  explained (flat per_conv) m (messages st !! m)
    (messages (ingest_group_envelopes_interleaved lw entered group fired per_conv st).1 !! m).
Proof.
  unfold ingest_group_envelopes_interleaved. cbn [fst]. eapply explained_trans; [apply hooks_explained|].
  apply fold_explained. intros [conv env] st' Hin. by eapply tombstone_explained.
Qed.
End Attribution.

(** ** Credentials *)

Lemma until_byte_app c a b : c ∉ a -> until_byte c (a ++ c :: b) = a.
Proof.
  induction a as [|x a IH]; simpl; intros Hn; [by rewrite (Byte.byte_dec_lb eq_refl)|]. apply not_elem_of_cons in Hn as [Hx Hn].
  destruct (Byte.eqb x c) eqn:E; [by apply Byte.byte_dec_bl in E|]. by rewrite IH.
Qed.

(** The sender read from a credential is the user it was made for. *)
Lemma credential_roundtrip u d : utf8_valid (make_credential u d) = true -> x3a ∉ as_bytes u -> parse_credential_user_id (make_credential u d) = u.
Proof.
  intros Hu Hn. unfold parse_credential_user_id. rewrite from_utf8_lossy_id by done. unfold make_credential.
  rewrite until_byte_app by done. apply of_bytes_as_bytes.
Qed.

(** ** What becomes of an envelope *)

Section Delivery.
Context `{OpenMls} `{!Hex} (lw : LocalWorld) (group : string).

(** What the store [store] makes of a message envelope: ciphertext, sender and text. *)
Definition readable (env : Fetched) (store : MlsStore) : option (bytes * string * string) :=
  b ← ciphertext_bytes (env_ciphertext env.2);
  match (try_mls_decrypt group b store).2 with
  | Some (plain, sender) => match classify_frame plain with Text t => text ← from_utf8 t; Some (b, sender, text) | Redaction _ => None end
  | None => None
  end.

(** The device when the turn of an envelope comes: the epochs before its own replayed, its own
    entered, and the envelopes of that epoch before it handled. *)
Definition at_turn (entered : N -> MlsStore -> MlsStore) (per_conv : list (string * list Fetched)) (e0 : N) (i : nat)
    (earlier : list (string * Fetched)) (st : LocalDb) : LocalDb :=
  let e := (e0 + N.of_nat i)%N in
  let st := replay_hooks lw entered group per_conv (map (fun j => (e0 + N.of_nat j)%N) (seq 0 i)) st in
  fold_left (fun st ce => decrypt_and_persist_one lw ce.1 group ce.2 st)
    (List.filter (fun ce => bool_decide (epoch_of ce.2 = Some e)) earlier) (mkLocalDb (entered e (mls st)) (messages st)).

(** Message [m] is there or not as before, with what never changes of it. *)
Definition same_at (m : string) (st st' : LocalDb) : Prop :=
  match messages st !! m with
  | Some r => exists r', messages st' !! m = Some r' /\ same_message r r'
  | None => messages st' !! m = None
  end.

Lemma same_at_refl m st : same_at m st st.
Proof. unfold same_at. destruct (messages st !! m) as [r|]; [|done]. exists r. auto using same_message_refl. Qed.

Lemma same_at_trans m st1 st2 st3 : same_at m st1 st2 -> same_at m st2 st3 -> same_at m st1 st3.
Proof.
  unfold same_at. destruct (messages st1 !! m) as [r|]; [|by intros ->].
  intros (r2 & -> & Ha) (r3 & -> & Hb). exists r3. split; [done|by eapply same_message_trans].
Qed.

Lemma fold_same_at {A} m (f : LocalDb -> A -> LocalDb) l st : (forall a s, a ∈ l -> same_at m s (f s a)) -> same_at m st (fold_left f l st).
Proof.
  revert st. induction l as [|a l IH]; intros st Hf; simpl; [apply same_at_refl|].
  eapply same_at_trans; [apply Hf; by left|]. apply IH. intros a' s Ha. apply Hf. by right.
Qed.

(** Handling another envelope neither stores nor removes the message. *)
Lemma persist_other m conv x st : x.1 <> m -> same_at m st (decrypt_and_persist_one lw conv group x st).
Proof.
  intros Hne. pose proof (persist_explained lw group [(conv, x)] conv x st m ltac:(by left)) as Hx. unfold same_at, explained in *.
  destruct (messages st !! m) as [r|]; [destruct Hx as (r' & ? & ? & _); by exists r'|].
  destruct (messages (decrypt_and_persist_one _ _ _ _ _) !! m) as [r'|]; [|done]. exfalso.
  destruct (Hx r' eq_refl) as (env & plain & text & [Hin _] & Hm & _). apply list_elem_of_singleton in Hin. by injection Hin as _ ->.
Qed.

Lemma tombstone_same_at m x st : same_at m st (tombstone lw x st).
Proof.
  unfold tombstone. case_bool_decide; [|apply same_at_refl]. destruct (env_target_message_id x.2) as [t|]; [|apply same_at_refl].
  unfold write_local. destruct (lw_exec_fails _ _); [apply same_at_refl|]. unfold same_at. simpl.
  destruct (decide (t = m)) as [->|Hne]; [rewrite lookup_alter_eq|rewrite lookup_alter_ne by done].
  - destruct (messages st !! m) as [r|]; simpl; [|done]. eexists. split; [done|apply same_redact].
  - destruct (messages st !! m) as [r|]; [|done]. exists r. auto using same_message_refl.
Qed.

(** Handling the envelope itself stores the message it reads, if none is there and the write works. *)
Lemma persist_turn conv env st : env_type env.2 = "message" -> is_Some (ciphertext_bytes (env_ciphertext env.2)) ->
  let st' := decrypt_and_persist_one lw conv group env st in
  match messages st !! env.1 with
  | Some r => messages st' !! env.1 = Some r
  | None => messages st' !! env.1 =
      if lw_exec_fails lw env.1 then None
      else (fun '(b, sender, text) => mkMessage conv sender b (Some text) (env_reply_to_id env.2) (env_sent_at env.2) None None) <$> readable env (mls st)
  end \/ exists r r', messages st !! env.1 = Some r /\ messages st' !! env.1 = Some r' /\ same_message r r'.
Proof.
  intros Ht [b Eb] st'.
  assert (same_at env.1 st st' \/ messages st !! env.1 = None) as Hs.
  { destruct (messages st !! env.1) as [r|] eqn:E; [left|by right].
    pose proof (persist_explained lw group [(conv, env)] conv env st env.1 ltac:(by left)) as Hx. unfold same_at, explained in *.
    rewrite E in *. destruct Hx as (r' & ? & ? & _). by exists r'. }
  destruct (messages st !! env.1) as [r|] eqn:Em.
  { right. destruct Hs as [Hs|Hs]; [|done]. unfold same_at in Hs. rewrite Em in Hs. destruct Hs as (r' & ? & ?). by exists r, r'. }
  left. subst st'. unfold decrypt_and_persist_one, readable. rewrite bool_decide_eq_true_2 by done. rewrite Em.
  rewrite (bool_decide_eq_false_2 (is_Some None)) by (by intros [? ?]). rewrite andb_false_r, Eb. simpl.
  destruct (try_mls_decrypt group b (mls st)) as [store [[plain sender]|]]; simpl; [|by destruct (lw_exec_fails _ _)].
  destruct (classify_frame plain) as [text|target]; simpl.
  - destruct (from_utf8 text) as [t|]; simpl; [|by destruct (lw_exec_fails _ _)]. unfold write_local. destruct (lw_exec_fails _ _); [done|].
    simpl. unfold insert_message. by rewrite Em, lookup_insert_eq.
  - case_bool_decide as Ha; [|by destruct (lw_exec_fails _ _)]. unfold write_local. destruct (lw_exec_fails _ _); [done|]. simpl.
    destruct (decide (target = env.1)) as [->|Hne]; [by rewrite lookup_alter_eq, Em|by rewrite lookup_alter_ne].
Qed.

Definition ids_of (l : list (string * Fetched)) : list string := map (fun ce => ce.2.1) l.

Lemma ids_apart l1 c env l2 : NoDup (ids_of (l1 ++ (c, env) :: l2)) -> forall ce, ce ∈ l1 ++ l2 -> ce.2.1 <> env.1.
Proof.
  unfold ids_of. rewrite map_app. simpl. intros Hnd ce Hin E. apply NoDup_app in Hnd as (_ & H12 & [Hni _]%NoDup_cons).
  apply elem_of_app in Hin as [Hin|Hin].
  - apply (H12 env.1); [|by left]. rewrite <- E. by apply list_elem_of_In, (in_map (fun ce => ce.2.1)), list_elem_of_In.
  - apply Hni. rewrite <- E. by apply list_elem_of_In, (in_map (fun ce => ce.2.1)), list_elem_of_In.
Qed.

(** The replay, seen from one envelope: its epoch's hook is where it is handled. *)
Lemma replay_turn entered per_conv e0 k st c env l1 l2 i : flat per_conv = l1 ++ (c, env) :: l2 -> NoDup (ids_of (flat per_conv)) ->
  epoch_of env = Some (e0 + N.of_nat i)%N -> i <= k ->
  same_at env.1 st (at_turn entered per_conv e0 i l1 st) /\
  same_at env.1 (decrypt_and_persist_one lw c group env (at_turn entered per_conv e0 i l1 st))
    (replay_hooks lw entered group per_conv (epochs_from e0 k) st).
Proof.
  intros Hfl Hnd He Hi. rewrite Hfl in Hnd. pose proof (ids_apart _ _ _ _ Hnd) as Hap.
  assert (forall e s, e <> (e0 + N.of_nat i)%N -> same_at env.1 s (on_epoch lw group per_conv e (mkLocalDb (entered e (mls s)) (messages s)))) as Hother.
  { intros e s Hne. unfold on_epoch. change (same_at env.1 s) with (same_at env.1 (mkLocalDb (entered e (mls s)) (messages s))).
    apply fold_same_at. intros [c' x] s' Hin. apply list_elem_of_In, filter_In in Hin as [Hin%list_elem_of_In Hb]. breflect. simpl in Hb.
    apply persist_other. rewrite Hfl in Hin. apply (Hap (c', x)). apply elem_of_app in Hin as [?|[E|?]%elem_of_cons]; [set_solver| |set_solver].
    injection E as -> ->. congruence. }
  assert (epochs_from e0 k = map (fun j => (e0 + N.of_nat j)%N) (seq 0 i) ++ (e0 + N.of_nat i)%N :: map (fun j => (e0 + N.of_nat j)%N) (seq (S i) (k - i))) as ->.
  { unfold epochs_from. replace (S k) with (i + S (k - i)) by lia. rewrite seq_app, map_app. done. }
  unfold replay_hooks at 1. rewrite fold_left_app. cbn [fold_left]. fold (replay_hooks lw entered group per_conv (map (fun j => (e0 + N.of_nat j)%N) (seq 0 i)) st).
  unfold at_turn. set (s0 := replay_hooks _ _ _ _ _ st). assert (same_at env.1 st s0) as Hs0.
  { apply fold_same_at. intros e s Hin. apply Hother. apply list_elem_of_In, in_map_iff in Hin as (j & <- & Hj%in_seq). lia. }
  cbv zeta. set (s1 := mkLocalDb _ _). assert (same_at env.1 st s1) as Hs1 by exact Hs0.
  split; [eapply same_at_trans; [exact Hs1|]; apply fold_same_at; intros [c' x] s Hin;
    apply list_elem_of_In, filter_In in Hin as [Hin%list_elem_of_In _]; apply persist_other, (Hap (c', x)); set_solver|].
  eapply same_at_trans; [|apply fold_same_at; intros e s Hin; apply Hother;
    apply list_elem_of_In, in_map_iff in Hin as (j & <- & Hj%in_seq); lia].
  unfold on_epoch. rewrite Hfl, List.filter_app, fold_left_app. cbn [List.filter snd]. rewrite (bool_decide_eq_true_2 (epoch_of env = _)) by done.
  cbn [fold_left fst snd]. apply fold_same_at. intros [c' x] s Hin. apply list_elem_of_In, filter_In in Hin as [Hin%list_elem_of_In _].
  apply persist_other, (Hap (c', x)). set_solver.
Qed.

Lemma max_fired_app l e : max_fired (l ++ [e]) = Some (match max_fired l with Some m => N.max m e | None => e end).
Proof. unfold max_fired. by rewrite fold_left_app. Qed.

Lemma max_fired_epochs e0 k : max_fired (epochs_from e0 k) = Some (e0 + N.of_nat k)%N.
Proof.
  induction k as [|k IH]; [unfold epochs_from, max_fired; simpl; f_equal; lia|]. rewrite epochs_from_S, max_fired_app, IH. f_equal. lia.
Qed.

Lemma elem_epochs_from e0 k e : e ∈ epochs_from e0 k <-> (e0 <= e <= e0 + N.of_nat k)%N.
Proof.
  unfold epochs_from. rewrite list_elem_of_In, in_map_iff. setoid_rewrite in_seq. split; [intros (i & <- & ?); lia|].
  intros ?. exists (N.to_nat (e - e0)). lia.
Qed.
End Delivery.

#[export] Instance string_ord_laws : OrdLaws string.
Proof.
  constructor; simpl.
  - apply String.leb_total.
  - intros a b c Hab Hbc. assert (String.le a c) as Hac by (transitivity b; unfold String.le; [by rewrite Hab|by rewrite Hbc]).
    unfold String.le in Hac. by destruct (String.leb a c).
  - apply String.leb_antisym.
Qed.

(** An envelope past the epochs reached is not handled. *)
Lemma unhandled_past `{OpenMls} `{!Hex} e0 k env e : epoch_of env = Some e -> (e0 + N.of_nat k < e)%N ->
  env_handled (max_fired (epochs_from e0 k)) (watermark_view env) = true -> False.
Proof.
  intros He Hlt. unfold env_handled, watermark_view. cbn [fst snd]. rewrite He, max_fired_epochs. unfold epoch_of in He.
  destruct (bool_decide _ || bool_decide _) eqn:Et; [|done].
  assert (EnvKind_from_type (env_type env.2) = Message \/ EnvKind_from_type (env_type env.2) = Edit) as [-> | ->].
  { unfold EnvKind_from_type. apply orb_true_iff in Et as [Et|Et]; rewrite Et; [by left|]. destruct (bool_decide (_ = "message")); [by left|by right]. }
  all: cbn; intros Hh%N.leb_le; lia.
Qed.

Section Theorems.
Context `{OpenMls} `{!Hex} (lw : LocalWorld) (group : string).

(** C13: a fetched message is delivered.  When the replay reaches the epoch a fetched message
    envelope was sealed in (any from [e0] to [e0 + k]), the message is in the local database
    afterwards exactly if it already was, or the local write works and the envelope reads to a
    text in the device's own store at its turn: after the earlier epochs were replayed and that
    epoch was entered, and after the earlier envelopes of that epoch were handled.  A message
    so stored has the text's ciphertext, the sender of the credential, and the envelope's
    conversation, date and reply.  The envelopes of a pass have distinct ids, as the service's
    table keys them by id. *)
Theorem ingest_delivers (entered : N -> MlsStore -> MlsStore) (e0 : N) (k i : nat) (per_conv : list (string * list Fetched)) (st : LocalDb)
    (c : string) (env : Fetched) (l1 l2 : list (string * Fetched)) :
  flat per_conv = l1 ++ (c, env) :: l2 -> NoDup (ids_of (flat per_conv)) ->
  env_type env.2 = "message" -> epoch_of env = Some (e0 + N.of_nat i)%N -> i <= k ->
  let turn := mls (at_turn lw group entered per_conv e0 i l1 st) in
  let st' := (ingest_group_envelopes_interleaved lw entered group (epochs_from e0 k) per_conv st).1 in
  (is_Some (messages st' !! env.1) <->
     is_Some (messages st !! env.1) \/ lw_exec_fails lw env.1 = false /\ is_Some (readable group env turn)) /\
  (forall b sender text, messages st !! env.1 = None -> lw_exec_fails lw env.1 = false -> readable group env turn = Some (b, sender, text) ->
     exists r, messages st' !! env.1 = Some r /\
       same_message (mkMessage c sender b (Some text) (env_reply_to_id env.2) (env_sent_at env.2) None None) r).
Proof.
  intros Hfl Hnd Ht He Hi turn st'. destruct (replay_turn lw group entered per_conv e0 k st c env l1 l2 i Hfl Hnd He Hi) as [Hpre Hpost].
  assert (is_Some (ciphertext_bytes (env_ciphertext env.2))) as Hb.
  { unfold epoch_of in He. rewrite bool_decide_eq_true_2 in He by done. destruct (ciphertext_bytes _); [by eexists|done]. }
  pose proof (persist_turn lw group c env (at_turn lw group entered per_conv e0 i l1 st) Ht Hb) as Hturn. cbv zeta in Hturn.
  assert (same_at env.1 (decrypt_and_persist_one lw c group env (at_turn lw group entered per_conv e0 i l1 st)) st') as Hlast.
  { eapply same_at_trans; [exact Hpost|]. apply fold_same_at. intros ce s _. apply tombstone_same_at. }
  clear Hpost. fold turn in Hturn. clearbody st'. revert Hturn Hlast. generalize (decrypt_and_persist_one lw c group env (at_turn lw group entered per_conv e0 i l1 st)) as s1.
  intros s1 Hturn Hlast. unfold same_at in Hpre, Hlast. destruct (messages st !! env.1) as [r|].
  - destruct Hpre as (r1 & E1 & _). rewrite E1 in Hturn. split; [|done]. split; [intros _; left; by eexists|intros _].
    assert (is_Some (messages s1 !! env.1)) as [r2 E2] by (destruct Hturn as [->|(? & ? & _ & -> & _)]; by eexists).
    rewrite E2 in Hlast. destruct Hlast as (r3 & -> & _). by eexists.
  - rewrite Hpre in Hturn. destruct Hturn as [E1|(? & ? & ? & _)]; [|done]. destruct (lw_exec_fails lw env.1).
    { rewrite E1 in Hlast. rewrite Hlast. split; [|done]. split; [by intros [? ?]|intros [[? ?]|[? _]]; done]. }
    destruct (readable group env turn) as [[[b sender] text]|]; simpl in E1; rewrite E1 in Hlast.
    + destruct Hlast as (r & -> & Hsame). split; [split; [intros _; right; split; [done|by eexists]|by eexists]|].
      intros b' sender' text' _ _ [= <- <- <-]. by exists r.
    + rewrite Hlast. split; [|done]. split; [by intros [? ?]|intros [[? ?]|[_ [? ?]]]; done].
Qed.
End Theorems.

(** ** The fetched rows *)

Lemma elem_insert_row x y l : x ∈ insert_row y l <-> x = y \/ x ∈ l.
Proof. induction l as [|z l IH]; simpl; [set_solver|]. destruct (row_leb y z); set_solver. Qed.

Lemma elem_sort_rows x l : x ∈ sort_rows l <-> x ∈ l.
Proof. unfold sort_rows. induction l as [|y l IH]; simpl; [done|]. rewrite elem_insert_row, IH. set_solver. Qed.

Definition sent_le (a b : Fetched) : Prop := String.leb (env_sent_at a.2) (env_sent_at b.2) = true.

Lemma row_leb_sent a b : if row_leb a b then sent_le a b else sent_le b a.
Proof.
  unfold row_leb, sent_le. destruct (text_lt _ _) eqn:E; simpl.
  - rewrite text_lt_leb, negb_true_iff in E. destruct (String.leb_total (env_sent_at a.2) (env_sent_at b.2)); congruence.
  - rewrite text_lt_leb, negb_false_iff in E. case_bool_decide as Hs; simpl; [|done].
    destruct (String.leb a.1 b.1); [|done]. rewrite Hs. by destruct (String.leb_total (env_sent_at b.2) (env_sent_at b.2)).
Qed.

Lemma sent_le_trans a b c : sent_le a b -> sent_le b c -> sent_le a c.
Proof. exact (leb_trans (S := string) _ _ _). Qed.

Lemma sort_rows_sorted l : ordered sent_le (sort_rows l).
Proof.
  unfold sort_rows. induction l as [|x l IH]; simpl; [apply ordered_nil|]. revert IH. generalize (fold_right insert_row [] l). clear l.
  induction l as [|y l IHl]; intros Ho; simpl; [by apply ordered_cons|]. pose proof (row_leb_sent x y) as Hxy.
  pose proof Ho as [Hy Ho']%ordered_cons. destruct (row_leb x y).
  - apply ordered_cons. split; [|done]. constructor; [done|]. eapply Forall_impl; [exact Hy|]. intros z Hz. by eapply sent_le_trans.
  - apply ordered_cons. split; [|by apply IHl]. apply Forall_forall. intros z [->|Hz]%elem_insert_row; [done|]. by eapply Forall_forall in Hy.
Qed.

Lemma elem_fetch db c u d id row : (id, row) ∈ fetch_envelopes db c u d <->
  envelopes db !! id = Some row /\ env_conversation_id row = c /\
  text_lt (default "" (watermarks db !! (c, u, d))) (env_sent_at row) = true.
Proof.
  unfold fetch_envelopes. rewrite elem_sort_rows, list_elem_of_In, filter_In. cbn [snd].
  assert (In (id, row) (map_to_list (envelopes db)) <-> envelopes db !! id = Some row) as ->
    by (rewrite <- list_elem_of_In; apply elem_of_map_to_list).
  rewrite andb_true_iff, bool_decide_eq_true. tauto.
Qed.

Lemma fetch_sorted `{OpenMls} `{!Hex} db c u d : sent_sorted (map watermark_view (fetch_envelopes db c u d)).
Proof. unfold sent_sorted. apply ordered_map. exact (sort_rows_sorted _). Qed.

(** ** What is left for the next pass *)

Section Refetch.
Context (c u did : string) (dm : bool) (id : string) (row : EnvelopeRow).

(** The envelope is stored, past the device's watermark, and the device is waited for. *)
Definition waiting (db : MsgDb) : Prop :=
  (id, row) ∈ fetch_envelopes db c u did /\ awaited db dm c u did.

Lemma waiting_advance env a c' ts db : (c' = c -> text_lt ts (env_sent_at row) = true) -> waiting db ->
  waiting (run_sql (MessageRoutes.apply_advance_watermark env (Some a) (MessageRoutes.mkWatermark c' (Some u) did ts)) db).1.
Proof.
  intros Hts Hw. set (prog := MessageRoutes.apply_advance_watermark _ _ _).
  assert (wp prog db (fun _ db' => waiting db')) as Hp; [|by specialize (Hp 0)].
  unfold prog, MessageRoutes.apply_advance_watermark, as_actor. cbn [MessageRoutes.wb_user_id].
  destruct (resolve_actor (Some a) (Some u)) as [user|] eqn:Er; [|by apply wp_ret]. repeat wp_step; [done|]. simplify_eq.
  destruct Hw as [Hf Ha]. split; [|exact Ha]. apply elem_fetch in Hf as (He & Hc & Hlt). apply elem_fetch. split_and!; [done|done|].
  cbn [watermarks set_watermarks MessageRoutes.wb_conversation_id MessageRoutes.wb_device_id MessageRoutes.wb_last_fetched_at].
  destruct (decide ((c', user, did) = (c, u, did))) as [[= -> ->]|Hk]; [|by rewrite lookup_insert_ne].
  rewrite lookup_insert_eq. cbn [default]. destruct (watermarks db !! (c, u, did)) as [old|]; cbn [default] in Hlt; [|by apply Hts].
  unfold text_max. destruct (text_lt old ts); [by apply Hts|done].
Qed.

Lemma waiting_gc env a c' db : text_lt (env_sent_at row) (datetime_ttl env) = false -> waiting db ->
  waiting (run_sql (MessageRoutes.apply_envelope_gc env (Some a) (MessageRoutes.mkEnvelopeGc c' dm None)) db).1.
Proof.
  intros Httl Hw. set (prog := MessageRoutes.apply_envelope_gc _ _ _).
  assert (wp prog db (fun _ db' => waiting db')) as Hp; [|by specialize (Hp 0)].
  apply wp_as_actor; [done|]. apply wp_reader; [done..|]. intros _. repeat wp_step; [done|]. simplify_eq.
  destruct Hw as [Hf Ha]. split; [|exact Ha]. apply elem_fetch in Hf as (He & Hc & Hlt). apply elem_fetch. split_and!; [|done|done].
  cbn [envelopes set_envelopes]. rewrite lookup_delete_where, He.
  cbn [MessageRoutes.gc_is_dm MessageRoutes.gc_conversation_id].
  assert (MessageRoutes.gc_doomed env dm c' db row = false) as ->; [|done].
  unfold MessageRoutes.gc_doomed. rewrite Httl. case_bool_decide as Hcc; [|done]. cbn [andb orb]. rewrite Hc in Hcc. subst c'.
  destruct (MessageRoutes.gc_floor dm c db) as [f|] eqn:Ef; [|done]. apply not_true_iff_false. intros Hlf.
  destruct (proj1 (gc_floor_lt dm c db (env_sent_at row)) (ex_intro _ f (conj Ef Hlf))) as [_ Hall].
  destruct (Hall u did) as (w & Hw & Hl); [by apply in_reader_devices|]. rewrite Hw in Hlt. change (text_lt w (env_sent_at row) = true) in Hlt.
  apply text_lt_antisym in Hl. congruence.
Qed.

Lemma waiting_settled service marks n db :
  (forall ts, (c, Some ts) ∈ marks -> text_lt ts (env_sent_at row) = true) ->
  (forall i a env, service i = Some (a, env) -> text_lt (env_sent_at row) (datetime_ttl env) = false) ->
  waiting db -> waiting (settle_all service u (Some did) dm n marks db).
Proof.
  intros Hm Hs. revert n db Hm. induction marks as [|[c' o] marks IH]; intros n db Hm Hw; [done|]. cbn [settle_all].
  apply IH; [intros ts Hin; apply Hm; by right|]. unfold settle, post. cbn [fst snd].
  assert (waiting (match o with
    | Some ts => match service (2 * n) with Some (signer, env) => (run_sql (MessageRoutes.apply_advance_watermark env (Some signer)
        (MessageRoutes.mkWatermark c' (Some u) did ts)) db).1 | None => db end
    | None => db end)) as H1.
  { destruct o as [ts|]; [|done]. destruct (service (2 * n)) as [[a env]|]; [|done]. apply waiting_advance; [|done].
    intros ->. apply Hm. by left. }
  destruct (service (2 * n + 1)) as [[a env]|] eqn:Eg; [|done]. apply waiting_gc; [by eapply Hs|done].
Qed.
End Refetch.

Section Again.
Context `{OpenMls} `{!Hex} (lw : LocalWorld) (group : string).

(** C14: what cannot be decrypted yet is fetched again.  After a catch-up of a group, whatever the
    local database and the service's statements did, every envelope that was fetched and whose
    epoch lies past the epochs the replay reached is still stored and still past the watermark
    of the device, so that the next catch-up fetches it again, as long as the device is one the
    conversation waits for and the envelope is younger than the retention limit. *)
Theorem catch_up_refetches (service : Service) (entered : N -> MlsStore -> MlsStore) (e0 : N) (k : nat) (u did c : string)
    (st : LocalDb) (db : MsgDb) (id : string) (row : EnvelopeRow) (e : N) :
  c ∈ conversation_ids db group -> (id, row) ∈ fetch_envelopes db c u did ->
  epoch_of (id, row) = Some e -> (e0 + N.of_nat k < e)%N ->
  awaited db (is_dm db group) c u did ->
  (forall i a env, service i = Some (a, env) -> text_lt (env_sent_at row) (datetime_ttl env) = false) ->
  (id, row) ∈ fetch_envelopes (catch_up_mls_group_interleaved lw service entered (epochs_from e0 k) group u (Some did) st db).2 c u did.
Proof.
  intros Hc Hin He Hlt Ha Httl. unfold catch_up_mls_group_interleaved.
  destruct (ingest_group_envelopes_interleaved _ _ _ _ _ _) as [st' marks] eqn:E. cbn [snd].
  refine (proj1 (waiting_settled c u did (is_dm db group) id row service marks 0 db _ Httl (conj Hin Ha))).
  intros ts Hts. unfold ingest_group_envelopes_interleaved in E. injection E as _ <-.
  apply list_elem_of_In, in_map_iff in Hts as ([c' envs] & [= <- Hw] & Hpc%list_elem_of_In).
  pose proof Hpc as Hpc'. apply list_elem_of_fmap in Hpc' as (c'' & [= <- ->] & _). cbn [default] in *.
  pose proof (watermark_exact (map watermark_view (fetch_envelopes db c' u did)) (max_fired (epochs_from e0 k)) (fetch_sorted _ _ _ _)) as Hx.
  cbn [fst snd] in Hw. rewrite Hw in Hx. destruct Hx as (_ & Hh & _). specialize (Hh (watermark_view (id, row))).
  rewrite text_lt_leb. apply negb_true_iff, not_true_iff_false. intros Hle.
  assert (env_handled (max_fired (epochs_from e0 k)) (watermark_view (id, row)) = true) as Hhd.
  { apply Hh; [by apply list_elem_of_In, in_map, list_elem_of_In|exact Hle]. }
  eapply unhandled_past; [exact He|exact Hlt|exact Hhd].
Qed.
End Again.

(** ** What is never fetched *)

Lemma wp_send_stored env u b db : wp (MessageRoutes.apply_send_message env (Some u) b) db (fun r db' => r = Ok Applied ->
  exists row, envelopes db' !! MessageRoutes.sm_id b = Some row /\ env_conversation_id row = MessageRoutes.sm_conversation_id b /\
    env_sent_at row = MessageRoutes.sm_sent_at b).
Proof.
  unfold MessageRoutes.apply_send_message. cbv zeta.
  assert (forall v s, wp (guard (Some u) (MessageRoutes.member_of_conversation env (MessageRoutes.sm_conversation_id b) v) (
      let* _ := write env (MessageRoutes.insert_envelope (MessageRoutes.sm_id b) (mkEnvelope (MessageRoutes.sm_conversation_id b) s
        (MessageRoutes.sm_ciphertext b) (MessageRoutes.sm_reply_to_id b) (MessageRoutes.sm_sent_at b) "message" None (MessageRoutes.sm_sealed b))) in
      ret Applied)) db (fun r db' => r = Ok Applied ->
      exists row, envelopes db' !! MessageRoutes.sm_id b = Some row /\ env_conversation_id row = MessageRoutes.sm_conversation_id b /\
        env_sent_at row = MessageRoutes.sm_sent_at b)) as Hk.
  { intros v s. apply wp_reader; [done..|]. intros _. repeat wp_step; [done|]. simplify_eq.
    match goal with H : MessageRoutes.insert_envelope _ _ _ = Some _ |- _ => apply insert_envelope_Some in H as [_ ->] end.
    intros _. eexists. split; [apply lookup_insert_eq|done]. }
  destruct (negb _); [apply Hk|]. destruct (resolve_actor _ _); [apply Hk|by apply wp_ret].
Qed.

(** A message with an old date is never delivered.  The date of a message is the sender's, and
    a device fetches only what is dated past its watermark.  When a member sends a message dated
    at or before the watermark of a reader's device, the service stores it and reports success,
    and the device never fetches it, now or after any later move of its watermark. *)
Theorem late_envelope_lost (env : SqlEnv) (sender u d w : string) (b : MessageRoutes.SendMessageBody) (db db' : MsgDb) :
  run_sql (MessageRoutes.apply_send_message env (Some sender) b) db = (db', Ok Applied) ->
  text_lt w (MessageRoutes.sm_sent_at b) = false ->
  exists row, envelopes db' !! MessageRoutes.sm_id b = Some row /\ env_conversation_id row = MessageRoutes.sm_conversation_id b /\
    forall db'' w'', watermarks db'' !! (MessageRoutes.sm_conversation_id b, u, d) = Some w'' -> text_lt w'' w = false ->
      (MessageRoutes.sm_id b, row) ∉ fetch_envelopes db'' (MessageRoutes.sm_conversation_id b) u d.
Proof.
  intros Hrun Hlt. pose proof (wp_send_stored env sender b db 0) as Hw. unfold run_sql in Hrun. injection Hrun as Hdb Hr.
  rewrite Hr, Hdb in Hw. destruct (Hw eq_refl) as (row & He & Hc & Hs). exists row. split_and!; [done|done|].
  intros db'' w'' Hw'' Hge (_ & _ & Hf)%elem_fetch. rewrite Hw'' in Hf. change (text_lt w'' (env_sent_at row) = true) in Hf. rewrite Hs in Hf.
  pose proof (text_lt_le_trans _ _ w Hf Hlt) as Hx. congruence.
Qed.

(** ** At concrete inputs *)

Section Witnesses.

(** Ciphertexts in the clear, read only in their own epoch: the epoch, the length of the credential, the credential, the text. *)
#[local] Instance clear_mls : OpenMls := {|
  MlsStore := N;
  mls_message_epoch b := N_of_byte <$> b !! 0;
  mls_process_message _ b st :=
    match b with
    | e :: n :: rest =>
        if (N_of_byte e =? st)%N then (st, Some (take (N.to_nat (N_of_byte n)) rest, Some (drop (N.to_nat (N_of_byte n)) rest))) else (st, None)
    | _ => (st, None)
    end
|}.

#[local] Definition enter (e : N) (_ : MlsStore) : MlsStore := e.

#[local] Definition device_with (ms : gmap string MessageRow) : LocalDb := mkLocalDb (0%N : MlsStore) ms.

#[local] Definition sealed (epoch : byte) (user : string) (plain : bytes) : string :=
  let cred := make_credential user "phone" in
  String.append "mls:" (hex_encode (epoch :: byte_of_N (N.of_nat (length cred)) :: cred ++ plain)).

#[local] Definition envelope (conv : string) (epoch : byte) (user sent_at type : string) (target : option string) (plain : bytes) : EnvelopeRow :=
  mkEnvelope conv "sealed" (sealed epoch user plain) None sent_at type target 1.

#[local] Definition quiet : LocalWorld := mkLocalWorld (fun _ => false) (fun _ => false) "now".

#[local] Definition hello : Fetched := ("m1", envelope "chan" x05 "alice" "2026-01-01T00:00:01+00:00" "message" None (as_bytes "hello")).
#[local] Definition forged : Fetched := ("m2", envelope "chan" x05 "mallory" "2026-01-01T00:00:02+00:00" "edit" (Some "m1") (as_bytes "no")).
#[local] Definition edited : Fetched := ("m3", envelope "chan" x06 "alice" "2026-01-01T00:00:03+00:00" "edit" (Some "m1") (as_bytes "hi")).
#[local] Definition ahead : Fetched := ("m4", envelope "chan" x09 "alice" "2026-01-01T00:00:04+00:00" "message" None (as_bytes "later")).

#[local] Definition batch : list (string * list Fetched) := [("chan", [hello; forged; edited; ahead])].

(** The author's edit lands, another member's does not, and the watermark stops before the
    envelope of an epoch not reached. *)
Example edit_by_author :
  let '(st, marks) := ingest_group_envelopes_interleaved quiet enter "g" [5; 6]%N batch (device_with ∅) in
  (msg_content <$> messages st !! "m1") = Some (Some "hi") /\ (msg_sender_id <$> messages st !! "m1") = Some "alice" /\
  messages st !! "m4" = None /\ marks = [("chan", Some "2026-01-01T00:00:03+00:00")].
Proof. vm_compute. split_and!; reflexivity. Qed.

Lemma ingest_delivers_witness :
  let st' := (ingest_group_envelopes_interleaved quiet enter "g" (epochs_from 5 1) batch (device_with ∅)).1 in
  is_Some (messages st' !! hello.1) /\
  exists r, messages st' !! hello.1 = Some r /\ msg_sender_id r = "alice" /\ msg_conversation_id r = "chan".
Proof.
  destruct (ingest_delivers quiet "g" enter 5 1 0 batch (device_with ∅) "chan" hello [] [("chan", forged); ("chan", edited); ("chan", ahead)])
    as [Hiff Hrow].
  - reflexivity.
  - apply (bool_decide_eq_true_1 (NoDup _)). vm_compute. reflexivity.
  - reflexivity.
  - vm_compute. reflexivity.
  - apply Nat.le_0_l.
  - assert (exists b, readable "g" hello (mls (at_turn quiet "g" enter batch 5 0 [] (device_with ∅))) = Some (b, "alice", "hello")) as [b Hb]
      by (eexists; vm_compute; reflexivity).
    cbv zeta. split; [apply Hiff; right; split; [reflexivity|by eexists]|].
    destruct (Hrow b "alice" "hello" (lookup_empty _) eq_refl Hb) as (r & Hr & Hc & Hs & _). exists r. exact (conj Hr (conj Hs Hc)).
Defined.

#[local] Definition steady : SqlEnv :=
  mkSqlEnv (fun _ => false) true "2026-01-01 00:00:00" "2025-12-02 00:00:00" (Some 1767225600%N) "01J0" 0.

#[local] Definition chan_db (w : option string) : MsgDb :=
  mkMsgDb ∅ ∅ [mkDeviceRec "tablet" "bob" None None] {["g" := mkGroup "g" None None "alice" "t"]} {[("g", "alice") := "admin"; ("g", "bob") := "member"]}
    {["chan" := mkChannel "g" "General" None "text"]} ∅ ∅ ∅ ∅ ∅ {[hello.1 := hello.2; ahead.1 := ahead.2]} ∅
    (match w with Some w => {[("chan", "bob", "tablet") := w]} | None => ∅ end) ∅ no_accounts.

#[local] Definition honest_service : Service := fun _ => Some ("bob", steady).

Lemma catch_up_refetches_witness :
  ahead ∈ fetch_envelopes (catch_up_mls_group_interleaved quiet honest_service enter (epochs_from 5 1) "g" "bob" (Some "tablet")
    (device_with ∅) (chan_db None)).2 "chan" "bob" "tablet".
Proof.
  refine (catch_up_refetches quiet "g" honest_service enter 5 1 "bob" "tablet" "chan" (device_with ∅) (chan_db None) ahead.1 ahead.2 9
    _ _ _ _ _ _).
  - apply (bool_decide_eq_true_1 ("chan" ∈ _)). by vm_compute.
  - apply elem_fetch. by vm_compute.
  - by vm_compute.
  - by vm_compute.
  - split; [by exists (mkDeviceRec "tablet" "bob" None None); split; [left|]|].
    assert (is_dm (chan_db None) "g" = false) as -> by by vm_compute. eexists. split; [by vm_compute|]. by eexists.
  - intros i a env [= <- <-]. by vm_compute.
Defined.

(** Bob's tablet has read up to four seconds past; Alice's clock is behind, and her message, sent
    after that, is dated one second past. *)
#[local] Definition slow_clock : MessageRoutes.SendMessageBody :=
  MessageRoutes.mkSendMessage "m9" "chan" (Some "alice") "mls:00" None "2026-01-01T00:00:01.500+00:00" 0.

Lemma late_envelope_lost_witness :
  exists row, envelopes (run_sql (MessageRoutes.apply_send_message steady (Some "alice") slow_clock) (chan_db (Some "2026-01-01T00:00:04+00:00"))).1 !! "m9" = Some row /\
    forall db'' w'', watermarks db'' !! ("chan", "bob", "tablet") = Some w'' -> text_lt w'' "2026-01-01T00:00:04+00:00" = false ->
      ("m9", row) ∉ fetch_envelopes db'' "chan" "bob" "tablet".
Proof.
  set (db := chan_db (Some "2026-01-01T00:00:04+00:00")). set (prog := MessageRoutes.apply_send_message steady (Some "alice") slow_clock).
  assert (run_sql prog db = ((run_sql prog db).1, Ok Applied)) as Hrun by (vm_compute; reflexivity).
  pose proof (late_envelope_lost steady "alice" "bob" "tablet" "2026-01-01T00:00:04+00:00" slow_clock db _ Hrun) as Hx.
  assert (text_lt "2026-01-01T00:00:04+00:00" (MessageRoutes.sm_sent_at slow_clock) = false) as Hlt by (vm_compute; reflexivity).
  destruct (Hx Hlt) as (row & He & _ & Hn). exists row. split; [exact He|exact Hn].
Defined.

(** A tombstone in one conversation deletes a message of another. *)
Example tombstone_crosses_conversations :
  let stored : gmap string MessageRow := {["m1" := mkMessage "private-dm" "alice" [] (Some "hello") None "t" None None]} in
  let tomb : Fetched := ("t1", mkEnvelope "other-group-chan" "mallory" "" None "2026-01-02T00:00:00Z" "delete" (Some "m1") 0) in
  let '(st, _) := ingest_group_envelopes_interleaved quiet enter "other" [1]%N [("other-group-chan", [tomb])] (device_with stored) in
  (msg_content <$> messages st !! "m1") = Some None.
Proof. by vm_compute. Qed.

(** An edit that cannot be applied yet is not retried: its message does not decrypt this time, the
    edit is dropped, and the watermark passes both. *)
Example edit_dropped_with_its_message :
  let lost : Fetched := ("m1", mkEnvelope "chan" "sealed" "mls:05" None "2026-01-01T00:00:01+00:00" "message" None 1) in
  let '(st, marks) := ingest_group_envelopes_interleaved quiet enter "g" [5; 6]%N [("chan", [lost; edited])] (device_with ∅) in
  messages st = ∅ /\ marks = [("chan", Some "2026-01-01T00:00:03+00:00")].
Proof. vm_compute. split; reflexivity. Qed.
End Witnesses.
