(* ===== verification/Storage.v ===== *)
(** * pollis-core: the MLS key store

    Models [signal/mls_storage.rs]: the [StorageProvider] that keeps all state of the MLS
    library in one table of the local database, every entity under a key made of a label, the
    serialised lookup key and a version.  The types stored are the MLS library's; they and their
    JSON are parameters.  Any statement may fail; a failed statement changes nothing.

    [storage_refines]: for a device whose leaf in each group is fixed, the table implements a
    store with one independent cell per kind of entity and lookup key, operation by operation,
    and an operation that fails has changed at most the cells it names.  [epoch_keys_collide]:
    with two leaves it does not.  [proposal_queue_inv]: the queue and the proposals stay
    together through failures. *)

From stdpp Require Import base list strings gmap pretty.
From Stdlib Require Import NArith Lia.
From Stdlib Require Import Strings.Byte.
From S2P Require Import Prelude Crypto Text.

(** ** The table *)

(** What a column holds: the [scope] of the library's rows is the empty blob, which SQLite does
    not compare equal to any text. *)
Inductive SqlValue := Text (s : string) | Blob (b : bytes).

#[global] Instance SqlValue_eq_dec : EqDecision SqlValue.
Proof. solve_decision. Defined.

#[global] Instance SqlValue_countable : Countable SqlValue :=
  inj_countable' (fun v => match v with Text s => inl s | Blob b => inr b end)
    (fun v => match v with inl s => Text s | inr b => Blob b end) ltac:(by intros []).

(** [mls_kv], by its primary key [(scope, key)], and how many statements have run. *)
Record Connection := mkConnection { mls_kv : gmap (SqlValue * bytes) bytes; statements : nat }.

Inductive MlsStorageError := Sqlite | Serde (message : string).

Definition MLS (A : Type) : Type := Connection -> Connection * Result A MlsStorageError.

Definition sret {A} (r : Result A MlsStorageError) : MLS A := fun c => (c, r).

Definition sbind {A B} (m : MLS A) (k : A -> MLS B) : MLS B :=
  fun c => match m c with (c1, Ok a) => k a c1 | (c1, Err e) => (c1, Err e) end.

Notation "'let$' x := m 'in' k" := (sbind m (fun x => k))
  (at level 10, x name, m at level 100, k at level 200) : rust_scope.

(** The [?] after a call of [serde_json]. *)
Definition serde {A J} `{SerdeJson J} (r : Result A JsonError) : MLS A :=
  sret (map_err (fun e => Serde (json_error_display e)) r).

(** [serde_json::to_vec] of a [u32]. *)
Definition u32_to_vec (n : N) : bytes := as_bytes (pretty n).

Section MlsStore.
Context (fails : nat -> bool).

Definition execute (f : gmap (SqlValue * bytes) bytes -> gmap (SqlValue * bytes) bytes) : MLS unit :=
  fun c => if fails (statements c) then (mkConnection (mls_kv c) (S (statements c)), Err Sqlite)
           else (mkConnection (f (mls_kv c)) (S (statements c)), Ok tt).

Definition query_row (k : SqlValue * bytes) : MLS (option bytes) :=
  fun c => (mkConnection (mls_kv c) (S (statements c)),
            if fails (statements c) then Err Sqlite else Ok (mls_kv c !! k)).

(** ** Labels and keys *)

Definition KEY_PACKAGE_LABEL : bytes := as_bytes "KeyPackage".
Definition PSK_LABEL : bytes := as_bytes "Psk".
Definition ENCRYPTION_KEY_PAIR_LABEL : bytes := as_bytes "EncryptionKeyPair".
Definition SIGNATURE_KEY_PAIR_LABEL : bytes := as_bytes "SignatureKeyPair".
Definition EPOCH_KEY_PAIRS_LABEL : bytes := as_bytes "EpochKeyPairs".
Definition TREE_LABEL : bytes := as_bytes "Tree".
Definition GROUP_CONTEXT_LABEL : bytes := as_bytes "GroupContext".
Definition INTERIM_TRANSCRIPT_HASH_LABEL : bytes := as_bytes "InterimTranscriptHash".
Definition CONFIRMATION_TAG_LABEL : bytes := as_bytes "ConfirmationTag".
Definition JOIN_CONFIG_LABEL : bytes := as_bytes "MlsGroupJoinConfig".
Definition OWN_LEAF_NODES_LABEL : bytes := as_bytes "OwnLeafNodes".
Definition GROUP_STATE_LABEL : bytes := as_bytes "GroupState".
Definition QUEUED_PROPOSAL_LABEL : bytes := as_bytes "QueuedProposal".
Definition PROPOSAL_QUEUE_REFS_LABEL : bytes := as_bytes "ProposalQueueRefs".
Definition OWN_LEAF_NODE_INDEX_LABEL : bytes := as_bytes "OwnLeafNodeIndex".
Definition EPOCH_SECRETS_LABEL : bytes := as_bytes "EpochSecrets".
Definition RESUMPTION_PSK_STORE_LABEL : bytes := as_bytes "ResumptionPsk".
Definition MESSAGE_SECRETS_LABEL : bytes := as_bytes "MessageSecrets".

(** [CURRENT_VERSION] is the MLS library's. *)
Context (CURRENT_VERSION : N).

Definition build_key (label key_bytes : bytes) : bytes := label ++ key_bytes ++ be_bytes 2 CURRENT_VERSION.

Definition epoch_key_pairs_id {GroupId EpochKey} `{SerdeJson GroupId} `{SerdeJson EpochKey}
    (group_id : GroupId) (epoch : EpochKey) (leaf_index : N) : MLS bytes :=
  let$ g := serde (to_vec group_id) in
  let$ e := serde (to_vec epoch) in
  sret (Ok (g ++ e ++ u32_to_vec leaf_index)).

(** ** Rows *)

Definition scope : SqlValue := Blob [].

Definition raw_write (storage_key value : bytes) : MLS unit := execute <[(scope, storage_key) := value]>.

Definition raw_read (storage_key : bytes) : MLS (option bytes) := query_row (scope, storage_key).

Definition raw_delete (storage_key : bytes) : MLS unit := execute (delete (scope, storage_key)).

Definition write (label key value : bytes) : MLS unit := raw_write (build_key label key) value.

Definition read {Ent} `{SerdeJson Ent} (label key : bytes) : MLS (option Ent) :=
  let$ row := raw_read (build_key label key) in
  match row with
  | Some b => let$ v := serde (from_slice b) in sret (Ok (Some v))
  | None => sret (Ok None)
  end.

Definition delete_row (label key : bytes) : MLS unit := raw_delete (build_key label key).

(** *** Lists: a JSON array of serialised items *)

Context `{SerdeJson (list bytes)}.

(** [list.iter().map(from_slice).collect()] *)
Fixpoint decode_items {Ent} `{SerdeJson Ent} (l : list bytes) : MLS (list Ent) :=
  match l with
  | [] => sret (Ok [])
  | b :: l' => let$ x := serde (from_slice b) in let$ xs := decode_items l' in sret (Ok (x :: xs))
  end.

Definition read_list {Ent} `{SerdeJson Ent} (label key : bytes) : MLS (list Ent) :=
  let$ row := raw_read (build_key label key) in
  match row with
  | None => sret (Ok [])
  | Some b => let$ l := serde (from_slice b) in decode_items l
  end.

Definition append (label key value : bytes) : MLS unit :=
  let$ row := raw_read (build_key label key) in
  let$ l := match row with Some b => serde (from_slice b) | None => sret (Ok []) end in
  let$ out := serde (to_vec (l ++ [value])) in
  raw_write (build_key label key) out.

(** [if let Some(pos) = list.iter().position(..) { list.remove(pos) }] *)
Fixpoint remove_first (value : bytes) (l : list bytes) : list bytes :=
  match l with [] => [] | b :: l' => if bool_decide (b = value) then l' else b :: remove_first value l' end.

Definition remove_item (label key value : bytes) : MLS unit :=
  let$ row := raw_read (build_key label key) in
  match row with
  | None => sret (Ok tt)
  | Some b =>
      let$ l := serde (from_slice b) in
      let$ out := serde (to_vec (remove_first value l)) in
      raw_write (build_key label key) out
  end.

(** ** StorageProvider

    Most methods serialise the lookup key, and then what is stored, and run one statement. *)

Definition put_entity {K V} `{SerdeJson K} `{SerdeJson V} (label : bytes) (k : K) (v : V) : MLS unit :=
  let$ kb := serde (to_vec k) in
  let$ vb := serde (to_vec v) in
  write label kb vb.

Definition get_entity {K V} `{SerdeJson K} `{SerdeJson V} (label : bytes) (k : K) : MLS (option V) :=
  let$ kb := serde (to_vec k) in read label kb.

Definition drop_entity {K} `{SerdeJson K} (label : bytes) (k : K) : MLS unit :=
  let$ kb := serde (to_vec k) in delete_row label kb.

Definition push_entity {K V} `{SerdeJson K} `{SerdeJson V} (label : bytes) (k : K) (v : V) : MLS unit :=
  let$ kb := serde (to_vec k) in
  let$ vb := serde (to_vec v) in
  append label kb vb.

Definition get_entities {K V} `{SerdeJson K} `{SerdeJson V} (label : bytes) (k : K) : MLS (list V) :=
  let$ kb := serde (to_vec k) in read_list label kb.

End MlsStore.

(** The MLS library's types and their JSON. *)
Class MlsTypes := {
  GroupId : Type; ProposalRef : Type; SignaturePublicKey : Type; EncryptionKey : Type; EpochKey : Type;
  HashReference : Type; PskId : Type;
  MlsGroupJoinConfig : Type; LeafNode : Type; QueuedProposal : Type; TreeSync : Type;
  InterimTranscriptHash : Type; GroupContext : Type; ConfirmationTag : Type; GroupState : Type;
  MessageSecrets : Type; ResumptionPskStore : Type; LeafNodeIndex : Type; GroupEpochSecrets : Type;
  SignatureKeyPair : Type; HpkeKeyPair : Type; KeyPackage : Type; PskBundle : Type
}.

Class MlsJson `{MlsTypes} := {
  items_json :: SerdeJson (list bytes); GroupId_json :: SerdeJson GroupId; ProposalRef_json :: SerdeJson ProposalRef;
  SignaturePublicKey_json :: SerdeJson SignaturePublicKey; EncryptionKey_json :: SerdeJson EncryptionKey;
  EpochKey_json :: SerdeJson EpochKey; HashReference_json :: SerdeJson HashReference; PskId_json :: SerdeJson PskId;
  MlsGroupJoinConfig_json :: SerdeJson MlsGroupJoinConfig; LeafNode_json :: SerdeJson LeafNode;
  QueuedProposal_json :: SerdeJson QueuedProposal; TreeSync_json :: SerdeJson TreeSync;
  InterimTranscriptHash_json :: SerdeJson InterimTranscriptHash; GroupContext_json :: SerdeJson GroupContext;
  ConfirmationTag_json :: SerdeJson ConfirmationTag; GroupState_json :: SerdeJson GroupState;
  MessageSecrets_json :: SerdeJson MessageSecrets; ResumptionPskStore_json :: SerdeJson ResumptionPskStore;
  LeafNodeIndex_json :: SerdeJson LeafNodeIndex; GroupEpochSecrets_json :: SerdeJson GroupEpochSecrets;
  SignatureKeyPair_json :: SerdeJson SignatureKeyPair; HpkeKeyPair_json :: SerdeJson HpkeKeyPair;
  HpkeKeyPairs_json :: SerdeJson (list HpkeKeyPair); KeyPackage_json :: SerdeJson KeyPackage;
  PskBundle_json :: SerdeJson PskBundle; proposal_key_json :: SerdeJson (GroupId * ProposalRef)
}.

Section Provider.
Context `{MlsTypes} `{!MlsJson} (fails : nat -> bool) (CURRENT_VERSION : N).

(** *** Writes *)

Definition write_mls_join_config (group_id : GroupId) (v : MlsGroupJoinConfig) : MLS unit := put_entity fails CURRENT_VERSION JOIN_CONFIG_LABEL group_id v.

Definition append_own_leaf_node (group_id : GroupId) (leaf_node : LeafNode) : MLS unit :=
  push_entity fails CURRENT_VERSION OWN_LEAF_NODES_LABEL group_id leaf_node.

Definition queue_proposal (group_id : GroupId) (proposal_ref : ProposalRef) (proposal : QueuedProposal) : MLS unit :=
  let$ _ := put_entity fails CURRENT_VERSION QUEUED_PROPOSAL_LABEL (group_id, proposal_ref) proposal in
  push_entity fails CURRENT_VERSION PROPOSAL_QUEUE_REFS_LABEL group_id proposal_ref.

Definition write_tree (group_id : GroupId) (v : TreeSync) : MLS unit := put_entity fails CURRENT_VERSION TREE_LABEL group_id v.

Definition write_interim_transcript_hash (group_id : GroupId) (v : InterimTranscriptHash) : MLS unit := put_entity fails CURRENT_VERSION INTERIM_TRANSCRIPT_HASH_LABEL group_id v.

Definition write_context (group_id : GroupId) (v : GroupContext) : MLS unit := put_entity fails CURRENT_VERSION GROUP_CONTEXT_LABEL group_id v.

Definition write_confirmation_tag (group_id : GroupId) (v : ConfirmationTag) : MLS unit := put_entity fails CURRENT_VERSION CONFIRMATION_TAG_LABEL group_id v.

Definition write_group_state (group_id : GroupId) (v : GroupState) : MLS unit := put_entity fails CURRENT_VERSION GROUP_STATE_LABEL group_id v.

Definition write_message_secrets (group_id : GroupId) (v : MessageSecrets) : MLS unit := put_entity fails CURRENT_VERSION MESSAGE_SECRETS_LABEL group_id v.

Definition write_resumption_psk_store (group_id : GroupId) (v : ResumptionPskStore) : MLS unit := put_entity fails CURRENT_VERSION RESUMPTION_PSK_STORE_LABEL group_id v.

Definition write_own_leaf_index (group_id : GroupId) (v : LeafNodeIndex) : MLS unit := put_entity fails CURRENT_VERSION OWN_LEAF_NODE_INDEX_LABEL group_id v.

Definition write_group_epoch_secrets (group_id : GroupId) (v : GroupEpochSecrets) : MLS unit := put_entity fails CURRENT_VERSION EPOCH_SECRETS_LABEL group_id v.

Definition write_signature_key_pair (public_key : SignaturePublicKey) (v : SignatureKeyPair) : MLS unit := put_entity fails CURRENT_VERSION SIGNATURE_KEY_PAIR_LABEL public_key v.

Definition write_encryption_key_pair (public_key : EncryptionKey) (v : HpkeKeyPair) : MLS unit := put_entity fails CURRENT_VERSION ENCRYPTION_KEY_PAIR_LABEL public_key v.

Definition write_encryption_epoch_key_pairs (group_id : GroupId) (epoch : EpochKey) (leaf_index : N)
    (key_pairs : list HpkeKeyPair) : MLS unit :=
  let$ key := epoch_key_pairs_id group_id epoch leaf_index in
  let$ value := serde (to_vec key_pairs) in
  write fails CURRENT_VERSION EPOCH_KEY_PAIRS_LABEL key value.

Definition write_key_package (hash_ref : HashReference) (v : KeyPackage) : MLS unit := put_entity fails CURRENT_VERSION KEY_PACKAGE_LABEL hash_ref v.

Definition write_psk (psk_id : PskId) (v : PskBundle) : MLS unit := put_entity fails CURRENT_VERSION PSK_LABEL psk_id v.

(** *** Reads *)

Definition mls_group_join_config (group_id : GroupId) : MLS (option MlsGroupJoinConfig) := get_entity fails CURRENT_VERSION JOIN_CONFIG_LABEL group_id.

Definition own_leaf_nodes (group_id : GroupId) : MLS (list LeafNode) :=
  get_entities fails CURRENT_VERSION OWN_LEAF_NODES_LABEL group_id.

Definition queued_proposal_refs (group_id : GroupId) : MLS (list ProposalRef) :=
  get_entities fails CURRENT_VERSION PROPOSAL_QUEUE_REFS_LABEL group_id.

(** The closure [queued_proposals] maps over the refs. *)
Definition queued_proposal (group_id : GroupId) (proposal_ref : ProposalRef) : MLS (ProposalRef * QueuedProposal) :=
  let$ p := get_entity fails CURRENT_VERSION QUEUED_PROPOSAL_LABEL (group_id, proposal_ref) in
  match p with
  | Some proposal => sret (Ok (proposal_ref, proposal))
  | None => sret (Err (Serde "missing queued proposal"))
  end.

Fixpoint collect {A B} (f : A -> MLS B) (l : list A) : MLS (list B) :=
  match l with
  | [] => sret (Ok [])
  | a :: l' => let$ b := f a in let$ bs := collect f l' in sret (Ok (b :: bs))
  end.

Definition queued_proposals (group_id : GroupId) : MLS (list (ProposalRef * QueuedProposal)) :=
  let$ refs := queued_proposal_refs group_id in
  collect (queued_proposal group_id) refs.

Definition tree (group_id : GroupId) : MLS (option TreeSync) := get_entity fails CURRENT_VERSION TREE_LABEL group_id.

Definition interim_transcript_hash (group_id : GroupId) : MLS (option InterimTranscriptHash) := get_entity fails CURRENT_VERSION INTERIM_TRANSCRIPT_HASH_LABEL group_id.

Definition group_context (group_id : GroupId) : MLS (option GroupContext) := get_entity fails CURRENT_VERSION GROUP_CONTEXT_LABEL group_id.

Definition confirmation_tag (group_id : GroupId) : MLS (option ConfirmationTag) := get_entity fails CURRENT_VERSION CONFIRMATION_TAG_LABEL group_id.

Definition group_state (group_id : GroupId) : MLS (option GroupState) := get_entity fails CURRENT_VERSION GROUP_STATE_LABEL group_id.

Definition message_secrets (group_id : GroupId) : MLS (option MessageSecrets) := get_entity fails CURRENT_VERSION MESSAGE_SECRETS_LABEL group_id.

Definition resumption_psk_store (group_id : GroupId) : MLS (option ResumptionPskStore) := get_entity fails CURRENT_VERSION RESUMPTION_PSK_STORE_LABEL group_id.

Definition own_leaf_index (group_id : GroupId) : MLS (option LeafNodeIndex) := get_entity fails CURRENT_VERSION OWN_LEAF_NODE_INDEX_LABEL group_id.

Definition group_epoch_secrets (group_id : GroupId) : MLS (option GroupEpochSecrets) := get_entity fails CURRENT_VERSION EPOCH_SECRETS_LABEL group_id.

Definition signature_key_pair (public_key : SignaturePublicKey) : MLS (option SignatureKeyPair) := get_entity fails CURRENT_VERSION SIGNATURE_KEY_PAIR_LABEL public_key.

Definition encryption_key_pair (public_key : EncryptionKey) : MLS (option HpkeKeyPair) := get_entity fails CURRENT_VERSION ENCRYPTION_KEY_PAIR_LABEL public_key.

Definition encryption_epoch_key_pairs (group_id : GroupId) (epoch : EpochKey) (leaf_index : N)
    : MLS (list HpkeKeyPair) :=
  let$ key := epoch_key_pairs_id group_id epoch leaf_index in
  let$ row := raw_read fails (build_key CURRENT_VERSION EPOCH_KEY_PAIRS_LABEL key) in
  match row with
  | None => sret (Ok [])
  | Some b => serde (from_slice b)
  end.

Definition key_package (hash_ref : HashReference) : MLS (option KeyPackage) := get_entity fails CURRENT_VERSION KEY_PACKAGE_LABEL hash_ref.

Definition psk (psk_id : PskId) : MLS (option PskBundle) := get_entity fails CURRENT_VERSION PSK_LABEL psk_id.

(** *** Deletes *)

Definition remove_proposal (group_id : GroupId) (proposal_ref : ProposalRef) : MLS unit :=
  let$ g := serde (to_vec group_id) in
  let$ r := serde (to_vec proposal_ref) in
  let$ _ := remove_item fails CURRENT_VERSION PROPOSAL_QUEUE_REFS_LABEL g r in
  drop_entity fails CURRENT_VERSION QUEUED_PROPOSAL_LABEL (group_id, proposal_ref).

Definition delete_own_leaf_nodes (group_id : GroupId) : MLS unit := drop_entity fails CURRENT_VERSION OWN_LEAF_NODES_LABEL group_id.

Definition delete_group_config (group_id : GroupId) : MLS unit := drop_entity fails CURRENT_VERSION JOIN_CONFIG_LABEL group_id.

Definition delete_tree (group_id : GroupId) : MLS unit := drop_entity fails CURRENT_VERSION TREE_LABEL group_id.

Definition delete_confirmation_tag (group_id : GroupId) : MLS unit := drop_entity fails CURRENT_VERSION CONFIRMATION_TAG_LABEL group_id.

Definition delete_group_state (group_id : GroupId) : MLS unit := drop_entity fails CURRENT_VERSION GROUP_STATE_LABEL group_id.

Definition delete_context (group_id : GroupId) : MLS unit := drop_entity fails CURRENT_VERSION GROUP_CONTEXT_LABEL group_id.

Definition delete_interim_transcript_hash (group_id : GroupId) : MLS unit := drop_entity fails CURRENT_VERSION INTERIM_TRANSCRIPT_HASH_LABEL group_id.

Definition delete_message_secrets (group_id : GroupId) : MLS unit := drop_entity fails CURRENT_VERSION MESSAGE_SECRETS_LABEL group_id.

Definition delete_all_resumption_psk_secrets (group_id : GroupId) : MLS unit := drop_entity fails CURRENT_VERSION RESUMPTION_PSK_STORE_LABEL group_id.

Definition delete_own_leaf_index (group_id : GroupId) : MLS unit := drop_entity fails CURRENT_VERSION OWN_LEAF_NODE_INDEX_LABEL group_id.

Definition delete_group_epoch_secrets (group_id : GroupId) : MLS unit := drop_entity fails CURRENT_VERSION EPOCH_SECRETS_LABEL group_id.

(** [for proposal_ref in &refs { .. }] *)
Fixpoint delete_proposals (group_id : GroupId) (refs : list ProposalRef) : MLS unit :=
  match refs with
  | [] => sret (Ok tt)
  | r :: refs' =>
      let$ _ := drop_entity fails CURRENT_VERSION QUEUED_PROPOSAL_LABEL (group_id, r) in
      delete_proposals group_id refs'
  end.

Definition clear_proposal_queue (group_id : GroupId) : MLS unit :=
  let$ refs := queued_proposal_refs group_id in
  let$ _ := delete_proposals group_id refs in
  drop_entity fails CURRENT_VERSION PROPOSAL_QUEUE_REFS_LABEL group_id.

Definition delete_signature_key_pair (public_key : SignaturePublicKey) : MLS unit := drop_entity fails CURRENT_VERSION SIGNATURE_KEY_PAIR_LABEL public_key.

Definition delete_encryption_key_pair (public_key : EncryptionKey) : MLS unit := drop_entity fails CURRENT_VERSION ENCRYPTION_KEY_PAIR_LABEL public_key.

Definition delete_encryption_epoch_key_pairs (group_id : GroupId) (epoch : EpochKey) (leaf_index : N) : MLS unit :=
  let$ key := epoch_key_pairs_id group_id epoch leaf_index in
  delete_row fails CURRENT_VERSION EPOCH_KEY_PAIRS_LABEL key.

Definition delete_key_package (hash_ref : HashReference) : MLS unit := drop_entity fails CURRENT_VERSION KEY_PACKAGE_LABEL hash_ref.

Definition delete_psk (psk_id : PskId) : MLS unit := drop_entity fails CURRENT_VERSION PSK_LABEL psk_id.

End Provider.

(** ** What the store promises

    One cell per kind of entity and lookup key, each independent of the others.  An absent list
    is the empty list. *)

Section Spec.
Context `{MlsTypes} `{!MlsJson}.

Inductive Slot :=
| SJoinConfig (g : GroupId) | SOwnLeafNodes (g : GroupId) | SQueuedProposal (g : GroupId) (r : ProposalRef)
| SProposalRefs (g : GroupId) | STree (g : GroupId) | SInterimTranscriptHash (g : GroupId)
| SGroupContext (g : GroupId) | SConfirmationTag (g : GroupId) | SGroupState (g : GroupId)
| SMessageSecrets (g : GroupId) | SResumptionPsk (g : GroupId) | SOwnLeafIndex (g : GroupId)
| SEpochSecrets (g : GroupId) | SSignatureKeyPair (k : SignaturePublicKey) | SEncryptionKeyPair (k : EncryptionKey)
| SEpochKeyPairs (g : GroupId) (e : EpochKey) (leaf : N) | SKeyPackage (k : HashReference) | SPsk (k : PskId).

Definition content (s : Slot) : Type :=
  match s with
  | SJoinConfig _ => option MlsGroupJoinConfig | SOwnLeafNodes _ => list LeafNode
  | SQueuedProposal _ _ => option QueuedProposal | SProposalRefs _ => list ProposalRef
  | STree _ => option TreeSync | SInterimTranscriptHash _ => option InterimTranscriptHash
  | SGroupContext _ => option GroupContext | SConfirmationTag _ => option ConfirmationTag
  | SGroupState _ => option GroupState | SMessageSecrets _ => option MessageSecrets
  | SResumptionPsk _ => option ResumptionPskStore | SOwnLeafIndex _ => option LeafNodeIndex
  | SEpochSecrets _ => option GroupEpochSecrets | SSignatureKeyPair _ => option SignatureKeyPair
  | SEncryptionKeyPair _ => option HpkeKeyPair | SEpochKeyPairs _ _ _ => list HpkeKeyPair
  | SKeyPackage _ => option KeyPackage | SPsk _ => option PskBundle
  end.

Definition empty_content (s : Slot) : content s :=
  match s with
  | SOwnLeafNodes _ | SProposalRefs _ | SEpochKeyPairs _ _ _ => []
  | _ => None
  end.

Definition Store : Type := forall s : Slot, content s.

Definition empty_store : Store := empty_content.

Context `{EqDecision Slot}.

Definition assign (s : Slot) (x : content s) (st : Store) : Store :=
  fun s' => match decide (s = s') with
            | left e => eq_rect s content x s' e
            | right _ => st s'
            end.

Definition clear (s : Slot) : Store -> Store := assign s (empty_content s).

(** One call of a method that writes. *)
Inductive Op :=
| WriteJoinConfig (g : GroupId) (v : MlsGroupJoinConfig) | AppendOwnLeafNode (g : GroupId) (v : LeafNode)
| QueueProposal (g : GroupId) (r : ProposalRef) (p : QueuedProposal) | WriteTree (g : GroupId) (v : TreeSync)
| WriteInterimTranscriptHash (g : GroupId) (v : InterimTranscriptHash) | WriteContext (g : GroupId) (v : GroupContext)
| WriteConfirmationTag (g : GroupId) (v : ConfirmationTag) | WriteGroupState (g : GroupId) (v : GroupState)
| WriteMessageSecrets (g : GroupId) (v : MessageSecrets) | WriteResumptionPsk (g : GroupId) (v : ResumptionPskStore)
| WriteOwnLeafIndex (g : GroupId) (v : LeafNodeIndex) | WriteEpochSecrets (g : GroupId) (v : GroupEpochSecrets)
| WriteSignatureKeyPair (k : SignaturePublicKey) (v : SignatureKeyPair)
| WriteEncryptionKeyPair (k : EncryptionKey) (v : HpkeKeyPair)
| WriteEpochKeyPairs (g : GroupId) (e : EpochKey) (leaf : N) (v : list HpkeKeyPair)
| WriteKeyPackage (k : HashReference) (v : KeyPackage) | WritePsk (k : PskId) (v : PskBundle)
| RemoveProposal (g : GroupId) (r : ProposalRef) | ClearProposalQueue (g : GroupId)
| DeleteOwnLeafNodes (g : GroupId) | DeleteGroupConfig (g : GroupId) | DeleteTree (g : GroupId)
| DeleteConfirmationTag (g : GroupId) | DeleteGroupState (g : GroupId) | DeleteContext (g : GroupId)
| DeleteInterimTranscriptHash (g : GroupId) | DeleteMessageSecrets (g : GroupId) | DeleteResumptionPsk (g : GroupId)
| DeleteOwnLeafIndex (g : GroupId) | DeleteEpochSecrets (g : GroupId) | DeleteSignatureKeyPair (k : SignaturePublicKey)
| DeleteEncryptionKeyPair (k : EncryptionKey) | DeleteEpochKeyPairs (g : GroupId) (e : EpochKey) (leaf : N)
| DeleteKeyPackage (k : HashReference) | DeletePsk (k : PskId).

Fixpoint remove_ref `{EqDecision ProposalRef} (r : ProposalRef) (l : list ProposalRef) : list ProposalRef :=
  match l with [] => [] | x :: l' => if decide (x = r) then l' else x :: remove_ref r l' end.

Definition perform `{EqDecision ProposalRef} (op : Op) (st : Store) : Store :=
  match op with
  | WriteJoinConfig g v => assign (SJoinConfig g) (Some v) st
  | AppendOwnLeafNode g v => assign (SOwnLeafNodes g) (st (SOwnLeafNodes g) ++ [v]) st
  | QueueProposal g r p =>
      assign (SProposalRefs g) (st (SProposalRefs g) ++ [r]) (assign (SQueuedProposal g r) (Some p) st)
  | WriteTree g v => assign (STree g) (Some v) st
  | WriteInterimTranscriptHash g v => assign (SInterimTranscriptHash g) (Some v) st
  | WriteContext g v => assign (SGroupContext g) (Some v) st
  | WriteConfirmationTag g v => assign (SConfirmationTag g) (Some v) st
  | WriteGroupState g v => assign (SGroupState g) (Some v) st
  | WriteMessageSecrets g v => assign (SMessageSecrets g) (Some v) st
  | WriteResumptionPsk g v => assign (SResumptionPsk g) (Some v) st
  | WriteOwnLeafIndex g v => assign (SOwnLeafIndex g) (Some v) st
  | WriteEpochSecrets g v => assign (SEpochSecrets g) (Some v) st
  | WriteSignatureKeyPair k v => assign (SSignatureKeyPair k) (Some v) st
  | WriteEncryptionKeyPair k v => assign (SEncryptionKeyPair k) (Some v) st
  | WriteEpochKeyPairs g e leaf v => assign (SEpochKeyPairs g e leaf) v st
  | WriteKeyPackage k v => assign (SKeyPackage k) (Some v) st
  | WritePsk k v => assign (SPsk k) (Some v) st
  | RemoveProposal g r =>
      clear (SQueuedProposal g r) (assign (SProposalRefs g) (remove_ref r (st (SProposalRefs g))) st)
  | ClearProposalQueue g =>
      clear (SProposalRefs g) (foldl (fun st r => clear (SQueuedProposal g r) st) st (st (SProposalRefs g)))
  | DeleteOwnLeafNodes g => clear (SOwnLeafNodes g) st
  | DeleteGroupConfig g => clear (SJoinConfig g) st
  | DeleteTree g => clear (STree g) st
  | DeleteConfirmationTag g => clear (SConfirmationTag g) st
  | DeleteGroupState g => clear (SGroupState g) st
  | DeleteContext g => clear (SGroupContext g) st
  | DeleteInterimTranscriptHash g => clear (SInterimTranscriptHash g) st
  | DeleteMessageSecrets g => clear (SMessageSecrets g) st
  | DeleteResumptionPsk g => clear (SResumptionPsk g) st
  | DeleteOwnLeafIndex g => clear (SOwnLeafIndex g) st
  | DeleteEpochSecrets g => clear (SEpochSecrets g) st
  | DeleteSignatureKeyPair k => clear (SSignatureKeyPair k) st
  | DeleteEncryptionKeyPair k => clear (SEncryptionKeyPair k) st
  | DeleteEpochKeyPairs g e leaf => clear (SEpochKeyPairs g e leaf) st
  | DeleteKeyPackage k => clear (SKeyPackage k) st
  | DeletePsk k => clear (SPsk k) st
  end.

End Spec.

(** The method behind each operation, and the method that reads each cell. *)
Section Dispatch.
Context `{MlsTypes} `{!MlsJson} (fails : nat -> bool) (V : N).

Definition call (op : Op) : MLS unit :=
  match op with
  | WriteJoinConfig g v => write_mls_join_config fails V g v
  | AppendOwnLeafNode g v => append_own_leaf_node fails V g v
  | QueueProposal g r p => queue_proposal fails V g r p
  | WriteTree g v => write_tree fails V g v
  | WriteInterimTranscriptHash g v => write_interim_transcript_hash fails V g v
  | WriteContext g v => write_context fails V g v
  | WriteConfirmationTag g v => write_confirmation_tag fails V g v
  | WriteGroupState g v => write_group_state fails V g v
  | WriteMessageSecrets g v => write_message_secrets fails V g v
  | WriteResumptionPsk g v => write_resumption_psk_store fails V g v
  | WriteOwnLeafIndex g v => write_own_leaf_index fails V g v
  | WriteEpochSecrets g v => write_group_epoch_secrets fails V g v
  | WriteSignatureKeyPair k v => write_signature_key_pair fails V k v
  | WriteEncryptionKeyPair k v => write_encryption_key_pair fails V k v
  | WriteEpochKeyPairs g e leaf v => write_encryption_epoch_key_pairs fails V g e leaf v
  | WriteKeyPackage k v => write_key_package fails V k v
  | WritePsk k v => write_psk fails V k v
  | RemoveProposal g r => remove_proposal fails V g r
  | ClearProposalQueue g => clear_proposal_queue fails V g
  | DeleteOwnLeafNodes g => delete_own_leaf_nodes fails V g
  | DeleteGroupConfig g => delete_group_config fails V g
  | DeleteTree g => delete_tree fails V g
  | DeleteConfirmationTag g => delete_confirmation_tag fails V g
  | DeleteGroupState g => delete_group_state fails V g
  | DeleteContext g => delete_context fails V g
  | DeleteInterimTranscriptHash g => delete_interim_transcript_hash fails V g
  | DeleteMessageSecrets g => delete_message_secrets fails V g
  | DeleteResumptionPsk g => delete_all_resumption_psk_secrets fails V g
  | DeleteOwnLeafIndex g => delete_own_leaf_index fails V g
  | DeleteEpochSecrets g => delete_group_epoch_secrets fails V g
  | DeleteSignatureKeyPair k => delete_signature_key_pair fails V k
  | DeleteEncryptionKeyPair k => delete_encryption_key_pair fails V k
  | DeleteEpochKeyPairs g e leaf => delete_encryption_epoch_key_pairs fails V g e leaf
  | DeleteKeyPackage k => delete_key_package fails V k
  | DeletePsk k => delete_psk fails V k
  end.

(** A queued proposal on its own is read by [queued_proposals] only. *)
Definition read_slot (s : Slot) : MLS (content s) :=
  match s return MLS (content s) with
  | SJoinConfig g => mls_group_join_config fails V g
  | SOwnLeafNodes g => own_leaf_nodes fails V g
  | SQueuedProposal g r => get_entity fails V QUEUED_PROPOSAL_LABEL (g, r)
  | SProposalRefs g => queued_proposal_refs fails V g
  | STree g => tree fails V g
  | SInterimTranscriptHash g => interim_transcript_hash fails V g
  | SGroupContext g => group_context fails V g
  | SConfirmationTag g => confirmation_tag fails V g
  | SGroupState g => group_state fails V g
  | SMessageSecrets g => message_secrets fails V g
  | SResumptionPsk g => resumption_psk_store fails V g
  | SOwnLeafIndex g => own_leaf_index fails V g
  | SEpochSecrets g => group_epoch_secrets fails V g
  | SSignatureKeyPair k => signature_key_pair fails V k
  | SEncryptionKeyPair k => encryption_key_pair fails V k
  | SEpochKeyPairs g e leaf => encryption_epoch_key_pairs fails V g e leaf
  | SKeyPackage k => key_package fails V k
  | SPsk k => psk fails V k
  end.

End Dispatch.

(** ** The laws

    What is serialised reads back, and the JSON of a group id, an object, is not the beginning
    of another's. *)

Class MlsKeys `{MlsTypes} := {
  GroupId_eq_dec :: EqDecision GroupId; ProposalRef_eq_dec :: EqDecision ProposalRef;
  SignaturePublicKey_eq_dec :: EqDecision SignaturePublicKey; EncryptionKey_eq_dec :: EqDecision EncryptionKey;
  EpochKey_eq_dec :: EqDecision EpochKey; HashReference_eq_dec :: EqDecision HashReference;
  PskId_eq_dec :: EqDecision PskId
}.

#[global] Instance Slot_eq_dec `{MlsTypes} `{!MlsKeys} : EqDecision Slot.
Proof. solve_decision. Defined.

Class MlsLaws `{MlsTypes} `{!MlsJson} : Prop := {
  items_laws :: SerdeJsonLaws (list bytes); GroupId_laws :: SerdeJsonLaws GroupId;
  ProposalRef_laws :: SerdeJsonLaws ProposalRef; SignaturePublicKey_laws :: SerdeJsonLaws SignaturePublicKey;
  EncryptionKey_laws :: SerdeJsonLaws EncryptionKey; EpochKey_laws :: SerdeJsonLaws EpochKey;
  HashReference_laws :: SerdeJsonLaws HashReference; PskId_laws :: SerdeJsonLaws PskId;
  MlsGroupJoinConfig_laws :: SerdeJsonLaws MlsGroupJoinConfig; LeafNode_laws :: SerdeJsonLaws LeafNode;
  QueuedProposal_laws :: SerdeJsonLaws QueuedProposal; TreeSync_laws :: SerdeJsonLaws TreeSync;
  InterimTranscriptHash_laws :: SerdeJsonLaws InterimTranscriptHash; GroupContext_laws :: SerdeJsonLaws GroupContext;
  ConfirmationTag_laws :: SerdeJsonLaws ConfirmationTag; GroupState_laws :: SerdeJsonLaws GroupState;
  MessageSecrets_laws :: SerdeJsonLaws MessageSecrets; ResumptionPskStore_laws :: SerdeJsonLaws ResumptionPskStore;
  LeafNodeIndex_laws :: SerdeJsonLaws LeafNodeIndex; GroupEpochSecrets_laws :: SerdeJsonLaws GroupEpochSecrets;
  SignatureKeyPair_laws :: SerdeJsonLaws SignatureKeyPair; HpkeKeyPair_laws :: SerdeJsonLaws HpkeKeyPair;
  HpkeKeyPairs_laws :: SerdeJsonLaws (list HpkeKeyPair); KeyPackage_laws :: SerdeJsonLaws KeyPackage;
  PskBundle_laws :: SerdeJsonLaws PskBundle; proposal_key_laws :: SerdeJsonLaws (GroupId * ProposalRef);
  GroupId_prefix_free : forall (g g' : GroupId) b b', to_vec g = Ok b -> to_vec g' = Ok b' -> b `prefix_of` b' -> g = g'
}.

(** The bytes a value serialises to. *)
Definition enc {A} `{SerdeJson A} (a : A) : bytes := match to_vec a with Ok b => b | Err _ => [] end.

Section Json.
Context {A : Type} `{SerdeJsonLaws A}.

Lemma to_vec_enc (a : A) : to_vec a = Ok (enc a).
Proof. unfold enc. destruct (to_vec_total a) as [b ->]. done. Qed.

Lemma from_slice_enc (a : A) : from_slice (enc a) = Ok a.
Proof. eapply from_slice_to_vec, to_vec_enc. Qed.

Lemma enc_inj (a a' : A) : enc a = enc a' -> a = a'.
Proof. intros E. pose proof (from_slice_enc a) as Ha. rewrite E, from_slice_enc in Ha. by inversion Ha. Qed.

Lemma serde_to_vec {B} (a : A) (k : bytes -> MLS B) : sbind (serde (to_vec a)) k = k (enc a).
Proof. by rewrite to_vec_enc. Qed.

Lemma serde_from_slice {B} (a : A) (k : A -> MLS B) : sbind (serde (from_slice (enc a))) k = k a.
Proof. by rewrite from_slice_enc. Qed.

End Json.

(** ** Where each cell lives *)

Section Keys.
Context `{MlsTypes} `{!MlsJson} `{!MlsLaws} (V : N).

Definition label (s : Slot) : bytes :=
  match s with
  | SJoinConfig _ => JOIN_CONFIG_LABEL | SOwnLeafNodes _ => OWN_LEAF_NODES_LABEL
  | SQueuedProposal _ _ => QUEUED_PROPOSAL_LABEL | SProposalRefs _ => PROPOSAL_QUEUE_REFS_LABEL
  | STree _ => TREE_LABEL | SInterimTranscriptHash _ => INTERIM_TRANSCRIPT_HASH_LABEL
  | SGroupContext _ => GROUP_CONTEXT_LABEL | SConfirmationTag _ => CONFIRMATION_TAG_LABEL
  | SGroupState _ => GROUP_STATE_LABEL | SMessageSecrets _ => MESSAGE_SECRETS_LABEL
  | SResumptionPsk _ => RESUMPTION_PSK_STORE_LABEL | SOwnLeafIndex _ => OWN_LEAF_NODE_INDEX_LABEL
  | SEpochSecrets _ => EPOCH_SECRETS_LABEL | SSignatureKeyPair _ => SIGNATURE_KEY_PAIR_LABEL
  | SEncryptionKeyPair _ => ENCRYPTION_KEY_PAIR_LABEL | SEpochKeyPairs _ _ _ => EPOCH_KEY_PAIRS_LABEL
  | SKeyPackage _ => KEY_PACKAGE_LABEL | SPsk _ => PSK_LABEL
  end.

Definition body (s : Slot) : bytes :=
  match s with
  | SJoinConfig g | SOwnLeafNodes g | SProposalRefs g | STree g | SInterimTranscriptHash g | SGroupContext g
  | SConfirmationTag g | SGroupState g | SMessageSecrets g | SResumptionPsk g | SOwnLeafIndex g | SEpochSecrets g => enc g
  | SQueuedProposal g r => enc (g, r)
  | SSignatureKeyPair k => enc k
  | SEncryptionKeyPair k => enc k
  | SEpochKeyPairs g e leaf => enc g ++ enc e ++ u32_to_vec leaf
  | SKeyPackage k => enc k
  | SPsk k => enc k
  end.

Definition slot_key (s : Slot) : SqlValue * bytes := (scope, build_key V (label s) (body s)).

Definition labels : list bytes :=
  [KEY_PACKAGE_LABEL; PSK_LABEL; ENCRYPTION_KEY_PAIR_LABEL; SIGNATURE_KEY_PAIR_LABEL; EPOCH_KEY_PAIRS_LABEL;
   TREE_LABEL; GROUP_CONTEXT_LABEL; INTERIM_TRANSCRIPT_HASH_LABEL; CONFIRMATION_TAG_LABEL; JOIN_CONFIG_LABEL;
   OWN_LEAF_NODES_LABEL; GROUP_STATE_LABEL; QUEUED_PROPOSAL_LABEL; PROPOSAL_QUEUE_REFS_LABEL;
   OWN_LEAF_NODE_INDEX_LABEL; EPOCH_SECRETS_LABEL; RESUMPTION_PSK_STORE_LABEL; MESSAGE_SECRETS_LABEL].

(** No label is the beginning of another. *)
Lemma labels_prefix_free l l' : l ∈ labels -> l' ∈ labels -> l `prefix_of` l' -> l = l'.
Proof.
  assert (Hc : forallb (fun l => forallb (fun l' => implb (bool_decide (l `prefix_of` l')) (bool_decide (l = l')))
                                   labels) labels = true) by (vm_compute; reflexivity).
  intros Hl Hl' Hp. rewrite forallb_forall in Hc. apply list_elem_of_In in Hl, Hl'.
  specialize (Hc _ Hl). cbv beta in Hc. rewrite forallb_forall in Hc. specialize (Hc _ Hl').
  rewrite (bool_decide_eq_true_2 _ Hp) in Hc. simpl in Hc. by apply bool_decide_eq_true in Hc.
Qed.

Lemma label_in s : label s ∈ labels.
Proof. destruct s; simpl; unfold labels; repeat (first [apply list_elem_of_here | apply list_elem_of_further]). Qed.

(** Of two lists with a common extension, one begins the other. *)
Lemma app_prefix_cases {A} (l l' k k' : list A) : l ++ k = l' ++ k' -> l `prefix_of` l' \/ l' `prefix_of` l.
Proof.
  revert l'. induction l as [|x l IH]; intros [|y l'] E; simpl in *;
    [left; apply prefix_nil | left; apply prefix_nil | right; apply prefix_nil |].
  injection E as -> E. destruct (IH _ E) as [|]; [left | right]; by apply prefix_cons.
Qed.

Lemma build_key_inj l l' k k' : l ∈ labels -> l' ∈ labels -> build_key V l k = build_key V l' k' -> l = l' /\ k = k'.
Proof.
  unfold build_key. rewrite !app_assoc. intros Hl Hl' E. apply app_inv_tail in E.
  assert (l = l') as -> by (destruct (app_prefix_cases _ _ _ _ E);
                              [by apply labels_prefix_free | by symmetry; apply labels_prefix_free]).
  by apply app_inv_head in E.
Qed.

(** The leaf a device has in each group. *)
Context (leaf_of : GroupId -> N).

Definition own_slot (s : Slot) : Prop :=
  match s with SEpochKeyPairs g _ leaf => leaf = leaf_of g | _ => True end.

Lemma group_split (g g' : GroupId) k k' : enc g ++ k = enc g' ++ k' -> g = g'.
Proof.
  intros E. destruct (app_prefix_cases _ _ _ _ E) as [Hp|Hp].
  - eapply GroupId_prefix_free; [apply to_vec_enc | apply to_vec_enc | done].
  - symmetry. eapply GroupId_prefix_free; [apply to_vec_enc | apply to_vec_enc | done].
Qed.

Lemma slot_key_inj s s' : own_slot s -> own_slot s' -> slot_key s = slot_key s' -> s = s'.
Proof.
  intros Ho Ho' E. apply (f_equal snd) in E. simpl in E.
  apply build_key_inj in E as [El Eb]; [|apply label_in..].
  destruct s, s'; try discriminate El; simpl in *; subst; try (apply enc_inj in Eb; congruence).
  assert (g = g0) as -> by (by eapply group_split).
  apply app_inv_head, app_inv_tail, enc_inj in Eb. congruence.
Qed.

End Keys.

(** ** The refinement *)

(** How a row holds the content of a cell. *)
Definition holds_one {A} `{SerdeJson A} (x : option A) (row : option bytes) : Prop := row = enc <$> x.

Definition holds_items {A} `{SerdeJson A} `{SerdeJson (list bytes)} (x : list A) (row : option bytes) : Prop :=
  row = None /\ x = [] \/ row = Some (enc (map enc x)).

Definition holds_all {A} `{SerdeJson (list A)} (x : list A) (row : option bytes) : Prop :=
  row = None /\ x = [] \/ row = Some (enc x).

Section Refinement.
Context `{MlsTypes} `{!MlsJson} `{!MlsLaws} `{!MlsKeys} (V : N) (leaf_of : GroupId -> N).

Definition holds (s : Slot) : content s -> option bytes -> Prop :=
  match s return content s -> option bytes -> Prop with
  | SOwnLeafNodes _ => holds_items
  | SProposalRefs _ => holds_items
  | SEpochKeyPairs _ _ _ => holds_all
  | SQueuedProposal _ _ => holds_one
  | SJoinConfig _ => holds_one | STree _ => holds_one | SInterimTranscriptHash _ => holds_one
  | SGroupContext _ => holds_one | SConfirmationTag _ => holds_one | SGroupState _ => holds_one
  | SMessageSecrets _ => holds_one | SResumptionPsk _ => holds_one | SOwnLeafIndex _ => holds_one
  | SEpochSecrets _ => holds_one | SSignatureKeyPair _ => holds_one | SEncryptionKeyPair _ => holds_one
  | SKeyPackage _ => holds_one | SPsk _ => holds_one
  end.

Definition implements (c : Connection) (st : Store) : Prop :=
  forall s, own_slot leaf_of s -> holds s (st s) (mls_kv c !! slot_key V s).

Lemma implements_empty n : implements (mkConnection ∅ n) empty_store.
Proof. intros s _. simpl. rewrite lookup_empty. by destruct s; simpl; try done; left. Qed.

Lemma assign_eq s x st : assign s x st s = x.
Proof. unfold assign. destruct (decide (s = s)) as [e|]; [|done]. by rewrite (proof_irrel e eq_refl). Qed.

Lemma assign_ne s s' x st : s <> s' -> assign s x st s' = st s'.
Proof. intros Hn. unfold assign. by destruct (decide (s = s')). Qed.

Lemma implements_write c st s x b n :
  own_slot leaf_of s -> implements c st -> holds s x (Some b) ->
  implements (mkConnection (<[slot_key V s := b]> (mls_kv c)) n) (assign s x st).
Proof.
  intros Ho Hi Hx s' Ho'. simpl. destruct (decide (s = s')) as [<-|Hn].
  - by rewrite lookup_insert_eq, assign_eq.
  - rewrite lookup_insert_ne, assign_ne; [by apply Hi | done |].
    intros E. by apply Hn, (slot_key_inj V leaf_of).
Qed.

Lemma implements_delete c st s n :
  own_slot leaf_of s -> implements c st -> implements (mkConnection (delete (slot_key V s) (mls_kv c)) n) (clear s st).
Proof.
  intros Ho Hi s' Ho'. simpl. unfold clear. destruct (decide (s = s')) as [<-|Hn].
  - rewrite lookup_delete_eq, assign_eq. by destruct s; simpl; try done; left.
  - rewrite lookup_delete_ne, assign_ne; [by apply Hi | done |].
    intros E. by apply Hn, (slot_key_inj V leaf_of).
Qed.

Lemma implements_clock c st n : implements c st -> implements (mkConnection (mls_kv c) n) st.
Proof. done. Qed.

Context (fails : nat -> bool).

(** A statement that writes cell [s] leaves the store as it was or as [x] in [s]. *)
Definition stores (s : Slot) (x : content s) (c : Connection) (st : Store) (out : Connection * Result unit MlsStorageError) : Prop :=
  (out.2 = Ok tt /\ implements out.1 (assign s x st)) \/ (out.2 = Err Sqlite /\ implements out.1 st).

Lemma raw_write_stores s x b c st :
  own_slot leaf_of s -> implements c st -> holds s x (Some b) ->
  stores s x c st (raw_write fails (build_key V (label s) (body s)) b c).
Proof.
  intros Ho Hi Hx. unfold stores, raw_write, execute. destruct (fails (statements c)); simpl; [by right | left].
  split; [done|]. by apply implements_write.
Qed.

Lemma raw_delete_stores s c st :
  own_slot leaf_of s -> implements c st ->
  stores s (empty_content s) c st (raw_delete fails (build_key V (label s) (body s)) c).
Proof.
  intros Ho Hi. unfold stores, raw_delete, execute. destruct (fails (statements c)); simpl; [by right | left].
  split; [done|]. by apply implements_delete.
Qed.

(** Reading a row fails, or gives the row; the table is as it was. *)
Lemma raw_read_cases {B} key (k : option bytes -> MLS B) c :
  (sbind (raw_read fails key) k c = (mkConnection (mls_kv c) (S (statements c)), Err Sqlite) /\
     fails (statements c) = true) \/
  (sbind (raw_read fails key) k c = k (mls_kv c !! (scope, key)) (mkConnection (mls_kv c) (S (statements c))) /\
     fails (statements c) = false).
Proof. unfold sbind, raw_read, query_row. destruct (fails (statements c)); [left | right]; done. Qed.

Lemma put_stores {K A} `{SerdeJsonLaws K} `{SerdeJsonLaws A} s (k : K) (v : A) x c st :
  own_slot leaf_of s -> implements c st -> body s = enc k -> holds s x (Some (enc v)) ->
  stores s x c st (put_entity fails V (label s) k v c).
Proof.
  intros Ho Hi Hb Hx. unfold put_entity. rewrite !serde_to_vec, <- Hb. by apply raw_write_stores.
Qed.

Lemma drop_stores {K} `{SerdeJsonLaws K} s (k : K) c st :
  own_slot leaf_of s -> implements c st -> body s = enc k ->
  stores s (empty_content s) c st (drop_entity fails V (label s) k c).
Proof. intros Ho Hi Hb. unfold drop_entity. rewrite serde_to_vec, <- Hb. by apply raw_delete_stores. Qed.

(** The items of a list row, an absent row being the empty list. *)
Lemma items_row {A B} `{SerdeJsonLaws A} (x : list A) row (k : list bytes -> MLS B) :
  holds_items x row ->
  sbind (match row with Some b => serde (from_slice b) | None => sret (Ok []) end) k = k (map enc x).
Proof. intros [[-> ->] | ->]; [done|]. apply serde_from_slice. Qed.

Lemma push_stores {K A} `{SerdeJsonLaws K} `{SerdeJsonLaws A} s (k : K) (v : A) (l : list A) x c st :
  own_slot leaf_of s -> implements c st -> body s = enc k ->
  holds_items l (mls_kv c !! slot_key V s) -> (forall row, holds_items (l ++ [v]) row -> holds s x row) ->
  stores s x c st (push_entity fails V (label s) k v c).
Proof.
  intros Ho Hi Hb Hl Hx. unfold push_entity. rewrite !serde_to_vec, <- Hb. unfold append.
  match goal with |- context [sbind (raw_read fails ?key) ?k c] => destruct (raw_read_cases key k c) as [[-> _]|[-> _]] end.
  { by right. }
  cbv beta. rewrite (items_row l) by done. rewrite serde_to_vec. apply raw_write_stores; [done.. |].
  apply Hx. right. by rewrite map_app.
Qed.

(** ** Reads *)

(** What reading a cell gives. *)
Definition reads {A} (x : A) (c : Connection) (out : Connection * Result A MlsStorageError) : Prop :=
  out = (mkConnection (mls_kv c) (S (statements c)), if fails (statements c) then Err Sqlite else Ok x).

Lemma reads_query {A} key (k : option bytes -> MLS A) x c :
  (forall c', k (mls_kv c !! (scope, key)) c' = (c', Ok x)) -> reads x c (sbind (raw_read fails key) k c).
Proof.
  intros Hk. unfold reads. destruct (raw_read_cases key k c) as [[-> ->]|[-> ->]]; [done|]. by rewrite Hk.
Qed.

Lemma get_reads {K A} `{SerdeJsonLaws K} `{SerdeJsonLaws A} s (k : K) (x : option A) c :
  body s = enc k -> holds_one x (mls_kv c !! slot_key V s) -> reads x c (get_entity fails V (label s) k c).
Proof.
  intros Hb Hx. unfold get_entity. rewrite serde_to_vec, <- Hb. apply reads_query. intros c'.
  unfold holds_one, slot_key in Hx. rewrite Hx. destruct x as [v|]; simpl; [|done]. by rewrite serde_from_slice.
Qed.

Lemma decode_items_enc {A} `{SerdeJsonLaws A} (l : list A) c : decode_items (map enc l) c = (c, Ok l).
Proof.
  induction l as [|a l IH]; [done|]. cbn [map decode_items]. rewrite serde_from_slice. unfold sbind. by rewrite IH.
Qed.

Lemma get_list_reads {K A} `{SerdeJsonLaws K} `{SerdeJsonLaws A} s (k : K) (x : list A) c :
  body s = enc k -> holds_items x (mls_kv c !! slot_key V s) -> reads x c (get_entities fails V (label s) k c).
Proof.
  intros Hb Hx. unfold get_entities. rewrite serde_to_vec, <- Hb. apply reads_query. intros c'.
  unfold slot_key in Hx. destruct Hx as [[-> ->] | ->]; [done|]. rewrite serde_from_slice. apply decode_items_enc.
Qed.

Lemma epoch_id_body {B} g e leaf (k : bytes -> MLS B) :
  sbind (epoch_key_pairs_id g e leaf) k = k (body (SEpochKeyPairs g e leaf)).
Proof. unfold epoch_key_pairs_id. by rewrite !serde_to_vec. Qed.

Lemma epoch_reads g e leaf x c :
  holds_all x (mls_kv c !! slot_key V (SEpochKeyPairs g e leaf)) ->
  reads x c (encryption_epoch_key_pairs fails V g e leaf c).
Proof.
  intros Hx. unfold encryption_epoch_key_pairs. rewrite epoch_id_body. apply reads_query. intros c'.
  unfold slot_key in Hx. cbn [label] in Hx. destruct Hx as [[-> ->] | ->]; [done|]. unfold serde. by rewrite from_slice_enc.
Qed.

Lemma read_slot_reads s c st : own_slot leaf_of s -> implements c st -> reads (st s) c (read_slot fails V s c).
Proof.
  intros Ho Hi. pose proof (Hi s Ho) as Hs.
  destruct s; first [by apply epoch_reads
    | match goal with |- reads (_ ?s) _ _ => first [by eapply (get_reads s) | by eapply (get_list_reads s)] end].
Qed.

(** ** Writes *)

(** The operations that name a leaf name the device's own. *)
Definition own_op (op : Op) : Prop :=
  match op with
  | WriteEpochKeyPairs g _ leaf _ | DeleteEpochKeyPairs g _ leaf => leaf = leaf_of g
  | _ => True
  end.

(** The stores an operation that fails may leave: the one it found and, for the three that run
    several statements, those between its statements. *)
Definition torn (op : Op) (st : Store) : list Store :=
  match op with
  | QueueProposal g r p => [st; assign (SQueuedProposal g r) (Some p) st]
  | RemoveProposal g r => [st; assign (SProposalRefs g) (remove_ref r (st (SProposalRefs g))) st]
  | ClearProposalQueue g =>
      map (fun n => foldl (fun st r => clear (SQueuedProposal g r) st) st (take n (st (SProposalRefs g))))
        (seq 0 (S (length (st (SProposalRefs g)))))
  | _ => [st]
  end.

Definition performs (op : Op) (st : Store) (out : Connection * Result unit MlsStorageError) : Prop :=
  (out.2 = Ok tt /\ implements out.1 (perform op st)) \/
  (out.2 = Err Sqlite /\ exists st', st' ∈ torn op st /\ implements out.1 st').

(** Operations of one statement. *)
Lemma stores_performs s x op c st out :
  stores s x c st out -> perform op st = assign s x st -> st ∈ torn op st -> performs op st out.
Proof. intros [[Hr Hi]|[Hr Hi]] E Ht; [left | right]; rewrite ?E; eauto. Qed.

Lemma sbind_stores s x (m : MLS unit) (k : MLS unit) op c st :
  stores s x c st (m c) -> st ∈ torn op st ->
  (forall c', implements c' (assign s x st) -> performs op st (k c')) ->
  performs op st (sbind m (fun _ => k) c).
Proof.
  unfold sbind. destruct (m c) as [c' [u|e]]; intros [[Hr Hi]|[Hr Hi]] Ht Hk; simpl in *; try discriminate Hr.
  - by apply Hk.
  - injection Hr as ->. right. eauto.
Qed.

(** The last statement of an operation that has already written. *)
Lemma stores_completes s x op c st1 st out :
  stores s x c st1 out -> perform op st = assign s x st1 -> st1 ∈ torn op st -> performs op st out.
Proof. intros [[Hr Hi]|[Hr Hi]] E Ht; [left | right]; rewrite ?E; eauto. Qed.

Lemma queue_performs g r p c st : implements c st -> performs (QueueProposal g r p) st (queue_proposal fails V g r p c).
Proof.
  intros Hi. unfold queue_proposal. eapply (sbind_stores (SQueuedProposal g r) (Some p)).
  - by apply (put_stores (SQueuedProposal g r)).
  - apply list_elem_of_here.
  - intros c' Hc'. eapply (stores_completes (SProposalRefs g) (st (SProposalRefs g) ++ [r])); [| reflexivity | apply list_elem_of_further, list_elem_of_here].
    apply (push_stores (SProposalRefs g) g r (st (SProposalRefs g))); [done.. | | done].
    specialize (Hc' (SProposalRefs g) I). by rewrite assign_ne in Hc'.
Qed.

Lemma remove_first_map (r : ProposalRef) (l : list ProposalRef) :
  remove_first (enc r) (map enc l) = map enc (remove_ref r l).
Proof.
  induction l as [|x l IH]; simpl; [done|]. destruct (decide (x = r)) as [->|Hn].
  - by rewrite bool_decide_eq_true_2.
  - rewrite bool_decide_eq_false_2; [simpl; by rewrite IH|]. intros E. by apply Hn, enc_inj.
Qed.

Lemma remove_item_stores g r c st :
  implements c st ->
  stores (SProposalRefs g) (remove_ref r (st (SProposalRefs g))) c st
    (remove_item fails V PROPOSAL_QUEUE_REFS_LABEL (enc g) (enc r) c).
Proof.
  intros Hi. pose proof (Hi (SProposalRefs g) I) as Hs. simpl in Hs. unfold remove_item.
  match goal with |- context [sbind (raw_read fails ?key) ?k c] => destruct (raw_read_cases key k c) as [[-> _]|[-> _]] end.
  { by right. }
  unfold slot_key in Hs. simpl in Hs. cbv beta. destruct Hs as [[-> Hx] | ->].
  - rewrite Hx. simpl. left. split; [done|]. intros s Ho.
    destruct (decide (SProposalRefs g = s)) as [<-|Hn]; [|rewrite assign_ne by done; by apply Hi].
    rewrite assign_eq. specialize (Hi (SProposalRefs g) I). by rewrite Hx in Hi.
  - rewrite serde_from_slice, serde_to_vec, remove_first_map.
    apply (raw_write_stores (SProposalRefs g)); [done | done |]. by right.
Qed.

Lemma remove_performs g r c st : implements c st -> performs (RemoveProposal g r) st (remove_proposal fails V g r c).
Proof.
  intros Hi. unfold remove_proposal. rewrite !serde_to_vec.
  eapply (sbind_stores (SProposalRefs g) (remove_ref r (st (SProposalRefs g)))).
  - by apply remove_item_stores.
  - apply list_elem_of_here.
  - intros c' Hc'. eapply (stores_completes (SQueuedProposal g r) None); [| reflexivity | apply list_elem_of_further, list_elem_of_here].
    by apply (drop_stores (SQueuedProposal g r)).
Qed.

Lemma delete_proposals_run g refs c st :
  implements c st ->
  let out := delete_proposals fails V g refs c in
  (out.2 = Ok tt /\ implements out.1 (foldl (fun st r => clear (SQueuedProposal g r) st) st refs)) \/
  (out.2 = Err Sqlite /\ exists n, n <= length refs /\
     implements out.1 (foldl (fun st r => clear (SQueuedProposal g r) st) st (take n refs))).
Proof.
  revert c st. induction refs as [|r refs IH]; intros c st Hi; simpl; [by left|].
  unfold sbind. pose proof (drop_stores (SQueuedProposal g r) (g, r) c st I Hi eq_refl) as Hd.
  change (label (SQueuedProposal g r)) with QUEUED_PROPOSAL_LABEL in Hd.
  destruct (drop_entity fails V QUEUED_PROPOSAL_LABEL (g, r) c) as [c1 [u|e]];
    destruct Hd as [[Hr Hc1]|[Hr Hc1]]; simpl in Hr, Hc1; try discriminate Hr.
  - destruct (IH c1 _ Hc1) as [Hok | (He & n & Hn & Hst)]; [by left | right].
    split; [done|]. exists (S n). split; [simpl; lia | exact Hst].
  - injection Hr as ->. right. split; [done|]. exists 0. split; [lia | done].
Qed.

Lemma take_torn g (st : Store) n :
  n <= length (st (SProposalRefs g)) ->
  foldl (fun st r => clear (SQueuedProposal g r) st) st (take n (st (SProposalRefs g))) ∈ torn (ClearProposalQueue g) st.
Proof.
  intros Hn. unfold torn. apply list_elem_of_In, in_map_iff. exists n. split; [done|]. apply in_seq. lia.
Qed.

Lemma clear_performs g c st : implements c st -> performs (ClearProposalQueue g) st (clear_proposal_queue fails V g c).
Proof.
  intros Hi. unfold clear_proposal_queue. unfold sbind at 1.
  pose proof (read_slot_reads (SProposalRefs g) c st I Hi) as Hr. unfold reads in Hr. simpl read_slot in Hr.
  rewrite Hr. destruct (fails (statements c)).
  { right. split; [done|]. exists st. split; [apply (take_torn g st 0); lia | done]. }
  unfold sbind. set (c1 := mkConnection _ _).
  assert (Hc1 : implements c1 st) by done.
  destruct (delete_proposals_run g (st (SProposalRefs g)) c1 st Hc1) as [[Hok Hd] | (He & n & Hn & Hd)];
    destruct (delete_proposals fails V g _ c1) as [c2 [u|e]]; simpl in *; try discriminate.
  - eapply (stores_completes (SProposalRefs g) []); [by apply (drop_stores (SProposalRefs g)) | reflexivity |].
    pose proof (take_torn g st (length (st (SProposalRefs g))) ltac:(lia)) as Ht. by rewrite firstn_all in Ht.
  - injection He as ->. right. split; [done|]. eexists. split; [by apply (take_torn g st n) | done].
Qed.

(** Solves an operation of one statement by the cell its specification assigns. *)
Ltac one_statement :=
  match goal with |- performs ?op ?st _ =>
    let e := eval cbn [perform] in (perform op st) in
    match e with
    | assign ?s ?x _ => eapply (stores_performs s x); [by apply (put_stores s) | reflexivity | apply list_elem_of_here]
    | clear ?s _ =>
        eapply (stores_performs s (empty_content s)); [by apply (drop_stores s) | reflexivity | apply list_elem_of_here]
    end
  end.

Lemma append_performs g v c st : implements c st -> performs (AppendOwnLeafNode g v) st (append_own_leaf_node fails V g v c).
Proof.
  intros Hi. eapply (stores_performs (SOwnLeafNodes g) (st (SOwnLeafNodes g) ++ [v]));
    [| reflexivity | apply list_elem_of_here].
  apply (push_stores (SOwnLeafNodes g) g v (st (SOwnLeafNodes g))); [done.. | apply (Hi (SOwnLeafNodes g) I) | done].
Qed.

Lemma write_epoch_performs g e leaf v c st :
  leaf = leaf_of g -> implements c st ->
  performs (WriteEpochKeyPairs g e leaf v) st (write_encryption_epoch_key_pairs fails V g e leaf v c).
Proof.
  intros Ho Hi. eapply (stores_performs (SEpochKeyPairs g e leaf) v); [| reflexivity | apply list_elem_of_here].
  unfold write_encryption_epoch_key_pairs. rewrite epoch_id_body, serde_to_vec.
  apply (raw_write_stores (SEpochKeyPairs g e leaf)); [done.. |]. by right.
Qed.

Lemma delete_epoch_performs g e leaf c st :
  leaf = leaf_of g -> implements c st ->
  performs (DeleteEpochKeyPairs g e leaf) st (delete_encryption_epoch_key_pairs fails V g e leaf c).
Proof.
  intros Ho Hi. eapply (stores_performs (SEpochKeyPairs g e leaf) []); [| reflexivity | apply list_elem_of_here].
  unfold delete_encryption_epoch_key_pairs. rewrite epoch_id_body. by apply (raw_delete_stores (SEpochKeyPairs g e leaf)).
Qed.

Lemma call_performs op c st : own_op op -> implements c st -> performs op st (call fails V op c).
Proof.
  intros Ho Hi. destruct op; simpl call;
    first [by apply queue_performs | by apply remove_performs | by apply clear_performs | by apply append_performs
          | by apply write_epoch_performs | by apply delete_epoch_performs | one_statement].
Qed.

End Refinement.

(** ** The theorems *)

Section Theorems.
Context `{MlsTypes} `{!MlsJson} `{!MlsLaws} `{!MlsKeys} (V : N).

Implicit Types st : Store.

(** Calls in sequence, each with its answer; the library may go on after one that failed. *)
Fixpoint calls (fails : nat -> bool) (ops : list Op) (c : Connection) : Connection * list (Result unit MlsStorageError) :=
  match ops with
  | [] => (c, [])
  | op :: ops' =>
      let '(c, r) := call fails V op c in
      let '(c, rs) := calls fails ops' c in (c, r :: rs)
  end.

(** The stores a sequence of calls can leave: a call that answered well was performed, one that
    failed had completed some of its statements. *)
Inductive ran : list Op -> Store -> list (Result unit MlsStorageError) -> Store -> Prop :=
| ran_nil st : ran [] st [] st
| ran_performed op ops st rs st' : ran ops (perform op st) rs st' -> ran (op :: ops) st (Ok tt :: rs) st'
| ran_torn op ops st st1 rs st' : st1 ∈ torn op st -> ran ops st1 rs st' -> ran (op :: ops) st (Err Sqlite :: rs) st'.

Lemma calls_ran leaf_of fails ops c st0 :
  Forall (own_op leaf_of) ops -> implements V leaf_of c st0 ->
  exists st, implements V leaf_of (calls fails ops c).1 st /\ ran ops st0 (calls fails ops c).2 st.
Proof.
  revert c st0. induction ops as [|op ops IH]; intros c st0 Hall Hi; simpl; [exists st0; split; [done|constructor]|].
  apply Forall_cons in Hall as [Hop Hall]. pose proof (call_performs V leaf_of fails op c st0 Hop Hi) as Hp.
  destruct (call fails V op c) as [c1 r]; destruct Hp as [[Hr Hc1]|[Hr (st' & Ht & Hc1)]]; simpl in Hr, Hc1; subst r;
    destruct (IH c1 _ Hall Hc1) as (st & Hst & Hran); destruct (calls fails ops c1) as [c2 rs]; exists st; (split; [done|]).
  - by constructor.
  - by eapply ran_torn.
Qed.

(** With every answer good the store is the one the calls specify. *)
Definition performed (ops : list Op) (st : Store) : Store := foldl (fun st op => perform op st) st ops.

Lemma ran_all_ok ops st rs st' : ran ops st rs st' -> Forall (fun r => r = Ok tt) rs -> st' = performed ops st.
Proof. induction 1; intros Hall; [done|..]; apply Forall_cons in Hall as [Hr Hall]; [by apply IHran|done]. Qed.

(** C24: From an empty table, through any sequence of calls and any failing statements, going on
    after failed calls or not, the table always reads as a store of independent cells: each call
    that answered well has been performed on it, each that failed has left the statements it had
    completed, and with every answer good it is exactly the store the calls specify.  This is for
    calls that name one leaf per group for the device's epoch keys; keys of two leaves of one
    group can coincide ([epoch_keys_collide]). *)
Theorem storage_refines leaf_of fails ops :
  Forall (own_op leaf_of) ops ->
  let out := calls fails ops (mkConnection ∅ 0) in
  exists st, ran ops empty_store out.2 st /\
    (Forall (fun r => r = Ok tt) out.2 -> st = performed ops empty_store) /\
    forall s, own_slot leaf_of s ->
      (read_slot fails V s out.1).2 = if fails (statements out.1) then Err Sqlite else Ok (st s).
Proof.
  intros Hall out. destruct (calls_ran leaf_of fails ops _ _ Hall (implements_empty V leaf_of 0)) as (st & Hi & Hr).
  exists st. split; [exact Hr|]. split; [by apply ran_all_ok|]. intros s Hs. by rewrite (read_slot_reads V leaf_of fails s out.1 st Hs Hi).
Qed.

(** *** The proposal queue *)

(** The queue names no proposal twice, and only proposals that are there. *)
Definition queue_ok (st : Store) : Prop :=
  forall g, NoDup (st (SProposalRefs g)) /\ forall r, r ∈ st (SProposalRefs g) -> st (SQueuedProposal g r) <> None.

Definition fresh_op (op : Op) (st : Store) : Prop :=
  match op with QueueProposal g r _ => r ∉ st (SProposalRefs g) | _ => True end.

(** Cells the queue is not made of. *)
Lemma queue_ok_ext st st' :
  (forall g, st' (SProposalRefs g) = st (SProposalRefs g)) ->
  (forall g r, r ∈ st (SProposalRefs g) -> st (SQueuedProposal g r) <> None -> st' (SQueuedProposal g r) <> None) ->
  queue_ok st -> queue_ok st'.
Proof.
  intros Hr Hp Hok g. destruct (Hok g) as [Hn Hin]. rewrite Hr. split; [done|]. intros r Hr'. apply Hp; auto.
Qed.

Lemma queue_ok_other s x st :
  (forall g, s <> SProposalRefs g) -> (forall g r, s <> SQueuedProposal g r) -> queue_ok st -> queue_ok (assign s x st).
Proof. intros Hs1 Hs2. apply queue_ok_ext; intros; by rewrite assign_ne. Qed.

Lemma queue_ok_put g r p st : queue_ok st -> queue_ok (assign (SQueuedProposal g r) (Some p) st).
Proof.
  apply queue_ok_ext; [intros; by rewrite assign_ne|]. intros g' r' _ Hn.
  destruct (decide (SQueuedProposal g r = SQueuedProposal g' r')) as [[= <- <-]|Hne].
  - by rewrite assign_eq.
  - by rewrite assign_ne.
Qed.

Lemma assign_refs g x st g' :
  assign (SProposalRefs g) x st (SProposalRefs g') = if decide (g = g') then x else st (SProposalRefs g').
Proof. case_decide as Hg; [subst; by rewrite assign_eq | rewrite assign_ne; congruence]. Qed.

Lemma queue_ok_push g r p st :
  r ∉ st (SProposalRefs g) -> queue_ok st -> queue_ok (perform (QueueProposal g r p) st).
Proof.
  intros Hf Hok g'. simpl. rewrite assign_refs. case_decide as Hg; [subst g'|];
    (split; [|intros r' Hr'; rewrite assign_ne by done]).
  - apply NoDup_app. split; [apply Hok|]. split; [set_solver | apply NoDup_singleton].
  - destruct (decide (r = r')) as [<-|Hne]; [by rewrite assign_eq|]. rewrite assign_ne by congruence.
    apply Hok. set_solver.
  - rewrite assign_ne by done. apply Hok.
  - rewrite assign_ne in Hr' |- * by congruence. by apply Hok.
Qed.

Lemma remove_ref_elem r r' l : NoDup l -> r' ∈ remove_ref r l -> r' ∈ l /\ r' <> r.
Proof.
  induction l as [|x l IH]; simpl; [set_solver|]. intros [Hx Hn]%NoDup_cons.
  case_decide as Hxr; [subst; set_solver|]. intros [->|Hin]%elem_of_cons; [set_solver|]. destruct (IH Hn Hin). set_solver.
Qed.

Lemma remove_ref_NoDup r l : NoDup l -> NoDup (remove_ref r l).
Proof.
  induction l as [|x l IH]; simpl; [done|]. intros Hn. pose proof Hn as [Hx Hl]%NoDup_cons. case_decide; [done|].
  apply NoDup_cons. split; [|by apply IH]. intros Hin. apply remove_ref_elem in Hin; tauto.
Qed.

Lemma queue_ok_unlink g r st :
  queue_ok st -> queue_ok (assign (SProposalRefs g) (remove_ref r (st (SProposalRefs g))) st).
Proof.
  intros Hok g'. rewrite assign_refs. case_decide as Hg; [subst g'|];
    (split; [|intros r' Hr'; rewrite assign_ne by done]).
  - apply remove_ref_NoDup, Hok.
  - apply Hok. apply remove_ref_elem in Hr'; [tauto | apply Hok].
  - apply Hok.
  - by apply Hok.
Qed.

Lemma queue_ok_remove g r st : queue_ok st -> queue_ok (perform (RemoveProposal g r) st).
Proof.
  intros Hok. simpl. apply (queue_ok_ext (assign (SProposalRefs g) (remove_ref r (st (SProposalRefs g))) st));
    [| | by apply queue_ok_unlink]; unfold clear.
  - intros. by rewrite assign_ne.
  - intros g' r' Hr' Hp. rewrite assign_ne; [done|]. intros [= -> ->]. rewrite assign_eq in Hr'.
    apply remove_ref_elem in Hr'; [tauto | apply Hok].
Qed.

Lemma cleared_refs g refs st g' : foldl (fun st r => clear (SQueuedProposal g r) st) st refs (SProposalRefs g') = st (SProposalRefs g').
Proof. revert st. induction refs as [|r refs IH]; intros st; simpl; [done|]. rewrite IH. unfold clear. by rewrite assign_ne. Qed.

Lemma cleared_others g refs st g' r' : g <> g' ->
  foldl (fun st r => clear (SQueuedProposal g r) st) st refs (SQueuedProposal g' r') = st (SQueuedProposal g' r').
Proof.
  intros Hg. revert st. induction refs as [|r refs IH]; intros st; simpl; [done|]. rewrite IH.
  unfold clear. rewrite assign_ne; congruence.
Qed.

(** Clearing needs nothing of the queue it clears. *)
Lemma queue_ok_clear g st :
  (forall g', g <> g' -> NoDup (st (SProposalRefs g')) /\ forall r, r ∈ st (SProposalRefs g') -> st (SQueuedProposal g' r) <> None) ->
  queue_ok (perform (ClearProposalQueue g) st).
Proof.
  intros Hok g'. simpl. pose proof (cleared_refs g (st (SProposalRefs g)) st g') as Hr.
  pose proof (cleared_others g (st (SProposalRefs g)) st g') as Ho. revert Hr Ho.
  generalize (foldl (fun st r => clear (SQueuedProposal g r) st) st (st (SProposalRefs g))). intros st1 Hr Ho.
  unfold clear. rewrite assign_refs. case_decide as Hg; [split; [apply NoDup_nil_2 | set_solver]|].
  rewrite Hr. split; [by apply Hok|]. intros r Hin. rewrite assign_ne, Ho by done. by apply Hok.
Qed.

Lemma queue_ok_perform op st : fresh_op op st -> queue_ok st -> queue_ok (perform op st).
Proof.
  intros Hf Hok. destruct op;
    first [by apply queue_ok_push | by apply queue_ok_remove | by apply queue_ok_clear; intros; apply Hok
          | by apply queue_ok_other].
Qed.

(** Only clearing the queue can fail half-way and leave a reference to nothing. *)
Lemma queue_ok_torn op st st' :
  (forall g, op <> ClearProposalQueue g) -> st' ∈ torn op st -> queue_ok st -> queue_ok st'.
Proof.
  intros Hc Ht Hok. destruct op; simpl in Ht; try (by apply list_elem_of_singleton in Ht as ->); try congruence.
  - apply elem_of_cons in Ht as [->|Ht%list_elem_of_singleton]; [done | subst; by apply queue_ok_put].
  - apply elem_of_cons in Ht as [->|Ht%list_elem_of_singleton]; [done | subst; by apply queue_ok_unlink].
  - by destruct (Hc g).
Qed.

(** The proposals of a group, in the order they were queued. *)
Definition entry st (g : GroupId) (r : ProposalRef) : ProposalRef * option QueuedProposal := (r, st (SQueuedProposal g r)).

Definition queued st (g : GroupId) : list (ProposalRef * option QueuedProposal) := map (entry st g) (st (SProposalRefs g)).

Definition reliable : nat -> bool := fun _ => false.

(** Without failing statements no call reports one. *)
Definition no_sqlite {A} (m : MLS A) : Prop := forall c, (m c).2 <> Err Sqlite.

Lemma no_sqlite_bind {A B} (m : MLS A) (k : A -> MLS B) : no_sqlite m -> (forall a, no_sqlite (k a)) -> no_sqlite (sbind m k).
Proof.
  intros Hm Hk c. unfold sbind. specialize (Hm c). destruct (m c) as [c' [a|e]]; simpl in *; [apply Hk | congruence].
Qed.

Lemma no_sqlite_ret {A} (a : A) : no_sqlite (sret (Ok a)).
Proof. done. Qed.

Lemma no_sqlite_serde {A J} `{SerdeJson J} (r : Result A JsonError) : no_sqlite (serde r).
Proof. intros c. unfold serde, sret. by destruct r. Qed.

Lemma no_sqlite_execute f : no_sqlite (execute reliable f).
Proof. done. Qed.

Lemma no_sqlite_query k : no_sqlite (query_row reliable k).
Proof. done. Qed.

Lemma no_sqlite_items {A} `{SerdeJson A} l : no_sqlite (decode_items (Ent := A) l).
Proof.
  induction l as [|b l IH]; simpl; [apply no_sqlite_ret|].
  apply no_sqlite_bind; [apply no_sqlite_serde|]. intros. by apply no_sqlite_bind.
Qed.

Lemma no_sqlite_deletes g refs : no_sqlite (delete_proposals reliable V g refs).
Proof.
  induction refs as [|r refs IH]; simpl; [apply no_sqlite_ret|]. apply no_sqlite_bind; [|done].
  apply no_sqlite_bind; [apply no_sqlite_serde | intros; apply no_sqlite_execute].
Qed.

Lemma clear_reliable g : no_sqlite (clear_proposal_queue reliable V g).
Proof.
  apply no_sqlite_bind; [|intros refs; apply no_sqlite_bind; [apply no_sqlite_deletes|]].
  - apply no_sqlite_bind; [apply no_sqlite_serde|]. intros kb. apply no_sqlite_bind; [apply no_sqlite_query|].
    intros [b|]; [|apply no_sqlite_ret]. apply no_sqlite_bind; [apply no_sqlite_serde | apply no_sqlite_items].
  - intros _. apply no_sqlite_bind; [apply no_sqlite_serde | intros; apply no_sqlite_execute].
Qed.

Lemma clear_again leaf_of g c st :
  implements V leaf_of c st -> (call reliable V (ClearProposalQueue g) c).2 = Ok tt.
Proof.
  intros Hi. destruct (call_performs V leaf_of reliable (ClearProposalQueue g) c st I Hi) as [[Hr _]|[Hr _]]; [done|].
  by destruct (clear_reliable g c).
Qed.

(** What a clear, complete or not, does to the other queues. *)
Lemma torn_clear_others g st st' g' :
  g <> g' -> st' ∈ torn (ClearProposalQueue g) st ->
  st' (SProposalRefs g') = st (SProposalRefs g') /\ forall r, st' (SQueuedProposal g' r) = st (SQueuedProposal g' r).
Proof.
  intros Hg Ht. unfold torn in Ht. apply list_elem_of_In, in_map_iff in Ht as (n & <- & _).
  split; [apply cleared_refs | intros r; by apply cleared_others].
Qed.

Lemma queue_ok_cleared g st st' :
  queue_ok st -> st' ∈ torn (ClearProposalQueue g) st -> queue_ok (perform (ClearProposalQueue g) st').
Proof.
  intros Hok Ht. apply queue_ok_clear. intros g' Hg. destruct (torn_clear_others g st st' g' Hg Ht) as [-> Hp].
  split; [apply Hok|]. intros r Hr. rewrite Hp. by apply Hok.
Qed.

Lemma collect_queued leaf_of st g refs c :
  implements V leaf_of c st -> (forall r, r ∈ refs -> st (SQueuedProposal g r) <> None) ->
  exists c' l, collect (queued_proposal reliable V g) refs c = (c', Ok l) /\
    map (fun '(r, p) => (r, Some p)) l = map (entry st g) refs.
Proof.
  revert c. induction refs as [|r refs IH]; intros c Hi Hin; simpl; [by eexists _, []|].
  pose proof (read_slot_reads V leaf_of reliable (SQueuedProposal g r) c st I Hi) as Hr.
  unfold reads in Hr. simpl read_slot in Hr. unfold queued_proposal at 1, sbind at 1 2. rewrite Hr. simpl.
  assert (Hp : st (SQueuedProposal g r) <> None) by (apply Hin, list_elem_of_here).
  unfold entry at 1. destruct (st (SQueuedProposal g r)) as [p|]; [|done]. simpl. set (c1 := mkConnection _ _). destruct (IH c1 Hi) as (c' & l & El & Hl); [set_solver|].
  unfold sbind. rewrite El. eexists _, ((r, p) :: l). split; [done|]. simpl. by rewrite Hl.
Qed.

Lemma queued_proposals_ok leaf_of st g c :
  implements V leaf_of c st -> queue_ok st ->
  exists l, (queued_proposals reliable V g c).2 = Ok l /\ map (fun '(r, p) => (r, Some p)) l = queued st g.
Proof.
  intros Hi Hok. unfold queued_proposals, sbind at 1.
  pose proof (read_slot_reads V leaf_of reliable (SProposalRefs g) c st I Hi) as Hr.
  unfold reads in Hr. simpl read_slot in Hr. rewrite Hr. simpl. set (c1 := mkConnection _ _).
  destruct (collect_queued leaf_of st g (st (SProposalRefs g)) c1 Hi) as (c' & l & -> & Hl); [apply Hok|].
  by exists l.
Qed.

(** A table whose queues are in order stays so through any call, succeeding or failing at any
    statement, except a failed [clear_proposal_queue]: every queue can be listed, in order, with
    all its proposals; and after a failed clear, clearing again succeeds and puts it in order.  A
    proposal is queued under a reference that is not already there. *)
Theorem proposal_queue_inv leaf_of fails op c st :
  implements V leaf_of c st -> queue_ok st -> own_op leaf_of op -> fresh_op op st ->
  let out := call fails V op c in
  exists st', implements V leaf_of out.1 st' /\
    (out.2 = Ok tt /\ st' = perform op st \/ out.2 = Err Sqlite /\ st' ∈ torn op st) /\
    (out.2 = Ok tt \/ (forall g, op <> ClearProposalQueue g) -> queue_ok st' /\
       forall g, exists l, (queued_proposals reliable V g out.1).2 = Ok l /\
         map (fun '(r, p) => (r, Some p)) l = queued st' g) /\
    (forall g, op = ClearProposalQueue g -> queue_ok (perform op st') /\ (call reliable V op out.1).2 = Ok tt).
Proof.
  intros Hi Hok Ho Hf out.
  assert (Hlist : forall st', implements V leaf_of out.1 st' -> queue_ok st' -> queue_ok st' /\
            forall g, exists l, (queued_proposals reliable V g out.1).2 = Ok l /\
              map (fun '(r, p) => (r, Some p)) l = queued st' g).
  { intros st' Hi' Hok'. split; [done|]. intros g. by apply (queued_proposals_ok leaf_of). }
  destruct (call_performs V leaf_of fails op c st Ho Hi) as [[Hr Hst] | (Hr & st' & Ht & Hst)]; fold out in Hr, Hst.
  - pose proof (queue_ok_perform op st Hf Hok) as Hok'. exists (perform op st). split; [done|]. split; [by left|].
    split; [intros _; by apply Hlist|]. intros g ->. split; [by apply queue_ok_clear | by eapply clear_again].
  - exists st'. split; [done|]. split; [by right|]. split.
    + intros [Hr'|Hc]; [congruence|]. by apply Hlist, (queue_ok_torn op st).
    + intros g ->. split; [by apply (queue_ok_cleared g st) | by eapply clear_again].
Qed.

End Theorems.

(** *** Rows and cells an operation does not name *)

(** Rows of another scope are not the library's. *)
Section Frame.
Context `{MlsTypes} `{!MlsJson} (V : N) (fails : nat -> bool).

Definition keeps_scope {A} (m : MLS A) : Prop :=
  forall c k, k.1 <> scope -> mls_kv (m c).1 !! k = mls_kv c !! k.

Lemma keeps_bind {A B} (m : MLS A) (k : A -> MLS B) : keeps_scope m -> (forall a, keeps_scope (k a)) -> keeps_scope (sbind m k).
Proof.
  intros Hm Hk c x Hx. unfold sbind. specialize (Hm c x Hx). destruct (m c) as [c' [a|e]]; simpl in *; [|done].
  by rewrite Hk.
Qed.

Lemma keeps_ret {A} (r : Result A MlsStorageError) : keeps_scope (sret r).
Proof. done. Qed.

Lemma keeps_serde {A J} `{SerdeJson J} (r : Result A JsonError) : keeps_scope (serde r).
Proof. done. Qed.

Lemma keeps_read key : keeps_scope (raw_read fails key).
Proof. done. Qed.

Lemma keeps_write key b : keeps_scope (raw_write fails key b).
Proof.
  intros c [s k] Hs. simpl in Hs. unfold raw_write, execute. destruct (fails _); [done|]. simpl.
  rewrite lookup_insert_ne; [done | congruence].
Qed.

Lemma keeps_delete key : keeps_scope (raw_delete fails key).
Proof.
  intros c [s k] Hs. simpl in Hs. unfold raw_delete, execute. destruct (fails _); [done|]. simpl.
  rewrite lookup_delete_ne; [done | congruence].
Qed.

Lemma keeps_items {A} `{SerdeJson A} l : keeps_scope (decode_items (Ent := A) l).
Proof. induction l as [|b l IH]; simpl; [apply keeps_ret|]. apply keeps_bind; [apply keeps_serde|]. intros. by apply keeps_bind. Qed.

Ltac keeps := repeat first
  [apply keeps_write | apply keeps_delete | apply keeps_read | apply keeps_serde | apply keeps_items | apply keeps_ret
  | apply keeps_bind; [|intros ?] | case_match].

Lemma keeps_deletes g refs : keeps_scope (delete_proposals fails V g refs).
Proof. induction refs as [|r refs IH]; simpl; [apply keeps_ret|]. apply keeps_bind; [|intros; apply IH]. unfold drop_entity. keeps. Qed.

Lemma keeps_call op : keeps_scope (call fails V op).
Proof. destruct op; simpl; try (apply keeps_bind; [|intros; apply keeps_bind; [apply keeps_deletes|]; intros]); keeps. Qed.

Lemma keeps_calls ops c k : k.1 <> scope -> mls_kv (calls V fails ops c).1 !! k = mls_kv c !! k.
Proof.
  intros Hk. revert c. induction ops as [|op ops IH]; intros c; simpl; [done|]. pose proof (keeps_call op c k Hk) as Hc.
  destruct (call fails V op c) as [c1 r]. specialize (IH c1). destruct (calls V fails ops c1) as [c2 rs]. simpl in *. congruence.
Qed.

End Frame.

(** A signing key no operation names stays. *)
Section Spares.
Context `{MlsTypes} `{!MlsJson} `{!MlsKeys}.

Implicit Types st : Store.

Definition spares (k : SignaturePublicKey) (op : Op) : Prop :=
  match op with WriteSignatureKeyPair k' _ | DeleteSignatureKeyPair k' => k' <> k | _ => True end.

Lemma cleared_key g refs k st :
  foldl (fun st r => clear (SQueuedProposal g r) st) st refs (SSignatureKeyPair k) = st (SSignatureKeyPair k).
Proof. revert st. induction refs as [|r refs IH]; intros st; simpl; [done|]. rewrite IH. unfold clear. by rewrite assign_ne. Qed.

Lemma spares_perform k op st : spares k op -> perform op st (SSignatureKeyPair k) = st (SSignatureKeyPair k).
Proof.
  destruct op; simpl; intros Hs; unfold clear; rewrite ?assign_ne by (try congruence; done); try done. apply cleared_key.
Qed.

Lemma spares_torn k op st st' : st' ∈ torn op st -> st' (SSignatureKeyPair k) = st (SSignatureKeyPair k).
Proof.
  intros Ht. destruct op; simpl in Ht; try (by apply list_elem_of_singleton in Ht as ->).
  - apply elem_of_cons in Ht as [->|Ht%list_elem_of_singleton]; [done | subst; by rewrite assign_ne].
  - apply elem_of_cons in Ht as [->|Ht%list_elem_of_singleton]; [done | subst; by rewrite assign_ne].
  - change (st' ∈ torn (ClearProposalQueue g) st) in Ht. unfold torn in Ht.
    apply list_elem_of_In, in_map_iff in Ht as (n & <- & _). apply cleared_key.
Qed.

Lemma spares_ran k ops st0 st rs :
  Forall (spares k) ops -> ran ops st0 rs st -> st (SSignatureKeyPair k) = st0 (SSignatureKeyPair k).
Proof.
  intros Hall Hr. induction Hr as [|op ops st rs st' _ IH|op ops st st1 rs st' Ht _ IH]; [done|..];
    apply Forall_cons in Hall as [Ho Hall]; rewrite IH by done; [by apply spares_perform|by eapply spares_torn].
Qed.

End Spares.

(** ** Epoch keys of two leaves

    The key of an epoch's key pairs is the JSON of the group, of the epoch and of the leaf with
    nothing in between, and the last two are decimal numbers. *)

Section Epochs.
Context `{MlsTypes} `{!MlsJson} `{!MlsLaws} (V : N).

(** Where epochs serialise as their number, a device that has had two leaves in a group reads,
    overwrites and deletes the key pairs of one epoch and leaf under another whose digits run
    together the same way, such as epoch 1 leaf 23 and epoch 12 leaf 3. *)
Theorem epoch_keys_collide (epoch : N -> EpochKey) g e1 l1 e2 l2 kps c :
  (forall n, to_vec (epoch n) = Ok (as_bytes (pretty n))) ->
  String.append (pretty e1) (pretty l1) = String.append (pretty e2) (pretty l2) ->
  let written := (write_encryption_epoch_key_pairs reliable V g (epoch e1) l1 kps c).1 in
  (encryption_epoch_key_pairs reliable V g (epoch e2) l2 written).2 = Ok kps /\
  (encryption_epoch_key_pairs reliable V g (epoch e1) l1
     (delete_encryption_epoch_key_pairs reliable V g (epoch e2) l2 written).1).2 = Ok [].
Proof.
  intros He Hd written.
  assert (body (SEpochKeyPairs g (epoch e1) l1) = body (SEpochKeyPairs g (epoch e2) l2)) as Eb.
  { apply (f_equal as_bytes) in Hd. rewrite !as_bytes_append in Hd. simpl.
    assert (Hn : forall n, enc (epoch n) = as_bytes (pretty n)) by (intros n; unfold enc; by rewrite He).
    unfold u32_to_vec. by rewrite !Hn, Hd. }
  unfold encryption_epoch_key_pairs, delete_encryption_epoch_key_pairs. rewrite !epoch_id_body, <- Eb.
  assert (written = mkConnection (<[slot_key V (SEpochKeyPairs g (epoch e1) l1) := enc kps]> (mls_kv c)) (S (statements c))) as ->.
  { subst written. unfold write_encryption_epoch_key_pairs. by rewrite epoch_id_body, serde_to_vec. }
  unfold sbind, raw_read, query_row, delete_row, raw_delete, execute, slot_key. simpl.
  rewrite lookup_insert_eq, lookup_delete_eq. unfold serde. by rewrite from_slice_enc.
Qed.

End Epochs.

(** ** Witnesses *)

Module Sample.

#[export] Instance types : MlsTypes := {|
  GroupId := bool; ProposalRef := N; SignaturePublicKey := N; EncryptionKey := N; EpochKey := N; HashReference := N;
  PskId := N; MlsGroupJoinConfig := N; LeafNode := N; QueuedProposal := N; TreeSync := N; InterimTranscriptHash := N;
  GroupContext := N; ConfirmationTag := N; GroupState := N; MessageSecrets := N; ResumptionPskStore := N;
  LeafNodeIndex := N; GroupEpochSecrets := N; SignatureKeyPair := N; HpkeKeyPair := N; KeyPackage := N; PskBundle := N
|}.

(** Numbers as their digits, group ids as one byte, everything else by its bits. *)
Definition number : SerdeJson N := {|
  JsonError := unit; json_error_display _ := "not a number"; to_vec n := Ok (as_bytes (pretty n));
  from_slice b := match parse_magnitude b with Some n => Ok n | None => Err tt end
|}.

Definition flag : SerdeJson bool := {|
  JsonError := unit; json_error_display _ := "not a group"; to_vec b := Ok (if b : bool then [x31] else [x30]);
  from_slice b := if bool_decide (b = [x31]) then Ok true else if bool_decide (b = [x30]) then Ok false else Err tt
|}.

#[export] Instance json : MlsJson := {|
  items_json := ClearJson.instance; GroupId_json := flag; ProposalRef_json := number;
  SignaturePublicKey_json := number; EncryptionKey_json := number; EpochKey_json := number;
  HashReference_json := number; PskId_json := number; MlsGroupJoinConfig_json := number; LeafNode_json := number;
  QueuedProposal_json := number; TreeSync_json := number; InterimTranscriptHash_json := number;
  GroupContext_json := number; ConfirmationTag_json := number; GroupState_json := number;
  MessageSecrets_json := number; ResumptionPskStore_json := number; LeafNodeIndex_json := number;
  GroupEpochSecrets_json := number; SignatureKeyPair_json := number; HpkeKeyPair_json := number;
  HpkeKeyPairs_json := ClearJson.instance; KeyPackage_json := number; PskBundle_json := number;
  proposal_key_json := ClearJson.instance
|}.

#[export] Instance keys : MlsKeys.
Proof. constructor; simpl; apply _. Defined.

Lemma number_laws : @SerdeJsonLaws N number.
Proof.
  constructor; simpl; [|eauto]. intros n b [= <-]. destruct (parse_magnitude_pretty n) as (d & rest & _ & _ & Hp).
  simpl in *. by rewrite Hp.
Qed.

Lemma flag_laws : @SerdeJsonLaws bool flag.
Proof. constructor; simpl; [|eauto]. by intros [] b [= <-]. Qed.

#[export] Instance laws : MlsLaws.
Proof.
  constructor; try apply number_laws; try apply flag_laws; try apply ClearJson.laws.
  intros [] [] b b' [= <-] [= <-] [k Hk]; by inversion Hk.
Qed.

(** A group is joined and two proposals are queued; one is taken off the queue. *)
Definition session : list Op :=
  [WriteGroupState true 7%N; WriteTree true 5%N; WriteEpochKeyPairs true 1%N 23%N [8%N];
   QueueProposal true 1%N 40%N; QueueProposal true 2%N 41%N; RemoveProposal true 1%N; DeleteTree true].

Definition leaf (g : @GroupId types) : N := 23%N.

Definition group : GroupId := true.
Definition epoch (n : N) : EpochKey := n.
Definition pairs : list HpkeKeyPair := [8%N].
Definition queue_one : Op := QueueProposal true 1%N 40%N.
Definition remove_one : Op := RemoveProposal true 1%N.
Definition clear_queue : Op := ClearProposalQueue true.

End Sample.

Import Sample.

(** The first call of [session] writes, and the second is the one that fails. *)
Definition second_fails (n : nat) : bool := (n =? 1)%nat.

Lemma storage_refines_witness :
  Forall (own_op leaf) session /\
  (exists st, st = performed session empty_store /\
     forall s, own_slot leaf s ->
       (read_slot reliable 1 s (calls 1 reliable session (mkConnection ∅ 0)).1).2 = Ok (st s)) /\
  (exists st, ran session empty_store (calls 1 second_fails session (mkConnection ∅ 0)).2 st) /\
  (calls 1 second_fails session (mkConnection ∅ 0)).2 = [Ok tt; Err Sqlite; Ok tt; Ok tt; Ok tt; Ok tt; Ok tt] /\
  (queued_proposals reliable 1 group (calls 1 second_fails session (mkConnection ∅ 0)).1).2 = Ok [(2%N, 41%N)].
Proof.
  assert (Hall : Forall (own_op leaf) session) by repeat constructor.
  split; [exact Hall|]. split; [|split; [|split; vm_compute; reflexivity]].
  - pose proof (storage_refines 1 leaf reliable session Hall) as (st & _ & Ho & Hs). exists st. split; [|exact Hs]. apply Ho.
    assert ((calls 1 reliable session (mkConnection ∅ 0)).2 = repeat (Ok tt) 7) as -> by (vm_compute; reflexivity). repeat constructor.
  - pose proof (storage_refines 1 leaf second_fails session Hall) as (st & Hr & _). exists st. exact Hr.
Defined.

(** One proposal in the queue. *)
Definition one_queued : Connection := (call reliable 1 queue_one (mkConnection ∅ 0)).1.

Definition one_queued_store : Store := perform queue_one empty_store.

Lemma queue_ok_empty : queue_ok empty_store.
Proof. intros g. split; [apply NoDup_nil_2 | intros r Hr; by apply not_elem_of_nil in Hr]. Qed.

Lemma one_queued_implements : implements 1 leaf one_queued one_queued_store.
Proof.
  destruct (call_performs 1 leaf reliable queue_one (mkConnection ∅ 0) empty_store I
              (implements_empty 1 leaf 0)) as [[_ Hi] | [Hr _]]; [exact Hi | vm_compute in Hr; discriminate Hr].
Qed.

Lemma one_queued_ok : queue_ok one_queued_store.
Proof. apply queue_ok_push; [by apply not_elem_of_nil | apply queue_ok_empty]. Qed.

Lemma proposal_queue_inv_witness :
  let out := call second_fails 1 clear_queue one_queued in
  implements 1 leaf one_queued one_queued_store /\
  exists st', implements 1 leaf out.1 st' /\ queue_ok (perform clear_queue st') /\
    (call reliable 1 clear_queue out.1).2 = Ok tt.
Proof.
  intros out. split; [apply one_queued_implements|].
  pose proof (proposal_queue_inv 1 leaf second_fails clear_queue one_queued one_queued_store
                one_queued_implements one_queued_ok I I) as (st' & Hi & _ & _ & Hc).
  exists st'. split; [exact Hi|]. exact (Hc group eq_refl).
Defined.

Lemma epoch_keys_collide_witness :
  let written := (write_encryption_epoch_key_pairs reliable 1 group (epoch 1) 23 pairs (mkConnection ∅ 0)).1 in
  (encryption_epoch_key_pairs reliable 1 group (epoch 12) 3 written).2 = Ok pairs /\
  (encryption_epoch_key_pairs reliable 1 group (epoch 1) 23
     (delete_encryption_epoch_key_pairs reliable 1 group (epoch 12) 3 written).1).2 = Ok [].
Proof.
  exact (epoch_keys_collide 1 epoch group 1 23 12 3 pairs (mkConnection ∅ 0) (fun n => eq_refl) eq_refl).
Defined.

(** A clear that fails after deleting the proposal leaves a queue that cannot be listed. *)
Example failed_clear_breaks_queue :
  (queued_proposals reliable 1 group
     (call (fun n => n =? 5)%nat 1 clear_queue one_queued).1).2 = Err (Serde "missing queued proposal").
Proof. vm_compute. reflexivity. Qed.

(** A proposal queued twice and removed once does so without any failure. *)
Example queued_twice_removed_once :
  (queued_proposals reliable 1 group
     (calls 1 reliable [queue_one; remove_one] one_queued).1).2
  = Err (Serde "missing queued proposal").
Proof. vm_compute. reflexivity. Qed.
