(* ===== verification/Device.v ===== *)
(** * pollis-core: device signing keys and certificates

    Models [mls/device.rs]: the signing key a device keeps for good in its local table beside
    the MLS library's rows, the certificate that binds it to the account key, the re-signing of
    certificates after the account key changed, and the check of the devices a commit adds.  The
    local table is [Storage]'s, the account key and the client's sessions are [Enroll]'s, and the
    rows of the service are written by its own routes ([Accounts]).

    [device_signer_stable]: the key survives whatever the MLS library does to the table.
    [device_cert_published]: what a device publishes is what others verify.  [resign_heals] and
    [resign_poisons]: re-signing with the account's key, and with an old one.
    [verify_added_exact]: when a commit's devices pass. *)

From stdpp Require Import base list strings gmap pretty.
From Stdlib Require Import NArith ZArith Lia ZifyNat ZifyN.
From Stdlib Require Import Strings.Byte.
From S2P Require Import Prelude Crypto Merkle Log Tenants Delivery Client Relay Overlay Text Stores Access Tables Accounts Vault Enroll.
From S2P Require Import Storage.

(** [openmls_basic_credential::SignatureKeyPair]: kept in the MLS library's storage under an id
    made of the public key; reading it gives nothing when there is none or the read fails. *)
Class BasicCredential `{MlsTypes} := {
  kp_id : bytes -> SignaturePublicKey;
  kp_to_public_vec : SignatureKeyPair -> bytes;
  kp_private : SignatureKeyPair -> bytes;
  kp_read : (nat -> bool) -> bytes -> Connection -> Connection * option SignatureKeyPair;
  kp_store : (nat -> bool) -> SignatureKeyPair -> MLS unit
}.

Class BasicCredentialLaws `{BasicCredential} `{!MlsJson} (V : N) : Prop := {
  kp_store_row : forall fails kp, kp_store fails kp = write_signature_key_pair fails V (kp_id (kp_to_public_vec kp)) kp;
  kp_read_row : forall fails pub c, kp_read fails pub c =
    (let '(c', r) := signature_key_pair fails V (kp_id pub) c in
     (c', match r with Ok (Some kp) => Some kp | _ => None end))
}.

(** ** The device's signing key *)

Definition DEVICE_SIG_PUB_SCOPE : SqlValue := Text "PollisDeviceSigPub".

Definition device_row (user_id device_id : string) : SqlValue * bytes :=
  (DEVICE_SIG_PUB_SCOPE, as_bytes (fmt [user_id; ":"; device_id])).

Inductive SignerError := LocalDb | SigKeyGen | SigKeyStore (e : MlsStorageError).

Section Signer.
Context `{BasicCredential} (fails : nat -> bool).

Definition load_stable_device_sig_pub_bytes (user_id device_id : string) : MLS (option bytes) :=
  query_row fails (device_row user_id device_id).

Definition store_stable_device_sig_pub_bytes (user_id device_id : string) (pub_bytes : bytes) : MLS unit :=
  execute fails <[device_row user_id device_id := pub_bytes]>.

(** The slow path: create, store, stash.  [draw] is the key pair generated, if generating one
    succeeds. *)
Definition create_device_signer (draw : option SignatureKeyPair) (user_id device_id : string) (c : Connection)
    : Connection * Result (SignatureKeyPair * bytes) SignerError :=
  match draw with
  | None => (c, Err SigKeyGen)
  | Some sig_keys =>
      match kp_store fails sig_keys c with
      | (c, Err e) => (c, Err (SigKeyStore e))
      | (c, Ok _) =>
          match store_stable_device_sig_pub_bytes user_id device_id (kp_to_public_vec sig_keys) c with
          | (c, Err _) => (c, Err LocalDb)
          | (c, Ok _) => (c, Ok (sig_keys, kp_to_public_vec sig_keys))
          end
      end
  end.

Definition load_or_create_device_signer (draw : option SignatureKeyPair) (user_id device_id : string) (c : Connection)
    : Connection * Result (SignatureKeyPair * bytes) SignerError :=
  match load_stable_device_sig_pub_bytes user_id device_id c with
  | (c, Err _) => (c, Err LocalDb)
  | (c, Ok None) => create_device_signer draw user_id device_id c
  | (c, Ok (Some pub_bytes)) =>
      match kp_read fails pub_bytes c with
      | (c, Some kp) => (c, Ok (kp, pub_bytes))
      | (c, None) => create_device_signer draw user_id device_id c
      end
  end.

Definition signer_error (e : SignerError) : CoreError :=
  match e with
  | LocalDb => OtherError "local database"
  | SigKeyGen => OtherError "sig key gen"
  | SigKeyStore _ => OtherError "sig key store"
  end.

Definition load_device_signing_key `{SigningKeyBytes} (draw : option SignatureKeyPair) (user_id device_id : string) (c : Connection)
    : Connection * Result (SigningKey * bytes) CoreError :=
  let '(c, r) := load_or_create_device_signer draw user_id device_id c in
  (c, match r with
      | Err e => Err (signer_error e)
      | Ok (kp, pub_bytes) =>
          if length (kp_private kp) =? 32 then Ok (sk_from_bytes (kp_private kp), pub_bytes)
          else Err (OtherError "device signing key is not a 32-byte Ed25519 seed")
      end).
End Signer.

(** ** Certificates *)

(** [row.get::<i64>(0).unwrap_or(1) as u32] of a column that is never NULL. *)
Definition version_u32 (z : Z) : N := Z.to_N (z mod 2 ^ 32).

(** [SystemTime::now()] since the epoch, in seconds, 0 before it. *)
Definition unix_secs (rm : Remote) : N := Z.to_N (rm_now rm / 10 ^ 9).

Section Certs.
Context `{BasicCredential} `{KeyCrypto} `{!Uppercase} `{!Lowercase} `{SigningKeyBytes} `{!Base64} `{!Rfc3339}
  (fails : nat -> bool) (rm : Remote).

(** POST /v1/auth/publish-device-cert: whom the service binds the request to, and its row. *)
Definition post_publish (token : option string) (user_id device_id : string) (cert : bytes) (issued_at version : N) (pub : bytes)
    (db : MsgDb) : MsgDb * Result unit CoreError :=
  let who :=
    match token ≫= rm_session rm with
    | Some (u, dev) => if bool_decide (device_id = dev) then Some (u, dev) else None
    | None => if bool_decide (trim user_id = "") then None else Some (user_id, device_id)
    end in
  match who, b64_decode_opt (b64_encode cert), b64_decode_opt (b64_encode pub) with
  | Some (u, dev), Some cert, Some pub =>
      if (u64_to_i64 issued_at <? 0)%Z then (db, Err (OtherError "DS refused"))
      else
        match post rm 0 (AccountRoutes.apply_publish_device_cert (rm_sql rm) u dev cert (Z.to_N (u64_to_i64 issued_at)) version pub) db with
        | (db, Ok AccountRoutes.PublishApplied) => (db, Ok tt)
        | (db, Ok _) => (db, Err (OtherError "DS refused"))
        | (db, Err e) => (db, Err e)
        end
  | _, _, _ => (db, Err (OtherError "DS refused"))
  end.

(** The account's identity version. *)
Definition read_version (user_id : string) (db : MsgDb) : Result N CoreError :=
  let? user := Enroll.read rm 0 (users db !! user_id) in
  let? row := ok_or user (OtherError "user not found") in
  Ok (version_u32 (prf_identity_version row)).

Definition ensure_device_cert (draw : option SignatureKeyPair) (user_id device_id : string) (d : Device) (c : Connection) (db : MsgDb)
    : (Device * Connection * MsgDb) * Result bool CoreError :=
  match has_local_account_identity fails user_id (dv_client d) with
  | (cl, Err e) => ((on_client cl d, c, db), Err e)
  | (cl, Ok false) => ((on_client cl d, c, db), Ok false)
  | (cl, Ok true) =>
      let d := on_client cl d in
      if bool_decide (cl_local_db cl = None) then ((d, c, db), Err (OtherError "Not signed in"))
      else
        match load_or_create_device_signer fails draw user_id device_id c with
        | (c, Err e) => ((d, c, db), Err (signer_error e))
        | (c, Ok (_, sig_pub_bytes)) =>
            match read_version user_id db with
            | Err e => ((d, c, db), Err e)
            | Ok identity_version =>
                match sign_device_cert fails user_id device_id sig_pub_bytes identity_version (unix_secs rm) (dv_client d) with
                | (cl, Err e) => ((on_client cl d, c, db), Err e)
                | (cl, Ok cert) =>
                    let d := on_client cl d in
                    match post_publish (dv_bootstrap d) user_id device_id cert (unix_secs rm) identity_version sig_pub_bytes db with
                    | (db, Err e) => ((d, c, db), Err e)
                    | (db, Ok _) =>
                        let d := match dv_bootstrap d with
                                 | Some _ => mkDevice (dv_client d) (dv_session d) None (dv_keys d)
                                 | None => mkDevice (dv_client d) None None (dv_keys d)
                                 end in
                        ((d, c, db), Ok true)
                    end
                end
            end
        end
  end.

(** The rows of [user_device] whose certificate is behind the account key. *)
Definition stale (user_id : string) (identity_version : N) (db : MsgDb) : list (string * bytes) :=
  omap (fun r =>
    pub ← mls_signature_pub r;
    if bool_decide (dev_user r = user_id) &&
       match device_info (Tables.accounts db) !! dev_id r ≫= di_cert_identity_version with
       | None => true
       | Some v => (v <? Z.of_N identity_version)%Z
       end
    then Some (dev_id r, pub) else None) (devices db).

(** The loop over the stale devices: all are signed before anything is written. *)
Fixpoint sign_all (user_id : string) (identity_version : N) (l : list (string * bytes)) (cl : Client)
    : Client * Result (list AccountRoutes.ResignedCert) CoreError :=
  match l with
  | [] => (cl, Ok [])
  | (device_id, pub) :: l' =>
      match sign_device_cert fails user_id device_id pub identity_version (unix_secs rm) cl with
      | (cl, Err e) => (cl, Err e)
      | (cl, Ok cert) =>
          match sign_all user_id identity_version l' cl with
          | (cl, Err e) => (cl, Err e)
          | (cl, Ok certs) =>
              (cl, Ok (AccountRoutes.mkResignedCert device_id (b64_encode cert) (pretty (unix_secs rm)) (Z.of_N identity_version) :: certs))
          end
      end
  end.

Definition resign_stale_device_certs (user_id : string) (d : Device) (db : MsgDb) : (Device * MsgDb) * Result nat CoreError :=
  match (let? v := read_version user_id db in let? l := Enroll.read rm 1 (stale user_id v db) in Ok (v, l)) with
  | Err e => ((d, db), Err e)
  | Ok (identity_version, l) =>
      match sign_all user_id identity_version l (dv_client d) with
      | (cl, Err e) => ((on_client cl d, db), Err e)
      | (cl, Ok signed) =>
          let d := on_client cl d in
          match signed with
          | [] => ((d, db), Ok 0)
          | _ =>
              match ds_post_ok rm 0 (fun a => AccountRoutes.apply_resign_device_certs (rm_sql rm) a
                      (AccountRoutes.mkResignDeviceCerts signed (Some user_id))) db with
              | (db, Err e) => ((d, db), Err e)
              | (db, Ok _) => ((d, db), Ok (length signed))
              end
          end
      end
  end.

(** ** The devices a commit adds *)

(** One device of the list: what its row says, against the account key. *)
Definition check_device (account_id_pub : bytes) (user_id did : string) (db : MsgDb) : VerifyOutcome :=
  match find (AccountRoutes.owned user_id did) (devices db) with
  | None => AbsentRetry
  | Some r =>
      let info := device_info (Tables.accounts db) !! did in
      if bool_decide (is_Some (revoked_at r)) then Revoked
      else
        match info ≫= di_device_cert, info ≫= di_cert_issued_at, info ≫= di_cert_identity_version, mls_signature_pub r with
        | Some cert, Some issued_at_str, Some v, Some pub =>
            match parse_uint (2 ^ 64 - 1) issued_at_str with
            | None => Revoked
            | Some issued_at =>
                match DeviceCert.verify_device_cert account_id_pub did pub (version_u32 v) issued_at cert with
                | Ok _ => Verified
                | Err _ => Revoked
                end
            end
        | _, _, _, _ => AbsentRetry
        end
  end.

(** The loop: one query per device, up to the first that does not pass; [n] numbers them. *)
Fixpoint check_devices (n : nat) (account_id_pub : bytes) (user_id : string) (dids : list string) (db : MsgDb)
    : Result VerifyOutcome CoreError :=
  match dids with
  | [] => Ok Verified
  | did :: dids' =>
      let? o := Enroll.read rm n (check_device account_id_pub user_id did db) in
      match o with
      | Verified => check_devices (S n) account_id_pub user_id dids' db
      | _ => Ok o
      end
  end.

Definition verify_added_devices (target_user_id : string) (device_ids : list string) (db : MsgDb) : Result VerifyOutcome CoreError :=
  match device_ids with
  | [] => Ok Verified
  | _ =>
      let? user := Enroll.read rm 0 (users db !! target_user_id) in
      match user ≫= prf_account_id_pub with
      | None => Ok AbsentRetry
      | Some account_id_pub => check_devices 1 account_id_pub target_user_id device_ids db
      end
  end.
End Certs.

(** ** The signing key is for good *)

Section Stable.
Context `{BasicCredential} `{!MlsJson} (V : N) `{!BasicCredentialLaws V} `{!MlsLaws} `{!MlsKeys} (leaf_of : GroupId -> N).

Implicit Types st : Storage.Store.

(** The table holds the device's key: the public half in its own row, the pair in the library's. *)
Definition holds_signer (user_id device_id : string) (signer : SignatureKeyPair * bytes) (c : Connection) (st : Storage.Store) : Prop :=
  implements V leaf_of c st /\ mls_kv c !! device_row user_id device_id = Some signer.2 /\
  st (SSignatureKeyPair (kp_id signer.2)) = Some signer.1.

Lemma device_row_scope u d : (device_row u d).1 <> scope.
Proof. done. Qed.

Lemma implements_other_row c st u d b n :
  implements V leaf_of c st -> implements V leaf_of (mkConnection (<[device_row u d := b]> (mls_kv c)) n) st.
Proof. intros Hi s Hs. simpl. rewrite lookup_insert_ne; [by apply Hi | done]. Qed.

Lemma kp_read_implements fails pub c st :
  implements V leaf_of c st ->
  kp_read fails pub c = (mkConnection (mls_kv c) (S (statements c)),
                         if fails (statements c) then None else st (SSignatureKeyPair (kp_id pub))).
Proof.
  intros Hi. rewrite kp_read_row. pose proof (read_slot_reads V leaf_of fails (SSignatureKeyPair (kp_id pub)) c st I Hi) as Hr.
  unfold reads in Hr. simpl read_slot in Hr. rewrite Hr. destruct (fails (statements c)); [done|]. simpl.
  by destruct (st (SSignatureKeyPair (kp_id pub))).
Qed.

Lemma signer_stored fails draw u d c st c1 signer :
  implements V leaf_of c st -> create_device_signer fails draw u d c = (c1, Ok signer) ->
  exists st1, holds_signer u d signer c1 st1.
Proof.
  intros Hi. unfold create_device_signer. destruct draw as [kp|]; [|done]. rewrite (kp_store_row (V := V)).
  pose proof (call_performs V leaf_of fails (WriteSignatureKeyPair (kp_id (kp_to_public_vec kp)) kp) c st I Hi) as Hp.
  simpl call in Hp. destruct (write_signature_key_pair _ _ _ _ c) as [c2 [[]|e]]; [|done].
  destruct Hp as [[_ Hi2] | [Hr _]]; [|done]. simpl in Hi2.
  unfold store_stable_device_sig_pub_bytes, execute. destruct (fails (statements c2)); [done|].
  intros [= <- <-]. eexists. split; [by apply implements_other_row|]. simpl. rewrite lookup_insert_eq. split; [done|].
  by rewrite assign_eq.
Qed.

(** What a successful call leaves behind. *)
Lemma signer_created fails draw u d c st c1 signer :
  implements V leaf_of c st -> load_or_create_device_signer fails draw u d c = (c1, Ok signer) ->
  exists st1, holds_signer u d signer c1 st1.
Proof.
  intros Hi. unfold load_or_create_device_signer, load_stable_device_sig_pub_bytes, query_row.
  set (c0 := mkConnection _ _). assert (Hi0 : implements V leaf_of c0 st) by done.
  destruct (fails (statements c)); [done|]. destruct (mls_kv c !! device_row u d) as [pub|] eqn:Erow.
  - rewrite (kp_read_implements fails pub c0 st Hi0). set (c2 := mkConnection _ _).
    assert (Hi2 : implements V leaf_of c2 st) by done.
    destruct (fails (statements c0)); [by apply signer_stored with st|].
    destruct (st (SSignatureKeyPair (kp_id pub))) as [kp|] eqn:Ekp; [|by apply signer_stored with st].
    intros [= <- <-]. by exists st.
  - by apply signer_stored with st.
Qed.

Lemma signer_kept fails u d signer c st ops :
  holds_signer u d signer c st -> Forall (own_op leaf_of) ops -> Forall (spares (kp_id signer.2)) ops ->
  exists st', holds_signer u d signer (Storage.calls V fails ops c).1 st'.
Proof.
  intros (Hi & Hrow & Hkp) Hown Hsp. destruct (calls_ran V leaf_of fails ops c st Hown Hi) as (st' & Hi' & Hr).
  exists st'. split; [done|]. split.
  - rewrite keeps_calls; [done | apply device_row_scope].
  - by rewrite (spares_ran _ _ _ _ _ Hsp Hr).
Qed.

Lemma signer_loaded draw u d signer c st :
  holds_signer u d signer c st -> (load_or_create_device_signer Storage.reliable draw u d c).2 = Ok signer.
Proof.
  intros (Hi & Hrow & Hkp). destruct signer as [kp pub]. simpl in *.
  unfold load_or_create_device_signer, load_stable_device_sig_pub_bytes, query_row. simpl. rewrite Hrow.
  set (c0 := mkConnection _ _). assert (Hi0 : implements V leaf_of c0 st) by done.
  rewrite (kp_read_implements _ _ _ _ Hi0). simpl. by rewrite Hkp.
Qed.

(** A signing key the device has once obtained, from its table or newly made, is the one it
    obtains later, after any calls of the MLS library's storage, failing or not, that do not name
    that key: one certificate covers everything the device signs. *)
Theorem device_signer_stable fails fails' draw draw' u d c st c1 signer ops :
  implements V leaf_of c st ->
  load_or_create_device_signer fails draw u d c = (c1, Ok signer) ->
  Forall (own_op leaf_of) ops -> Forall (spares (kp_id signer.2)) ops ->
  let c2 := (Storage.calls V fails' ops c1).1 in
  (load_or_create_device_signer Storage.reliable draw' u d c2).2 = Ok signer.
Proof.
  intros Hi Hl Hown Hsp c2. destruct (signer_created fails draw u d c st c1 signer Hi Hl) as [st1 Hs1].
  destruct (signer_kept fails' u d signer c1 st1 ops Hs1 Hown Hsp) as [st2 Hs2]. by eapply signer_loaded.
Qed.

End Stable.

(** ** Certificates *)

Section CertFacts.
Context `{BasicCredential} `{KeyCrypto} `{!Uppercase} `{!Lowercase} `{SigningKeyBytes} `{!Base64} `{!Rfc3339}.
Context `{!Ed25519Laws} `{!Base64Laws}.

Lemma find_owned_installed u d pub l r :
  find (AccountRoutes.owned u d) l = Some r ->
  find (AccountRoutes.owned u d)
    (map (fun r => if AccountRoutes.owned u d r then mkDeviceRec (dev_id r) (dev_user r) (revoked_at r) (Some pub) else r) l)
  = Some (mkDeviceRec (dev_id r) (dev_user r) (revoked_at r) (Some pub)).
Proof.
  induction l as [|x l IH]; simpl; [done|]. destruct (AccountRoutes.owned u d x) eqn:Eo; simpl.
  - intros [= ->]. unfold AccountRoutes.owned in *. simpl. by rewrite Eo.
  - rewrite Eo. apply IH.
Qed.

Lemma parse_u64_pretty n : (n < 2 ^ 64)%N -> parse_uint (2 ^ 64 - 1) (pretty n) = Some n.
Proof.
  intros Hn. unfold parse_uint. destruct (parse_magnitude_pretty n) as (x & rest & E & Hx & Hp). rewrite E in *.
  destruct x; try done; rewrite Hp; (destruct (N.leb_spec n (2 ^ 64 - 1)); [done | lia]).
Qed.

(** Both halves of a row of [user_device] are there. *)
Definition rows_whole (db : MsgDb) : Prop :=
  forall r, In r (devices db) -> is_Some (device_info (Tables.accounts db) !! dev_id r).

Lemma is_owned_find u d db : AccountRoutes.is_owned u d db = true -> exists r, find (AccountRoutes.owned u d) (devices db) = Some r.
Proof.
  unfold AccountRoutes.is_owned. intros (r & Hin & Ho)%existsb_exists.
  destruct (find (AccountRoutes.owned u d) (devices db)) as [x|] eqn:E; [eauto|].
  by rewrite (find_none _ _ E r Hin) in Ho.
Qed.

Lemma owned_ids u d r : AccountRoutes.owned u d r = true -> dev_id r = d /\ dev_user r = u.
Proof. unfold AccountRoutes.owned. intros [?%bool_decide_eq_true ?%bool_decide_eq_true]%andb_true_iff. done. Qed.

Lemma version_u32_of_N v : (v < 2 ^ 32)%N -> version_u32 (Z.of_N v) = v.
Proof. intros Hv. unfold version_u32. rewrite Z.mod_small by lia. apply N2Z.id. Qed.

(** A row with a certificate that verifies. *)
Lemma check_device_certified apub u d db r pub cert issued v name :
  find (AccountRoutes.owned u d) (devices db) = Some r -> mls_signature_pub r = Some pub ->
  device_info (Tables.accounts db) !! d = Some (mkDeviceInfo name (Some cert) (Some (pretty issued)) (Some (Z.of_N v))) ->
  (issued < 2 ^ 64)%N -> (v < 2 ^ 32)%N ->
  check_device apub u d db =
    if bool_decide (is_Some (revoked_at r)) then Revoked
    else match DeviceCert.verify_device_cert apub d pub v issued cert with Ok _ => Verified | Err _ => Revoked end.
Proof.
  intros Hf Hp Hi Hn Hv. unfold check_device. rewrite Hf, Hi, Hp. simpl.
  by rewrite parse_u64_pretty, version_u32_of_N by done.
Qed.

Lemma installed_checks u d cert issued v pub apub db db' :
  AccountRoutes.install_key u d cert issued v pub db = Some (db', 1) -> rows_whole db ->
  AccountRoutes.verify_device_cert apub d pub v issued cert = true -> (issued < 2 ^ 64)%N -> (v < 2 ^ 32)%N ->
  users db' = users db /\
  exists r, find (AccountRoutes.owned u d) (devices db') = Some r /\ mls_signature_pub r = Some pub /\
    check_device apub u d db' = if bool_decide (is_Some (revoked_at r)) then Revoked else Verified.
Proof.
  intros Hi Hw Hv Hn Hv32. unfold AccountRoutes.install_key in Hi.
  destruct (AccountRoutes.is_owned u d db) eqn:Eo; [|done]. destruct (is_owned_find _ _ _ Eo) as [r Hr].
  injection Hi as Edb. pose proof (f_equal devices Edb) as Hdev. pose proof (f_equal users Edb) as Hus.
  pose proof (f_equal (fun x => device_info (Tables.accounts x) !! d) Edb) as Hinf. clear Edb. simpl in Hdev, Hus, Hinf.
  split; [done|]. pose proof (find_owned_installed u d pub _ _ Hr) as Hr'. rewrite Hdev in Hr'.
  eexists. split; [exact Hr'|]. split; [done|].
  destruct (find_some _ _ Hr) as [Hin Ho]. destruct (owned_ids _ _ _ Ho) as [Hd _].
  destruct (Hw r Hin) as [i Hinfo]. rewrite Hd in Hinfo. rewrite lookup_alter_eq, Hinfo in Hinf.
  rewrite (check_device_certified apub u d db' _ pub cert issued v (di_device_name i) Hr'); [|done | by rewrite <- Hinf | done..].
  apply cert_port_agrees in Hv. by rewrite Hv.
Qed.

Lemma u64_to_i64_low n : (n < 2 ^ 63)%N -> u64_to_i64 n = Z.of_N n.
Proof. intros Hn. unfold u64_to_i64. rewrite Z.mod_small by lia. destruct (Z.ltb_spec (Z.of_N n) (2 ^ 63)); [done | lia]. Qed.

(** Whom the service takes the publication for. *)
Lemma publish_who rm token u d :
  (forall p, token ≫= rm_session rm = Some p -> p.1 = u) ->
  match token ≫= rm_session rm with
  | Some (u, dev) => if bool_decide (d = dev) then Some (u, dev) else None
  | None => if bool_decide (trim u = "") then None else Some (u, d)
  end ∈ [Some (u, d); None].
Proof.
  intros Hs. destruct (token ≫= rm_session rm) as [[u' dev]|].
  - rewrite <- (Hs _ eq_refl). case_bool_decide; subst; set_solver.
  - case_bool_decide; set_solver.
Qed.

Lemma publish_inv rm token u d cert issued v pub db db' :
  post_publish rm token u d cert issued v pub db = (db', Ok tt) ->
  (forall p, token ≫= rm_session rm = Some p -> p.1 = u) -> (issued < 2 ^ 63)%N ->
  exists row apub, users db !! u = Some row /\ prf_account_id_pub row = Some apub /\
    AccountRoutes.verify_device_cert apub d pub v issued cert = true /\
    AccountRoutes.install_key u d cert issued v pub db = Some (db', 1).
Proof.
  intros Hp Hs Hn. unfold post_publish in Hp. rewrite !b64_decode_encode, u64_to_i64_low, N2Z.id in Hp by done.
  destruct (Z.of_N issued <? 0)%Z eqn:Ez; [apply Z.ltb_lt in Ez; lia|].
  pose proof (publish_who rm token u d Hs) as Hw. revert Hp Hw.
  match goal with |- context [?w ∈ _] => generalize w end. intros who Hp Hw.
  apply elem_of_cons in Hw as [->|Hw%list_elem_of_singleton]; [|by subst].
  pose proof (post_of_wp rm 0 _ db _ (wp_publish (rm_sql rm) u d cert issued v pub db
    (fun r db' => match r with Ok AccountRoutes.PublishApplied => exists row apub, users db !! u = Some row /\
       prf_account_id_pub row = Some apub /\ AccountRoutes.verify_device_cert apub d pub v issued cert = true /\
       AccountRoutes.install_key u d cert issued v pub db = Some (db', 1) | _ => True end)
    (fun _ => I) ltac:(by intros []) ltac:(intros; by eexists _, _))) as Hrun.
  destruct (post rm 0 _ db) as [db1 [[]|e]]; simplify_eq. exact Hrun.
Qed.

Lemma read_version_bound rm u db v : read_version rm u db = Ok v -> (v < 2 ^ 32)%N.
Proof.
  unfold read_version, Enroll.read. destruct (rm_read_fails rm 0); [done|]. simpl.
  destruct (users db !! u) as [row|]; [|done]. simpl. intros [= <-]. unfold version_u32.
  pose proof (Z.mod_pos_bound (prf_identity_version row) (2 ^ 32) ltac:(lia)). lia.
Qed.

(** The steps of a publication that succeeded. *)
Lemma ensure_inv fails rm draw u dev d c db d' c' db' :
  ensure_device_cert fails rm draw u dev d c db = ((d', c', db'), Ok true) ->
  exists kp pub v cert, load_or_create_device_signer fails draw u dev c = (c', Ok (kp, pub)) /\ (v < 2 ^ 32)%N /\
    post_publish rm (dv_bootstrap d) u dev cert (unix_secs rm) v pub db = (db', Ok tt).
Proof.
  unfold ensure_device_cert. destruct (has_local_account_identity _ _ _) as [cl [[]|]]; [|done..].
  case_bool_decide; [done|]. destruct (load_or_create_device_signer _ _ _ _ _) as [c1 [[kp pub]|]]; [|done].
  destruct (read_version rm u db) as [v|] eqn:Ev; [|done].
  destruct (sign_device_cert _ _ _ _ _ _ _) as [cl' [cert|]]; [|done]. simpl.
  destruct (post_publish _ _ _ _ _ _ _ _ _) as [db1 [[]|]] eqn:Ep; [|done].
  intros [= <- <- <-]. exists kp, pub, v, cert. split; [done|]. split; [by eapply read_version_bound | done].
Qed.

(** Reads of the main database that do not fail. *)
Definition readable (rm : Remote) : Prop := forall n, rm_read_fails rm n = false.

Lemma verify_one rm u d db row apub :
  readable rm -> users db !! u = Some row -> prf_account_id_pub row = Some apub ->
  verify_added_devices rm u [d] db = Ok (check_device apub u d db).
Proof.
  intros Hr Hu Ha. unfold verify_added_devices, Enroll.read. rewrite Hr. simpl. rewrite Hu. simpl. rewrite Ha. simpl.
  unfold Enroll.read. rewrite Hr. simpl. by destruct (check_device _ _ _ _).
Qed.

Context `{!MlsJson} (V : N) `{!BasicCredentialLaws V} `{!MlsLaws} `{!MlsKeys} (leaf_of : GroupId -> N).

(** C25: When [ensure_device_cert] reports a certificate written, the device's row at the service
    holds the key the device signs with and will go on signing with, and every client that checks
    the device finds it verified, unless it has been revoked. *)
Theorem device_cert_published fails rm rm' draw draw' u dev d c st db d' c' db' :
  implements V leaf_of c st -> rows_whole db ->
  ensure_device_cert fails rm draw u dev d c db = ((d', c', db'), Ok true) ->
  (forall p, dv_bootstrap d ≫= rm_session rm = Some p -> p.1 = u) -> (unix_secs rm < 2 ^ 63)%N -> readable rm' ->
  exists r kp pub, find (AccountRoutes.owned u dev) (devices db') = Some r /\ mls_signature_pub r = Some pub /\
    (load_or_create_device_signer Storage.reliable draw' u dev c').2 = Ok (kp, pub) /\
    verify_added_devices rm' u [dev] db' = Ok (if bool_decide (is_Some (revoked_at r)) then Revoked else Verified).
Proof.
  intros Hi Hw He Hs Hn Hr. apply ensure_inv in He as (kp & pub & v & cert & Hl & Hv & Hp).
  destruct (publish_inv _ _ _ _ _ _ _ _ _ _ Hp Hs Hn) as (row & apub & Hu & Ha & Hc & Hk).
  destruct (installed_checks _ _ _ _ _ _ apub _ _ Hk Hw Hc ltac:(lia) Hv) as (Eu & r & Hf & Hpub & Hchk).
  destruct (signer_created V leaf_of _ _ _ _ _ _ _ _ Hi Hl) as [st1 Hs1].
  exists r, kp, pub. split; [done|]. split; [done|]. split; [by eapply (signer_loaded V leaf_of)|].
  rewrite <- Hchk. eapply verify_one; [done | by rewrite Eu | done].
Qed.
End CertFacts.

(** ** Re-signing *)

Section Resign.
Context `{BasicCredential} `{KeyCrypto} `{!Uppercase} `{!Lowercase} `{SigningKeyBytes} `{!Base64} `{!Rfc3339}.
Context `{!Ed25519Laws} `{!Base64Laws}.
Context (fails : nat -> bool) (rm : Remote) (u : string) (v : N) (key : SigningKey).

Definition cert_of (dp : string * bytes) : bytes :=
  match DeviceCert.device_cert_signed_payload dp.1 dp.2 v (unix_secs rm) with Ok payload => ed_sign key payload | Err _ => [] end.

(** Ids and keys short enough for a certificate. *)
Definition fits (dp : string * bytes) : Prop := length (as_bytes dp.1) <= 255 /\ length dp.2 <= 255.

Lemma payload_fits dp t : fits dp -> exists p, DeviceCert.device_cert_signed_payload dp.1 dp.2 v t = Ok p.
Proof.
  intros [Hd Hp]. unfold DeviceCert.device_cert_signed_payload.
  destruct (Nat.ltb_spec 255 (length (as_bytes dp.1))); [lia|]. destruct (Nat.ltb_spec 255 (length dp.2)); [lia | eauto].
Qed.

(** The client holds the account key [key] of [u]. *)
Definition unlocked_with (cl : Client) : Prop :=
  exists un, unlocked_as u cl = Some un /\ length (un_account_id_key un) = ED25519_PRIVATE_LEN /\
    sk_from_bytes (un_account_id_key un) = key.

Definition resigned (dp : string * bytes) : AccountRoutes.ResignedCert :=
  AccountRoutes.mkResignedCert dp.1 (b64_encode (cert_of dp)) (pretty (unix_secs rm)) (Z.of_N v).

Lemma sign_all_unlocked l cl : unlocked_with cl -> Forall fits l -> sign_all fails rm u v l cl = (cl, Ok (map resigned l)).
Proof.
  intros (un & Hu & Hl & Hk) Hall. induction Hall as [|[did pub] l Hf Hall IH]; [done|]. simpl.
  unfold sign_device_cert, load_account_id_key. rewrite Hu. unfold signing_key_from_bytes. rewrite Hl, Nat.eqb_refl. simpl.
  destruct (payload_fits (did, pub) (unix_secs rm) Hf) as [p Ep]. simpl in Ep. rewrite Ep, IH, Hk.
  unfold resigned at 2, cert_of. simpl. by rewrite Ep.
Qed.

(** What the service does with one certificate. *)
Definition stamp (db : MsgDb) (dp : string * bytes) : MsgDb :=
  if AccountRoutes.is_owned u dp.1 db
  then set_device_info (alter (AccountRoutes.set_cert (cert_of dp) (pretty (unix_secs rm)) (Z.of_N v)) dp.1) db
  else db.

Lemma run_stamps env l n db : Tables.reliable env ->
  exists n', for_each (map resigned l) (fun c =>
    bind (decoded (b64_decode_opt (AccountRoutes.rc_device_cert c))) (fun cert =>
    Tables.write env (fun db =>
      if AccountRoutes.is_owned u (AccountRoutes.rc_device_id c) db
      then Some (set_device_info (alter (AccountRoutes.set_cert cert (AccountRoutes.rc_cert_issued_at c)
                                           (AccountRoutes.rc_cert_identity_version c)) (AccountRoutes.rc_device_id c)) db)
      else Some db))) (n, db) = ((n', foldl stamp db l), Ok tt).
Proof.
  intros Hr. revert n db. induction l as [|dp l IH]; intros n db; simpl; [by exists n|].
  unfold bind at 1 2, decoded. rewrite b64_decode_encode, run_write by done. unfold stamp at 2.
  destruct (AccountRoutes.is_owned u dp.1 db); apply IH.
Qed.

Lemma run_resign env l db : Tables.reliable env ->
  run_sql (AccountRoutes.apply_resign_device_certs env (Some u) (AccountRoutes.mkResignDeviceCerts (map resigned l) (Some u))) db
  = (foldl stamp db l, Ok Applied).
Proof.
  intros Hr. unfold AccountRoutes.apply_resign_device_certs, as_actor, resolve_actor, run_sql.
  cbn [AccountRoutes.rs_user_id AccountRoutes.rs_certs]. rewrite bool_decide_eq_true_2 by done. cbn [negb].
  rewrite run_transaction by done. destruct (run_stamps env l 1 db Hr) as [n' Hn]. unfold bind in *. by rewrite Hn.
Qed.

(** *** The rows afterwards *)

Lemma stamp_rows db dp : devices (stamp db dp) = devices db /\ users (stamp db dp) = users db.
Proof. unfold stamp. by destruct (AccountRoutes.is_owned u dp.1 db). Qed.

Lemma stamped_rows l db : devices (foldl stamp db l) = devices db /\ users (foldl stamp db l) = users db.
Proof.
  revert db. induction l as [|dp l IH]; intros db; simpl; [done|]. destruct (stamp_rows db dp) as [Ed Eu].
  destruct (IH (stamp db dp)) as [-> ->]. done.
Qed.

Lemma is_owned_devices d db db' : devices db' = devices db -> AccountRoutes.is_owned u d db' = AccountRoutes.is_owned u d db.
Proof. intros E. unfold AccountRoutes.is_owned. by rewrite E. Qed.

Lemma stamp_other db dp did : did <> dp.1 -> device_info (Tables.accounts (stamp db dp)) !! did = device_info (Tables.accounts db) !! did.
Proof. intros Hn. unfold stamp. destruct (AccountRoutes.is_owned u dp.1 db); [|done]. simpl. by rewrite lookup_alter_ne. Qed.

Lemma stamped_other l db did : did ∉ l.*1 -> device_info (Tables.accounts (foldl stamp db l)) !! did = device_info (Tables.accounts db) !! did.
Proof.
  revert db. induction l as [|dp l IH]; intros db Hn; simpl; [done|]. rewrite fmap_cons, not_elem_of_cons in Hn.
  destruct Hn as [Hd Hn]. by rewrite IH, stamp_other.
Qed.

Lemma stamped_in l db dp : NoDup l.*1 -> dp ∈ l -> AccountRoutes.is_owned u dp.1 db = true ->
  device_info (Tables.accounts (foldl stamp db l)) !! dp.1 =
    AccountRoutes.set_cert (cert_of dp) (pretty (unix_secs rm)) (Z.of_N v) <$> device_info (Tables.accounts db) !! dp.1.
Proof.
  revert db. induction l as [|x l IH]; intros db Hnd Hin Ho; [by apply not_elem_of_nil in Hin|].
  rewrite fmap_cons in Hnd. apply NoDup_cons in Hnd as [Hx Hnd]. simpl. apply elem_of_cons in Hin as [->|Hin].
  - rewrite stamped_other by done. unfold stamp. rewrite Ho. simpl. by rewrite lookup_alter_eq.
  - destruct (stamp_rows db x) as [Ed _]. rewrite IH, stamp_other; [done | | done | done | by rewrite (is_owned_devices _ _ _ Ed)].
    intros E. apply Hx. rewrite <- E. by apply list_elem_of_fmap_2.
Qed.
End Resign.

Section Outcome.
Context `{BasicCredential} `{KeyCrypto} `{!Uppercase} `{!Lowercase} `{SigningKeyBytes} `{!Base64} `{!Rfc3339}.
Context `{!Ed25519Laws} `{!Base64Laws}.
Context (fails : nat -> bool) (rm : Remote) (u : string) (v : N) (key : SigningKey) (db : MsgDb) (apub : bytes).

(** An account at version [v] with its key [apub], device ids that are unique, a service and a
    main database that answer, and a clock within its range. *)
Record resign_ready (d : Device) : Prop := {
  rr_account : exists row, users db !! u = Some row /\ prf_account_id_pub row = Some apub /\ prf_identity_version row = Z.of_N v;
  rr_version : (v < 2 ^ 32)%N;
  rr_rows : rows_whole db;
  rr_ids : NoDup (dev_id <$> devices db);
  rr_fits : Forall fits (stale u v db);
  rr_sql : Tables.reliable (rm_sql rm);
  rr_wire : rm_wire rm 0 = Answered;
  rr_reads : readable rm;
  rr_signer : rm_signer rm = Some u;
  rr_clock : (unix_secs rm < 2 ^ 64)%N;
  rr_key : unlocked_with u key (dv_client d)
}.

Definition healed : MsgDb := foldl (stamp rm u v key) db (stale u v db).

Lemma stale_ids_sublist l :
  (omap (fun r =>
    pub ← mls_signature_pub r;
    if bool_decide (dev_user r = u) &&
       match device_info (Tables.accounts db) !! dev_id r ≫= di_cert_identity_version with
       | None => true
       | Some w => (w <? Z.of_N v)%Z
       end
    then Some (dev_id r, pub) else None) l).*1 `sublist_of` (dev_id <$> l).
Proof.
  induction l as [|r l IH]; simpl; [constructor|]. destruct (mls_signature_pub r) as [pub|]; simpl; [|by constructor].
  match goal with |- context [if ?b then Some _ else None] => destruct b end; simpl; by constructor.
Qed.

Lemma stale_ids_NoDup : NoDup (dev_id <$> devices db) -> NoDup (stale u v db).*1.
Proof. intros Hn. eapply sublist_NoDup; [exact Hn | apply (stale_ids_sublist (devices db))]. Qed.

Lemma stale_elem dp : dp ∈ stale u v db <-> exists r, r ∈ devices db /\ dev_id r = dp.1 /\ dev_user r = u /\
  mls_signature_pub r = Some dp.2 /\
  forall w, device_info (Tables.accounts db) !! dev_id r ≫= di_cert_identity_version = Some w -> (w < Z.of_N v)%Z.
Proof.
  unfold stale. rewrite list_elem_of_omap. destruct dp as [did pub]. split.
  - intros (r & Hin & Hr). exists r. destruct (mls_signature_pub r) as [p|]; simpl in Hr; [|done].
    case_bool_decide as Hu; simpl in Hr; [|done].
    destruct (device_info (Tables.accounts db) !! dev_id r ≫= di_cert_identity_version) as [w|] eqn:Ew.
    + destruct (Z.ltb_spec w (Z.of_N v)); [|done]. injection Hr as <- <-. split_and!; try done. by intros w' [= <-].
    + injection Hr as <- <-. split_and!; done.
  - intros (r & Hin & Hd & Hu & Hp & Hw). exists r. split; [done|]. simpl in *. rewrite Hp. simpl.
    rewrite bool_decide_eq_true_2 by done. simpl.
    destruct (device_info (Tables.accounts db) !! dev_id r ≫= di_cert_identity_version) as [w|]; [|by rewrite Hd].
    destruct (Z.ltb_spec w (Z.of_N v)) as [_|Hle]; [by rewrite Hd|]. specialize (Hw w eq_refl). lia.
Qed.

Lemma find_by_id l r : NoDup (dev_id <$> l) -> r ∈ l -> dev_user r = u -> find (AccountRoutes.owned u (dev_id r)) l = Some r.
Proof.
  induction l as [|x l IH]; intros Hnd Hin Hu; [by apply not_elem_of_nil in Hin|]. simpl.
  rewrite fmap_cons in Hnd. apply NoDup_cons in Hnd as [Hx Hnd]. unfold AccountRoutes.owned at 1.
  apply elem_of_cons in Hin as [->|Hin]; [by rewrite !bool_decide_eq_true_2|].
  rewrite bool_decide_eq_false_2; [by apply IH|]. intros E. apply Hx. rewrite E. by apply list_elem_of_fmap_2.
Qed.

Context (d : Device) (Hready : resign_ready d).

Lemma resign_run : resign_stale_device_certs fails rm u d db = ((d, healed), Ok (length (stale u v db))).
Proof.
  destruct Hready as [(row & Hu & Ha & Hv) Hv32 _ _ Hfits Hsql Hwire Hreads Hsigner _ Hkey].
  unfold resign_stale_device_certs, read_version, Enroll.read. rewrite !Hreads. simpl. rewrite Hu. simpl.
  rewrite Hv, version_u32_of_N by done. rewrite (sign_all_unlocked fails rm u v key) by done.
  assert (on_client (dv_client d) d = d) as -> by (by destruct d).
  unfold healed. destruct (stale u v db) as [|dp l]; [done|].
  cbn [map]. unfold ds_post_ok, post. rewrite Hsigner, Hwire.
  pose proof (run_resign rm u v key (rm_sql rm) (dp :: l) db Hsql) as Hrun. cbn [map] in Hrun. rewrite Hrun.
  simpl. by rewrite length_map.
Qed.

Lemma healed_verdict dp : dp ∈ stale u v db ->
  exists r, find (AccountRoutes.owned u dp.1) (devices healed) = Some r /\
    check_device apub u dp.1 healed =
      if bool_decide (is_Some (revoked_at r)) then Revoked
      else match DeviceCert.verify_device_cert apub dp.1 dp.2 v (unix_secs rm) (cert_of rm v key dp) with
           | Ok _ => Verified | Err _ => Revoked end.
Proof.
  intros Hin. pose proof Hin as (r & Hr & Hd & Hu & Hp & _)%stale_elem.
  destruct Hready as [_ Hv32 Hrows Hids _ _ _ _ _ Hclock _].
  assert (Hf : find (AccountRoutes.owned u dp.1) (devices healed) = Some r).
  { unfold healed. rewrite (proj1 (stamped_rows rm u v key _ _)), <- Hd. by apply find_by_id. }
  exists r. split; [exact Hf|]. destruct (Hrows r ltac:(by apply list_elem_of_In)) as [i Hi].
  eapply (check_device_certified apub u dp.1 healed r dp.2 (cert_of rm v key dp) (unix_secs rm) v (di_device_name i));
    [exact Hf | done | | done | done].
  unfold healed. rewrite stamped_in; [rewrite <- Hd, Hi; done | | done |].
  - by apply stale_ids_NoDup.
  - unfold AccountRoutes.is_owned. apply existsb_exists. exists r. split; [by apply list_elem_of_In|].
    unfold AccountRoutes.owned. by rewrite !bool_decide_eq_true_2.
Qed.

(** The rows of [stale] afterwards are among those before. *)
Lemma healed_stale_before r :
  r ∈ devices healed -> dev_user r = u -> (exists pub, mls_signature_pub r = Some pub) ->
  (forall w, device_info (Tables.accounts healed) !! dev_id r ≫= di_cert_identity_version = Some w -> (w < Z.of_N v)%Z) -> False.
Proof.
  intros Hin Hu [pub Hp] Hw. destruct Hready as [_ _ Hrows Hids _ _ _ _ _ _].
  unfold healed in Hin. rewrite (proj1 (stamped_rows rm u v key _ _)) in Hin.
  destruct (decide (dev_id r ∈ (stale u v db).*1)) as [Hs|Hs].
  - apply list_elem_of_fmap in Hs as ([did pub'] & Ed & Hs). simpl in Ed. subst did.
    destruct (Hrows r ltac:(by apply list_elem_of_In)) as [i Hi].
    specialize (Hw (Z.of_N v)). unfold healed in Hw. rewrite (stamped_in rm u v key _ _ (dev_id r, pub')) in Hw.
    + simpl in Hw. rewrite Hi in Hw. specialize (Hw eq_refl). lia.
    + by apply stale_ids_NoDup.
    + done.
    + unfold AccountRoutes.is_owned. apply existsb_exists. exists r. split; [by apply list_elem_of_In|].
      unfold AccountRoutes.owned. by rewrite !bool_decide_eq_true_2.
  - apply Hs. apply list_elem_of_fmap. exists (dev_id r, pub). split; [done|]. apply stale_elem. exists r. split_and!; try done.
    unfold healed in Hw. by rewrite stamped_other in Hw.
Qed.
End Outcome.

(** *** The two outcomes *)

Section Claims.
Context `{BasicCredential} `{KeyCrypto} `{!Uppercase} `{!Lowercase} `{SigningKeyBytes} `{!Base64} `{!Rfc3339}.
Context `{!Ed25519Laws} `{!Base64Laws}.

(** Afterwards no certificate is behind. *)
Lemma healed_fresh rm u v key db apub d : resign_ready rm u v key db apub d -> stale u v (healed rm u v key db) = [].
Proof.
  intros Hready. destruct (stale u v (healed rm u v key db)) as [|dp l] eqn:E; [done|]. exfalso.
  assert (Hin : dp ∈ stale u v (healed rm u v key db)) by (rewrite E; apply list_elem_of_here).
  apply stale_elem in Hin as (r & Hr & Hd & Hu & Hp & Hw).
  by apply (healed_stale_before rm u v key db apub d Hready r); eauto.
Qed.

Lemma healed_account rm u v key db : users (healed rm u v key db) = users db.
Proof. apply stamped_rows. Qed.

Lemma healed_others rm u v key db did : did ∉ (stale u v db).*1 ->
  device_info (Tables.accounts (healed rm u v key db)) !! did = device_info (Tables.accounts db) !! did.
Proof. apply stamped_other. Qed.

Lemma own_cert_verifies rm v key apub dp :
  fits dp -> vk_to_bytes (verifying_key key) = apub ->
  DeviceCert.verify_device_cert apub dp.1 dp.2 v (unix_secs rm) (cert_of rm v key dp) = Ok tt.
Proof.
  intros Hf <-. unfold cert_of. destruct (payload_fits v dp (unix_secs rm) Hf) as [p Ep]. rewrite Ep.
  apply verify_device_cert_ok. rewrite vk_to_bytes_length, ed_sign_length. split_and!; try done.
  exists (verifying_key key), p. by rewrite vk_from_to_bytes, Ep, ed_verify_sign.
Qed.

(** Re-signing with the account's current key succeeds, counts the certificates it replaced,
    leaves none behind the account's version and no other row changed, and every device it
    re-signed then verifies, unless it is revoked. *)
Theorem resign_heals fails rm rm' u v key db apub d :
  resign_ready rm u v key db apub d -> vk_to_bytes (verifying_key key) = apub -> readable rm' ->
  exists db', resign_stale_device_certs fails rm u d db = ((d, db'), Ok (length (stale u v db))) /\
    stale u v db' = [] /\ devices db' = devices db /\
    (forall did, did ∉ (stale u v db).*1 -> device_info (Tables.accounts db') !! did = device_info (Tables.accounts db) !! did) /\
    (forall dp, dp ∈ stale u v db -> exists r, find (AccountRoutes.owned u dp.1) (devices db') = Some r /\
       verify_added_devices rm' u [dp.1] db' = Ok (if bool_decide (is_Some (revoked_at r)) then Revoked else Verified)).
Proof.
  intros Hready Hkey Hr. exists (healed rm u v key db). split; [by apply (resign_run fails rm u v key db apub)|].
  split; [by eapply healed_fresh|]. split; [apply stamped_rows|]. split; [apply healed_others|].
  intros dp Hin. destruct (healed_verdict rm u v key db apub d Hready dp Hin) as (r & Hf & Hc). exists r. split; [done|].
  pose proof (proj1 (Forall_forall _ _) (rr_fits _ _ _ _ _ _ _ Hready) dp Hin) as Hfit.
  rewrite (own_cert_verifies rm v key apub dp Hfit Hkey) in Hc. rewrite <- Hc.
  destruct (rr_account _ _ _ _ _ _ _ Hready) as (row & Hu & Ha & _).
  eapply verify_one; [done | by rewrite healed_account | done].
Qed.

(** C26: Re-signing with a key that is no longer the account's also succeeds: it stamps every
    stale certificate with the current version and a signature that does not verify, so that each
    of those devices is rejected from then on, and re-signing with the right key finds nothing to
    do. *)
Theorem resign_poisons fails fails' rm rm' u v old key db apub vk d d' :
  resign_ready rm u v old db apub d -> vk_from_bytes apub = Some vk ->
  (forall dp p, dp ∈ stale u v db -> DeviceCert.device_cert_signed_payload dp.1 dp.2 v (unix_secs rm) = Ok p ->
     ed_verify vk p (ed_sign old p) = false) -> readable rm' ->
  exists db', resign_stale_device_certs fails rm u d db = ((d, db'), Ok (length (stale u v db))) /\
    (forall dp, dp ∈ stale u v db -> verify_added_devices rm' u [dp.1] db' = Ok Revoked) /\
    (resign_ready rm' u v key db' apub d' -> resign_stale_device_certs fails' rm' u d' db' = ((d', db'), Ok 0)).
Proof.
  intros Hready Hvk Hbad Hr. exists (healed rm u v old db). split; [by apply (resign_run fails rm u v old db apub)|].
  pose proof (healed_fresh rm u v old db apub d Hready) as Hfresh. split.
  - intros dp Hin. destruct (healed_verdict rm u v old db apub d Hready dp Hin) as (r & Hf & Hc).
    destruct (rr_account _ _ _ _ _ _ _ Hready) as (row & Hu & Ha & _).
    rewrite (verify_one rm' u dp.1 _ row apub Hr) by (rewrite ?healed_account; done). rewrite Hc. clear Hc.
    case_bool_decide; [done|]. destruct (DeviceCert.verify_device_cert _ _ _ _ _ _) as [[]|] eqn:Ev; [|done]. exfalso.
    apply verify_device_cert_ok in Ev as (_ & _ & vk' & p & Ek & Ep & Hv). rewrite Hvk in Ek. injection Ek as <-.
    unfold cert_of in Hv. by rewrite Ep, (Hbad dp p Hin Ep) in Hv.
  - intros Hready'. rewrite (resign_run fails' rm' u v key _ apub d' Hready'). unfold healed at 1. by rewrite Hfresh.
Qed.

(** *** What passes *)

(** A device whose row carries a certificate of the account key. *)
Definition certified (db : MsgDb) (u : string) (apub : bytes) (did : string) : Prop :=
  exists r info cert issued_at issued w pub,
    find (AccountRoutes.owned u did) (devices db) = Some r /\ revoked_at r = None /\ mls_signature_pub r = Some pub /\
    device_info (Tables.accounts db) !! did = Some info /\ di_device_cert info = Some cert /\
    di_cert_issued_at info = Some issued_at /\ di_cert_identity_version info = Some w /\
    parse_uint (2 ^ 64 - 1) issued_at = Some issued /\
    DeviceCert.verify_device_cert apub did pub (version_u32 w) issued cert = Ok tt.

Lemma check_device_verified db u apub did : check_device apub u did db = Verified <-> certified db u apub did.
Proof.
  unfold check_device, certified. destruct (find _ (devices db)) as [r|]; [|naive_solver].
  destruct (revoked_at r) as [t|] eqn:Er; simpl; [naive_solver|].
  destruct (device_info (Tables.accounts db) !! did) as [[name [cert|] [t|] [w|]]|], (mls_signature_pub r) as [pub|] eqn:Ep;
    simpl; try naive_solver.
  destruct (parse_uint (2 ^ 64 - 1) t) as [n|] eqn:En; [|naive_solver].
  destruct (DeviceCert.verify_device_cert apub did pub (version_u32 w) n cert) as [[]|] eqn:Ev; split; intros Hx; try done.
  - by eexists r, _, cert, t, n, w, pub.
  - destruct Hx as (r' & info & cert' & t' & n' & w' & pub' & ? & ? & ? & ? & ? & ? & ? & ? & Hv). simplify_eq/=. congruence.
Qed.

(** The first outcome that is not [Verified]. *)
Definition first_bad (f : string -> VerifyOutcome) (dids : list string) : VerifyOutcome :=
  default Verified (find (fun o => match o with Verified => false | _ => true end) (map f dids)).

Lemma first_bad_all f dids : (forall x, x ∈ dids -> f x = Verified) -> first_bad f dids = Verified.
Proof.
  unfold first_bad. induction dids as [|x dids IH]; intros Hf; simpl; [done|].
  rewrite (Hf x) by apply list_elem_of_here. apply IH. intros y Hy. by apply Hf, list_elem_of_further.
Qed.

Lemma first_bad_none f dids x : Ok (E := CoreError) (first_bad f dids) = Ok Verified -> x ∈ dids -> f x = Verified.
Proof.
  unfold first_bad. intros Hv. injection Hv as Hv. revert Hv.
  induction dids as [|y dids IH]; simpl; [intros _ Hx; by apply not_elem_of_nil in Hx|].
  destruct (f y) eqn:Ef; simpl; try done. intros Hv [->|Hx]%elem_of_cons; [done | by apply IH].
Qed.

Lemma first_bad_at f pre did post :
  (forall x, x ∈ pre -> f x = Verified) -> f did <> Verified -> first_bad f (pre ++ did :: post) = f did.
Proof.
  unfold first_bad. intros Hpre Hd. induction pre as [|x pre IH]; simpl; [by destruct (f did)|].
  rewrite (Hpre x) by apply list_elem_of_here. apply IH. intros y Hy. by apply Hpre, list_elem_of_further.
Qed.

Lemma check_devices_spec rm n apub u dids db : readable rm ->
  check_devices rm n apub u dids db = Ok (first_bad (fun did => check_device apub u did db) dids).
Proof.
  intros Hr. revert n. induction dids as [|did dids IH]; intros n; simpl; [done|]. unfold Enroll.read. rewrite Hr.
  unfold first_bad. simpl. destruct (check_device apub u did db); [apply IH | done | done].
Qed.

(** C27: The devices of a commit pass exactly when the account has a key and each device has an
    unrevoked row with a certificate of that key; otherwise the first that does not pass decides
    the outcome, and an account or a row that is not there asks for a retry. *)
Theorem verify_added_exact rm u dids db : readable rm ->
  (verify_added_devices rm u dids db = Ok Verified <->
     dids = [] \/ exists row apub, users db !! u = Some row /\ prf_account_id_pub row = Some apub /\ Forall (certified db u apub) dids) /\
  (dids <> [] -> users db !! u ≫= prf_account_id_pub = None -> verify_added_devices rm u dids db = Ok AbsentRetry) /\
  (forall pre did post row apub, dids = pre ++ did :: post -> users db !! u = Some row -> prf_account_id_pub row = Some apub ->
     Forall (certified db u apub) pre -> ~ certified db u apub did ->
     verify_added_devices rm u dids db = Ok (check_device apub u did db)).
Proof.
  intros Hr. unfold verify_added_devices, Enroll.read. rewrite Hr. split; [|split].
  - destruct dids as [|did dids]; [by split; [left|]|]. cbn [rbind].
    destruct (users db !! u ≫= prf_account_id_pub) as [apub|] eqn:Ea.
    + apply bind_Some in Ea as (row & Hu & Ha). rewrite check_devices_spec by done. split.
      * intros Hv. right. exists row, apub. split_and!; [done..|]. apply Forall_forall. intros x Hx.
        apply check_device_verified. by apply (first_bad_none (fun did => check_device apub u did db) (did :: dids)).
      * intros [?|(row' & apub' & Hu' & Ha' & Hall)]; [done|]. assert (apub' = apub) as -> by congruence.
        f_equal. apply first_bad_all. intros x Hx. apply check_device_verified. by apply (proj1 (Forall_forall _ _) Hall).
    + split; [done|]. intros [?|(row' & apub' & Hu' & Ha' & _)]; [done|]. rewrite Hu' in Ea. simpl in Ea. congruence.
  - destruct dids; [done|]. simpl. intros _ ->. done.
  - intros pre did post row apub -> Hu Ha Hpre Hno. destruct (pre ++ did :: post) as [|x l] eqn:El; [by destruct pre|].
    rewrite <- El. cbn [rbind].
    assert (users db !! u ≫= prf_account_id_pub = Some apub) as -> by (by rewrite Hu). rewrite check_devices_spec by done. f_equal.
    apply (first_bad_at (fun did => check_device apub u did db)); [|by rewrite check_device_verified]. intros y Hy. apply check_device_verified.
    by apply (proj1 (Forall_forall _ _) Hpre).
Qed.
End Claims.

(** ** Witnesses *)

Section Witnesses.
Import Storage.Sample.

#[local] Existing Instance Enroll.clear_keys.
#[local] Existing Instance Enroll.clear_sk_bytes.
#[local] Existing Instance Enroll.ascii_uppercase.
#[local] Existing Instance Enroll.same_lowercase.
#[local] Existing Instance Delivery.clear_base64.
#[local] Existing Instance Enroll.clear_base64_roundtrip.
#[local] Existing Instance Enroll.nine_bytes.

(** Key pairs are numbers, their public halves 32 bytes. *)
#[local] Instance sample_credential : BasicCredential := {|
  kp_id := be_value;
  kp_to_public_vec n := be_bytes 32 n;
  kp_private n := be_bytes 32 n;
  kp_read fails pub c := (let '(c', r) := signature_key_pair fails 1 (be_value pub) c in
                          (c', match r with Ok (Some kp) => Some kp | _ => None end));
  kp_store fails n := write_signature_key_pair fails 1 (be_value (be_bytes 32 n)) n
|}.

#[local] Instance sample_credential_laws : BasicCredentialLaws 1.
Proof. by constructor. Qed.

#[local] Definition started : Connection :=
  (load_or_create_device_signer Storage.reliable (Some 5%N) "alice" "phone" (mkConnection ∅ 0)).1.

Lemma device_signer_stable_witness :
  let c1 := (load_or_create_device_signer Storage.reliable (Some 5%N) "alice" "phone" (mkConnection ∅ 0)).1 in
  let c2 := (Storage.calls 1 second_fails session c1).1 in
  (load_or_create_device_signer Storage.reliable (Some 6%N) "alice" "phone" c2).2 = Ok (5%N, be_bytes 32 5).
Proof.
  pose proof (device_signer_stable 1 leaf Storage.reliable second_fails (Some 5%N) (Some 6%N) "alice" "phone" (mkConnection ∅ 0)
    empty_store started (5%N, be_bytes 32 5) session (implements_empty 1 leaf 0)) as Hs.
  apply Hs; [vm_compute; reflexivity | repeat constructor | repeat constructor].
Defined.

(** A read of the pair that fails once is taken for a lost key, and a new one is made. *)
Example transient_failure_replaces_key :
  (load_or_create_device_signer (fun n => n =? 4) (Some 6%N) "alice" "phone" started).2 = Ok (6%N, be_bytes 32 6).
Proof. vm_compute. reflexivity. Qed.

(** Alice's account at version 2, her phone and laptop certified under version 1. *)
#[local] Definition account : bytes := vk_to_bytes (verifying_key Enroll.account_key).

#[local] Definition old_cert : DeviceInfo := mkDeviceInfo None (Some [x01]) (Some "1700000000") (Some 1%Z).

#[local] Definition fleet : MsgDb :=
  set_device_info (fun _ => {["phone" := old_cert; "laptop" := old_cert]})
    (set_devices (fun _ => [mkDeviceRec "phone" "alice" None (Some (be_bytes 32 5)); mkDeviceRec "laptop" "alice" None (Some (be_bytes 32 9))])
      (set_users (fun _ => {["alice" := mkProfile "alice" None None None "a@x.io" (Some account) 2]}) Enroll.alice_db)).

#[local] Definition now : Remote := Enroll.remote Enroll.start_ns.

#[local] Definition offline_key : SigningKey := ClearSig.repeat_seed x08.

#[local] Definition holding (k : SigningKey) : Device :=
  mkDevice (Enroll.client "phone" (Some (mkUnlock "alice" [x05] (sk_to_bytes k)))) None None ∅.

Lemma fleet_whole : rows_whole fleet.
Proof. intros r Hr. simpl in Hr. destruct Hr as [<-|[<-|[]]]; vm_compute; eauto. Qed.

Lemma fleet_ready k : k ∈ [Enroll.account_key; offline_key] -> resign_ready now "alice" 2 k fleet account (holding k).
Proof.
  intros Hk. constructor.
  - eexists. split_and!; [vm_compute; reflexivity | done | done].
  - done.
  - apply fleet_whole.
  - apply (bool_decide_unpack _). vm_compute. exact I.
  - vm_compute. repeat constructor.
  - done.
  - done.
  - done.
  - done.
  - done.
  - apply elem_of_cons in Hk as [->|Hk%list_elem_of_singleton]; [|subst k]; eexists; split_and!; vm_compute; reflexivity.
Qed.

Lemma resign_heals_witness :
  stale "alice" 2 fleet = [("phone", be_bytes 32 5); ("laptop", be_bytes 32 9)] /\
  exists db', resign_stale_device_certs (fun _ => false) now "alice" (holding Enroll.account_key) fleet
    = ((holding Enroll.account_key, db'), Ok 2) /\ stale "alice" 2 db' = [] /\
    forall dp, dp ∈ stale "alice" 2 fleet -> exists r, find (AccountRoutes.owned "alice" dp.1) (devices db') = Some r /\
      verify_added_devices now "alice" [dp.1] db' = Ok (if bool_decide (is_Some (revoked_at r)) then Revoked else Verified).
Proof.
  split; [vm_compute; reflexivity|].
  pose proof (resign_heals (fun _ => false) now now "alice" 2 Enroll.account_key fleet account (holding Enroll.account_key)
    (fleet_ready _ (list_elem_of_here _ _)) eq_refl (fun n => eq_refl)) as (db' & Hr & Hs & _ & _ & Hv).
  exists db'. split; [exact Hr|]. split; [exact Hs | exact Hv].
Defined.

Lemma resign_poisons_witness :
  exists db', resign_stale_device_certs (fun _ => false) now "alice" (holding offline_key) fleet = ((holding offline_key, db'), Ok 2) /\
    forall dp, dp ∈ stale "alice" 2 fleet -> verify_added_devices now "alice" [dp.1] db' = Ok Revoked.
Proof.
  pose proof (resign_poisons (fun _ => false) (fun _ => false) now now "alice" 2 offline_key Enroll.account_key fleet account
    (verifying_key Enroll.account_key) (holding offline_key) (holding Enroll.account_key)
    (fleet_ready _ (list_elem_of_further _ _ _ (list_elem_of_here _ _)))) as Hx.
  destruct Hx as (db' & Hr & Hv & _).
  - vm_compute. reflexivity.
  - intros dp p Hin Ep. assert (dp ∈ [("phone", be_bytes 32 5); ("laptop", be_bytes 32 9)]) as Hd by exact Hin.
    apply elem_of_cons in Hd as [->|Hd%list_elem_of_singleton]; [|subst dp];
      (vm_compute in Ep; injection Ep as <-; vm_compute; reflexivity).
  - intros n. reflexivity.
  - exists db'. split; [exact Hr | exact Hv].
Defined.

#[local] Definition published : (Device * Connection * MsgDb) * Result bool CoreError :=
  ensure_device_cert (fun _ => false) now (Some 5%N) "alice" "phone" (holding Enroll.account_key) (mkConnection ∅ 0) fleet.

Lemma device_cert_published_witness :
  published.2 = Ok true /\
  exists r kp pub, find (AccountRoutes.owned "alice" "phone") (devices published.1.2) = Some r /\ mls_signature_pub r = Some pub /\
    (load_or_create_device_signer Storage.reliable None "alice" "phone" published.1.1.2).2 = Ok (kp, pub) /\
    verify_added_devices now "alice" ["phone"] published.1.2 = Ok (if bool_decide (is_Some (revoked_at r)) then Revoked else Verified).
Proof.
  assert (Hok : published.2 = Ok true) by (vm_compute; reflexivity). split; [exact Hok|].
  pose proof (device_cert_published 1 leaf (fun _ => false) now now (Some 5%N) None "alice" "phone" (holding Enroll.account_key)
    (mkConnection ∅ 0) empty_store fleet published.1.1.1 published.1.1.2 published.1.2 (implements_empty 1 leaf 0) fleet_whole) as Hp.
  apply Hp; [|intros p Hp'; discriminate Hp' | vm_compute; reflexivity | intros n; reflexivity].
  unfold published in *. destruct (ensure_device_cert _ _ _ _ _ _ _ _) as [[[d' c'] db'] r]. simpl in *. by rewrite Hok.
Defined.

(** Both devices of the fleet at once, with the phone just published and the laptop behind. *)
Lemma verify_added_exact_witness :
  verify_added_devices now "alice" ["phone"; "laptop"] published.1.2 = Ok Revoked.
Proof.
  pose proof (verify_added_exact now "alice" ["phone"; "laptop"] published.1.2 (fun n => eq_refl)) as (_ & _ & Hb).
  refine (Hb ["phone"] "laptop" [] (mkProfile "alice" None None None "a@x.io" (Some account) 2) account eq_refl _ eq_refl _ _).
  - vm_compute. reflexivity.
  - constructor; [|constructor]. apply check_device_verified. vm_compute. reflexivity.
  - rewrite <- check_device_verified. vm_compute. discriminate.
Defined.
End Witnesses.
