(* ===== verification/Outbox.v ===== *)
(** * pollis-core: sending, editing and deleting messages

    Models [messages/send.rs] and [messages/edit_delete.rs] with [try_mls_encrypt]
    ([mls/group_state.rs]): block suppression in DMs, catching up before a message is sealed
    ([Ingest]), framing ([Framing]), the local copy, the request to the service ([Messages]), the
    notifications that follow, edits, redactions by the author, deletions by an admin, and which
    attachments a deletion releases.  Any read of the main database, any local statement and any
    request may fail.

    [send_received], [edit_received] and [redaction_received] take a message from the sender's
    command over the service's table to the reader's ingest.  [send_outcomes] says what is left
    where when a send fails.  [blocked_send_silent] states the block rule.  [orphans_exact] states
    which attachments a deletion releases. *)

From stdpp Require Import base list strings gmap.
From Stdlib Require Import NArith ZArith Lia ZifyNat ZifyN.
From Stdlib Require Import Strings.Byte.
From S2P Require Import Prelude Crypto Merkle Log Tenants Delivery Client Framing Text Access Tables Messages Ingest.

(** ** Interfaces *)

(** [load_group_with_signer] and [create_message]: encrypting may move the store on. *)
Class MlsSend `{OpenMls} := {
  mls_create_message : string -> bytes -> MlsStore -> MlsStore * option bytes
}.

Definition try_mls_encrypt `{MlsSend} (group : string) (plaintext : bytes) (store : MlsStore) : MlsStore * option bytes :=
  mls_create_message group plaintext store.

(** [serde_json::Value] and its parser. *)
Inductive Json :=
| JNull | JBool (b : bool) | JNumber (n : string) | JString (s : string) | JArray (l : list Json)
| JObject (fields : list (string * Json)).

Class JsonValue := { json_from_str : string -> option Json }.

(** [Value::get] of a field, [as_array], [as_str]. *)
Definition json_get (field : string) (v : Json) : option Json :=
  match v with
  | JObject fields => snd <$> find (fun f => bool_decide (f.1 = field)) fields
  | _ => None
  end.

Definition json_as_array (v : Json) : option (list Json) := match v with JArray l => Some l | _ => None end.

Definition json_as_str (v : Json) : option string := match v with JString s => Some s | _ => None end.

(** [char::is_alphanumeric], of the UTF-8 bytes of one character. *)
Class CharClass := { is_alphanumeric : bytes -> bool }.

(** ** edit_delete.rs: attachments *)

Record AttachmentRef := mkAttachment { content_hash : string; r2_key : string }.

#[global] Instance AttachmentRef_eq_dec : EqDecision AttachmentRef.
Proof. solve_decision. Defined.

Section Attachments.
Context `{JsonValue}.

Definition attachment_of (a : Json) : option AttachmentRef :=
  hash ← json_get "hash" a ≫= json_as_str;
  key ← json_get "key" a ≫= json_as_str;
  if bool_decide (hash = "") || bool_decide (key = "") then None else Some (mkAttachment hash key).

Definition parse_attachment_refs (raw : string) : list AttachmentRef :=
  if negb (match as_bytes raw with x7b :: _ => true | _ => false end) then []
  else match json_from_str raw with
       | None => []
       | Some parsed => match json_get "_att" parsed ≫= json_as_array with
                        | None => []
                        | Some atts => omap attachment_of atts
                        end
       end.

Definition is_attachment_content (content : string) : bool :=
  match parse_attachment_refs content with [] => false | _ => true end.

(** The hashes referenced by the rows a query selects. *)
Definition referenced (rows : list MessageRow) : list string :=
  concat (map (fun r => match msg_content r with Some c => map content_hash (parse_attachment_refs c) | None => [] end) rows).

Definition rows_of (m : gmap string MessageRow) : list MessageRow := map snd (map_to_list m).

Definition not_deleted (r : MessageRow) : bool := bool_decide (msg_deleted_at r = None).

Definition orphans_among (rows : list MessageRow) (candidates : list AttachmentRef) : list AttachmentRef :=
  List.filter (fun a => negb (bool_decide (content_hash a ∈ referenced rows))) candidates.

Definition filter_orphaned_locally (user_id : string) (candidates : list AttachmentRef) (m : gmap string MessageRow) : list AttachmentRef :=
  orphans_among (List.filter (fun r => bool_decide (msg_sender_id r = user_id) && not_deleted r) (rows_of m)) candidates.

Definition filter_orphaned_locally_all (candidates : list AttachmentRef) (m : gmap string MessageRow) : list AttachmentRef :=
  orphans_among (List.filter not_deleted (rows_of m)) candidates.

(** What is sealed: attachments as they are, text padded to its bucket. *)
Definition framed (content : string) : bytes :=
  if is_attachment_content content then as_bytes content else pad (as_bytes content).
End Attachments.

(** ** send.rs: mentions *)

(** The characters of a valid text, each as its bytes. *)
Fixpoint chars (b : bytes) : list bytes :=
  match b with
  | [] => []
  | x :: b' =>
      match chars b' with
      | (y :: c) :: cs => if cont y then (x :: y :: c) :: cs else [x] :: (y :: c) :: cs
      | cs => [x] :: cs
      end
  end.

(** [split_whitespace]: the non-empty runs between white space. *)
Fixpoint words (current : list bytes) (cs : list bytes) : list (list bytes) :=
  match cs with
  | [] => match current with [] => [] | _ => [current] end
  | c :: cs' =>
      if bool_decide (c ∈ white_space) then match current with [] => words [] cs' | _ => current :: words [] cs' end
      else words (current ++ [c]) cs'
  end.

Section Mentions.
Context `{CharClass}.

(** [trim_end_matches(|c| !c.is_alphanumeric() && c != '@')] *)
Fixpoint trim_word (w : list bytes) : list bytes :=
  match w with
  | [] => []
  | c :: w' =>
      match trim_word w' with
      | [] => if negb (is_alphanumeric c) && negb (bool_decide (c = [x40])) then [] else [c]
      | t => c :: t
      end
  end.

Definition ascii_lower (b : byte) : byte := if in_range b 65 90 then byte_of_N (N_of_byte b + 32) else b.

Definition mentions_all (content : string) : bool :=
  existsb (fun w => bool_decide (map ascii_lower (concat (trim_word w)) = as_bytes "@all")) (words [] (chars (as_bytes content))).
End Mentions.

(** ** The commands *)

Definition SEALED_SENDER_SENTINEL : string := "sealed".

Inductive SendError :=
| Outdated | RemoteRead | NotSignedIn | NoGroup | LocalStatement | NotFound | NotAuthor | NotAdmin | JoinFailed | DsRefused.

(** What goes out besides the request: the realtime events, the mention of everyone, the push. *)
Inductive Effect :=
| NewMessageTo (room : string) (channel_id conversation_id : option string)
| EditedTo (room : string) (channel_id conversation_id : option string) (message_id : string)
| DeletedTo (room : string) (channel_id conversation_id : option string) (message_id : string)
| AllMention (user_id group_id channel_id sender_id : string) (sender_username : option string)
| PushNotify (conversation_id group_id : string) (is_channel : bool) (sender_id : string)
| DeleteR2Object (key : string).

(** What a command meets: which reads of the main database and local statements fail, whom the
    service takes its requests for, how they turn out and which of its answers are lost, the id
    and the times it draws, and whether the local database is open. *)
Record Net := mkNet {
  nt_outdated : bool;
  nt_read_fails : nat -> bool;
  nt_signed_in : bool;
  nt_local_fails : nat -> bool;
  nt_service : Service;
  nt_answer_lost : nat -> bool;
  nt_id : string;
  nt_now : string;
  nt_later : string;
  nt_device : option string
}.

(** The catch-up before a message is sealed: what polling for welcomes did, whether the catch-up
    errs at once, and how the replay and its requests go. *)
Record CatchUpRun `{OpenMls} := mkCatchUp {
  cu_welcomed : MlsStore -> MlsStore;
  cu_aborts : bool;
  cu_local : LocalWorld;
  cu_service : Service;
  cu_entered : N -> MlsStore -> MlsStore;
  cu_fired : list N
}.
Arguments mkCatchUp {_} _ _ _ _ _ _.

Record Message := mkSent {
  out_id : string;
  out_conversation_id : string;
  out_sender_id : string;
  out_content : option string;
  out_reply_to_id : option string;
  out_sent_at : string
}.

Section Commands.
Context `{MlsSend} `{!Hex} `{!JsonValue} `{!CharClass} (nt : Net) (cu : CatchUpRun).

Definition remote {A} (n : nat) (a : A) : Result A SendError := if nt_read_fails nt n then Err RemoteRead else Ok a.

(** [ds_post_ok]: the [n]-th request.  It fails when it does not get there, when the service
    refuses it or its statements fail, and when the answer to an applied one is lost. *)
Definition request (n : nat) (route : SqlEnv -> option string -> Sql WriteOutcome) (db : MsgDb) : MsgDb * Result unit SendError :=
  match nt_service nt n with
  | None => (db, Err DsRefused)
  | Some (signer, env) =>
      match run_sql (route env (Some signer)) db with
      | (db, Ok Applied) => (db, if nt_answer_lost nt n then Err DsRefused else Ok tt)
      | (db, _) => (db, Err DsRefused)
      end
  end.

Definition set_mls (store : MlsStore) (st : LocalDb) : LocalDb := mkLocalDb store (messages st).

(** A channel's messages are sealed for its group, a DM's for the conversation. *)
Definition resolve_mls_group (conversation_id : string) (db : MsgDb) : string * bool :=
  match group_channels db !! conversation_id with
  | Some row => (chn_group_id row, true)
  | None => (conversation_id, false)
  end.

Definition is_blocked_either_way (db : MsgDb) (a b : string) : bool :=
  bool_decide ((a, b) ∈ blocks db) || bool_decide ((b, a) ∈ blocks db).

Definition other_members (db : MsgDb) (dm user_id : string) : list string :=
  omap (fun '((c, u), _) => if bool_decide (c = dm) && negb (bool_decide (u = user_id)) then Some u else None) (map_to_list (dm_members db)).

(** The loop over the other participants, up to the first block; [n] numbers the reads. *)
Fixpoint any_blocked (n : nat) (db : MsgDb) (sender : string) (others : list string) : Result bool SendError :=
  match others with
  | [] => Ok false
  | o :: others' =>
      let? b := remote n (is_blocked_either_way db sender o) in
      if b : bool then Ok true else any_blocked (S n) db sender others'
  end.

Definition suppress_delivery (db : MsgDb) (is_channel : bool) (conversation_id sender_id : string) : Result bool SendError :=
  if is_channel then Ok false
  else let? others := remote 1 (other_members db conversation_id sender_id) in any_blocked 2 db sender_id others.

(** INSERT INTO message: the [n]-th local statement. *)
Definition insert_local (n : nat) (id : string) (row : MessageRow) (st : LocalDb) : Result LocalDb SendError :=
  if nt_local_fails nt n || bool_decide (is_Some (messages st !! id)) then Err LocalStatement
  else Ok (mkLocalDb (mls st) (<[id := row]> (messages st))).

(** Poll for welcomes and catch up; both are best effort. *)
Definition prepare (group user_id : string) (st : LocalDb) (db : MsgDb) : LocalDb * MsgDb :=
  let st := match nt_device nt with Some _ => set_mls (cu_welcomed cu (mls st)) st | None => st end in
  if cu_aborts cu then (st, db)
  else catch_up_mls_group_interleaved (cu_local cu) (cu_service cu) (cu_entered cu) (cu_fired cu) group user_id (nt_device nt) st db.

Definition encode_ciphertext (b : bytes) : string := fmt ["mls:"; hex_encode b].

Definition all_members (db : MsgDb) (group sender : string) : list string :=
  omap (fun '((g, u), _) => if bool_decide (g = group) && negb (bool_decide (u = sender)) then Some u else None) (map_to_list (group_members db)).

(** What a command leaves: the local and the main database, and what went out besides. *)
Definition Left : Type := LocalDb * MsgDb * list Effect.

(** The notifications of a sent message; the read of the members to mention can still fail. *)
Definition notify (conversation_id group : string) (is_channel : bool) (sender_id content : string) (sender_username : option string)
    (db : MsgDb) : list Effect * Result unit SendError :=
  let ping := if is_channel then NewMessageTo group (Some conversation_id) None
              else NewMessageTo conversation_id None (Some conversation_id) in
  let mentioned := mentions_all content in
  match (if is_channel && mentioned
         then let? members := remote 1 (all_members db group sender_id) in
              Ok (map (fun u => AllMention u group conversation_id sender_id sender_username) members)
         else Ok []) with
  | Err e => ([ping], Err e)
  | Ok inbox => (ping :: inbox ++ (if negb is_channel || mentioned then [PushNotify conversation_id group is_channel sender_id] else []), Ok tt)
  end.

Definition send_message (conversation_id sender_id content : string) (reply_to_id sender_username : option string)
    (st : LocalDb) (db : MsgDb) : Left * Result Message SendError :=
  if nt_outdated nt then ((st, db, []), Err Outdated)
  else
    let id := nt_id nt in
    let now := nt_now nt in
    let sent := mkSent id conversation_id sender_id (Some content) reply_to_id now in
    match (let? gc := remote 0 (resolve_mls_group conversation_id db) in
           let? blocked := suppress_delivery db gc.2 conversation_id sender_id in Ok (gc, blocked)) with
    | Err e => ((st, db, []), Err e)
    | Ok (_, true) =>
        if negb (nt_signed_in nt) then ((st, db, []), Err NotSignedIn)
        else match insert_local 0 id (mkMessage conversation_id sender_id [] (Some content) reply_to_id now None None) st with
             | Err e => ((st, db, []), Err e)
             | Ok st => ((st, db, []), Ok sent)
             end
    | Ok ((group, is_channel), false) =>
        let '(st, db) := prepare group sender_id st db in
        if negb (nt_signed_in nt) then ((st, db, []), Err NotSignedIn)
        else
          match try_mls_encrypt group (framed content) (mls st) with
          | (store, None) => ((set_mls store st, db, []), Err NoGroup)
          | (store, Some mls_bytes) =>
              match insert_local 0 id (mkMessage conversation_id sender_id mls_bytes (Some content) reply_to_id now None None) (set_mls store st) with
              | Err e => ((set_mls store st, db, []), Err e)
              | Ok st =>
                  match request 0 (fun env a => MessageRoutes.apply_send_message env a
                          (MessageRoutes.mkSendMessage id conversation_id (Some SEALED_SENDER_SENTINEL) (encode_ciphertext mls_bytes) reply_to_id now 1)) db with
                  | (db, Err e) => ((st, db, []), Err e)
                  | (db, Ok _) =>
                      let (effects, r) := notify conversation_id group is_channel sender_id content sender_username db in
                      ((st, db, effects), let? _ := r in Ok sent)
                  end
              end
          end
    end.
(** ** edit_delete.rs *)

(** Encrypt a probe; if there is no group, rejoin it from its published GroupInfo.  [joined] is
    what the external join did, if it succeeds. *)
Definition repaired (joined : MlsStore -> option MlsStore) (group : string) (probe : bytes) (st : LocalDb) : LocalDb * Result unit SendError :=
  match try_mls_encrypt group probe (mls st) with
  | (store, Some _) => (set_mls store st, Ok tt)
  | (store, None) =>
      match joined store with
      | Some store => (set_mls store st, Ok tt)
      | None => (set_mls store st, Err JoinFailed)
      end
  end.

Definition own_live (user_id : string) (r : MessageRow) : bool := bool_decide (msg_sender_id r = user_id) && not_deleted r.

(** UPDATE message .. WHERE id = .. AND sender_id = .. AND deleted_at IS NULL, the [n]-th local
    statement; an update of no row is refused. *)
Definition update_own (n : nat) (user_id message_id : string) (f : MessageRow -> MessageRow) (st : LocalDb) : Result LocalDb SendError :=
  if nt_local_fails nt n then Err LocalStatement
  else match messages st !! message_id with
       | Some r => if own_live user_id r then Ok (mkLocalDb (mls st) (<[message_id := f r]> (messages st))) else Err NotAuthor
       | None => Err NotAuthor
       end.

Definition edit_message (joined : MlsStore -> option MlsStore) (conversation_id message_id user_id new_content : string)
    (st : LocalDb) (db : MsgDb) : Left * Result unit SendError :=
  match remote 0 (resolve_mls_group conversation_id db) with
  | Err e => ((st, db, []), Err e)
  | Ok (group, _) =>
      let '(st, db) := prepare group user_id st db in
      if negb (nt_signed_in nt) then ((st, db, []), Err NotSignedIn)
      else
        match repaired joined group (as_bytes new_content) st with
        | (st, Err e) => ((st, db, []), Err e)
        | (st, Ok _) =>
            match try_mls_encrypt group (framed new_content) (mls st) with
            | (store, None) => ((set_mls store st, db, []), Err NoGroup)
            | (store, Some mls_bytes) =>
                match update_own 0 user_id message_id (edit (nt_now nt) new_content) (set_mls store st) with
                | Err e => ((set_mls store st, db, []), Err e)
                | Ok st =>
                    match request 0 (fun env a => MessageRoutes.apply_edit_message env a
                            (MessageRoutes.mkEditMessage (nt_id nt) conversation_id message_id (Some user_id) (encode_ciphertext mls_bytes) (nt_now nt))) db with
                    | (db, Err e) => ((st, db, []), Err e)
                    | (db, Ok _) =>
                        ((st, db, [if bool_decide (group = conversation_id) then EditedTo group None (Some conversation_id) message_id
                                   else EditedTo group (Some conversation_id) None message_id]), Ok tt)
                    end
                end
            end
        end
  end.

(** The redaction: a control message of its own, with no local row. *)
Definition send_redaction_message (joined : MlsStore -> option MlsStore) (conversation_id target user_id : string)
    (st : LocalDb) (db : MsgDb) : (LocalDb * MsgDb) * Result unit SendError :=
  match remote 1 (resolve_mls_group conversation_id db) with
  | Err e => ((st, db), Err e)
  | Ok (group, _) =>
      let '(st, db) := prepare group user_id st db in
      if negb (nt_signed_in nt) then ((st, db), Err NotSignedIn)
      else
        match repaired joined group (pad_redaction target) st with
        | (st, Err e) => ((st, db), Err e)
        | (st, Ok _) =>
            match try_mls_encrypt group (pad_redaction target) (mls st) with
            | (store, None) => ((set_mls store st, db), Err NoGroup)
            | (store, Some mls_bytes) =>
                let '(db, r) := request 0 (fun env a => MessageRoutes.apply_send_message env a
                  (MessageRoutes.mkSendMessage (nt_id nt) conversation_id (Some SEALED_SENDER_SENTINEL) (encode_ciphertext mls_bytes) None (nt_now nt) 1)) db in
                ((set_mls store st, db), r)
            end
        end
  end.

(** The author and the conversation of the message: the local row, or the conversation of the
    stored envelope and no author. *)
Definition resolve_target (message_id : string) (st : LocalDb) (db : MsgDb) : Result (string * string) SendError :=
  if negb (nt_signed_in nt) then Err NotSignedIn
  else if nt_local_fails nt 0 then Err LocalStatement
  else match messages st !! message_id with
       | Some r => Ok (msg_sender_id r, msg_conversation_id r)
       | None =>
           let? env := remote 0 (envelopes db !! message_id) in
           match env with
           | Some e => if bool_decide (env_type e = "message") then Ok ("", env_conversation_id e) else Err NotFound
           | None => Err NotFound
           end
       end.

(** SELECT content FROM message .., the [n]-th local statement, read as a text: a row whose
    content is NULL is an error. *)
Definition select_content (n : nat) (sel : MessageRow -> bool) (message_id : string) (st : LocalDb) : Result (option string) SendError :=
  if nt_local_fails nt n then Err LocalStatement
  else match messages st !! message_id with
       | Some r => if sel r then match msg_content r with Some c => Ok (Some c) | None => Err LocalStatement end else Ok None
       | None => Ok None
       end.

(** The attachments of the content that no row [sel] selects references, the scan being the
    [n]-th local statement. *)
Definition orphaned_by (n : nat) (orphans : list AttachmentRef -> gmap string MessageRow -> list AttachmentRef)
    (content : option string) (st : LocalDb) : Result (list AttachmentRef) SendError :=
  match parse_attachment_refs (default "" content) with
  | [] => Ok []
  | attachments => if nt_local_fails nt n then Err LocalStatement else Ok (orphans attachments (messages st))
  end.

(** Remove the row that names the object, then the object; both best effort. *)
Fixpoint cleanup (n : nat) (atts : list AttachmentRef) (db : MsgDb) : MsgDb :=
  match atts with
  | [] => db
  | a :: atts' =>
      cleanup (S n) atts' (request n (fun env _ => MessageRoutes.apply_delete_attachment env (MessageRoutes.mkAttachmentDelete (content_hash a))) db).1
  end.

Definition delete_request (n : nat) (message_id conversation_id msg_sender_id : string) (db : MsgDb) : MsgDb * Result unit SendError :=
  request n (fun env a => MessageRoutes.apply_delete_message env a
    (MessageRoutes.mkDeleteMessage message_id conversation_id (Some msg_sender_id) None)) db.

Definition released (orphaned : list AttachmentRef) : list Effect := map (fun a => DeleteR2Object (r2_key a)) orphaned.

(** By an admin: the service keeps a tombstone; the local row may not be there. *)
Definition admin_delete (message_id user_id msg_sender_id conversation_id : string) (st : LocalDb) (db : MsgDb) : Left * Result unit SendError :=
  match (let? channel := remote 1 (group_channels db !! conversation_id) in
         let? row := ok_or channel NotAuthor in
         let? member := remote 2 (group_members db !! (chn_group_id row, user_id)) in
         let? role := ok_or member NotAuthor in
         if bool_decide (role = "admin") then Ok (chn_group_id row) else Err NotAdmin) with
  | Err e => ((st, db, []), Err e)
  | Ok group =>
      match delete_request 0 message_id conversation_id msg_sender_id db with
      | (db, Err e) => ((st, db, []), Err e)
      | (db, Ok _) =>
          match (let? content := select_content 1 (fun _ => true) message_id st in
                 if nt_local_fails nt 2 then Err LocalStatement else Ok content) with
          | Err e => ((st, db, []), Err e)
          | Ok content =>
              let st := on_messages (alter (redact (nt_now nt)) message_id) st in
              match orphaned_by 3 filter_orphaned_locally_all content st with
              | Err e => ((st, db, []), Err e)
              | Ok orphaned =>
                  ((st, cleanup 1 orphaned db, released orphaned ++ [DeletedTo group (Some conversation_id) None message_id]), Ok tt)
              end
          end
      end
  end.

(** By the author: a redaction for those who have it, no envelope for those who do not. *)
Definition self_delete (joined : MlsStore -> option MlsStore) (message_id user_id conversation_id : string) (st : LocalDb) (db : MsgDb)
    : Left * Result unit SendError :=
  match send_redaction_message joined conversation_id message_id user_id st db with
  | ((st, db), Err e) => ((st, db, []), Err e)
  | ((st, db), Ok _) =>
      match delete_request 1 message_id conversation_id user_id db with
      | (db, Err e) => ((st, db, []), Err e)
      | (db, Ok _) =>
          match (let? content := select_content 1 (fun r => bool_decide (msg_sender_id r = user_id)) message_id st in
                 let? st := update_own 2 user_id message_id (redact (nt_later nt)) st in Ok (content, st)) with
          | Err e => ((st, db, []), Err e)
          | Ok (content, st) =>
              match orphaned_by 3 (filter_orphaned_locally user_id) content st with
              | Err e => ((st, db, []), Err e)
              | Ok orphaned =>
                  let db := cleanup 2 orphaned db in
                  match remote 2 (resolve_mls_group conversation_id db) with
                  | Err e => ((st, db, released orphaned), Err e)
                  | Ok (group, is_channel) =>
                      ((st, db, released orphaned ++ [if is_channel then DeletedTo group (Some conversation_id) None message_id
                                                      else DeletedTo group None (Some conversation_id) message_id]), Ok tt)
                  end
              end
          end
      end
  end.

Definition delete_message (joined : MlsStore -> option MlsStore) (message_id user_id : string) (st : LocalDb) (db : MsgDb) : Left * Result unit SendError :=
  match (let? _ := remote 3 tt in resolve_target message_id st db) with
  | Err e => ((st, db, []), Err e)
  | Ok (msg_sender_id, conversation_id) =>
      if negb (bool_decide (msg_sender_id = user_id)) then admin_delete message_id user_id msg_sender_id conversation_id st db
      else self_delete joined message_id user_id conversation_id st db
  end.
End Commands.

(** ** What the service and the reader make of a request *)

(** A message sealed in one store opens in another at the same epoch, as the sender's. *)
Class MlsDelivers `{MlsSend} := {
  mls_synced : string -> MlsStore -> MlsStore -> bytes -> Prop;
  mls_delivers : forall group s r cred p s' b, mls_synced group s r cred -> mls_create_message group p s = (s', Some b) ->
    exists r', mls_process_message group b r = (r', Some (cred, Some p))
}.

Definition sealed_row (conversation_id ciphertext : string) (reply_to_id : option string) (now : string) : EnvelopeRow :=
  mkEnvelope conversation_id SEALED_SENDER_SENTINEL ciphertext reply_to_id now "message" None 1.

Lemma run_of_request {A} (m : Sql A) db (Q : Result A SqlError -> MsgDb -> Prop) : wp m db Q -> Q (run_sql m db).2 (run_sql m db).1.
Proof. intros Hw. apply (Hw 0). Qed.

Section Requests.
Context (nt : Net).

(** A request is applied, or leaves the tables as [P] says. *)
Lemma request_cases n route db db' r (P : MsgDb -> Prop) : request nt n route db = (db', r) ->
  P db -> (forall u env, wp (route env (Some u)) db (fun o db' => o <> Ok Applied -> P db')) ->
  P db' /\ r = Err DsRefused \/ exists u env, run_sql (route env (Some u)) db = (db', Ok Applied) /\ (r = Ok tt \/ r = Err DsRefused).
Proof.
  unfold request. intros Hr HP Hw. destruct (nt_service nt n) as [[u env]|]; [|injection Hr as <- <-; auto].
  specialize (Hw u env). apply run_of_request in Hw. destruct (run_sql _ _) as [db1 o] eqn:E. cbn [fst snd] in Hw.
  destruct o as [[]|]; [|injection Hr as <- <-; left; split; [by apply Hw|done]..].
  injection Hr as <- <-. right. exists u, env. rewrite E. split; [done|]. destruct (nt_answer_lost nt n); auto.
Qed.

Lemma request_ok n route db db' : request nt n route db = (db', Ok tt) -> exists u env, run_sql (route env (Some u)) db = (db', Ok Applied).
Proof.
  intros Hr. destruct (request_cases n route db db' _ (fun _ => True) Hr) as [[_ ?]|(u & env & H & _)]; [done| |done|by eauto].
  intros u env k. done.
Qed.

(** A sealed message is stored as it is, or nothing changes. *)
Lemma wp_send_sealed env u id c ct reply now db :
  wp (MessageRoutes.apply_send_message env (Some u) (MessageRoutes.mkSendMessage id c (Some SEALED_SENDER_SENTINEL) ct reply now 1)) db
    (fun o db' => (o <> Ok Applied -> db' = db) /\
       (o = Ok Applied -> envelopes db !! id = None /\ db' = set_envelopes <[id := sealed_row c ct reply now]> db)).
Proof.
  unfold MessageRoutes.apply_send_message.
  cbn [MessageRoutes.sm_id MessageRoutes.sm_conversation_id MessageRoutes.sm_sender_id MessageRoutes.sm_ciphertext MessageRoutes.sm_reply_to_id
       MessageRoutes.sm_sent_at MessageRoutes.sm_sealed default].
  change (negb (1 =? 0)%Z) with true. cbv iota zeta. apply wp_reader; [done..|]. intros _. repeat wp_step; [done|]. simplify_eq.
  match goal with H : MessageRoutes.insert_envelope _ _ _ = Some _ |- _ => apply insert_envelope_Some in H as [? ->] end. done.
Qed.

Lemma request_send n id c ct reply now db db' r :
  request nt n (fun env a => MessageRoutes.apply_send_message env a
    (MessageRoutes.mkSendMessage id c (Some SEALED_SENDER_SENTINEL) ct reply now 1)) db = (db', r) ->
  db' = db /\ r = Err DsRefused \/
  envelopes db !! id = None /\ db' = set_envelopes <[id := sealed_row c ct reply now]> db /\ (r = Ok tt \/ r = Err DsRefused).
Proof.
  intros Hr. destruct (request_cases _ _ _ _ _ (fun x => x = db) Hr) as [|(u & env & Hrun & Ho)]; [done| |auto|].
  { intros u env. eapply wp_mono; [apply wp_send_sealed|]. by intros o x [Hx _]. }
  right. pose proof (run_of_request _ _ _ (wp_send_sealed env u id c ct reply now db)) as [_ Hs]. rewrite Hrun in Hs. destruct (Hs eq_refl) as [??]. auto.
Qed.
End Requests.

(** ** Sealing and opening *)

Lemma alter_present {A} (f : A -> A) (k : string) (m : gmap string A) a : m !! k = Some a -> alter f k m = <[k := f a]> m.
Proof.
  intros Ha. apply map_eq. intros k'. destruct (decide (k' = k)) as [->|Hk]; [by rewrite lookup_alter_eq, lookup_insert_eq, Ha|].
  by rewrite lookup_alter_ne, lookup_insert_ne.
Qed.

Section Sealing.
Context `{MlsSend} `{!Hex, !HexLaws} `{!JsonValue}.

Lemma ciphertext_encoded b : ciphertext_bytes (encode_ciphertext b) = Some b.
Proof.
  unfold ciphertext_bytes, encode_ciphertext, fmt. cbn [String.concat]. rewrite as_bytes_append.
  change (strip_prefix_bytes (as_bytes "mls:") (as_bytes "mls:" ++ as_bytes (String.append "" (hex_encode b))))
    with (strip_prefix_bytes [] (as_bytes (hex_encode b))). cbn [strip_prefix_bytes mbind option_bind]. by rewrite of_bytes_as_bytes, hex_decode_encode.
Qed.

(** A text that can be framed. *)
Definition sendable (content : string) : Prop := utf8_valid (as_bytes content) = true /\ frame_fits (as_bytes content).

Lemma framed_text content : sendable content ->
  strip (framed content) = as_bytes content /\ classify_frame (framed content) = Text (as_bytes content) /\ from_utf8 (as_bytes content) = Some content.
Proof.
  intros [Hu Hf]. destruct (framing_roundtrip (as_bytes content) (as_bytes content) content) as (Hs & Hc & _ & Hs' & Hc' & _); [done..|].
  unfold framed, from_utf8. rewrite Hu, of_bytes_as_bytes. by destruct (is_attachment_content content).
Qed.

Lemma redaction_frame target : sendable target -> classify_frame (pad_redaction target) = Redaction target.
Proof. intros [Hu Hf]. by destruct (framing_roundtrip [] [] target) as (_ & _ & Hc & _). Qed.

Context `{!MlsDelivers}.

(** The user's credential is read back as the user. *)
Definition credential_of (user_id : string) (cred : bytes) : Prop :=
  exists device, cred = make_credential user_id device /\ utf8_valid cred = true /\ x3a ∉ as_bytes user_id.

Lemma opened group s r cred p s' b u : mls_synced group s r cred -> credential_of u cred -> try_mls_encrypt group p s = (s', Some b) ->
  exists r', try_mls_decrypt group b r = (r', Some (p, u)).
Proof.
  intros Hs (d & -> & Hv & Hn) He. destruct (mls_delivers _ _ _ _ _ _ _ Hs He) as [r' Hp]. exists r'. unfold try_mls_decrypt.
  by rewrite Hp, credential_roundtrip.
Qed.

(** A sealed text lands in a reader's table as the sender's. *)
Lemma text_lands lw group s s' b content u cred c reply now id rst :
  sendable content -> try_mls_encrypt group (framed content) s = (s', Some b) ->
  mls_synced group s (mls rst) cred -> credential_of u cred -> lw_exec_fails lw id = false -> messages rst !! id = None ->
  messages (decrypt_and_persist_one lw c group (id, sealed_row c (encode_ciphertext b) reply now) rst) =
    <[id := mkMessage c u b (Some content) reply now None None]> (messages rst).
Proof.
  intros Hc He Hs Hu Hw Hn. destruct (framed_text _ Hc) as (_ & Hf & Hd). destruct (opened _ _ _ _ _ _ _ _ Hs Hu He) as [r' Ho].
  unfold decrypt_and_persist_one. cbn [fst snd sealed_row env_type env_ciphertext env_reply_to_id env_sent_at].
  rewrite bool_decide_eq_true_2 by done. rewrite (bool_decide_eq_false_2 (is_Some _)) by (rewrite Hn; by intros [? ?]).
  rewrite andb_false_r, ciphertext_encoded, Ho, Hf, Hd. unfold write_local. rewrite Hw. cbn. unfold insert_message. by rewrite Hn.
Qed.

(** A redaction deletes the author's message. *)
Lemma redaction_lands lw group s s' b target u cred c now id rst row :
  sendable target -> try_mls_encrypt group (pad_redaction target) s = (s', Some b) ->
  mls_synced group s (mls rst) cred -> credential_of u cred -> lw_exec_fails lw id = false -> lw_read_fails lw id = false ->
  messages rst !! id = None -> messages rst !! target = Some row -> msg_sender_id row = u ->
  messages (decrypt_and_persist_one lw c group (id, sealed_row c (encode_ciphertext b) None now) rst) =
    <[target := redact (lw_now lw) row]> (messages rst).
Proof.
  intros Hc He Hs Hu Hw Hr Hn Ht Hau. destruct (opened _ _ _ _ _ _ _ _ Hs Hu He) as [r' Ho].
  unfold decrypt_and_persist_one. cbn [fst snd sealed_row env_type env_ciphertext env_reply_to_id env_sent_at].
  rewrite bool_decide_eq_true_2 by done. rewrite (bool_decide_eq_false_2 (is_Some _)) by (rewrite Hn; by intros [? ?]).
  rewrite andb_false_r, ciphertext_encoded, Ho, redaction_frame by done. unfold author_of. rewrite Hr. cbn [messages]. rewrite Ht. cbn [fmap option_fmap option_map].
  rewrite Hau, bool_decide_eq_true_2 by done. unfold write_local. rewrite Hw. by apply alter_present.
Qed.

(** An edit changes the author's message. *)
Lemma edit_lands lw group s s' b content u cred env id target rst row :
  sendable content -> try_mls_encrypt group (framed content) s = (s', Some b) ->
  mls_synced group s (mls rst) cred -> credential_of u cred -> lw_exec_fails lw id = false -> lw_read_fails lw id = false ->
  env_type env = "edit" -> env_target_message_id env = Some target -> env_ciphertext env = encode_ciphertext b ->
  messages rst !! target = Some row -> msg_sender_id row = u ->
  messages (decrypt_and_persist_one lw (env_conversation_id env) group (id, env) rst) = <[target := edit (lw_now lw) content row]> (messages rst).
Proof.
  intros Hc He Hs Hu Hw Hr Hty Htg Hct Ht Hau. destruct (framed_text _ Hc) as (Hf & _ & Hd). destruct (opened _ _ _ _ _ _ _ _ Hs Hu He) as [r' Ho].
  unfold decrypt_and_persist_one. cbn [fst snd]. rewrite Hty, Htg, Hct, ciphertext_encoded, Ho. cbn [bool_decide decide_rel].
  rewrite (bool_decide_eq_false_2 ("edit" = "message")), bool_decide_eq_true_2 by done.
  unfold author_of. rewrite Hr. cbn [messages]. rewrite Ht. cbn [fmap option_fmap option_map].
  rewrite Hau, bool_decide_eq_true_2 by done. cbn [negb]. rewrite Hf, Hd. unfold write_local. rewrite Hw. by apply alter_present.
Qed.
End Sealing.

(** ** Sending *)

Section Sending.
Context `{MlsSend} `{!Hex, !HexLaws} `{!JsonValue} `{!CharClass} (nt : Net) (cu : CatchUpRun).
Context (c sender content : string) (reply uname : option string) (st : LocalDb) (db : MsgDb).

#[local] Notation group := (resolve_mls_group c db).1.
#[local] Notation is_channel := (resolve_mls_group c db).2.

Definition own_row (b : bytes) : MessageRow := mkMessage c sender b (Some content) reply (nt_now nt) None None.

Definition sent_message : Message := mkSent (nt_id nt) c sender (Some content) reply (nt_now nt).

(** Where the command stood before it wrote: as it was, or after catching up. *)
Definition base (blocked : bool) : LocalDb * MsgDb := if blocked then (st, db) else prepare nt cu group sender st db.

(** Nothing was written besides what catching up did. *)
Definition nothing_left (blocked : bool) (w : Left) (r : Result Message SendError) : Prop :=
  messages w.1.1 = messages (base blocked).1 /\ w.1.2 = (base blocked).2 /\ w.2 = [] /\ exists e, r = Err e.

(** The sender has a copy; the service has nothing. *)
Definition kept_only (blocked : bool) (b : bytes) (w : Left) (r : Result Message SendError) : Prop :=
  messages (base blocked).1 !! nt_id nt = None /\ messages w.1.1 = <[nt_id nt := own_row b]> (messages (base blocked).1) /\
  w.1.2 = (base blocked).2 /\ w.2 = [] /\
  (if blocked then b = [] /\ mls w.1.1 = mls st /\ r = Ok sent_message else r = Err DsRefused).

(** Both have it. *)
Definition delivered (b : bytes) (w : Left) (r : Result Message SendError) : Prop :=
  messages (base false).1 !! nt_id nt = None /\ messages w.1.1 = <[nt_id nt := own_row b]> (messages (base false).1) /\
  envelopes (base false).2 !! nt_id nt = None /\
  w.1.2 = set_envelopes <[nt_id nt := sealed_row c (encode_ciphertext b) reply (nt_now nt)]> (base false).2 /\
  (r = Ok sent_message /\ w.2 <> [] \/ r = Err DsRefused /\ w.2 = [] \/
   r = Err RemoteRead /\ w.2 = [NewMessageTo group (Some c) None] /\ is_channel = true /\ mentions_all content = true).

Lemma insert_local_Ok n id row l l' : insert_local nt n id row l = Ok l' -> messages l !! id = None /\ l' = mkLocalDb (mls l) (<[id := row]> (messages l)).
Proof.
  unfold insert_local. destruct (nt_local_fails nt n); cbn [orb]; [done|]. case_bool_decide as Hs; [done|]. intros [= <-].
  split; [|done]. by apply eq_None_not_Some.
Qed.

Lemma notify_cases d effs r : notify nt c group is_channel sender content uname d = (effs, r) ->
  effs <> [] /\ r = Ok tt \/ r = Err RemoteRead /\ effs = [NewMessageTo group (Some c) None] /\ is_channel = true /\ mentions_all content = true.
Proof.
  unfold notify. destruct (is_channel && mentions_all content) eqn:E; [|intros [= <- <-]; by left].
  apply andb_true_iff in E as [Ec Em]. unfold remote. destruct (nt_read_fails nt 1); intros [= <- <-]; [|by left]. rewrite Ec. by right.
Qed.

Lemma send_cases w r : send_message nt cu c sender content reply uname st db = (w, r) ->
  (exists blocked, nothing_left blocked w r) \/ kept_only true [] w r /\ suppress_delivery nt db is_channel c sender = Ok true \/
  suppress_delivery nt db is_channel c sender = Ok false /\ exists store b,
    try_mls_encrypt group (framed content) (mls (base false).1) = (store, Some b) /\ (kept_only false b w r \/ delivered b w r).
Proof.
  unfold send_message. intros Hs.
  assert (forall e, ((st, db, []), Err e) = (w, r) -> exists blocked, nothing_left blocked w r) as Hquit.
  { intros e [= <- <-]. exists true. split_and!; [done..|by eexists]. }
  destruct (nt_outdated nt); [left; eapply Hquit; exact Hs|]. unfold remote at 1 in Hs. destruct (nt_read_fails nt 0); [left; eapply Hquit; exact Hs|].
  cbn [rbind] in Hs. rewrite (surjective_pairing (resolve_mls_group c db)) in Hs. cbn [fst snd] in Hs.
  destruct (suppress_delivery nt db is_channel c sender) as [[]|e] eqn:Eb; cbn [rbind] in Hs; [| |left; eapply Hquit; exact Hs].
  - destruct (nt_signed_in nt); cbn [negb] in Hs; [|left; eapply Hquit; exact Hs].
    destruct (insert_local _ _ _ _ _) as [st1|e] eqn:Ei; [|left; eapply Hquit; exact Hs]. apply insert_local_Ok in Ei as [Hn ->].
    injection Hs as <- <-. right. left. split; [|done]. by split_and!.
  - destruct (prepare nt cu group sender st db) as [st1 db1] eqn:Ep. assert (base false = (st1, db1)) as Hb by done.
    assert (forall l e, messages l = messages st1 -> ((l, db1, []), Err e) = (w, r) -> exists blocked, nothing_left blocked w r) as Hquit1.
    { intros l e Hl [= <- <-]. exists false. unfold nothing_left. rewrite Hb. split_and!; [done..|by eexists]. }
    destruct (nt_signed_in nt); cbn [negb] in Hs; [|left; eapply Hquit1; [|exact Hs]; done].
    destruct (try_mls_encrypt group (framed content) (mls st1)) as [store [b|]] eqn:Ee; [|left; eapply Hquit1; [|exact Hs]; done].
    destruct (insert_local _ _ _ _ _) as [st2|e] eqn:Ei; [|left; eapply Hquit1; [|exact Hs]; done]. apply insert_local_Ok in Ei as [Hn ->].
    right. right. split; [done|]. exists store, b. rewrite Hb. split; [done|].
    destruct (request _ _ _ _) as [db2 o] eqn:Er. apply request_send in Er as [[-> ->]|(Hf & -> & Ho)].
    { injection Hs as <- <-. left. unfold kept_only. rewrite Hb. by split_and!. }
    right. unfold delivered. rewrite Hb. destruct Ho as [->| ->].
    + destruct (notify _ _ _ _ _ _ _ _) as [effs o] eqn:En. injection Hs as <- <-. split_and!; [done..|]. cbn [snd].
      apply notify_cases in En as [[? ->]|(-> & -> & ? & ?)]; [by left|right; by right].
    + injection Hs as <- <-. split_and!; [done..|]. right. by left.
Qed.

(** C16: what a failed send leaves behind.  Whatever reads, statements and requests fail: when the
    command succeeds, the sender's own history has the message; the service has an envelope of it
    only if the sender's history has the message too, sealed as the same ciphertext and without the
    sender's name; when the command fails and the history changed, the request was refused or its
    answer lost, or the message was delivered and what failed is the later read of the members
    that an [@all] in a channel mentions. *)
Theorem send_outcomes :
  let '(w, r) := send_message nt cu c sender content reply uname st db in
  (forall m, r = Ok m -> m = sent_message /\ exists b, messages w.1.1 !! nt_id nt = Some (own_row b)) /\
  (forall e, r = Err e -> messages w.1.1 <> messages st -> messages w.1.1 <> messages (base false).1 ->
     exists b, messages w.1.1 !! nt_id nt = Some (own_row b) /\
       (e = DsRefused \/ e = RemoteRead /\ is_channel = true /\ mentions_all content = true /\
         envelopes w.1.2 !! nt_id nt = Some (sealed_row c (encode_ciphertext b) reply (nt_now nt)))) /\
  (w.1.2 = db \/ w.1.2 = (base false).2 \/ exists b, messages w.1.1 !! nt_id nt = Some (own_row b) /\
     w.1.2 = set_envelopes <[nt_id nt := sealed_row c (encode_ciphertext b) reply (nt_now nt)]> (base false).2).
Proof.
  destruct (send_message _ _ _ _ _ _ _ _ _) as [w r] eqn:Es.
  apply send_cases in Es as [(bl & Hm & Hd & He & e & ->)|[[Hk _]|[_ (store & b & _ & [Hk|Hd])]]].
  - split_and!; [done| |destruct bl; auto]. intros e' _ Hx Hy. by destruct bl.
  - destruct Hk as (Hn & Hm & Hd & He & _ & _ & ->). split_and!; [|done|by left]. intros m [= <-]. split; [done|].
    exists []. by rewrite Hm, lookup_insert_eq.
  - destruct Hk as (Hn & Hm & Hd & He & ->). split_and!; [done| |auto]. intros e [= <-] _ _. exists b. rewrite Hm, lookup_insert_eq. auto.
  - destruct Hd as (Hn & Hm & Hf & Hd & Hr). assert (messages w.1.1 !! nt_id nt = Some (own_row b)) as Hrow by (by rewrite Hm, lookup_insert_eq).
    split_and!; [| |right; right; by exists b].
    + intros m ->. destruct Hr as [[[= ->] _]|[[? _]|[? _]]]; [|done..]. split; [done|by exists b].
    + intros e -> _ _. exists b. split; [done|]. destruct Hr as [[? _]|[[[= ->] _]|([= ->] & _ & Hc & Hmt)]]; [done|by left|]. right.
      split_and!; [done..|]. rewrite Hd. apply lookup_insert_eq.
Qed.

(** C15: a sent message arrives.  When a send that was not suppressed succeeds, the service stores its
    envelope without the sender's name, every device whose watermark is older fetches it, and a
    reader whose group is at the sender's epoch stores exactly the row the sender stored: the
    same text under the sender's name, taken from the credential, with the same date and the
    message it replies to. *)
Theorem send_received `{!MlsDelivers} (w : Left) (m : Message) :
  send_message nt cu c sender content reply uname st db = (w, Ok m) -> w.2 <> [] -> sendable content ->
  exists row b, envelopes w.1.2 !! nt_id nt = Some row /\ env_sender_id row = SEALED_SENDER_SENTINEL /\ env_sealed row = 1%Z /\
    messages w.1.1 !! nt_id nt = Some (own_row b) /\
    (forall u d, text_lt (default "" (watermarks w.1.2 !! (c, u, d))) (nt_now nt) = true -> (nt_id nt, row) ∈ fetch_envelopes w.1.2 c u d) /\
    forall lw rst cred, mls_synced group (mls (prepare nt cu group sender st db).1) (mls rst) cred -> credential_of sender cred ->
      lw_exec_fails lw (nt_id nt) = false -> messages rst !! nt_id nt = None ->
      messages (decrypt_and_persist_one lw c group (nt_id nt, row) rst) !! nt_id nt = messages w.1.1 !! nt_id nt.
Proof.
  intros Es Hne Hc. apply send_cases in Es as [(bl & _ & _ & He & e & ?)|[[Hk _]|[_ (store & b & Hb & [Hk|Hd])]]].
  { done. } { by destruct Hk as (_ & _ & _ & ? & _). } { by destruct Hk as (_ & _ & _ & ? & _). }
  destruct Hd as (Hn & Hm & Hf & Hd & _). exists (sealed_row c (encode_ciphertext b) reply (nt_now nt)), b. rewrite Hd, Hm, lookup_insert_eq.
  split_and!; [apply lookup_insert_eq|done..| |].
  - intros u d Hlt. apply elem_fetch. split_and!; [apply lookup_insert_eq|done|exact Hlt].
  - intros lw rst cred Hs Hu Hw Hrn. erewrite text_lands; eauto. apply lookup_insert_eq.
Qed.

Lemma any_blocked_not_false n others o : o ∈ others -> is_blocked_either_way db sender o = true -> any_blocked nt n db sender others <> Ok false.
Proof.
  revert n. induction others as [|x others IH]; intros n Hin Hb; [by apply elem_of_nil in Hin|]. cbn [any_blocked]. unfold remote.
  destruct (nt_read_fails nt n); [done|]. cbn [rbind]. destruct (is_blocked_either_way db sender x) eqn:Ex; [done|].
  apply elem_of_cons in Hin as [->|Hin]; [congruence|by apply IH].
Qed.

Lemma any_blocked_reliable n others : (forall k, nt_read_fails nt k = false) ->
  any_blocked nt n db sender others = Ok (existsb (is_blocked_either_way db sender) others).
Proof.
  intros Hr. revert n. induction others as [|x others IH]; intros n; [done|]. cbn [any_blocked existsb]. unfold remote. rewrite Hr. cbn [rbind].
  destruct (is_blocked_either_way db sender x); [done|]. apply IH.
Qed.

Lemma elem_other_members o x : dm_members db !! (c, o) = Some x -> o <> sender -> o ∈ other_members db c sender.
Proof.
  intros Hm Ho. unfold other_members. apply list_elem_of_omap. exists ((c, o), x). split; [by apply elem_of_map_to_list|].
  by rewrite bool_decide_eq_true_2, bool_decide_eq_false_2.
Qed.

(** C18: a block is silent.  In a DM with a member who blocked the sender, or whom the sender
    blocked, a send changes nothing on the service, sends no notification and leaves the sender's
    MLS group alone, whatever fails; and when nothing fails it answers what a delivered send
    answers and adds the message to the sender's own history. *)
Theorem blocked_send_silent (o : string) (x : DmMemberRow) :
  group_channels db !! c = None -> dm_members db !! (c, o) = Some x -> o <> sender -> is_blocked_either_way db sender o = true ->
  let '(w, r) := send_message nt cu c sender content reply uname st db in
  w.1.2 = db /\ w.2 = [] /\ mls w.1.1 = mls st /\
  (nt_outdated nt = false -> (forall k, nt_read_fails nt k = false) -> nt_signed_in nt = true -> nt_local_fails nt 0 = false ->
   messages st !! nt_id nt = None -> r = Ok sent_message /\ messages w.1.1 = <[nt_id nt := own_row []]> (messages st)).
Proof.
  intros Hch Hm Ho Hb. pose proof (elem_other_members _ _ Hm Ho) as Hin. unfold send_message.
  destruct (nt_outdated nt); [done|]. unfold remote at 1. destruct (nt_read_fails nt 0) eqn:E0.
  { split_and!; [done..|]. intros _ Hr. by rewrite Hr in E0. }
  unfold resolve_mls_group. rewrite Hch. cbn [rbind fst snd]. unfold suppress_delivery. unfold remote at 1.
  destruct (nt_read_fails nt 1) eqn:E1. { split_and!; [done..|]. intros _ Hr. by rewrite Hr in E1. }
  cbn [rbind]. destruct (any_blocked nt 2 db sender (other_members db c sender)) as [[]|e] eqn:Eb; cbn [rbind].
  - destruct (nt_signed_in nt); cbn [negb]; [|done]. destruct (insert_local _ _ _ _ _) as [l|e] eqn:Ei.
    + apply insert_local_Ok in Ei as [_ ->]. split_and!; [done..|]. by intros.
    + split_and!; [done..|]. intros _ _ _ Hl Hn. unfold insert_local in Ei. rewrite Hl, bool_decide_eq_false_2 in Ei; [done|].
      rewrite Hn. by intros [? ?].
  - by apply (any_blocked_not_false 2 (other_members db c sender) o) in Eb.
  - split_and!; [done..|]. intros _ Hr. by rewrite any_blocked_reliable in Eb.
Qed.
End Sending.

(** ** Editing and deleting *)

Section Requests2.
Context (nt : Net).

Definition edit_row (c user ct now target : string) : EnvelopeRow := mkEnvelope c user ct None now "edit" (Some target) 0.

Definition edits (target : string) (e : EnvelopeRow) : bool := bool_decide (env_target_message_id e = Some target) && bool_decide (env_type e = "edit").

(** Of the edits of a message in a conversation only the last is kept. *)
Lemma wp_edit_stored env u id c target user ct now db :
  wp (MessageRoutes.apply_edit_message env (Some u) (MessageRoutes.mkEditMessage id c target (Some user) ct now)) db
    (fun o db' => o = Ok Applied -> envelopes db' !! id = Some (edit_row c user ct now target) /\
       forall id' row, envelopes db' !! id' = Some row -> env_conversation_id row = c -> edits target row = true -> id' = id).
Proof.
  unfold MessageRoutes.apply_edit_message, as_actor. cbn [MessageRoutes.em_sender_id]. destruct (resolve_actor (Some u) (Some user)) as [a|] eqn:Ea; [|by apply wp_ret].
  assert (a = user) as -> by (unfold resolve_actor in Ea; case_bool_decide; cbn in Ea; congruence).
  cbn [MessageRoutes.em_conversation_id MessageRoutes.em_envelope_id MessageRoutes.em_target_message_id MessageRoutes.em_ciphertext MessageRoutes.em_sent_at].
  apply wp_reader; [done..|]. intros _. wp_step; [done|]. repeat wp_step; try done. simplify_eq.
  match goal with H : MessageRoutes.insert_envelope _ _ _ = Some _ |- _ => apply insert_envelope_Some in H as [? ->] end.
  intros _. split; [apply lookup_insert_eq|]. intros id' row Hr Hc He. destruct (decide (id' = id)) as [|Hne]; [done|exfalso].
  cbn [envelopes set_envelopes] in Hr. rewrite lookup_insert_ne, lookup_delete_where in Hr by done.
  destruct (envelopes db !! id') as [row'|]; [|done]. unfold edits in He.
  destruct (_ && _ && _) eqn:E in Hr; [done|]. simplify_eq. rewrite bool_decide_eq_true_2 in E by done. simpl in E. congruence.
Qed.

(** What a deletion takes and what it leaves. *)
Definition removed (m : string) (db db' : MsgDb) : Prop :=
  (forall id row, envelopes db' !! id = Some row -> id <> m /\ edits m row = false \/ env_type row = "delete") /\
  (forall id row, envelopes db !! id = Some row -> id <> m -> edits m row = false -> envelopes db' !! id = Some row).

Lemma removed_rows m db :
  removed m db (set_envelopes (delete_where (fun _ e => bool_decide (env_target_message_id e = Some m) && bool_decide (env_type e = "edit")))
    (set_envelopes (delete m) db)).
Proof.
  split; intros id row; cbn [envelopes set_envelopes]; rewrite lookup_delete_where.
  - destruct (decide (id = m)) as [->|Hne]; [by rewrite lookup_delete_eq|]. rewrite lookup_delete_ne by done. intros Hr. left. split; [done|].
    destruct (envelopes db !! id) as [row'|]; [|done]. unfold edits. destruct (_ && _) eqn:E in Hr; [done|]. by simplify_eq.
  - intros Hr Hne He. rewrite lookup_delete_ne, Hr by done. unfold edits in He. by rewrite He.
Qed.

Lemma wp_delete_removes env u m c author db :
  wp (MessageRoutes.apply_delete_message env (Some u) (MessageRoutes.mkDeleteMessage m c (Some author) None)) db
    (fun o db' => o = Ok Applied -> removed m db db').
Proof.
  apply wp_as_actor; [done|]. unfold MessageRoutes.delete_message_rows.
  cbn [MessageRoutes.dl_message_id MessageRoutes.dl_conversation_id MessageRoutes.dl_msg_sender_id]. case_bool_decide.
  - apply wp_reader; [done..|]. intros _. wp_step; [done|]. repeat wp_step; try done. simplify_eq. intros _. apply removed_rows.
  - apply wp_guard. unfold MessageRoutes.channel_group_role. wp_step; wp_step; [done|]. apply wp_ret. case_bool_decide; [|done].
    wp_step; [done|]. repeat wp_step; try done. simplify_eq. intros _.
    match goal with H : MessageRoutes.insert_envelope _ _ _ = Some _ |- _ => apply insert_envelope_Some in H as [Hf ->] end.
    destruct (removed_rows m db) as [Hr Hk]. split; intros id row; cbn [envelopes set_envelopes] in *.
    + destruct (decide (id = new_ulid env)) as [->|Hne]; [|rewrite lookup_insert_ne by done; apply Hr].
      rewrite lookup_insert_eq. intros [= <-]. by right.
    + intros Hrow Hid He. destruct (decide (id = new_ulid env)) as [->|Hne]; [|rewrite lookup_insert_ne by done; by apply Hk].
      specialize (Hk _ _ Hrow Hid He). congruence.
Qed.

Lemma wp_attachment_envelopes env b db : wp (MessageRoutes.apply_delete_attachment env b) db (fun _ db' => envelopes db' = envelopes db).
Proof. unfold MessageRoutes.apply_delete_attachment. repeat wp_step; [done|]. by simplify_eq. Qed.

(** Releasing attachments leaves the envelopes alone. *)
Lemma cleanup_envelopes atts n db : envelopes (cleanup nt n atts db) = envelopes db.
Proof.
  revert n db. induction atts as [|a atts IH]; intros n db; [done|]. cbn [cleanup]. rewrite IH. unfold request.
  destruct (nt_service nt n) as [[u env]|]; [|done].
  pose proof (run_of_request _ _ _ (wp_attachment_envelopes env (MessageRoutes.mkAttachmentDelete (content_hash a)) db)) as Hw.
  destruct (run_sql _ _) as [db1 o]. by destruct o as [[]|].
Qed.
End Requests2.

Section Changing.
Context `{MlsSend} `{!Hex, !HexLaws} `{!JsonValue} `{!CharClass} (nt : Net) (cu : CatchUpRun).
Context (joined : MlsStore -> option MlsStore) (c u : string) (st : LocalDb) (db : MsgDb).

#[local] Notation group := (resolve_mls_group c db).1.

(** The group's store the change is sealed in. *)
Definition sealing_store (probe : bytes) : MlsStore := mls (repaired joined group probe (prepare nt cu group u st db).1).1.

Lemma repaired_messages g probe l : messages (repaired joined g probe l).1 = messages l.
Proof. unfold repaired. destruct (try_mls_encrypt _ _ _) as [? []]; [done|]. by destruct (joined _). Qed.

Lemma update_own_Ok n m f l l' : update_own nt n u m f l = Ok l' -> exists r, messages l !! m = Some r /\ msg_sender_id r = u /\
  msg_deleted_at r = None /\ l' = mkLocalDb (mls l) (<[m := f r]> (messages l)).
Proof.
  unfold update_own. destruct (nt_local_fails nt n); [done|]. destruct (messages l !! m) as [r|]; [|done].
  destruct (own_live u r) eqn:E; [|done]. intros [= <-]. unfold own_live, not_deleted in E. breflect. by exists r.
Qed.

(** An edit arrives.  When an edit succeeds, the author's own row has the new text; the service
    holds one edit of the message in the conversation, this one; and a reader who has the message
    as the author's and whose group is at the author's epoch changes its text to the new one,
    unless the message was deleted there. *)
Theorem edit_received `{!MlsDelivers} (m new_content : string) (w : Left) :
  edit_message nt cu joined c m u new_content st db = (w, Ok tt) -> sendable new_content ->
  (exists r, messages (prepare nt cu group u st db).1 !! m = Some r /\ messages w.1.1 !! m = Some (edit (nt_now nt) new_content r) /\
     msg_content (edit (nt_now nt) new_content r) = Some new_content) /\
  exists row, envelopes w.1.2 !! nt_id nt = Some row /\
    (forall id' row', envelopes w.1.2 !! id' = Some row' -> env_conversation_id row' = c -> edits m row' = true -> id' = nt_id nt) /\
    forall lw rst cred r, mls_synced group (sealing_store (as_bytes new_content)) (mls rst) cred -> credential_of u cred ->
      lw_exec_fails lw (nt_id nt) = false -> lw_read_fails lw (nt_id nt) = false -> messages rst !! m = Some r -> msg_sender_id r = u ->
      messages (decrypt_and_persist_one lw c group (nt_id nt, row) rst) = <[m := edit (lw_now lw) new_content r]> (messages rst).
Proof.
  intros Hed Hc. unfold edit_message in Hed. unfold remote in Hed. destruct (nt_read_fails nt 0); [done|].
  rewrite (surjective_pairing (resolve_mls_group c db)) in Hed. unfold sealing_store.
  destruct (prepare nt cu group u st db) as [st1 db1] eqn:Ep. cbn [fst snd]. destruct (nt_signed_in nt); cbn [negb] in Hed; [|done].
  destruct (repaired joined group (as_bytes new_content) st1) as [st2 [[]|e]] eqn:Er; [|done]. cbn [fst].
  pose proof (repaired_messages group (as_bytes new_content) st1) as Hrm. rewrite Er in Hrm. cbn [fst] in Hrm.
  destruct (try_mls_encrypt group (framed new_content) (mls st2)) as [store [b|]] eqn:Ee; [|done].
  destruct (update_own nt 0 u m _ _) as [st3|e] eqn:Eu; [|done]. apply update_own_Ok in Eu as (r0 & Hr0 & _ & Hd & ->). cbn [messages set_mls] in *.
  destruct (request _ _ _ _) as [db2 [[]|e]] eqn:Eq; [|done]. injection Hed as <-.
  apply request_ok in Eq as (a & env & Hrun). pose proof (run_of_request _ _ _ (wp_edit_stored env a (nt_id nt) c m u (encode_ciphertext b) (nt_now nt) db1)) as Hw.
  rewrite Hrun in Hw. destruct (Hw eq_refl) as [Hrow Hone]. cbn [fst snd messages]. split.
  - exists r0. rewrite <- Hrm, lookup_insert_eq. split_and!; [done..|]. unfold edit. by rewrite Hd.
  - exists (edit_row c u (encode_ciphertext b) (nt_now nt) m). split_and!; [done..|]. intros lw rst cred r Hs Hu Hx Hy Hr Hau.
    exact (edit_lands lw group (mls st2) store b new_content u cred (edit_row c u (encode_ciphertext b) (nt_now nt) m) (nt_id nt) m rst r Hc Ee Hs Hu Hx Hy eq_refl eq_refl eq_refl Hr Hau).
Qed.

Lemma redaction_sent m st' db' : send_redaction_message nt cu joined c m u st db = ((st', db'), Ok tt) ->
  exists store b, try_mls_encrypt group (pad_redaction m) (sealing_store (pad_redaction m)) = (store, Some b) /\
    messages st' = messages (prepare nt cu group u st db).1 /\ 
    envelopes db' !! nt_id nt = Some (sealed_row c (encode_ciphertext b) None (nt_now nt)).
Proof.
  unfold send_redaction_message, remote, sealing_store. intros Hs. destruct (nt_read_fails nt 1); [done|].
  rewrite (surjective_pairing (resolve_mls_group c db)) in Hs.
  destruct (prepare nt cu group u st db) as [st1 db1] eqn:Ep. cbn [fst snd]. destruct (nt_signed_in nt); cbn [negb] in Hs; [|done].
  destruct (repaired joined group (pad_redaction m) st1) as [st2 [[]|e]] eqn:Er; [|done]. cbn [fst].
  pose proof (repaired_messages group (pad_redaction m) st1) as Hrm. rewrite Er in Hrm. cbn [fst] in Hrm.
  destruct (try_mls_encrypt group (pad_redaction m) (mls st2)) as [store [b|]] eqn:Ee; [|done].
  destruct (request _ _ _ _) as [db2 o] eqn:Eq. injection Hs as <- <- ->. exists store, b. split_and!; [done..|].
  apply request_send in Eq as [[_ ?]|(_ & -> & _)]; [done|]. apply lookup_insert_eq.
Qed.

(** The steps of a deletion by the author that succeeds. *)
Lemma self_delete_steps m w : self_delete nt cu joined m u c st db = (w, Ok tt) ->
  exists st1 db1 db2 r, send_redaction_message nt cu joined c m u st db = ((st1, db1), Ok tt) /\ removed m db1 db2 /\
    messages st1 !! m = Some r /\ msg_sender_id r = u /\ msg_deleted_at r = None /\
    messages w.1.1 = <[m := redact (nt_later nt) r]> (messages st1) /\ envelopes w.1.2 = envelopes db2.
Proof.
  unfold self_delete. intros Hs. destruct (send_redaction_message _ _ _ _ _ _ _ _) as [[st1 db1] [[]|e]]; [|done].
  destruct (delete_request nt 1 m c u db1) as [db2 [[]|e]] eqn:Ed; [|done]. unfold delete_request in Ed.
  apply request_ok in Ed as (a & env & Hrun). pose proof (run_of_request _ _ _ (wp_delete_removes env a m c u db1)) as Hw. rewrite Hrun in Hw.
  destruct (select_content _ _ _ _ _) as [content|e]; [|done]. cbn [rbind] in Hs.
  destruct (update_own nt 2 u m _ st1) as [st2|e] eqn:Eu; [|done]. cbn [rbind] in Hs. apply update_own_Ok in Eu as (r & Hr & Hau & Hd & ->).
  destruct (orphaned_by _ _ _ _ _) as [orphaned|e]; [|done]. unfold remote in Hs. destruct (nt_read_fails nt 2); [done|].
  rewrite (surjective_pairing (resolve_mls_group c (cleanup nt 2 orphaned db2))) in Hs. injection Hs as <-.
  exists st1, db1, db2, r. cbn [fst snd messages]. rewrite cleanup_envelopes. by split_and!; [|apply Hw|..].
Qed.

(** C17: a deletion arrives.  When the author's deletion succeeds, the author's own row has no text
    and is marked deleted; the service holds the message and its edits no more; it holds the
    redaction, sealed like any other message; and a reader who has the message as the author's
    and whose group is at the author's epoch deletes its text. *)
Theorem redaction_received `{!MlsDelivers} (m : string) (r0 : MessageRow) (w : Left) :
  messages st !! m = Some r0 -> msg_sender_id r0 = u -> msg_conversation_id r0 = c -> sendable m -> nt_id nt <> m ->
  delete_message nt cu joined m u st db = (w, Ok tt) ->
  (exists r, messages w.1.1 !! m = Some r /\ msg_content r = None /\ msg_deleted_at r = Some (nt_later nt)) /\
  (forall id row, envelopes w.1.2 !! id = Some row -> id <> m /\ edits m row = false \/ env_type row = "delete") /\
  exists row, envelopes w.1.2 !! nt_id nt = Some row /\ env_sender_id row = SEALED_SENDER_SENTINEL /\
    forall lw rst cred r, mls_synced group (sealing_store (pad_redaction m)) (mls rst) cred -> credential_of u cred ->
      lw_exec_fails lw (nt_id nt) = false -> lw_read_fails lw (nt_id nt) = false -> messages rst !! nt_id nt = None ->
      messages rst !! m = Some r -> msg_sender_id r = u ->
      messages (decrypt_and_persist_one lw c group (nt_id nt, row) rst) = <[m := redact (lw_now lw) r]> (messages rst).
Proof.
  intros Hm Hau Hcv Hc Hne Hdel. unfold delete_message, remote in Hdel. destruct (nt_read_fails nt 3); [done|]. cbn [rbind] in Hdel.
  unfold resolve_target in Hdel. destruct (nt_signed_in nt) eqn:Esi; cbn [negb] in Hdel; [|done].
  destruct (nt_local_fails nt 0); [done|]. rewrite Hm in Hdel. rewrite Hau, Hcv, bool_decide_eq_true_2 in Hdel by done. cbn [negb] in Hdel.
  apply self_delete_steps in Hdel as (st1 & db1 & db2 & r & Hs & [Hgone Hkept] & Hr & Hru & Hrd & Hw1 & Hw2).
  apply redaction_sent in Hs as (store & b & He & _ & Hrow). split_and!.
  - exists (redact (nt_later nt) r). rewrite Hw1, lookup_insert_eq. unfold redact. by rewrite Hrd.
  - intros id row. rewrite Hw2. apply Hgone.
  - exists (sealed_row c (encode_ciphertext b) None (nt_now nt)). rewrite Hw2. split_and!; [by apply Hkept|done|].
    intros lw rst cred rr Hsy Hu Hx Hy Hn Hrr Hrru. by eapply redaction_lands.
Qed.
End Changing.

(** ** Attachments a deletion releases *)

Section Orphans.
Context `{!JsonValue}.

(** A selected row refers to the attachment. *)
Definition refers (r : MessageRow) (hash : string) : Prop :=
  exists content a, msg_content r = Some content /\ a ∈ parse_attachment_refs content /\ content_hash a = hash.

Lemma elem_referenced rows hash : hash ∈ referenced rows <-> exists r, r ∈ rows /\ refers r hash.
Proof.
  unfold referenced, refers. rewrite list_elem_of_In, in_concat. split.
  - intros (l & Hl & Hh). apply in_map_iff in Hl as (r & <- & Hr). exists r. split; [by apply list_elem_of_In|].
    destruct (msg_content r) as [t|]; [|done]. apply in_map_iff in Hh as (a & <- & Ha). exists t, a. by rewrite list_elem_of_In.
  - intros (r & Hr & t & a & Ht & Ha & <-). eexists. split; [apply in_map, list_elem_of_In, Hr|]. rewrite Ht. apply in_map, list_elem_of_In, Ha.
Qed.

Lemma elem_rows_of m r : r ∈ rows_of m <-> exists id : string, m !! id = Some r.
Proof.
  unfold rows_of. rewrite list_elem_of_In, in_map_iff. split.
  - intros ([id r'] & <- & Hin). exists id. by apply list_elem_of_In, elem_of_map_to_list in Hin.
  - intros [id Hr]. exists (id, r). split; [done|]. by apply list_elem_of_In, elem_of_map_to_list.
Qed.

(** The author's deletion releases the attachments that no live message of the author refers to
    in the local table; an admin's those that no live message of anyone refers to. *)
Theorem orphans_exact (user_id : string) (candidates : list AttachmentRef) (m : gmap string MessageRow) (a : AttachmentRef) :
  (a ∈ filter_orphaned_locally user_id candidates m <-> a ∈ candidates /\
     forall id r, m !! id = Some r -> msg_sender_id r = user_id -> msg_deleted_at r = None -> ~ refers r (content_hash a)) /\
  (a ∈ filter_orphaned_locally_all candidates m <-> a ∈ candidates /\
     forall id r, m !! id = Some r -> msg_deleted_at r = None -> ~ refers r (content_hash a)).
Proof.
  assert (forall sel, a ∈ orphans_among (List.filter sel (rows_of m)) candidates <-> a ∈ candidates /\
    forall id r, m !! id = Some r -> sel r = true -> ~ refers r (content_hash a)) as Hsel.
  { intros sel. unfold orphans_among. rewrite list_elem_of_In, filter_In, negb_true_iff, bool_decide_eq_false, elem_referenced, <- list_elem_of_In.
    apply and_iff_compat_l. split.
    - intros Hn id r Hr Hs Hx. apply Hn. exists r. split; [|done]. apply list_elem_of_In, filter_In. split; [|done].
      apply list_elem_of_In, elem_rows_of. by exists id.
    - intros Hn (r & Hr & Hx). apply list_elem_of_In, filter_In in Hr as [Hr Hs]. apply list_elem_of_In, elem_rows_of in Hr as [id Hid]. by eapply Hn. }
  unfold filter_orphaned_locally, filter_orphaned_locally_all, not_deleted. rewrite !Hsel. setoid_rewrite andb_true_iff. setoid_rewrite bool_decide_eq_true.
  split; naive_solver.
Qed.
End Orphans.

(** ** At concrete inputs *)

Section Witnesses.

(** A store holds the credential of its own member, if it has the group; ciphertexts are in the
    clear: the epoch, the length of the credential, the credential, the text. *)
#[local] Instance named_mls : OpenMls := {|
  MlsStore := option bytes;
  mls_message_epoch b := N_of_byte <$> b !! 0;
  mls_process_message _ b st :=
    match b with
    | _ :: n :: rest => (st, Some (take (N.to_nat (N_of_byte n)) rest, Some (drop (N.to_nat (N_of_byte n)) rest)))
    | _ => (st, None)
    end
|}.

#[local] Instance named_send : MlsSend := {|
  mls_create_message _ p st := (st, (fun cred => x05 :: byte_of_N (N.of_nat (length cred)) :: cred ++ p) <$> st)
|}.

#[local] Program Instance named_delivers : MlsDelivers := {|
  mls_synced _ s _ cred := s = Some cred /\ (length cred < 256)%nat
|}.
Next Obligation.
  intros group s r cred p s' b [-> Hl] [= <- <-]. exists r. cbn. rewrite N_of_byte_of_N, N.mod_small, Nat2N.id by lia.
  by rewrite take_app_length, drop_app_length.
Qed.

#[local] Instance ascii_letters : CharClass := {| is_alphanumeric b := match b with [x] => in_range x 48 57 || in_range x 65 90 || in_range x 97 122 | _ => false end |}.

(** One attachment message. *)
#[local] Definition photo : string := "{photo}".

#[local] Instance one_document : JsonValue := {|
  json_from_str s := if bool_decide (s = photo)
    then Some (JObject [("_att", JArray [JObject [("hash", JString "h1"); ("key", JString "media/h1")]; JObject [("hash", JString "")]])]) else None
|}.

#[local] Definition net (id : string) (reads : nat -> bool) : Net :=
  mkNet false reads true (fun _ => false) (fun _ => Some ("alice", Ingest.steady)) (fun _ => false) id "2026-01-01T00:00:09+00:00" "2026-01-01T00:00:10+00:00"
    (Some "phone").

#[local] Definition up_to_date : CatchUpRun :=
  mkCatchUp (fun s => s) false Ingest.quiet (fun _ => Some ("alice", Ingest.steady)) (fun _ s => s) [5%N].

#[local] Definition alice : bytes := make_credential "alice" "phone".

#[local] Definition alices (ms : gmap string MessageRow) : LocalDb := @mkLocalDb named_mls (Some alice) ms.

#[local] Definition bobs (ms : gmap string MessageRow) : LocalDb := @mkLocalDb named_mls (Some (make_credential "bob" "tablet")) ms.

Lemma alice_named : credential_of "alice" alice.
Proof. exists "phone". split_and!; [done|by vm_compute|]. apply (bool_decide_eq_true_1 (x3a ∉ _)). by vm_compute. Qed.

Lemma alice_short : length alice < 256.
Proof. apply Nat.ltb_lt. by vm_compute. Qed.

Example mentions :
  map mentions_all ["hi @all, look"; "@ALL"; "@allison"; "email@allcorp"; "(@all)"] = [true; true; false; false; false].
Proof. by vm_compute. Qed.

Example attachments_parsed : parse_attachment_refs photo = [mkAttachment "h1" "media/h1"] /\ framed photo = as_bytes photo.
Proof. by vm_compute. Qed.

#[local] Definition run_send (reads : nat -> bool) (content : string) : Left * Result Message SendError :=
  send_message (net "m9" reads) up_to_date "chan" "alice" content None None (alices ∅) (Ingest.chan_db None).

Lemma send_received_witness : exists row b,
  envelopes (run_send (fun _ => false) "hello @all").1.1.2 !! "m9" = Some row /\
  messages (decrypt_and_persist_one Ingest.quiet "chan" "g" ("m9", row) (bobs ∅)) !! "m9" =
    Some (mkMessage "chan" "alice" b (Some "hello @all") None "2026-01-01T00:00:09+00:00" None None).
Proof.
  destruct (send_received (net "m9" (fun _ => false)) up_to_date "chan" "alice" "hello @all" None None (alices ∅) (Ingest.chan_db None)
    (run_send (fun _ => false) "hello @all").1 (sent_message (net "m9" (fun _ => false)) "chan" "alice" "hello @all" None)) as (row & b & He & _ & _ & Hr & _ & Hl).
  - vm_compute. reflexivity.
  - vm_compute. discriminate.
  - split; by vm_compute.
  - exists row, b. split; [exact He|]. assert ((resolve_mls_group "chan" (Ingest.chan_db None)).1 = "g") as Hg by (vm_compute; reflexivity).
    rewrite Hg in Hl. change (nt_id (net "m9" (fun _ => false))) with "m9" in *.
    rewrite (Hl Ingest.quiet (bobs ∅) alice); [exact Hr| |apply alice_named|done|done].
    split; [vm_compute; reflexivity|apply alice_short].
Defined.

(** The message is delivered and the command fails: the read of the members to mention. *)
Example mention_fails_after_delivery :
  let out := run_send (fun n => bool_decide (n = 1)) "hello @all" in
  out.2 = Err RemoteRead /\ is_Some (envelopes out.1.1.2 !! "m9") /\ is_Some (messages out.1.1.1 !! "m9").
Proof. vm_compute. split_and!; [done|by eexists..]. Qed.

#[local] Definition greeting (sender : string) : MessageRow := mkMessage "chan" sender [] (Some "hello") None "2026-01-01T00:00:01+00:00" None None.

#[local] Definition fine (id : string) : Net := net id (fun _ => false).

#[local] Definition run_edit : Left * Result unit SendError :=
  edit_message (fine "e1") up_to_date (fun _ => None) "chan" "m1" "alice" "hi" (alices {["m1" := greeting "alice"]}) (Ingest.chan_db None).

Lemma edit_received_witness : exists row, envelopes run_edit.1.1.2 !! "e1" = Some row /\
  messages (decrypt_and_persist_one Ingest.quiet "chan" "g" ("e1", row) (bobs {["m1" := greeting "alice"]})) =
    <["m1" := edit "now" "hi" (greeting "alice")]> (messages (bobs {["m1" := greeting "alice"]})).
Proof.
  destruct (edit_received (fine "e1") up_to_date (fun _ => None) "chan" "alice" (alices {["m1" := greeting "alice"]}) (Ingest.chan_db None)
    "m1" "hi" run_edit.1) as (_ & row & He & _ & Hl).
  - vm_compute. reflexivity.
  - split; by vm_compute.
  - exists row. split; [exact He|]. assert ((resolve_mls_group "chan" (Ingest.chan_db None)).1 = "g") as Hg by (vm_compute; reflexivity).
    rewrite Hg in Hl. change (nt_id (fine "e1")) with "e1" in *.
    apply (Hl Ingest.quiet (bobs {["m1" := greeting "alice"]}) alice (greeting "alice")); [|apply alice_named|done..].
    split; [vm_compute; reflexivity|apply alice_short].
Defined.

#[local] Definition run_delete : Left * Result unit SendError :=
  delete_message (fine "d1") up_to_date (fun _ => None) "m1" "alice" (alices {["m1" := greeting "alice"]}) (Ingest.chan_db None).

Lemma redaction_received_witness : exists row, envelopes run_delete.1.1.2 !! "d1" = Some row /\ env_sender_id row = SEALED_SENDER_SENTINEL /\
  envelopes run_delete.1.1.2 !! "m1" = None /\
  messages (decrypt_and_persist_one Ingest.quiet "chan" "g" ("d1", row) (bobs {["m1" := greeting "alice"]})) =
    <["m1" := redact "now" (greeting "alice")]> (messages (bobs {["m1" := greeting "alice"]})).
Proof.
  destruct (redaction_received (fine "d1") up_to_date (fun _ => None) "chan" "alice" (alices {["m1" := greeting "alice"]}) (Ingest.chan_db None)
    "m1" (greeting "alice") run_delete.1) as (_ & _ & row & He & Hs & Hl).
  - reflexivity.
  - reflexivity.
  - reflexivity.
  - split; by vm_compute.
  - done.
  - vm_compute. reflexivity.
  - exists row. split_and!; [exact He|exact Hs|vm_compute; reflexivity|].
    assert ((resolve_mls_group "chan" (Ingest.chan_db None)).1 = "g") as Hg by (vm_compute; reflexivity).
    rewrite Hg in Hl. change (nt_id (fine "d1")) with "d1" in *.
    apply (Hl Ingest.quiet (bobs {["m1" := greeting "alice"]}) alice (greeting "alice")); [|apply alice_named|done..].
    split; [vm_compute; reflexivity|apply alice_short].
Defined.

(** Bob and Alice in a DM; Bob has blocked Alice. *)
#[local] Definition dm_db : MsgDb :=
  mkMsgDb ∅ ∅ [] ∅ ∅ ∅ ∅ ∅ {["dm" := mkDm "alice" "t"]} {[("dm", "alice") := mkDmMember "alice" "t" (Some "t"); ("dm", "bob") := mkDmMember "alice" "t" (Some "t")]}
    {[("bob", "alice")]} ∅ ∅ ∅ ∅ no_accounts.

Lemma blocked_send_silent_witness :
  let '(w, r) := send_message (fine "m9") up_to_date "dm" "alice" "hello" None None (alices ∅) dm_db in
  w.1.2 = dm_db /\ w.2 = [] /\ r = Ok (sent_message (fine "m9") "dm" "alice" "hello" None).
Proof.
  pose proof (blocked_send_silent (fine "m9") up_to_date "dm" "alice" "hello" None None (alices ∅) dm_db "bob" (mkDmMember "alice" "t" (Some "t"))) as Hx.
  destruct (send_message _ _ _ _ _ _ _ _ _) as [w r].
  destruct Hx as (Hd & He & _ & Hok); [vm_compute; reflexivity..|done|vm_compute; reflexivity|].
  destruct Hok as [Hr _]; [done..|]. done.
Defined.

(** Bob's message refers to the same photo: Alice's deletion of hers releases it, an admin's does
    not. *)
Example shared_photo_released :
  let ms : gmap string MessageRow := {["m1" := redact "t" (mkMessage "chan" "alice" [] (Some photo) None "t" None None);
                                       "m2" := mkMessage "chan" "bob" [] (Some photo) None "t" None None]} in
  filter_orphaned_locally "alice" [mkAttachment "h1" "media/h1"] ms = [mkAttachment "h1" "media/h1"] /\
  filter_orphaned_locally_all [mkAttachment "h1" "media/h1"] ms = [].
Proof. by vm_compute. Qed.

(** Deleting a deleted message again fails, after another redaction went out. *)
Example second_delete_fails :
  let out := delete_message (fine "d2") up_to_date (fun _ => None) "m1" "alice" (alices {["m1" := redact "t" (greeting "alice")]}) (Ingest.chan_db None) in
  out.2 = Err LocalStatement /\ is_Some (envelopes out.1.1.2 !! "d2").
Proof. vm_compute. split; [done|by eexists]. Qed.
End Witnesses.
