(* ===== verification/Reconcile.v ===== *)
(** * pollis-core: reconciling a group's tree with its roster

    Models [mls/reconcile.rs] with what it uses of [mls/delivery.rs], [mls/ds_client.rs] and
    [mls/provider.rs]; the backstop of [mls/sweep.rs] and [revoke_device] of [auth.rs], which run
    it; and how [group_state.rs] checks the devices a commit's row names ([Device]).  The roster
    and the devices are read from the main database, key packages claimed through the service
    ([Accounts]), the difference between tree and roster made one commit, submitted ([Delivery]),
    adopted or rolled back against the log ([Client]), and the change of roster announced.

    The MLS library is an interface: a group has an epoch and leaves, staging a commit keeps
    both, merging it moves one epoch on and applies it.  Any read, request, local load and merge
    may fail, and the answer to a request may be lost.  Left out: pinning the roster's account
    keys first ([Safety]), rotating the voice keys and the nudge to the room, which touch none of
    this and whose failures are ignored.

    [core_tree_exact]: what the tree holds after a reconcile.  [reconcile_no_split]: the local group
    moves on only when the log holds its commit.  [leftover_commit_merged]: but a commit left behind
    by an interrupted run is merged by the next.  [revoked_leaf_stays]: revoking a device does not
    remove its leaf.  [mixed_add_wedges]: a commit that adds devices of two users can
    stop its readers.  [banners_exact]: who is announced as joined or left. *)

From stdpp Require Import base list strings gmap sets.
From Stdlib Require Import NArith ZArith Lia ZifyNat ZifyN.
From Stdlib Require Import Strings.Byte.
From S2P Require Import Prelude Crypto Merkle Log Tenants Enroll Device Delivery Client Framing Text Access Tables Messages Accounts Ingest Outbox.

(** What a commit produces. *)
Record ReconcileCommitData := mkCommitData { commit_bytes : bytes; welcome_bytes : option bytes; group_info_bytes : option bytes }.

Class MlsTree := {
  Group : Type;
  KeyPackage : Type;
  group_epoch : Group -> N;
  (** Leaf indices and credentials. *)
  group_members : Group -> list (N * bytes);
  (** [tls_deserialize] and [validate]. *)
  key_package_in : bytes -> option KeyPackage;
  kp_credential : KeyPackage -> bytes;
  (** The commit waiting to be merged. *)
  group_pending : Group -> option bytes;
  (** The own leaf and its key pair are there. *)
  group_signer : Group -> bool;
  (** [commit_builder] .. [stage_commit], then serialising what it made: a failure to build or
      stage leaves the group as it was, a failure to serialise leaves the commit staged. *)
  stage_commit : Group -> list N -> list KeyPackage -> option (Group * option ReconcileCommitData);
  merge_pending_commit : Group -> Group;
  clear_pending_commit : Group -> Group
}.

Class MlsTreeLaws `{MlsTree} : Prop := {
  indices_unique : forall g, NoDup (map fst (group_members g));
  staged_same : forall g rm kps g' d, stage_commit g rm kps = Some (g', d) ->
    group_epoch g' = group_epoch g /\ group_members g' = group_members g /\ group_pending g' <> None /\
    (forall data, d = Some data -> group_pending g' = Some (commit_bytes data));
  merged_next : forall g rm kps g' d, stage_commit g rm kps = Some (g', d) ->
    group_epoch (merge_pending_commit g') = (group_epoch g + 1)%N /\
    map snd (group_members (merge_pending_commit g')) ≡ₚ
      map snd (List.filter (fun m => negb (bool_decide (m.1 ∈ rm))) (group_members g)) ++ map kp_credential kps;
  merge_nothing : forall g, group_pending g = None -> merge_pending_commit g = g;
  merge_settles : forall g, group_pending (merge_pending_commit g) = None;
  clear_staged : forall g rm kps g' d, stage_commit g rm kps = Some (g', d) ->
    group_epoch (clear_pending_commit g') = group_epoch g /\ group_members (clear_pending_commit g') = group_members g /\
    group_pending (clear_pending_commit g') = None
}.

(** A user's device. *)
Definition Pair : Type := string * string.

(** ** mls/provider.rs *)

(** What follows the first colon. *)
Definition parse_credential_device_id (cred : bytes) : option string :=
  let s := from_utf8_lossy cred in
  let u := until_byte x3a s in
  if length u =? length s then None else Some (of_bytes (drop (S (length u)) s)).

Definition leaf_device (cred : bytes) : Pair := (parse_credential_user_id cred, default "" (parse_credential_device_id cred)).

(** ** The core *)

Record ReconcileOutcome := mkOutcome { added : list Pair; removed : list Pair; epoch_before : N; epoch_after : N; skipped_self_removal : bool }.

Definition outcome_default : ReconcileOutcome := mkOutcome [] [] 0 0 false.

Section Core.
Context `{MlsTree}.

(** The leaf of each device; of two leaves of one device the later. *)
Definition actual (g : Group) : gmap Pair N := fold_left (fun m l => <[leaf_device l.2 := l.1]> m) (group_members g) ∅.

Definition kept_member (roster : gset string) (valid : option (gset Pair)) (k : Pair) : bool :=
  bool_decide (k.1 ∈ roster) && match valid with Some v => bool_decide (k ∈ v) | None => true end.

Definition desired (roster : gset string) (kps : list (Pair * KeyPackage)) (valid : option (gset Pair)) (act : gmap Pair N) : gset Pair :=
  list_to_set (map fst kps) ∪ filter (fun k => kept_member roster valid k = true) (dom act).

Definition reconcile_group_mls_core_staged (g : Group) (roster : gset string) (kps : list (Pair * KeyPackage)) (actor : Pair)
    (valid : option (gset Pair)) : Group * option (ReconcileOutcome * option ReconcileCommitData) :=
  let act := actual g in
  let want := desired roster kps valid act in
  let to_remove := List.filter (fun kv => negb (bool_decide (kv.1 ∈ want))) (map_to_list act) in
  let skipped := existsb (fun kv => bool_decide (kv.1 = actor)) to_remove in
  let to_remove := if skipped then List.filter (fun kv => negb (bool_decide (kv.1 = actor))) to_remove else to_remove in
  let to_add := want ∖ dom act in
  let add_kps := List.filter (fun kp => bool_decide (kp.1 ∈ to_add)) kps in
  match to_remove, add_kps with
  | [], [] => (g, Some (mkOutcome [] [] (group_epoch g) (group_epoch g) skipped, None))
  | _, _ =>
      match stage_commit g (map snd to_remove) (map snd add_kps) with
      | None => (g, None)
      | Some (g', None) => (g', None)
      | Some (g', Some data) =>
          (g', Some (mkOutcome (map fst add_kps) (map fst to_remove) (group_epoch g) (group_epoch g + 1) skipped, Some data))
      end
  end.

Definition reconcile_group_mls_core (g : Group) (roster : gset string) (kps : list (Pair * KeyPackage)) (actor : Pair)
    (valid : option (gset Pair)) : Group * option (ReconcileOutcome * option ReconcileCommitData) :=
  match reconcile_group_mls_core_staged g roster kps actor valid with
  | (g, Some (o, Some data)) =>
      let g := merge_pending_commit g in
      (g, Some (mkOutcome (added o) (removed o) (epoch_before o) (group_epoch g) (skipped_self_removal o), Some data))
  | r => r
  end.
End Core.

(** ** What is read from the main database *)

Section Remote.
Context `{CharClass}.

(** The characters that may go into the query. *)
Definition safe_id (id : string) : string :=
  of_bytes (concat (List.filter (fun c => is_alphanumeric c || bool_decide (c = [x2d]) || bool_decide (c = [x5f])) (chars (as_bytes id)))).

(** Members and invitees of a group, or, if there are none, the members of a DM. *)
Definition roster_of (db : MsgDb) (c : string) : gset string :=
  let members := omap (fun '((g, u), _) => if bool_decide (g = c) then Some u else None) (map_to_list (Tables.group_members db)) in
  let invitees := omap (fun '(_, i) => if bool_decide (inv_group_id i = c) then Some (inv_invitee_id i) else None) (map_to_list (invites db)) in
  let roster : gset string := list_to_set (members ++ invitees) in
  if bool_decide (roster = ∅)
  then list_to_set (omap (fun '((d, u), _) => if bool_decide (d = c) then Some u else None) (map_to_list (dm_members db)))
  else roster.

Definition asked (roster : gset string) (u : string) : bool := bool_decide (u ∈ map safe_id (elements roster)).

Definition unclaimed (db : MsgDb) (u d : string) : bool :=
  existsb (fun r => bool_decide (kp_user_id r = u) && bool_decide (kp_device_id r = Some d) && negb (kp_claimed r)) (key_packages (accounts db)).

(** The devices with a package left. *)
Definition device_pairs (db : MsgDb) (roster : gset string) : list Pair :=
  omap (fun d => if asked roster (dev_user d) && unclaimed db (dev_user d) (dev_id d) then Some (dev_user d, dev_id d) else None) (devices db).

(** Every device row of the roster. *)
Definition valid_devices (db : MsgDb) (roster : gset string) : gset Pair :=
  list_to_set (omap (fun d => if asked roster (dev_user d) then Some (dev_user d, dev_id d) else None) (devices db)).
End Remote.

(** ** The run *)

Inductive ReconcileError := ReadFailed | ClaimFailed | LoadFailed | NoSigner | BuildFailed | SubmitFailed | MergeFailed.

(** What a run meets: failing reads of the main database; the claims; the submission, if it
    arrives: whom it is taken for, its failing statements, time and ids; whether its answer is
    lost and whether the log can be read afterwards; local loads and merges that fail; the
    device; and what catching up after a lost race makes of the group. *)
Record Run `{MlsTree} := mkRun {
  rn_read_fails : nat -> bool;
  rn_claims : nat -> option SqlEnv;
  rn_claim_lost : nat -> bool;
  rn_submit : option (option string * Faults * string * (nat -> string));
  rn_answer_lost : bool;
  rn_log_unread : bool;
  rn_load_fails : nat -> bool;
  rn_merge_fails : nat -> bool;
  rn_clear_fails : bool;
  rn_device : option string;
  rn_converge : option Group -> option Group
}.
Arguments mkRun {_} _ _ _ _ _ _ _ _ _ _ _.

(** The local groups, with whether the database is open; the main database; the log. *)
Record World `{MlsTree} := mkWorld { w_open : bool; w_groups : gmap string Group; w_main : MsgDb; w_log : LogDb }.
Arguments mkWorld {_} _ _ _ _.

(** The event for this client's own view. *)
Record RosterChanged := mkRosterChanged { rc_conversation_id : string; rc_epoch_before : N; rc_epoch_after : N; joined_user_ids : list string; left_user_ids : list string; devices_added : list Pair; devices_removed : list Pair }.

(** Users without a leaf in [there] once each, in order; devices of the others. *)
Definition split_pairs (there : gset string) (l : list Pair) : list string * list Pair :=
  let r := fold_left (fun '(users, seen, devices) (p : Pair) =>
    if bool_decide (p.1 ∈ there) then (users, seen, devices ++ [p])
    else if bool_decide (p.1 ∈ seen) then (users, seen, devices)
    else (users ++ [p.1], {[p.1]} ∪ seen, devices)) l ([], (∅ : gset string), []) in
  (r.1.1, r.2).

Definition users_of (t : gset Pair) : gset string := set_map fst t.

Definition roster_changed (c : string) (already : gset Pair) (o : ReconcileOutcome) : RosterChanged :=
  let post := (already ∖ list_to_set (removed o)) ∪ list_to_set (added o) in
  let '(joined, devs) := split_pairs (users_of already) (added o) in
  let '(departed, gone) := split_pairs (users_of post) (removed o) in
  mkRosterChanged c (epoch_before o) (epoch_after o) joined departed devs gone.

Section Impl.
Context `{MlsTree} `{!Base64} `{!CharClass} (rn : Run) (c : string).

Definition read {A} (n : nat) (a : A) : Result A ReconcileError := if rn_read_fails rn n then Err ReadFailed else Ok a.

(** [ds_claim_key_package], the [n]-th. *)
Definition ds_claim_key_package (n : nat) (u d : string) (db : MsgDb) : MsgDb * Result (option bytes) ReconcileError :=
  match rn_claims rn n with
  | None => (db, Err ClaimFailed)
  | Some env =>
      let '(db, r) := run_sql (AccountRoutes.apply_claim_key_package env (AccountRoutes.mkClaimKeyPackage u (Some d))) db in
      (db, if rn_claim_lost rn n then Err ClaimFailed
           else match r with
                | Ok (AccountRoutes.Claimed _ kp) => Ok (Some kp)
                | Ok AccountRoutes.NoKeyPackage => Ok None
                | Err _ => Err ClaimFailed
                end)
  end.

Fixpoint claim_all (n : nat) (l : list Pair) (db : MsgDb) : MsgDb * Result (list (Pair * bytes)) ReconcileError :=
  match l with
  | [] => (db, Ok [])
  | p :: l' =>
      let '(db, r) := ds_claim_key_package n p.1 p.2 db in
      match r with
      | Err e => (db, Err e)
      | Ok kp =>
          let '(db, r) := claim_all (S n) l' db in
          (db, let? rest := r in Ok (match kp with Some b => (p, b) :: rest | None => rest end))
      end
  end.

(** The packages that parse and name their user. *)
Definition validate_kps (l : list (Pair * bytes)) : list (Pair * KeyPackage) :=
  omap (fun '(p, b) => kp ← key_package_in b; if bool_decide (parse_credential_user_id (kp_credential kp) = p.1) then Some (p, kp) else None) l.

Definition tree_devices (g : Group) : gset Pair := list_to_set (map (fun m => leaf_device m.2) (group_members g)).

(** The local group, if there is one; [n] numbers the loads. *)
Definition load (n : nat) (w : World) : Result (option Group) ReconcileError :=
  if negb (w_open w) then Ok None else if rn_load_fails rn n then Err LoadFailed else Ok (w_groups w !! c).

Definition set_group (g : option Group) (w : World) : World := mkWorld (w_open w) (partial_alter (fun _ => g) c (w_groups w)) (w_main w) (w_log w).

(** [added_user_id] and [added_device_ids]. *)
Definition added_fields (l : list Pair) : option string * option string :=
  match l with
  | [] => (None, None)
  | p :: _ => (Some p.1, Some (String.concat "," (map snd l)))
  end.

Definition welcomes_for (l : list Pair) (data : ReconcileCommitData) : list WelcomeBody :=
  match welcome_bytes data with
  | Some b => map (fun p => mkWelcomeBody p.1 p.2 (b64_encode b)) l
  | None => []
  end.

Definition submit_body (actor : string) (o : ReconcileOutcome) (data : ReconcileCommitData) : SubmitBody :=
  let '(au, ad) := added_fields (added o) in
  mkSubmitBody c (u64_to_i64 (epoch_before o)) actor (b64_encode (commit_bytes data)) au ad (b64_encode <$> group_info_bytes data) (welcomes_for (added o) data).

(** [delivery::submit_commit]: 200 is a win, 409 a lost race, anything else an error. *)
Definition submit_commit_seam (body : SubmitBody) (w : World) : World * SubmitOutcome :=
  match rn_submit rn with
  | None => (w, Client.Failed)
  | Some (authed, fault, now, ulid) =>
      let '(log, response) := submit fault now ulid (main_of (w_main w)) (w_log w) authed (Some body) in
      (mkWorld (w_open w) (w_groups w) (w_main w) log,
       if rn_answer_lost rn then Client.Failed
       else match response with
            | SubmitReply (Accepted _) => Committed
            | SubmitReply (Rejected _ _) => LostRace
            | _ => Client.Failed
            end)
  end.

Definition our_commit_is_canonical (epoch : Z) (ours : bytes) (log : LogDb) : bool :=
  match resolve LostRace ours (if rn_log_unread rn then None else fetch_commit_at_epoch log c epoch) with Adopt => true | Rollback => false end.

(** The won commit is merged; the load and the merge may fail. *)
Definition finalize_won_commit (w : World) : World * Result unit ReconcileError :=
  if negb (w_open w) then (w, Ok tt)
  else match load 2 w with
       | Err e => (w, Err e)
       | Ok None => (w, Err LoadFailed)
       | Ok (Some g) => if rn_merge_fails rn 1 then (w, Err MergeFailed) else (set_group (Some (merge_pending_commit g)) w, Ok tt)
       end.

Definition clear_pending_best_effort (w : World) : World :=
  match load 2 w with
  | Ok (Some g) => if rn_clear_fails rn then w else set_group (Some (clear_pending_commit g)) w
  | _ => w
  end.

(** Submitting the staged commit and settling it. *)
Definition settle_commit (actor : string) (o : ReconcileOutcome) (data : ReconcileCommitData) (w : World)
    : World * Result ReconcileOutcome ReconcileError :=
  let '(w, submitted) := submit_commit_seam (submit_body actor o data) w in
  let canonical := our_commit_is_canonical (u64_to_i64 (epoch_before o)) (commit_bytes data) (w_log w) in
  if match submitted with Committed => true | _ => canonical end then
    let '(w, r) := finalize_won_commit w in (w, let? _ := r in Ok o)
  else
    let w := clear_pending_best_effort w in
    match submitted with
    | LostRace => (set_group (rn_converge rn (w_groups w !! c)) w, Ok outcome_default)
    | _ => (w, Err SubmitFailed)
    end.

(** Reading, claiming and staging: what is staged, the tree before, and the world. *)
Definition prepare_commit (actor : string) (w : World)
    : World * Result (option (gset Pair * ReconcileOutcome * option ReconcileCommitData)) ReconcileError :=
  match (let? roster := read 0 (roster_of (w_main w) c) in
         let? pairs := read 1 (device_pairs (w_main w) roster) in
         let? valid := read 2 (valid_devices (w_main w) roster) in
         Ok (roster, pairs, valid)) with
  | Err e => (w, Err e)
  | Ok (roster, pairs, valid) =>
      match load 0 w with
      | Err _ | Ok None => (w, Ok None)
      | Ok (Some g) =>
          let already := tree_devices g in
          let '(db, claimed) := claim_all 0 (List.filter (fun p => negb (bool_decide (p ∈ already))) pairs) (w_main w) in
          let w := mkWorld (w_open w) (w_groups w) db (w_log w) in
          match (let? tuples := claimed in let? group := load 1 w in Ok (tuples, group)) with
          | Err e => (w, Err e)
          | Ok (_, None) => (w, Ok None)
          | Ok (tuples, Some g) =>
              if negb (group_signer g) then (w, Err NoSigner)
              else if rn_merge_fails rn 0 then (w, Err MergeFailed)
              else
                let g := merge_pending_commit g in
                let w := set_group (Some g) w in
                let '(g, staged) := reconcile_group_mls_core_staged g roster (validate_kps tuples) (actor, default "" (rn_device rn)) (Some valid) in
                let w := set_group (Some g) w in
                match staged with
                | None => (w, Err BuildFailed)
                | Some (o, data) => (w, Ok (Some (already, o, data)))
                end
          end
      end
  end.

(** The announcement of a commit that changed the roster. *)
Definition announcement (already : gset Pair) (o : ReconcileOutcome) : option RosterChanged :=
  if (epoch_before o <? epoch_after o)%N && (negb (bool_decide (added o = [])) || negb (bool_decide (removed o = [])))
  then Some (roster_changed c already o) else None.

Definition reconcile_group_mls_impl (actor : string) (w : World) : World * Result (ReconcileOutcome * option RosterChanged) ReconcileError :=
  let '(w, prepared) := prepare_commit actor w in
  match prepared with
  | Err e => (w, Err e)
  | Ok None => (w, Ok (outcome_default, None))
  | Ok (Some (already, o, None)) => (w, Ok (o, announcement already o))
  | Ok (Some (already, o, Some data)) =>
      let '(w, r) := settle_commit actor o data w in
      (w, let? o := r in Ok (o, announcement already o))
  end.

(** ** sweep.rs *)

Definition local_tree_has_stale_leaf (w : World) : Result bool ReconcileError :=
  match load 0 w with
  | Err _ | Ok None => Ok false
  | Ok (Some g) =>
      if bool_decide (tree_devices g = ∅) then Ok false
      else
        let? roster := read 0 (roster_of (w_main w) c) in
        let? valid := read 1 (valid_devices (w_main w) roster) in
        Ok (existsb (fun p : Pair => negb (bool_decide (p.1 ∈ roster)) || negb (bool_decide (p ∈ valid))) (elements (tree_devices g)))
  end.
End Impl.

(** ** auth.rs: revoke_device *)

Section Revoke.
Context `{MlsTree} `{!Base64} `{!CharClass}.

(** A reconcile, with [rn'], only for a stale leaf. *)
Definition reconcile_backstop (rn rn' : Run) (c user : string) (w : World) : World * Result unit ReconcileError :=
  match local_tree_has_stale_leaf rn c w with
  | Err e => (w, Err e)
  | Ok false => (w, Ok tt)
  | Ok true => let '(w, r) := reconcile_group_mls_impl rn' c user w in (w, let? _ := r in Ok tt)
  end.

Definition conversations_of (user : string) (db : MsgDb) : list string :=
  omap (fun '((g, u), _) => if bool_decide (u = user) then Some g else None) (map_to_list (Tables.group_members db)) ++
  omap (fun '((d, u), _) => if bool_decide (u = user) then Some d else None) (map_to_list (dm_members db)).

(** Each conversation in turn, failures only logged; [runs i] is what the [i]-th meets. *)
Fixpoint reconcile_each (runs : nat -> Run) (i : nat) (user : string) (cs : list string) (w : World) : World :=
  match cs with
  | [] => w
  | c :: cs' => reconcile_each runs (S i) user cs' (reconcile_group_mls_impl (runs i) c user w).1
  end.

Inductive RevokeError := CurrentDevice | RevokeReadFailed | NotYours | RevokeRefused.

(** [request]: whom the service takes the request for and its statements, if it arrives. *)
Definition revoke_device (runs : nat -> Run) (current : option string) (read_fails : nat -> bool) (request : option (string * SqlEnv)) (lost : bool)
    (user device : string) (w : World) : World * Result unit RevokeError :=
  if bool_decide (current = Some device) then (w, Err CurrentDevice)
  else if read_fails 0 then (w, Err RevokeReadFailed)
  else if negb (existsb (fun d => bool_decide (dev_id d = device) && bool_decide (dev_user d = user)) (devices (w_main w))) then (w, Err NotYours)
  else
    match request with
    | None => (w, Err RevokeRefused)
    | Some (signer, env) =>
        let '(db, r) := run_sql (AccountRoutes.apply_revoke_device env (Some signer) (AccountRoutes.mkRevokeDevice device None)) (w_main w) in
        let w := mkWorld (w_open w) (w_groups w) db (w_log w) in
        match r with
        | Ok Applied =>
            if lost then (w, Err RevokeRefused)
            else if read_fails 1 then (w, Err RevokeReadFailed)
            else (reconcile_each runs 0 user (conversations_of user db) w, Ok tt)
        | _ => (w, Err RevokeRefused)
        end
    end.

(** The check a device makes when told that one of its user's was revoked. *)
Definition is_current_device_registered (read_fails : bool) (current : option string) (user : string) (db : MsgDb) : Result bool RevokeError :=
  match current with
  | None => Ok true
  | Some d => if read_fails then Err RevokeReadFailed else Ok (existsb (fun r => bool_decide (dev_user r = user) && bool_decide (dev_id r = d)) (devices db))
  end.
End Revoke.

(** ** group_state.rs: the devices of a commit, as its readers check them *)

(** [added_device_ids] of a row: split at commas, trimmed, empty ones dropped. *)
Definition parse_ids (csv : string) : list string :=
  List.filter (fun d => negb (bool_decide (d = ""))) (map (fun b => trim (of_bytes b)) (split_on x2c (as_bytes csv))).

Definition added_ids (r : CommitRec) : list string := match rec_added_device_ids r with Some csv => parse_ids csv | None => [] end.

(** A failed check is taken for an absent row. *)
Definition verify_row `{Ed25519} (rm : Remote) (db : MsgDb) (r : CommitRec) : VerifyOutcome :=
  match rec_added_user_id r with
  | Some u => match verify_added_devices rm u (added_ids r) db with Ok o => o | Err _ => AbsentRetry end
  | None => Verified
  end.

(** ** The tree after a reconcile *)

Lemma fold_insert_elem {A K V} `{Countable K} (f : A -> K) (h : A -> V) (l : list A) (m : gmap K V) k v : NoDup (map f l) ->
  (fold_left (fun m x => <[f x := h x]> m) l m !! k = Some v <-> (exists x, x ∈ l /\ f x = k /\ h x = v) \/ k ∉ map f l /\ m !! k = Some v).
Proof.
  revert m. induction l as [|a l IH]; intros m Hnd; [cbn; set_solver|]. cbn [map] in Hnd. apply NoDup_cons in Hnd as [Ha Hnd]. cbn [fold_left map].
  rewrite IH by done. destruct (decide (f a = k)) as [<-|Hk].
  - rewrite lookup_insert_eq, not_elem_of_cons. split.
    + intros [(x & Hx & Hf & Hh)|[_ [= <-]]]; left; [exists x|exists a]; set_solver.
    + intros [(x & [->|Hx]%elem_of_cons & Hf & Hh)|[[? _] _]]; [right; by subst| |done]. exfalso. apply Ha. rewrite <- Hf. apply list_elem_of_In, in_map, list_elem_of_In, Hx.
  - rewrite lookup_insert_ne by done. rewrite not_elem_of_cons. split.
    + intros [(x & Hx & Hf & Hh)|[Hn Hm]]; [left; exists x; set_solver|right; split; [split; [congruence|done]|done]].
    + intros [(x & [->|Hx]%elem_of_cons & Hf & Hh)|[[_ Hn] Hm]]; [done|left; by exists x|by right].
Qed.

Section Tree.
Context `{MlsTree, !MlsTreeLaws}.

(** The devices of the leaves. *)
Definition leaves (g : Group) : list Pair := map (fun m => leaf_device m.2) (group_members g).

Lemma elem_leaves g k : k ∈ leaves g <-> exists i cred, (i, cred) ∈ group_members g /\ leaf_device cred = k.
Proof.
  unfold leaves. rewrite list_elem_of_In, in_map_iff. split.
  - intros ([i cred] & <- & Hin). exists i, cred. by rewrite list_elem_of_In.
  - intros (i & cred & Hin & <-). exists (i, cred). by rewrite <- list_elem_of_In.
Qed.

Lemma actual_lookup g k i : NoDup (leaves g) -> (actual g !! k = Some i <-> exists cred, (i, cred) ∈ group_members g /\ leaf_device cred = k).
Proof.
  intros Hnd. unfold actual. rewrite (fold_insert_elem (fun l : N * bytes => leaf_device l.2) fst) by done. rewrite lookup_empty. split.
  - intros [([i' cred] & Hin & <- & <-)|[_ ?]]; [|done]. by exists cred.
  - intros (cred & Hin & <-). left. by exists (i, cred).
Qed.

Lemma dom_actual g k : NoDup (leaves g) -> (k ∈ dom (actual g) <-> k ∈ leaves g).
Proof.
  intros Hnd. rewrite elem_of_dom, elem_leaves. split.
  - intros [i Hi]. apply actual_lookup in Hi as (cred & ? & ?); [|done]. by exists i, cred.
  - intros (i & cred & Hin & Hk). exists i. apply actual_lookup; [done|]. by exists cred.
Qed.

(** One device has one index. *)
Lemma same_leaf g i i' cred cred' : NoDup (leaves g) -> (i, cred) ∈ group_members g -> (i', cred') ∈ group_members g ->
  (i = i' <-> leaf_device cred = leaf_device cred').
Proof.
  intros Hnd H1 H2. split.
  - intros ->. pose proof (indices_unique g) as Hi. enough (cred = cred') as -> by done.
    apply list_elem_of_lookup in H1 as [n H1], H2 as [n' H2].
    assert (n = n') as ->. { eapply NoDup_lookup; [exact Hi|..]; rewrite list_lookup_fmap; [by rewrite H1|by rewrite H2]. } congruence.
  - intros E. assert (actual g !! leaf_device cred = Some i) as Ha by (apply actual_lookup; eauto).
    assert (actual g !! leaf_device cred = Some i') as Hb by (apply actual_lookup; eauto). congruence.
Qed.

Section Result.
Context (g : Group) (roster : gset string) (kps : list (Pair * KeyPackage)) (actor : Pair) (valid : option (gset Pair)).
Context (Hnd : NoDup (leaves g)) (Hkps : Forall (fun kp => leaf_device (kp_credential kp.2) = kp.1) kps).

Definition stays (k : Pair) : Prop := k ∈ map fst kps \/ kept_member roster valid k = true \/ k = actor.

#[export] Instance stays_dec k : Decision (stays k).
Proof. unfold stays. apply _. Defined.

Lemma elem_desired k : k ∈ desired roster kps valid (actual g) <-> k ∈ map fst kps \/ k ∈ leaves g /\ kept_member roster valid k = true.
Proof. unfold desired. rewrite elem_of_union, elem_of_list_to_set, elem_of_filter, dom_actual by done. tauto. Qed.

Definition to_remove_of : list (Pair * N) :=
  let rm := List.filter (fun kv : Pair * N => negb (bool_decide (kv.1 ∈ desired roster kps valid (actual g)))) (map_to_list (actual g)) in
  if existsb (fun kv : Pair * N => bool_decide (kv.1 = actor)) rm then List.filter (fun kv : Pair * N => negb (bool_decide (kv.1 = actor))) rm else rm.

Lemma elem_to_remove k i : (k, i) ∈ to_remove_of <-> actual g !! k = Some i /\ ~ stays k.
Proof.
  unfold to_remove_of, stays. set (rm := List.filter _ _).
  assert (forall k i, (k, i) ∈ rm <-> actual g !! k = Some i /\ ~ (k ∈ map fst kps \/ kept_member roster valid k = true)) as Hrm.
  { intros k' i'. unfold rm. rewrite list_elem_of_In, filter_In, <- list_elem_of_In, elem_of_map_to_list. cbn [fst].
    rewrite negb_true_iff, bool_decide_eq_false, elem_desired. split; intros [Ha Hn]; (split; [done|]).
    - intros [Hk|Hk]; [auto|]. apply Hn. right. split; [|done]. apply dom_actual; [done|]. by apply elem_of_dom_2 in Ha.
    - naive_solver. }
  destruct (existsb _ rm) eqn:Ex.
  - rewrite list_elem_of_In, filter_In, <- list_elem_of_In, Hrm. cbn [fst]. rewrite negb_true_iff, bool_decide_eq_false. tauto.
  - rewrite Hrm. split; [|tauto]. intros [Ha Hn]. split; [done|]. intros [Hk|[Hk| ->]]; [tauto..|].
    apply not_true_iff_false in Ex. apply Ex, existsb_exists. exists (actor, i). split; [|by apply bool_decide_eq_true_2].
    apply list_elem_of_In, Hrm. done.
Qed.

Definition add_kps_of : list (Pair * KeyPackage) := List.filter (fun kp => bool_decide (kp.1 ∈ desired roster kps valid (actual g) ∖ dom (actual g))) kps.

Lemma elem_add_kps kp : kp ∈ add_kps_of <-> kp ∈ kps /\ kp.1 ∉ leaves g.
Proof.
  unfold add_kps_of. rewrite list_elem_of_In, filter_In, <- list_elem_of_In, bool_decide_eq_true, elem_of_difference, elem_desired, dom_actual by done.
  split; [tauto|]. intros [Hin Hn]. split_and!; [done| |done]. left. by apply list_elem_of_In, in_map, list_elem_of_In.
Qed.

(** The leaves left by the removals, and the new ones. *)
Lemma remaining_leaves k :
  k ∈ map leaf_device (map snd (List.filter (fun m : N * bytes => negb (bool_decide (m.1 ∈ map snd to_remove_of))) (group_members g)) ++ map kp_credential (map snd add_kps_of)) <->
  k ∈ leaves g /\ stays k \/ k ∉ leaves g /\ k ∈ map fst kps.
Proof.
  rewrite map_app, elem_of_app, !map_map. apply Morphisms_Prop.or_iff_morphism.
  - rewrite list_elem_of_In, in_map_iff, elem_leaves. split.
    + intros ([i cred] & <- & [Hin Hn]%filter_In). apply list_elem_of_In in Hin. cbn [fst snd] in *.
      split; [by exists i, cred|]. apply negb_true_iff, bool_decide_eq_false in Hn. destruct (decide (stays (leaf_device cred))) as [|Hs]; [done|].
      exfalso. apply Hn, list_elem_of_In, in_map_iff. exists (leaf_device cred, i). split; [done|]. apply list_elem_of_In, elem_to_remove.
      split; [|done]. apply actual_lookup; [done|]. by exists cred.
    + intros [(i & cred & Hin & <-) Hs]. exists (i, cred). split; [done|]. apply filter_In. split; [by apply list_elem_of_In|]. cbn [fst].
      apply negb_true_iff, bool_decide_eq_false. intros Hrm. apply list_elem_of_In, in_map_iff in Hrm as ([k' i'] & Hi & Hrm). cbn [snd] in Hi. subst i'.
      apply list_elem_of_In, elem_to_remove in Hrm as [Ha Hns]. apply actual_lookup in Ha as (cred' & Hin' & <-); [|done].
      apply Hns. by rewrite <- (proj1 (same_leaf g i i cred cred' Hnd Hin Hin') eq_refl).
  - rewrite list_elem_of_In, in_map_iff. rewrite Forall_forall in Hkps. split.
    + intros ([p kp] & Hk & Hin%list_elem_of_In%elem_add_kps). destruct Hin as [Hin Hn]. pose proof (Hkps _ Hin) as Hp. cbn [snd fst] in *. rewrite Hp in Hk. subst p.
      split; [done|]. apply list_elem_of_In, in_map_iff. exists (k, kp). split; [done|by apply list_elem_of_In].
    + intros [Hn Hin]. apply list_elem_of_In, in_map_iff in Hin as ([p kp] & <- & Hin%list_elem_of_In). exists (p, kp). cbn [fst snd] in *.
      split; [exact (Hkps _ Hin)|]. apply list_elem_of_In, elem_add_kps. done.
Qed.

(** The core is these two lists, staged. *)
Lemma core_staged_unfold : reconcile_group_mls_core_staged g roster kps actor valid =
  match to_remove_of, add_kps_of with
  | [], [] => (g, Some (mkOutcome [] [] (group_epoch g) (group_epoch g) (existsb (fun kv : Pair * N => bool_decide (kv.1 = actor))
      (List.filter (fun kv : Pair * N => negb (bool_decide (kv.1 ∈ desired roster kps valid (actual g)))) (map_to_list (actual g)))), None))
  | _, _ =>
      match stage_commit g (map snd to_remove_of) (map snd add_kps_of) with
      | None => (g, None)
      | Some (g', None) => (g', None)
      | Some (g', Some data) =>
          (g', Some (mkOutcome (map fst add_kps_of) (map fst to_remove_of) (group_epoch g) (group_epoch g + 1)
            (existsb (fun kv : Pair * N => bool_decide (kv.1 = actor))
              (List.filter (fun kv : Pair * N => negb (bool_decide (kv.1 ∈ desired roster kps valid (actual g)))) (map_to_list (actual g)))), Some data))
      end
  end.
Proof. done. Qed.

(** What was staged: nothing, and the tree is as wanted, or a commit that makes it so. *)
Lemma core_staged_cases g' o data : reconcile_group_mls_core_staged g roster kps actor valid = (g', Some (o, data)) ->
  epoch_before o = group_epoch g /\
  (forall k, k ∈ removed o <-> k ∈ leaves g /\ ~ stays k) /\ (forall k, k ∈ added o <-> k ∉ leaves g /\ k ∈ map fst kps) /\
  match data with
  | None => g' = g /\ epoch_after o = group_epoch g /\ added o = [] /\ removed o = []
  | Some d => exists rm ks, stage_commit g rm ks = Some (g', Some d) /\ epoch_after o = (group_epoch g + 1)%N /\
      forall k, k ∈ leaves (merge_pending_commit g') <-> k ∈ leaves g /\ stays k \/ k ∉ leaves g /\ k ∈ map fst kps
  end.
Proof.
  rewrite core_staged_unfold. intros Hs.
  assert (forall k, k ∈ map fst to_remove_of <-> k ∈ leaves g /\ ~ stays k) as Hr.
  { intros k. rewrite list_elem_of_In, in_map_iff, <- (dom_actual g k Hnd), elem_of_dom. split.
    - intros ([k' i] & <- & Hin%list_elem_of_In%elem_to_remove). destruct Hin as [Ha Hn]. split; [by eexists|done].
    - intros [[i Ha] Hn]. exists (k, i). split; [done|]. by apply list_elem_of_In, elem_to_remove. }
  assert (forall k, k ∈ map fst add_kps_of <-> k ∉ leaves g /\ k ∈ map fst kps) as Ha.
  { intros k. rewrite (list_elem_of_In (map fst add_kps_of)), (list_elem_of_In (map fst kps)), !in_map_iff. split.
    - intros ([k' kp] & <- & Hin%list_elem_of_In%elem_add_kps). destruct Hin as [Hin Hn]. split; [done|]. exists (k', kp). by rewrite <- list_elem_of_In.
    - intros [Hn ([k' kp] & <- & Hin)]. exists (k', kp). split; [done|]. apply list_elem_of_In, elem_add_kps. by rewrite list_elem_of_In. }
  assert (to_remove_of = [] /\ add_kps_of = [] /\ data = None /\ g' = g /\ epoch_before o = group_epoch g /\ epoch_after o = group_epoch g /\ added o = [] /\ removed o = [] \/
    exists d, data = Some d /\ stage_commit g (map snd to_remove_of) (map snd add_kps_of) = Some (g', Some d) /\ epoch_before o = group_epoch g /\
      epoch_after o = (group_epoch g + 1)%N /\ added o = map fst add_kps_of /\ removed o = map fst to_remove_of) as [H1|H1].
  { revert Hs. clear. destruct to_remove_of as [|x rm], add_kps_of as [|y ks]; intros Hs; [injection Hs as <- <- <-; left; split_and!; reflexivity|..];
      (destruct (stage_commit _ _ _) as [[gs [d|]]|]; [|done..]; injection Hs as <- <- <-; right; exists d; split_and!; reflexivity). }
  - destruct H1 as (Er & Ea & -> & -> & Eb & Ee & Eo & Eo'). rewrite Er in Hr. rewrite Ea in Ha. rewrite Eo, Eo'. split_and!; done.
  - destruct H1 as (d & -> & Est & Eb & Ee & -> & ->). split_and!; [done|done|done|]. eexists _, _. split; [exact Est|]. split; [done|].
    intros k. destruct (merged_next _ _ _ _ _ Est) as [_ Hp]. rewrite <- remaining_leaves. unfold leaves.
    rewrite <- (map_map snd leaf_device). by rewrite (Permutation_map leaf_device Hp).
Qed.

(** The tree, the report and the epoch. *)
Lemma core_tree (g' : Group) (o : ReconcileOutcome) (data : option ReconcileCommitData) :
  reconcile_group_mls_core g roster kps actor valid = (g', Some (o, data)) ->
  (forall k, k ∈ leaves g' <-> k ∈ map fst kps \/ k ∈ leaves g /\ (kept_member roster valid k = true \/ k = actor)) /\
  (forall k, k ∈ removed o <-> k ∈ leaves g /\ k ∉ leaves g') /\ (forall k, k ∈ added o <-> k ∉ leaves g /\ k ∈ leaves g') /\
  epoch_before o = group_epoch g /\ epoch_after o = group_epoch g' /\
  match data with Some _ => group_epoch g' = (group_epoch g + 1)%N | None => g' = g end.
Proof.
  unfold reconcile_group_mls_core. intros Hc. destruct (reconcile_group_mls_core_staged _ _ _ _ _) as [gs [[os d]|]] eqn:Es; [|done].
  apply core_staged_cases in Es as (Hb & Hr & Ha & Hd). unfold stays in *. destruct d as [d|].
  - injection Hc as <- <- <-. destruct Hd as (rm & ks & Est & He & Hl). destruct (merged_next _ _ _ _ _ Est) as [Hep _].
    cbn [removed added epoch_before epoch_after]. setoid_rewrite Hl. setoid_rewrite Hr. setoid_rewrite Ha.
    split_and!; [|..|done|done|done]; intros k; destruct (decide (k ∈ leaves g)); tauto.
  - injection Hc as <- <- <-. destruct Hd as (-> & He & Ea & Er). rewrite Ea, Er in *.
    assert (forall k, ~ (k ∈ leaves g /\ ~ (k ∈ map fst kps \/ kept_member roster valid k = true \/ k = actor))) as H1 by (intros k; rewrite <- Hr; apply not_elem_of_nil).
    assert (forall k, ~ (k ∉ leaves g /\ k ∈ map fst kps)) as H2 by (intros k; rewrite <- Ha; apply not_elem_of_nil).
    split_and!; [|..|done|congruence|done]; intros k; specialize (H1 k); specialize (H2 k).
    + destruct (decide (k ∈ leaves g)), (decide (stays k)); unfold stays in *; tauto.
    + split; [by intros ?%elem_of_nil|tauto].
    + split; [by intros ?%elem_of_nil|tauto].
Qed.

(** C19: a reconcile makes the tree the roster's.  When every device has one leaf and the key packages
    name their devices, after a reconcile the leaves are exactly the devices a package was
    available for, and of the devices that were there those whose user is in the roster and
    whose row is known, and the committer's own; the devices it reports as removed and added are
    those that are gone and new; the epoch moves on by one, or nothing changed. *)
Theorem core_tree_exact (g' : Group) (o : ReconcileOutcome) (data : option ReconcileCommitData) :
  reconcile_group_mls_core g roster kps actor valid = (g', Some (o, data)) ->
  (forall k, k ∈ leaves g' <-> k ∈ map fst kps \/ k ∈ leaves g /\ (kept_member roster valid k = true \/ k = actor)) /\
  (forall k, k ∈ removed o <-> k ∈ leaves g /\ k ∉ leaves g') /\ (forall k, k ∈ added o <-> k ∉ leaves g /\ k ∈ leaves g') /\
  epoch_before o = group_epoch g /\ epoch_after o = group_epoch g' /\
  match data with Some _ => group_epoch g' = (group_epoch g + 1)%N | None => g' = g end.
Proof. apply core_tree. Qed.
End Result.
End Tree.

(** ** The log after a submission *)

(** With honest reports the prune after an accepted commit keeps its row. *)
Lemma submit_accepted_row `{Base64} fault now ulid main db authed body data e db' :
  log_inv db -> reports_ok db -> (based_on_epoch body + 1 < 2 ^ 63)%Z -> b64_decode (commit body) = Ok data ->
  submit fault now ulid main db authed (Some body) = (db', SubmitReply (Accepted e)) ->
  fetch_commit_at_epoch db' (conversation_id body) (based_on_epoch body) = Some data.
Proof.
  intros Hi Hrep Hb Hd. unfold submit. destruct (match authed with Some _ => _ | None => _ end) as [[]|]; [|done..].
  unfold exec. destruct (fault StLogConn); [done|]. pose proof (submit_commit_cases fault now ulid db body Hi) as Hs.
  destruct (submit_commit fault now ulid db body) as [db1 [[e1|h m]|er]]; [|done..]. intros [= <- _].
  destruct Hs as (data' & tx & Hd' & -> & Hh & -> & Hsl). rewrite Hd in Hd'. injection Hd' as <-.
  set (c := conversation_id body) in *. set (ep := based_on_epoch body) in *. set (tx := mkLogDb _ _ _ _ _) in Hsl.
  destruct (gapless_insert db body data now (inv_gapless _ Hi) Hh ltac:(lia)) as (Hg & Hhd & Hrow & Hother). fold c tx in Hg, Hhd, Hrow, Hother.
  assert (log_inv db1) as Hi1 by (eapply log_inv_same, log_inv_insert; [exact Hsl|done|done|lia]).
  assert (head db1 c = ep + 1)%Z as Hh1 by (rewrite (conv_rows_head tx db1 c) by (by apply same_log_conv_rows); lia).
  assert (reports_ok db1) as Hr1.
  { unfold reports_ok in *. destruct Hsl as (El & -> & _). eapply Forall_impl; [exact Hrep|]. intros r Hr. cbv beta in *.
    rewrite (conv_rows_head tx db1) by (unfold conv_rows; by rewrite El).
    destruct (decide (sin_conversation_id r = c)) as [Ec|Hne]; [rewrite Ec in *; lia|by rewrite (conv_rows_head db tx) by (by apply Hother)]. }
  assert (exists f, best_effort_prune fault main db1 c = pruned db1 c f /\ (f <= ep)%Z) as (f & -> & Hf).
  { pose proof (head_nonneg db c (inv_gapless _ Hi)) as Hn. unfold best_effort_prune. destruct (fault StPruneConn); [exists 0%Z; rewrite pruned_zero by done; split; [done|lia]|].
    pose proof (prune_commit_log_spec fault main db1 c Hi1 ltac:(lia)) as Hp. pose proof (honest_floor main db1 c Hi1 ltac:(lia) Hr1) as Hfl.
    destruct (prune_commit_log fault main db1 c) as [db2 [r|er]]; cbn [fst].
    - destruct Hp as [-> _]. eexists. split; [done|]. lia.
    - subst db2. exists 0%Z. rewrite pruned_zero by done. split; [done|lia]. }
  unfold fetch_commit_at_epoch. rewrite pruned_rows, bool_decide_eq_true_2, (same_log_conv_rows _ _ _ Hsl), Hrow, List.filter_app by done.
  cbn [List.filter]. destruct (Z.ltb_spec (rec_epoch (new_row db body data now)) f) as [Hlt|_]; [cbn in Hlt; fold ep in Hlt; lia|]. cbn [negb].
  rewrite find_snoc; [done| |apply Z.eqb_refl]. intros y [Hy _]%list_elem_of_In%filter_In. apply list_elem_of_In in Hy.
  pose proof (epoch_below_head _ _ _ (inv_gapless _ Hi) Hy). apply Z.eqb_neq. lia.
Qed.

(** ** What a run leaves alone *)

Definition device_rows (db : MsgDb) : list Pair := map (fun d => (dev_user d, dev_id d)) (devices db).

Definition same_roster (db db' : MsgDb) : Prop :=
  Tables.group_members db' = Tables.group_members db /\ invites db' = invites db /\ dm_members db' = dm_members db /\ device_rows db' = device_rows db.

#[global] Instance same_roster_preorder : PreOrder same_roster.
Proof. split; unfold same_roster; [done|]. by intros x y z (-> & -> & -> & ->) (-> & -> & -> & ->). Qed.

Lemma roster_of_same c db db' : same_roster db db' -> roster_of db' c = roster_of db c.
Proof. intros (E1 & E2 & E3 & _). unfold roster_of. by rewrite E1, E2, E3. Qed.

Lemma elem_valid_devices `{CharClass} db roster p : p ∈ valid_devices db roster <-> asked roster p.1 = true /\ p ∈ device_rows db.
Proof.
  unfold valid_devices, device_rows. rewrite elem_of_list_to_set, list_elem_of_omap, list_elem_of_In, in_map_iff. split.
  - intros (d & Hd & E). destruct (asked roster (dev_user d)) eqn:Ea; [|done]. injection E as <-. split; [done|]. exists d. by rewrite <- list_elem_of_In.
  - intros [Ha (d & <- & Hd)]. exists d. rewrite list_elem_of_In. split; [done|]. cbn [fst] in Ha. by rewrite Ha.
Qed.

Definition same_devices (db db' : MsgDb) : Prop := same_roster db db' /\ devices db' = devices db.

Lemma claim_same_devices env b db : same_devices db (run_sql (AccountRoutes.apply_claim_key_package env b) db).1.
Proof.
  assert (wp (AccountRoutes.apply_claim_key_package env b) db (fun _ db' => same_devices db db')) as Hw.
  { unfold AccountRoutes.apply_claim_key_package. wp_step; wp_step; [done|]. apply wp_ret.
    match goal with E : AccountRoutes.claim_statement _ _ = Some _ |- _ => unfold AccountRoutes.claim_statement in E; destruct (AccountRoutes.oldest _); injection E as <- <- end; done. }
  exact (Hw 0).
Qed.

(** A revocation marks the row and keeps it. *)
Lemma revoke_effect env u d db : let '(db', r) := run_sql (AccountRoutes.apply_revoke_device env (Some u) (AccountRoutes.mkRevokeDevice d None)) db in
  same_roster db db' /\ (r = Ok Applied -> (u, d) ∈ device_rows db -> exists x, x ∈ devices db' /\ dev_user x = u /\ dev_id x = d /\ revoked_at x <> None).
Proof.
  assert (wp (AccountRoutes.apply_revoke_device env (Some u) (AccountRoutes.mkRevokeDevice d None)) db (fun r db' =>
    same_roster db db' /\ (r = Ok Applied -> (u, d) ∈ device_rows db -> exists x, x ∈ devices db' /\ dev_user x = u /\ dev_id x = d /\ revoked_at x <> None))) as Hw; [|exact (Hw 0)].
  unfold AccountRoutes.apply_revoke_device. apply wp_as_actor; [done|]. apply wp_transaction; [by intros e|].
  apply wp_bind, wp_write; [done|]. intros db1 [= <-]. apply wp_bind, wp_write; [done|]. intros db2 [= <-]. apply wp_ret.
  set (mark := fun x : DeviceRec => if AccountRoutes.owned u d x && bool_decide (revoked_at x = None) then mkDeviceRec (dev_id x) (dev_user x) (Some (datetime_now env)) (mls_signature_pub x) else x).
  assert (forall x, (dev_user (mark x), dev_id (mark x)) = (dev_user x, dev_id x)) as Hm by (intros x; unfold mark; by destruct (_ && _)).
  split.
  - split_and!; [done..|]. unfold device_rows. cbn. rewrite map_map. apply map_ext, Hm.
  - intros _ Hin. unfold device_rows in Hin. apply list_elem_of_In, in_map_iff in Hin as (x & [= <- <-] & Hx).
    exists (mark x). split; [cbn; by apply list_elem_of_In, in_map|]. pose proof (Hm x) as [= -> ->]. split_and!; [done..|].
    unfold mark, AccountRoutes.owned. rewrite (bool_decide_eq_true_2 (dev_id x = dev_id x)), (bool_decide_eq_true_2 (dev_user x = dev_user x)) by done.
    cbn [andb]. by case_bool_decide.
Qed.

Section RunSpecs.
Context `{MlsTree, !Base64, !CharClass} (rn : Run) (c : string).

(** Everything but this conversation's group and the log. *)
Definition elsewhere (w w' : World) : Prop :=
  w_open w' = w_open w /\ (forall c', c' <> c -> w_groups w' !! c' = w_groups w !! c') /\ same_roster (w_main w) (w_main w') /\ devices (w_main w') = devices (w_main w).

#[local] Instance elsewhere_preorder : PreOrder elsewhere.
Proof.
  split; [by intros x; split_and!; try done; reflexivity|]. intros x y z (O1 & G1 & M1 & D1) (O2 & G2 & M2 & D2). split_and!; [congruence| |by etransitivity|congruence].
  intros c' Hc. by rewrite G2, G1.
Qed.

Lemma elsewhere_set g w : elsewhere w (set_group c g w).
Proof. split_and!; [done| |cbn; reflexivity|done]. intros c' Hc. cbn. by apply lookup_partial_alter_ne. Qed.

Lemma set_group_lookup g w : w_groups (set_group c g w) !! c = g.
Proof. apply lookup_partial_alter_eq. Qed.

Lemma claim_all_same n l db : same_devices db (claim_all rn n l db).1.
Proof.
  revert n db. induction l as [|p l IH]; intros n db; cbn [claim_all]; [done|].
  assert (same_devices db (ds_claim_key_package rn n p.1 p.2 db).1) as Hc.
  { unfold ds_claim_key_package. destruct (rn_claims rn n) as [env|]; [|done].
    pose proof (claim_same_devices env (AccountRoutes.mkClaimKeyPackage p.1 (Some p.2)) db) as Hs. by destruct (run_sql _ db). }
  destruct (ds_claim_key_package rn n p.1 p.2 db) as [db1 [kp|e]]; [|done]. specialize (IH (S n) db1).
  destruct (claim_all rn (S n) l db1) as [db2 r]. destruct Hc as [Hc Hd], IH as [IH IHd]. split; [by etransitivity|cbn in *; congruence].
Qed.

Definition valid_now (w : World) : gset Pair := valid_devices (w_main w) (roster_of (w_main w) c).

(** Preparing leaves the log alone; it may merge a commit that was waiting, and stages one on
    top. *)
Lemma prepare_spec actor w : let '(w1, r) := prepare_commit rn c actor w in
  elsewhere w w1 /\ w_log w1 = w_log w /\
  match r with
  | Ok (Some (already, o, data)) => w_open w = true /\ exists g gs kps, w_groups w !! c = Some g /\ already = tree_devices g /\
      reconcile_group_mls_core_staged (merge_pending_commit g) (roster_of (w_main w) c) kps (actor, default "" (rn_device rn)) (Some (valid_now w)) = (gs, Some (o, data)) /\
      w_groups w1 !! c = Some gs
  | _ => w_groups w1 !! c = w_groups w !! c \/ exists g gs kps, w_groups w !! c = Some g /\
      reconcile_group_mls_core_staged (merge_pending_commit g) (roster_of (w_main w) c) kps (actor, default "" (rn_device rn)) (Some (valid_now w)) = (gs, None) /\
      w_groups w1 !! c = Some gs
  end.
Proof.
  unfold prepare_commit, read. destruct (rn_read_fails rn 0), (rn_read_fails rn 1), (rn_read_fails rn 2); cbn [rbind];
    try (split_and!; [reflexivity|done|by left]).
  unfold load. destruct (w_open w) eqn:Ho; cbn [negb]; [|split_and!; [reflexivity|done|by left]].
  destruct (rn_load_fails rn 0); [split_and!; [reflexivity|done|by left]|]. destruct (w_groups w !! c) as [g|] eqn:Eg; [|split_and!; [reflexivity|done|by left]].
  set (l := List.filter _ _). pose proof (claim_all_same 0 l (w_main w)) as Hs. destruct (claim_all rn 0 l (w_main w)) as [db claimed]. cbn [fst] in Hs.
  assert (elsewhere w (mkWorld (w_open w) (w_groups w) db (w_log w))) as He by (destruct Hs; done). rewrite Ho in He.
  destruct claimed as [tuples|e]; cbn [rbind]; [|by split_and!; [|done|left]]. cbn [w_open negb w_groups w_log w_main] in *.
  destruct (rn_load_fails rn 1); cbn [rbind]; [by split_and!; [|done|left]|]. rewrite Eg. cbn [rbind].
  destruct (group_signer g); cbn [negb]; [|by split_and!; [|done|left]]. destruct (rn_merge_fails rn 0); [by split_and!; [|done|left]|].
  destruct (reconcile_group_mls_core_staged _ _ _ _ _) as [gs [[o data]|]] eqn:Es.
  - split_and!; [etransitivity; [exact He|etransitivity; apply elsewhere_set]|done|done|]. exists g, gs, (validate_kps tuples). split_and!; [done|done|exact Es|apply set_group_lookup].
  - split_and!; [etransitivity; [exact He|etransitivity; apply elsewhere_set]|done|]. right. exists g, gs, (validate_kps tuples). split_and!; [done|exact Es|apply set_group_lookup].
Qed.

Definition landed (o : ReconcileOutcome) (data : ReconcileCommitData) (w : World) : Prop :=
  fetch_commit_at_epoch (w_log w) c (u64_to_i64 (epoch_before o)) = Some (commit_bytes data).

Definition log_ok (o : ReconcileOutcome) (w : World) : Prop := log_inv (w_log w) /\ reports_ok (w_log w) /\ (u64_to_i64 (epoch_before o) + 1 < 2 ^ 63)%Z.

Lemma canonical_landed o data log : our_commit_is_canonical rn c (u64_to_i64 (epoch_before o)) (commit_bytes data) log = true <->
  rn_log_unread rn = false /\ fetch_commit_at_epoch log c (u64_to_i64 (epoch_before o)) = Some (commit_bytes data).
Proof.
  unfold our_commit_is_canonical, resolve. destruct (rn_log_unread rn).
  - rewrite bool_decide_eq_false_2 by done. split; [done|by intros [? _]].
  - case_bool_decide; split; try done. by intros [_ ?].
Qed.

(** An acknowledged submission is in the log. *)
Lemma submit_seam_spec `{!Base64Laws} actor o data w : let '(w', s) := submit_commit_seam rn (submit_body c actor o data) w in
  elsewhere w w' /\ w_groups w' = w_groups w /\ (log_ok o w -> s = Committed -> landed o data w') /\ (rn_submit rn = None -> s = Client.Failed /\ w' = w).
Proof.
  unfold submit_commit_seam. destruct (rn_submit rn) as [[[[authed fault] now] ulid]|]; [|by split_and!; [reflexivity|..]].
  set (body := submit_body c actor o data).
  assert (conversation_id body = c /\ based_on_epoch body = u64_to_i64 (epoch_before o) /\ b64_decode (commit body) = Ok (commit_bytes data)) as (Ec & Ee & Ed).
  { unfold body, submit_body. destruct (added_fields (added o)). split_and!; [done..|]. unfold b64_decode. cbn [commit]. by rewrite b64_decode_encode. }
  destruct (submit fault now ulid _ _ _ _) as [log response] eqn:Es. split_and!; [done|done| |done].
  intros (Hi & Hr & Hb) Hc. destruct (rn_answer_lost rn); [done|]. revert Hc. repeat case_match; intros Hc; try done. subst.
  unfold landed. cbn [w_log]. rewrite <- Ec, <- Ee. rewrite <- Ee in Hb. by eapply submit_accepted_row.
Qed.

(** How a staged commit ends. *)
Inductive settled (o : ReconcileOutcome) (data : ReconcileCommitData) (w w' : World) (g : Group) : Prop :=
| EndMerged : w_groups w' !! c = Some (merge_pending_commit g) -> (log_ok o w -> landed o data w') -> settled o data w w' g
| EndStaged : w_groups w' !! c = Some g -> settled o data w w' g
| EndCleared : w_groups w' !! c = Some (clear_pending_commit g) -> settled o data w w' g
| EndConverged g0 : rn_submit rn <> None -> g0 = g \/ g0 = clear_pending_commit g -> w_groups w' !! c = rn_converge rn (Some g0) -> settled o data w w' g.

Lemma clear_spec g w : w_groups w !! c = Some g -> elsewhere w (clear_pending_best_effort rn c w) /\ w_log (clear_pending_best_effort rn c w) = w_log w /\
  exists g0, w_groups (clear_pending_best_effort rn c w) !! c = Some g0 /\ (g0 = g \/ g0 = clear_pending_commit g).
Proof.
  intros Hg. unfold clear_pending_best_effort, load. destruct (w_open w); cbn [negb]; [|split_and!; [reflexivity|done|by exists g; auto]].
  destruct (rn_load_fails rn 2); [split_and!; [reflexivity|done|by exists g; auto]|]. rewrite Hg. destruct (rn_clear_fails rn); [split_and!; [reflexivity|done|by exists g; auto]|].
  split_and!; [apply elsewhere_set|done|]. eexists. split; [apply set_group_lookup|by right].
Qed.

Lemma finalize_spec g w : w_groups w !! c = Some g -> let w' := (finalize_won_commit rn c w).1 in
  elsewhere w w' /\ w_log w' = w_log w /\ (w_groups w' !! c = Some g \/ w_groups w' !! c = Some (merge_pending_commit g)) /\
  (w_open w = true -> rn_load_fails rn 2 = false -> rn_merge_fails rn 1 = false -> w_groups w' !! c = Some (merge_pending_commit g)).
Proof.
  intros Hg. unfold finalize_won_commit, load. destruct (w_open w); cbn [negb fst]; [|split_and!; [reflexivity|done|by left|done]].
  destruct (rn_load_fails rn 2); [split_and!; [reflexivity|done|by left|done]|]. rewrite Hg. destruct (rn_merge_fails rn 1); [split_and!; [reflexivity|done|by left|done]|].
  split_and!; [apply elsewhere_set|done|right; apply set_group_lookup|]. intros _ _ _. apply set_group_lookup.
Qed.

Lemma settle_spec `{!Base64Laws} actor o data g w : w_groups w !! c = Some g -> let w' := (settle_commit rn c actor o data w).1 in
  elsewhere w w' /\ settled o data w w' g /\ (rn_submit rn = None -> w_log w' = w_log w) /\
  (w_open w = true -> rn_load_fails rn 2 = false -> rn_merge_fails rn 1 = false -> rn_log_unread rn = false -> landed o data w' ->
   w_groups w' !! c = Some (merge_pending_commit g)).
Proof.
  intros Hg. unfold settle_commit. pose proof (submit_seam_spec actor o data w) as Hs.
  destruct (submit_commit_seam rn (submit_body c actor o data) w) as [w1 s]. destruct Hs as (He & Eg & Hl & Hn).
  rewrite <- Eg in Hg. assert (w_open w1 = w_open w) as Ho by apply He.
  pose proof (canonical_landed o data (w_log w1)) as Hc. set (canonical := our_commit_is_canonical _ _ _ _ _) in *.
  destruct (match s with Committed => true | _ => canonical end) eqn:Ea.
  - pose proof (finalize_spec g w1 Hg) as Hf. destruct (finalize_won_commit rn c w1) as [w2 r]. cbn [fst] in *.
    destruct Hf as (He2 & El & Hg2 & Hm). rewrite Ho in Hm. split_and!; [by etransitivity| |intros E; rewrite El; by destruct (Hn E) as [_ ->]|by intros; apply Hm].
    destruct Hg2 as [Hg2|Hg2]; [by apply EndStaged|]. apply EndMerged; [done|]. intros Hok. unfold landed. rewrite El.
    destruct s; [by apply Hl|by apply Hc..].
  - destruct (clear_spec g w1 Hg) as (He2 & El & g0 & Hg0 & Hor). set (w2 := clear_pending_best_effort rn c w1) in *.
    assert (s <> Committed /\ canonical = false) as [Hns Hnc] by (by destruct s). rewrite Hnc in Hc.
    assert (settled o data w w2 g) as Hst by (destruct Hor as [->| ->]; [by apply EndStaged|by apply EndCleared]).
    assert (rn_submit rn = None -> w_log w2 = w_log w) as Hlog by (intros E; rewrite El; by destruct (Hn E) as [_ ->]).
    assert (forall X, rn_log_unread rn = false -> landed o data w2 -> X) as Hno by (intros X Hu Hld; unfold landed in Hld; rewrite El in Hld; by assert (false = true) by (by apply Hc)).
    destruct s; [done| |]; cbn [fst].
    + split_and!; [etransitivity; [exact He|etransitivity; [exact He2|apply elsewhere_set]]| |done|intros _ _ _ Hu Hld; by apply Hno].
      apply EndConverged with g0; [intros E; by destruct (Hn E)|done|]. rewrite set_group_lookup. by rewrite Hg0.
    + split_and!; [by etransitivity|done|done|intros _ _ _ Hu Hld; by apply Hno].
Qed.
End RunSpecs.

Section Theorems.
Context `{MlsTree, !MlsTreeLaws, !Base64, !Base64Laws, !CharClass}.

(** The same tree at the same epoch. *)
Definition in_place (g g' : Group) : Prop := group_epoch g' = group_epoch g /\ group_members g' = group_members g.

Lemma staged_shape g roster kps actor valid gs o data : reconcile_group_mls_core_staged g roster kps actor valid = (gs, Some (o, data)) ->
  epoch_before o = group_epoch g /\
  match data with None => gs = g | Some d => exists rm ks, stage_commit g rm ks = Some (gs, Some d) end.
Proof.
  rewrite core_staged_unfold. destruct (to_remove_of g roster kps actor valid) as [|x rm], (add_kps_of g roster kps valid) as [|y ks];
    [intros [= <- <- <-]; done|..]; (destruct (stage_commit g _ _) as [[g' [d|]]|] eqn:Es; [|done..]; intros [= <- <- <-]; split; [done|eauto]).
Qed.

(** A run that fails at staging leaves the tree, and maybe a commit it could not serialise. *)
Lemma failed_shape g roster kps actor valid gs : reconcile_group_mls_core_staged g roster kps actor valid = (gs, None) ->
  gs = g \/ exists ks, stage_commit g (map snd (to_remove_of g roster kps actor valid)) ks = Some (gs, None).
Proof.
  rewrite core_staged_unfold. destruct (to_remove_of g roster kps actor valid) as [|x rm], (add_kps_of g roster kps valid) as [|y ks];
    [done|..]; (destruct (stage_commit g _ _) as [[g' [d|]]|] eqn:Es; [done|intros [= <-]; right; eauto|intros [= <-]; by left]).
Qed.

Lemma failed_in_place g roster kps actor valid gs : reconcile_group_mls_core_staged g roster kps actor valid = (gs, None) -> in_place g gs.
Proof. intros [->|(ks & Es)]%failed_shape; [done|]. destruct (staged_same _ _ _ _ _ Es) as (? & ? & _). done. Qed.

(** C20: a reconcile never moves ahead of the log, and never falls behind its own commit.  For a
    conversation without a commit waiting, over a log with honest reports, whatever read, request,
    answer, load, merge or rollback fails: no other conversation's group changes; this one's tree
    and epoch stay, or they are those of a commit staged on them, and the log then holds exactly
    that commit at that epoch, or a race was lost and they are what catching up made of the old
    ones.  And if the staged commit is in the log, though the answer was lost, it is merged when
    the log can be read and the local load and merge work. *)
Theorem reconcile_no_split (rn : Run) (c actor : string) (w : World) (g : Group) :
  w_groups w !! c = Some g -> group_pending g = None -> log_inv (w_log w) -> reports_ok (w_log w) -> (group_epoch g + 1 < 2 ^ 63)%N ->
  let w' := (reconcile_group_mls_impl rn c actor w).1 in
  (forall c', c' <> c -> w_groups w' !! c' = w_groups w !! c') /\
  ((exists g', w_groups w' !! c = Some g' /\ in_place g g') \/
   (exists rm kps gs d, stage_commit g rm kps = Some (gs, Some d) /\ w_groups w' !! c = Some (merge_pending_commit gs) /\
      fetch_commit_at_epoch (w_log w') c (Z.of_N (group_epoch g)) = Some (commit_bytes d)) \/
   (exists g0, in_place g g0 /\ w_groups w' !! c = rn_converge rn (Some g0))) /\
  (forall w1 already o d, prepare_commit rn c actor w = (w1, Ok (Some (already, o, Some d))) ->
     rn_load_fails rn 2 = false -> rn_merge_fails rn 1 = false -> rn_log_unread rn = false ->
     fetch_commit_at_epoch (w_log w') c (Z.of_N (group_epoch g)) = Some (commit_bytes d) ->
     exists g', w_groups w' !! c = Some g' /\ group_epoch g' = (group_epoch g + 1)%N).
Proof.
  intros Hg Hp Hi Hr He. unfold reconcile_group_mls_impl. pose proof (prepare_spec rn c actor w) as Hs.
  destruct (prepare_commit rn c actor w) as [w1 [[[[already o] data]|]|e]]; destruct Hs as (Hel & El & Hs).
  2,3: rewrite Hg in Hs; cbn [fst]; split_and!; [apply Hel|left; destruct Hs as [Hs|(g0 & gs & kps & [= <-] & Ef & Hs)];
    [by eexists|exists gs; split; [exact Hs|rewrite merge_nothing in Ef by done; by eapply failed_in_place]]|done].
  destruct Hs as (Ho & g1 & gs & kps & Eg & -> & Es & Hgs). rewrite Hg in Eg. injection Eg as <-. rewrite merge_nothing in Es by done.
  apply staged_shape in Es as [Eb Es]. assert (u64_to_i64 (epoch_before o) = Z.of_N (group_epoch g)) as Ee by (rewrite Eb; unfold u64_to_i64; rewrite Z.mod_small by lia; destruct (Z.ltb_spec (Z.of_N (group_epoch g)) (2 ^ 63)); lia).
  destruct data as [d|].
  - destruct Es as (rm & ks & Est). pose proof (settle_spec rn c actor o d gs w1 Hgs) as Hst. destruct (settle_commit rn c actor o d w1) as [w2 r]. cbn [fst] in *.
    destruct Hst as (Hel2 & Hend & _ & Had). unfold landed in *. rewrite Ee in *.
    assert (in_place g gs) as Hip by (destruct (staged_same _ _ _ _ _ Est) as (? & ? & _); done).
    assert (in_place g (clear_pending_commit gs)) as Hic by (destruct (clear_staged _ _ _ _ _ Est) as (? & ? & _); done).
    split_and!; [intros c' Hc'; rewrite (proj1 (proj2 Hel2)), (proj1 (proj2 Hel)); done| |].
    + destruct Hend as [Hm Hl|Hm|Hm|g0 _ [->| ->] Hm]; [right; left|left; by exists gs|left; eexists; split; [exact Hm|done]|right; right; eexists; split; [|exact Hm]; done..].
      exists rm, ks, gs, d. split_and!; [done|done|]. rewrite <- Ee. apply Hl. unfold log_ok. rewrite El, Ee. split_and!; [done|done|lia].
    + intros w1' already o' d' [= <- <- <- <-] ????. exists (merge_pending_commit gs). split; [|by eapply merged_next].
      apply Had; try done. by rewrite (proj1 Hel).
  - subst gs. cbn [fst]. split_and!; [apply Hel|left; by exists g|done].
Qed.

(** C21: a commit that was staged and never sent is merged by the next run.  When a run is
    interrupted between staging and rolling back, or its rollback fails, the commit stays in the
    local store; the next run that gets as far as comparing the tree merges it, and though nothing
    reaches the log, then or before, the local group is past the epoch its commit was based on. *)
Theorem leftover_commit_merged (rn : Run) (c actor : string) (w w1 : World) (g0 g : Group) (rm : list N) (kps : list KeyPackage)
    (d : option ReconcileCommitData) x :
  stage_commit g0 rm kps = Some (g, d) -> w_groups w !! c = Some g -> rn_submit rn = None -> prepare_commit rn c actor w = (w1, Ok (Some x)) ->
  let w' := (reconcile_group_mls_impl rn c actor w).1 in
  w_log w' = w_log w /\ exists g', w_groups w' !! c = Some g' /\ (group_epoch g0 < group_epoch g')%N.
Proof.
  intros Est Hg Hns Hp. unfold reconcile_group_mls_impl. pose proof (prepare_spec rn c actor w) as Hs. rewrite Hp in Hs |- *.
  destruct x as [[already o] data]. destruct Hs as (_ & El & _ & g1 & gs & kps' & Eg & _ & Es & Hgs). rewrite Hg in Eg. injection Eg as <-.
  destruct (merged_next _ _ _ _ _ Est) as [Ep _]. apply staged_shape in Es as [_ Es]. destruct data as [d'|].
  - destruct Es as (rm' & ks' & Est'). pose proof (settle_spec rn c actor o d' gs w1 Hgs) as Hst. destruct (settle_commit rn c actor o d' w1) as [w2 r]. cbn [fst] in *.
    destruct Hst as (_ & Hend & Hlog & _). rewrite Hlog by done. split; [done|].
    destruct (staged_same _ _ _ _ _ Est') as (E1 & _). destruct (merged_next _ _ _ _ _ Est') as [E2 _]. destruct (clear_staged _ _ _ _ _ Est') as (E3 & _).
    destruct Hend as [Hm _|Hm|Hm|? ? _ _]; [| | |done]; (eexists; split; [exact Hm|lia]).
  - subst gs. cbn [fst]. split; [done|]. eexists. split; [exact Hgs|lia].
Qed.

(** ** A revoked device *)

Definition keeps (p : Pair) (g : Group) : Prop := p ∈ leaves g /\ p ∈ leaves (merge_pending_commit g).

Lemma keeps_settled p g : group_pending g = None -> p ∈ leaves g -> keeps p g.
Proof. intros Hn Hp. split; [done|by rewrite merge_nothing]. Qed.

Lemma actual_sound_aux (l : list (N * bytes)) (m : gmap Pair N) k i : fold_left (fun m (l : N * bytes) => <[leaf_device l.2 := l.1]> m) l m !! k = Some i ->
  (exists cred, (i, cred) ∈ l /\ leaf_device cred = k) \/ m !! k = Some i.
Proof.
  revert m. induction l as [|[j cred] l IH]; intros m Hf; [by right|]. cbn in Hf. apply IH in Hf as [(cr & Hin & E)|Hm].
  - left. exists cr. split; [by right|done].
  - destruct (decide (leaf_device cred = k)) as [<-|Hne]; [rewrite lookup_insert_eq in Hm; injection Hm as <-; left; exists cred; split; [by left|done]|].
    rewrite lookup_insert_ne in Hm by done. by right.
Qed.

Lemma actual_complete_aux (l : list (N * bytes)) (m : gmap Pair N) k : k ∈ map (fun x : N * bytes => leaf_device x.2) l \/ is_Some (m !! k) ->
  is_Some (fold_left (fun m (l : N * bytes) => <[leaf_device l.2 := l.1]> m) l m !! k).
Proof.
  revert m. induction l as [|[j cred] l IH]; intros m Hk; cbn in *; [destruct Hk as [Hk|]; [by apply elem_of_nil in Hk|done]|].
  apply IH. destruct (decide (leaf_device cred = k)) as [<-|Hne]; [right; rewrite lookup_insert_eq; by eexists|].
  rewrite lookup_insert_ne by done. destruct Hk as [Hk|]; [|by right]. apply elem_of_cons in Hk as [->|]; [done|by left].
Qed.

(** The leaf of a device that is to stay stays, whatever else the commit does. *)
Lemma stage_keeps g roster kps actor valid g' ks d p : stage_commit g (map snd (to_remove_of g roster kps actor valid)) ks = Some (g', d) ->
  p ∈ leaves g -> kept_member roster valid p = true -> keeps p g' /\ keeps p (merge_pending_commit g') /\ keeps p (clear_pending_commit g').
Proof.
  intros Est Hp Hk. destruct (staged_same _ _ _ _ _ Est) as (_ & E1 & _). destruct (clear_staged _ _ _ _ _ Est) as (_ & E2 & E3).
    assert (p ∈ leaves (merge_pending_commit g')) as Hm.
    { destruct (merged_next _ _ _ _ _ Est) as [_ Hperm]. unfold leaves. rewrite <- (map_map snd leaf_device). rewrite (Permutation_map leaf_device Hperm), map_app, elem_of_app. left.
      apply elem_leaves in Hp as (i & cred & Hin & <-). apply list_elem_of_In, in_map, in_map_iff. exists (i, cred). split; [done|]. apply filter_In. split; [by apply list_elem_of_In|].
      cbn [fst]. apply negb_true_iff, bool_decide_eq_false. intros Hrm. apply list_elem_of_In, in_map_iff in Hrm as ([k i'] & Ei & Hrm). cbn [snd] in Ei. subst i'.
      assert (actual g !! k = Some i /\ k ∉ desired roster kps valid (actual g)) as [Ha Hnd].
      { unfold to_remove_of in Hrm. destruct (existsb _ _); [apply filter_In in Hrm as [Hrm _]|]; apply filter_In in Hrm as [Hrm%list_elem_of_In%elem_of_map_to_list Hd];
          (split; [done|]); cbn [fst] in Hd; by apply negb_true_iff, bool_decide_eq_false in Hd. }
      destruct (actual_sound_aux _ _ _ _ Ha) as [(cred' & Hin' & <-)|Habs]; [|by rewrite lookup_empty in Habs].
      assert (cred = cred') as <-.
      { pose proof (indices_unique g) as Hu. apply list_elem_of_lookup in Hin as [n1 Hin], Hin' as [n2 Hin'].
        assert (n1 = n2) as -> by (eapply NoDup_lookup; [exact Hu|..]; rewrite list_lookup_fmap; [by rewrite Hin|by rewrite Hin']). congruence. }
      apply Hnd. unfold desired. apply elem_of_union_r, elem_of_filter. split; [done|]. by apply elem_of_dom_2 in Ha. }
    split_and!; [split; [unfold leaves; by rewrite E1|done]|apply keeps_settled; [apply merge_settles|done]|apply keeps_settled; [done|unfold leaves; by rewrite E2]].
Qed.

Lemma staged_keeps g roster kps actor valid gs o data p : reconcile_group_mls_core_staged g roster kps actor valid = (gs, Some (o, data)) ->
  group_pending g = None -> p ∈ leaves g -> kept_member roster valid p = true -> keeps p gs /\ keeps p (merge_pending_commit gs) /\ (data <> None -> keeps p (clear_pending_commit gs)).
Proof.
  intros Hs Hn Hp Hk. rewrite core_staged_unfold in Hs.
  pose proof (fun ks g' d Est => stage_keeps g roster kps actor valid g' ks d p Est Hp Hk) as Hst.
  destruct (to_remove_of g roster kps actor valid) as [|x rm] eqn:Erm, (add_kps_of g roster kps valid) as [|y ks].
  { injection Hs as <- <- <-. rewrite merge_nothing by done. split_and!; [by apply keeps_settled..|done]. }
  all: destruct (stage_commit g _ _) as [[g' [d|]]|] eqn:Est; [|done..]; injection Hs as <- <- <-; destruct (Hst _ _ _ Est) as (? & ? & ?); split_and!; done.
Qed.

(** Catching up does not remove the leaf: no commit in the log does. *)
Definition converge_keeps (p : Pair) (rn : Run) : Prop := forall g, keeps p g -> exists g', rn_converge rn (Some g) = Some g' /\ keeps p g'.

(** A device of the roster, with a row. *)
Definition rostered (db : MsgDb) (c : string) (p : Pair) : Prop := p.1 ∈ roster_of db c /\ safe_id p.1 = p.1 /\ p ∈ device_rows db.

Lemma rostered_same db db' c p : same_roster db db' -> rostered db c p -> rostered db' c p.
Proof. intros Hs (? & ? & ?). unfold rostered. rewrite (roster_of_same c db db' Hs). destruct Hs as (_ & _ & _ & ->). done. Qed.

Lemma rostered_kept w c p : rostered (w_main w) c p -> kept_member (roster_of (w_main w) c) (Some (valid_now c w)) p = true.
Proof.
  intros (Hr & Hs & Hd). unfold kept_member, valid_now. rewrite bool_decide_eq_true_2 by done. apply bool_decide_eq_true_2, elem_valid_devices.
  split; [|done]. apply bool_decide_eq_true_2, list_elem_of_In, in_map_iff. exists p.1. rewrite <- list_elem_of_In, elem_of_elements. done.
Qed.

Lemma impl_elsewhere rn c actor w : elsewhere c w (reconcile_group_mls_impl rn c actor w).1.
Proof.
  unfold reconcile_group_mls_impl. pose proof (prepare_spec rn c actor w) as Hs.
  destruct (prepare_commit rn c actor w) as [w1 [[[[already o] [d|]]|]|e]]; destruct Hs as (Hel & _ & Hs); try done.
  destruct Hs as (_ & g & gs & kps & _ & _ & _ & Hgs). pose proof (settle_spec rn c actor o d gs w1 Hgs) as Hst.
  destruct (settle_commit rn c actor o d w1) as [w2 r]. destruct Hst as [Hel2 _]. cbn [fst] in *.
  destruct Hel as (O1 & G1 & M1 & D1), Hel2 as (O2 & G2 & M2 & D2). split_and!; [congruence| |by etransitivity|congruence]. intros c' Hc. by rewrite G2, G1.
Qed.

(** A run keeps the leaf of a device of the roster. *)
Lemma impl_keeps rn c c' actor w g p : converge_keeps p rn -> rostered (w_main w) c p -> w_groups w !! c = Some g -> keeps p g ->
  exists g', w_groups (reconcile_group_mls_impl rn c' actor w).1 !! c = Some g' /\ keeps p g'.
Proof.
  intros Hcv Hro Hg Hk. destruct (decide (c = c')) as [<-|Hne].
  2: { exists g. split; [|done]. rewrite <- Hg. by apply impl_elsewhere. }
  unfold reconcile_group_mls_impl. pose proof (prepare_spec rn c actor w) as Hs.
  assert (keeps p (merge_pending_commit g)) as Hkm by (destruct Hk; apply keeps_settled; [apply merge_settles|done]).
  destruct (prepare_commit rn c actor w) as [w1 [[[[already o] data]|]|e]]; destruct Hs as (Hel & _ & Hs).
  2,3: rewrite Hg in Hs; cbn [fst]; destruct Hs as [Hs|(g0 & gs & kps & [= <-] & Ef & Hs)]; [by eexists|exists gs; split; [exact Hs|];
    apply failed_shape in Ef as [->|(ks & Est)]; [done|]; apply (stage_keeps _ _ _ _ _ _ _ _ p Est); [apply Hk|by apply rostered_kept]].
  destruct Hs as (_ & g1 & gs & kps & Eg & _ & Es & Hgs). rewrite Hg in Eg. injection Eg as <-.
  destruct (staged_keeps _ _ _ _ _ _ _ _ p Es (merge_settles g) (proj2 Hk) (rostered_kept w c p Hro)) as (HA & HB & HC).
  destruct data as [d|]; [|by exists gs]. pose proof (settle_spec rn c actor o d gs w1 Hgs) as Hst. destruct (settle_commit rn c actor o d w1) as [w2 r]. cbn [fst] in *.
  destruct Hst as (_ & Hend & _). specialize (HC ltac:(done)). destruct Hend as [Hm _|Hm|Hm|g0 _ Hor Hm]; [eexists; (split; [exact Hm|done])..|].
  destruct (Hcv g0) as (g' & Eg' & Hk'); [by destruct Hor as [->| ->]|]. exists g'. by rewrite Hm.
Qed.

Lemma each_keeps runs i user cs c w g p : (forall i, converge_keeps p (runs i)) -> rostered (w_main w) c p -> w_groups w !! c = Some g -> keeps p g ->
  let w' := reconcile_each runs i user cs w in
  same_roster (w_main w) (w_main w') /\ devices (w_main w') = devices (w_main w) /\ exists g', w_groups w' !! c = Some g' /\ keeps p g'.
Proof.
  intros Hcv. revert i w g. induction cs as [|c' cs IH]; intros i w g Hro Hg Hk; cbn [reconcile_each]; [split_and!; [reflexivity|done|by exists g]|].
  destruct (impl_elsewhere (runs i) c' user w) as (_ & _ & Hs & Hd). destruct (impl_keeps (runs i) c c' user w g p (Hcv i) Hro Hg Hk) as (g1 & Hg1 & Hk1).
  destruct (IH (S i) _ g1 (rostered_same _ _ _ _ Hs Hro) Hg1 Hk1) as (Hs' & Hd' & ?). split_and!; [by etransitivity|congruence|done].
Qed.

(** C22: revoking a device does not remove its leaf.  The user revokes another of their devices from
    this one, the service marks the row, and every conversation is reconciled: in each
    conversation of theirs whose tree holds the device's leaf, unless catching up after a
    lost race removes it, the leaf is still there when the command reports success, whatever
    else the commits change; the backstop does not remove it later, and the revoked device, asked
    whether it is still registered, says it is.  The rows are read without looking at the mark. *)
Theorem revoked_leaf_stays (runs : nat -> Run) (current : option string) (read_fails : nat -> bool) (env : SqlEnv) (lost : bool)
    (user device c : string) (w w' : World) (g : Group) :
  (forall i, converge_keeps (user, device) (runs i)) -> w_groups w !! c = Some g -> group_pending g = None -> (user, device) ∈ leaves g ->
  user ∈ roster_of (w_main w) c -> safe_id user = user ->
  revoke_device runs current read_fails (Some (user, env)) lost user device w = (w', Ok tt) ->
  (exists x, x ∈ devices (w_main w') /\ dev_user x = user /\ dev_id x = device /\ revoked_at x <> None) /\
  is_current_device_registered false (Some device) user (w_main w') = Ok true /\
  exists g', w_groups w' !! c = Some g' /\ (user, device) ∈ leaves g' /\
  forall rn rn' actor, converge_keeps (user, device) rn' ->
    exists g'', w_groups (reconcile_backstop rn rn' c actor w').1 !! c = Some g'' /\ (user, device) ∈ leaves g''.
Proof.
  intros Hcv Hg Hp Hl Hro Hsafe. unfold revoke_device. case_bool_decide; [done|]. destruct (read_fails 0); [done|].
  destruct (existsb _ (devices (w_main w))) eqn:Ex; cbn [negb]; [|done].
  assert ((user, device) ∈ device_rows (w_main w)) as Hrow.
  { apply existsb_exists in Ex as (x & Hx & Hb). breflect. unfold device_rows. apply list_elem_of_In, in_map_iff. exists x. split; [congruence|done]. }
  pose proof (revoke_effect env user device (w_main w)) as Hrv. destruct (run_sql _ (w_main w)) as [db r]. destruct Hrv as [Hs Hx].
  destruct r as [[]|]; try done. destruct lost; [done|]. destruct (read_fails 1); [done|]. intros [= <-]. specialize (Hx eq_refl Hrow).
  set (w0 := mkWorld _ _ _ _).
  assert (rostered (w_main w0) c (user, device)) as Hr0 by (apply (rostered_same (w_main w)); done).
  destruct (each_keeps runs 0 user (conversations_of user db) c w0 g (user, device) Hcv Hr0 Hg (keeps_settled _ _ Hp Hl)) as (Hs' & Hd' & g' & Hg' & Hk').
  set (w' := reconcile_each _ _ _ _ _) in *. rewrite Hd'. split_and!; [done| |].
  { destruct Hx as (x & Hx & Eu & Ed & _). cbn. f_equal. apply existsb_exists. exists x. split; [by apply list_elem_of_In; rewrite Hd'|]. by rewrite !bool_decide_eq_true_2. }
  exists g'. split_and!; [done|apply Hk'|].
  intros rn rn' actor Hcv'. unfold reconcile_backstop. destruct (local_tree_has_stale_leaf rn c w') as [[]|]; [|exists g'; split; [done|apply Hk']..].
  destruct (impl_keeps rn' c c actor w' g' (user, device) Hcv' (rostered_same _ _ _ _ Hs' Hr0) Hg' Hk') as (g2 & Hg2 & Hk2).
  destruct (reconcile_group_mls_impl rn' c actor w') as [w2 r2]. exists g2. split; [done|apply Hk2].
Qed.
End Theorems.

(** ** The announcement *)

Lemma split_pairs_spec there l users devs : split_pairs there l = (users, devs) ->
  NoDup users /\ (forall u, u ∈ users <-> u ∉ there /\ exists d, (u, d) ∈ l) /\ (forall p, p ∈ devs <-> p ∈ l /\ p.1 ∈ there).
Proof.
  unfold split_pairs. match goal with |- context [fold_left ?f _ _] => set (step := f) end.
  assert (forall l us seen ds, NoDup us -> (forall u, u ∈ seen <-> u ∈ us) -> (forall u, u ∈ us -> u ∉ there) ->
    let r := fold_left step l (us, seen, ds) in
    NoDup r.1.1 /\ (forall u, u ∈ r.1.1 <-> u ∈ us \/ u ∉ there /\ exists d, (u, d) ∈ l) /\ (forall p, p ∈ r.2 <-> p ∈ ds \/ p ∈ l /\ p.1 ∈ there)) as Hgen.
  { clear. intros l. induction l as [|[u d] l IH]; intros us seen ds Hn Hs Ht; cbn [fold_left].
    - cbn. split_and!; [done|set_solver..].
    - change (step (us, seen, ds) (u, d)) with (if bool_decide (u ∈ there) then (us, seen, ds ++ [(u, d)]) else if bool_decide (u ∈ seen) then (us, seen, ds) else (us ++ [u], {[u]} ∪ seen, ds)).
      case_bool_decide as Hin; [|case_bool_decide as Hse].
      + destruct (IH us seen (ds ++ [(u, d)]) Hn Hs Ht) as (I1 & I2 & I3). split_and!; [done|intros u'; rewrite I2; set_solver|].
        intros p. rewrite I3, elem_of_app, list_elem_of_singleton, elem_of_cons. naive_solver.
      + destruct (IH us seen ds Hn Hs Ht) as (I1 & I2 & I3). split_and!; [done| |intros p; rewrite I3, elem_of_cons; naive_solver].
        intros u'. rewrite I2. apply Hs in Hse. setoid_rewrite elem_of_cons. naive_solver.
      + assert (u ∉ us) as Hnu by (by rewrite <- Hs). destruct (IH (us ++ [u]) ({[u]} ∪ seen) ds) as (I1 & I2 & I3).
        * apply NoDup_app. split_and!; [done|set_solver|apply NoDup_singleton].
        * set_solver.
        * set_solver.
        * split_and!; [done| |intros p; rewrite I3, elem_of_cons; naive_solver]. intros u'. rewrite I2, elem_of_app, list_elem_of_singleton. setoid_rewrite elem_of_cons. naive_solver. }
  intros E. destruct (Hgen l [] ∅ [] (NoDup_nil_2) ltac:(set_solver) ltac:(set_solver)) as (G1 & G2 & G3).
  destruct (fold_left step l _) as [[us seen] ds]. injection E as <- <-. cbn in *. split_and!; [done|intros u; rewrite G2; set_solver|intros p; rewrite G3; set_solver].
Qed.

Section Banners.
Context `{MlsTree, !MlsTreeLaws}.

Definition has_leaf (g : Group) (u : string) : Prop := exists d, (u, d) ∈ leaves g.

Lemma elem_users (t : gset Pair) u : u ∈ users_of t <-> exists d, (u, d) ∈ t.
Proof. unfold users_of. rewrite elem_of_map. split; [intros ([u' d] & -> & ?); by exists d|intros [d ?]; by exists (u, d)]. Qed.

(** The announcement of a reconcile is the difference of the trees.  When every device has one leaf
    and the key packages name their devices: the users announced as joined are those with a
    leaf after and none before, each once; those announced as left had one before and have none
    after; the devices announced are the leaves gained and lost of the other users. *)
Theorem banners_exact (g : Group) (roster : gset string) (kps : list (Pair * KeyPackage)) (actor : Pair) (valid : option (gset Pair))
    (c : string) (g' : Group) (o : ReconcileOutcome) (data : option ReconcileCommitData) :
  NoDup (leaves g) -> Forall (fun kp => leaf_device (kp_credential kp.2) = kp.1) kps ->
  reconcile_group_mls_core g roster kps actor valid = (g', Some (o, data)) ->
  let e := roster_changed c (tree_devices g) o in
  NoDup (joined_user_ids e) /\ NoDup (left_user_ids e) /\
  (forall u, u ∈ joined_user_ids e <-> has_leaf g' u /\ ~ has_leaf g u) /\ (forall u, u ∈ left_user_ids e <-> has_leaf g u /\ ~ has_leaf g' u) /\
  (forall p, p ∈ devices_added e <-> p ∈ leaves g' /\ p ∉ leaves g /\ has_leaf g p.1) /\
  (forall p, p ∈ devices_removed e <-> p ∈ leaves g /\ p ∉ leaves g' /\ has_leaf g' p.1).
Proof.
  intros Hnd Hk Hc. destruct (core_tree g roster kps actor valid Hnd Hk g' o data Hc) as (_ & Hr & Ha & _).
  cbv zeta. unfold roster_changed. set (post := _ ∪ _).
  assert (forall u, u ∈ users_of (tree_devices g) <-> has_leaf g u) as Hu.
  { intros u. rewrite elem_users. unfold tree_devices. by setoid_rewrite elem_of_list_to_set. }
  assert (forall u, u ∈ users_of post <-> has_leaf g' u) as Hu'.
  { intros u. rewrite elem_users. unfold has_leaf. apply Morphisms_Prop.ex_iff_morphism. intros d. unfold post, tree_devices. fold (leaves g).
    rewrite elem_of_union, elem_of_difference, !elem_of_list_to_set, Hr, Ha. destruct (decide ((u, d) ∈ leaves g)), (decide ((u, d) ∈ leaves g')); tauto. }
  destruct (split_pairs (users_of (tree_devices g)) (added o)) as [joined devs] eqn:E1. destruct (split_pairs (users_of post) (removed o)) as [departed gone] eqn:E2.
  apply split_pairs_spec in E1 as (N1 & U1 & D1). apply split_pairs_spec in E2 as (N2 & U2 & D2). cbn [joined_user_ids left_user_ids devices_added devices_removed].
  setoid_rewrite U1. setoid_rewrite U2. setoid_rewrite D1. setoid_rewrite D2. setoid_rewrite Hu. setoid_rewrite Hu'. setoid_rewrite Ha. setoid_rewrite Hr.
  unfold has_leaf. split_and!; [done|done|naive_solver..].
Qed.
End Banners.

(** ** Commits that add devices of two users *)

Section Mixed.
Context `{MlsTree, Ed25519, !Base64}.

Definition plain_device (d : string) : Prop := trim d = d /\ d <> "" /\ x2c ∉ as_bytes d.

Lemma parse_joined ids : Forall plain_device ids -> ids <> [] -> parse_ids (String.concat "," ids) = ids.
Proof.
  intros Hf Hne. unfold parse_ids.
  assert (split_on x2c (as_bytes (String.concat "," ids)) = map as_bytes ids) as ->.
  { induction Hf as [|d ids (_ & _ & Hd) Hf IH]; [done|]. destruct ids as [|d' ids]; [by apply split_on_free|].
    change (String.concat "," (d :: d' :: ids)) with (String.append d (String.append "," (String.concat "," (d' :: ids)))).
    rewrite !as_bytes_append. change (as_bytes "," ++ ?x) with (x2c :: x). rewrite split_on_app by done. by rewrite IH. }
  clear Hne. induction Hf as [|d ids (Ht & Hd & _) Hf IH]; [done|]. cbn [map List.filter]. rewrite of_bytes_as_bytes, Ht, bool_decide_eq_false_2 by done.
  cbn [negb]. by rewrite IH.
Qed.

(** One of the devices is not a row of the user they are all looked up under. *)
Lemma check_devices_absent rm n apub u dids d db : d ∈ dids -> find (AccountRoutes.owned u d) (devices db) = None ->
  (forall d', d' ∈ dids -> check_device apub u d' db <> Revoked) ->
  match check_devices rm n apub u dids db with Ok o => o = AbsentRetry | Err _ => True end.
Proof.
  intros Hin Hn. revert n. induction dids as [|d' dids IH]; intros n Hr; [by apply elem_of_nil in Hin|]. cbn [check_devices].
  unfold Enroll.read. destruct (rm_read_fails rm n); [done|]. cbn [rbind]. pose proof (Hr d' ltac:(by left)) as Hd.
  destruct (check_device apub u d' db) eqn:E; [|done|done]. apply IH; [|intros d'' Hd''; apply Hr; by right].
  apply elem_of_cons in Hin as [<-|]; [|done]. unfold check_device in E. by rewrite Hn in E.
Qed.

(** C23: a commit that adds a device of the committer's own and one of another user stops every
    reader for good.  The row names the user of the first device and lists all of them; when
    that user is the committer, a reader looks the other user's device up among the
    committer's, does not find it, takes the commit for a self-add it cannot see yet
    and leaves it for later.  This holds for every state of the tables in which the device is not
    the committer's and none of theirs is rejected, and whatever read fails: the reader, at the
    epoch of the commit, replays nothing and keeps its group, each time. *)
Theorem mixed_add_wedges (rm : Remote) (db : MsgDb) (c : string) (o : ReconcileOutcome) (data : ReconcileCommitData) (log : LogDb) (now : string)
    (p q : Pair) (ps : list Pair) (apply_commit : N -> CommitRec -> ApplyOutcome) (rest : list CommitRec) (st : Replay) :
  added o = p :: ps -> q ∈ ps -> Forall plain_device (map snd (p :: ps)) -> find (AccountRoutes.owned p.1 q.2) (devices db) = None ->
  (forall apub d, users db !! p.1 ≫= prf_account_id_pub = Some apub -> d ∈ map snd (p :: ps) -> check_device apub p.1 d db <> Revoked) ->
  (epoch_before o < 2 ^ 63)%N -> current_epoch st = epoch_before o ->
  let r := new_row log (submit_body c p.1 o data) (commit_bytes data) now in
  verify_row rm db r = AbsentRetry /\ replay_loop (verify_row rm db) apply_commit (r :: rest) st = Ok st.
Proof.
  intros Ha Hq Hpl Hn Hr He Hst. cbv zeta. set (r := new_row _ _ _ _).
  assert (rec_added_user_id r = Some p.1 /\ rec_added_device_ids r = Some (String.concat "," (map snd (p :: ps))) /\ rec_sender_id r = p.1 /\
    rec_epoch r = u64_to_i64 (epoch_before o)) as (Eu & Ed & Es & Ee) by (unfold r, submit_body, added_fields; by rewrite Ha).
  assert (verify_row rm db r = AbsentRetry) as Hv.
  { unfold verify_row, added_ids. rewrite Eu, Ed, parse_joined by done. unfold verify_added_devices. cbn [map]. unfold Enroll.read.
    destruct (rm_read_fails rm 0); [done|]. cbn [rbind]. destruct (users db !! p.1 ≫= prf_account_id_pub) as [apub|] eqn:Eap; [|done].
    pose proof (check_devices_absent rm 1 apub p.1 (p.2 :: map snd ps) q.2 db) as Hc.
    destruct (check_devices rm 1 apub p.1 (p.2 :: map snd ps) db); [|done]. apply Hc; [right; by apply list_elem_of_In, in_map, list_elem_of_In|done|]. intros d'. by apply Hr. }
  split; [done|]. cbn [replay_loop]. rewrite Ee, Hst. unfold classify.
  assert (i64_to_u64 (u64_to_i64 (epoch_before o)) = epoch_before o) as ->.
  { rewrite Device.u64_to_i64_low by done. unfold i64_to_u64. rewrite Z.mod_small by lia. lia. }
  rewrite N.eqb_refl. unfold deferred. rewrite Eu, Hv, Es. by rewrite bool_decide_eq_true_2.
Qed.
End Mixed.

(** ** The claims at concrete inputs *)

Section ReconcileWitnesses.
#[local] Existing Instance clear_base64.

#[local] Instance clear_base64_inverse : Base64Laws.
Proof. split. intros b. simpl. by rewrite as_bytes_of_bytes. Qed.

#[local] Instance ascii_ids : CharClass := {| is_alphanumeric b := match b with [x] => in_range x 48 57 || in_range x 65 90 || in_range x 97 122 | _ => false end |}.

(** A tree in the open: leaves by position, removed ones blank; a key package is its credential. *)
Record OpenTree := mkOpen { o_epoch : N; o_leaves : list (option bytes); o_staged : option (list N * list bytes) }.

#[local] Fixpoint members_from (i : N) (l : list (option bytes)) : list (N * bytes) :=
  match l with [] => [] | o :: l' => match o with Some x => [(i, x)] | None => [] end ++ members_from (i + 1) l' end.

#[local] Fixpoint blank (rm : list N) (i : N) (l : list (option bytes)) : list (option bytes) :=
  match l with [] => [] | o :: l' => (if bool_decide (i ∈ rm) then None else o) :: blank rm (i + 1) l' end.

#[local] Definition merged (t : OpenTree) : OpenTree :=
  match o_staged t with Some (rm, kps) => mkOpen (o_epoch t + 1) (blank rm 0 (o_leaves t) ++ map Some kps) None | None => t end.

#[local] Definition tree_commit (e : N) : bytes := [byte_of_N e].

#[local] Instance open_tree : MlsTree := {|
  Group := OpenTree;
  KeyPackage := bytes;
  group_epoch := o_epoch;
  group_members t := members_from 0 (o_leaves t);
  key_package_in b := Some b;
  kp_credential b := b;
  group_pending t := match o_staged t with Some _ => Some (tree_commit (o_epoch t)) | None => None end;
  group_signer _ := true;
  stage_commit t rm kps := Some (mkOpen (o_epoch t) (o_leaves t) (Some (rm, kps)), Some (mkCommitData (tree_commit (o_epoch t)) (Some [x02]) (Some [x03])));
  merge_pending_commit := merged;
  clear_pending_commit t := mkOpen (o_epoch t) (o_leaves t) None
|}.

Lemma members_from_above i l j x : (j, x) ∈ members_from i l -> (i <= j)%N.
Proof.
  revert i. induction l as [|o l IH]; intros i Hin; cbn in Hin; [by apply elem_of_nil in Hin|].
  apply elem_of_app in Hin as [Hin|Hin%IH]; [|lia]. destruct o; [apply list_elem_of_singleton in Hin as [= -> ->]; lia|by apply elem_of_nil in Hin].
Qed.

Lemma members_from_unique i l : NoDup (map fst (members_from i l)).
Proof.
  revert i. induction l as [|[x|] l IH]; intros i; cbn; [apply NoDup_nil_2| |apply IH]. apply NoDup_cons. split; [|apply IH].
  intros Hin. apply list_elem_of_In, in_map_iff in Hin as ([j y] & E & Hin%list_elem_of_In%members_from_above). cbn in E. lia.
Qed.

Lemma members_blank rm i l : members_from i (blank rm i l) = List.filter (fun m : N * bytes => negb (bool_decide (m.1 ∈ rm))) (members_from i l).
Proof.
  revert i. induction l as [|o l IH]; intros i; cbn [blank members_from]; [done|]. rewrite List.filter_app, IH. f_equal.
  destruct o as [x|]; cbn; case_bool_decide; done.
Qed.

Lemma members_added i l kps : map snd (members_from i (l ++ map Some kps)) = map snd (members_from i l) ++ kps.
Proof.
  revert i. induction l as [|o l IH]; intros i; cbn [app members_from].
  - cbn. revert i. induction kps as [|k kps IHk]; intros i; cbn; [done|]. by rewrite IHk.
  - rewrite !map_app, IH. by rewrite app_assoc.
Qed.

#[local] Instance open_tree_laws : MlsTreeLaws.
Proof.
  split.
  - intros g. apply members_from_unique.
  - intros g rm kps g' d [= <- <-]. split_and!; [done..|]. by intros data [= <-].
  - intros g rm kps g' d [= <- <-]. split; [done|]. cbn. by rewrite members_added, members_blank, map_id.
  - intros [e l [s|]] E; done.
  - intros [e l [[rm kps]|]]; done.
  - by intros g rm kps g' d [= <- <-].
Qed.

#[local] Definition leaf (u d : string) : option bytes := Some (make_credential u d).

(** Mallory has left, Bob is a member without a leaf; Alice has two devices. *)
#[local] Definition team : @Group open_tree := mkOpen 0 [leaf "alice" "phone"; leaf "alice" "laptop"; leaf "mallory" "pc"] None.

#[local] Definition main : MsgDb :=
  mkMsgDb ∅ ∅ [mkDeviceRec "phone" "alice" None None; mkDeviceRec "laptop" "alice" None None; mkDeviceRec "tablet" "bob" None None] ∅
    {[("g", "alice") := "admin"; ("g", "bob") := "member"]} ∅ ∅ ∅ ∅ ∅ ∅ ∅ ∅ ∅ ∅
    (mkAccountDb [] ∅ [mkKeyPackage "r1" "bob" (make_credential "bob" "tablet") false "2026-01-01" (Some "tablet")] ∅ ∅ ∅ ∅).

#[local] Definition world : World := mkWorld true {["g" := team]} main empty_log.

#[local] Definition sql : SqlEnv := mkSqlEnv (fun _ => false) true "2026-01-01 00:00:00" "2025-12-02 00:00:00" (Some 1767225600%N) "01J0" 0.

#[local] Definition sends (lost clear_fails : bool) (s : option (option string * Faults * string * (nat -> string))) : Run :=
  mkRun (fun _ => false) (fun _ => Some sql) (fun _ => false) s lost false (fun _ => false) (fun _ => false) clear_fails (Some "phone") (fun g => g).

#[local] Definition sent : option (option string * Faults * string * (nat -> string)) := Some (Some "alice", no_fault, "2026-01-01", fun i => if i =? 0 then "w0" else "w1").

#[local] Definition offered : list (Pair * @KeyPackage open_tree) := [(("bob", "tablet"), make_credential "bob" "tablet")].

(** The commit: Mallory's leaf out, Bob's in. *)
Example reconciled : map (fun g => (o_epoch g, leaves g)) (option_list (w_groups (reconcile_group_mls_impl (sends true false sent) "g" "alice" world).1 !! "g")) =
  [(1%N, [("alice", "phone"); ("alice", "laptop"); ("bob", "tablet")])].
Proof. by vm_compute. Qed.

Lemma team_unique : NoDup (leaves team).
Proof. apply (bool_decide_eq_true_1 (NoDup _)). by vm_compute. Qed.

Lemma offered_named : Forall (fun kp : Pair * KeyPackage => leaf_device (kp_credential kp.2) = kp.1) offered.
Proof. constructor; [by vm_compute|constructor]. Qed.

Lemma core_tree_exact_witness : exists g' o data,
  reconcile_group_mls_core team {["alice"; "bob"]} offered ("alice", "phone") None = (g', Some (o, data)) /\ ("mallory", "pc") ∉ leaves g'.
Proof.
  destruct (reconcile_group_mls_core team {["alice"; "bob"]} offered ("alice", "phone") None) as [g' [[o data]|]] eqn:E; [|by vm_compute in E].
  exists g', o, data. split; [done|]. rewrite (proj1 (core_tree_exact team {["alice"; "bob"]} offered ("alice", "phone") None team_unique offered_named g' o data E)).
  intros [Hin|[_ [Hk|Ea]]]; [|by vm_compute in Hk|done]. by apply list_elem_of_singleton in Hin.
Defined.

Lemma banners_exact_witness : exists g' o data,
  reconcile_group_mls_core team {["alice"; "bob"]} offered ("alice", "phone") None = (g', Some (o, data)) /\
  "mallory" ∈ left_user_ids (roster_changed "g" (tree_devices team) o) /\ has_leaf team "mallory" /\ ~ has_leaf g' "mallory".
Proof.
  destruct (reconcile_group_mls_core team {["alice"; "bob"]} offered ("alice", "phone") None) as [g' [[o data]|]] eqn:E; [|by vm_compute in E].
  exists g', o, data. split; [done|].
  destruct (banners_exact team {["alice"; "bob"]} offered ("alice", "phone") None "g" g' o data team_unique offered_named E) as (_ & _ & _ & Hl & _).
  assert (bool_decide ("mallory" ∈ left_user_ids (roster_changed "g" (tree_devices team) o)) = true) as Hb.
  { assert (match reconcile_group_mls_core team {["alice"; "bob"]} offered ("alice", "phone") None with
      | (_, Some (o, _)) => bool_decide ("mallory" ∈ left_user_ids (roster_changed "g" (tree_devices team) o)) | (_, None) => false end = true) as Hm by (vm_compute; reflexivity).
    by rewrite E in Hm. }
  apply bool_decide_eq_true_1 in Hb. split; [done|]. by apply Hl.
Defined.

Lemma team_range : (group_epoch team + 1 < 2 ^ 63)%N.
Proof. by vm_compute. Qed.

Lemma reports_none : reports_ok empty_log.
Proof. constructor. Qed.

(** The answer is lost; the log has the commit, and it is merged. *)
Lemma reconcile_no_split_witness : let w' := (reconcile_group_mls_impl (sends true false sent) "g" "alice" world).1 in
  (exists d, fetch_commit_at_epoch (w_log w') "g" 0 = Some d) /\ exists g', w_groups w' !! "g" = Some g' /\ o_epoch g' = 1%N.
Proof.
  cbv zeta. pose proof (reconcile_no_split (sends true false sent) "g" "alice" world team eq_refl eq_refl log_inv_empty reports_none team_range) as Hx.
  cbv zeta in Hx. destruct Hx as (_ & _ & Hx).
  destruct (prepare_commit (sends true false sent) "g" "alice" world) as [w1 [[[[already o] [d|]]|]|e]] eqn:E.
  2-4: exfalso; assert (match (prepare_commit (sends true false sent) "g" "alice" world).2 with Ok (Some (_, _, Some _)) => true | _ => false end = true) as Hm by (vm_compute; reflexivity); by rewrite E in Hm.
  assert (fetch_commit_at_epoch (w_log (reconcile_group_mls_impl (sends true false sent) "g" "alice" world).1) "g" 0 = Some (commit_bytes d)) as Hf.
  { assert (match (prepare_commit (sends true false sent) "g" "alice" world).2 with Ok (Some (_, _, Some d)) =>
      bool_decide (fetch_commit_at_epoch (w_log (reconcile_group_mls_impl (sends true false sent) "g" "alice" world).1) "g" 0 = Some (commit_bytes d)) | _ => false end = true) as Hm by (vm_compute; reflexivity).
    rewrite E in Hm. by apply bool_decide_eq_true_1 in Hm. }
  split; [by eexists|]. exact (Hx w1 already o d eq_refl eq_refl eq_refl eq_refl Hf).
Defined.

(** The request never arrives and the rollback fails; the next run merges. *)
#[local] Definition interrupted : World := (reconcile_group_mls_impl (sends false true None) "g" "alice" world).1.

Lemma leftover_commit_merged_witness : let w' := (reconcile_group_mls_impl (sends false false None) "g" "alice" interrupted).1 in
  mls_commit_log (w_log w') = [] /\ exists g', w_groups w' !! "g" = Some g' /\ (0 < o_epoch g')%N.
Proof.
  cbv zeta. destruct (prepare_commit (sends false false None) "g" "alice" interrupted) as [w1 [[x|]|e]] eqn:E.
  2,3: exfalso; assert (match (prepare_commit (sends false false None) "g" "alice" interrupted).2 with Ok (Some _) => true | _ => false end = true) as Hm by (vm_compute; reflexivity); by rewrite E in Hm.
  assert (w_groups interrupted !! "g" = Some (mkOpen 0 (o_leaves team) (Some ([2%N], [make_credential "bob" "tablet"])))) as Hg by (vm_compute; reflexivity).
  destruct (leftover_commit_merged (sends false false None) "g" "alice" interrupted w1 team _ [2%N] [make_credential "bob" "tablet"] _ x eq_refl Hg eq_refl E) as [Hl Hx].
  split; [|exact Hx]. rewrite Hl. vm_compute. reflexivity.
Defined.

Lemma converge_identity p lost cf s : converge_keeps p (sends lost cf s).
Proof. intros g Hk. by exists g. Qed.

(** Alice revokes her laptop from her phone. *)
#[local] Definition revoked : World * Result unit RevokeError :=
  revoke_device (fun _ => sends false false sent) (Some "phone") (fun _ => false) (Some ("alice", sql)) false "alice" "laptop" world.

Lemma revoked_leaf_stays_witness : exists g', w_groups revoked.1 !! "g" = Some g' /\ ("alice", "laptop") ∈ leaves g' /\ ("mallory", "pc") ∉ leaves g'.
Proof.
  assert (("alice", "laptop") ∈ leaves team) as Hl by (apply (bool_decide_eq_true_1 (_ ∈ _)); by vm_compute).
  assert ("alice" ∈ roster_of main "g") as Hr by (apply (bool_decide_eq_true_1 (_ ∈ _)); by vm_compute).
  assert (safe_id "alice" = "alice") as Hs by (vm_compute; reflexivity).
  assert (revoked.2 = Ok tt) as Hok by (vm_compute; reflexivity).
  assert (match w_groups revoked.1 !! "g" with Some g => bool_decide (("mallory", "pc") ∉ leaves g) | None => false end = true) as Hm by (vm_compute; reflexivity).
  destruct revoked as [w' r] eqn:E. cbn [fst snd] in *. subst r.
  destruct (revoked_leaf_stays (fun _ => sends false false sent) (Some "phone") (fun _ => false) sql false "alice" "laptop" "g" world w' team
    (fun _ => converge_identity _ _ _ _) eq_refl eq_refl Hl Hr Hs E) as (_ & _ & g' & Hg' & Hin & _).
  exists g'. split_and!; [done|done|]. rewrite Hg' in Hm. by apply bool_decide_eq_true_1 in Hm.
Defined.

(** Alice's laptop adds her phone, whose certificate is good, and Carol's tablet; Bob reads the log. *)
#[local] Definition mixed_main : MsgDb :=
  set_key_packages (fun _ => [mkKeyPackage "r1" "alice" (make_credential "alice" "phone") false "2026-01-01" (Some "phone");
                              mkKeyPackage "r2" "carol" (make_credential "carol" "tablet") false "2026-01-01" (Some "tablet")])
    (set_group_members (fun _ => {[("g", "alice") := "admin"; ("g", "bob") := "member"; ("g", "carol") := "member"]})
      (set_devices (fun l => l ++ [mkDeviceRec "pc" "bob" None None; mkDeviceRec "tablet" "carol" None None]) Device.published.1.2)).

#[local] Definition mixed_world : World :=
  mkWorld true {["g" := mkOpen 0 [leaf "alice" "laptop"; leaf "bob" "pc"] None]} mixed_main empty_log.

#[local] Definition laptop_run : Run :=
  mkRun (fun _ => false) (fun _ => Some sql) (fun _ => false) sent false false (fun _ => false) (fun _ => false) false (Some "laptop") (fun g => g).

#[local] Definition mixed_outcome : ReconcileOutcome := mkOutcome [("alice", "phone"); ("carol", "tablet")] [] 0 1 false.

#[local] Definition mixed_data : ReconcileCommitData := mkCommitData (tree_commit 0) (Some [x02]) (Some [x03]).

Lemma mixed_add_wedges_witness : let w' := (reconcile_group_mls_impl laptop_run "g" "alice" mixed_world).1 in
  (match (reconcile_group_mls_impl laptop_run "g" "alice" mixed_world).2 with Ok _ => true | Err _ => false end) = true /\
  replay_from (verify_row Device.now (w_main w')) (fun _ _ => Merged) 0 (fetch_pending (w_log w') "g" 0) = Ok (mkReplay true 0 false [0%N]).
Proof.
  cbv zeta. split; [vm_compute; reflexivity|].
  assert (fetch_pending (w_log (reconcile_group_mls_impl laptop_run "g" "alice" mixed_world).1) "g" 0 =
    [new_row empty_log (submit_body "g" "alice" mixed_outcome mixed_data) (commit_bytes mixed_data) "2026-01-01"]) as -> by (vm_compute; reflexivity).
  assert (find (AccountRoutes.owned "alice" "tablet") (devices (w_main (reconcile_group_mls_impl laptop_run "g" "alice" mixed_world).1)) = None) as Hn by (vm_compute; reflexivity).
  assert (users (w_main (reconcile_group_mls_impl laptop_run "g" "alice" mixed_world).1) !! "alice" ≫= prf_account_id_pub = Some Device.account) as Hu by (vm_compute; reflexivity).
  assert (check_device Device.account "alice" "phone" (w_main (reconcile_group_mls_impl laptop_run "g" "alice" mixed_world).1) = Verified) as Hc1 by (vm_compute; reflexivity).
  assert (check_device Device.account "alice" "tablet" (w_main (reconcile_group_mls_impl laptop_run "g" "alice" mixed_world).1) = AbsentRetry) as Hc2 by (vm_compute; reflexivity).
  revert Hn Hu Hc1 Hc2. generalize (w_main (reconcile_group_mls_impl laptop_run "g" "alice" mixed_world).1). intros db Hn Hu Hc1 Hc2.
  refine (proj2 (mixed_add_wedges Device.now db "g" mixed_outcome mixed_data empty_log "2026-01-01"
    ("alice", "phone") ("carol", "tablet") [("carol", "tablet")] (fun _ _ => Merged) [] (mkReplay true 0 false [0%N]) eq_refl _ _ Hn _ eq_refl eq_refl)).
  - by left.
  - repeat constructor; (done || apply (bool_decide_eq_true_1 (_ ∉ _)); by vm_compute).
  - intros apub d Ha Hd. cbn [fst] in Ha. assert (apub = Device.account) as -> by congruence. cbn [map snd fst] in *.
    apply elem_of_cons in Hd as [->|Hd%list_elem_of_singleton]; [by rewrite Hc1|subst d; by rewrite Hc2].
Defined.
End ReconcileWitnesses.
